(* ===== verification/_CoqProject ===== *)
-Q . S2P
Prelude.v
Stack.v
Rlp.v
RlpSpec.v
RlpRoundtrip.v
RlpCanonical.v
RlpSafe.v
RlpSafeStream.v
Memory.v
Gas.v
Opcodes.v
StateDB.v
Rollup.v
Env.v
OpsArith.v
OpsState.v
Bytecode.v
Calls.v
Interp.v
Executor.v
Frame.v
FrameOps.v
CallFrame.v
CallRules.v
CallOps.v
CallFamily.v
CreateOps.v
Safety.v
Fuel.v
Control.v
Semantics.v
Machine.v
Theorems.v
ExecutorSpec.v
ExecutorTheorems.v
SparseMerkle.v
MerkleSpec.v
Bridge.v
BridgeSpec.v
RollupTheorems.v
RollupConfig.v
BatchManager.v
StateManager.v
FraudProof.v
Sequencing.v
Engine.v
Wp.v
StateManagerSpec.v
FraudProofSpec.v
SolvencySpec.v
EngineSpec.v
LifecycleSpec.v
SequencingTheorems.v
EngineTheorems.v
Gf16.v
Lagrange.v
Erasure.v
ErasureSpec.v
ErasureTheorems.v
Election.v
Qpos.v
QposFinality.v
QposVotes.v
QposSpec.v
QposQuorum.v
QposTheorems.v
ElectionTheorems.v
LiquidStaking.v
LiquidStakingSpec.v
LiquidStakingTheorems.v
