(* ===== verification/Prelude.v ===== *)
(** * A verification development for Quantaureum: virtual machine, rollup, consensus

    Quantaureum (the Go module under src/) is a proof-of-stake chain whose
    contracts run on the QVM, a stack machine close to the EVM with an encoding
    of its own, and which has an optimistic rollup. This development models the
    machine, the executor that runs transactions on it, the rollup from its
    state database to the engine that drives it, the finality and the validators
    of the chain, the erasure code of its blobs, liquid staking and the RLP codec,
    and proves what the rest of the node and the holders of balances rely on.

    ** The parts and how they interact

    A node hands a transaction to the executor (src/qvm/executor.go). The
    executor takes a snapshot of the state database, moves the value, and runs
    the code in the interpreter (src/qvm/qvm.go, src/qvm/environment.go): a loop
    that fetches an instruction, charges its gas (src/qvm/gas.go) and calls its
    handler (src/qvm/operations.go, operations_missing.go, opcodes_extended.go,
    call.go). Handlers work on the stack (src/qvm/stack.go), the memory
    (src/qvm/memory.go) and, through the interface StateDB (src/qvm/qvm.go), the
    accounts. CALL, CREATE and their relatives run another frame, which is the
    same interpreter again. Code is validated and translated by
    src/qvm/validator.go and src/qvm/evm_translate.go. The rollup implements the
    interface in src/rollup/state_db.go. RLP (src/rlp) is the codec of
    transactions and blocks.

    The rollup (src/rollup) collects transactions (sequencer.go) into batches
    (batch.go), which the validator whose turn it is (sequencer_elector.go)
    executes (state_manager.go), commits to with a sparse Merkle tree
    (sparse_merkle.go), publishes on L1 (l1_anchor.go) and submits. During the
    challenge period anyone may prove a batch wrong by executing it again
    (fraud_proof.go). A batch that survives is final, and the bridge (bridge.go)
    pays its withdrawals from what was deposited on L1. The engine (rollup.go)
    drives all this from two timers and the calls of the RPC, and restores it at
    start from the database (persistence.go).

    The chain itself is ordered by QPOS (src/consensus). Stake decides who
    proposes (election.go); a shuffle cuts the validators into the committees of
    the 32 slots of an epoch (qpos_proposer.go, qpos_committee.go), whose members
    attest to blocks (validator.go) with session keys that they rotate
    (validator_session_keys.go). A vote that contradicts an earlier one is refused
    and kept as evidence (qpos_slashing.go). Votes with two thirds of the weight
    justify an epoch, and justified epochs finalize (qpos_finality.go); the roots
    of slots and epochs follow reorganisations up to what is final
    (qpos_forkchoice.go, r101_epoch_root_backfill.go). The validator set is also
    what the rollup's elector asks. Blobs of data are extended by an erasure code
    over GF(2^16) (src/encoding/gf16.go, erasure_code.go), so that half of the
    cells is enough. Delegators who run no validator stake through the pools of
    src/economics/liquid_staking.go.

    ** Which file models which part

    - Prelude (this file): machine integers ([u64], [i64]), fixed-size byte
      arrays that carry the proof of their length, outcomes ([res]: a value, an
      error, a panic, or no fuel), the state-and-error monad [M] with its rules,
      tactics and hints.
    - Stack, Memory, Gas, Opcodes: src/qvm/stack.go, memory.go, gas.go,
      opcodes.go, one definition for each function.
    - StateDB: the interface as the class [StateDB], and what an implementation
      promises as the class [StateDBLaws]: a view of the accounts each getter
      reads and each setter changes, and the journal of snapshots. Views are
      compared by [≈], which identifies absent and empty accounts.
    - Rollup: src/rollup/state_db.go, and the instance that discharges the laws.
    - Env: the frame ([Environment]), the context, and the [World] the frames of
      a transaction share through pointers: the database, the heap of transient
      storage, the reentry counters and the caches.
    - OpsArith, OpsState: the handlers that run no other frame.
    - Bytecode: jump destinations, Validate, QuickValidate, Disassemble,
      Assemble, TranslateEVMBytecode, CreateAddress.
    - Calls: CALL, CALLCODE, DELEGATECALL, STATICCALL, AUTH, AUTHCALL, CREATE,
      CREATE2 and the dispatch of precompiled contracts. The interpreter is an
      argument here.
    - Interp: executeOp, the loop of run, Execute, EstimateGas and the cache of
      jump destinations.
    - Executor: Execute, ExecuteWithRollback, Call, StaticCall, Create, Create2 of
      src/qvm/executor.go and the gas estimator of src/qvm/gas.go.
    - Rlp: src/rlp/encode.go and decode.go. RlpSafe, RlpSafeStream:
      src/rlp/safe_decoder.go.
    - SparseMerkle: sparse_merkle.go. Bridge: both sides of bridge.go, with the
      transactions and batches of batch.go. RollupConfig: config.go and the
      errors. BatchManager: batch.go. StateManager: state_manager.go.
      FraudProof: fraud_proof.go. Sequencing: sequencer.go,
      sequencer_elector.go and the calldata of l1_anchor.go. Engine: rollup.go,
      the retries of l1_anchor.go and RestoreState of persistence.go. A call of
      the running engine, or of either side of the bridge, is a value of [Call],
      and [runCall] is a step of the system; RestoreState comes before them.
    - Election: src/consensus/election.go. Qpos: the record of the engine in
      block.go, which the operations of all these files change. QposFinality:
      effective_balance.go, qpos_finality.go, qpos_forkchoice.go,
      r101_epoch_root_backfill.go, what a seal does to the checkpoints
      (advanceQPOSFinalityForSeal of qtd_finality.go) and what the header of a
      synced block does (ApplyBlockHeader of qpos_proposer.go). QposVotes: the
      rest of qpos_proposer.go, qpos_committee.go, qpos_slashing.go, validator.go
      and validator_session_keys.go, and the pruning of votes in epoch.go.
    - Gf16: src/encoding/gf16.go. Erasure: src/encoding/erasure_code.go.
    - LiquidStaking: src/economics/liquid_staking.go.

    ** What the theorems show

    - Stack, Memory: any sequence of operations behaves as a bounded list of
      words, and as an infinite zero-filled array of bytes.
    - Gas: the meter never exceeds its limit, the 63/64 rule holds, and the cost
      functions agree where two of them compute the same cost.
    - Bytecode: the jump destinations are exactly the JUMPDEST bytes that start
      an instruction; the strict validator accepts exactly the well-formed codes;
      translation keeps the layout of the code; assembling a disassembly gives
      the code back.
    - Frame, FrameOps: the invariant of a frame, and that every instruction that
      runs no other frame keeps it without a panic. CallFrame, CallRules,
      CallOps, CallFamily, CreateOps: a Hoare logic for those that do, and
      each of them. Safety ties both together by induction on the fuel.
    - Theorems: for whole executions: termination within the gas, no panics,
      rollback of failed calls, read-only execution, no minting, survival of
      snapshots, restored bookkeeping. Semantics: the arithmetic instructions
      compute the mathematical functions. Control: the program counter stays on
      instruction boundaries, and the depth limit holds. Fuel: the result does
      not depend on the fuel.
    - ExecutorSpec, ExecutorTheorems: the same guarantees for transactions; that
      deployed code has passed its checks; that gas estimation ends, changes
      nothing and finds an amount that is enough while one less is not.
    - RlpSpec, RlpRoundtrip: decoding gives back what was encoded, and sizes are
      exact, but for interfaces and pointers to values that are encoded as the
      empty string. RlpCanonical: a value has a single encoding, for types without
      arrays, structs and interfaces. RlpSafe: the validator accepts exactly the nested
      structures within its limits. RlpSafeStream: the budget of bytes holds.
    - Machine holds the concrete interpreter at which the theorems are applied.
    - MerkleSpec, BridgeSpec, RollupTheorems: the sparse tree computes the root
      of the full binary tree, its proofs are exact, roots commit to accounts and
      withdrawals, and the bridge pays what was committed and mints a deposit
      once. Statements about hashes are of the form: the claim holds, or two of
      the strings that are hashed in this very situation, which the statement
      names, have the same hash. No hash is assumed to be injective, and the
      alternative is not the existence of some collision, which every function
      into 32 bytes has.
    - Wp: weakest preconditions for the monad. StateManagerSpec: what executing a
      batch does to balances, against an interface of the contract executor
      that the executor of the machine discharges. FraudProofSpec: what the
      prover accepts. SolvencySpec: what the bridge owes. EngineSpec: the
      invariant of the engine. LifecycleSpec: how batches change status.
    - EngineTheorems: through any sequence of calls the bridge can pay what it
      owes, up to what was claimed on L1 directly (where a withdrawal can be paid
      twice), the state stays well formed, and a batch moves only forward; a batch
      is final only when it is due, and is decided by the next tick when it is; a
      wrong batch that is challenged is never paid; execution is all or nothing.
      The last theorems show where the code does less than it means to: deposits
      that stop batches, negative withdrawals, proofs about a single
      transaction, and challenges after a restart.
    - SequencingTheorems: one node at a time builds, and the published calldata
      determines the transactions.
    - ElectionTheorems: the index and the stakes of the validator set stay
      consistent, the binary search chooses in proportion to stake, and the
      committees of an epoch are all validators, samples of them, or a partition,
      by the number of validators and the epoch.
    - QposSpec: the operations of a node as a state machine, and what each leaves
      alone. QposQuorum: weights of sets of validators, and the intersection of
      quorums. QposTheorems: checkpoints never go back, short of the reset that
      an operator can order, justification needs a quorum, two justified roots of
      one epoch expose a third of the weight, recorded votes never conflict where
      the voting manager hands over none that do, the evidence queue is bounded,
      and a reorganisation spares what is final; other theorems show a finalized
      root that a replayed header overwrites, a synced vote that nothing checks,
      finality that conflicts without a slashable vote, a justified root that is
      pruned,
      a session key dropped by a forged vote and a mark that changes owner.
    - Lagrange: interpolation over any field. ErasureSpec, ErasureTheorems: the
      tables compute the field of 2^16 elements, any half of the cells gives
      the blob back, and the sparse matrix is the full one.
    - LiquidStakingSpec: the operations of the manager as transitions, and the
      invariant of the ledger. LiquidStakingTheorems: QAU is conserved, the
      stake of a pool covers its tokens, the rate never falls, a stake can be
      taken back, and rewards that are folded in never leave the pool.

    ** Fuel and bounds

    Frames call frames, so the interpreter recurses on fuel, and a run without
    fuel has the outcome [NoFuel], which no theorem counts as a result. A frame
    with gas [g] needs [frame_fuel g = 2 * g + 2]: the measure is twice the gas
    that is left plus the height of the stack, and every iteration lowers it.
    Loops over code have the length of the code as fuel; the search of the gas
    estimator takes 64 steps, the width of its operands. Integers are [Z] and
    wrap where Go's do. The length of a slice is below 2^63, as in Go. Theorems
    about execution assume the default gas table, a state database that keeps the
    laws, balances that are not negative, and precompiled contracts that return,
    mint nothing, and write no state unless they declare themselves stateful.
    The rollup needs no fuel: its loops run over lists, over the 160 levels of
    the tree and over a fixed number of retries. The binary search for a proposer
    has the number of validators plus one as fuel, and each step halves the
    range. The number [n] of cells of a blob, 4096 in the code, is an argument;
    the theorems hold for every [n] below 2^15, beyond which the points of the
    code would no longer be distinct in the field.

    ** Not modelled

    - Cryptography: the hashes, Kyber, signature recovery and the precompiled
      contracts are parameters.
    - Concurrency: mutexes, goroutines and channels. The abort channel is the
      sequence of answers it gives; the clock of EstimateGas is a parameter. The
      parallel executor is left out.
    - The JIT, which NewExecutor does not build; tracers; log output; switches
      behind environment variables.
    - Nil contexts and nil block contexts; the text of wrapped errors beyond the
      first message.
    - RLP targets that implement Encoder or Decoder, and readers that deliver
      less than they have.
    - Around the rollup: the writes of the database and their key layout, metrics,
      the read-only queries of the RPC, the handover messages of the elector, the
      JSON form of calldata, and L1 bridges other than the in-memory one. The
      timers are sequences of ticks whose clock and L1 outages are arguments.
    - Around consensus: the voting and slashing managers and what goroutines do
      with queued evidence, rewards and penalties, the making of seals with
      threshold signatures and their key generation, the VRF and the VDF. Signature checks and hashes are
      parameters, the clock is an argument, and so is the order in which a Go map
      is ranged over where a result depends on it.
    - The rest of the encodings (wire codecs, commitments to blobs, sampling) and
      of the economics (rewards, validator staking, fees, lending, liquidity
      pools).
    - The other packages: networking, storage engine, RPC, wallets, the
      transaction pool and the services around the node. Most of their code is
      input and output, goroutines, or bindings of libraries. *)

From Stdlib Require Import ZArith Lia.
From Stdlib.Strings Require Import Byte.
From stdpp Require Import base list countable gmap strings numbers.

#[global] Open Scope Z_scope.

(** ** Arithmetic at machine width *)

(** A [uint64] is a [Z] between 0 and [2^64 - 1]; every Go operation that can
    wrap is written with [u64]. *)
Definition u64 (z : Z) : Z := z mod 2 ^ 64.

(** [int64(v)] and [int(v)]: two's complement at 64 bits. *)
Definition i64 (v : Z) : Z := (v + 2 ^ 63) mod 2 ^ 64 - 2 ^ 63.

Definition MaxUint64 : Z := 2 ^ 64 - 1.

Definition is_u64 (z : Z) : Prop := 0 <= z < 2 ^ 64.

Definition W256 : Z := 2 ^ 256.

(** Solves linear goals with divisions and remainders by constants. *)
Ltac zlia := Z.to_euclidean_division_equations; lia.

(** Splits on the first comparison of the goal and drops the case arithmetic
    refutes. *)
Ltac no_if x := lazymatch x with context [if _ then _ else _] => fail | _ => idtac end.
Ltac zcase_step :=
  match goal with
  | |- context [?a <? ?b] =>
      no_if a; no_if b; destruct (Z.ltb_spec a b); try (exfalso; zlia)
  | |- context [?a <=? ?b] =>
      no_if a; no_if b; destruct (Z.leb_spec a b); try (exfalso; zlia)
  | |- context [?a =? ?b] =>
      no_if a; no_if b; destruct (Z.eqb_spec a b); try (exfalso; zlia)
  end; simpl orb; simpl andb; cbv iota.
Ltac zcases := repeat zcase_step.

Create HintDb qvm.
Create Rewrite HintDb qvm.

Lemma u64_range z : is_u64 (u64 z).
Proof. unfold is_u64, u64. zlia. Qed.

Lemma u64_small z : is_u64 z -> u64 z = z.
Proof. unfold is_u64, u64. intros. apply Z.mod_small. lia. Qed.

Lemma i64_small v : - 2 ^ 63 <= v < 2 ^ 63 -> i64 v = v.
Proof. intros. unfold i64. rewrite Z.mod_small; lia. Qed.

Lemma u64_idemp z : u64 (u64 z) = u64 z.
Proof. apply u64_small, u64_range. Qed.

#[export] Hint Resolve u64_range : qvm.
#[export] Hint Rewrite u64_idemp : qvm.

(** ** Bytes *)

Definition b2z (b : byte) : Z := Z.of_N (Byte.to_N b).

(** Go's conversion [byte(x)]: the low eight bits. *)
Definition z2b (z : Z) : byte :=
  match Byte.of_N (Z.to_N (z mod 256)) with
  | Some b => b
  | None => x00
  end.

#[export] Instance byte_eq_dec : EqDecision byte := Byte.byte_eq_dec.
#[export] Instance byte_inhabited : Inhabited byte := populate x00.

Lemma b2z_range b : 0 <= b2z b < 256.
Proof. unfold b2z. pose proof (Byte.to_N_bounded b). lia. Qed.

Lemma z2b_b2z b : z2b (b2z b) = b.
Proof.
  unfold z2b. rewrite Z.mod_small by apply b2z_range.
  unfold b2z. rewrite N2Z.id, Byte.of_to_N. reflexivity.
Qed.

Lemma b2z_z2b z : b2z (z2b z) = z mod 256.
Proof.
  unfold z2b, b2z. destruct (Byte.of_N _) eqn:E.
  - apply Byte.to_of_N_iff in E. subst. rewrite E. zlia.
  - apply Byte.of_N_None_iff in E. exfalso. zlia.
Qed.

Lemma b2z_inj a b : b2z a = b2z b -> a = b.
Proof. intros H. rewrite <- (z2b_b2z a), <- (z2b_b2z b), H. reflexivity. Qed.

Lemma z2b_mod z : z2b (z mod 256) = z2b z.
Proof. unfold z2b. rewrite Z.mod_mod by lia. reflexivity. Qed.

#[export] Instance byte_countable : Countable byte.
Proof.
  refine (inj_countable b2z (fun z => Some (z2b z)) _).
  intros. by rewrite z2b_b2z.
Defined.

#[export] Hint Resolve b2z_range : qvm.
#[export] Hint Rewrite z2b_b2z b2z_z2b : qvm.

(** ** Big-endian numbers *)

(** [big.Int.SetBytes]: the number a byte string denotes, big-endian. *)
Definition be (l : list byte) : Z := foldl (fun acc b => acc * 256 + b2z b) 0 l.

(** The [n] low bytes of [z], most significant first. *)
Fixpoint be_bytes (n : nat) (z : Z) : list byte :=
  match n with
  | O => []
  | S n' => be_bytes n' (z / 256) ++ [z2b z]
  end.

Definition pow256 (n : nat) : Z := 256 ^ Z.of_nat n.

Lemma pow256_S n : pow256 (S n) = 256 * pow256 n.
Proof. unfold pow256. rewrite Nat2Z.inj_succ, Z.pow_succ_r; lia. Qed.

Lemma pow256_add n m : pow256 (n + m) = pow256 n * pow256 m.
Proof. unfold pow256. rewrite Nat2Z.inj_add, Z.pow_add_r; lia. Qed.

Lemma pow256_pos n : 0 < pow256 n.
Proof. unfold pow256. apply Z.pow_pos_nonneg; lia. Qed.

#[export] Hint Resolve pow256_pos : qvm.

Lemma be_snoc l b : be (l ++ [b]) = be l * 256 + b2z b.
Proof. unfold be. rewrite foldl_app. reflexivity. Qed.

Lemma be_app l k : be (l ++ k) = be l * pow256 (length k) + be k.
Proof.
  induction k as [|b k IH] using rev_ind.
  - rewrite app_nil_r. simpl. unfold pow256, be at 3. simpl. lia.
  - rewrite app_assoc, !be_snoc, IH, length_app, Nat.add_1_r, pow256_S. lia.
Qed.

Lemma be_range l : 0 <= be l < pow256 (length l).
Proof.
  induction l as [|b l IH] using rev_ind; [done|].
  rewrite be_snoc, length_app, Nat.add_1_r, pow256_S.
  pose proof (b2z_range b). lia.
Qed.

Lemma be_replicate n : be (replicate n x00) = 0.
Proof.
  induction n as [|n IH]; [done|].
  rewrite replicate_S_end, be_snoc, IH. reflexivity.
Qed.

Lemma be_zeros_app n l : be (replicate n x00 ++ l) = be l.
Proof. rewrite be_app, be_replicate. lia. Qed.

Lemma length_be_bytes n z : length (be_bytes n z) = n.
Proof.
  revert z. induction n as [|n IH]; intros z; [done|].
  simpl. rewrite length_app, IH. simpl. lia.
Qed.

Lemma be_be_bytes n z : be (be_bytes n z) = z mod pow256 n.
Proof.
  revert z. induction n as [|n IH]; intros z.
  - unfold pow256. simpl. by rewrite Z.mod_1_r.
  - simpl. rewrite be_snoc, IH, b2z_z2b, pow256_S.
    rewrite Z.rem_mul_r by (pose proof (pow256_pos n); lia). lia.
Qed.

Lemma be_bytes_be l : be_bytes (length l) (be l) = l.
Proof.
  induction l as [|b l IH] using rev_ind; [done|].
  rewrite length_app, Nat.add_1_r. simpl. rewrite be_snoc.
  pose proof (b2z_range b).
  rewrite Z.div_add_l, Z.div_small, Z.add_0_r, IH by lia.
  f_equal. f_equal. apply b2z_inj. rewrite b2z_z2b.
  rewrite Z.add_comm, Z.mod_add, Z.mod_small; lia.
Qed.

Lemma be_inj l k : length l = length k -> be l = be k -> l = k.
Proof. intros HL HE. by rewrite <- (be_bytes_be l), <- (be_bytes_be k), HL, HE. Qed.

#[export] Hint Rewrite length_be_bytes be_be_bytes be_bytes_be : qvm.

(** ** Fixed-size byte arrays *)

(** Go's [[n]byte]: a byte list of length [n]. The bound is a boolean, so the
    equality of two arrays is the equality of their bytes. *)
Record array (n : nat) : Type := Arr {
  bytes_of : list byte;
  bytes_len : Is_true (Nat.eqb (length bytes_of) n)
}.
Arguments Arr {n} _ _.
Arguments bytes_of {n} _.
Arguments bytes_len {n} _.

(** A proof of [Is_true b] that evaluates to [I] when [b] is closed. *)
Definition norm_true (b : bool) : Is_true b -> Is_true b :=
  match b with
  | true => fun _ => I
  | false => fun H => H
  end.

Lemma len_ok (l : list byte) n : length l = n -> Is_true (Nat.eqb (length l) n).
Proof. intros ->. by rewrite Nat.eqb_refl. Qed.

Definition mk_array {n} (l : list byte) (H : length l = n) : array n :=
  Arr l (norm_true _ (len_ok l n H)).

Lemma length_bytes_of {n} (a : array n) : length (bytes_of a) = n.
Proof. destruct a as [l H]. simpl. by apply Is_true_true, Nat.eqb_eq in H. Qed.

Lemma array_eq {n} (a b : array n) : bytes_of a = bytes_of b -> a = b.
Proof.
  destruct a as [l H], b as [k K]. simpl. intros ->. f_equal.
  destruct (Nat.eqb (length k) n); [by destruct H, K | done].
Qed.

#[export] Instance array_eq_dec {n} : EqDecision (array n).
Proof.
  intros a b. destruct (decide (bytes_of a = bytes_of b)) as [E|E].
  - left. by apply array_eq.
  - right. intros ->. by apply E.
Defined.

(** The array whose bytes denote [z] modulo [256^n]. *)
Definition array_of_Z (n : nat) (z : Z) : array n :=
  mk_array (be_bytes n z) (length_be_bytes n z).

Definition array_to_Z {n} (a : array n) : Z := be (bytes_of a).

Lemma array_to_of_Z n z : array_to_Z (array_of_Z n z) = z mod pow256 n.
Proof. apply be_be_bytes. Qed.

Lemma array_of_to_Z {n} (a : array n) : array_of_Z n (array_to_Z a) = a.
Proof.
  apply array_eq. simpl. unfold array_to_Z.
  rewrite <- (length_bytes_of a) at 1. apply be_bytes_be.
Qed.

Lemma array_to_Z_inj {n} (a b : array n) : array_to_Z a = array_to_Z b -> a = b.
Proof. intros H. by rewrite <- (array_of_to_Z a), <- (array_of_to_Z b), H. Qed.

Lemma array_to_Z_range {n} (a : array n) : 0 <= array_to_Z a < pow256 n.
Proof. unfold array_to_Z. pose proof (be_range (bytes_of a)) as H. by rewrite length_bytes_of in H. Qed.

#[export] Instance array_countable {n} : Countable (array n).
Proof.
  refine (inj_countable array_to_Z (fun z => Some (array_of_Z n z)) _).
  intros. by rewrite array_of_to_Z.
Defined.

(** [var a [n]byte]. *)
Definition zero_array (n : nat) : array n :=
  mk_array (replicate n x00) (length_replicate n x00).

#[export] Instance array_inhabited {n} : Inhabited (array n) := populate (zero_array n).

Lemma zero_array_to_Z n : array_to_Z (zero_array n) = 0.
Proof. apply be_replicate. Qed.

(** ** Go slices *)

(** [len(s)] *)
Definition len {A} (l : list A) : Z := Z.of_nat (length l).

Lemma len_nonneg {A} (l : list A) : 0 <= len l.
Proof. unfold len. lia. Qed.

Lemma len_app {A} (l k : list A) : len (l ++ k) = len l + len k.
Proof. unfold len. rewrite length_app. lia. Qed.

#[export] Hint Resolve len_nonneg : qvm.

(** The bytes [s[lo:hi]] when the bounds hold. *)
Definition sub {A} (l : list A) (lo hi : Z) : list A :=
  take (Z.to_nat (hi - lo)) (drop (Z.to_nat lo) l).

(** [s[lo:hi]]: [None] where Go panics with a slice bound out of range. *)
Definition slice {A} (l : list A) (lo hi : Z) : option (list A) :=
  if (0 <=? lo) && (lo <=? hi) && (hi <=? len l) then Some (sub l lo hi) else None.

(** The destination after [copy(dst, src)]. *)
Definition copy {A} (dst src : list A) : list A :=
  take (length dst) src ++ drop (length src) dst.

(** The list after [copy(l[off:], src)], with [off] in range. *)
Definition copy_at {A} (l : list A) (off : Z) (src : list A) : list A :=
  take (Z.to_nat off) l ++ copy (drop (Z.to_nat off) l) src.

(** [make([]byte, n)] *)
Definition zeros (n : Z) : list byte := replicate (Z.to_nat n) x00.

(** [for _, x := range l] with the loop index, for side conditions on positions. *)
Definition nth_byte (l : list byte) (i : Z) : byte := nth (Z.to_nat i) l x00.

Lemma length_copy {A} (dst src : list A) : length (copy dst src) = length dst.
Proof. unfold copy. rewrite length_app, length_take, length_drop. lia. Qed.

Lemma copy_at_nil {A} (l : list A) off : copy_at l off [] = l.
Proof. unfold copy_at, copy. rewrite take_nil, drop_0. apply take_drop. Qed.

Lemma len_zeros n : 0 <= n -> len (zeros n) = n.
Proof. unfold len, zeros. rewrite length_replicate. lia. Qed.

Lemma len_copy_at {A} (l : list A) off src :
  0 <= off <= len l -> len (copy_at l off src) = len l.
Proof.
  unfold len, copy_at. intros.
  rewrite length_app, length_copy, length_take, length_drop. lia.
Qed.

Lemma len_sub {A} (l : list A) lo hi :
  0 <= lo <= hi -> hi <= len l -> len (sub l lo hi) = hi - lo.
Proof. unfold len, sub. intros. rewrite length_take, length_drop. lia. Qed.

Lemma slice_Some {A} (l : list A) lo hi :
  0 <= lo <= hi -> hi <= len l -> slice l lo hi = Some (sub l lo hi).
Proof.
  intros H1 H2. unfold slice.
  by rewrite !(proj2 (Z.leb_le _ _)) by lia.
Qed.

#[export] Hint Rewrite @length_copy : qvm.

(** ** Sums over maps *)

Section sums.
Context {K A : Type} `{Countable K} (f : A -> Z).

Definition msum (m : gmap K A) : Z := map_fold (fun _ a n => f a + n) 0 m.

Lemma msum_empty : msum ∅ = 0.
Proof. apply map_fold_empty. Qed.

Lemma msum_insert_new k a m : m !! k = None -> msum (<[k := a]> m) = f a + msum m.
Proof. intros Hk. unfold msum. rewrite map_fold_insert_L; [done|intros; lia|done]. Qed.

Lemma msum_insert k a m : msum (<[k := a]> m) = msum m + f a - default 0 (f <$> m !! k).
Proof.
  destruct (m !! k) as [x|] eqn:E; cbn [fmap option_fmap option_map default]; [|rewrite msum_insert_new by done; simpl; lia].
  rewrite <- (insert_delete_id m k x E) at 2. rewrite <- insert_delete_eq, !msum_insert_new by apply lookup_delete_eq. simpl. lia.
Qed.

Lemma msum_alter g k m : msum (alter g k m) = msum m + default 0 ((fun a => f (g a) - f a) <$> m !! k).
Proof.
  destruct (m !! k) as [x|] eqn:E; cbn [fmap option_fmap option_map default].
  - assert (EA : alter g k m = <[k := g x]> m)
      by (apply map_eq; intros i; destruct (decide (k = i)) as [<-|];
          [by rewrite lookup_alter_eq, lookup_insert_eq, E|by rewrite lookup_alter_ne, lookup_insert_ne]).
    rewrite EA, msum_insert, E. simpl. lia.
  - rewrite alter_id; [simpl; lia|]. intros y. by rewrite E.
Qed.

Lemma msum_nonneg m : map_Forall (fun _ a => 0 <= f a) m -> 0 <= msum m.
Proof.
  induction m as [|k a m Hk IH] using map_ind; [done|]. intros HF. apply map_Forall_insert in HF as [Ha HF]; [|done].
  rewrite msum_insert_new by done. specialize (IH HF). lia.
Qed.

Lemma msum_elem k a m : map_Forall (fun _ a => 0 <= f a) m -> m !! k = Some a -> f a <= msum m.
Proof.
  intros HF E. rewrite <- (insert_delete_id m k a E), msum_insert_new by apply lookup_delete_eq.
  pose proof (msum_nonneg (delete k m) (map_Forall_delete _ _ _ HF)). lia.
Qed.
End sums.

(** ** Results and the state monad *)

(** The error values of package qvm. A value built with [fmt.Errorf] carries
    the text of its format. *)
Inductive error : Set :=
  | ErrStackOverflow
  | ErrStackUnderflow
  | ErrInvalidIndex
  | ErrMemoryOverflow
  | ErrInvalidOffset
  | ErrOutOfGas
  | ErrGasOverflow
  | ErrGasEstimation
  | ErrInvalidOpcode
  | ErrInvalidJumpDest
  | ErrWriteProtection
  | ErrReturnDataOutOfBounds
  | ErrMaxCodeSizeExceeded
  | ErrContractAddressCollision
  | ErrExecutionReverted
  | ErrDepthExceeded
  | ErrInsufficientBalance
  | ErrInvalidNonce
  | ErrNonceOverflow
  | ErrZeroAddress
  | ErrExponentTooLarge
  | ErrNonDeterministicOpcode
  | ErrInitCodeSizeExceeded
  | ErrPanicRecovery
  | ErrInvalidBytecode
  | ErrCodeTooLarge
  | ErrInvalidPushData
  | ErrUnknownOpcode
  | ErrInvalidJumpTarget
  | ErrStackImbalance
  | ErrInvalidCodePrefix
  | ErrErrorf (msg : string).

#[export] Instance error_eq_dec : EqDecision error.
Proof. solve_decision. Defined.

(** The outcome of Go code: a value, an error, a run-time panic (an index or a
    slice bound out of range), or a model that ran out of fuel. *)
Inductive res (A : Type) : Type :=
  | Ok (a : A)
  | Err (e : error)
  | Panic
  | NoFuel.
Arguments Ok {A} a.
Arguments Err {A} e.
Arguments Panic {A}.
Arguments NoFuel {A}.

(** Code that mutates a state of type [S]. A failure keeps the mutations made
    before it, as in Go. *)
Definition M (S A : Type) : Type := S -> res A * S.

#[export] Instance M_ret S : MRet (M S) := fun A a s => (Ok a, s).

#[export] Instance M_bind S : MBind (M S) := fun A B f m s =>
  match m s with
  | (Ok a, s') => f a s'
  | (Err e, s') => (Err e, s')
  | (Panic, s') => (Panic, s')
  | (NoFuel, s') => (NoFuel, s')
  end.

Section monad.
Context {S : Type}.

Definition throw {A} (e : error) : M S A := fun s => (Err e, s).
Definition panic {A} : M S A := fun s => (Panic, s).
Definition gets {A} (f : S -> A) : M S A := fun s => (Ok (f s), s).
Definition modify (f : S -> S) : M S unit := fun s => (Ok tt, f s).

(** [if b { return e }] *)
Definition guard_err (b : bool) (e : error) : M S unit :=
  if b then throw e else mret tt.

(** An expression that panics on [None]. *)
Definition or_panic {A} (o : option A) : M S A :=
  match o with Some a => mret a | None => panic end.

(** Runs [m] and hands its error to the caller as a value, for the code that
    inspects [err] instead of returning it. *)
Definition attempt {A} (m : M S A) : M S (error + A) := fun s =>
  match m s with
  | (Ok a, s') => (Ok (inr a), s')
  | (Err e, s') => (Ok (inl e), s')
  | (Panic, s') => (Panic, s')
  | (NoFuel, s') => (NoFuel, s')
  end.

(** [defer f()] around [m]: [f] runs on every exit. *)
Definition defer {A} (f : S -> S) (m : M S A) : M S A := fun s =>
  let '(r, s') := m s in (r, f s').
End monad.

(** A method of a component held in a field of a larger state. *)
Definition zoom {S T A} (get : T -> S) (set : S -> T -> T) (m : M S A) : M T A :=
  fun t => let '(r, s) := m (get t) in (r, set s t).

(** ** Reasoning about monadic code *)

Lemma bind_Ok {S A B} (m : M S A) (f : A -> M S B) s a s' :
  m s = (Ok a, s') -> (m ≫= f) s = f a s'.
Proof. unfold mbind, M_bind. by intros ->. Qed.

Lemma bind_Err {S A B} (m : M S A) (f : A -> M S B) s e s' :
  m s = (Err e, s') -> (m ≫= f) s = (Err e, s').
Proof. unfold mbind, M_bind. by intros ->. Qed.

Lemma bind_gets {S A B} (g : S -> A) (f : A -> M S B) s : (gets g ≫= f) s = f (g s) s.
Proof. done. Qed.

Lemma bind_modify {S B} (g : S -> S) (f : unit -> M S B) s :
  (modify g ≫= f) s = f tt (g s).
Proof. done. Qed.

Lemma bind_ret {S A B} (a : A) (f : A -> M S B) s : (mret a ≫= f) s = f a s.
Proof. done. Qed.

Lemma bind_guard {S B} (b : bool) e (f : unit -> M S B) s :
  (guard_err b e ≫= f) s = if b then (Err e, s) else f tt s.
Proof. by destruct b. Qed.

(** [sat R m]: every run of [m] relates its initial and final state by [R],
    whatever its outcome. *)
Definition sat {S A} (R : S -> S -> Prop) (m : M S A) : Prop :=
  forall s, R s (m s).2.

Section sat.
Context {S : Type} (R : S -> S -> Prop) `{!PreOrder R}.

Lemma sat_ret {A} (a : A) : sat R (mret a).
Proof. intros s. simpl. reflexivity. Qed.

Lemma sat_throw {A} e : sat R (throw (A:=A) e).
Proof. intros s. simpl. reflexivity. Qed.

Lemma sat_panic {A} : sat R (panic (A:=A)).
Proof. intros s. simpl. reflexivity. Qed.

Lemma sat_gets {A} (f : S -> A) : sat R (gets f).
Proof. intros s. simpl. reflexivity. Qed.

Lemma sat_guard b e : sat R (guard_err b e).
Proof. destruct b; [apply sat_throw | apply sat_ret]. Qed.

Lemma sat_or_panic {A} (o : option A) : sat R (or_panic o).
Proof. destruct o; [apply sat_ret | apply sat_panic]. Qed.

Lemma sat_modify f : (forall s, R s (f s)) -> sat R (modify f).
Proof. intros H s. apply H. Qed.

Lemma sat_bind {A B} (m : M S A) (f : A -> M S B) :
  sat R m -> (forall a, sat R (f a)) -> sat R (m ≫= f).
Proof.
  intros Hm Hf s. specialize (Hm s). unfold mbind, M_bind.
  destruct (m s) as [[a|e| |] s']; simpl in *; try done.
  etransitivity; [exact Hm | apply Hf].
Qed.

Lemma sat_attempt {A} (m : M S A) : sat R m -> sat R (attempt m).
Proof.
  intros Hm s. specialize (Hm s). unfold attempt.
  by destruct (m s) as [[a|e| |] s'].
Qed.
End sat.

Lemma sat_weaken {S A} (R1 R2 : S -> S -> Prop) (m : M S A) :
  (forall s t, R1 s t -> R2 s t) -> sat R1 m -> sat R2 m.
Proof. intros HR Hm s. apply HR, Hm. Qed.

#[export] Hint Resolve sat_ret sat_throw sat_panic sat_gets sat_guard sat_or_panic
  sat_attempt : qvm.
