(* ===== verification/Stack.v ===== *)
(** * Words and the operand stack (qvm/stack.go)

    [Word] is the 256-bit stack word with its conversions, [Stack] the operand
    stack. The stack keeps the order of the Go slice: the top is the last
    element. [of_top] presents a stack by the list of its words from the top,
    which is how the instructions see it. *)

From Stdlib Require Import ZArith Lia.
From Stdlib.Strings Require Import Byte.
From stdpp Require Import base list countable gmap strings numbers.
From S2P Require Import Prelude.

Definition MaxStackSize : Z := 1024.
Definition WordSize : nat := 32.

(** [type Word [WordSize]byte]; hashes and addresses are the arrays of
    package types. *)
Abbreviation Word := (array 32).
Abbreviation Hash := (array 32).
Abbreviation Address := (array 20).

(** The number a word denotes. *)
Abbreviation wz := (@array_to_Z 32).

(** ** Conversions *)

Lemma length_copy_at {n} (l : list byte) off src :
  length l = n -> (Z.to_nat off <= n)%nat -> length (copy_at l off src) = n.
Proof.
  intros <- H. unfold copy_at.
  rewrite length_app, length_copy, length_take, length_drop. lia.
Qed.

Lemma length_right_align data :
  length (copy_at (zeros 32) (Z.max 0 (32 - len data)) data) = 32%nat.
Proof. apply length_copy_at; [done|]. unfold len. lia. Qed.

(** [copy(w[WordSize-len(data):], data)] for data of at most a word. *)
Definition right_align (data : list byte) : Word :=
  mk_array (copy_at (zeros 32) (Z.max 0 (32 - len data)) data) (length_right_align data).

Definition NewWord (data : list byte) : Word :=
  let data := if 32 <? len data then drop (Z.to_nat (len data - 32)) data else data in
  right_align data.

(** The loop [w[WordSize-1-i] = byte(v >> (8*i))] over [i < 8]. *)
Fixpoint put_uint64 (v : Z) (i : nat) (w : list byte) : list byte :=
  match i with
  | O => w
  | S i' => <[(31 - i')%nat := z2b (Z.shiftr v (8 * Z.of_nat i'))]> (put_uint64 v i' w)
  end.

Lemma length_put_uint64 v i w : length (put_uint64 v i w) = length w.
Proof. induction i as [|i IH]; [done|]. simpl. by rewrite length_insert. Qed.

Definition NewWordFromUint64 (v : Z) : Word :=
  mk_array (put_uint64 v 8 (zeros 32)) (length_put_uint64 v 8 (zeros 32)).

(** [big.Int.Bytes]: the absolute value, big-endian, without leading zeros. *)
Definition big_bytes (v : Z) : list byte :=
  if v =? 0 then [] else be_bytes (Z.to_nat (Z.log2 (Z.abs v) / 8 + 1)) (Z.abs v).

Definition NewWordFromBigInt (v : option Z) : Word :=
  match v with
  | None => zero_array 32
  | Some v =>
      let bytes := big_bytes v in
      let bytes := if 32 <? len bytes then drop (Z.to_nat (len bytes - 32)) bytes else bytes in
      right_align bytes
  end.

(** The loop [v |= uint64(w[WordSize-1-i]) << (8*i)] over [i < 8]. *)
Fixpoint get_uint64 (w : list byte) (i : nat) : Z :=
  match i with
  | O => 0
  | S i' => Z.lor (get_uint64 w i')
                  (u64 (Z.shiftl (b2z (nth (31 - i') w x00)) (8 * Z.of_nat i')))
  end.

Definition ToUint64 (w : Word) : Z := get_uint64 (bytes_of w) 8.

Definition ToBigInt (w : Word) : Z := be (bytes_of w).

Definition IsZero (w : Word) : bool := forallb (fun b => b2z b =? 0) (bytes_of w).

(** ** The stack *)

Record Stack : Type := mkStack { stk_data : list Word }.

Definition NewStack : Stack := mkStack [].

(** The capacity growth of the Go slice has no effect on its contents. *)
Definition Push (w : Word) : M Stack unit := fun s =>
  if MaxStackSize <=? len (stk_data s) then (Err ErrStackOverflow, s)
  else (Ok tt, mkStack (stk_data s ++ [w])).

Definition PushUint64 (v : Z) : M Stack unit := Push (NewWordFromUint64 v).

Definition PushBigInt (v : option Z) : M Stack unit := Push (NewWordFromBigInt v).

Definition Pop : M Stack Word := fun s =>
  match stk_data s !! (length (stk_data s) - 1)%nat with
  | None => (Err ErrStackUnderflow, s)
  | Some w => (Ok w, mkStack (take (length (stk_data s) - 1) (stk_data s)))
  end.

Definition PopUint64 : M Stack Z := w ← Pop; mret (ToUint64 w).

Definition PopBigInt : M Stack Z := w ← Pop; mret (ToBigInt w).

Definition Peek : M Stack Word := fun s =>
  match stk_data s !! (length (stk_data s) - 1)%nat with
  | None => (Err ErrStackUnderflow, s)
  | Some w => (Ok w, s)
  end.

Definition PeekN (n : Z) : M Stack Word := fun s =>
  if (n <? 0) || (len (stk_data s) <=? n) then (Err ErrInvalidIndex, s)
  else match stk_data s !! Z.to_nat (len (stk_data s) - 1 - n) with
       | Some w => (Ok w, s)
       | None => (Panic, s)
       end.

Definition Dup (n : Z) : M Stack unit := fun s =>
  if (n <? 1) || (len (stk_data s) <? n) then (Err ErrInvalidIndex, s)
  else match stk_data s !! Z.to_nat (len (stk_data s) - n) with
       | Some w => Push w s
       | None => (Panic, s)
       end.

Definition Swap (n : Z) : M Stack unit := fun s =>
  if (n <? 1) || (len (stk_data s) <=? n) then (Err ErrInvalidIndex, s)
  else
    let top := Z.to_nat (len (stk_data s) - 1) in
    let other := Z.to_nat (len (stk_data s) - 1 - n) in
    match stk_data s !! top, stk_data s !! other with
    | Some a, Some b => (Ok tt, mkStack (<[other := a]> (<[top := b]> (stk_data s))))
    | _, _ => (Panic, s)
    end.

Definition Len (s : Stack) : Z := len (stk_data s).

Definition Data (s : Stack) : list Word := stk_data s.

Definition Clear (s : Stack) : Stack := mkStack [].

Definition Clone (s : Stack) : Stack := mkStack (stk_data s).

(** The stack whose words from the top are [l]. *)
Definition of_top (l : list Word) : Stack := mkStack (reverse l).

(** ** Lemmas on the conversions *)

Lemma be_bytes_cons n z : be_bytes (S n) z = z2b (z / pow256 n) :: be_bytes n z.
Proof.
  revert z. induction n as [|n IH]; intros z.
  - simpl. unfold pow256. simpl. by rewrite Z.div_1_r.
  - change (be_bytes (S (S n)) z) with (be_bytes (S n) (z / 256) ++ [z2b z]).
    rewrite IH, Z.div_div, pow256_S by (auto with qvm; lia). done.
Qed.

Lemma be_cons b l : be (b :: l) = b2z b * pow256 (length l) + be l.
Proof. rewrite (be_app [b] l : be (b :: l) = _). done. Qed.

Lemma pow256_32 : pow256 32 = W256.
Proof. reflexivity. Qed.

Lemma wz_range (w : Word) : 0 <= wz w < W256.
Proof. rewrite <- pow256_32. apply array_to_Z_range. Qed.

#[export] Hint Resolve wz_range : qvm.

Lemma copy_at_zeros_right n (data : list byte) :
  (length data <= n)%nat ->
  copy_at (replicate n x00) (Z.of_nat n - len data) data
  = replicate (n - length data) x00 ++ data.
Proof.
  intros H. unfold copy_at, copy, len.
  rewrite take_replicate, drop_replicate, length_replicate, drop_replicate.
  rewrite take_ge by lia.
  replace (n - Z.to_nat (Z.of_nat n - Z.of_nat (length data)) - length data)%nat
    with 0%nat by lia.
  simpl. rewrite app_nil_r. f_equal. f_equal. lia.
Qed.

Lemma wz_right_align data : (length data <= 32)%nat -> wz (right_align data) = be data.
Proof.
  intros H. unfold array_to_Z, right_align. simpl.
  rewrite Z.max_r by (unfold len; lia).
  rewrite (copy_at_zeros_right 32 data H : copy_at (zeros 32) (32 - len data) data = _).
  apply be_zeros_app.
Qed.

Lemma be_drop l n : (n <= length l)%nat -> be (drop n l) = be l mod pow256 (length l - n).
Proof.
  intros H. rewrite <- (take_drop n l) at 2. rewrite be_app, length_drop.
  rewrite Z.add_comm, Z.mod_add by (pose proof (pow256_pos (length l - n)); lia).
  rewrite Z.mod_small; [done|].
  pose proof (be_range (drop n l)) as R. by rewrite length_drop in R.
Qed.

(** Keeping the last 32 bytes keeps the number modulo [2^256]. *)
Lemma wz_keep_last data :
  wz (right_align (if 32 <? len data then drop (Z.to_nat (len data - 32)) data else data))
  = be data mod W256.
Proof.
  destruct (32 <? len data) eqn:E.
  - apply Z.ltb_lt in E. unfold len in *.
    rewrite wz_right_align by (rewrite length_drop; lia).
    rewrite be_drop by lia. rewrite <- pow256_32. f_equal. f_equal. lia.
  - apply Z.ltb_ge in E. unfold len in E. rewrite wz_right_align by lia.
    rewrite Z.mod_small; [done|]. pose proof (be_range data) as R.
    pose proof (pow256_add (length data) (32 - length data)) as P.
    replace (length data + (32 - length data))%nat with 32%nat in P by lia.
    rewrite pow256_32 in P. pose proof (pow256_pos (32 - length data)). nia.
Qed.

Lemma wz_NewWord data : wz (NewWord data) = be data mod W256.
Proof. apply wz_keep_last. Qed.

Lemma NewWord_bytes (w : Word) : NewWord (bytes_of w) = w.
Proof.
  apply array_to_Z_inj. rewrite wz_NewWord. apply Z.mod_small, wz_range.
Qed.

Lemma be_big_bytes v : be (big_bytes v) = Z.abs v.
Proof.
  unfold big_bytes. destruct (Z.eqb_spec v 0) as [->|Hv]; [done|].
  rewrite be_be_bytes. apply Z.mod_small. split; [lia|].
  assert (H : 0 < Z.abs v) by lia.
  pose proof (proj2 (Z.log2_spec _ H)) as L.
  pose proof (Z.log2_nonneg (Z.abs v)).
  eapply Z.lt_le_trans; [exact L|]. unfold pow256.
  change 256 with (2 ^ 8). rewrite <- Z.pow_mul_r by zlia.
  apply Z.pow_le_mono_r; zlia.
Qed.

Lemma wz_NewWordFromBigInt v : wz (NewWordFromBigInt (Some v)) = Z.abs v mod W256.
Proof. unfold NewWordFromBigInt. rewrite wz_keep_last, be_big_bytes. done. Qed.

Lemma wz_NewWordFromBigInt_small v :
  0 <= v < W256 -> wz (NewWordFromBigInt (Some v)) = v.
Proof. intros. rewrite wz_NewWordFromBigInt, Z.mod_small; lia. Qed.

Lemma put_uint64_eq v i :
  (i <= 32)%nat -> put_uint64 v i (replicate 32 x00) = replicate (32 - i) x00 ++ be_bytes i v.
Proof.
  induction i as [|i IH]; intros Hi; [done|].
  cbn [put_uint64]. rewrite IH by lia.
  replace (32 - i)%nat with (S (31 - i)) by lia.
  replace (32 - S i)%nat with (31 - i)%nat by lia.
  rewrite be_bytes_cons, replicate_S_end, <- app_assoc. simpl.
  rewrite Z.shiftr_div_pow2, Z.pow_mul_r by lia. change (2 ^ 8) with 256.
  rewrite insert_app_r_alt by (rewrite length_replicate; lia).
  by rewrite length_replicate, Nat.sub_diag.
Qed.

Lemma wz_NewWordFromUint64 v : is_u64 v -> wz (NewWordFromUint64 v) = v.
Proof.
  intros Hv. change (be (put_uint64 v 8 (replicate 32 x00)) = v).
  rewrite put_uint64_eq by lia. rewrite be_zeros_app, be_be_bytes.
  apply Z.mod_small, Hv.
Qed.

Lemma lor_disjoint a b k : 0 <= k -> 0 <= a < 2 ^ k -> Z.lor a (b * 2 ^ k) = b * 2 ^ k + a.
Proof.
  intros Hk Ha. symmetry. rewrite Z.add_comm.
  assert (D : Z.land a (b * 2 ^ k) = 0).
  { apply Z.bits_inj'. intros n Hn. rewrite Z.land_spec, Z.bits_0.
    destruct (Z.lt_ge_cases n k).
    - rewrite Z.mul_pow2_bits_low by lia. apply andb_false_r.
    - rewrite <- (Z.mod_small a (2 ^ k)), Z.mod_pow2_bits_high by lia. done. }
  by rewrite Z.add_nocarry_lxor, Z.lxor_lor.
Qed.

Lemma get_uint64_eq (w : list byte) i :
  length w = 32%nat -> (i <= 8)%nat -> get_uint64 w i = be (drop (32 - i) w).
Proof.
  intros Hw. induction i as [|i IH]; intros Hi.
  - rewrite drop_ge by lia. done.
  - cbn [get_uint64]. rewrite IH by lia.
    assert (E : drop (32 - S i) w = nth (31 - i) w x00 :: drop (32 - i) w).
    { replace (32 - S i)%nat with (31 - i)%nat by lia.
      destruct (lookup_lt_is_Some_2 w (31 - i)) as [b Hb]; [lia|].
      rewrite nth_lookup, Hb, (drop_S w b (31 - i) Hb). simpl. f_equal. f_equal. lia. }
    rewrite E, be_cons, length_drop, Hw.
    replace (32 - (32 - i))%nat with i by lia.
    set (b := nth (31 - i) w x00). pose proof (b2z_range b) as Hb.
    pose proof (be_range (drop (32 - i) w)) as R. rewrite length_drop, Hw in R.
    replace (32 - (32 - i))%nat with i in R by lia.
    assert (P : pow256 i = 2 ^ (8 * Z.of_nat i))
      by (unfold pow256; rewrite Z.pow_mul_r by lia; done).
    rewrite Z.shiftl_mul_pow2 by lia. rewrite P in *.
    rewrite u64_small; [apply lor_disjoint; lia|].
    assert (2 ^ (8 * Z.of_nat i) <= 2 ^ 56) by (apply Z.pow_le_mono_r; lia).
    unfold is_u64. nia.
Qed.

Lemma ToUint64_spec w : ToUint64 w = wz w mod 2 ^ 64.
Proof.
  unfold ToUint64. pose proof (length_bytes_of w) as L.
  rewrite get_uint64_eq, be_drop by lia. rewrite L. done.
Qed.

Lemma ToUint64_range w : is_u64 (ToUint64 w).
Proof. rewrite ToUint64_spec. apply u64_range. Qed.

#[export] Hint Resolve ToUint64_range : qvm.

Lemma forallb_zero l : forallb (fun b => b2z b =? 0) l = (be l =? 0).
Proof.
  induction l as [|b l IH] using rev_ind; [done|].
  rewrite forallb_app, IH, be_snoc. simpl. rewrite andb_true_r.
  pose proof (be_range l). pose proof (b2z_range b).
  apply eq_true_iff_eq. rewrite andb_true_iff, !Z.eqb_eq. lia.
Qed.

Lemma IsZero_spec w : IsZero w = (wz w =? 0).
Proof. apply forallb_zero. Qed.

(** ** Lemmas on the stack *)

Lemma of_top_surj s : exists l, s = of_top l.
Proof. destruct s as [d]. exists (reverse d). unfold of_top. by rewrite reverse_involutive. Qed.

Lemma Len_of_top l : Len (of_top l) = len l.
Proof. unfold Len, of_top, len. simpl. by rewrite length_reverse. Qed.

Lemma Push_of_top w l :
  Push w (of_top l) =
  if MaxStackSize <=? len l then (Err ErrStackOverflow, of_top l)
  else (Ok tt, of_top (w :: l)).
Proof.
  unfold Push. fold (Len (of_top l)). rewrite Len_of_top.
  unfold of_top. by rewrite reverse_cons.
Qed.

Lemma Pop_of_top_nil : Pop (of_top []) = (Err ErrStackUnderflow, of_top []).
Proof. done. Qed.

Lemma Pop_of_top w l : Pop (of_top (w :: l)) = (Ok w, of_top l).
Proof.
  unfold Pop, of_top. simpl. rewrite reverse_cons, length_app. simpl.
  rewrite Nat.add_sub, lookup_app_r, Nat.sub_diag by lia. simpl.
  by rewrite take_app_length.
Qed.

Lemma lookup_rev_top {A} (l : list A) (n : nat) :
  (n < length l)%nat -> reverse l !! (length l - 1 - n)%nat = l !! n.
Proof.
  intros H. rewrite reverse_lookup by lia. f_equal. lia.
Qed.

Lemma PeekN_of_top n l :
  PeekN n (of_top l) =
  match (if n <? 0 then None else l !! Z.to_nat n) with
  | Some w => (Ok w, of_top l)
  | None => (Err ErrInvalidIndex, of_top l)
  end.
Proof.
  unfold PeekN. fold (Len (of_top l)). rewrite Len_of_top.
  destruct (Z.ltb_spec n 0); [done|]. simpl.
  destruct (Z.leb_spec (len l) n) as [L|L]; unfold len in *.
  - rewrite lookup_ge_None_2 by lia. done.
  - replace (Z.to_nat (Z.of_nat (length l) - 1 - n))
      with (length l - 1 - Z.to_nat n)%nat by lia.
    rewrite lookup_rev_top by lia.
    destruct (lookup_lt_is_Some_2 l (Z.to_nat n)) as [w ->]; [lia|done].
Qed.

Lemma Dup_of_top n l :
  1 <= n <= len l -> Dup n (of_top l) = Push (l !!! Z.to_nat (n - 1)) (of_top l).
Proof.
  intros H. unfold Dup. fold (Len (of_top l)). rewrite Len_of_top.
  rewrite !(proj2 (Z.ltb_ge _ _)) by lia. simpl. unfold len in *.
  replace (Z.to_nat (Z.of_nat (length l) - n))
    with (length l - 1 - Z.to_nat (n - 1))%nat by lia.
  rewrite lookup_rev_top by lia.
  by rewrite list_lookup_lookup_total_lt by lia.
Qed.

Lemma rev_insert {A} (l : list A) n x :
  (n < length l)%nat -> <[(length l - 1 - n)%nat := x]> (reverse l) = reverse (<[n := x]> l).
Proof.
  intros H. apply list_eq. intros i.
  destruct (decide (i < length l)%nat) as [Hi|Hi].
  - replace i with (length l - 1 - (length l - 1 - i))%nat by lia.
    assert (L : length (<[n := x]> l) = length l) by apply length_insert.
    rewrite <- L at 4. rewrite lookup_rev_top by lia.
    destruct (decide (n = length l - 1 - i)%nat) as [->|Hn].
    + rewrite !list_lookup_insert_eq by (rewrite ?length_reverse; lia). done.
    + rewrite !list_lookup_insert_ne by lia. apply lookup_rev_top. lia.
  - rewrite !lookup_ge_None_2; rewrite ?length_insert, ?length_reverse, ?length_insert; lia || done.
Qed.

Lemma Swap_of_top n a l b :
  1 <= n -> l !! Z.to_nat (n - 1) = Some b ->
  Swap n (of_top (a :: l)) = (Ok tt, of_top (b :: <[Z.to_nat (n - 1) := a]> l)).
Proof.
  intros Hn Hb. pose proof (lookup_lt_Some _ _ _ Hb) as Hlt.
  unfold Swap. fold (Len (of_top (a :: l))). rewrite Len_of_top.
  unfold len. simpl length.
  rewrite (proj2 (Z.ltb_ge _ _)), (proj2 (Z.leb_gt _ _)) by lia.
  change (stk_data (of_top (a :: l))) with (reverse (a :: l)).
  replace (Z.to_nat (Z.of_nat (S (length l)) - 1)) with (length (a :: l) - 1 - 0)%nat
    by (simpl; lia).
  replace (Z.to_nat (Z.of_nat (S (length l)) - 1 - n))
    with (length (a :: l) - 1 - Z.to_nat n)%nat by (simpl; lia).
  rewrite !lookup_rev_top by (simpl; lia). simpl orb.
  replace (Z.to_nat n) with (S (Z.to_nat (n - 1))) by lia. simpl lookup. rewrite Hb.
  f_equal. unfold of_top. f_equal.
  rewrite rev_insert by (simpl; lia).
  replace (length (a :: l)) with (length (<[0%nat := b]> (a :: l))) by apply length_insert.
  rewrite rev_insert by (simpl; lia). done.
Qed.

Lemma Swap_of_top_err n l :
  len l <= n -> Swap n (of_top l) = (Err ErrInvalidIndex, of_top l).
Proof.
  intros H. unfold Swap. fold (Len (of_top l)). rewrite Len_of_top.
  rewrite (proj2 (Z.leb_le _ _)) by lia. by rewrite orb_true_r.
Qed.

(** ** The size invariant *)

Definition stack_ok (s : Stack) : Prop := Len s <= MaxStackSize.

(** Every operation of the stack keeps its bound. *)
Definition stack_keeps {A} (m : M Stack A) : Prop := forall s, stack_ok s -> stack_ok (m s).2.

Lemma Push_ok w : stack_keeps (Push w).
Proof.
  intros s Hs. destruct (of_top_surj s) as [l ->]. rewrite Push_of_top.
  destruct (Z.leb_spec MaxStackSize (len l)); [done|].
  unfold stack_ok in *. cbn [snd]. rewrite Len_of_top in *.
  unfold len, MaxStackSize in *. cbn [length]. lia.
Qed.

Lemma Pop_ok : stack_keeps Pop.
Proof.
  intros s Hs. destruct (of_top_surj s) as [[|w l] ->]; [done|].
  rewrite Pop_of_top. unfold stack_ok in *. cbn [snd]. rewrite Len_of_top in *.
  unfold len in *. cbn [length] in *. lia.
Qed.

Lemma Dup_ok n : stack_keeps (Dup n).
Proof.
  intros s Hs. unfold Dup. case_match; [done|]. case_match; [|done]. by apply Push_ok.
Qed.

Lemma Swap_ok n : stack_keeps (Swap n).
Proof.
  intros s Hs. unfold Swap. repeat (case_match; try done).
  unfold stack_ok, Len, len in *. simpl. by rewrite !length_insert.
Qed.

(** ** Properties *)

(** Words and numbers convert without loss. A [uint64] survives the trip
    through a word, as a [uint64] and as a big integer; a word survives the
    trips through its bytes and through a big integer; reading a wider word as
    a [uint64] keeps its value modulo [2^64]. *)
Theorem word_roundtrip (v : Z) (w : Word) (Hv : is_u64 v) :
  ToUint64 (NewWordFromUint64 v) = v /\
  ToBigInt (NewWordFromUint64 v) = v /\
  NewWord (bytes_of w) = w /\
  NewWordFromBigInt (Some (ToBigInt w)) = w /\
  ToUint64 w = ToBigInt w mod 2 ^ 64.
Proof.
  split; [rewrite ToUint64_spec, wz_NewWordFromUint64 by done; by apply Z.mod_small|].
  split; [by apply wz_NewWordFromUint64|].
  split; [apply NewWord_bytes|].
  split; [|apply ToUint64_spec].
  apply array_to_Z_inj. apply wz_NewWordFromBigInt_small. apply wz_range.
Qed.

Lemma word_roundtrip_witness :
  is_u64 258 /\ ToUint64 (NewWordFromUint64 258) = 258.
Proof.
  split; [unfold is_u64; lia|].
  apply (word_roundtrip 258 (zero_array 32)). unfold is_u64. lia.
Defined.

(** The stack operations as commands. *)
Inductive StackOp : Type :=
  | SPush (w : Word)
  | SPop
  | SPeek (n : Z)
  | SDup (n : Z)
  | SSwap (n : Z).

Definition stack_op (o : StackOp) : M Stack (option Word) :=
  match o with
  | SPush w => Push w;; mret None
  | SPop => w ← Pop; mret (Some w)
  | SPeek n => w ← PeekN n; mret (Some w)
  | SDup n => Dup n;; mret None
  | SSwap n => Swap n;; mret None
  end.

(** What the operations promise: the stack is the list of its words from the
    top, of at most 1024 words. *)
Definition stack_spec (o : StackOp) (l : list Word) : res (option Word) * list Word :=
  match o with
  | SPush w => if len l <? 1024 then (Ok None, w :: l) else (Err ErrStackOverflow, l)
  | SPop => match l with [] => (Err ErrStackUnderflow, l) | w :: l' => (Ok (Some w), l') end
  | SPeek n =>
      match (if n <? 0 then None else l !! Z.to_nat n) with
      | Some w => (Ok (Some w), l)
      | None => (Err ErrInvalidIndex, l)
      end
  | SDup n =>
      match (if n <? 1 then None else l !! Z.to_nat (n - 1)) with
      | None => (Err ErrInvalidIndex, l)
      | Some w => if len l <? 1024 then (Ok None, w :: l) else (Err ErrStackOverflow, l)
      end
  | SSwap n =>
      match l, (if n <? 1 then None else l !! Z.to_nat n) with
      | a :: l', Some b => (Ok None, b :: <[Z.to_nat (n - 1) := a]> l')
      | _, _ => (Err ErrInvalidIndex, l)
      end
  end.

Fixpoint run_ops {S} (f : StackOp -> M S (option Word)) (ops : list StackOp) (s : S)
    : list (res (option Word)) * S :=
  match ops with
  | [] => ([], s)
  | o :: rest =>
      let '(r, s1) := f o s in
      let '(rs, s2) := run_ops f rest s1 in (r :: rs, s2)
  end.

Lemma leb_ltb_1024 {A B} (l : list A) (x y : B) :
  (if MaxStackSize <=? len l then x else y) = if len l <? 1024 then y else x.
Proof. unfold MaxStackSize. zcases; done. Qed.

Lemma stack_op_spec o l :
  stack_op o (of_top l) = let '(r, l') := stack_spec o l in (r, of_top l').
Proof.
  destruct o as [w| |n|n|n]; simpl stack_op; simpl stack_spec; unfold mbind, M_bind.
  - rewrite Push_of_top, leb_ltb_1024. by destruct (len l <? 1024).
  - by destruct l; [|rewrite Pop_of_top].
  - rewrite PeekN_of_top. by destruct (if n <? 0 then None else _).
  - destruct (Z.ltb_spec n 1) as [L|L].
    { unfold Dup. by rewrite (proj2 (Z.ltb_lt n 1)) by lia. }
    destruct (l !! Z.to_nat (n - 1)) as [w|] eqn:E.
    + pose proof (lookup_lt_Some _ _ _ E).
      rewrite Dup_of_top, Push_of_top, leb_ltb_1024 by (unfold len; lia).
      rewrite (list_lookup_total_correct _ _ _ E). by destruct (len l <? 1024).
    + apply lookup_ge_None in E. unfold Dup. fold (Len (of_top l)). rewrite Len_of_top.
      rewrite (proj2 (Z.ltb_lt (len l) n)) by (unfold len; lia). by rewrite orb_true_r.
  - destruct (Z.ltb_spec n 1) as [L|L].
    { unfold Swap. rewrite (proj2 (Z.ltb_lt n 1)) by lia. by destruct l. }
    destruct l as [|a l]; [by rewrite Swap_of_top_err by (unfold len; simpl; lia)|].
    replace (Z.to_nat n) with (S (Z.to_nat (n - 1))) by lia. simpl lookup.
    destruct (l !! Z.to_nat (n - 1)) as [b|] eqn:E.
    + by rewrite (Swap_of_top n a l b) by (done || lia).
    + apply lookup_ge_None in E. rewrite Swap_of_top_err; [done|]. unfold len. simpl. lia.
Qed.

(** The stack refines its specification. Every sequence of stack
    operations, from the empty stack, returns the words and the errors of the
    bounded last-in-first-out list and ends in the same contents; in
    particular no operation panics. *)
Theorem stack_refines_list (ops : list StackOp) :
  run_ops stack_op ops NewStack =
  let '(rs, l) := run_ops stack_spec ops [] in (rs, of_top l).
Proof.
  change NewStack with (of_top []). generalize (@nil Word) as l.
  induction ops as [|o ops IH]; intros l; [done|].
  cbn [run_ops]. rewrite stack_op_spec. destruct (stack_spec o l) as [r l1].
  rewrite IH. by destruct (run_ops stack_spec ops l1).
Qed.
