(* ===== verification/Rlp.v ===== *)
(** * RLP (rlp/encode.go, rlp/decode.go)

    The recursive-length-prefix codec. Go's [reflect] drives both directions;
    here a type is a [Ty] and a value a [Val], and a target that implements
    [Encoder] or [Decoder] itself is not represented. [Stream] is the decoder's
    state: the bytes left of the reader, the sizes still unread of the enclosing
    lists and the header read ahead. *)

From Stdlib Require Import ZArith Lia.
From Stdlib.Strings Require Import Byte.
From stdpp Require Import base list countable strings numbers.
From S2P Require Import Prelude Stack.

Module Rlp.

(** ** Types and values *)

#[warnings="-register-all"]
Inductive Ty : Type :=
  | TBool
  | TInt (bits : Z)
  | TUint (bits : Z)
  | TBytes                      (* string and []byte *)
  | TByteArray (n : nat)        (* [n]byte *)
  | TSlice (t : Ty)
  | TArray (n : nat) (t : Ty)
  | TStruct (fields : list Ty)  (* the exported fields *)
  | TPtr (t : Ty)
  | TBigInt
  | TInterface.

#[warnings="-register-all"]
Inductive Val : Type :=
  | VBool (b : bool)
  | VInt (z : Z)
  | VBytes (l : list byte)
  | VList (l : list Val)        (* slices, arrays and structs *)
  | VNil
  | VPtr (v : Val)              (* a pointer or an interface that is not nil *)
  | VBig (z : Z).

(** The zero value of a type. *)
Fixpoint zero_val (t : Ty) : Val :=
  match t with
  | TBool => VBool false
  | TInt _ | TUint _ => VInt 0
  | TBytes => VBytes []
  | TByteArray n => VBytes (replicate n x00)
  | TSlice _ => VList []
  | TArray n t => VList (replicate n (zero_val t))
  | TStruct ts => VList (map zero_val ts)
  | TPtr _ | TInterface => VNil
  | TBigInt => VBig 0
  end.

(** ** Errors *)

Inductive RlpError : Set :=
  | ErrExpectedString
  | ErrExpectedList
  | ErrCanonicalInt
  | ErrCanonicalSize
  | ErrValueTooLarge
  | ErrMoreThanOneValue
  | ErrElemTooLarge
  | ErrEOL
  | EOF
  | ErrUnexpectedEOF
  | ErrNegativeBigInt
  | ErrMaxSizeExceeded
  | ErrMaxDepthExceeded
  | ErrMaxListLenExceeded
  | ErrInvalidInput
  | ErrNilInput
  | Errorf (format : string).

(** ** Encoding *)

(** The bytes [putint] writes, the least number that represents [i]. *)
Definition putint (i : Z) : list byte :=
  let at_ k := z2b (Z.shiftr i k) in
  if i <? 2 ^ 8 then [z2b i]
  else if i <? 2 ^ 16 then [at_ 8; z2b i]
  else if i <? 2 ^ 24 then [at_ 16; at_ 8; z2b i]
  else if i <? 2 ^ 32 then [at_ 24; at_ 16; at_ 8; z2b i]
  else if i <? 2 ^ 40 then [at_ 32; at_ 24; at_ 16; at_ 8; z2b i]
  else if i <? 2 ^ 48 then [at_ 40; at_ 32; at_ 24; at_ 16; at_ 8; z2b i]
  else if i <? 2 ^ 56 then [at_ 48; at_ 40; at_ 32; at_ 24; at_ 16; at_ 8; z2b i]
  else [at_ 56; at_ 48; at_ 40; at_ 32; at_ 24; at_ 16; at_ 8; z2b i].

Definition intsize (i : Z) : Z :=
  if i <? 2 ^ 8 then 1 else if i <? 2 ^ 16 then 2 else if i <? 2 ^ 24 then 3
  else if i <? 2 ^ 32 then 4 else if i <? 2 ^ 40 then 5 else if i <? 2 ^ 48 then 6
  else if i <? 2 ^ 56 then 7 else 8.

Definition headsize (size : Z) : Z := if size <? 56 then 1 else 1 + intsize size.

Definition ListSize (contentSize : Z) : Z := u64 (headsize contentSize + contentSize).

Definition StringSize (b : list byte) : Z :=
  match b with
  | [] => 1
  | [x] => if b2z x <? 128 then 1 else 2
  | _ => if len b <? 56 then 1 + len b else u64 (1 + intsize (len b) + len b)
  end.

Definition IntSize (i : Z) : Z := if i <? 128 then 1 else 1 + intsize i.

Definition encodeStringHeader (size : Z) : list byte :=
  if size <? 56 then [z2b (0x80 + size)]
  else let sizeBytes := putint size in z2b (0xB7 + len sizeBytes) :: sizeBytes.

Definition encodeListHeader (size : Z) : list byte :=
  if size <? 56 then [z2b (0xC0 + size)]
  else let sizeBytes := putint size in z2b (0xF7 + len sizeBytes) :: sizeBytes.

Definition encodeBytes (b : list byte) : list byte :=
  match b with
  | [] => [x80]
  | [x] => if b2z x <? 128 then [x] else encodeStringHeader (len b) ++ b
  | _ => encodeStringHeader (len b) ++ b
  end.

Definition encodeBool (b : bool) : list byte := if b then [x01] else [x80].

Definition encodeUint (i : Z) : list byte :=
  if i =? 0 then [x80] else if i <? 128 then [z2b i] else encodeBytes (putint i).

Definition encodeInt (i : Z) : RlpError + list byte :=
  if i <? 0 then inl (Errorf "rlp: cannot encode negative integer") else inr (encodeUint i).

Definition encodeBigInt (i : Z) : RlpError + list byte :=
  if i =? 0 then inr [x80]
  else if i <? 0 then inl ErrNegativeBigInt
  else inr (encodeBytes (big_bytes i)).

(** The contents of a list, given the encodings of its elements. *)
Fixpoint concatAll (l : list (RlpError + list byte)) : RlpError + list byte :=
  match l with
  | [] => inr []
  | inl e :: _ => inl e
  | inr elem :: l => match concatAll l with inl e => inl e | inr content => inr (elem ++ content) end
  end.

Definition encodeList (elems : list (RlpError + list byte)) : RlpError + list byte :=
  match concatAll elems with
  | inl e => inl e
  | inr content => inr (encodeListHeader (len content) ++ content)
  end.

(** A [big.Int] is reached through a pointer, as the source requires. *)
Fixpoint encodeValue (v : Val) : RlpError + list byte :=
  match v with
  | VBool b => inr (encodeBool b)
  | VInt z => encodeInt z
  | VBytes l => inr (encodeBytes l)
  | VList l => encodeList (map encodeValue l)
  | VNil => inr [x80]
  | VPtr v => encodeValue v
  | VBig z => encodeBigInt z
  end.

Definition EncodeToBytes (v : Val) : RlpError + list byte := encodeValue v.

(** ** The stream *)

Definition maxNestingDepth : Z := 64.
Definition maxSliceElements : Z := 1048576.
Definition maxStringSize : Z := 16 * 1024 * 1024.
Definition maxRLPSize : Z := 10 * 1024 * 1024.
Definition maxTotalDecodeMemory : Z := 32 * 1024 * 1024.
Definition maxBytesCalls : Z := 10000.

Inductive Kind : Set := KByte | KString | KList.
#[export] Instance Kind_eq_dec : EqDecision Kind.
Proof. solve_decision. Defined.

(** [kind] is [None] for -1, when no header has been read ahead. The innermost
    list is the head of [stack]. *)
Record Stream : Type := mkStream {
  rest : list byte;
  buf : list byte;
  byteval : byte;
  kind : option Kind;
  size : Z;
  kinderr : option RlpError;
  stack : list Z;
  limited : bool;
  limit : Z;
  totalDecoded : Z;
  callCount : Z
}.

Definition set_reader (r : list byte) (k : list Z) (l : Z) (s : Stream) : Stream :=
  mkStream r (buf s) (byteval s) (kind s) (size s) (kinderr s) k (limited s) l
    (totalDecoded s) (callCount s).
Definition set_buf (b : list byte) (s : Stream) : Stream :=
  mkStream (rest s) b (byteval s) (kind s) (size s) (kinderr s) (stack s) (limited s) (limit s)
    (totalDecoded s) (callCount s).
Definition set_byteval (b : byte) (s : Stream) : Stream :=
  mkStream (rest s) (buf s) b (kind s) (size s) (kinderr s) (stack s) (limited s) (limit s)
    (totalDecoded s) (callCount s).
Definition set_kind (k : option Kind) (n : Z) (e : option RlpError) (s : Stream) : Stream :=
  mkStream (rest s) (buf s) (byteval s) k n e (stack s) (limited s) (limit s)
    (totalDecoded s) (callCount s).
Definition set_stack (k : list Z) (s : Stream) : Stream :=
  mkStream (rest s) (buf s) (byteval s) (kind s) (size s) (kinderr s) k (limited s) (limit s)
    (totalDecoded s) (callCount s).
Definition set_totalDecoded (n : Z) (s : Stream) : Stream :=
  mkStream (rest s) (buf s) (byteval s) (kind s) (size s) (kinderr s) (stack s) (limited s) (limit s)
    n (callCount s).
Definition set_callCount (n : Z) (s : Stream) : Stream :=
  mkStream (rest s) (buf s) (byteval s) (kind s) (size s) (kinderr s) (stack s) (limited s) (limit s)
    (totalDecoded s) n.

(** [s.kind = -1] *)
Definition rearm (s : Stream) : Stream := set_kind None (size s) (kinderr s) s.

(** Code that reads a stream. *)
Definition RM (A : Type) : Type := Stream -> (RlpError + A) * Stream.
#[export] Instance RM_ret : MRet RM := fun A a s => (inr a, s).
#[export] Instance RM_bind : MBind RM := fun A B f m s =>
  match m s with
  | (inl e, s') => (inl e, s')
  | (inr a, s') => f a s'
  end.
Definition fail {A} (e : RlpError) : RM A := fun s => (inl e, s).
Definition get {A} (f : Stream -> A) : RM A := fun s => (inr (f s), s).
Definition mod_ (f : Stream -> Stream) : RM unit := fun s => (inr tt, f s).
Definition require (b : bool) (e : RlpError) : RM unit := if b then mret tt else fail e.

(** Every enclosing list and the limit lose [n] bytes. *)
Definition took (n : Z) (r : list byte) (s : Stream) : Stream :=
  set_reader r (map (fun x => u64 (x - n)) (stack s))
    (if limited s then u64 (limit s - n) else limit s) s.

Definition readByte : RM byte := fun s =>
  if match stack s with top :: _ => top =? 0 | [] => false end then (inl ErrEOL, s)
  else if limited s && (limit s =? 0) then (inl EOF, s)
  else match rest s with
  | [] => (inl EOF, s)
  | b :: r => (inr b, took 1 r s)
  end.

(** [readFull] into a slice of [n] bytes. *)
Definition readFull (n : Z) : RM (list byte) := fun s =>
  if match stack s with top :: _ => top <? n | [] => false end then (inl ErrElemTooLarge, s)
  else if limited s && (limit s <? n) then (inl ErrUnexpectedEOF, s)
  else if len (rest s) <? n then
    (inl (match rest s with [] => EOF | _ => ErrUnexpectedEOF end),
     set_reader [] (stack s) (limit s) s)
  else (inr (take (Z.to_nat n) (rest s)), took n (drop (Z.to_nat n) (rest s)) s).

(** [for _, x := range b { v = (v << 8) | uint64(x) }] *)
Definition uint_of (b : list byte) : Z :=
  foldl (fun v x => Z.lor (u64 (Z.shiftl v 8)) (b2z x)) 0 b.

Definition readSize (sizeBytes : Z) : RM Z :=
  require (negb (sizeBytes =? 0)) (Errorf "rlp: invalid sizeBytes=0");;
  require (sizeBytes <=? 8) (Errorf "rlp: sizeBytes exceeds uint64 maximum of 8");;
  b ← readFull sizeBytes;
  mod_ (fun s => set_buf (buf s ++ b) s);;
  require (negb (b2z (nth_byte b 0) =? 0)) ErrCanonicalSize;;
  mret (uint_of b).

(** A long header: the size in [sizeBytes] bytes. *)
Definition longSize (sizeBytes : Z) : RM Z :=
  size ← readSize sizeBytes;
  require (56 <=? size) ErrCanonicalSize;;
  require (size <=? maxRLPSize) ErrValueTooLarge;;
  mret size.

Definition readKind : RM (Kind * Z) := fun s =>
  match readByte s with
  | (inl e, s') =>
      (inl (match stack s', e with _ :: _, EOF => ErrUnexpectedEOF | _, _ => e end), s')
  | (inr b, s') =>
      (mod_ (set_buf [b]);;
       let z := b2z b in
       if z <? 0x80 then mod_ (set_byteval b);; mret (KByte, 0)
       else if z <? 0xB8 then mret (KString, z - 0x80)
       else if z <? 0xC0 then size ← longSize (z - 0xB7); mret (KString, size)
       else if z <? 0xF8 then mret (KList, z - 0xC0)
       else size ← longSize (z - 0xF7); mret (KList, size)) s'
  end.

(** [Kind] answers the header read ahead, or its error, until it is rearmed. An
    error leaves the kind at 0. *)
Definition Kind_ : RM (Kind * Z) := fun s =>
  match kind s with
  | Some k => (match kinderr s with Some e => inl e | None => inr (k, size s) end, s)
  | None =>
      match readKind s with
      | (inl e, s') => (inl e, set_kind (Some KByte) 0 (Some e) s')
      | (inr (k, n), s') => (inr (k, n), set_kind (Some k) n None s')
      end
  end.

(** The memory budget shared by all strings of a stream. *)
Definition budget (size : Z) : RM unit :=
  total ← get totalDecoded;
  require (u64 (total + size) <=? maxTotalDecodeMemory)
    (Errorf "rlp: total decoded memory exceeds budget");;
  mod_ (set_totalDecoded (u64 (total + size))).

(** A single byte below 0x80 that was written as a string. *)
Definition small_string (b : list byte) : bool :=
  match b with [x] => b2z x <? 0x80 | _ => false end.

Definition Bytes : RM (list byte) :=
  mod_ (fun s => set_callCount (callCount s + 1) s);;
  calls ← get callCount;
  require (calls <=? maxBytesCalls) (Errorf "rlp: number of Bytes() calls exceeds limit");;
  r ← Kind_;
  let '(k, size) := r in
  match k with
  | KByte => mod_ rearm;; b ← get byteval; mret [b]
  | KString =>
      require (size <=? maxStringSize) (Errorf "rlp: string size exceeds limit");;
      budget size;;
      b ← readFull size;
      mod_ rearm;;
      require (negb (small_string b)) ErrCanonicalSize;;
      mret b
  | KList => fail ErrExpectedString
  end.

(** [Raw] applies the one-byte check to the contents of lists too. *)
Definition Raw : RM (list byte) :=
  r ← Kind_;
  let '(k, size) := r in
  match k with
  | KByte => mod_ rearm;; b ← get byteval; mret [b]
  | _ =>
      start ← get buf;
      mod_ (set_buf []);;
      require (size <=? maxStringSize) (Errorf "rlp: string size exceeds limit");;
      budget size;;
      content ← readFull size;
      mod_ rearm;;
      require (negb (small_string content)) ErrCanonicalSize;;
      mret (start ++ content)
  end.

Definition uint (maxbits : Z) : RM Z :=
  r ← Kind_;
  let '(k, size) := r in
  match k with
  | KByte =>
      mod_ rearm;;
      b ← get byteval;
      require (negb (b2z b =? 0)) ErrCanonicalInt;;
      mret (b2z b)
  | KString =>
      require (size <=? maxbits / 8) ErrValueTooLarge;;
      budget size;;
      b ← readFull size;
      mod_ rearm;;
      require (negb ((0 <? size) && (b2z (nth_byte b 0) =? 0))) ErrCanonicalInt;;
      require (negb (small_string b)) ErrCanonicalInt;;
      mret (uint_of b)
  | KList => fail ErrExpectedString
  end.

Definition Uint : RM Z := uint 64.

Definition Bool : RM bool :=
  num ← uint 8;
  if num =? 0 then mret false else if num =? 1 then mret true
  else fail (Errorf "rlp: invalid boolean value").

Definition BigInt : RM Z :=
  Kind_;;
  b ← Bytes;
  require (negb ((0 <? len b) && (b2z (nth_byte b 0) =? 0))) ErrCanonicalInt;;
  mret (be b).

Definition List_ : RM Z :=
  depth ← get (fun s => len (stack s));
  require (depth <? maxNestingDepth) (Errorf "rlp: nesting depth limit exceeded");;
  r ← Kind_;
  let '(k, size) := r in
  require (bool_decide (k = KList)) ErrExpectedList;;
  parents ← get stack;
  require (match parents with p :: _ => size <=? p | [] => true end)
    (Errorf "rlp: child list size exceeds parent remaining");;
  mod_ (set_stack (size :: parents));;
  mod_ rearm;;
  mret size.

Definition ListEnd : RM unit := fun s =>
  match stack s with
  | [] => (inl (Errorf "rlp: no list to end"), s)
  | remaining :: parents =>
      let s := set_stack parents s in
      if 0 <? remaining then (inl (Errorf "rlp: bytes remaining in list"), s)
      else (inr tt, set_kind None (size s) None s)
  end.

(** ** Decoding into a value *)

(** [decodeSlice] after the list header: [n] more elements are allowed. *)
Fixpoint sliceLoop (decode : RM Val) (n : nat) (elems : list Val) : RM (list Val) :=
  match n with
  | O => fail (Errorf "rlp: slice element count exceeds limit")
  | S n => fun s =>
      match decode s with
      | (inl ErrEOL, s') => (inr elems, s')
      | (inl e, s') => (inl e, s')
      | (inr v, s') => sliceLoop decode n (elems ++ [v]) s'
      end
  end.

(** The elements of an array: at the end of the list the others become zero. *)
Fixpoint arrayLoop (decode : Val -> RM Val) (zero : Val) (cur : list Val) : RM (list Val) :=
  match cur with
  | [] => mret []
  | c :: cur => fun s =>
      match decode c s with
      | (inl ErrEOL, s') => (inr (zero :: map (fun _ => zero) cur), s')
      | (inl e, s') => (inl e, s')
      | (inr v, s') => (vs ← arrayLoop decode zero cur; mret (v :: vs)) s'
      end
  end.

(** The fields of a struct: at the end of the list the others keep their values. *)
Fixpoint structLoop (fields : list (Val -> RM Val)) (cur : list Val) : RM (list Val) :=
  match fields, cur with
  | decode :: fields, c :: cur => fun s =>
      match decode c s with
      | (inl ErrEOL, s') => (inr (c :: cur), s')
      | (inl e, s') => (inl e, s')
      | (inr v, s') => (vs ← structLoop fields cur; mret (v :: vs)) s'
      end
  | _, _ => mret []
  end.

Definition decodeByteArray (n : nat) : RM Val :=
  r ← Kind_;
  let '(k, size) := r in
  match k with
  | KByte =>
      require (negb (n =? 0)%nat) (Errorf "rlp: cannot decode byte into zero-length array");;
      mod_ rearm;;
      b ← get byteval;
      mret (VBytes (b :: replicate (n - 1) x00))
  | KString =>
      require (size <=? Z.of_nat n) (Errorf "rlp: input string too long for array");;
      b ← readFull size;
      mod_ rearm;;
      mret (VBytes (b ++ replicate (n - length b) x00))
  | KList => fail ErrExpectedString
  end.

Definition elements (t : Ty) (v : Val) : list Val :=
  match v with
  | VList l => l
  | _ => match zero_val t with VList l => l | _ => [] end
  end.

(** Decodes into a target of type [t] whose value is [cur]. *)
Fixpoint decodeValue (t : Ty) (cur : Val) : RM Val :=
  match t with
  | TBool => b ← Bool; mret (VBool b)
  | TInt bits =>
      i ← Uint;
      require (i <=? 2 ^ (bits - 1) - 1) ErrValueTooLarge;;
      mret (VInt i)
  | TUint bits =>
      i ← Uint;
      require (i <=? 2 ^ bits - 1) ErrValueTooLarge;;
      mret (VInt i)
  | TBytes => b ← Bytes; mret (VBytes b)
  | TByteArray n => decodeByteArray n
  | TSlice t =>
      List_;;
      l ← sliceLoop (decodeValue t (zero_val t)) (Z.to_nat maxSliceElements) [];
      ListEnd;;
      mret (VList l)
  | TArray n t' =>
      List_;;
      l ← arrayLoop (decodeValue t') (zero_val t') (elements t cur);
      ListEnd;;
      mret (VList l)
  | TStruct ts =>
      List_;;
      l ← structLoop (map decodeValue ts) (elements t cur);
      ListEnd;;
      mret (VList l)
  | TPtr t =>
      r ← Kind_;
      let '(k, size) := r in
      if bool_decide (k = KString) && (size =? 0)
      then mod_ rearm;; mret VNil
      else v ← decodeValue t (zero_val t); mret (VPtr v)
  | TBigInt => z ← BigInt; mret (VBig z)
  | TInterface => b ← Raw; mret (VPtr (VBytes b))
  end.

Definition NewStream (r : list byte) (inputLimit : Z) : Stream :=
  mkStream r [] x00 None 0 None [] (0 <? inputLimit) inputLimit 0 0.

(** [Decode] from a reader that has the bytes [b]. *)
Definition Decode (t : Ty) (cur : Val) (b : list byte) : RlpError + Val :=
  (decodeValue t cur (NewStream b maxRLPSize)).1.

Definition DecodeBytes (t : Ty) (cur : Val) (b : list byte) : RlpError + Val :=
  if maxRLPSize <? len b then inl (Errorf "rlp: input size exceeds maximum")
  else
    match decodeValue t cur (mkStream b [] x00 None 0 None [] true (len b) 0 0) with
    | (inl e, _) => inl e
    | (inr v, s) => if 0 <? len (rest s) then inl ErrMoreThanOneValue else inr v
    end.
End Rlp.
