(* ===== verification/RlpSpec.v ===== *)
(** * RLP round trip

    What the encoder writes the decoder reads back. The reads of a stream are
    described by [moved]: how many bytes and how many calls of [Bytes] a read
    took. *)

From Stdlib Require Import ZArith Lia.
From Stdlib.Strings Require Import Byte.
From stdpp Require Import base list countable strings numbers.
From S2P Require Import Prelude Stack Rlp.

Module RlpSpec.
Import Rlp.

(** ** Sizes *)

Lemma putint_be i : 0 <= i < 2 ^ 64 -> putint i = be_bytes (Z.to_nat (intsize i)) i.
Proof.
  intros Hi. unfold putint, intsize.
  rewrite !Z.shiftr_div_pow2 by lia.
  repeat match goal with |- context [i <? ?x] => destruct (i <? x) end;
    simpl; rewrite ?Z.div_div by lia; reflexivity.
Qed.

Lemma intsize_spec i : 0 < i < 2 ^ 64 -> 1 <= intsize i <= 8 /\ 256 ^ (intsize i - 1) <= i < 256 ^ intsize i.
Proof.
  intros Hi. unfold intsize.
  repeat match goal with |- context [i <? ?x] => destruct (Z.ltb_spec i x) end; simpl; lia.
Qed.

Lemma len_putint i : 0 <= i < 2 ^ 64 -> len (putint i) = intsize i.
Proof.
  intros Hi. rewrite putint_be by done. unfold len. rewrite length_be_bytes.
  unfold intsize. by repeat match goal with |- context [i <? ?x] => destruct (i <? x) end.
Qed.

Lemma be_putint i : 0 <= i < 2 ^ 64 -> be (putint i) = i.
Proof.
  intros Hi. rewrite putint_be, be_be_bytes by done. apply Z.mod_small. unfold pow256.
  destruct (Z.eq_dec i 0) as [->|]; [by vm_compute|].
  destruct (intsize_spec i) as [H1 H2]; [lia|]. rewrite Z2Nat.id by lia. lia.
Qed.

Lemma head_zero b l : b2z b = 0 <-> be (b :: l) < pow256 (length l).
Proof.
  rewrite be_cons. pose proof (be_range l). pose proof (b2z_range b). pose proof (pow256_pos (length l)).
  split; [intros ->; lia|]. intros. destruct (Z.eq_dec (b2z b) 0); [done|]. nia.
Qed.

Lemma uint_of_be l : len l <= 8 -> uint_of l = be l.
Proof.
  induction l as [|b l IH] using rev_ind; [done|]. intros HL. rewrite len_app in HL.
  change (len [b]) with 1 in HL. rewrite be_snoc, <- IH by lia.
  unfold uint_of at 1. rewrite foldl_app. simpl. fold (uint_of l). rewrite IH by lia.
  pose proof (be_range l) as HR. pose proof (b2z_range b).
  assert (pow256 (length l) <= 2 ^ 56).
  { unfold pow256, len in *. change (2 ^ 56) with (256 ^ 7). apply Z.pow_le_mono_r; lia. }
  rewrite Z.shiftl_mul_pow2, u64_small by (unfold is_u64; lia).
  rewrite Z.lor_comm, lor_disjoint by lia. lia.
Qed.

Lemma putint_head i : 0 < i < 2 ^ 64 -> exists b l, putint i = b :: l /\ b2z b <> 0.
Proof.
  intros Hi. destruct (intsize_spec i Hi) as [H1 H2].
  pose proof (len_putint i ltac:(lia)) as HL. pose proof (be_putint i ltac:(lia)) as HB.
  destruct (putint i) as [|b l]; [unfold len in HL; simpl in HL; lia|].
  exists b, l. split; [done|]. intros E%(head_zero b l). rewrite HB in E. unfold pow256 in E.
  replace (Z.of_nat (length l)) with (intsize i - 1) in E; [lia|].
  unfold len in HL. simpl in HL. lia.
Qed.

Lemma drop_len_app {A} (l r : list A) : drop (Z.to_nat (len l)) (l ++ r) = r.
Proof. unfold len. by rewrite Nat2Z.id, drop_app_length. Qed.

(** ** Reading *)

(** The stream has room for [n] bytes in every enclosing list. *)
Record room (n : Z) (s : Stream) : Prop := {
  room_stack : Forall (fun x => n <= x < 2 ^ 64) (stack s);
  room_limit : limited s = true -> n <= limit s < 2 ^ 64
}.

(** [s'] is [s] after [n] bytes and [c] calls of [Bytes]. *)
Record moved (n c : Z) (s s' : Stream) : Prop := {
  moved_rest : rest s' = drop (Z.to_nat n) (rest s);
  moved_stack : stack s' = map (fun x => x - n) (stack s);
  moved_limited : limited s' = limited s;
  moved_limit : limited s = true -> limit s' = limit s - n;
  moved_total : totalDecoded s <= totalDecoded s' <= totalDecoded s + n;
  moved_calls : callCount s' = callCount s + c
}.

Lemma room_weaken n m s : m <= n -> room n s -> room m s.
Proof.
  intros H [H1 H2]. split; [|intros HL; specialize (H2 HL); lia].
  eapply Forall_impl; [|exact H1]. simpl. lia.
Qed.

Lemma room_moved n m c s s' : 0 <= n -> moved n c s s' -> room (n + m) s -> room m s'.
Proof.
  intros Hn [] [H1 H2]. split.
  - rewrite moved_stack0. apply Forall_map. eapply Forall_impl; [|exact H1]. simpl. lia.
  - rewrite moved_limited0. intros HL. rewrite moved_limit0 by done. specialize (H2 HL). lia.
Qed.

Lemma moved_refl s : moved 0 0 s s.
Proof.
  split; try done; try lia. symmetry. rewrite <- map_id. apply map_ext. intros. lia.
Qed.

Lemma moved_trans n m c d s s1 s2 :
  0 <= n -> 0 <= m -> moved n c s s1 -> moved m d s1 s2 -> moved (n + m) (c + d) s s2.
Proof.
  intros Hn Hm [] []. split; try lia; try congruence.
  - rewrite moved_rest1, moved_rest0, drop_drop. f_equal. lia.
  - rewrite moved_stack1, moved_stack0, map_map. apply map_ext. intros. lia.
  - intros HL. rewrite moved_limit1, moved_limit0 by congruence. lia.
Qed.

(** Changes of the fields that are not about the position. *)
Lemma moved_set_kind n c s s' k z e : moved n c s s' -> moved n c s (set_kind k z e s').
Proof. by intros []. Qed.
Lemma moved_set_buf n c s s' b : moved n c s s' -> moved n c s (set_buf b s').
Proof. by intros []. Qed.
Lemma moved_set_byteval n c s s' b : moved n c s s' -> moved n c s (set_byteval b s').
Proof. by intros []. Qed.
Create HintDb rlp.
#[local] Hint Resolve moved_set_kind moved_set_buf moved_set_byteval moved_refl : rlp.

Lemma took_moved n s : 0 <= n -> room n s -> moved n 0 s (took n (drop (Z.to_nat n) (rest s)) s).
Proof.
  intros Hn [H1 H2]. unfold took. split; simpl; try done; try lia.
  - apply map_ext_in. intros x Hx. rewrite Forall_forall in H1. specialize (H1 x Hx).
    apply u64_small. unfold is_u64. lia.
  - intros HL. rewrite HL. specialize (H2 HL). apply u64_small. unfold is_u64. lia.
Qed.

Lemma readByte_ok s b r :
  rest s = b :: r -> room 1 s -> readByte s = (inr b, took 1 r s).
Proof.
  intros HR [H1 H2]. unfold readByte. rewrite HR.
  destruct (stack s) as [|top k]; [|apply Forall_inv in H1; rewrite (proj2 (Z.eqb_neq _ _)) by lia];
    (destruct (limited s); [specialize (H2 eq_refl); rewrite (proj2 (Z.eqb_neq (limit s) 0)) by lia|]; done).
Qed.

Lemma readFull_ok n s l r :
  rest s = l ++ r -> len l = n -> room n s -> readFull n s = (inr l, took n r s).
Proof.
  intros HR <- [H1 H2]. unfold readFull. rewrite HR.
  assert (HT : match stack s with top :: _ => top <? len l | [] => false end = false).
  { destruct (stack s); [done|]. apply Forall_inv in H1. apply Z.ltb_ge. lia. }
  assert (HL : limited s && (limit s <? len l) = false).
  { destruct (limited s); [|done]. specialize (H2 eq_refl). apply Z.ltb_ge. lia. }
  rewrite HT, HL, len_app. pose proof (len_nonneg r). rewrite (proj2 (Z.ltb_ge _ _)) by lia.
  unfold len. rewrite Nat2Z.id, take_app_length, drop_app_length. done.
Qed.

(** ** Headers *)

(** [Kind_] found a header of [h] bytes. *)
Record header (k : Kind) (n h : Z) (s s' : Stream) : Prop := {
  header_moved : moved h 0 s s';
  header_kind : kind s' = Some k;
  header_size : size s' = n;
  header_err : kinderr s' = None
}.

Lemma Kind_again k n h s s' : header k n h s s' -> Kind_ s' = (inr (k, n), s').
Proof. intros []. unfold Kind_. by rewrite header_kind0, header_size0, header_err0. Qed.

Lemma longSize_ok n s tail :
  56 <= n <= maxRLPSize -> rest s = putint n ++ tail -> room (intsize n) s ->
  exists s', longSize (intsize n) s = (inr n, s') /\ moved (intsize n) 0 s s'.
Proof.
  intros Hn HR Hroom. assert (Hu : 0 < n < 2 ^ 64) by (unfold maxRLPSize in *; lia).
  destruct (intsize_spec n Hu) as [HI _]. destruct (putint_head n Hu) as (b & l & HP & Hb).
  pose proof (len_putint n ltac:(lia)) as HL. pose proof (be_putint n ltac:(lia)) as HB.
  unfold longSize, readSize, require, mbind, RM_bind.
  rewrite (proj2 (Z.eqb_neq _ _)), (proj2 (Z.leb_le (intsize n) 8)) by lia. simpl.
  rewrite (readFull_ok _ s (putint n) tail) by done. simpl.
  assert (E : nth_byte (putint n) 0 = b) by by rewrite HP.
  rewrite E, (proj2 (Z.eqb_neq _ _)) by done. simpl. rewrite uint_of_be, HB by lia.
  rewrite !(proj2 (Z.leb_le _ _)) by lia. simpl. eexists. split; [done|].
  apply moved_set_buf. pose proof (took_moved (intsize n) s ltac:(lia) Hroom) as HM.
  rewrite HR, <- HL, drop_len_app in HM. by rewrite HL in HM.
Qed.

Lemma took1_moved s b r : rest s = b :: r -> room 1 s -> moved 1 0 s (took 1 r s).
Proof. intros HR Hroom. pose proof (took_moved 1 s ltac:(lia) Hroom) as HM. by rewrite HR in HM. Qed.

(** What [Kind_] does with a header that [readKind] accepts. *)
Lemma Kind_read s k n h s' :
  kind s = None -> readKind s = (inr (k, n), s') -> moved h 0 s s' ->
  Kind_ s = (inr (k, n), set_kind (Some k) n None s') /\
  header k n h s (set_kind (Some k) n None s').
Proof. intros HK HR HM. unfold Kind_. rewrite HK, HR. split; [done|]. split; auto with rlp. Qed.

Lemma Kind_byte s b tail :
  kind s = None -> rest s = b :: tail -> b2z b < 0x80 -> room 1 s ->
  exists s', Kind_ s = (inr (KByte, 0), s') /\ header KByte 0 1 s s' /\ byteval s' = b.
Proof.
  intros HK HR Hb Hroom.
  assert (E : readKind s = (inr (KByte, 0), set_byteval b (set_buf [b] (took 1 tail s)))).
  { unfold readKind. rewrite (readByte_ok s b tail) by done. unfold mbind, RM_bind, mod_. simpl.
    by rewrite (proj2 (Z.ltb_lt _ _)) by lia. }
  destruct (Kind_read s KByte 0 1 _ HK E) as [H1 H2]; [eauto using took1_moved with rlp|].
  eexists. by split; [exact H1|].
Qed.

Lemma b2z_add c n : 0 <= c + n < 256 -> b2z (z2b (c + n)) = c + n.
Proof. intros. rewrite b2z_z2b. by apply Z.mod_small. Qed.

(** A header in the short or the long form, [c] being the base of its kind. *)
Definition head_bytes (c n : Z) : list byte :=
  if n <? 56 then [z2b (c + n)] else z2b (c + 55 + len (putint n)) :: putint n.

Lemma string_header n : encodeStringHeader n = head_bytes 0x80 n.
Proof. done. Qed.
Lemma list_header n : encodeListHeader n = head_bytes 0xC0 n.
Proof. done. Qed.

Lemma len_head c n : 0 <= n < 2 ^ 64 -> len (head_bytes c n) = headsize n.
Proof.
  intros Hn. unfold head_bytes, headsize. destruct (n <? 56); [done|].
  rewrite <- len_putint by done. unfold len. simpl. lia.
Qed.

Lemma readKind_head k c s n tail :
  (k = KString /\ c = 0x80 \/ k = KList /\ c = 0xC0) ->
  rest s = head_bytes c n ++ tail -> 0 <= n <= maxRLPSize -> room (headsize n) s ->
  exists s', readKind s = (inr (k, n), s') /\ moved (headsize n) 0 s s'.
Proof.
  intros HK HR Hn Hroom. unfold head_bytes, headsize in *. unfold maxRLPSize in Hn.
  destruct (Z.ltb_spec n 56) as [L|L].
  - exists (set_buf [z2b (c + n)] (took 1 tail s)). split; [|eauto using took1_moved with rlp].
    unfold readKind. rewrite (readByte_ok s (z2b (c + n)) tail) by done.
    unfold mbind, RM_bind, mod_. simpl.
    destruct HK as [[-> ->]|[-> ->]]; rewrite b2z_add by lia;
      repeat match goal with |- context [?a <? ?b] => destruct (Z.ltb_spec a b); try lia end;
      unfold mret, RM_ret; repeat f_equal; lia.
  - assert (Hu : 0 < n < 2 ^ 64) by lia. destruct (intsize_spec n Hu) as [HI _].
    rewrite len_putint in HR by lia. simpl in HR.
    set (b := z2b (c + 55 + intsize n)) in *.
    set (s1 := set_buf [b] (took 1 (putint n ++ tail) s)).
    assert (H1 : moved 1 0 s s1).
    { apply moved_set_buf. eapply took1_moved; [exact HR|]. eapply room_weaken; [|exact Hroom]. lia. }
    destruct (longSize_ok n s1 tail) as (s2 & E & HM); [unfold maxRLPSize; lia|done| |].
    { eapply (room_moved 1 _ 0 s); [lia|exact H1|exact Hroom]. }
    exists s2. split; [|by apply (moved_trans 1 (intsize n) 0 0 s s1 s2); try lia].
    unfold readKind. rewrite (readByte_ok s b (putint n ++ tail)) by first [done|eapply room_weaken; [|exact Hroom]; lia].
    unfold mbind at 1, RM_bind at 1, mod_ at 1. fold s1.
    assert (Hb : b2z b = c + 55 + intsize n)
      by (unfold b; rewrite b2z_z2b; apply Z.mod_small; destruct HK as [[-> ->]|[-> ->]]; lia).
    rewrite Hb. destruct HK as [[-> ->]|[-> ->]]; simpl;
      repeat match goal with |- context [?a <? ?b] => destruct (Z.ltb_spec a b); try lia end;
      unfold mbind, RM_bind; match goal with |- context [longSize ?x s1] => replace x with (intsize n) by lia end;
      by rewrite E.
Qed.

Lemma Kind_head k c s n tail :
  (k = KString /\ c = 0x80 \/ k = KList /\ c = 0xC0) ->
  kind s = None -> rest s = head_bytes c n ++ tail -> 0 <= n <= maxRLPSize -> room (headsize n) s ->
  exists s', Kind_ s = (inr (k, n), s') /\ header k n (headsize n) s s'.
Proof.
  intros Hk HK HR Hn Hroom. destruct (readKind_head k c s n tail) as (s1 & E & HM); [done..|].
  eexists. by apply Kind_read.
Qed.

(** ** Strings *)

Lemma rbind {A B} (m : RM A) (f : A -> RM B) s a s' : m s = (inr a, s') -> (m ≫= f) s = f a s'.
Proof. unfold mbind, RM_bind. by intros ->. Qed.

Lemma require_ok {B} b e (f : unit -> RM B) s : b = true -> (require b e ≫= f) s = f tt s.
Proof. by intros ->. Qed.

Lemma mod_bind {B} g (f : unit -> RM B) s : (mod_ g ≫= f) s = f tt (g s).
Proof. done. Qed.

Lemma get_bind {A B} g (f : A -> RM B) s : (get g ≫= f) s = f (g s) s.
Proof. done. Qed.

Lemma encodeBytes_cases l :
  (exists x, l = [x] /\ b2z x < 0x80 /\ encodeBytes l = [x]) \/
  (encodeBytes l = head_bytes 0x80 (len l) ++ l /\ small_string l = false).
Proof.
  destruct l as [|x [|y l]]; [by right| |by right].
  simpl. destruct (Z.ltb_spec (b2z x) 128); [left; eauto|by right].
Qed.

(** The budget and the contents of a string whose header was read. *)
Lemma content_ok n h s s1 l tail :
  header KString n h s s1 -> 0 <= h -> rest s1 = l ++ tail -> len l = n -> room n s1 ->
  0 <= totalDecoded s1 -> totalDecoded s1 + n <= maxTotalDecodeMemory ->
  exists s2 s3, budget n s1 = (inr tt, s2) /\ readFull n s2 = (inr l, s3) /\
    readFull n s1 = (inr l, took n tail s1) /\
    moved (h + n) 0 s (rearm s3) /\ moved (h + n) 0 s (rearm (took n tail s1)).
Proof.
  intros [HM _ _ _] Hh HR HL Hroom HT0 HT. pose proof (len_nonneg l). unfold maxTotalDecodeMemory in *.
  set (s2 := set_totalDecoded (totalDecoded s1 + n) s1).
  assert (HF : moved n 0 s1 (took n tail s1)).
  { pose proof (took_moved n s1 ltac:(lia) Hroom) as HF. by rewrite HR, <- HL, drop_len_app, HL in HF. }
  assert (HF2 : moved n 0 s1 (took n tail s2)).
  { destruct HF. split; try done. unfold s2. simpl in *. lia. }
  exists s2, (took n tail s2). split; [|split; [|split; [|split]]].
  - unfold budget. rewrite get_bind, u64_small by (unfold is_u64; lia).
    rewrite require_ok; [done|]. apply Z.leb_le. unfold maxTotalDecodeMemory. lia.
  - apply (readFull_ok n s2 l tail); [done|done|]. destruct Hroom. by split.
  - by apply readFull_ok.
  - apply moved_set_kind. by apply (moved_trans h n 0 0 s s1 (took n tail s2)); try lia.
  - apply moved_set_kind. by apply (moved_trans h n 0 0 s s1 (took n tail s1)); try lia.
Qed.

(** The stream can afford [n] more bytes. *)
Definition affords (n : Z) (s : Stream) : Prop :=
  kind s = None /\ room n s /\ 0 <= totalDecoded s /\ totalDecoded s + n <= maxTotalDecodeMemory /\
  n <= maxRLPSize.

(** Reading the header of an encoded string. *)
Lemma string_ok l tail s :
  affords (len (encodeBytes l)) s -> rest s = encodeBytes l ++ tail ->
  (exists x s1, l = [x] /\ b2z x < 0x80 /\ Kind_ s = (inr (KByte, 0), s1) /\
     header KByte 0 1 s s1 /\ byteval s1 = x /\ len (encodeBytes l) = 1) \/
  (exists s1, Kind_ s = (inr (KString, len l), s1) /\ small_string l = false /\
     header KString (len l) (headsize (len l)) s s1 /\ rest s1 = l ++ tail /\ room (len l) s1 /\
     0 <= totalDecoded s1 /\ totalDecoded s1 + len l <= maxTotalDecodeMemory /\
     len (encodeBytes l) = headsize (len l) + len l /\ 1 <= headsize (len l)).
Proof.
  intros (HK & Hroom & HT0 & HT & Hn) HR. destruct (encodeBytes_cases l) as [(x & -> & Hx & E)|[E HS]].
  - left. rewrite E in *. destruct (Kind_byte s x tail) as (s1 & ? & ? & ?); [done..|].
    exists x, s1. done.
  - right. pose proof (len_nonneg l). pose proof (len_nonneg (head_bytes 0x80 (len l))).
    rewrite E, len_app in Hroom, HT, Hn. rewrite E, <- app_assoc in HR. rewrite E, len_app.
    unfold maxRLPSize in Hn.
    assert (HH : len (head_bytes 0x80 (len l)) = headsize (len l)) by (apply len_head; lia).
    rewrite HH in *. clear HH.
    destruct (Kind_head KString 0x80 s (len l) (l ++ tail)) as (s1 & HE & HH);
      [by left|done|done|unfold maxRLPSize; lia|eapply room_weaken; [|exact Hroom]; lia|].
    assert (H1 : 1 <= headsize (len l)).
    { unfold headsize. destruct (Z.ltb_spec (len l) 56); [lia|]. destruct (intsize_spec (len l)); lia. }
    exists s1. destruct HH as [HM ? ? ?]. split; [done|]. split; [done|]. split; [done|].
    split; [|split; [by eapply (room_moved (headsize (len l))); [lia|exact HM|]|]].
    + destruct HM. rewrite moved_rest0, HR, <- (len_head 0x80) by lia. apply drop_len_app.
    + destruct HM. unfold maxTotalDecodeMemory in *. lia.
Qed.

Lemma string_len l : len l <= len (encodeBytes l) /\ 1 <= len (encodeBytes l).
Proof.
  destruct (encodeBytes_cases l) as [(x & -> & _ & ->)|[-> _]]; [done|]. rewrite len_app.
  unfold head_bytes. pose proof (len_nonneg l).
  destruct (_ <? _); unfold len in *; simpl; lia.
Qed.

(** A read of [n] bytes and [c] calls that leaves the stream armed. *)
Definition reads {A} (m : RM A) (a : A) (n c : Z) (s : Stream) : Prop :=
  exists s', m s = (inr a, s') /\ moved n c s s' /\ kind s' = None.

Lemma reads_bind {A B} (m : RM A) (f : A -> RM B) a b n c s :
  reads m a n c s -> (forall s', f a s' = (inr b, s')) -> reads (m ≫= f) b n c s.
Proof. intros (s' & E & HM & HK) Hf. exists s'. by rewrite (rbind _ _ _ _ _ E), Hf. Qed.

Lemma affords_calls n c s : affords n s -> affords n (set_callCount c s).
Proof. intros (? & [? ?] & ? & ? & ?). split; [done|]. split; [by split|done]. Qed.

Lemma moved_callCount n c s s' :
  moved n 0 (set_callCount c s) s' -> moved n (c - callCount s) s s'.
Proof. intros []. split; try done. simpl in *. lia. Qed.

Lemma Bytes_ok l tail s :
  affords (len (encodeBytes l)) s -> rest s = encodeBytes l ++ tail -> callCount s < maxBytesCalls ->
  reads Bytes l (len (encodeBytes l)) 1 s.
Proof.
  intros HA HR HC. unfold reads, Bytes. rewrite mod_bind, get_bind, require_ok by (apply Z.leb_le; simpl; lia).
  set (s0 := set_callCount (callCount s + 1) s).
  assert (HM0 : forall n s', moved n 0 s0 s' -> moved n 1 s s').
  { intros n s' H%moved_callCount. by replace (callCount s + 1 - callCount s) with 1 in H by lia. }
  destruct (string_ok l tail s0) as [(x & s1 & -> & Hx & E & HH & HB & ->)|(s1 & E & HS & HH & HR1 & Hroom & HT0 & HT & -> & H1)];
    [by apply affords_calls|done| |].
  - rewrite (rbind _ _ _ _ _ E). cbv beta iota. rewrite mod_bind, get_bind. exists (rearm s1).
    split; [by simpl; rewrite HB|]. destruct HH. split; [by apply HM0, moved_set_kind|done].
  - rewrite (rbind _ _ _ _ _ E). cbv beta iota.
    destruct (content_ok (len l) _ s0 s1 l tail HH ltac:(lia) HR1 eq_refl Hroom HT0 HT)
      as (s2 & s3 & EB & EF & _ & HM & _).
    rewrite require_ok by (destruct HA as (_ & _ & _ & _ & HA); apply Z.leb_le; revert HA HT;
      unfold maxStringSize, maxRLPSize, maxTotalDecodeMemory; destruct (string_len l); lia).
    rewrite (rbind _ _ _ _ _ EB), (rbind _ _ _ _ _ EF), mod_bind, require_ok by (by rewrite HS).
    exists (rearm s3). split; [done|]. split; [by apply HM0|done].
Qed.

(** ** Integers *)

(** No leading zero byte. *)
Definition canonical (l : list byte) : bool :=
  match l with [] => true | b :: _ => negb (b2z b =? 0) end.

Lemma canonical_check l : (0 <? len l) && (b2z (nth_byte l 0) =? 0) = negb (canonical l).
Proof. destruct l as [|b l]; [done|]. simpl. by rewrite negb_involutive. Qed.

Lemma canonical_inj l k : canonical l = true -> canonical k = true -> be l = be k -> l = k.
Proof.
  assert (H : forall l, canonical l = true -> l = [] \/ pow256 (length l - 1) <= be l < pow256 (length l)).
  { intros [|b m]; [by left|]. simpl. rewrite negb_true_iff, Z.eqb_neq. intros Hb. right.
    rewrite Nat.sub_0_r. pose proof (be_range (b :: m)) as R. simpl in R.
    split; [|apply R]. apply Z.nlt_ge. intros N%head_zero. done. }
  intros Hl Hk E. apply be_inj; [|done].
  destruct (H l Hl) as [->|Bl], (H k Hk) as [->|Bk]; try done.
  - unfold be in E at 1. simpl in E. pose proof (pow256_pos (length k - 1)). lia.
  - unfold be in E at 2. simpl in E. pose proof (pow256_pos (length l - 1)). lia.
  - assert (L : forall a b : nat, (a < b)%nat -> pow256 a <= pow256 (b - 1)).
    { intros a b Hab. unfold pow256. apply Z.pow_le_mono_r; lia. }
    destruct (Nat.lt_trichotomy (length l) (length k)) as [C|[C|C]]; [|done|]; apply L in C; lia.
Qed.

(** The digits of an integer. *)
Definition digits (i : Z) : list byte := if i =? 0 then [] else putint i.

Lemma digits_spec i : 0 <= i < 2 ^ 64 ->
  encodeUint i = encodeBytes (digits i) /\ be (digits i) = i /\ canonical (digits i) = true /\ len (digits i) <= 8.
Proof.
  intros Hi. unfold encodeUint, digits. destruct (Z.eqb_spec i 0) as [->|N]; [by vm_compute|].
  destruct (putint_head i) as (b & l & E & Hb); [lia|]. destruct (intsize_spec i) as [H1 _]; [lia|].
  split; [|split; [by apply be_putint|split; [|rewrite len_putint; lia]]].
  - destruct (Z.ltb_spec i 128); [|done]. unfold putint. rewrite (proj2 (Z.ltb_lt _ _)) by lia. simpl.
    rewrite b2z_z2b, Z.mod_small by lia. by rewrite (proj2 (Z.ltb_lt _ _)) by lia.
  - rewrite E. simpl. by apply negb_true_iff, Z.eqb_neq.
Qed.

Lemma digits_small i k : 0 <= i < 256 ^ k -> 0 <= k <= 8 -> len (digits i) <= k.
Proof.
  intros Hi Hk. unfold digits. destruct (Z.eqb_spec i 0); [unfold len; simpl; lia|].
  assert (256 ^ k <= 256 ^ 8) by (apply Z.pow_le_mono_r; lia). change (256 ^ 8) with (2 ^ 64) in *.
  rewrite len_putint by lia. destruct (intsize_spec i) as [H1 H2]; [lia|].
  destruct (Z.le_gt_cases (intsize i) k); [done|].
  assert (256 ^ k <= 256 ^ (intsize i - 1)) by (apply Z.pow_le_mono_r; lia). lia.
Qed.

Lemma uint_ok l tail s bits :
  affords (len (encodeBytes l)) s -> rest s = encodeBytes l ++ tail ->
  canonical l = true -> len l <= bits / 8 -> bits <= 64 ->
  reads (uint bits) (be l) (len (encodeBytes l)) 0 s.
Proof.
  intros HA HR HC HL Hb. unfold reads, uint. assert (len l <= 8) by zlia.
  destruct (string_ok l tail s HA HR)
    as [(x & s1 & -> & Hx & E & HH & HB & ->)|(s1 & E & HS & HH & HR1 & Hroom & HT0 & HT & -> & H1)].
  - rewrite (rbind _ _ _ _ _ E). cbv beta iota. rewrite mod_bind, get_bind. simpl byteval. rewrite HB.
    rewrite require_ok by done. exists (rearm s1). destruct HH.
    split; [done|]. by split; [apply moved_set_kind|].
  - rewrite (rbind _ _ _ _ _ E). cbv beta iota. rewrite require_ok by (apply Z.leb_le; lia).
    destruct (content_ok (len l) _ s s1 l tail HH ltac:(lia) HR1 eq_refl Hroom HT0 HT)
      as (s2 & s3 & EB & EF & _ & HM & _).
    rewrite (rbind _ _ _ _ _ EB), (rbind _ _ _ _ _ EF), mod_bind, canonical_check, HC.
    rewrite require_ok, require_ok by (try rewrite HS; done).
    exists (rearm s3). rewrite uint_of_be by done. done.
Qed.

Lemma Uint_ok i tail s bits :
  0 <= i < 2 ^ bits -> bits = 8 \/ bits = 64 ->
  affords (len (encodeUint i)) s -> rest s = encodeUint i ++ tail ->
  reads (uint bits) i (len (encodeUint i)) 0 s.
Proof.
  intros Hi Hb HA HR. assert (Hi64 : 0 <= i < 2 ^ 64) by (destruct Hb as [-> | ->]; lia).
  destruct (digits_spec i Hi64) as (E & HE & HC & HL). rewrite E in *.
  assert (HU : reads (uint bits) (be (digits i)) (len (encodeBytes (digits i))) 0 s); [|by rewrite HE in HU].
  apply (uint_ok _ tail); [done|done|done| |destruct Hb as [-> | ->]; lia].
  destruct Hb as [-> | ->]; [|done]. by apply (digits_small i 1).
Qed.

(** The bytes of a size with no leading zero. *)
Lemma putint_unique b :
  1 <= len b <= 8 -> b2z (nth_byte b 0) <> 0 -> 0 < uint_of b < 2 ^ 64 /\ putint (uint_of b) = b.
Proof.
  intros HL H0. rewrite uint_of_be by lia. destruct b as [|x b]; [unfold len in HL; simpl in HL; lia|]. change (nth_byte (x :: b) 0) with x in H0.
  pose proof (be_range (x :: b)) as HR. assert (HP : pow256 (length (x :: b)) <= 256 ^ 8).
  { unfold pow256, len in *. apply Z.pow_le_mono_r; lia. }
  assert (0 < be (x :: b)).
  { destruct (Z.le_gt_cases (be (x :: b)) 0); [|lia]. destruct H0. apply (head_zero x b).
    pose proof (pow256_pos (length b)). lia. }
  split; [lia|]. apply canonical_inj; [| |apply be_putint; lia].
  - destruct (putint_head (be (x :: b))) as (y & l & -> & Hy); [lia|]. simpl. by apply negb_true_iff, Z.eqb_neq.
  - simpl. by apply negb_true_iff, Z.eqb_neq.
Qed.

Lemma big_bytes_canonical z : 0 <= z -> canonical (big_bytes z) = true.
Proof.
  intros Hz. unfold big_bytes. destruct (Z.eqb_spec z 0) as [|N]; [done|]. rewrite Z.abs_eq by lia.
  set (n := Z.log2 z / 8). pose proof (Z.log2_spec z ltac:(lia)) as [L1 L2].
  pose proof (Z.log2_nonneg z). assert (0 <= n) by (unfold n; zlia).
  destruct (be_bytes (Z.to_nat (n + 1)) z) as [|b l] eqn:E; [done|]. simpl.
  apply negb_true_iff, Z.eqb_neq. intros Hb%(head_zero b l). rewrite <- E, be_be_bytes in Hb.
  pose proof (length_be_bytes (Z.to_nat (n + 1)) z) as HL. rewrite E in HL. simpl in HL.
  replace (length l) with (Z.to_nat n) in Hb by lia.
  assert (H1 : z < pow256 (Z.to_nat (n + 1))).
  { unfold pow256. rewrite Z2Nat.id by lia. change 256 with (2 ^ 8). rewrite <- Z.pow_mul_r by lia.
    eapply Z.lt_le_trans; [exact L2|]. apply Z.pow_le_mono_r; [lia|]. unfold n. zlia. }
  assert (H2 : pow256 (Z.to_nat n) <= z).
  { unfold pow256. rewrite Z2Nat.id by lia. change 256 with (2 ^ 8). rewrite <- Z.pow_mul_r by lia.
    eapply Z.le_trans; [|exact L1]. apply Z.pow_le_mono_r; [lia|]. unfold n. zlia. }
  rewrite Z.mod_small in Hb by lia. lia.
Qed.

Lemma encodeBigInt_spec z : 0 <= z -> encodeBigInt z = inr (encodeBytes (big_bytes z)).
Proof.
  intros Hz. unfold encodeBigInt. destruct (Z.eqb_spec z 0) as [->|]; [done|].
  by rewrite (proj2 (Z.ltb_ge _ _)) by lia.
Qed.

(** [Bytes] when the header has been read ahead. *)
Lemma Bytes_header l tail s s1 k n h :
  affords (len (encodeBytes l)) s -> rest s = encodeBytes l ++ tail -> callCount s < maxBytesCalls ->
  Kind_ s = (inr (k, n), s1) -> header k n h s s1 ->
  exists s', Bytes s1 = (inr l, s') /\ moved (len (encodeBytes l)) 1 s s' /\ kind s' = None.
Proof.
  intros HA HR HC HK HH. set (s2 := set_callCount (callCount s1 + 1) s1).
  assert (EC : callCount s1 = callCount s) by (destruct HH as [[] _ _ _]; lia).
  assert (E2 : Kind_ s2 = (inr (k, n), s2))
    by (destruct HH; unfold Kind_, s2; simpl; by rewrite header_kind0, header_err0, header_size0).
  unfold Bytes. rewrite mod_bind, get_bind, require_ok by (apply Z.leb_le; simpl; lia). fold s2.
  rewrite (rbind _ _ _ _ _ E2). cbv beta iota.
  destruct (string_ok l tail s HA HR)
    as [(x & s1' & -> & Hx & E & HH' & HB & ->)|(s1' & E & HS & HH' & HR1 & Hroom & HT0 & HT & HL & H1)];
    rewrite HK in E; injection E as -> -> <-.
  - rewrite mod_bind, get_bind. exists (rearm s2). split; [by simpl; rewrite HB|]. split; [|done].
    destruct HH' as [[] _ _ _]. split; try done. simpl. lia.
  - assert (HH2 : header KString (len l) (headsize (len l)) (set_callCount (callCount s + 1) s) s2).
    { destruct HH' as [[] ? ? ?]. split; [|done..]. split; try done. simpl. lia. }
    destruct (content_ok (len l) _ _ s2 l tail HH2 ltac:(lia) HR1 eq_refl) as (s3 & s4 & EB & EF & _ & HM & _);
      [by destruct Hroom|done|done|].
    rewrite require_ok by (destruct HA as (_ & _ & _ & _ & HA); apply Z.leb_le; revert HA HT;
      unfold maxStringSize, maxRLPSize, maxTotalDecodeMemory; destruct (string_len l); lia).
    rewrite (rbind _ _ _ _ _ EB), (rbind _ _ _ _ _ EF), mod_bind, require_ok by (by rewrite HS).
    exists (rearm s4). split; [done|]. split; [|done]. rewrite HL. apply moved_callCount in HM.
    by replace (callCount s + 1 - callCount s) with 1 in HM by lia.
Qed.

(** The header of an encoded string is read without error. *)
Lemma string_kind l tail s :
  affords (len (encodeBytes l)) s -> rest s = encodeBytes l ++ tail ->
  exists k n h s1, Kind_ s = (inr (k, n), s1) /\ header k n h s s1 /\
    (k = KString -> n = len l) /\ k <> KList.
Proof.
  intros HA HR. destruct (string_ok l tail s HA HR)
    as [(x & s1 & _ & _ & E & HH & _)|(s1 & E & _ & HH & _)];
    do 4 eexists; (split; [exact E|]); by split; [exact HH|].
Qed.

Lemma BigInt_ok z tail s :
  0 <= z -> affords (len (encodeBytes (big_bytes z))) s -> rest s = encodeBytes (big_bytes z) ++ tail ->
  callCount s < maxBytesCalls -> reads BigInt z (len (encodeBytes (big_bytes z))) 1 s.
Proof.
  intros Hz HA HR HC. destruct (string_kind _ tail s HA HR) as (k & n & h & s1 & E & HH & _).
  destruct (Bytes_header _ tail s s1 k n h HA HR HC E HH) as (s2 & EB & HM & HK).
  unfold reads, BigInt. rewrite (rbind _ _ _ _ _ E), (rbind _ _ _ _ _ EB).
  rewrite canonical_check, big_bytes_canonical, require_ok by done.
  exists s2. rewrite be_big_bytes, Z.abs_eq by done. done.
Qed.

(** ** Byte arrays *)

Lemma decodeByteArray_ok l tail s :
  affords (len (encodeBytes l)) s -> rest s = encodeBytes l ++ tail ->
  reads (decodeByteArray (length l)) (VBytes l) (len (encodeBytes l)) 0 s.
Proof.
  intros HA HR. unfold reads, decodeByteArray.
  destruct (string_ok l tail s HA HR)
    as [(x & s1 & -> & Hx & E & HH & HB & ->)|(s1 & E & HS & HH & HR1 & Hroom & HT0 & HT & -> & H1)];
    rewrite (rbind _ _ _ _ _ E); cbv beta iota.
  - rewrite require_ok, mod_bind, get_bind by done. exists (rearm s1). destruct HH.
    split; [by simpl; rewrite HB|]. by split; [apply moved_set_kind|].
  - destruct (content_ok (len l) _ s s1 l tail HH ltac:(lia) HR1 eq_refl Hroom HT0 HT)
      as (_ & _ & _ & _ & EF & _ & HM).
    rewrite require_ok by (apply Z.leb_le; unfold len; lia). rewrite (rbind _ _ _ _ _ EF), mod_bind.
    exists (rearm (took (len l) tail s1)). by rewrite Nat.sub_diag, app_nil_r.
Qed.

(** ** Sizes computed ahead *)

(** [StringSize], [IntSize] and [ListSize] give the length of the encoding
    without building it. *)
Theorem sizes_exact b i content :
  len b < 2 ^ 62 -> 0 <= i < 2 ^ 64 -> len content < 2 ^ 62 ->
  StringSize b = len (encodeBytes b) /\ IntSize i = len (encodeUint i) /\
  ListSize (len content) = len (encodeListHeader (len content) ++ content).
Proof.
  intros Hb Hi Hc. pose proof (len_nonneg b) as Hb0. pose proof (len_nonneg content) as Hc0.
  assert (HH : forall n, 0 <= n < 2 ^ 62 -> 0 <= headsize n <= 9).
  { intros n Hn. unfold headsize. destruct (Z.ltb_spec n 56); [lia|]. destruct (intsize_spec n); lia. }
  split; [|split].
  - destruct (encodeBytes_cases b) as [(x & -> & Hx & ->)|[-> HS]].
    { simpl. by rewrite (proj2 (Z.ltb_lt _ _)) by lia. }
    rewrite len_app, len_head by lia. specialize (HH (len b) ltac:(lia)). unfold headsize in *.
    destruct b as [|x [|y b]]; [done|simpl in HS |- *; by rewrite HS|]. unfold StringSize.
    destruct (Z.ltb_spec (len (x :: y :: b)) 56); [done|]. rewrite u64_small; [done|]. unfold is_u64. lia.
  - unfold IntSize. destruct (digits_spec i Hi) as (-> & _ & HC & HL). unfold digits in *.
    destruct (Z.eqb_spec i 0) as [->|N]; [done|]. destruct (intsize_spec i) as [H1 H2]; [lia|].
    destruct (encodeBytes_cases (putint i)) as [(x & E & Hx & ->)|[-> HS]].
    + pose proof (be_putint i Hi) as HB. rewrite E in HB. unfold be in HB. simpl in HB.
      by rewrite (proj2 (Z.ltb_lt _ _)) by lia.
    + rewrite len_app, len_head, len_putint by (rewrite ?len_putint; lia). unfold headsize.
      rewrite (proj2 (Z.ltb_lt (intsize i) 56)) by lia. destruct (Z.ltb_spec i 128); [|done].
      exfalso. revert HS. unfold putint. rewrite (proj2 (Z.ltb_lt i (2 ^ 8))) by lia. simpl.
      rewrite b2z_z2b, Z.mod_small by lia. by rewrite (proj2 (Z.ltb_lt _ _)) by lia.
  - unfold ListSize. specialize (HH (len content) ltac:(lia)).
    rewrite u64_small, len_app, list_header, len_head by (unfold is_u64; lia). done.
Qed.

Lemma sizes_exact_witness :
  StringSize [x80; x81] = 3 /\ IntSize 1024 = 3 /\ ListSize (len (replicate 60 x01)) = 62.
Proof.
  destruct (sizes_exact [x80; x81] 1024 (replicate 60 x01)) as (-> & -> & ->); [reflexivity|split; [discriminate|reflexivity]|reflexivity|].
  vm_compute. auto.
Defined.
End RlpSpec.
