(* ===== verification/RlpRoundtrip.v ===== *)
(** * RLP round trip: values

    Every value the encoder accepts is read back by the decoder, within the
    decoder's limits on depth, list lengths, sizes and calls. *)

From Stdlib Require Import ZArith Lia.
From Stdlib.Strings Require Import Byte.
From stdpp Require Import base list countable strings numbers.
From S2P Require Import Prelude Stack Rlp RlpSpec.

Module RlpRoundtrip.
Import Rlp RlpSpec.

(** ** Lists on the stream *)

(** The stream inside a list of [n] bytes. *)
Definition inside (n : Z) (s : Stream) : Stream := rearm (set_stack (n :: stack s) s).

Lemma affords_moved n m c s s' :
  0 <= n -> 0 <= m -> affords (n + m) s -> moved n c s s' -> kind s' = None -> affords m s'.
Proof.
  intros Hn Hm (_ & HR & HT0 & HT & HL) HM HK. split; [done|].
  split; [by apply (room_moved n m c s)|]. destruct HM. lia.
Qed.

Lemma affords_inside n s : 0 <= n -> affords n s -> affords n (inside n s).
Proof.
  intros Hn (HK & [H1 H2] & HT0 & HT & HL). split; [done|]. split; [|done].
  split; [|done]. constructor; [|done]. unfold maxRLPSize in HL. lia.
Qed.

Lemma List_ok n tail s :
  0 <= n -> affords (headsize n + n) s -> rest s = encodeListHeader n ++ tail ->
  len (stack s) < maxNestingDepth ->
  exists s0, List_ s = (inr n, inside n s0) /\ moved (headsize n) 0 s s0 /\ rest s0 = tail /\
    affords n (set_kind None 0 None s0).
Proof.
  intros Hn HA HR HD. pose proof HA as (HK & Hroom & HT0 & HT & HL). rewrite list_header in HR.
  assert (Hh : 1 <= headsize n <= 9).
  { unfold headsize, intsize. destruct (n <? 56); [lia|]. by repeat destruct (_ <? _). }
  destruct (Kind_head KList 0xC0 s n tail) as (s0 & E & HH); [by right|done|done|lia| |].
  { eapply room_weaken; [|exact Hroom]. lia. }
  exists s0. pose proof HH as [HM _ _ _].
  assert (HR0 : room n s0) by (eapply room_moved; [|exact HM|exact Hroom]; lia).
  split; [|split; [done|split]].
  - unfold List_. rewrite get_bind, require_ok by by apply Z.ltb_lt.
    rewrite (rbind _ _ _ _ _ E). cbv beta iota. rewrite require_ok by done.
    rewrite get_bind, require_ok; [done|]. destruct HR0 as [HS _]. destruct (stack s0); [done|].
    apply Forall_inv in HS. apply Z.leb_le. lia.
  - destruct HM. rewrite moved_rest0, HR, <- (len_head 0xC0) by (unfold maxRLPSize in HL; lia).
    apply drop_len_app.
  - split; [done|]. destruct HM. split; [by destruct HR0|]. simpl. lia.
Qed.

Lemma ListEnd_ok n c s s1 :
  moved n c (inside n s) s1 ->
  exists s2, ListEnd s1 = (inr tt, s2) /\ moved n c s s2 /\ kind s2 = None.
Proof.
  intros [HR HS HL HL2 HT HC]. unfold ListEnd. simpl in HS. rewrite HS.
  rewrite (proj2 (Z.ltb_ge _ _)) by lia. eexists. split; [done|]. split; [|done]. by split.
Qed.

(** Reading past the last element. *)
Lemma Kind_eol s ks :
  stack s = 0 :: ks -> kind s = None ->
  Kind_ s = (inl ErrEOL, set_kind (Some KByte) 0 (Some ErrEOL) s).
Proof. intros HS HK. unfold Kind_, readKind, readByte. rewrite HK, HS. simpl. by rewrite HS. Qed.

(** ** Costs *)

Definition sumZ (l : list Z) : Z := foldr Z.add 0 l.
Definition maxZ (l : list Z) : Z := foldr Z.max 0 l.

Lemma maxZ_nonneg l : 0 <= maxZ l.
Proof. induction l; simpl; lia. Qed.

(** The types that decode a list. *)
Definition is_list (t : Ty) : bool :=
  match t with TSlice _ | TArray _ _ | TStruct _ => true | _ => false end.

(** The calls of [Bytes] it takes to find the end of a slice. *)
Definition probe (t : Ty) : Z := match t with TBytes => 1 | _ => 0 end.

(** The calls of [Bytes] that decoding takes, the probes included. *)
Fixpoint calls (t : Ty) (v : Val) : Z :=
  match t, v with
  | TBytes, _ | TBigInt, _ => 1
  | TSlice t, VList l => sumZ (map (calls t) l) + probe t
  | TArray _ t, VList l => sumZ (map (calls t) l)
  | TStruct ts, VList l => sumZ (zip_with (fun f v => f v) (map calls ts) l)
  | TPtr t, VPtr v => calls t v
  | _, _ => 0
  end.

(** The lists that are open at once; a slice probes for one element more. *)
Fixpoint depth (t : Ty) (v : Val) : Z :=
  match t, v with
  | TSlice t, VList l => 1 + Z.max (if is_list t then 1 else 0) (maxZ (map (depth t) l))
  | TArray _ t, VList l => 1 + maxZ (map (depth t) l)
  | TStruct ts, VList l => 1 + maxZ (zip_with (fun f v => f v) (map depth ts) l)
  | TPtr t, VPtr v => depth t v
  | _, _ => 0
  end.

(** ** The header read ahead *)

(** [m] neither reads nor writes the call count. *)
Definition commutes {A} (m : RM A) : Prop := forall c s,
  m (set_callCount c s) = let '(r, s') := m s in (r, set_callCount c s').

Lemma commutes_bind {A B} (m : RM A) (f : A -> RM B) :
  commutes m -> (forall a, commutes (f a)) -> commutes (m ≫= f).
Proof.
  intros Hm Hf c s. unfold mbind, RM_bind. rewrite Hm. destruct (m s) as [[e|a] s']; [done|]. apply Hf.
Qed.

Lemma commutes_require b e : commutes (require b e).
Proof. by destruct b. Qed.

Lemma commutes_readFull n : commutes (readFull n).
Proof.
  intros c s. unfold readFull. simpl. destruct (match stack s with [] => _ | _ => _ end); [done|].
  destruct (_ && _); [done|]. by destruct (_ <? _).
Qed.

Lemma commutes_readByte : commutes readByte.
Proof.
  intros c s. unfold readByte. simpl. destruct (match stack s with [] => _ | _ => _ end); [done|].
  destruct (_ && _); [done|]. by destruct (rest s).
Qed.

Lemma commutes_longSize n : commutes (longSize n).
Proof.
  unfold longSize, readSize. repeat (apply commutes_bind; [|intros ?]);
    try apply commutes_require; try apply commutes_readFull; by intros c s.
Qed.

Lemma commutes_readKind : commutes readKind.
Proof.
  intros c s. unfold readKind. rewrite commutes_readByte. destruct (readByte s) as [[e|b] s']; [done|].
  match goal with |- ?m _ = _ => assert (commutes m) as H; [|exact (H c s')] end.
  apply commutes_bind; [by intros ? ?|intros _]. cbv zeta.
  repeat (destruct (_ <? _)); try (by intros ? ?); apply commutes_bind; try apply commutes_longSize;
    by intros ? ? ?.
Qed.

Lemma commutes_Kind : commutes Kind_.
Proof.
  intros c s. unfold Kind_. simpl. destruct (kind s); [done|]. rewrite commutes_readKind.
  by destruct (readKind s) as [[e|[k n]] s'].
Qed.

Lemma Kind_twice s kn s1 : Kind_ s = (inr kn, s1) -> Kind_ s1 = (inr kn, s1).
Proof.
  unfold Kind_. destruct (kind s) as [k|] eqn:HK.
  - destruct (kinderr s) eqn:HE; [done|]. intros [= <- <-]. by rewrite HK, HE.
  - destruct (readKind s) as [[e|[k n]] s']; [done|]. by intros [= <- <-].
Qed.

Lemma Kind_stack s kn s1 : Kind_ s = (inr kn, s1) -> length (stack s1) = length (stack s).
Proof.
  assert (HF : forall n s r s', readFull n s = (r, s') -> length (stack s') = length (stack s)).
  { intros n t r t'. unfold readFull. repeat (destruct (match _ with [] => _ | _ => _ end) || destruct (_ && _) || destruct (_ <? _));
      intros [= _ <-]; simpl; by rewrite ?length_map. }
  assert (HL : forall n s r s', longSize n s = (r, s') -> length (stack s') = length (stack s)).
  { intros n t r t'. unfold longSize, readSize, require, mbind, RM_bind.
    destruct (negb (n =? 0)); simpl; [|by intros [= _ <-]]. destruct (n <=? 8); simpl; [|by intros [= _ <-]].
    destruct (readFull n t) as [[e|b] t1] eqn:E; apply HF in E; [by intros [= _ <-]|]. simpl.
    destruct (negb _); simpl; [|by intros [= _ <-]]. destruct (56 <=? _); simpl; [|by intros [= _ <-]].
    destruct (_ <=? _); simpl; by intros [= _ <-]. }
  unfold Kind_. destruct (kind s); [by intros [= _ <-]|]. unfold readKind, readByte.
  destruct (match stack s with [] => _ | _ => _ end); [done|]. destruct (_ && _); [done|].
  destruct (rest s) as [|b r]; [done|]. unfold mbind, RM_bind, mod_. simpl.
  repeat (destruct (_ <? _); simpl;
    try (intros [= _ <-]; simpl; by rewrite length_map)).
  all: destruct (longSize _ _) as [[e|n] s'] eqn:E; apply HL in E; simpl in *; try done;
    intros [= _ <-]; simpl; by rewrite E, length_map.
Qed.

(** [m] reads the same when the header has been read ahead. *)
Definition ahead {A} (m : RM A) : Prop := forall s kn s1 a s',
  Kind_ s = (inr kn, s1) -> m s = (inr a, s') <-> m s1 = (inr a, s').

Lemma ahead_bind {A B} (m : RM A) (f : A -> RM B) : ahead m -> ahead (m ≫= f).
Proof.
  intros H s kn s1 b s' E. unfold mbind, RM_bind. split; intros Hb.
  - destruct (m s) as [[e|a] s2] eqn:Em; [done|]. by rewrite (proj1 (H s kn s1 a s2 E) Em).
  - destruct (m s1) as [[e|a] s2] eqn:Em; [done|]. by rewrite (proj2 (H s kn s1 a s2 E) Em).
Qed.

Lemma ahead_Kind : ahead Kind_.
Proof. intros s kn s1 a s' E. by rewrite E, (Kind_twice s kn s1 E). Qed.

Lemma ahead_Bytes : ahead Bytes.
Proof.
  intros s kn s1 b s' E. pose proof (Kind_twice s kn s1 E) as E1.
  assert (EC : callCount s1 = callCount s).
  { pose proof (commutes_Kind (callCount s) s) as H. replace (set_callCount (callCount s) s) with s in H
      by by destruct s. rewrite E in H. by apply (f_equal (fun p => callCount (p.2))) in H. }
  unfold Bytes. rewrite !mod_bind, !get_bind. simpl callCount. rewrite EC. unfold require.
  destruct (_ <=? _); [|done]. rewrite !(rbind (mret tt) _ _ _ _ eq_refl).
  set (c := callCount s + 1). rewrite (rbind _ _ (set_callCount c s1) kn (set_callCount c s1)) by by rewrite commutes_Kind, E1.
  by rewrite (rbind _ _ (set_callCount c s) kn (set_callCount c s1)) by by rewrite commutes_Kind, E.
Qed.

Lemma ahead_List : ahead List_.
Proof.
  intros s kn s1 b s' E. pose proof (Kind_twice s kn s1 E) as E1. unfold List_, len.
  rewrite !get_bind, (Kind_stack s kn s1 E). unfold require. destruct (_ <? maxNestingDepth); [|done].
  rewrite !(rbind (mret tt) _ _ _ _ eq_refl). by rewrite (rbind _ _ _ _ _ E), (rbind _ _ _ _ _ E1).
Qed.

Lemma ahead_decode t cur : ahead (decodeValue t cur).
Proof.
  destruct t; cbn [decodeValue]; unfold Bool, Uint, uint, BigInt, Raw, decodeByteArray;
    repeat lazymatch goal with |- ahead (_ ≫= _) => apply ahead_bind end;
    first [exact ahead_Kind | exact ahead_Bytes | exact ahead_List].
Qed.

(** ** The end of a list *)

(** Decoding past the last element fails with [ErrEOL], which the loops expect. *)
Lemma decode_eol t cur s ks :
  stack s = 0 :: ks -> kind s = None -> callCount s + probe t <= maxBytesCalls ->
  (is_list t = true -> len (stack s) < maxNestingDepth) ->
  exists s', decodeValue t cur s = (inl ErrEOL, s') /\ moved 0 (probe t) s s'.
Proof.
  intros HS HK HC HD. pose proof (Kind_eol s ks HS HK) as E.
  assert (HB : forall B (f : Kind * Z -> RM B), (Kind_ ≫= f) s =
            (inl ErrEOL, set_kind (Some KByte) 0 (Some ErrEOL) s)).
  { intros B f. unfold mbind, RM_bind. by rewrite E. }
  assert (HM : moved 0 0 s (set_kind (Some KByte) 0 (Some ErrEOL) s)) by apply moved_set_kind, moved_refl.
  assert (HU : forall bits, uint bits s = (inl ErrEOL, set_kind (Some KByte) 0 (Some ErrEOL) s)) by (intros; apply HB).
  assert (HL : is_list t = true -> List_ s = (inl ErrEOL, set_kind (Some KByte) 0 (Some ErrEOL) s)).
  { intros H%HD. unfold List_. rewrite get_bind, require_ok by by apply Z.ltb_lt. apply HB. }
  destruct t; cbn [decodeValue probe] in *; try done; try specialize (HL eq_refl);
    try (eexists; split; [|exact HM]; unfold Bool, Uint, BigInt, Raw, decodeByteArray; first [by apply HB|
      unfold mbind, RM_bind; by rewrite ?HU, ?HL, ?E]).
  set (s1 := set_callCount (callCount s + 1) s).
  exists (set_kind (Some KByte) 0 (Some ErrEOL) s1). split; [|apply moved_set_kind; by split; destruct (moved_refl s)].
  unfold Bytes. unfold mbind at 1, RM_bind at 1. rewrite mod_bind, get_bind, require_ok by (apply Z.leb_le; simpl; lia).
  fold s1. unfold mbind, RM_bind. by rewrite (Kind_eol s1 ks HS HK).
Qed.

(** ** Values *)

(** The values of a type that decode to themselves. A pointer is decoded to nil
    when its pointee is encoded as the empty string; an interface is decoded to
    the raw encoding. *)
#[warnings="-register-all"]
Inductive wt : Ty -> Val -> Prop :=
  | wt_bool b : wt TBool (VBool b)
  | wt_int bits z : bits <= 64 -> 0 <= z < 2 ^ (bits - 1) -> wt (TInt bits) (VInt z)
  | wt_uint bits z : bits <= 64 -> 0 <= z < 2 ^ bits -> wt (TUint bits) (VInt z)
  | wt_bytes l : wt TBytes (VBytes l)
  | wt_byteArray l : wt (TByteArray (length l)) (VBytes l)
  | wt_slice t l : len l < maxSliceElements -> Forall (wt t) l -> wt (TSlice t) (VList l)
  | wt_array t l : Forall (wt t) l -> wt (TArray (length l) t) (VList l)
  | wt_struct ts l : Forall2 wt ts l -> wt (TStruct ts) (VList l)
  | wt_nil t : wt (TPtr t) VNil
  | wt_ptr t v : encodeValue v <> inr [x80] -> wt t v -> wt (TPtr t) (VPtr v)
  | wt_big z : 0 <= z -> wt TBigInt (VBig z).

(** [t] with [Forall] at the fields of a struct. *)
Lemma Ty_nested_ind (P : Ty -> Prop) :
  P TBool -> (forall n, P (TInt n)) -> (forall n, P (TUint n)) -> P TBytes ->
  (forall n, P (TByteArray n)) -> (forall t, P t -> P (TSlice t)) ->
  (forall n t, P t -> P (TArray n t)) -> (forall ts, Forall P ts -> P (TStruct ts)) ->
  (forall t, P t -> P (TPtr t)) -> P TBigInt -> P TInterface -> forall t, P t.
Proof.
  intros H1 H2 H3 H4 H5 H6 H7 H8 H9 H10 H11. fix IH 1.
  intros []; [exact H1|apply H2|apply H3|exact H4|apply H5|apply H6, IH|apply H7, IH| |apply H9, IH
    |exact H10|exact H11].
  apply H8. induction fields; constructor; [apply IH|assumption].
Qed.

(** The encoding [enc] of [v], at most [n] calls and [d] more lists, is read back. *)
Definition decodes (t : Ty) (cur v : Val) : Prop := forall enc s tail,
  encodeValue v = inr enc -> rest s = enc ++ tail -> affords (len enc) s ->
  callCount s + calls t v <= maxBytesCalls -> len (stack s) + depth t v <= maxNestingDepth ->
  reads (decodeValue t cur) v (len enc) (calls t v) s.

Lemma calls_nonneg t v : 0 <= calls t v.
Proof.
  revert v. induction t as [| | | | |t IH|n t IH|ts IH|t IH| |] using Ty_nested_ind; intros []; simpl; try lia; try apply IH.
  - assert (0 <= probe t) by by destruct t. assert (0 <= sumZ (map (calls t) l)); [|lia]. induction l; simpl; [lia|]. specialize (IH a). lia.
  - induction l; simpl; [lia|]. specialize (IH a). lia.
  - revert l. induction IH as [|t ts Ht _ IH]; intros [|v l]; simpl; try lia. specialize (Ht v). specialize (IH l). lia.
Qed.

(** What is left of a list of [n] bytes, [content] being the encodings to come. *)
Definition in_list (content : list byte) (tail : list byte) (s : Stream) : Prop :=
  rest s = content ++ tail /\ affords (len content) s /\ exists ks, stack s = len content :: ks.

Lemma in_list_moved enc content tail c s s' :
  in_list (enc ++ content) tail s -> moved (len enc) c s s' -> kind s' = None -> in_list content tail s'.
Proof.
  intros (HR & HA & ks & HS) HM HK. rewrite len_app in *. pose proof (len_nonneg enc).
  pose proof (len_nonneg content). split; [|split].
  - rewrite (moved_rest _ _ _ _ HM), HR, <- app_assoc. apply drop_len_app.
  - by apply (affords_moved (len enc) (len content) c s s').
  - rewrite (moved_stack _ _ _ _ HM), HS. simpl. eexists. f_equal. lia.
Qed.

Lemma in_list_affords enc content tail s :
  in_list (enc ++ content) tail s -> rest s = enc ++ content ++ tail /\ affords (len enc) s.
Proof.
  intros (HR & (HK & HRo & HT0 & HT & HL) & _). rewrite app_assoc. split; [done|].
  rewrite len_app in *. pose proof (len_nonneg content). split; [done|].
  split; [by apply (room_weaken (len enc + len content)); [lia|]|lia].
Qed.

Lemma concatAll_cons v l content :
  concatAll (map encodeValue (v :: l)) = inr content ->
  exists enc content', encodeValue v = inr enc /\ concatAll (map encodeValue l) = inr content' /\
    content = enc ++ content'.
Proof.
  simpl. destruct (encodeValue v) as [e|enc]; [done|]. destruct (concatAll _) as [e|c]; [done|].
  intros [= <-]. by exists enc, c.
Qed.

(** ** The loops *)

Lemma sliceLoop_ok t l : forall n elems s content tail,
  Forall (decodes t (zero_val t)) l -> (length l < n)%nat ->
  concatAll (map encodeValue l) = inr content -> in_list content tail s ->
  callCount s + sumZ (map (calls t) l) + probe t <= maxBytesCalls ->
  len (stack s) + Z.max (if is_list t then 1 else 0) (maxZ (map (depth t) l)) <= maxNestingDepth ->
  exists s', sliceLoop (decodeValue t (zero_val t)) n elems s = (inr (elems ++ l), s') /\
    moved (len content) (sumZ (map (calls t) l) + probe t) s s'.
Proof.
  induction l as [|v l IH]; intros [|n] elems s content tail HF Hn HE HL HC HD; simpl in Hn; try lia.
  - injection HE as <-. destruct HL as (_ & (HK & _) & ks & HS).
    destruct (decode_eol t (zero_val t) s ks HS HK) as (s' & E & HM); [simpl in HC; lia| |].
    { intros Ht. rewrite Ht in HD. simpl in HD. lia. }
    exists s'. cbn [sliceLoop]. rewrite E, app_nil_r. by split.
  - apply concatAll_cons in HE as (enc & content' & Ev & Ec & ->). simpl in HC, HD.
    destruct (in_list_affords _ _ _ _ HL) as [HR HA]. inversion HF as [|? ? Hv Hl]; subst.
    pose proof (calls_nonneg t v) as Hcv.
    assert (0 <= sumZ (map (calls t) l)). { clear. induction l; simpl; [lia|]. pose proof (calls_nonneg t a). lia. }
    assert (0 <= probe t) by by destruct t.
    destruct (Hv enc s _ Ev HR HA) as (s1 & E1 & HM1 & HK1); [lia|lia|].
    destruct (IH n (elems ++ [v]) s1 content' tail Hl) as (s' & E & HM); [lia|done| | | |].
    + by apply (in_list_moved enc content' tail (calls t v) s s1).
    + rewrite (moved_calls _ _ _ _ HM1). lia.
    + rewrite (moved_stack _ _ _ _ HM1). unfold len in *. rewrite length_map. lia.
    + exists s'. cbn [sliceLoop]. rewrite E1, E, <- app_assoc. split; [done|]. simpl. rewrite len_app, <- Z.add_assoc.
      eapply moved_trans; [apply len_nonneg..|exact HM1|exact HM].
Qed.

(** The targets [ts] are decoded one after the other. *)
Inductive in_turn : list Ty -> list Val -> Stream -> Stream -> Prop :=
  | in_turn_nil s : in_turn [] [] s s
  | in_turn_cons t ts v l s s1 s' :
      decodeValue t (zero_val t) s = (inr v, s1) -> in_turn ts l s1 s' -> in_turn (t :: ts) (v :: l) s s'.

Lemma in_turn_ok (ts : list Ty) l s content tail :
  Forall2 (fun t v => decodes t (zero_val t) v) ts l ->
  concatAll (map encodeValue l) = inr content -> in_list content tail s ->
  callCount s + sumZ (zip_with (fun f v => f v) (map calls ts) l) <= maxBytesCalls ->
  len (stack s) + maxZ (zip_with (fun f v => f v) (map depth ts) l) <= maxNestingDepth ->
  exists s', in_turn ts l s s' /\
    moved (len content) (sumZ (zip_with (fun f v => f v) (map calls ts) l)) s s'.
Proof.
  intros HF. revert s content tail.
  induction HF as [|t v ts l Hv HF IH]; intros s content tail HE HL HC HD.
  - injection HE as <-. exists s. split; [constructor|apply moved_refl].
  - apply concatAll_cons in HE as (enc & content' & Ev & Ec & ->). simpl in HC, HD.
    destruct (in_list_affords _ _ _ _ HL) as [HR HA]. pose proof (calls_nonneg t v).
    assert (0 <= sumZ (zip_with (fun f v => f v) (map calls ts) l)).
    { clear. revert l. induction ts; intros [|v l]; simpl; try lia. pose proof (calls_nonneg a v). specialize (IHts l). lia. }
    destruct (Hv enc s _ Ev HR HA) as (s1 & E1 & HM1 & HK1); [lia|lia|].
    destruct (IH s1 content' tail Ec) as (s' & E & HM).
    + by apply (in_list_moved enc content' tail (calls t v) s s1).
    + rewrite (moved_calls _ _ _ _ HM1). lia.
    + rewrite (moved_stack _ _ _ _ HM1). unfold len in *. rewrite length_map. lia.
    + exists s'. split; [by econstructor|]. simpl. rewrite len_app.
      eapply moved_trans; [apply len_nonneg..|exact HM1|exact HM].
Qed.

Lemma structLoop_in_turn ts l s s' :
  in_turn ts l s s' -> structLoop (map decodeValue ts) (map zero_val ts) s = (inr l, s').
Proof.
  induction 1 as [|t ts v l s s1 s' E _ IH]; [done|]. cbn [map structLoop]. by rewrite E, (rbind _ _ _ _ _ IH).
Qed.

Lemma arrayLoop_in_turn t n l s s' :
  in_turn (replicate n t) l s s' ->
  arrayLoop (decodeValue t) (zero_val t) (replicate n (zero_val t)) s = (inr l, s').
Proof.
  revert l s. induction n as [|n IH]; intros l s H; inversion H as [|? ? v l1 ? s1 ? E H1]; subst; [done|].
  cbn [replicate arrayLoop]. by rewrite E, (rbind _ _ _ _ _ (IH _ _ H1)).
Qed.

(** A list of which the loop reads the elements. *)
Lemma list_reads (loop : RM (list Val)) l content c tail enc s :
  encodeList (map encodeValue l) = inr enc -> rest s = enc ++ tail -> affords (len enc) s ->
  len (stack s) < maxNestingDepth -> concatAll (map encodeValue l) = inr content ->
  (forall s1, in_list content tail s1 -> callCount s1 = callCount s -> len (stack s1) = len (stack s) + 1 ->
     exists s', loop s1 = (inr l, s') /\ moved (len content) c s1 s') ->
  reads (List_;; l ← loop; ListEnd;; mret (VList l)) (VList l) (len enc) c s.
Proof.
  intros HE HR HA HD HC Hloop. unfold encodeList in HE. rewrite HC in HE. injection HE as <-.
  pose proof (len_nonneg content) as Hn. rewrite <- app_assoc in HR.
  assert (HB : len content <= maxRLPSize).
  { destruct HA as (_ & _ & _ & _ & H). rewrite len_app in H. pose proof (len_nonneg (encodeListHeader (len content))). lia. }
  assert (EH : len (encodeListHeader (len content)) = headsize (len content)).
  { rewrite list_header. apply len_head. unfold maxRLPSize in HB. lia. }
  rewrite len_app, EH in *.
  destruct (List_ok (len content) (content ++ tail) s Hn HA HR HD) as (s0 & E & HM & HR0 & HA0).
  destruct (Hloop (inside (len content) s0)) as (s1 & E1 & HM1).
  - split; [done|]. split; [|by eexists].
    destruct (affords_inside _ _ Hn HA0) as (_ & [? ?] & ?). split; [done|]. by split; [split|].
  - simpl. rewrite (moved_calls _ _ _ _ HM). lia.
  - simpl. rewrite (moved_stack _ _ _ _ HM). unfold len. simpl. rewrite length_map. lia.
  - destruct (ListEnd_ok _ _ _ _ HM1) as (s2 & E2 & HM2 & HK). exists s2.
    rewrite (rbind _ _ _ _ _ E), (rbind _ _ _ _ _ E1), (rbind _ _ _ _ _ E2). split; [done|]. split; [|done].
    replace c with (0 + c) by lia. eapply moved_trans; [|done|exact HM|exact HM2].
    rewrite <- EH. apply len_nonneg.
Qed.

(** ** Every value *)

Lemma encodeList_contents l enc :
  encodeList (map encodeValue l) = inr enc -> exists content, concatAll (map encodeValue l) = inr content.
Proof. unfold encodeList. destruct (concatAll _) as [|c]; [done|]. by exists c. Qed.

Lemma zip_replicate {A} (f : Val -> A) l :
  zip_with (fun f v => f v) (replicate (length l) f) l = map f l.
Proof. induction l; simpl; by f_equal. Qed.

Lemma map_replicate_ {A B} (f : A -> B) n x : map f (replicate n x) = replicate n (f x).
Proof. induction n; simpl; by f_equal. Qed.

(** What every encoding starts with: a byte, a string or a list. *)
Lemma wt_shape v : forall t enc, wt t v -> encodeValue v = inr enc ->
  (exists l, enc = encodeBytes l) \/ (exists c, enc = encodeListHeader (len c) ++ c).
Proof.
  assert (HU : forall z enc, 0 <= z < 2 ^ 64 -> encodeInt z = inr enc -> exists l, enc = encodeBytes l).
  { intros z enc Hz. unfold encodeInt. rewrite (proj2 (Z.ltb_ge _ _)) by lia. intros [= <-].
    destruct (digits_spec z Hz) as [-> _]. by eexists. }
  induction v as [b|z|l|l|   |v IH|z]; intros t enc Hwt HE; simpl in HE.
  - injection HE as <-. left. destruct b; [by exists [x01]|by exists []].
  - left. apply (HU z); [|done]. inversion Hwt as [|? ? Hb Hz|? ? Hb Hz| | | | | | | |]; subst; (split; [lia|]);
      (eapply Z.lt_le_trans; [apply Hz|]; apply Z.pow_le_mono_r; lia).
  - injection HE as <-. left. by eexists.
  - unfold encodeList in HE. destruct (concatAll _) as [|c]; [done|]. injection HE as <-. right. by eexists.
  - injection HE as <-. left. by exists [].
  - inversion Hwt; subst. by eapply IH.
  - inversion Hwt; subst. rewrite encodeBigInt_spec in HE by done. injection HE as <-. left. by eexists.
Qed.

(** Only the empty string has the header that [decodePtr] takes for nil. *)
Lemma not_nil_header t v enc s tail :
  wt t v -> encodeValue v = inr enc -> enc <> [x80] -> rest s = enc ++ tail -> affords (len enc) s ->
  exists k n s1, Kind_ s = (inr (k, n), s1) /\ bool_decide (k = KString) && (n =? 0) = false.
Proof.
  intros Hwt HE Hne HR HA. destruct (wt_shape v t enc Hwt HE) as [[l ->]|[c ->]].
  - destruct (string_kind l tail s HA HR) as (k & n & h & s1 & E & _ & Hn & _). exists k, n, s1. split; [done|].
    destruct (decide (k = KString)) as [->|]; [|by rewrite bool_decide_false]. rewrite Hn by done.
    destruct l; [by destruct Hne|]. done.
  - rewrite <- app_assoc in HR. destruct HA as (HK & Hroom & _ & _ & HB). rewrite len_app in *.
    pose proof (len_nonneg c). pose proof (len_nonneg (encodeListHeader (len c))).
    destruct (Kind_head KList 0xC0 s (len c) (c ++ tail)) as (s1 & E & _); [by right|done|done|lia| |].
    + apply (room_weaken (len (encodeListHeader (len c)) + len c)); [|done].
      rewrite list_header, len_head by (unfold maxRLPSize in *; lia). lia.
    + by exists KList, (len c), s1.
Qed.

Lemma ptr_reads t v :
  wt t v -> decodes t (zero_val t) v -> encodeValue v <> inr [x80] -> decodes (TPtr t) VNil (VPtr v).
Proof.
  intros Hwt Hv Hne enc s tail HE HR HA HC HD. simpl in HE, HC, HD.
  destruct (Hv enc s tail HE HR HA HC HD) as (s' & E & HM & HK).
  destruct (not_nil_header t v enc s tail) as (k & n & s1 & EK & Hk); [done|done|congruence|done|done|].
  exists s'. split; [|by split]. cbn [decodeValue]. rewrite (rbind _ _ _ _ _ EK). cbv beta iota. rewrite Hk.
  by rewrite (rbind _ _ _ _ _ (proj1 (ahead_decode _ _ _ _ _ _ _ EK) E)).
Qed.

Lemma nil_reads t : decodes (TPtr t) VNil VNil.
Proof.
  intros enc s tail [= <-] HR HA _ _. destruct (string_ok [] tail s HA HR)
    as [(x & s1 & [=] & _)|(s1 & E & _ & HH & _)].
  exists (rearm s1). cbn [decodeValue]. rewrite (rbind _ _ _ _ _ E). split; [done|]. split; [|done].
  destruct HH as [HM _ _ _]. by apply moved_set_kind.
Qed.

(** The integer types, [m] the largest value. *)
Lemma int_reads z m enc s tail :
  0 <= z <= m -> m < 2 ^ 64 -> encodeInt z = inr enc -> rest s = enc ++ tail -> affords (len enc) s ->
  reads (i ← Uint; require (i <=? m) ErrValueTooLarge;; mret (VInt i)) (VInt z) (len enc) 0 s.
Proof.
  intros Hz Hm. unfold encodeInt. rewrite (proj2 (Z.ltb_ge _ _)) by lia. intros [= <-] HR HA.
  apply reads_bind with (a := z); [apply (Uint_ok z tail s 64); try done; [lia|by right]|].
  intros s'. by rewrite require_ok by (apply Z.leb_le; lia).
Qed.

Lemma slice_reads t l :
  Forall (decodes t (zero_val t)) l -> len l < maxSliceElements ->
  decodes (TSlice t) (VList []) (VList l).
Proof.
  intros HF HL enc s tail HE HR HA HC HD. destruct (encodeList_contents _ _ HE) as [content Ec].
  apply (list_reads _ _ content _ tail); try done.
  - simpl in HD. destruct (is_list t); lia.
  - intros s1 HL1 EC ED. apply (sliceLoop_ok t l _ [] s1 content tail); try done.
    + unfold len in HL. lia.
    + simpl in HC. lia.
    + simpl in HD. lia.
Qed.

Lemma struct_reads ts l :
  Forall2 (fun t v => decodes t (zero_val t) v) ts l -> decodes (TStruct ts) (VList (map zero_val ts)) (VList l).
Proof.
  intros HF enc s tail HE HR HA HC HD. destruct (encodeList_contents _ _ HE) as [content Ec]. simpl in HC, HD.
  pose proof (maxZ_nonneg (zip_with (fun f v => f v) (map depth ts) l)).
  apply (list_reads _ _ content _ tail); try done; [lia|].
  intros s1 HL1 EC ED. destruct (in_turn_ok ts l s1 content tail) as (s' & HT & HM); try done; [lia..|].
  exists s'. split; [exact (structLoop_in_turn ts l s1 s' HT)|exact HM].
Qed.

Lemma array_reads t l :
  Forall (decodes t (zero_val t)) l ->
  decodes (TArray (length l) t) (VList (replicate (length l) (zero_val t))) (VList l).
Proof.
  intros HF enc s tail HE HR HA HC HD. destruct (encodeList_contents _ _ HE) as [content Ec]. simpl in HC, HD.
  pose proof (maxZ_nonneg (map (depth t) l)).
  apply (list_reads _ _ content _ tail); try done; [lia|].
  intros s1 HL1 EC ED. destruct (in_turn_ok (replicate (length l) t) l s1 content tail) as (s' & HT & HM); try done.
  - clear -HF. induction HF; constructor; auto.
  - rewrite map_replicate_, zip_replicate. lia.
  - rewrite map_replicate_, zip_replicate. lia.
  - rewrite map_replicate_, zip_replicate in HM. exists s'. split; [exact (arrayLoop_in_turn t (length l) l s1 s' HT)|exact HM].
Qed.

Lemma wt_decodes t : forall v, wt t v -> decodes t (zero_val t) v.
Proof.
  induction t as [|bits|bits| | |t IH|n t IH|ts IH|t IH| |] using Ty_nested_ind; intros v Hwt;
    inversion Hwt as [b|? z Hb Hz|? z Hb Hz|l|l|? l HL HF|? l HF|? l HF|?|? v' Hne Hv|z Hz]; subst.
  all: cycle 5.
  - apply slice_reads; try done. eapply Forall_impl; [|exact HF]. apply IH.
  - apply array_reads. eapply Forall_impl; [|exact HF]. apply IH.
  - apply struct_reads. clear Hwt. revert IH. induction HF; intros IH; inversion IH; subst; constructor; auto.
  - apply nil_reads.
  - apply ptr_reads; auto.
  - intros enc s tail HE HR HA HC HD. simpl in HE, HC. rewrite encodeBigInt_spec in HE by done. injection HE as <-.
    apply reads_bind with (a := z); [|done]. apply (BigInt_ok z tail); try done. lia.
  - intros enc s tail [= <-] HR HA HC HD. apply reads_bind with (a := b); [|done].
    apply reads_bind with (a := if b then 1 else 0); [|by destruct b].
    replace (encodeBool b) with (encodeUint (if b then 1 else 0)) in * by by destruct b.
    apply (Uint_ok _ tail s 8); try done; [destruct b; lia|by left].
  - intros enc s tail HE HR HA _ _. apply (int_reads z _ enc s tail); try done; [lia|].
    assert (2 ^ (bits - 1) <= 2 ^ 64) by (apply Z.pow_le_mono_r; lia). lia.
  - intros enc s tail HE HR HA _ _. apply (int_reads z _ enc s tail); try done; [lia|].
    assert (2 ^ bits <= 2 ^ 64) by (apply Z.pow_le_mono_r; lia). lia.
  - intros enc s tail [= <-] HR HA HC HD. apply reads_bind with (a := l); [|done].
    apply (Bytes_ok l tail); try done. simpl in HC. lia.
  - intros enc s tail [= <-] HR HA HC HD. by apply (decodeByteArray_ok l tail).
Qed.

(** Every such value has an encoding. *)
Lemma wt_encodes t : forall v, wt t v -> exists enc, encodeValue v = inr enc.
Proof.
  assert (HL : forall l, Forall (fun v => exists enc, encodeValue v = inr enc) l ->
    exists enc, encodeList (map encodeValue l) = inr enc).
  { intros l HF. unfold encodeList. assert (exists c, concatAll (map encodeValue l) = inr c) as [c ->]; [|by eexists].
    induction HF as [|v l [enc Hv] _ [c IH]]; [by eexists|]. simpl. rewrite Hv, IH. by eexists. }
  assert (HI : forall z, 0 <= z -> exists enc, encodeInt z = inr enc).
  { intros z Hz. unfold encodeInt. rewrite (proj2 (Z.ltb_ge _ _)) by lia. by eexists. }
  induction t as [|bits|bits| | |t IH|n t IH|ts IH|t IH| |] using Ty_nested_ind; intros v Hwt;
    inversion Hwt as [b|? z Hb Hz|? z Hb Hz|l|l|? l HL' HF|? l HF|? l HF|?|? v' Hne Hv|z Hz]; subst;
    simpl; try (by eexists); try (apply HI; lia); try (rewrite encodeBigInt_spec by done; by eexists); try by apply IH.
  - apply HL. eapply Forall_impl; [|exact HF]. apply IH.
  - apply HL. eapply Forall_impl; [|exact HF]. apply IH.
  - apply HL. clear Hwt. revert IH. induction HF; intros IH; inversion IH; subst; constructor; auto.
Qed.

Lemma value_roundtrip t v :
  wt t v -> exists b, EncodeToBytes v = inr b /\
    (len b <= maxRLPSize -> calls t v <= maxBytesCalls -> depth t v <= maxNestingDepth ->
     DecodeBytes t (zero_val t) b = inr v).
Proof.
  intros Hwt. destruct (wt_encodes t v Hwt) as [b Hb]. exists b. split; [done|]. intros HL HC HD.
  unfold DecodeBytes. rewrite (proj2 (Z.ltb_ge _ _)) by done. pose proof (len_nonneg b).
  unfold maxRLPSize, maxTotalDecodeMemory in *.
  destruct (wt_decodes t v Hwt b (mkStream b [] x00 None 0 None [] true (len b) 0 0) []) as (s' & E & HM & _); try done.
  - by rewrite app_nil_r.
  - split; [done|]. split; [|by simpl; unfold maxTotalDecodeMemory, maxRLPSize; lia]. split; simpl; [constructor|lia].
  - rewrite E, (moved_rest _ _ _ _ HM). simpl. unfold len at 1. rewrite length_drop. unfold len.
    by rewrite (proj2 (Z.ltb_ge _ _)) by lia.
Qed.


(** A struct with a flag, a string, an array, a list of strings, a pointer to a
    [big.Int] and one that is nil. *)
Definition sample_type : Ty :=
  TStruct [TBool; TInt 32; TBytes; TByteArray 2; TArray 2 (TUint 8); TSlice TBytes; TPtr TBigInt; TPtr TBytes].
Definition sample : Val :=
  VList [VBool true; VInt 1000; VBytes [xff; x01]; VBytes [x00; x07]; VList [VInt 0; VInt 200];
    VList [VBytes [x05]; VBytes []]; VPtr (VBig (2 ^ 70)); VNil].

Lemma sample_wt : wt sample_type sample.
Proof.
  constructor. repeat constructor; try done; try lia.
  - apply (wt_byteArray [x00; x07]).
  - apply (wt_array (TUint 8) [VInt 0; VInt 200]). repeat constructor; lia.
Qed.

End RlpRoundtrip.
