(* ===== verification/RlpCanonical.v ===== *)
(** * RLP: one encoding per value

    For the types without arrays and structs, bytes that decode to a value are
    the bytes the encoder writes for it. *)

From Stdlib Require Import ZArith Lia Sorted.
From Stdlib.Strings Require Import Byte.
From stdpp Require Import base list countable strings numbers.
From S2P Require Import Prelude Stack Rlp RlpSpec RlpRoundtrip.

Module RlpCanonical.
Import Rlp RlpSpec RlpRoundtrip.

(** The types with one encoding per value. Byte arrays accept a string that is
    shorter, arrays and structs a list that is shorter; an interface is decoded to
    the raw bytes, which are encoded as a string around them. *)
Fixpoint strict (t : Ty) : bool :=
  match t with
  | TBool | TInt _ | TUint _ | TBytes | TBigInt => true
  | TSlice t | TPtr t => strict t
  | _ => false
  end.

(** ** What a read consumed *)

(** A list fits in those around it. *)
Record wf (s : Stream) : Prop := {
  wf_stack : Forall (fun x => 0 <= x < 2 ^ 64) (stack s);
  wf_nested : StronglySorted Z.le (stack s);
  wf_limit : limited s = true -> 0 <= limit s < 2 ^ 64
}.

Record consumed (enc : list byte) (s s' : Stream) : Prop := {
  consumed_rest : rest s = enc ++ rest s';
  consumed_stack : stack s' = map (fun x => x - len enc) (stack s);
  consumed_wf : wf s'
}.

Lemma consumed_nil s : wf s -> consumed [] s s.
Proof.
  intros H. split; [done| |done]. symmetry. rewrite <- map_id. apply map_ext. intros. unfold len. simpl. lia.
Qed.

Lemma consumed_trans e1 e2 s s1 s2 : consumed e1 s s1 -> consumed e2 s1 s2 -> consumed (e1 ++ e2) s s2.
Proof.
  intros [HR HS _] [HR' HS' HW]. split; [|rewrite HS', HS, map_map; apply map_ext; intros; rewrite len_app; lia|done].
  by rewrite HR, HR', app_assoc.
Qed.

(** States that agree on the position. *)
Lemma consumed_r enc s s1 s2 :
  rest s2 = rest s1 -> stack s2 = stack s1 -> limited s2 = limited s1 -> limit s2 = limit s1 ->
  consumed enc s s1 -> consumed enc s s2.
Proof.
  intros H1 H2 H3 H4 [HR HS [HW1 HW2 HW3]]. split; rewrite ?H1, ?H2; try done. split; by rewrite ?H2, ?H3, ?H4.
Qed.

Lemma took_consumed l r s :
  wf s -> rest s = l ++ r -> match stack s with top :: _ => len l <= top | [] => True end ->
  (limited s = true -> len l <= limit s) -> consumed l s (took (len l) r s).
Proof.
  intros [HW1 HW2 HW3] HR HT HL. pose proof (len_nonneg l).
  assert (HF : Forall (fun x => len l <= x) (stack s)).
  { destruct (stack s); [constructor|]. apply StronglySorted_inv in HW2 as [_ HW2]. constructor; [done|].
    eapply Forall_impl; [|exact HW2]. simpl. lia. }
  assert (HS : map (fun x => u64 (x - len l)) (stack s) = map (fun x => x - len l) (stack s)).
  { apply map_ext_in. intros x Hx. rewrite Forall_forall in HF, HW1. specialize (HF x Hx). specialize (HW1 x Hx).
    apply u64_small. unfold is_u64. simpl in HW1. lia. }
  split; simpl; [done|done|]. split; simpl; rewrite ?HS.
  - apply Forall_map. rewrite Forall_forall in *. intros x Hx. specialize (HF x Hx). specialize (HW1 x Hx). simpl in *. lia.
  - clear -HW2. induction HW2 as [|x l' _ IH HX]; simpl; constructor; [done|]. apply Forall_map.
    eapply Forall_impl; [|exact HX]. simpl. lia.
  - intros E. rewrite E. specialize (HL E). specialize (HW3 E). rewrite u64_small; unfold is_u64; lia.
Qed.

Lemma readByte_inv s b s' : wf s -> readByte s = (inr b, s') -> exists r, rest s = b :: r /\ s' = took 1 r s /\ consumed [b] s s'.
Proof.
  intros HW. unfold readByte. destruct (match stack s with [] => false | _ => _ end) eqn:ET; [done|].
  destruct (limited s && (limit s =? 0)) eqn:EL; [done|]. destruct (rest s) as [|b' r] eqn:ER; [done|].
  intros [= -> <-]. exists r. split; [done|]. split; [done|]. apply (took_consumed [b] r s HW ER).
  - destruct HW as [HW1 _ _]. destruct (stack s); [done|]. apply Forall_inv in HW1.
    apply Z.eqb_neq in ET. change (len [b]) with 1. lia.
  - intros HL. rewrite HL in EL. simpl in EL. apply Z.eqb_neq in EL. apply (wf_limit s) in HL; [|done].
    change (len [b]) with 1. lia.
Qed.

Lemma readFull_inv n s l s' :
  wf s -> 0 <= n -> readFull n s = (inr l, s') ->
  len l = n /\ (exists r, s' = took n r s) /\ consumed l s s'.
Proof.
  intros HW Hn. unfold readFull. destruct (match stack s with [] => false | _ => _ end) eqn:ET; [done|].
  destruct (limited s && (limit s <? n)) eqn:EL; [done|]. destruct (Z.ltb_spec (len (rest s)) n); [done|].
  intros [= <- <-]. assert (HL : len (take (Z.to_nat n) (rest s)) = n).
  { unfold len in *. rewrite length_take. lia. }
  split; [done|]. split; [by eexists|]. rewrite <- HL at 2. apply took_consumed; [done| | |]; rewrite ?HL.
  - by rewrite take_drop.
  - destruct (stack s); [done|]. by apply Z.ltb_ge in ET.
  - intros E. rewrite E in EL. simpl in EL. by apply Z.ltb_ge in EL.
Qed.

(** ** Inversion of the monad *)

Lemma bind_inv {A B} (m : RM A) (f : A -> RM B) s b s' :
  (m ≫= f) s = (inr b, s') -> exists a s1, m s = (inr a, s1) /\ f a s1 = (inr b, s').
Proof. unfold mbind, RM_bind. destruct (m s) as [[e|a] s1]; [done|]. by exists a, s1. Qed.

Lemma require_inv {B} b e (f : unit -> RM B) s x s' :
  (require b e ≫= f) s = (inr x, s') -> b = true /\ f tt s = (inr x, s').
Proof. by destruct b. Qed.

Lemma budget_inv {B} n (f : unit -> RM B) s x s' :
  (budget n ≫= f) s = (inr x, s') -> exists t, f tt (set_totalDecoded t s) = (inr x, s').
Proof.
  intros (a & s1 & E & H)%bind_inv. unfold budget in E. rewrite get_bind in E. apply require_inv in E as [_ E].
  injection E as <- <-. by eexists.
Qed.

(** ** Headers *)

Lemma longSize_inv k n s s' :
  wf s -> 0 <= k -> longSize k s = (inr n, s') -> exists b,
  consumed b s s' /\ len b = k /\ b = putint n /\ 56 <= n <= maxRLPSize.
Proof.
  intros HW Hk. unfold longSize, readSize. intros (a & s1 & E & H)%bind_inv.
  apply require_inv in E as [_ E]. apply require_inv in E as [E8 E]. apply bind_inv in E as (b & s2 & EF & E).
  rewrite mod_bind in E. apply require_inv in E as [EC E]. injection E as <- <-.
  apply require_inv in H as [H1 H]. apply require_inv in H as [H2 H]. injection H as <- <-.
  apply Z.leb_le in E8, H1, H2. destruct (readFull_inv k s b s2 HW Hk EF) as (HL & _ & HC).
  exists b. split; [by apply (consumed_r b s s2)|]. split; [done|]. split; [|done].
  apply negb_true_iff, Z.eqb_neq in EC. assert (1 <= len b).
  { destruct b; [|unfold len; simpl; lia]. by vm_compute in H1. }
  symmetry. apply putint_unique; [lia|done].
Qed.

(** The header that a kind and a size stand for. *)
Definition header_bytes (k : Kind) (n : Z) (b : byte) : list byte :=
  match k with KByte => [b] | KString => encodeStringHeader n | KList => encodeListHeader n end.

Lemma readKind_inv s k n s' :
  wf s -> readKind s = (inr (k, n), s') ->
  consumed (header_bytes k n (byteval s')) s s' /\ 0 <= n <= maxRLPSize /\
  (k = KByte -> b2z (byteval s') < 128).
Proof.
  intros HW. unfold readKind. destruct (readByte s) as [[e|b] s1] eqn:EB; [done|].
  destruct (readByte_inv s b s1 HW EB) as (r & _ & _ & HC). rewrite mod_bind. cbv zeta. pose proof (b2z_range b).
  assert (HL : forall K c (f : Z -> list byte), 
    c <= b2z b <= c + 8 -> (forall n, 56 <= n -> f n = z2b (c + len (putint n)) :: putint n) ->
    (size ← longSize (b2z b - c); mret (K, size)) (set_buf [b] s1) = (inr (k, n), s') ->
    k = K /\ consumed (f n) s s' /\ 0 <= n <= maxRLPSize).
  { intros K c f Hc Hf (n' & s2 & E & [= <- -> <-])%bind_inv.
    assert (HW1 : wf (set_buf [b] s1)) by (destruct HC as [_ _ []]; by split).
    destruct (longSize_inv (b2z b - c) _ _ _ HW1 ltac:(lia) E) as (l & HC2 & HL & -> & Hn). split; [done|].
    split; [|lia]. rewrite Hf, HL by lia. replace (c + (b2z b - c)) with (b2z b) by lia. rewrite z2b_b2z.
    apply (consumed_trans [b] _ s s1); [done|]. destruct HC2. by split. }
  destruct (Z.ltb_spec (b2z b) 0x80).
  { rewrite mod_bind. intros [= <- <- <-]. split; [by apply (consumed_r _ s s1)|]. by split; [unfold maxRLPSize; lia|]. }
  destruct (Z.ltb_spec (b2z b) 0xB8).
  { intros [= <- <- <-]. split; [|by split; [unfold maxRLPSize; lia|]]. apply (consumed_r _ s s1); try done.
    unfold header_bytes, encodeStringHeader. rewrite (proj2 (Z.ltb_lt _ _)) by lia.
    replace (0x80 + (b2z b - 0x80)) with (b2z b) by lia. by rewrite z2b_b2z. }
  destruct (Z.ltb_spec (b2z b) 0xC0).
  { intros E. destruct (HL KString 0xB7 encodeStringHeader) as (-> & ? & ?); [lia| |exact E|done].
    intros m Hm. unfold encodeStringHeader. by rewrite (proj2 (Z.ltb_ge _ _)) by lia. }
  destruct (Z.ltb_spec (b2z b) 0xF8).
  { intros [= <- <- <-]. split; [|by split; [unfold maxRLPSize; lia|]]. apply (consumed_r _ s s1); try done.
    unfold header_bytes, encodeListHeader. rewrite (proj2 (Z.ltb_lt _ _)) by lia.
    replace (0xC0 + (b2z b - 0xC0)) with (b2z b) by lia. by rewrite z2b_b2z. }
  intros E. destruct (HL KList 0xF7 encodeListHeader) as (-> & ? & ?); [lia| |exact E|done].
  intros m Hm. unfold encodeListHeader. by rewrite (proj2 (Z.ltb_ge _ _)) by lia.
Qed.

Lemma Kind_inv s k n s' :
  wf s -> kind s = None -> Kind_ s = (inr (k, n), s') ->
  consumed (header_bytes k n (byteval s')) s s' /\ 0 <= n <= maxRLPSize /\
  (k = KByte -> b2z (byteval s') < 128).
Proof.
  intros HW HK. unfold Kind_. rewrite HK. destruct (readKind s) as [[e|[k' n']] s1] eqn:E; [done|].
  intros [= <- <- <-]. destruct (readKind_inv s k' n' s1 HW E) as (HC & Hn & Hb).
  split; [|by split]. by apply (consumed_r _ s s1).
Qed.

(** ** Strings and integers *)

(** [m] reads, from a stream at the start of a value, the encoding of what it answers. *)
Definition inverts {A} (m : RM A) (encode : A -> list byte) : Prop := forall s a s',
  wf s -> kind s = None -> m s = (inr a, s') -> kind s' = None /\ consumed (encode a) s s'.

Lemma encodeBytes_string l : small_string l = false -> encodeBytes l = encodeStringHeader (len l) ++ l.
Proof.
  destruct (encodeBytes_cases l) as [(x & -> & Hx & _)|[-> _]]; [|done]. simpl.
  by rewrite (proj2 (Z.ltb_lt _ _)) by lia.
Qed.

Lemma encodeBytes_byte b : b2z b < 128 -> encodeBytes [b] = [b].
Proof. intros Hb. simpl. by rewrite (proj2 (Z.ltb_lt _ _)) by lia. Qed.

Lemma string_inv n s s1 s2 l :
  consumed (encodeStringHeader n) s s1 -> 0 <= n -> readFull n s1 = (inr l, s2) ->
  small_string l = false -> consumed (encodeBytes l) s s2.
Proof.
  intros HC Hn E HS. destruct (readFull_inv n s1 l s2 ltac:(by destruct HC) Hn E) as (HL & _ & HC2).
  rewrite encodeBytes_string, HL by done. by eapply consumed_trans.
Qed.

Lemma Bytes_inv : inverts Bytes encodeBytes.
Proof.
  intros s l s' HW HK. unfold Bytes. rewrite mod_bind, get_bind. intros [_ H]%require_inv.
  apply bind_inv in H as ([k n] & s1 & EK & H).
  set (s0 := set_callCount (callCount s + 1) s) in EK.
  destruct (Kind_inv s0 k n s1) as (HC & Hn & Hb); [by destruct HW|done|done|].
  assert (HC' : consumed (header_bytes k n (byteval s1)) s s1) by by destruct HC.
  destruct k; [| |done].
  - rewrite mod_bind, get_bind in H. injection H as <- <-. split; [done|]. simpl byteval.
    rewrite encodeBytes_byte by by apply Hb. by apply (consumed_r _ s s1).
  - apply require_inv in H as [_ H]. apply budget_inv in H as [t H]. apply bind_inv in H as (b & s2 & EF & H).
    rewrite mod_bind in H. apply require_inv in H as [HS H]. injection H as <- <-. split; [done|].
    apply negb_true_iff in HS. apply (consumed_r _ s s2); try done.
    apply (string_inv n s (set_totalDecoded t s1) s2 b); [by apply (consumed_r _ s s1)|lia|done|done].
Qed.

Lemma digits_be l : canonical l = true -> len l <= 8 -> 0 <= be l < 2 ^ 64 /\ encodeUint (be l) = encodeBytes l.
Proof.
  intros HC HL. assert (HR : 0 <= be l < 2 ^ 64).
  { pose proof (be_range l) as HR. unfold pow256, len in *.
    assert (256 ^ Z.of_nat (length l) <= 256 ^ 8) by (apply Z.pow_le_mono_r; lia). lia. }
  split; [done|]. destruct (digits_spec (be l) HR) as (-> & E & HC' & _). f_equal. by apply canonical_inj.
Qed.

Lemma uint_inv bits s z s' :
  bits <= 64 -> wf s -> kind s = None -> uint bits s = (inr z, s') ->
  0 <= z < 2 ^ 64 /\ kind s' = None /\ consumed (encodeUint z) s s'.
Proof.
  intros Hbits HW HK. unfold uint. intros ([k n] & s1 & EK & H)%bind_inv.
  destruct (Kind_inv s k n s1 HW HK EK) as (HC & Hn & Hb). destruct k; [| |done].
  - rewrite mod_bind, get_bind in H. apply require_inv in H as [H0 H]. injection H as <- <-. simpl byteval in *.
    destruct (digits_be [byteval s1]) as [HR HE]; [done|unfold len; simpl; lia|].
    replace (be [byteval s1]) with (b2z (byteval s1)) in * by (unfold be; simpl; lia).
    split; [done|]. split; [done|]. rewrite HE, encodeBytes_byte by by apply Hb. by apply (consumed_r _ s s1).
  - apply require_inv in H as [HB H]. apply budget_inv in H as [t H]. apply bind_inv in H as (b & s2 & EF & H).
    rewrite mod_bind in H. apply require_inv in H as [H0 H]. apply require_inv in H as [HS H]. injection H as <- <-.
    apply Z.leb_le in HB. apply negb_true_iff in HS.
    assert (HC1 : consumed (encodeStringHeader n) s (set_totalDecoded t s1)) by by apply (consumed_r _ s s1).
    destruct (readFull_inv n _ b s2 ltac:(by destruct HC1) ltac:(lia) EF) as (HL & _ & _). rewrite <- HL in H0.
    rewrite canonical_check, negb_involutive in H0. assert (bits / 8 <= 8) by zlia.
    rewrite uint_of_be by lia. destruct (digits_be b H0 ltac:(lia)) as [HR HE]. split; [done|]. split; [done|].
    rewrite HE. apply (consumed_r _ s s2); try done.
    apply (string_inv n s (set_totalDecoded t s1) s2 b); [done|lia|done|done].
Qed.

Lemma BigInt_inv s z s' :
  wf s -> kind s = None -> BigInt s = (inr z, s') ->
  0 <= z /\ kind s' = None /\ consumed (encodeBytes (big_bytes z)) s s'.
Proof.
  intros HW HK. unfold BigInt. intros (kn & s1 & EK & H)%bind_inv. apply bind_inv in H as (b & s2 & EB & H).
  apply require_inv in H as [HC H]. injection H as <- <-. rewrite canonical_check, negb_involutive in HC.
  apply (ahead_Bytes s kn s1 b s2 EK) in EB. split; [apply be_range|].
  replace (big_bytes (be b)) with b; [by apply Bytes_inv|]. pose proof (be_range b).
  apply canonical_inj; [done|apply big_bytes_canonical; lia|]. rewrite be_big_bytes. lia.
Qed.

(** ** Lists *)

(** [m] does not fail with [ErrEOL]. *)
Definition noEOL {A} (m : RM A) : Prop := forall s s', m s <> (inl ErrEOL, s').

Lemma noEOL_bind {A B} (m : RM A) (f : A -> RM B) : noEOL m -> (forall a, noEOL (f a)) -> noEOL (m ≫= f).
Proof.
  intros Hm Hf s s'. unfold mbind, RM_bind. destruct (m s) as [[e|a] s1] eqn:E; [|apply Hf].
  intros [= -> ->]. by apply (Hm s s').
Qed.

Lemma noEOL_readFull n : noEOL (readFull n).
Proof.
  intros s s'. unfold readFull. destruct (match stack s with [] => _ | _ => _ end); [done|].
  destruct (_ && _); [done|]. destruct (_ <? _); [|done]. by destruct (rest s).
Qed.

Lemma noEOL_require b e : e <> ErrEOL -> noEOL (require b e).
Proof. intros He s s'. destruct b; [done|]. by intros [= -> _]. Qed.

Lemma require_eol {B} b e (f : unit -> RM B) s s' :
  e <> ErrEOL -> (require b e ≫= f) s = (inl ErrEOL, s') -> f tt s = (inl ErrEOL, s').
Proof. intros He. destruct b; [done|]. by intros [= -> _]. Qed.

Lemma noEOL_ListEnd : noEOL ListEnd.
Proof. intros s s'. unfold ListEnd. destruct (stack s); [done|]. by destruct (0 <? _). Qed.

Lemma noEOL_sliceLoop decode n : forall elems, noEOL (sliceLoop decode n elems).
Proof.
  induction n as [|n IH]; intros elems s s'; [done|]. cbn [sliceLoop].
  destruct (decode s) as [[[]|v] s1]; try done. apply IH.
Qed.

Ltac no_eol :=
  repeat lazymatch goal with
  | |- noEOL (readFull _) => apply noEOL_readFull
  | |- noEOL ListEnd => apply noEOL_ListEnd
  | |- noEOL (sliceLoop _ _ _) => apply noEOL_sliceLoop
  | |- noEOL (if ?b then _ else _) => destruct b
  | |- noEOL (match ?b with KByte => _ | KString => _ | KList => _ end) => destruct b
  | |- noEOL (let '(_, _) := ?b in _) => destruct b
  | |- noEOL (require _ _) => apply noEOL_require; discriminate
  | |- noEOL (mbind _ _) => apply noEOL_bind; [|intros ?]
  | |- noEOL (mret _) => intros ? ?; discriminate
  | |- noEOL (fail _) => intros ? ?; discriminate
  | |- noEOL (get _) => intros ? ?; discriminate
  | |- noEOL (mod_ _) => intros ? ?; discriminate
  end.

(** [m] fails with [ErrEOL] only when there is no header to read. *)
Definition eol_first {A} (m : RM A) : Prop := forall s s', m s = (inl ErrEOL, s') ->
  (Kind_ s).1 = inl ErrEOL /\
  rest s' = rest s /\ stack s' = stack s /\ limited s' = limited s /\ limit s' = limit s.

Lemma eol_first_bind {A B} (m : RM A) (f : A -> RM B) :
  eol_first m -> (forall a, noEOL (f a)) -> eol_first (m ≫= f).
Proof.
  intros Hm Hf s s'. unfold mbind, RM_bind. destruct (m s) as [[e|a] s1] eqn:E.
  - intros [= -> ->]. by apply Hm.
  - intros H. by destruct (Hf a s1 s').
Qed.

Lemma eol_first_Kind : eol_first Kind_.
Proof.
  intros s s' H. split; [by rewrite H|]. revert H. unfold Kind_. destruct (kind s).
  { destruct (kinderr s); by intros [= _ <-]. }
  destruct (readKind s) as [[e|[k n]] s1] eqn:E; [|done]. intros [= -> <-]. revert E. unfold readKind.
  destruct (readByte s) as [[e|b] s2] eqn:EB.
  - intros [= He <-]. revert EB. unfold readByte. destruct (match stack s with [] => _ | _ => _ end).
    { by intros [= _ <-]. } destruct (_ && _); [by intros [= _ <-]|]. destruct (rest s) eqn:?; [by intros [= _ <-]|done].
  - cbv zeta. intros H. exfalso. revert H. match goal with |- ?m _ = _ -> _ => assert (noEOL m) as HN; [|apply HN] end.
    unfold longSize, readSize. no_eol.
Qed.

Lemma eol_first_Bytes : eol_first Bytes.
Proof.
  intros s s'. unfold Bytes. rewrite mod_bind, get_bind. intros H. apply require_eol in H; [|done].
  match type of H with ?m ?s0 = _ => assert (eol_first m) as HE; [|destruct (HE _ _ H) as [H1 H2]] end.
  { apply eol_first_bind; [apply eol_first_Kind|]. intros [k n]. unfold budget. no_eol. }
  split; [|done]. rewrite commutes_Kind in H1. by destruct (Kind_ s).
Qed.

Lemma eol_first_List : eol_first List_.
Proof.
  intros s s'. unfold List_. rewrite get_bind. intros H. apply require_eol in H; [|done].
  revert s s' H. apply eol_first_bind; [apply eol_first_Kind|].
  intros [k n]. no_eol.
Qed.

Lemma eol_first_ahead {B} (f : Kind * Z -> RM B) : (forall kn, eol_first (f kn)) -> eol_first (Kind_ ≫= f).
Proof.
  intros Hf s s'. unfold mbind, RM_bind. destruct (Kind_ s) as [[e|kn] s1] eqn:E.
  - intros [= -> ->]. rewrite <- E. by apply eol_first_Kind.
  - intros [H _]%Hf. by rewrite (Kind_twice s kn s1 E) in H.
Qed.

Lemma eol_first_none {A} (m : RM A) : noEOL m -> eol_first m.
Proof. intros H s s' E. by destruct (H s s'). Qed.

Lemma eol_first_uint bits : eol_first (uint bits).
Proof. apply eol_first_bind; [apply eol_first_Kind|]. intros [k n]. unfold budget. no_eol. Qed.

Lemma eol_first_decode t cur : strict t = true -> eol_first (decodeValue t cur).
Proof.
  revert cur. induction t; intros cur Ht; try done; cbn [decodeValue].
  - apply eol_first_bind; [apply eol_first_bind; [apply eol_first_uint|]|]; intros ?; no_eol.
  - apply eol_first_bind; [apply eol_first_uint|]. intros ?. no_eol.
  - apply eol_first_bind; [apply eol_first_uint|]. intros ?. no_eol.
  - apply eol_first_bind; [apply eol_first_Bytes|]. intros ?. no_eol.
  - apply eol_first_bind; [apply eol_first_List|]. intros ?. no_eol.
  - apply eol_first_ahead. intros [k n]. destruct (_ && _); [apply eol_first_none; no_eol|].
    apply eol_first_bind; [by apply IHt|]. intros ?. no_eol.
  - apply eol_first_bind; [apply eol_first_ahead; intros ?|intros ?; no_eol].
    apply eol_first_bind; [apply eol_first_Bytes|]. intros ?. no_eol.
Qed.

(** Decoding a value of type [t] inverts its encoding. *)
Definition decode_inverts (t : Ty) : Prop := forall cur s v s',
  wf s -> kind s = None -> decodeValue t cur s = (inr v, s') ->
  kind s' = None /\ exists enc, encodeValue v = inr enc /\ consumed enc s s'.

Lemma sliceLoop_inv t n : forall elems s l s',
  decode_inverts t -> strict t = true -> wf s -> kind s = None ->
  sliceLoop (decodeValue t (zero_val t)) n elems s = (inr l, s') ->
  exists vs content, l = elems ++ vs /\ concatAll (map encodeValue vs) = inr content /\ consumed content s s'.
Proof.
  induction n as [|n IH]; intros elems s l s' Hd Ht HW HK; [done|]. cbn [sliceLoop].
  destruct (decodeValue t (zero_val t) s) as [[e|v] s1] eqn:E.
  - destruct e; try done. intros [= <- <-]. exists [], []. rewrite app_nil_r. split; [done|]. split; [done|].
    destruct (eol_first_decode t _ Ht s s1 E) as (_ & HR & HS & HL & HL').
    by apply (consumed_r [] s s); [..|apply consumed_nil].
  - destruct (Hd _ _ _ _ HW HK E) as (HK1 & enc & HE & HC). intros H.
    destruct (IH _ s1 l s' Hd Ht ltac:(by destruct HC) HK1 H) as (vs & content & -> & HE' & HC').
    exists (v :: vs), (enc ++ content). rewrite <- app_assoc. split; [done|]. simpl. rewrite HE, HE'.
    split; [done|]. by eapply consumed_trans.
Qed.

Lemma List_inv s n s' :
  wf s -> kind s = None -> List_ s = (inr n, s') ->
  exists s0, consumed (encodeListHeader n) s s0 /\ rest s' = rest s0 /\ stack s' = n :: stack s0 /\
    kind s' = None /\ wf s'.
Proof.
  intros HW HK. unfold List_. rewrite get_bind. intros [_ H]%require_inv. apply bind_inv in H as ([k m] & s0 & EK & H).
  destruct (Kind_inv s k m s0 HW HK EK) as (HC & Hn & _). apply require_inv in H as [Hk H].
  apply bool_decide_eq_true in Hk as ->. rewrite get_bind in H. apply require_inv in H as [HP H].
  rewrite !mod_bind in H. injection H as <- <-. exists s0. do 4 (split; [done|]).
  destruct HC as [_ _ [HW1 HW2 HW3]]. split; simpl; [| |done].
  - constructor; [unfold maxRLPSize in Hn; lia|done].
  - constructor; [done|]. destruct (stack s0) as [|p ps]; [constructor|]. apply Z.leb_le in HP.
    constructor; [done|]. apply StronglySorted_inv in HW2 as [_ HX]. eapply Forall_impl; [|exact HX]. simpl. lia.
Qed.

Lemma slice_inverts t : decode_inverts t -> strict t = true -> decode_inverts (TSlice t).
Proof.
  intros Hd Ht cur s v s' HW HK. cbn [decodeValue]. intros (n & s1 & EL & H)%bind_inv.
  apply bind_inv in H as (l & s2 & ES & H). apply bind_inv in H as ([] & s3 & EE & H). injection H as <- <-.
  destruct (List_inv s n s1 HW HK EL) as (s0 & HC0 & HR1 & HS1 & HK1 & HW1).
  destruct (sliceLoop_inv t _ [] s1 l s2 Hd Ht HW1 HK1 ES) as (vs & content & -> & HE & HC).
  destruct HC as [HR2 HS2 [HW2 HW2' HW2'']]. rewrite HS1 in HS2. simpl in HS2.
  unfold ListEnd in EE. rewrite HS2 in EE, HW2, HW2'. destruct (Z.ltb_spec 0 (n - len content)); [done|].
  injection EE as <-. assert (n = len content) as -> by (apply Forall_inv in HW2; lia).
  split; [done|]. exists (encodeListHeader (len content) ++ content). simpl. unfold encodeList. rewrite HE.
  split; [done|]. apply (consumed_trans _ _ s s0); [done|]. split; simpl; [by rewrite <- HR1|done|].
  split; simpl; [by apply Forall_inv_tail in HW2|by apply StronglySorted_inv in HW2' as [? _]|done].
Qed.

Lemma strict_inverts t : strict t = true -> decode_inverts t.
Proof.
  induction t; intros Ht; try done; [| | | |by apply slice_inverts; [apply IHt|]| |];
    intros cur s v s' HW HK; cbn [decodeValue]; intros (a & s1 & E & H)%bind_inv.
  - injection H as <- <-. unfold Bool in E. apply bind_inv in E as (z & s2 & E & H).
    destruct (uint_inv 8 s z s2 ltac:(lia) HW HK E) as (Hz & HK2 & HC).
    destruct (Z.eqb_spec z 0) as [->|]; [injection H as <- <-; split; [done|]; by exists [x80]|].
    destruct (Z.eqb_spec z 1) as [->|]; [injection H as <- <-; split; [done|]; by exists [x01]|done].
  - apply require_inv in H as [_ H]. injection H as <- <-.
    destruct (uint_inv 64 s a s1 ltac:(lia) HW HK E) as (Hz & HK2 & HC). split; [done|]. exists (encodeUint a).
    simpl. unfold encodeInt. by rewrite (proj2 (Z.ltb_ge _ _)) by lia.
  - apply require_inv in H as [_ H]. injection H as <- <-.
    destruct (uint_inv 64 s a s1 ltac:(lia) HW HK E) as (Hz & HK2 & HC). split; [done|]. exists (encodeUint a).
    simpl. unfold encodeInt. by rewrite (proj2 (Z.ltb_ge _ _)) by lia.
  - injection H as <- <-. destruct (Bytes_inv s a s1 HW HK E) as [? ?]. split; [done|]. by eexists.
  - destruct a as [k n]. destruct (bool_decide (k = KString) && (n =? 0)) eqn:EN.
    + rewrite mod_bind in H. injection H as <- <-. split; [done|]. exists [x80]. split; [done|].
      apply andb_true_iff in EN as [Hk%bool_decide_eq_true Hn%Z.eqb_eq]. subst.
      destruct (Kind_inv s KString 0 s1 HW HK E) as (HC & _). by apply (consumed_r _ s s1).
    + apply bind_inv in H as (w & s2 & H & Hw). injection Hw as <- <-.
      apply (ahead_decode t _ s _ s1 w s2 E) in H. by apply (IHt Ht (zero_val t) s w s2).
  - injection H as <- <-. destruct (BigInt_inv s a s1 HW HK E) as (Hz & HK2 & HC). split; [done|].
    exists (encodeBytes (big_bytes a)). by rewrite <- encodeBigInt_spec.
Qed.

(** C34: the decoder accepts one encoding of a value only, the one the encoder
    writes: bytes that decode to a value of a type built of booleans, integers,
    byte strings, big integers, slices and pointers ([strict]: no arrays, structs
    or interfaces, for which it is not so) encode back to themselves. *)
Theorem rlp_canonical t b v :
  strict t = true -> DecodeBytes t (zero_val t) b = inr v -> EncodeToBytes v = inr b.
Proof.
  intros Ht. unfold DecodeBytes. destruct (Z.ltb_spec maxRLPSize (len b)); [done|].
  destruct (decodeValue t _ _) as [[e|w] s'] eqn:E; [done|]. destruct (Z.ltb_spec 0 (len (rest s'))); [done|].
  intros [= ->]. pose proof (len_nonneg b). unfold maxRLPSize in *.
  apply (strict_inverts t Ht) in E as (_ & enc & HE & HC); [|split; simpl; [constructor|constructor|lia]|done].
  - destruct HC as [HR _ _]. simpl in HR. destruct (rest s') as [|x r]; [|unfold len in *; simpl in *; lia].
    rewrite app_nil_r in HR. by subst.
Qed.

Lemma rlp_canonical_witness :
  EncodeToBytes (VList [VBytes [x81]; VBytes [x05]]) = inr [xc3; x81; x81; x05].
Proof. apply (rlp_canonical (TSlice TBytes)); vm_compute; reflexivity. Defined.

(** ** Where there are several encodings *)

(** The empty list decodes into every struct: the fields keep their values. *)
Theorem empty_list_is_any_struct ts :
  DecodeBytes (TStruct ts) (zero_val (TStruct ts)) [xc0] = inr (zero_val (TStruct ts)).
Proof.
  unfold DecodeBytes. rewrite (proj2 (Z.ltb_ge _ _)) by (vm_compute; discriminate). cbn [decodeValue].
  set (s := mkStream _ _ _ _ _ _ _ _ _ _ _).
  destruct (List_ok 0 [] s) as (s0 & E & HM & HR0 & HA); [lia| |done|done|].
  { split; [done|]. split; [split; [constructor|done]|by vm_compute]. }
  rewrite (rbind _ _ _ _ _ E). change (elements _ _) with (map zero_val ts). destruct ts as [|t ts].
  - destruct (ListEnd_ok 0 0 s0 _ (moved_refl _)) as (s2 & E2 & HM2 & _).
    cbn [map structLoop]. rewrite (rbind (mret []) _ _ _ _ eq_refl), (rbind _ _ _ _ _ E2). simpl.
    by rewrite (moved_rest _ _ _ _ HM2), HR0.
  - destruct (decode_eol t (zero_val t) (inside 0 s0) (stack s0)) as (s1 & E1 & HM1); [done|done| | |].
    + simpl. rewrite (moved_calls _ _ _ _ HM). by destruct t.
    + intros _. simpl. rewrite (moved_stack _ _ _ _ HM). done.
    + destruct (ListEnd_ok 0 (probe t) s0 s1 HM1) as (s2 & E2 & HM2 & _).
      assert (ES : structLoop (map decodeValue (t :: ts)) (map zero_val (t :: ts)) (inside 0 s0) =
                   (inr (map zero_val (t :: ts)), s1)) by (cbn [map structLoop]; by rewrite E1).
      rewrite (rbind _ _ _ _ _ ES), (rbind _ _ _ _ _ E2). simpl. by rewrite (moved_rest _ _ _ _ HM2), HR0.
Qed.

(** A byte array accepts a byte that is written as a string, and a string that is
    shorter; [Bytes] rejects the first. *)
Theorem byte_array_not_canonical :
  DecodeBytes (TByteArray 2) (VBytes [x00; x00]) [x81; x05] = inr (VBytes [x05; x00]) /\
  DecodeBytes (TByteArray 2) (VBytes [x00; x00]) [x05] = inr (VBytes [x05; x00]) /\
  DecodeBytes (TByteArray 2) (VBytes [x00; x00]) [x82; x05; x00] = inr (VBytes [x05; x00]) /\
  DecodeBytes TBytes (VBytes []) [x81; x05] = inl ErrCanonicalSize.
Proof. by vm_compute. Qed.

(** A list with one small byte is not accepted for an interface: the test for a
    byte that is written as a string is applied to the list's contents. *)
Theorem raw_rejects_list :
  EncodeToBytes (VList [VInt 5]) = inr [xc1; x05] /\
  DecodeBytes TInterface VNil [xc1; x05] = inl ErrCanonicalSize /\
  DecodeBytes TInterface VNil [xc2; x05; x05] = inr (VPtr (VBytes [xc2; x05; x05])).
Proof. by vm_compute. Qed.
(** A pointer to a value that is encoded as the empty string comes back as nil,
    and what an interface was decoded to is encoded as a string around it. *)
Theorem pointer_and_interface_change :
  EncodeToBytes (VPtr (VBig 0)) = inr [x80] /\ DecodeBytes (TPtr TBigInt) VNil [x80] = inr VNil /\
  DecodeBytes TInterface VNil [x82; x05; x06] = inr (VPtr (VBytes [x82; x05; x06])) /\
  EncodeToBytes (VPtr (VBytes [x82; x05; x06])) = inr [x83; x82; x05; x06].
Proof. by vm_compute. Qed.
End RlpCanonical.
