(* ===== verification/RlpSafe.v ===== *)
(** * The validating decoder (rlp/safe_decoder.go)

    [SafeDecoder] checks the structure of the input before it is decoded. The
    limits on depth and list length bound its recursion, so the model recurses on
    what is left of them. An [int] is a [Z] that wraps at 64 bits, and an index out
    of range is a [Panic]. *)

From Stdlib Require Import ZArith Lia.
From Stdlib.Strings Require Import Byte.
From stdpp Require Import base list countable strings numbers.
From S2P Require Import Prelude Stack Rlp RlpSpec RlpRoundtrip.

Module RlpSafe.
Import Rlp RlpSpec RlpRoundtrip.

Definition MaxInt : Z := 2 ^ 63 - 1.

Inductive Outcome (A : Type) : Type :=
  | Value (a : A)
  | Error (e : RlpError)
  | Panic.
Arguments Value {A} a.
Arguments Error {A} e.
Arguments Panic {A}.

#[export] Instance Outcome_ret : MRet Outcome := fun A a => Value a.
#[export] Instance Outcome_bind : MBind Outcome := fun A B f m =>
  match m with Value a => f a | Error e => Error e | Panic => Panic end.

(** A slice expression or an index. *)
Definition or_panic {A} (o : option A) : Outcome A := match o with Some a => Value a | None => Panic end.
Definition index (l : list byte) (i : Z) : option byte := if 0 <=? i then l !! Z.to_nat i else None.
Definition ensure (b : bool) (e : RlpError) : Outcome unit := if b then Value tt else Error e.

Record SafeDecoderConfig : Type := mkConfig {
  MaxSize : Z;
  MaxDepth : Z;
  MaxListLen : Z;
  StrictMode : bool
}.

Definition DefaultSafeDecoderConfig : SafeDecoderConfig :=
  mkConfig maxRLPSize maxNestingDepth maxSliceElements true.

(** The defaults for zero values. *)
Definition NewSafeDecoder (config : SafeDecoderConfig) : SafeDecoderConfig :=
  mkConfig (if MaxSize config =? 0 then maxRLPSize else MaxSize config)
    (if MaxDepth config =? 0 then maxNestingDepth else MaxDepth config)
    (if MaxListLen config =? 0 then maxSliceElements else MaxListLen config)
    (StrictMode config).

Definition NewDefaultSafeDecoder : SafeDecoderConfig := NewSafeDecoder DefaultSafeDecoderConfig.

Definition readSize (d : SafeDecoderConfig) (b : list byte) : Outcome Z :=
  ensure (negb (len b =? 0)) ErrInvalidInput;;
  ensure (negb (StrictMode d && (b2z (nth_byte b 0) =? 0))) ErrCanonicalSize;;
  Value (uint_of b).

(** The loop of [validateListContents], with [more] elements before the limit. *)
Fixpoint contentsLoop (element : Z -> Outcome Z) (more : nat) (pos end_ : Z) : Outcome unit :=
  if pos <? end_ then
    match more with
    | O => Error ErrMaxListLenExceeded
    | S more =>
        consumed ← element pos;
        contentsLoop element more (i64 (pos + consumed)) end_
    end
  else ensure (pos =? end_) ErrInvalidInput.

Definition validateListContents (d : SafeDecoderConfig) (element : Z -> Outcome Z) (start size : Z) :
    Outcome unit :=
  contentsLoop element (Z.to_nat (MaxListLen d)) start (i64 (start + size)).

(** [more] is [MaxDepth - depth]. *)
Fixpoint validateElement (d : SafeDecoderConfig) (more : nat) (input : list byte) (offset : Z) : Outcome Z :=
  match more with
  | O => Error ErrMaxDepthExceeded
  | S more =>
      ensure (offset <? len input) ErrInvalidInput;;
      x ← or_panic (index input offset);
      let b := b2z x in
      if b <? 0x80 then Value 1
      else if b <? 0xB8 then
        let size := b - 0x80 in
        let totalSize := 1 + size in
        ensure (i64 (offset + totalSize) <=? len input) ErrInvalidInput;;
        (if StrictMode d && (size =? 1) then
           y ← or_panic (index input (i64 (offset + 1)));
           ensure (0x80 <=? b2z y) ErrCanonicalSize
         else Value tt);;
        Value totalSize
      else if b <? 0xC0 then
        let sizeBytes := b - 0xB7 in
        ensure (i64 (offset + 1 + sizeBytes) <=? len input) ErrInvalidInput;;
        s ← or_panic (slice input (i64 (offset + 1)) (i64 (offset + 1 + sizeBytes)));
        size ← readSize d s;
        ensure (negb (StrictMode d && (size <? 56))) ErrCanonicalSize;;
        ensure (size <=? MaxInt - 1 - sizeBytes) ErrInvalidInput;;
        let totalSize := 1 + sizeBytes + size in
        ensure (i64 (offset + totalSize) <=? len input) ErrInvalidInput;;
        ensure (size <=? MaxSize d) ErrMaxSizeExceeded;;
        Value totalSize
      else if b <? 0xF8 then
        let size := b - 0xC0 in
        let headerSize := 1 in
        ensure (i64 (offset + headerSize + size) <=? len input) ErrInvalidInput;;
        validateListContents d (validateElement d more input) (i64 (offset + headerSize)) size;;
        Value (headerSize + size)
      else
        let sizeBytes := b - 0xF7 in
        ensure (i64 (offset + 1 + sizeBytes) <=? len input) ErrInvalidInput;;
        s ← or_panic (slice input (i64 (offset + 1)) (i64 (offset + 1 + sizeBytes)));
        size ← readSize d s;
        ensure (negb (StrictMode d && (size <? 56))) ErrCanonicalSize;;
        let headerSize := 1 + sizeBytes in
        ensure (size <=? MaxInt) ErrInvalidInput;;
        ensure (i64 (offset + headerSize + size) <=? len input) ErrInvalidInput;;
        ensure (size <=? MaxSize d) ErrMaxSizeExceeded;;
        validateListContents d (validateElement d more input) (i64 (offset + headerSize)) size;;
        Value (i64 (headerSize + size))
  end.

Definition validateInput (d : SafeDecoderConfig) (input : list byte) : Outcome unit :=
  if len input =? 0 then Value tt
  else validateElement d (Z.to_nat (MaxDepth d)) input 0;; Value tt.

Definition ValidateRLPStructureWithConfig (input : list byte) (config : SafeDecoderConfig) : Outcome unit :=
  validateInput (NewSafeDecoder config) input.

Definition ValidateRLPStructure (input : list byte) : Outcome unit :=
  validateInput NewDefaultSafeDecoder input.

(** [SafeDecoder.DecodeBytes]; [None] is a nil slice. *)
Definition DecodeBytes (d : SafeDecoderConfig) (t : Ty) (cur : Val) (input : option (list byte)) : Outcome Val :=
  match input with
  | None => Error ErrNilInput
  | Some input =>
      ensure (len input <=? MaxSize d) ErrMaxSizeExceeded;;
      validateInput d input;;
      match Rlp.DecodeBytes t cur input with inl e => Error e | inr v => Value v end
  end.

Definition SafeDecodeBytes (t : Ty) (cur : Val) (input : option (list byte)) : Outcome Val :=
  DecodeBytes NewDefaultSafeDecoder t cur input.

Definition SafeDecodeWithLimit (t : Ty) (cur : Val) (input : option (list byte)) (maxSize : Z) : Outcome Val :=
  DecodeBytes
    (NewSafeDecoder (mkConfig maxSize (MaxDepth DefaultSafeDecoderConfig) (MaxListLen DefaultSafeDecoderConfig)
       (StrictMode DefaultSafeDecoderConfig))) t cur input.

(** [SafeDecoder.Decode] from a reader that has the bytes [r]. *)
Definition Decode (d : SafeDecoderConfig) (t : Ty) (cur : Val) (r : option (list byte)) : Outcome Val :=
  match r with
  | None => Error ErrNilInput
  | Some r => DecodeBytes d t cur (Some (take (Z.to_nat (Z.min (MaxSize d) MaxInt)) r))
  end.

(** ** The validator's verdict *)

Lemma obind_inv {A B} (m : Outcome A) (f : A -> Outcome B) b :
  (m ≫= f) = Value b -> exists a, m = Value a /\ f a = Value b.
Proof. destruct m; [|done..]. intros H. by eexists. Qed.

Lemma ensure_inv {B} b e (f : unit -> Outcome B) x :
  (ensure b e ≫= f) = Value x -> b = true /\ f tt = Value x.
Proof. by destruct b. Qed.

Lemma ensure_ok {B} b e (f : unit -> Outcome B) : b = true -> (ensure b e ≫= f) = f tt.
Proof. by intros ->. Qed.

Lemma or_panic_Some {A B} (a : A) (f : A -> Outcome B) : (or_panic (Some a) ≫= f) = f a.
Proof. done. Qed.

Lemma drop_sub {A} (l : list A) a b :
  0 <= a <= b -> drop (Z.to_nat a) l = sub l a b ++ drop (Z.to_nat b) l.
Proof.
  intros H. unfold sub. rewrite <- (take_drop (Z.to_nat (b - a)) (drop (Z.to_nat a) l)) at 1.
  rewrite drop_drop. do 2 f_equal. lia.
Qed.

Lemma index_drop input off x :
  index input off = Some x -> 0 <= off < len input /\ drop (Z.to_nat off) input = x :: drop (Z.to_nat (off + 1)) input.
Proof.
  unfold index. destruct (Z.leb_spec 0 off); [|done]. intros H1. split.
  - apply lookup_lt_Some in H1. unfold len. lia.
  - apply drop_S in H1. rewrite H1. do 2 f_equal. lia.
Qed.

Lemma drop_index input off x r : 0 <= off -> drop (Z.to_nat off) input = x :: r -> index input off = Some x.
Proof.
  intros H E. unfold index. rewrite (proj2 (Z.leb_le _ _)) by done.
  rewrite <- (Nat.add_0_r (Z.to_nat off)), <- lookup_drop, E. done.
Qed.

Lemma len_drop {A} (l a : list A) off :
  0 <= off -> drop (Z.to_nat off) l = a -> a <> [] -> len l = off + len a.
Proof.
  intros H <- HN. unfold len. rewrite length_drop. destruct (Nat.le_gt_cases (length l) (Z.to_nat off)); [|lia].
  by rewrite drop_ge in HN.
Qed.

Lemma slice_drop (input p m tail : list byte) off :
  0 <= off -> drop (Z.to_nat off) input = p ++ m ++ tail -> m <> [] ->
  slice input (off + len p) (off + len p + len m) = Some m.
Proof.
  intros H E HN. pose proof (len_nonneg p). pose proof (len_nonneg m). pose proof (len_nonneg tail).
  assert (HL : len input = off + len (p ++ m ++ tail)).
  { apply len_drop; [done|done|]. destruct p; [|done]. by destruct m. }
  rewrite !len_app in HL. rewrite slice_Some by lia. f_equal. unfold sub.
  replace (Z.to_nat (off + len p)) with (Z.to_nat off + length p)%nat by (unfold len; lia).
  rewrite <- drop_drop, E, drop_app_length. replace (Z.to_nat _) with (length m) by (unfold len; lia).
  by rewrite take_app_length.
Qed.

(** ** Items *)

(** The strings and lists, of which every encoding is made. *)
Fixpoint is_item (v : Val) : bool :=
  match v with VBytes _ => true | VList l => forallb is_item l | _ => false end.

Fixpoint item_depth (v : Val) : Z :=
  match v with VList l => 1 + maxZ (map item_depth l) | _ => 1 end.

(** The length of the longest list. *)
Fixpoint widest (v : Val) : Z :=
  match v with VList l => Z.max (len l) (maxZ (map widest l)) | _ => 0 end.

Lemma maxZ_le (l : list Z) b : maxZ l <= b <-> Forall (fun x => x <= b) l /\ 0 <= b.
Proof.
  induction l as [|x l IH]; simpl; [by split; [split; [constructor|]|intros []]|].
  rewrite list.Forall_cons. split.
  - intros H. destruct (proj1 IH) as [? ?]; [lia|]. split; [split; [lia|done]|done].
  - intros [[H1 H2] H3]. apply Z.max_lub; [done|]. by apply IH.
Qed.

(** A decoder in strict mode, for an input within its size limit. *)
Section Validator.
Context (d : SafeDecoderConfig) (input : list byte).
Context (Hlist : 0 <= MaxListLen d) (Hstrict : StrictMode d = true) (Hsize : len input <= MaxSize d) (Hlim : MaxSize d < 2 ^ 62).

(** The bytes from [off] on. *)
#[local] Abbreviation at_ off := (drop (Z.to_nat off) input).

Lemma readSize_inv s size : len s <= 8 -> readSize d s = Value size -> 0 < size < 2 ^ 64 /\ s = putint size.
Proof.
  intros HL. unfold readSize. intros [H1 H]%ensure_inv. apply ensure_inv in H as [H2 H]. injection H as <-.
  rewrite Hstrict in H2. apply negb_true_iff, Z.eqb_neq in H1, H2. pose proof (len_nonneg s).
  destruct (putint_unique s) as [HR HP]; [lia|done|]. done.
Qed.

Lemma readSize_putint n : 0 < n < 2 ^ 64 -> readSize d (putint n) = Value n.
Proof.
  intros Hn. unfold readSize. rewrite Hstrict. destruct (putint_head n Hn) as (b & l & E & Hb).
  destruct (intsize_spec n Hn) as [Hi _]. pose proof (len_putint n ltac:(lia)) as HL.
  rewrite ensure_ok by (apply negb_true_iff, Z.eqb_neq; lia).
  rewrite ensure_ok by (rewrite E; by apply negb_true_iff, Z.eqb_neq).
  by rewrite uint_of_be, be_putint by lia.
Qed.

(** The long header [c + sizeBytes] at [off]. *)
Lemma long_header_inv x c off s size :
  index input off = Some x -> 1 <= b2z x - c <= 8 -> off + 1 + (b2z x - c) <= len input ->
  or_panic (slice input (off + 1) (off + 1 + (b2z x - c))) = Value s -> readSize d s = Value size ->
  0 < size < 2 ^ 64 /\ b2z x - c = intsize size /\
  at_ off = (z2b (c + len (putint size)) :: putint size) ++ at_ (off + 1 + intsize size).
Proof.
  intros HX Hc HL HS HR. apply index_drop in HX as [Ho HX]. rewrite slice_Some in HS by lia. injection HS as <-.
  pose proof (len_sub input (off + 1) (off + 1 + (b2z x - c)) ltac:(lia) HL) as HLs.
  apply readSize_inv in HR as [Hn HP]; [|lia]. split; [done|].
  rewrite HP, len_putint in HLs by lia. split; [lia|]. rewrite HX, len_putint by lia.
  replace (c + intsize size) with (b2z x) by lia. rewrite z2b_b2z. simpl. f_equal.
  rewrite (drop_sub input (off + 1) (off + 1 + (b2z x - c))), HP by lia. do 2 f_equal. lia.
Qed.

(** What an accepted element is: a string, or the header of a list. *)
Definition string_at (off k : Z) : Prop :=
  off + k <= len input /\ exists l, k = len (encodeBytes l) /\ at_ off = encodeBytes l ++ at_ (off + k).
Definition list_at (n : nat) (off k : Z) : Prop :=
  off + k <= len input /\ exists size h, 0 <= size /\ h = len (encodeListHeader size) /\ k = h + size /\
    at_ off = encodeListHeader size ++ at_ (off + h) /\
    validateListContents d (validateElement d n input) (off + h) size = Value tt.

(** [n] bytes after the header [h] of a string. *)
Lemma string_at_intro off h n :
  0 <= off -> 0 <= n -> at_ off = h ++ at_ (off + len h) -> h = encodeStringHeader n ->
  off + len h + n <= len input -> small_string (sub input (off + len h) (off + len h + n)) = false ->
  string_at off (len h + n).
Proof.
  intros Ho Hn HD Hh HL HS. pose proof (len_nonneg h). split; [lia|].
  exists (sub input (off + len h) (off + len h + n)).
  pose proof (len_sub input (off + len h) (off + len h + n) ltac:(lia) HL) as HLs.
  destruct (encodeBytes_cases (sub input (off + len h) (off + len h + n))) as [(x & E & Hx & _)|[-> _]].
  { rewrite E in HS. simpl in HS. rewrite (proj2 (Z.ltb_lt _ _)) in HS by lia. done. }
  rewrite HLs. replace (off + len h + n - (off + len h)) with n by lia.
  rewrite <- string_header, <- Hh, len_app, HLs. split; [lia|].
  rewrite HD, (drop_sub input (off + len h) (off + len h + n)), <- app_assoc by lia. do 3 f_equal. lia.
Qed.

Lemma short_string_at x off :
  0 <= off -> at_ off = x :: at_ (off + 1) -> 0x80 <= b2z x < 0xB8 -> off + (1 + (b2z x - 0x80)) <= len input ->
  (if StrictMode d && (b2z x - 0x80 =? 1) then
     y ← or_panic (index input (off + 1)); ensure (0x80 <=? b2z y) ErrCanonicalSize
   else Value tt) = Value tt ->
  string_at off (1 + (b2z x - 0x80)).
Proof.
  intros Ho HD HB HL HS. apply (string_at_intro off [x]); [done|lia|done| |change (len [x]) with 1; lia|].
  - unfold encodeStringHeader. rewrite (proj2 (Z.ltb_lt _ _)) by lia.
    replace (0x80 + (b2z x - 0x80)) with (b2z x) by lia. by rewrite z2b_b2z.
  - change (len [x]) with 1.
    pose proof (len_sub input (off + 1) (off + 1 + (b2z x - 0x80)) ltac:(lia) ltac:(lia)) as HLs.
    pose proof (drop_sub input (off + 1) (off + 1 + (b2z x - 0x80)) ltac:(lia)) as HDs.
    destruct (sub _ _ _) as [|y [|z l]]; [done| |done]. unfold len in HLs. simpl in HLs.
    rewrite Hstrict, (proj2 (Z.eqb_eq _ _)) in HS by lia. simpl in HS.
    rewrite (drop_index input (off + 1) y _ ltac:(lia) HDs) in HS. simpl in HS |- *.
    destruct (Z.leb_spec 0x80 (b2z y)); [apply Z.ltb_ge; lia|done].
Qed.

Lemma len_long c n : 0 <= n < 2 ^ 64 -> len (z2b (c + len (putint n)) :: putint n) = 1 + intsize n.
Proof. intros Hn. rewrite <- (len_putint n) by lia. unfold len. simpl. lia. Qed.

Lemma long_string_at size off :
  0 <= off -> 56 <= size < 2 ^ 64 -> off + (1 + intsize size + size) <= len input ->
  at_ off = (z2b (0xB7 + len (putint size)) :: putint size) ++ at_ (off + 1 + intsize size) ->
  string_at off (1 + intsize size + size).
Proof.
  intros Ho Hn HL HD. destruct (intsize_spec size) as [Hi _]; [lia|].
  pose proof (len_long 0xB7 size ltac:(lia)) as Hh. set (h := z2b _ :: _) in *.
  rewrite <- Hh. apply string_at_intro; [done|lia| | |lia|].
  - rewrite Hh, Z.add_assoc. exact HD.
  - unfold encodeStringHeader. by rewrite (proj2 (Z.ltb_ge _ _)) by lia.
  - pose proof (len_sub input (off + len h) (off + len h + size) ltac:(lia) ltac:(lia)) as HLs.
    destruct (sub _ _ _) as [|y [|z l]]; [done| |done]. unfold len in HLs. simpl in HLs. lia.
Qed.

Lemma element_inv n off k :
  0 <= off -> validateElement d (S n) input off = Value k -> string_at off k \/ list_at n off k.
Proof.
  intros Ho. cbn [validateElement]. intros [HL H]%ensure_inv. apply Z.ltb_lt in HL.
  apply obind_inv in H as (x & HX & H). destruct (index input off) as [x'|] eqn:EX; [|done]. injection HX as ->.
  pose proof (index_drop _ _ _ EX) as [_ HD]. pose proof (b2z_range x) as HB. cbv zeta in H.
  rewrite !(i64_small (off + 1)) in H by lia.
  destruct (Z.ltb_spec (b2z x) 0x80) as [B80|B80].
  { injection H as <-. left. split; [lia|]. exists [x]. simpl. by rewrite (proj2 (Z.ltb_lt _ _)), HD by lia. }
  destruct (Z.ltb_spec (b2z x) 0xB8) as [BB8|BB8].
  { left. apply ensure_inv in H as [H1 H]. apply obind_inv in H as ([] & HS & H). injection H as <-.
    rewrite i64_small, Z.leb_le in H1 by lia. by apply short_string_at. }
  destruct (Z.ltb_spec (b2z x) 0xC0) as [BC0|BC0].
  { left. apply ensure_inv in H as [H1 H]. apply obind_inv in H as (s & HS & H). apply obind_inv in H as (size & HR & H).
    apply ensure_inv in H as [H2 H]. apply ensure_inv in H as [H3 H]. apply ensure_inv in H as [H4 H].
    apply ensure_inv in H as [H5 H]. injection H as <-. apply Z.leb_le in H1, H5.
    rewrite i64_small in H1, HS by lia. rewrite Hstrict in H2. apply negb_true_iff, Z.ltb_ge in H2.
    destruct (long_header_inv x 0xB7 off s size EX ltac:(lia) H1 HS HR) as (Hn & Hi & HDs).
    rewrite Hi in *. rewrite i64_small, Z.leb_le in H4 by lia. apply long_string_at; [done|lia|done|done]. }
  destruct (Z.ltb_spec (b2z x) 0xF8) as [BF8|BF8].
  { right. apply ensure_inv in H as [H1 H]. apply obind_inv in H as ([] & HV & H). injection H as <-.
    rewrite i64_small, Z.leb_le in H1 by lia.
    assert (HE : encodeListHeader (b2z x - 0xC0) = [x]).
    { unfold encodeListHeader. rewrite (proj2 (Z.ltb_lt _ _)) by lia.
      replace (0xC0 + (b2z x - 0xC0)) with (b2z x) by lia. by rewrite z2b_b2z. }
    split; [lia|]. exists (b2z x - 0xC0), 1. rewrite HE. by split; [lia|]. }
  right. apply ensure_inv in H as [H1 H]. apply obind_inv in H as (s & HS & H). apply obind_inv in H as (size & HR & H).
  apply ensure_inv in H as [H2 H]. apply ensure_inv in H as [H3 H]. apply ensure_inv in H as [H4 H].
  apply ensure_inv in H as [H5 H]. apply obind_inv in H as ([] & HV & H). injection H as <-. apply Z.leb_le in H1, H5.
  rewrite i64_small in H1, HS by lia. rewrite Hstrict in H2. apply negb_true_iff, Z.ltb_ge in H2.
  destruct (long_header_inv x 0xF7 off s size EX ltac:(lia) H1 HS HR) as (Hn & Hi & HDs).
  rewrite Hi in *. rewrite i64_small, Z.leb_le in H4 by lia. rewrite i64_small in HV by lia. rewrite i64_small by lia.
  split; [lia|]. exists size, (1 + intsize size). unfold encodeListHeader. rewrite (proj2 (Z.ltb_ge _ _)) by lia.
  rewrite len_long, Z.add_assoc in * by lia. by split; [lia|].
Qed.

(** *** What the validator accepts *)

(** Bytes [a] at the offset, and what they take of the input. *)
Lemma at_bounds (a tail : list byte) off :
  0 <= off -> a <> [] -> at_ off = a ++ tail -> off + len a <= len input /\ at_ (off + len a) = tail.
Proof.
  intros Ho HN HD. split.
  - rewrite (len_drop input (a ++ tail) off Ho HD) by by destruct a. rewrite len_app. pose proof (len_nonneg tail). lia.
  - replace (Z.to_nat (off + len a)) with (Z.to_nat off + length a)%nat by (unfold len; lia).
    by rewrite <- drop_drop, HD, drop_app_length.
Qed.

(** The checks of a long header [c + sizeBytes], of which [k] are done. *)
Lemma long_prefix {B} c n tail off (f : Z -> Outcome B) (x := z2b (c + len (putint n))) :
  0 <= off -> 56 <= n < 2 ^ 64 -> 0 <= c <= 0xF7 -> at_ off = (x :: putint n) ++ tail ->
  b2z x - c = intsize n /\
  (ensure (i64 (off + 1 + intsize n) <=? len input) ErrInvalidInput;;
   s ← or_panic (slice input (off + 1) (i64 (off + 1 + intsize n)));
   size ← readSize d s;
   ensure (negb (StrictMode d && (size <? 56))) ErrCanonicalSize;;
   f size) = f n.
Proof.
  intros Ho Hn Hc HD. destruct (intsize_spec n) as [Hi _]; [lia|].
  destruct (at_bounds (x :: putint n) tail off Ho) as [HL _]; [done|done|]. unfold x in HL. rewrite len_long in HL by lia.
  split; [unfold x; rewrite len_putint, b2z_z2b, Z.mod_small by lia; lia|].
  rewrite i64_small, ensure_ok by (try apply Z.leb_le; lia).
  pose proof (slice_drop input [x] (putint n) tail off Ho HD) as HS. change (len [x]) with 1 in HS.
  rewrite len_putint in HS by lia. rewrite HS by (destruct (putint_head n) as (? & ? & -> & _); [lia|done]).
  cbn [or_panic mbind Outcome_bind]. rewrite readSize_putint by lia. cbn [mbind Outcome_bind].
  by rewrite Hstrict, ensure_ok by (apply negb_true_iff, Z.ltb_ge; lia).
Qed.

Lemma head_first c m r off (x := z2b (c + m)) :
  0 <= off -> 0 <= c + m < 256 -> at_ off = x :: r ->
  (off <? len input) = true /\ index input off = Some x /\ b2z x = c + m /\ i64 (off + 1) = off + 1.
Proof.
  intros Ho Hm HD. destruct (at_bounds [x] r off Ho) as [HL _]; [done|done|]. change (len [x]) with 1 in HL.
  rewrite (drop_index input off x r Ho HD), (proj2 (Z.ltb_lt _ _)), i64_small by lia.
  do 2 (split; [done|]). split; [|done]. unfold x. by rewrite b2z_z2b, Z.mod_small by lia.
Qed.

Lemma element_string n l tail off :
  0 <= off -> at_ off = encodeBytes l ++ tail -> validateElement d (S n) input off = Value (len (encodeBytes l)).
Proof.
  intros Ho HD. pose proof (len_nonneg l) as Hl. cbn [validateElement].
  destruct (encodeBytes_cases l) as [(x & -> & Hx & E)|[E HS]]; rewrite E in *.
  { pose proof (b2z_range x). destruct (head_first 0 (b2z x) tail off) as (EL & EX & EB & _); [done|lia| |].
    - by rewrite Z.add_0_l, z2b_b2z.
    - rewrite Z.add_0_l, z2b_b2z in *. rewrite EL, EX, ensure_ok, or_panic_Some by done. cbv zeta. by rewrite (proj2 (Z.ltb_lt _ _)) by lia. }
  rewrite <- app_assoc in HD. rewrite len_app. unfold head_bytes in *. destruct (Z.ltb_spec (len l) 56).
  - destruct (head_first 0x80 (len l) (l ++ tail) off) as (EL & EX & EB & E1); [done|lia|done|].
    rewrite EL, EX, ensure_ok, or_panic_Some by done. cbv zeta. rewrite EB, E1, (proj2 (Z.ltb_ge _ 0x80)), (proj2 (Z.ltb_lt _ 0xB8)) by lia.
    replace (0x80 + len l - 0x80) with (len l) by lia.
    destruct (at_bounds ([z2b (0x80 + len l)] ++ l) tail off Ho) as [HL _]; [done|by rewrite <- app_assoc|].
    rewrite len_app in HL. change (len [_]) with 1 in *.
    rewrite i64_small, ensure_ok by (try apply Z.leb_le; lia).
    rewrite Hstrict. destruct (Z.eqb_spec (len l) 1) as [E2|]; [|done].
    destruct l as [|y [|]]; [done| |unfold len in E2; simpl in E2; lia].
    rewrite (drop_index input (off + 1) y tail) by (try lia; by apply (at_bounds [z2b (0x80 + 1)])).
    simpl in HS |- *. by rewrite (proj2 (Z.leb_le _ _)) by (apply Z.ltb_ge in HS; lia).
  - destruct (at_bounds ((z2b (0x80 + 55 + len (putint (len l))) :: putint (len l)) ++ l) tail off Ho) as [HL _];
      [done|by rewrite <- app_assoc|]. rewrite len_app in HL. change (0x80 + 55) with 0xB7 in *.
    assert (Hn : 56 <= len l < 2 ^ 62). { pose proof (len_nonneg (z2b (0xB7 + len (putint (len l))) :: putint (len l))). lia. }
    rewrite len_long in * by lia. destruct (intsize_spec (len l)) as [Hi _]; [lia|].
    destruct (head_first 0xB7 (len (putint (len l))) (putint (len l) ++ l ++ tail) off) as (EL & EX & EB & E1); [done| |done|].
    { rewrite len_putint; lia. }
    rewrite EL, EX, ensure_ok, or_panic_Some by done. cbv zeta. rewrite EB, E1, len_putint by lia.
    rewrite (proj2 (Z.ltb_ge _ 0x80)), (proj2 (Z.ltb_ge _ 0xB8)), (proj2 (Z.ltb_lt _ 0xC0)) by lia.
    replace (0xB7 + intsize (len l) - 0xB7) with (intsize (len l)) by lia.
    rewrite (proj2 (long_prefix 0xB7 (len l) (l ++ tail) off _ Ho ltac:(lia) ltac:(lia) HD)).
    rewrite !ensure_ok; try (apply Z.leb_le; rewrite ?i64_small; unfold MaxInt; lia). done.
Qed.

Lemma element_list n c tail off :
  0 <= off -> at_ off = encodeListHeader (len c) ++ c ++ tail ->
  validateElement d (S n) input off =
    (validateListContents d (validateElement d n input) (off + len (encodeListHeader (len c))) (len c);;
     Value (len (encodeListHeader (len c)) + len c)).
Proof.
  intros Ho HD. pose proof (len_nonneg c) as Hl. cbn [validateElement]. unfold encodeListHeader in *.
  destruct (Z.ltb_spec (len c) 56).
  - destruct (head_first 0xC0 (len c) (c ++ tail) off) as (EL & EX & EB & E1); [done|lia|done|].
    rewrite EL, EX, ensure_ok, or_panic_Some by done. cbv zeta. rewrite EB, E1, (proj2 (Z.ltb_ge _ 0x80)), (proj2 (Z.ltb_ge _ 0xB8)), (proj2 (Z.ltb_ge _ 0xC0)), (proj2 (Z.ltb_lt _ 0xF8)) by lia.
    replace (0xC0 + len c - 0xC0) with (len c) by lia.
    destruct (at_bounds ([z2b (0xC0 + len c)] ++ c) tail off Ho) as [HL _]; [done|by rewrite <- app_assoc|].
    rewrite len_app in HL. change (len [_]) with 1 in *. by rewrite i64_small, ensure_ok by (try apply Z.leb_le; lia).
  - destruct (at_bounds ((z2b (0xF7 + len (putint (len c))) :: putint (len c)) ++ c) tail off Ho) as [HL _];
      [done|by rewrite <- app_assoc|]. rewrite len_app in HL.
    assert (Hn : 56 <= len c < 2 ^ 62). { pose proof (len_nonneg (z2b (0xF7 + len (putint (len c))) :: putint (len c))). lia. }
    rewrite len_long in * by lia. destruct (intsize_spec (len c)) as [Hi _]; [lia|].
    destruct (head_first 0xF7 (len (putint (len c))) (putint (len c) ++ c ++ tail) off) as (EL & EX & EB & E1); [done| |done|].
    { rewrite len_putint; lia. }
    rewrite EL, EX, ensure_ok, or_panic_Some by done. cbv zeta. rewrite EB, E1, len_putint by lia.
    rewrite (proj2 (Z.ltb_ge _ 0x80)), (proj2 (Z.ltb_ge _ 0xB8)), (proj2 (Z.ltb_ge _ 0xC0)), (proj2 (Z.ltb_ge _ 0xF8)) by lia.
    replace (0xF7 + intsize (len c) - 0xF7) with (intsize (len c)) by lia.
    rewrite (proj2 (long_prefix 0xF7 (len c) (c ++ tail) off _ Ho ltac:(lia) ltac:(lia) HD)).
    rewrite !ensure_ok by (apply Z.leb_le; rewrite ?i64_small; unfold MaxInt; lia). by rewrite !i64_small by lia.
Qed.

(** The elements of a list one after the other. *)
Definition small_item (n : nat) (v : Val) : Prop :=
  is_item v = true /\ item_depth v <= Z.of_nat n /\ widest v <= MaxListLen d.

Lemma small_item_list n l :
  small_item (S n) (VList l) <-> Forall (small_item n) l /\ len l <= MaxListLen d.
Proof.
  unfold small_item. cbn [is_item item_depth widest].
  assert (E : forall x, 1 + x <= Z.of_nat (S n) <-> x <= Z.of_nat n) by lia.
  rewrite E, Z.max_lub_iff, !maxZ_le, !Forall_map, forallb_forall, !Forall_forall. split.
  - intros (H1 & [H2 _] & H3 & H4 & _). split; [|done]. intros x Hx. auto.
  - intros [H1 H2]. split; [intros x Hx; by apply H1|]. split; [split; [intros x Hx; by apply H1|lia]|].
    split; [done|]. split; [intros x Hx; by apply H1|done].
Qed.

Definition item_at (n : nat) (off k : Z) (v : Val) : Prop :=
  small_item n v /\ off + k <= len input /\
  exists enc, encodeValue v = inr enc /\ k = len enc /\ at_ off = enc ++ at_ (off + k).

Lemma contents_sound n m : forall pos end_,
  (forall off k, 0 <= off -> validateElement d n input off = Value k -> exists v, item_at n off k v) ->
  0 <= pos <= end_ -> end_ <= len input ->
  contentsLoop (validateElement d n input) m pos end_ = Value tt ->
  exists vs content, concatAll (map encodeValue vs) = inr content /\ at_ pos = content ++ at_ end_ /\
    len content = end_ - pos /\ Forall (small_item n) vs /\ (length vs <= m)%nat.
Proof.
  induction m as [|m IH]; intros pos end_ HE Hp Hend; cbn [contentsLoop]; destruct (Z.ltb_spec pos end_) as [Hlt|Hge]; try done.
  - intros _. replace end_ with pos by lia. exists [], []. repeat split; try done. by unfold len; simpl; lia.
  - intros (k & Hk & H)%obind_inv. destruct (HE pos k ltac:(lia) Hk) as (v & HS & HL & enc & He & -> & HD).
    pose proof (len_nonneg enc). rewrite i64_small in H by lia.
    destruct (Z.le_gt_cases (pos + len enc) end_) as [Hle|Hgt].
    2:{ destruct m; cbn [contentsLoop] in H; rewrite (proj2 (Z.ltb_ge _ _)), (proj2 (Z.eqb_neq _ _)) in H by lia; done. }
    destruct (IH (pos + len enc) end_ HE ltac:(lia) Hend H) as (vs & content & Hc & HD' & HL' & HF & Hm).
    exists (v :: vs), (enc ++ content). simpl. rewrite He, Hc. split; [done|]. split; [by rewrite <- app_assoc, <- HD'|].
    split; [rewrite len_app; lia|]. split; [by constructor|lia].
  - intros _. replace end_ with pos by lia. exists [], []. change (len []) with 0.
    do 2 (split; [done|]). split; [lia|]. split; [constructor|simpl; lia].
Qed.

Lemma element_sound n : forall off k,
  0 <= off -> validateElement d n input off = Value k -> exists v, item_at n off k v.
Proof.
  induction n as [|n IH]; intros off k Ho H; [done|].
  destruct (element_inv n off k Ho H) as [(HL & l & -> & HD)|(HL & size & h & Hs & -> & -> & HD & HV)].
  - exists (VBytes l). split; [|by split; [|eexists]]. split; [done|]. simpl. split; lia.
  - unfold validateListContents in HV. pose proof (len_nonneg (encodeListHeader size)).
    rewrite i64_small in HV by lia.
    destruct (fun H1 H2 => contents_sound n _ _ _ IH H1 H2 HV) as (vs & content & Hc & HD' & HL' & HF & Hm); [lia|lia|].
    assert (size = len content) as -> by lia. exists (VList vs). split; [|split; [done|]].
    + apply small_item_list. split; [done|]. unfold len. lia.
    + exists (encodeListHeader (len content) ++ content). simpl. unfold encodeList. rewrite Hc, len_app.
      split; [done|]. split; [done|]. rewrite HD, HD', <- app_assoc. do 3 f_equal. lia.
Qed.

Lemma encode_nonempty v enc : is_item v = true -> encodeValue v = inr enc -> enc <> [].
Proof.
  destruct v; try done; intros _.
  - intros [= <-]. destruct (encodeBytes_cases l) as [(x & _ & _ & ->)|[-> _]]; [done|].
    unfold head_bytes. by destruct (_ <? _).
  - simpl. unfold encodeList. destruct (concatAll _); [done|]. intros [= <-]. unfold encodeListHeader. by destruct (_ <? _).
Qed.

Lemma contents_complete n vs : forall m pos content tail,
  (forall v enc off tail, small_item n v -> encodeValue v = inr enc -> 0 <= off -> at_ off = enc ++ tail ->
     validateElement d n input off = Value (len enc)) ->
  Forall (small_item n) vs -> (length vs <= m)%nat -> concatAll (map encodeValue vs) = inr content ->
  0 <= pos <= len input -> at_ pos = content ++ tail ->
  contentsLoop (validateElement d n input) m pos (pos + len content) = Value tt.
Proof.
  induction vs as [|v vs IH]; intros m pos content tail HE HF Hm Hc Hp HD.
  - injection Hc as <-. change (len []) with 0. rewrite Z.add_0_r.
    destruct m; cbn [contentsLoop]; by rewrite Z.ltb_irrefl, Z.eqb_refl.
  - apply concatAll_cons in Hc as (enc & content' & Ev & Ec & ->). inversion HF as [|? ? Hv Hvs]; subst.
    destruct m as [|m]; [simpl in Hm; lia|]. rewrite <- app_assoc in HD.
    pose proof (encode_nonempty v enc (proj1 Hv) Ev) as HN.
    destruct (at_bounds enc (content' ++ tail) pos ltac:(lia) HN HD) as [HL HD'].
    assert (0 < len enc) by (destruct enc; [done|unfold len; simpl; lia]). pose proof (len_nonneg content').
    cbn [contentsLoop]. rewrite len_app, (proj2 (Z.ltb_lt _ _)) by lia.
    rewrite (HE v enc pos (content' ++ tail) Hv Ev ltac:(lia) HD). cbn [mbind Outcome_bind].
    rewrite i64_small, Z.add_assoc by lia. apply (IH m _ _ tail); try done; [simpl in Hm; lia|lia].
Qed.

Lemma element_complete n : forall v enc off tail,
  small_item n v -> encodeValue v = inr enc -> 0 <= off -> at_ off = enc ++ tail ->
  validateElement d n input off = Value (len enc).
Proof.
  induction n as [|n IH]; intros v enc off tail HS He Ho HD.
  { destruct HS as (HI & HD' & _). destruct v; simpl in HD'; try lia. pose proof (maxZ_nonneg (map item_depth l)). lia. }
  destruct v as [| |l|l| | |]; try by destruct HS.
  - injection He as <-. by apply (element_string n l tail).
  - simpl in He. unfold encodeList in He. destruct (concatAll _) as [|content] eqn:Ec; [done|]. injection He as <-.
    apply small_item_list in HS as [HF HL]. rewrite <- app_assoc in HD. rewrite (element_list n content tail) by done.
    destruct (at_bounds (encodeListHeader (len content)) (content ++ tail) off Ho) as [HL' HD'];
      [unfold encodeListHeader; by destruct (_ <? _)|done|].
    pose proof (len_nonneg (encodeListHeader (len content))).
    assert (HB : off + len (encodeListHeader (len content) ++ content) <= len input).
    { apply (at_bounds _ tail off Ho); [unfold encodeListHeader; by destruct (_ <? _)|by rewrite <- app_assoc]. }
    rewrite len_app in *. unfold validateListContents. rewrite i64_small by (pose proof (len_nonneg content); lia).
    rewrite (contents_complete n l _ _ content tail) by (try done; unfold len in *; lia). done.
Qed.

(** *** No panic *)

Lemma ensure_no_panic {B} b e (f : unit -> Outcome B) : (b = true -> f tt <> Panic) -> (ensure b e ≫= f) <> Panic.
Proof. intros Hf. destruct b; [by apply Hf|done]. Qed.

Lemma readSize_no_panic {B} s (f : Z -> Outcome B) : (forall z, f z <> Panic) -> (readSize d s ≫= f) <> Panic.
Proof.
  intros Hf. unfold readSize, ensure. destruct (negb (len s =? 0)); [|done].
  destruct (negb (StrictMode d && _)); [|done]. apply Hf.
Qed.

Lemma index_no_panic {B} off (f : byte -> Outcome B) :
  0 <= off < len input -> (forall x, f x <> Panic) -> (or_panic (index input off) ≫= f) <> Panic.
Proof.
  intros Ho Hf. assert (is_Some (index input off)) as [x ->]; [|apply Hf].
  unfold index. rewrite (proj2 (Z.leb_le _ _)) by lia. apply lookup_lt_is_Some. unfold len in Ho. lia.
Qed.

Lemma contents_no_panic n : (forall off, 0 <= off -> validateElement d n input off <> Panic) ->
  forall m pos end_, 0 <= pos <= len input -> contentsLoop (validateElement d n input) m pos end_ <> Panic.
Proof.
  intros IH m. induction m as [|m IHm]; intros pos end_ Hp; cbn [contentsLoop]; destruct (_ <? _);
    try (unfold ensure; by destruct (_ =? _)); [done|].
  destruct (validateElement d n input pos) as [k|e|] eqn:E; [|done|by destruct (IH pos ltac:(lia))].
  cbn [mbind Outcome_bind]. destruct (element_sound n pos k ltac:(lia) E) as (v & _ & HL & enc & _ & -> & _).
  pose proof (len_nonneg enc). rewrite i64_small by lia. apply IHm. lia.
Qed.

Lemma element_no_panic n : forall off, 0 <= off -> validateElement d n input off <> Panic.
Proof.
  induction n as [|n IH]; intros off Ho; [done|]. pose proof (contents_no_panic n IH) as HC.
  assert (HV : forall start size, 0 <= start <= len input ->
    forall B (r : B), (validateListContents d (validateElement d n input) start size;; Value r) <> Panic).
  { intros start size Hs B r. unfold validateListContents. specialize (HC (Z.to_nat (MaxListLen d)) start (i64 (start + size)) Hs).
    by destruct (contentsLoop _ _ _ _). }
  cbn [validateElement]. apply ensure_no_panic. intros Hlt%Z.ltb_lt. apply index_no_panic; [lia|]. intros x. cbv zeta.
  rewrite !(i64_small (off + 1)) by lia. pose proof (b2z_range x).
  destruct (Z.ltb_spec (b2z x) 0x80) as [B80|B80]; [done|].
  destruct (Z.ltb_spec (b2z x) 0xB8) as [BB8|BB8].
  { apply ensure_no_panic. rewrite Z.leb_le. intros HL. rewrite i64_small in HL by lia. rewrite Hstrict. simpl.
    destruct (Z.eqb_spec (b2z x - 0x80) 1) as [E|]; [|done].
    assert (is_Some (index input (off + 1))) as [y ->].
    { unfold index. rewrite (proj2 (Z.leb_le _ _)) by lia. apply lookup_lt_is_Some. unfold len in *. lia. }
    rewrite or_panic_Some. unfold ensure. by destruct (_ <=? _). }
  destruct (Z.ltb_spec (b2z x) 0xC0) as [BC0|BC0].
  { apply ensure_no_panic. rewrite Z.leb_le. intros HL. rewrite i64_small in * by lia. rewrite slice_Some, or_panic_Some by lia.
    apply readSize_no_panic. intros size. by repeat (apply ensure_no_panic; intros _). }
  destruct (Z.ltb_spec (b2z x) 0xF8) as [BF8|BF8].
  { apply ensure_no_panic. rewrite Z.leb_le. intros HL. rewrite i64_small in HL by lia. apply HV. lia. }
  apply ensure_no_panic. rewrite Z.leb_le. intros HL. rewrite i64_small in HL by lia. rewrite !(i64_small (off + 1 + _)) by lia.
  rewrite slice_Some, or_panic_Some by lia. apply readSize_no_panic. intros size.
  repeat (apply ensure_no_panic; intros _). apply HV. rewrite i64_small; lia.
Qed.
End Validator.

Lemma validateInput_spec d input :
  StrictMode d = true -> 0 <= MaxDepth d -> 0 <= MaxListLen d -> len input <= MaxSize d < 2 ^ 62 ->
  validateInput d input <> Panic /\
  (validateInput d input = Value tt <->
   input = [] \/ exists v enc tail, is_item v = true /\ item_depth v <= MaxDepth d /\ widest v <= MaxListLen d /\
     EncodeToBytes v = inr enc /\ input = enc ++ tail).
Proof.
  intros Hs Hd Hl [Hsize Hlim]. unfold validateInput. destruct (Z.eqb_spec (len input) 0) as [E0|E0].
  { destruct input; [by split; [done|split; [by left|]]|unfold len in E0; simpl in E0; lia]. }
  set (n := Z.to_nat (MaxDepth d)).
  pose proof (element_no_panic d input Hl Hs Hsize Hlim n 0 ltac:(lia)) as HP. split.
  { by destruct (validateElement d n input 0). }
  split.
  - intros (k & E & _)%obind_inv. right.
    destruct (element_sound d input Hl Hs Hsize Hlim n 0 k ltac:(lia) E) as (v & (H1 & H2 & H3) & _ & enc & He & -> & HD).
    exists v, enc, (drop (Z.to_nat (0 + len enc)) input). unfold n in H2. rewrite Z2Nat.id in H2 by done. done.
  - intros [->|(v & enc & tail & H1 & H2 & H3 & He & HD)]; [done|].
    rewrite (element_complete d input Hl Hs Hsize Hlim n v enc 0 tail); [done| |done|lia|done].
    split; [done|]. split; [|done]. unfold n. by rewrite Z2Nat.id.
Qed.

(** With the strict mode and within the size limit the validator neither
    panics nor accepts anything but an encoding: it accepts exactly the inputs that
    start with the encoding of a string or list of nested strings and lists no
    deeper than [MaxDepth] and no longer than [MaxListLen]. *)
Theorem validator_exact d input :
  StrictMode d = true -> 0 <= MaxDepth d -> 0 <= MaxListLen d -> len input <= MaxSize d < 2 ^ 62 ->
  validateInput d input <> Panic /\
  (validateInput d input = Value tt <->
   input = [] \/ exists v enc tail, is_item v = true /\ item_depth v <= MaxDepth d /\ widest v <= MaxListLen d /\
     EncodeToBytes v = inr enc /\ input = enc ++ tail).
Proof. apply validateInput_spec. Qed.

Lemma validator_exact_witness :
  validateInput DefaultSafeDecoderConfig [xc3; x81; x81; x05] <> Panic /\
  validateInput DefaultSafeDecoderConfig [xc3; x81; x81; x05] = Value tt.
Proof.
  destruct (validator_exact DefaultSafeDecoderConfig [xc3; x81; x81; x05]) as [HP HV];
    [reflexivity|vm_compute; discriminate|vm_compute; discriminate|split; vm_compute; [discriminate|reflexivity]|].
  split; [exact HP|]. apply HV. right. exists (VList [VBytes [x81]; VBytes [x05]]), [xc3; x81; x81; x05], [].
  repeat split; vm_compute; discriminate.
Defined.

(** With a size limit of [MaxInt] the bounds check overflows and the next element
    is looked up at a negative index. *)
Theorem validator_panics :
  ValidateRLPStructureWithConfig [xc9; xbf; x7f; xff; xff; xff; xff; xff; xff; xf6] (mkConfig MaxInt 64 100 true) = Panic.
Proof. by vm_compute. Qed.

(** Bytes after the first element are not looked at. *)
Theorem validator_ignores_trailing tail :
  len tail < maxRLPSize -> ValidateRLPStructure (x05 :: tail) = Value tt.
Proof. done. Qed.

(** ** The encoder's output *)

(** The item that a value is encoded as. *)
Fixpoint erase (v : Val) : Val :=
  match v with
  | VBool b => VBytes (if b then [x01] else [])
  | VInt z => VBytes (digits z)
  | VBytes l => VBytes l
  | VList l => VList (map erase l)
  | VNil => VBytes []
  | VPtr v => erase v
  | VBig z => VBytes (big_bytes z)
  end.

Lemma Val_nested_ind (P : Val -> Prop) :
  (forall b, P (VBool b)) -> (forall z, P (VInt z)) -> (forall l, P (VBytes l)) ->
  (forall l, Forall P l -> P (VList l)) -> P VNil -> (forall v, P v -> P (VPtr v)) -> (forall z, P (VBig z)) ->
  forall v, P v.
Proof.
  intros H1 H2 H3 H4 H5 H6 H7. fix IH 1. intros []; [apply H1|apply H2|apply H3| |exact H5|apply H6, IH|apply H7].
  apply H4. induction l; constructor; [apply IH|assumption].
Qed.

Lemma erase_item v : is_item (erase v) = true.
Proof.
  induction v as [| | |l IH| |v IH|] using Val_nested_ind; try done. simpl. apply forallb_forall.
  intros x (v & <- & Hv)%in_map_iff. rewrite Forall_forall in IH. by apply IH.
Qed.

Lemma erase_encode v : forall t, wt t v -> encodeValue (erase v) = encodeValue v.
Proof.
  assert (HI : forall bits z, bits <= 64 -> 0 <= z < 2 ^ bits -> inr (encodeBytes (digits z)) = encodeInt z).
  { intros bits z Hb Hz. assert (2 ^ bits <= 2 ^ 64) by (apply Z.pow_le_mono_r; lia).
    unfold encodeInt. rewrite (proj2 (Z.ltb_ge _ _)) by lia. destruct (digits_spec z) as [-> _]; [lia|done]. }
  induction v as [b|z|l|l IH| |v IH|z] using Val_nested_ind; intros t Hwt; simpl; try done.
  - by destruct b.
  - inversion Hwt as [|bits ? Hb Hz|bits ? Hb Hz| | | | | | | |]; subst; [apply (HI (bits - 1)); [lia|done]|by apply (HI bits)].
  - assert (HF : Forall (fun v => exists t, wt t v) l).
    { inversion Hwt as [| | | | |? ? ? HF|? ? HF|? ? HF| | |]; subst.
      - eapply Forall_impl; [|exact HF]. by eexists.
      - eapply Forall_impl; [|exact HF]. by eexists.
      - clear -HF. induction HF; constructor; [by eexists|done]. }
    f_equal. rewrite map_map. apply map_ext_in. intros v Hv. rewrite Forall_forall in IH, HF.
    destruct (HF v Hv) as [t' Ht']. by apply (IH v Hv t').
  - inversion Hwt; subst. by eapply IH.
  - inversion Hwt; subst. by rewrite encodeBigInt_spec.
Qed.

(** [SafeDecodeBytes] does not reject what the encoder wrote: the validator
    accepts the encoding and the value comes back, within the default limits. *)
Theorem safe_roundtrip t v :
  wt t v -> item_depth (erase v) <= maxNestingDepth -> widest (erase v) <= maxSliceElements ->
  exists b, EncodeToBytes v = inr b /\
    (len b <= maxRLPSize -> calls t v <= maxBytesCalls -> depth t v <= maxNestingDepth ->
     SafeDecodeBytes t (zero_val t) (Some b) = Value v).
Proof.
  intros Hwt Hd Hw. destruct (value_roundtrip t v Hwt) as (b & E & H). exists b. split; [done|]. intros HL HC HD.
  unfold SafeDecodeBytes, DecodeBytes. change (MaxSize NewDefaultSafeDecoder) with maxRLPSize.
  rewrite ensure_ok by by apply Z.leb_le.
  destruct (validateInput_spec NewDefaultSafeDecoder b) as [_ HV]; [done|done|done|by split|].
  rewrite (proj2 HV), (H HL HC HD); [done|]. right. exists (erase v), b, []. rewrite app_nil_r.
  split; [apply erase_item|]. split; [done|]. split; [done|]. split; [|done].
  unfold EncodeToBytes. by rewrite (erase_encode v t Hwt).
Qed.

Lemma safe_roundtrip_witness : exists b,
  EncodeToBytes sample = inr b /\ SafeDecodeBytes sample_type (zero_val sample_type) (Some b) = Value sample.
Proof.
  destruct (safe_roundtrip sample_type sample sample_wt) as (b & E & H); [vm_compute; discriminate..|].
  exists b. split; [exact E|]. vm_compute in E. injection E as <-. apply H; vm_compute; discriminate.
Defined.
End RlpSafe.
