(* ===== verification/RlpSafeStream.v ===== *)
(** * The stream with limits (rlp/safe_decoder.go, SafeStream)

    [SafeStream] wraps [Stream]: its [List], [ListEnd] and [Bytes] check the depth
    and the bytes returned so far before they call the stream's. *)

From Stdlib Require Import ZArith Lia.
From Stdlib.Strings Require Import Byte.
From stdpp Require Import base list countable strings numbers.
From S2P Require Import Prelude Stack Rlp RlpSpec RlpRoundtrip RlpCanonical RlpSafe.

Module RlpSafeStream.
Import Rlp RlpSpec RlpRoundtrip RlpCanonical.
Import (notations) RlpSafe.

Record SafeStream : Type := mkSafeStream {
  Stream_ : Stream;
  config : RlpSafe.SafeDecoderConfig;
  depthStack : list Z;
  totalRead : Z
}.

Definition NewSafeStream (r : list byte) (c : RlpSafe.SafeDecoderConfig) : SafeStream :=
  let c := RlpSafe.NewSafeDecoder c in
  let streamInputLimit := if maxRLPSize <? RlpSafe.MaxSize c then RlpSafe.MaxSize c else maxRLPSize in
  mkSafeStream (NewStream r streamInputLimit) c [] 0.

Definition NewSafeStreamFromBytes (input : list byte) (c : RlpSafe.SafeDecoderConfig) : SafeStream :=
  NewSafeStream input c.

(** Code that reads a safe stream. *)
Definition SM (A : Type) : Type := SafeStream -> (RlpError + A) * SafeStream.

(** A call of a method of the wrapped stream. *)
Definition lift {A} (m : RM A) : SM A := fun s =>
  let '(r, s') := m (Stream_ s) in (r, mkSafeStream s' (config s) (depthStack s) (totalRead s)).

Definition List_ : SM Z := fun s =>
  if RlpSafe.MaxDepth (config s) <=? len (depthStack s) then (inl ErrMaxDepthExceeded, s)
  else
    match lift Rlp.List_ s with
    | (inl e, s) => (inl e, s)
    | (inr size, s) => (inr size, mkSafeStream (Stream_ s) (config s) (0 :: depthStack s) (totalRead s))
    end.

Definition ListEnd : SM unit := fun s =>
  match lift Rlp.ListEnd s with
  | (inl e, s) => (inl e, s)
  | (inr tt, s) => (inr tt, mkSafeStream (Stream_ s) (config s) (tail (depthStack s)) (totalRead s))
  end.

Definition Bytes : SM (list byte) := fun s =>
  match lift Kind_ s with
  | (inl e, s) => (inl e, s)
  | (inr (kind, size), s) =>
      let string := bool_decide (kind = KString) in
      if string && (RlpSafe.MaxSize (config s) <? size) then (inl ErrMaxSizeExceeded, s)
      else if string && (u64 (totalRead s + size) <? totalRead s) then (inl ErrMaxSizeExceeded, s)
      else if string && (RlpSafe.MaxSize (config s) <? u64 (totalRead s + size)) then (inl ErrMaxSizeExceeded, s)
      else
        match lift Rlp.Bytes s with
        | (inl e, s) => (inl e, s)
        | (inr b, s) =>
            (inr b, mkSafeStream (Stream_ s) (config s) (depthStack s)
                      (if string then u64 (totalRead s + len b) else totalRead s))
        end
  end.

(** ** Sequences of calls *)

(** One call, and the bytes it returned. *)
Inductive call : SafeStream -> list byte -> SafeStream -> Prop :=
  | call_List s r s' : List_ s = (r, s') -> call s [] s'
  | call_ListEnd s r s' : ListEnd s = (r, s') -> call s [] s'
  | call_Bytes s b s' : Bytes s = (inr b, s') -> call s b s'
  | call_Bytes_err s e s' : Bytes s = (inl e, s') -> call s [] s'.

Inductive session : SafeStream -> list (list byte) -> SafeStream -> Prop :=
  | session_nil s : session s [] s
  | session_cons s b s1 bs s' : call s b s1 -> session s1 bs s' -> session s (b :: bs) s'.

(** ** The size read ahead *)

Definition sized (s : Stream) : Prop := kind s <> None -> 0 <= size s.

Definition sizes {A} (m : RM A) : Prop := forall s, sized s -> sized (m s).2.

Lemma sizes_bind {A B} (m : RM A) (f : A -> RM B) : sizes m -> (forall a, sizes (f a)) -> sizes (m ≫= f).
Proof.
  intros Hm Hf s Hs. unfold mbind, RM_bind. specialize (Hm s Hs). destruct (m s) as [[e|a] s']; [done|]. by apply Hf.
Qed.

Lemma sizes_readFull n : sizes (readFull n).
Proof.
  intros s Hs. unfold readFull. destruct (match stack s with [] => _ | _ => _ end); [done|].
  destruct (_ && _); [done|]. by destruct (_ <? _).
Qed.

Lemma readKind_size s k n s' : readKind s = (inr (k, n), s') -> 0 <= n.
Proof.
  unfold readKind. destruct (readByte s) as [[e|b] s1]; [done|]. rewrite mod_bind. cbv zeta.
  assert (HL : forall K c s, (size ← longSize c; mret (K, size)) s = (inr (k, n), s') -> 0 <= n).
  { intros K c s2 (m & s3 & E & [= _ -> _])%bind_inv. unfold longSize in E.
    apply bind_inv in E as (m & s4 & _ & E). apply require_inv in E as [E1 E]. apply require_inv in E as [_ E].
    injection E as -> _. apply Z.leb_le in E1. lia. }
  destruct (Z.ltb_spec (b2z b) 0x80); [rewrite mod_bind; intros [= _ <- _]; lia|].
  destruct (Z.ltb_spec (b2z b) 0xB8); [intros [= _ <- _]; lia|]. destruct (Z.ltb_spec (b2z b) 0xC0); [apply HL|].
  destruct (Z.ltb_spec (b2z b) 0xF8); [intros [= _ <- _]; lia|apply HL].
Qed.

Lemma Kind_size s : sized s -> sized (Kind_ s).2 /\ (forall k n, (Kind_ s).1 = inr (k, n) -> 0 <= n).
Proof.
  intros Hs. unfold Kind_. destruct (kind s) eqn:EK.
  - split; [done|]. simpl. destruct (kinderr s); [done|]. intros k' n [= _ <-]. apply Hs. by rewrite EK.
  - destruct (readKind s) as [[e|[k n]] s'] eqn:E; simpl; [by split; [intros _; simpl; lia|]|].
    apply readKind_size in E. split; [by intros _|]. by intros k' n' [= _ <-].
Qed.

Ltac keep_size :=
  repeat lazymatch goal with
  | |- sizes (mbind _ _) => apply sizes_bind; [|intros ?]
  | |- sizes (require ?b _) => unfold require; destruct b
  | |- sizes (readFull _) => apply sizes_readFull
  | |- sizes Kind_ => intros ? ?; by apply Kind_size
  | |- sizes (let '(_, _) := ?b in _) => destruct b
  | |- sizes (match ?b with KByte => _ | KString => _ | KList => _ end) => destruct b
  | |- sizes _ => let s := fresh "s" in let H := fresh "H" in
      intros s H; first [exact H | intros HN; by destruct HN]
  end.

Lemma sizes_Bytes : sizes Rlp.Bytes.
Proof. unfold Rlp.Bytes, budget. keep_size. Qed.

Lemma sizes_List : sizes Rlp.List_.
Proof. unfold Rlp.List_. keep_size. Qed.

Lemma sizes_ListEnd : sizes Rlp.ListEnd.
Proof.
  intros s Hs. unfold Rlp.ListEnd. destruct (stack s); [done|].
  destruct (0 <? _); [done|]. intros HN. by destruct HN.
Qed.

(** ** The budget *)

Lemma Bytes_len s k n b s' :
  Kind_ s = (inr (k, n), s) -> 0 <= n -> Rlp.Bytes s = (inr b, s') -> k = KString /\ len b = n \/ k = KByte /\ len b = 1.
Proof.
  intros EK Hn. unfold Rlp.Bytes. rewrite mod_bind, get_bind. intros [_ H]%require_inv.
  apply bind_inv in H as ([k' n'] & s1 & E & H). rewrite commutes_Kind, EK in E. injection E as <- <- <-.
  destruct k; [right|left|done].
  - rewrite mod_bind, get_bind in H. by injection H as <- _.
  - apply require_inv in H as [_ H]. apply budget_inv in H as [t H]. apply bind_inv in H as (l & s2 & EF & H).
    rewrite mod_bind in H. apply require_inv in H as [_ H]. injection H as <- _. split; [done|]. revert EF.
    unfold readFull. destruct (match stack _ with [] => _ | _ => _ end); [done|]. destruct (_ && _); [done|].
    destruct (Z.ltb_spec (len (rest (set_totalDecoded t (set_callCount (callCount s + 1) s)))) n) as [|HL]; [done|].
    intros [= <- _]. unfold len in *. simpl in *. rewrite length_take. lia.
Qed.

(** What holds of a stream between calls. *)
Definition in_budget (s : SafeStream) : Prop :=
  sized (Stream_ s) /\ 0 <= totalRead s <= RlpSafe.MaxSize (config s) /\ RlpSafe.MaxSize (config s) < 2 ^ 64.

(** A call that fails before it reads. *)
Ltac same_budget := intros [= <- <-]; by split; [|split; [|split; [simpl; lia|]]].

Lemma Bytes_budget s r s' :
  in_budget s -> Bytes s = (r, s') ->
  in_budget s' /\ config s' = config s /\ totalRead s <= totalRead s' /\
  match r with inr b => len b <= totalRead s' - totalRead s + 1 | inl _ => True end.
Proof.
  intros (HS & HT & HM). unfold Bytes, lift. pose proof (Kind_size _ HS) as [HS1 Hn].
  destruct (Kind_ (Stream_ s)) as [[e|[k n]] s1] eqn:EK; simpl in *.
  { intros [= <- <-]. repeat split; simpl; try done; lia. }
  specialize (Hn k n eq_refl). pose proof (sizes_Bytes s1 HS1) as HS2.
  pose proof (Kind_twice _ _ _ EK) as EK1.
  assert (HF : in_budget (mkSafeStream s1 (config s) (depthStack s) (totalRead s))) by done.
  destruct (bool_decide (k = KString)) eqn:Ek; simpl.
  - destruct (Z.ltb_spec (RlpSafe.MaxSize (config s)) n); [same_budget|].
    destruct (Z.ltb_spec (u64 (totalRead s + n)) (totalRead s)); [same_budget|].
    destruct (Z.ltb_spec (RlpSafe.MaxSize (config s)) (u64 (totalRead s + n))); [same_budget|].
    destruct (Rlp.Bytes s1) as [[e|b] s2] eqn:EB; [same_budget|]. intros [= <- <-].
    apply bool_decide_eq_true in Ek as ->. destruct (Bytes_len _ _ _ _ _ EK1 Hn EB) as [[_ HL]|[? _]]; [|done].
    assert (EU : u64 (totalRead s + n) = totalRead s + n) by (unfold u64 in *; zlia).
    unfold in_budget. simpl. rewrite HL, EU in *. split; [|split; [done|lia]]. split; [done|lia].
  - destruct (Rlp.Bytes s1) as [[e|b] s2] eqn:EB; [same_budget|]. intros [= <- <-].
    apply bool_decide_eq_false in Ek. destruct (Bytes_len _ _ _ _ _ EK1 Hn EB) as [[? _]|[_ HL]]; [done|].
    split; [done|]. simpl. split; [done|]. lia.
Qed.

Lemma List_budget s r s' : in_budget s -> List_ s = (r, s') -> in_budget s' /\ config s' = config s /\ totalRead s' = totalRead s.
Proof.
  intros (HS & HT & HM). unfold List_, lift. destruct (_ <=? _); [by intros [= <- <-]|].
  pose proof (sizes_List (Stream_ s) HS) as HS1. by destruct (Rlp.List_ (Stream_ s)) as [[e|z] s1]; intros [= <- <-].
Qed.

Lemma ListEnd_budget s r s' : in_budget s -> ListEnd s = (r, s') -> in_budget s' /\ config s' = config s /\ totalRead s' = totalRead s.
Proof.
  intros (HS & HT & HM). unfold ListEnd, lift. pose proof (sizes_ListEnd (Stream_ s) HS) as HS1.
  by destruct (Rlp.ListEnd (Stream_ s)) as [[e|[]] s1]; intros [= <- <-].
Qed.

Lemma call_budget s b s' :
  in_budget s -> call s b s' ->
  in_budget s' /\ config s' = config s /\ len b <= totalRead s' - totalRead s + 1.
Proof.
  intros HB H. destruct H as [s r s' E|s r s' E|s b s' E|s e s' E].
  - destruct (List_budget s r s' HB E) as (? & ? & ->). split; [done|]. split; [done|]. change (len []) with 0. lia.
  - destruct (ListEnd_budget s r s' HB E) as (? & ? & ->). split; [done|]. split; [done|]. change (len []) with 0. lia.
  - by destruct (Bytes_budget s _ s' HB E) as (? & ? & _ & ?).
  - destruct (Bytes_budget s _ s' HB E) as (? & ? & ? & _). split; [done|]. split; [done|]. change (len []) with 0. lia.
Qed.

Lemma session_budget s bs s' :
  in_budget s -> session s bs s' ->
  in_budget s' /\ config s' = config s /\ sumZ (map len bs) <= totalRead s' - totalRead s + len bs.
Proof.
  intros HB H. induction H as [s|s b s1 bs s' HC H IH].
  - split; [done|]. split; [done|]. change (len []) with 0. simpl. lia.
  - destruct (call_budget s b s1 HB HC) as (HB1 & HC1 & HL). destruct (IH HB1) as (? & ? & HL').
    split; [done|]. split; [congruence|]. unfold len in *. simpl. lia.
Qed.

(** However its methods are called, a safe stream returns at most [MaxSize]
    bytes in strings, and besides them one byte per call; [TotalRead] stays within
    [MaxSize]. *)
Theorem safe_stream_budget r c bs s :
  0 <= RlpSafe.MaxSize c < 2 ^ 64 -> session (NewSafeStream r c) bs s ->
  0 <= totalRead s <= RlpSafe.MaxSize (RlpSafe.NewSafeDecoder c) /\
  sumZ (map len bs) <= RlpSafe.MaxSize (RlpSafe.NewSafeDecoder c) + len bs.
Proof.
  intros HM H. assert (HB : in_budget (NewSafeStream r c)).
  { split; [by intros HN|]. simpl. destruct (Z.eqb_spec (RlpSafe.MaxSize c) 0); unfold maxRLPSize; lia. }
  destruct (session_budget _ _ _ HB H) as ((_ & HT & _) & HC & HL). rewrite HC in HT. simpl in HT, HL |- *. lia.
Qed.

Lemma safe_stream_budget_witness : exists s,
  session (NewSafeStream [x82; x01; x02; x05] (RlpSafe.mkConfig 2 0 0 true)) [[x01; x02]; [x05]] s /\
  totalRead s <= 2.
Proof.
  assert (exists s, session (NewSafeStream [x82; x01; x02; x05] (RlpSafe.mkConfig 2 0 0 true)) [[x01; x02]; [x05]] s) as [s H].
  { eexists. eapply session_cons; [apply call_Bytes; vm_compute; reflexivity|].
    eapply session_cons; [apply call_Bytes; vm_compute; reflexivity|]. apply session_nil. }
  exists s. split; [exact H|]. apply (safe_stream_budget [x82; x01; x02; x05] (RlpSafe.mkConfig 2 0 0 true) [[x01; x02]; [x05]]); [|exact H].
  split; vm_compute; [discriminate|reflexivity].
Defined.

(** After a [ListEnd] that fails the wrapped stream has left the list and
    [depthStack] has not. *)
Theorem list_end_desync :
  let s := (List_ (NewSafeStream [xc1; x05] RlpSafe.DefaultSafeDecoderConfig)).2 in
  let s' := (ListEnd s).2 in
  (ListEnd s).1 = inl (Errorf "rlp: bytes remaining in list") /\ stack (Stream_ s') = [] /\ depthStack s' = [0].
Proof. by vm_compute. Qed.
End RlpSafeStream.
