(* ===== verification/Memory.v ===== *)
(** * The linear memory (qvm/memory.go)

    The memory is a byte list that [expand] grows in pages of 32 bytes up to
    [MaxMemorySize]. [mem_ok] is its invariant; [mem_at] reads a byte of the
    infinite zero-filled memory a contract sees, and the lemmas state every
    operation by its effect on [mem_at] and on the size. *)

From Stdlib Require Import ZArith Lia.
From Stdlib.Strings Require Import Byte.
From stdpp Require Import base list countable gmap strings numbers.
From S2P Require Import Prelude Stack.

Definition MaxMemorySize : Z := 1024 * 1024 * 32.
Definition MemoryPageSize : Z := 32.

Record Memory : Type := mkMemory { mem_data : list byte }.

Definition NewMemory : Memory := mkMemory [].

Definition Size (m : Memory) : Z := len (mem_data m).

Definition expand (offset size : Z) : M Memory unit := fun m =>
  if size =? 0 then (Ok tt, m) else
  if MaxMemorySize <? offset then (Err ErrMemoryOverflow, m) else
  if MaxMemorySize <? size then (Err ErrMemoryOverflow, m) else
  let end_ := u64 (offset + size) in
  if (end_ <? offset) || (end_ <? size) then (Err ErrMemoryOverflow, m) else
  if MaxMemorySize <? end_ then (Err ErrMemoryOverflow, m) else
  if (end_ <? offset) || (end_ <? size) then (Err ErrMemoryOverflow, m) else
  if Size m <? end_ then
    let pagesNeeded := u64 (end_ + MemoryPageSize - 1) / MemoryPageSize in
    if MaxMemorySize / MemoryPageSize <? pagesNeeded then (Err ErrMemoryOverflow, m) else
    let newSize := u64 (pagesNeeded * MemoryPageSize) in
    let newSize := if MaxMemorySize <? newSize then MaxMemorySize else newSize in
    if newSize <? end_ then (Err ErrMemoryOverflow, m) else
    (Ok tt, mkMemory (copy (zeros newSize) (mem_data m)))
  else (Ok tt, m).

(** [copy(m.data[offset:], data)] *)
Definition write_bytes (offset : Z) (data : list byte) : M Memory unit := fun m =>
  match slice (mem_data m) offset (Size m) with
  | None => (Panic, m)
  | Some _ => (Ok tt, mkMemory (copy_at (mem_data m) offset data))
  end.

(** [m.data[i]] *)
Definition read_byte (i : Z) : M Memory byte := fun m =>
  match (if i <? 0 then None else mem_data m !! Z.to_nat i) with
  | None => (Panic, m)
  | Some b => (Ok b, m)
  end.

(** [m.data[i] = v] *)
Definition write_byte (i : Z) (v : byte) : M Memory unit := fun m =>
  if (0 <=? i) && (i <? Size m)
  then (Ok tt, mkMemory (<[Z.to_nat i := v]> (mem_data m)))
  else (Panic, m).

Definition Set_ (offset : Z) (data : list byte) : M Memory unit :=
  if len data =? 0 then mret tt else
  expand offset (len data);;
  write_bytes offset data.

Definition SetByte (offset : Z) (value : byte) : M Memory unit :=
  expand offset 1;;
  write_byte offset value.

Definition Set32 (offset : Z) (value : Word) : M Memory unit :=
  Set_ offset (bytes_of value).

(** The bodies of [Get], [GetPtr] and [GetPtrCopy] are the same. *)
Definition Get (offset size : Z) : M Memory (list byte) :=
  if size =? 0 then mret [] else
  expand offset size;;
  d ← gets mem_data;
  part ← or_panic (slice d offset (u64 (offset + size)));
  mret (copy (zeros size) part).

Definition GetPtr (offset size : Z) : M Memory (list byte) := Get offset size.

Definition GetPtrCopy (offset size : Z) : M Memory (list byte) := Get offset size.

Definition GetByte (offset : Z) : M Memory byte :=
  expand offset 1;;
  read_byte offset.

Definition Get32 (offset : Z) : M Memory Word :=
  data ← Get offset 32;
  mret (NewWord data).

Definition Copy (destOffset srcOffset size : Z) : M Memory unit :=
  if size =? 0 then mret tt else
  guard_err (u64 (destOffset + size) <? destOffset) ErrMemoryOverflow;;
  guard_err (u64 (srcOffset + size) <? srcOffset) ErrMemoryOverflow;;
  let maxOffset := u64 (destOffset + size) in
  let maxOffset := if maxOffset <? u64 (srcOffset + size)
                   then u64 (srcOffset + size) else maxOffset in
  expand 0 maxOffset;;
  d ← gets mem_data;
  dst ← or_panic (slice d destOffset (u64 (destOffset + size)));
  src ← or_panic (slice d srcOffset (u64 (srcOffset + size)));
  modify (fun m => mkMemory (copy_at d destOffset (take (length dst) src))).

Definition Clear (m : Memory) : Memory := mkMemory [].

(** The loop [for i := offset; i < end; i++ { m.data[i] = 0 }]. *)
Fixpoint zero_loop (n : nat) (i : Z) : M Memory unit :=
  match n with
  | O => mret tt
  | S n' => write_byte i x00;; zero_loop n' (i + 1)
  end.

Definition ZeroRange (offset size : Z) : M Memory unit :=
  if size =? 0 then mret tt else
  let end_ := u64 (offset + size) in
  guard_err ((end_ <? offset) || (end_ <? size)) ErrMemoryOverflow;;
  expand offset size;;
  zero_loop (Z.to_nat (end_ - offset)) offset.

Definition Clone (m : Memory) : Memory := mkMemory (copy (zeros (Size m)) (mem_data m)).

Definition Data (m : Memory) : list byte := copy (zeros (Size m)) (mem_data m).

Definition MemoryCost (size : Z) : Z :=
  if size =? 0 then 0 else
  if MaxMemorySize <? size then MaxUint64 else
  if MaxUint64 - 31 <? size then MaxUint64 else
  let words := u64 (size + 31) / 32 in
  let linear := u64 (words * 3) in
  if 2 ^ 32 <? words then MaxUint64 else
  let quadratic := u64 (words * words) / 512 in
  if u64 (MaxUint64 - quadratic) <? linear then MaxUint64 else
  u64 (linear + quadratic).

Definition MemoryExpansionCost (currentSize newSize : Z) : Z :=
  if newSize <=? currentSize then 0 else
  let newCost := MemoryCost newSize in
  let currentCost := MemoryCost currentSize in
  if (newCost =? MaxUint64) || (currentCost =? MaxUint64) then MaxUint64 else
  if newCost <? currentCost then MaxUint64 else
  u64 (newCost - currentCost).

(** ** Invariant and abstract view *)

Definition mem_ok (m : Memory) : Prop := Size m <= MaxMemorySize /\ Size m mod 32 = 0.

(** The byte a contract reads at [i]: zero beyond the allocated size. *)
Definition mem_at (m : Memory) (i : Z) : byte := nth (Z.to_nat i) (mem_data m) x00.

(** The size of a memory of size [s] once the range is covered. *)
Definition grown (s offset size : Z) : Z :=
  if size =? 0 then s else Z.max s ((offset + size + 31) / 32 * 32).

(** A range that fits the address space of the memory. *)
Definition in_range (offset size : Z) : bool :=
  (size =? 0) || (offset + size <=? MaxMemorySize).

(** [m] covers the range. *)
Definition covers (m : Memory) (offset size : Z) : Prop :=
  size = 0 \/ offset + size <= Size m.

Definition same_bytes (m m' : Memory) : Prop := forall i, 0 <= i -> mem_at m' i = mem_at m i.

(** The bytes of the range, as a contract reads them. *)
Definition read (m : Memory) (offset size : Z) : list byte :=
  (fun i => mem_at m (offset + i)) <$> seqZ 0 size.

(** The memory extended with zeros to cover the range. *)
Definition grow (m : Memory) (offset size : Z) : Memory :=
  mkMemory (mem_data m ++ zeros (grown (Size m) offset size - Size m)).

(** The memory with [data] written over the range that starts at [offset]. *)
Definition overwrite (m : Memory) (offset : Z) (data : list byte) : Memory :=
  mkMemory (copy_at (mem_data m) offset data).

(** ** Lemmas *)

Lemma Size_nonneg m : 0 <= Size m.
Proof. apply len_nonneg. Qed.

#[export] Hint Resolve Size_nonneg : qvm.

Lemma grown_ge s offset size : s <= grown s offset size.
Proof. unfold grown. case_match; lia. Qed.

Lemma Size_grow m offset size : Size (grow m offset size) = grown (Size m) offset size.
Proof.
  unfold Size at 1, grow. simpl. pose proof (grown_ge (Size m) offset size).
  rewrite len_app, len_zeros by lia. unfold Size in *. lia.
Qed.

Lemma nth_app_zeros l n i : nth i (l ++ replicate n x00) x00 = nth i l x00.
Proof.
  destruct (decide (i < length l)%nat).
  - by rewrite app_nth1.
  - rewrite app_nth2, (nth_overflow l) by lia. rewrite nth_lookup.
    destruct (replicate n x00 !! _) eqn:E; [|done].
    by apply lookup_replicate in E as [-> _].
Qed.

Lemma mem_at_grow m offset size i : mem_at (grow m offset size) i = mem_at m i.
Proof. apply nth_app_zeros. Qed.

Lemma grow_zero m offset : grow m offset 0 = m.
Proof. unfold grow, grown. simpl. rewrite Z.sub_diag. destruct m. simpl. f_equal. apply app_nil_r. Qed.

Lemma grow_covers m offset size : 0 <= size -> covers (grow m offset size) offset size.
Proof.
  intros H. unfold covers. rewrite Size_grow. unfold grown.
  destruct (Z.eqb_spec size 0); [by left|right]. zlia.
Qed.

Lemma grow_covered m offset size :
  mem_ok m -> covers m offset size -> grow m offset size = m.
Proof.
  intros [_ H32] Hc. unfold grow.
  replace (grown (Size m) offset size - Size m) with 0.
  - destruct m. simpl. f_equal. apply app_nil_r.
  - unfold grown. destruct (Z.eqb_spec size 0); [lia|]. destruct Hc; zlia.
Qed.

Lemma mem_ok_grow m offset size :
  mem_ok m -> 0 <= size -> in_range offset size = true -> mem_ok (grow m offset size).
Proof.
  unfold mem_ok, in_range. rewrite Size_grow. unfold grown, MaxMemorySize.
  intros [H1 H2] Hs H. destruct (Z.eqb_spec size 0); [done|]. simpl in H.
  apply Z.leb_le in H. zlia.
Qed.

Lemma copy_zeros_ge (l : list byte) n :
  len l <= n -> copy (zeros n) l = l ++ zeros (n - len l).
Proof.
  unfold copy, zeros, len. intros H. rewrite length_replicate, take_ge by lia.
  rewrite drop_replicate. f_equal. f_equal. lia.
Qed.

Lemma expand_eq m offset size :
  mem_ok m -> 0 <= offset -> 0 <= size ->
  expand offset size m =
  if in_range offset size then (Ok tt, grow m offset size) else (Err ErrMemoryOverflow, m).
Proof.
  intros Hok Ho Hs. unfold expand, in_range.
  destruct (Z.eqb_spec size 0) as [->|Hnz]; [by rewrite grow_zero|]. simpl.
  destruct (Z.leb_spec (offset + size) MaxMemorySize) as [Hle|Hgt].
  - assert (E : u64 (offset + size) = offset + size)
      by (apply u64_small; unfold is_u64, MaxMemorySize in *; lia).
    rewrite E, !(proj2 (Z.ltb_ge _ _)) by lia. simpl.
    destruct (Z.ltb_spec (Size m) (offset + size)) as [Hlt|Hge].
    + set (p := u64 _ / MemoryPageSize).
      assert (Ep : p = (offset + size + 31) / 32).
      { unfold p, MemoryPageSize. rewrite u64_small; [f_equal; lia|].
        unfold is_u64, MaxMemorySize in *. lia. }
      rewrite Ep. unfold MemoryPageSize, MaxMemorySize in *.
      rewrite (u64_small (_ * 32)) by (unfold is_u64; zlia).
      unfold grow, grown. zcases.
      rewrite Z.max_r by zlia. do 2 f_equal. unfold Size in *. apply copy_zeros_ge. zlia.
    + rewrite grow_covered by (try done; right; lia). done.
  - destruct (Z.ltb_spec MaxMemorySize offset); [done|].
    destruct (Z.ltb_spec MaxMemorySize size); [done|].
    rewrite u64_small by (unfold is_u64, MaxMemorySize in *; lia).
    rewrite !(proj2 (Z.ltb_ge _ _)) by lia. simpl.
    by rewrite (proj2 (Z.ltb_lt _ _)) by lia.
Qed.

Lemma nth_copy_at (l : list byte) (off : Z) src (i : Z) :
  0 <= off -> off + len src <= len l -> 0 <= i ->
  nth (Z.to_nat i) (copy_at l off src) x00 =
  if (off <=? i) && (i <? off + len src) then nth (Z.to_nat (i - off)) src x00
  else nth (Z.to_nat i) l x00.
Proof.
  unfold len. intros Ho Hl Hi. unfold copy_at, copy.
  rewrite (take_ge src) by (rewrite length_drop; lia). rewrite drop_drop.
  assert (Lt : length (take (Z.to_nat off) l) = Z.to_nat off) by (rewrite length_take; lia).
  destruct (Z.leb_spec off i); simpl.
  - rewrite app_nth2 by lia. rewrite Lt.
    destruct (Z.ltb_spec i (off + Z.of_nat (length src))).
    + rewrite app_nth1 by lia. f_equal. lia.
    + rewrite app_nth2 by lia. rewrite !nth_lookup, lookup_drop. f_equal. f_equal. lia.
  - rewrite app_nth1 by lia. rewrite !nth_lookup, lookup_take_lt by lia. done.
Qed.

Lemma mem_at_overwrite m offset data i :
  0 <= offset -> covers m offset (len data) -> 0 <= i ->
  mem_at (overwrite m offset data) i =
  if (offset <=? i) && (i <? offset + len data) then nth (Z.to_nat (i - offset)) data x00
  else mem_at m i.
Proof.
  intros Ho Hc Hi. unfold mem_at, overwrite. simpl.
  destruct Hc as [Hz|Hc]; [|by apply nth_copy_at].
  rewrite Hz. destruct data; [|unfold len in Hz; simpl in Hz; lia].
  destruct (Z.leb_spec offset i), (Z.ltb_spec i (offset + 0)); try lia; simpl;
  by rewrite copy_at_nil.
Qed.

Lemma Size_overwrite m offset data :
  0 <= offset <= Size m -> Size (overwrite m offset data) = Size m.
Proof. intros. apply len_copy_at. done. Qed.

Lemma mem_ok_overwrite m offset data :
  0 <= offset <= Size m -> mem_ok m -> mem_ok (overwrite m offset data).
Proof. intros H. unfold mem_ok. by rewrite Size_overwrite. Qed.

Lemma mem_at_beyond m i : Size m <= i -> mem_at m i = x00.
Proof. unfold Size, len, mem_at. intros. apply nth_overflow. lia. Qed.

Lemma in_range_grow m offset size :
  in_range offset size = true -> 0 <= offset -> 0 <= size -> size <> 0 ->
  offset <= Size (grow m offset size) /\ offset + size <= Size (grow m offset size)
  /\ u64 (offset + size) = offset + size.
Proof.
  unfold in_range. intros H Ho Hs Hn. destruct (Z.eqb_spec size 0); [lia|].
  simpl in H. apply Z.leb_le in H.
  destruct (grow_covers m offset size Hs) as [?|Hc]; [lia|].
  repeat split; [lia|lia|]. apply u64_small. unfold is_u64, MaxMemorySize in *. lia.
Qed.

(** [Set] writes the data over the zero-extended memory, or fails and leaves
    the memory as it was. *)
Lemma Set_eq m offset data :
  mem_ok m -> 0 <= offset ->
  Set_ offset data m =
  if in_range offset (len data)
  then (Ok tt, overwrite (grow m offset (len data)) offset data)
  else (Err ErrMemoryOverflow, m).
Proof.
  intros Hok Ho. pose proof (len_nonneg data) as Hl. unfold Set_.
  destruct (Z.eqb_spec (len data) 0) as [Hz|Hn].
  - rewrite Hz, grow_zero. destruct data; [|unfold len in Hz; simpl in Hz; lia].
    unfold overwrite. rewrite copy_at_nil. by destruct m.
  - unfold mbind, M_bind. rewrite expand_eq by done.
    destruct (in_range offset (len data)) eqn:E; [|done].
    destruct (in_range_grow m offset (len data) E Ho Hl Hn) as (H1 & H2 & _).
    unfold write_bytes. rewrite slice_Some by (unfold Size in *; lia). done.
Qed.

Lemma SetByte_eq m offset v :
  mem_ok m -> 0 <= offset ->
  SetByte offset v m =
  if in_range offset 1 then (Ok tt, overwrite (grow m offset 1) offset [v])
  else (Err ErrMemoryOverflow, m).
Proof.
  intros Hok Ho. unfold SetByte, mbind, M_bind. rewrite expand_eq by (done || lia).
  destruct (in_range offset 1) eqn:E; [|done].
  destruct (in_range_grow m offset 1 E Ho) as (H1 & H2 & _); [lia|lia|].
  unfold write_byte. rewrite (proj2 (Z.leb_le _ _)), (proj2 (Z.ltb_lt _ _)) by lia.
  cbn [andb]. f_equal. unfold overwrite. f_equal. unfold copy_at, copy, Size, len in *.
  set (d := mem_data (grow m offset 1)) in *. clearbody d.
  destruct (drop (Z.to_nat offset) d) as [|b k] eqn:D.
  { apply (f_equal length) in D. rewrite length_drop in D. simpl in D. lia. }
  simpl. rewrite drop_0, take_nil. simpl.
  rewrite <- (take_drop (Z.to_nat offset) d) at 1.
  rewrite D, insert_app_r_alt by (rewrite length_take; lia).
  rewrite length_take, Nat.min_l, Nat.sub_diag by lia. done.
Qed.

Lemma sub_read m offset size :
  0 <= offset -> 0 <= size -> offset + size <= Size m ->
  sub (mem_data m) offset (offset + size) = read m offset size.
Proof.
  intros Ho Hs Hc. unfold Size, len in Hc. apply (list_eq_same_length _ _ (Z.to_nat size)).
  - unfold read. rewrite length_fmap, length_seqZ. done.
  - unfold sub. rewrite length_take, length_drop. lia.
  - intros i x y Hi Hx Hy. unfold sub in Hx. unfold read in Hy.
    rewrite lookup_take_lt, lookup_drop in Hx by lia.
    rewrite list_lookup_fmap, lookup_seqZ_lt in Hy by lia. simpl in Hy.
    injection Hy as <-. unfold mem_at. rewrite nth_lookup.
    replace (Z.to_nat (offset + (0 + Z.of_nat i))) with (Z.to_nat offset + i)%nat by lia.
    by rewrite Hx.
Qed.

Lemma read_grow m o s offset size : read (grow m o s) offset size = read m offset size.
Proof. unfold read. apply list_fmap_ext. intros. apply mem_at_grow. Qed.

Lemma len_read m offset size : 0 <= size -> len (read m offset size) = size.
Proof. intros. unfold len, read. rewrite length_fmap, length_seqZ. lia. Qed.

Lemma copy_zeros_exact (l : list byte) n : len l = n -> copy (zeros n) l = l.
Proof.
  intros H. rewrite copy_zeros_ge by lia. rewrite H, Z.sub_diag. apply app_nil_r.
Qed.

(** [Get] reads the bytes the contract sees, zeros beyond the size included,
    and grows the memory over the range it reads. *)
Lemma Get_eq m offset size :
  mem_ok m -> 0 <= offset -> 0 <= size ->
  Get offset size m =
  if in_range offset size then (Ok (read m offset size), grow m offset size)
  else (Err ErrMemoryOverflow, m).
Proof.
  intros Hok Ho Hs. unfold Get.
  destruct (Z.eqb_spec size 0) as [->|Hn]; [by rewrite grow_zero|].
  pose proof (expand_eq m offset size Hok Ho Hs) as X.
  destruct (in_range offset size) eqn:E; [|by erewrite bind_Err].
  destruct (in_range_grow m offset size E Ho Hs Hn) as (H1 & H2 & H3).
  erewrite bind_Ok by exact X. rewrite bind_gets.
  rewrite H3, slice_Some by (unfold Size in *; lia).
  unfold or_panic. rewrite bind_ret, sub_read, read_grow by lia.
  rewrite copy_zeros_exact by (apply len_read; lia). done.
Qed.

Lemma Get32_eq m offset :
  mem_ok m -> 0 <= offset ->
  Get32 offset m =
  if in_range offset 32 then (Ok (NewWord (read m offset 32)), grow m offset 32)
  else (Err ErrMemoryOverflow, m).
Proof.
  intros Hok Ho. unfold Get32.
  pose proof (Get_eq m offset 32 Hok Ho ltac:(lia)) as X.
  destruct (in_range offset 32); [by erewrite bind_Ok|by erewrite bind_Err].
Qed.

Lemma read_nonempty_in m offset size i :
  0 <= i < size -> nth (Z.to_nat i) (read m offset size) x00 = mem_at m (offset + i).
Proof.
  intros Hi. unfold read. rewrite nth_lookup, list_lookup_fmap, lookup_seqZ_lt by lia.
  simpl. f_equal. lia.
Qed.

(** Reading the range just written gives the data back. *)
Lemma read_overwrite_same m offset data :
  0 <= offset -> covers m offset (len data) ->
  read (overwrite m offset data) offset (len data) = data.
Proof.
  intros Ho Hc. apply (list_eq_same_length _ _ (length data)); [done| |].
  - unfold read. rewrite length_fmap, length_seqZ. unfold len. lia.
  - intros i x y Hi Hx Hy. unfold read in Hx.
    rewrite list_lookup_fmap, lookup_seqZ_lt in Hx by (unfold len; lia).
    simpl in Hx. injection Hx as <-.
    rewrite mem_at_overwrite by (done || lia).
    unfold len. rewrite (proj2 (Z.leb_le _ _)), (proj2 (Z.ltb_lt _ _)) by lia. simpl.
    replace (Z.to_nat _) with i by lia. by rewrite nth_lookup, Hy.
Qed.

(** Reading a range apart from the one written gives the old bytes. *)
Lemma read_overwrite_disjoint m offset data o s :
  0 <= offset -> 0 <= o -> covers m offset (len data) ->
  o + s <= offset \/ offset + len data <= o ->
  read (overwrite m offset data) o s = read m o s.
Proof.
  intros Ho Hoo Hc Hd. unfold read. apply list_fmap_ext. intros i x Hx.
  apply lookup_seqZ in Hx as [-> Hi].
  rewrite mem_at_overwrite by (done || lia). zcases; done.
Qed.

Lemma zero_loop_eq n i m :
  0 <= i -> i + Z.of_nat n <= Size m ->
  exists m', zero_loop n i m = (Ok tt, m') /\ Size m' = Size m /\
    forall j, 0 <= j ->
      mem_at m' j = if (i <=? j) && (j <? i + Z.of_nat n) then x00 else mem_at m j.
Proof.
  revert i m. induction n as [|n IH]; intros i m Hi Hs.
  - exists m. repeat split. intros j Hj. zcases; done.
  - cbn [zero_loop]. unfold mbind, M_bind, write_byte.
    rewrite (proj2 (Z.leb_le _ _)), (proj2 (Z.ltb_lt _ _)) by lia. simpl andb. cbv iota.
    set (m1 := mkMemory _).
    assert (S1 : Size m1 = Size m) by (unfold Size, len, m1; simpl; by rewrite length_insert).
    destruct (IH (i + 1) m1) as (m' & E & ES & EB); [lia|lia|].
    exists m'. split; [done|]. split; [congruence|]. intros j Hj. rewrite EB by done.
    assert (M1 : mem_at m1 j = if j =? i then x00 else mem_at m j).
    { unfold mem_at, m1. simpl. rewrite !nth_lookup. unfold Size, len in *.
      destruct (Z.eqb_spec j i) as [->|].
      - by rewrite list_lookup_insert_eq by lia.
      - by rewrite list_lookup_insert_ne by lia. }
    rewrite M1. zcases; done.
Qed.

Lemma u64_add_no_wrap a b : 0 <= a -> 0 <= b -> a + b < 2 ^ 64 -> u64 (a + b) = a + b.
Proof. intros. apply u64_small. unfold is_u64. lia. Qed.

Lemma u64_add_wrap a b : is_u64 a -> is_u64 b -> 2 ^ 64 <= a + b -> u64 (a + b) < a.
Proof. unfold is_u64, u64. intros. zlia. Qed.

(** The memory covering both ranges of a copy. *)
Definition grow_both (m : Memory) (dest src size : Z) : Memory :=
  grow m 0 (Z.max dest src + size).

(** [Copy] moves the bytes of the source range as they were before the call,
    for overlapping ranges too. *)
Lemma Copy_eq m dest src size :
  mem_ok m -> is_u64 dest -> is_u64 src -> is_u64 size -> size <> 0 ->
  Copy dest src size m =
  if in_range (Z.max dest src) size
  then (Ok tt, overwrite (grow_both m dest src size) dest (read m src size))
  else (Err ErrMemoryOverflow, m).
Proof.
  intros Hok Hd Hs Hz Hn. unfold Copy. destruct (Z.eqb_spec size 0); [done|].
  rewrite bind_guard. unfold is_u64 in *.
  destruct (Z.lt_ge_cases (dest + size) (2 ^ 64)) as [Wd|Wd].
  2:{ pose proof (u64_add_wrap dest size Hd Hz Wd).
      rewrite (proj2 (Z.ltb_lt _ _)) by lia. unfold in_range, MaxMemorySize. zcases; done. }
  rewrite (u64_add_no_wrap dest size) by lia.
  rewrite (proj2 (Z.ltb_ge (dest + size) dest)) by lia. rewrite bind_guard.
  destruct (Z.lt_ge_cases (src + size) (2 ^ 64)) as [Ws|Ws].
  2:{ pose proof (u64_add_wrap src size Hs Hz Ws).
      rewrite (proj2 (Z.ltb_lt _ _)) by lia. unfold in_range, MaxMemorySize. zcases; done. }
  rewrite (u64_add_no_wrap src size) by lia.
  rewrite (proj2 (Z.ltb_ge (src + size) src)) by lia. cbv zeta.
  replace (if dest + size <? src + size then src + size else dest + size)
    with (Z.max dest src + size) by (zcases; lia).
  pose proof (expand_eq m 0 (Z.max dest src + size) Hok ltac:(lia) ltac:(lia)) as X.
  assert (R : in_range 0 (Z.max dest src + size) = in_range (Z.max dest src) size)
    by (unfold in_range; zcases; done).
  rewrite R in X. destruct (in_range (Z.max dest src) size); [|by erewrite bind_Err].
  erewrite bind_Ok by exact X. rewrite bind_gets.
  destruct (grow_covers m 0 (Z.max dest src + size)) as [?|Hc]; [lia|lia|].
  fold (grow_both m dest src size) in *.
  rewrite !slice_Some by (unfold Size in *; lia). unfold or_panic. rewrite !bind_ret.
  rewrite sub_read by lia. rewrite (sub_read _ src) by lia.
  unfold grow_both at 1 2 3. rewrite !read_grow. fold (grow_both m dest src size).
  rewrite take_ge; [done|]. pose proof (len_read m src size ltac:(lia)).
  pose proof (len_read m dest size ltac:(lia)). unfold len in *. lia.
Qed.

(** ** Gas of memory growth *)

(** The price of a memory of [w] words. *)
Definition word_cost (w : Z) : Z := 3 * w + w * w / 512.

Definition words_of (size : Z) : Z := (size + 31) / 32.

Lemma MemoryCost_eq size :
  0 <= size <= MaxMemorySize -> MemoryCost size = word_cost (words_of size).
Proof.
  unfold MemoryCost, word_cost, words_of, MaxUint64, MaxMemorySize. intros H.
  destruct (Z.eqb_spec size 0) as [->|]; [done|].
  rewrite (u64_small (size + 31)) by (unfold is_u64; lia).
  set (w := (size + 31) / 32). assert (0 <= w <= 1048576) by (unfold w; zlia).
  assert (0 <= w * w <= 1048576 * 1048576) by nia.
  rewrite (u64_small (w * 3)), (u64_small (w * w)) by (unfold is_u64; lia).
  rewrite (u64_small (_ - _)), (u64_small (_ + _)) by (unfold is_u64; zlia).
  zcases; lia.
Qed.

Lemma MemoryCost_over size : MaxMemorySize < size -> MemoryCost size = MaxUint64.
Proof. unfold MemoryCost, MaxMemorySize. intros. zcases; done. Qed.

Lemma word_cost_mono a b : 0 <= a <= b -> word_cost a <= word_cost b.
Proof.
  unfold word_cost. intros. assert (a * a <= b * b) by nia.
  pose proof (Z.div_le_mono (a * a) (b * b) 512). lia.
Qed.

Lemma MemoryCost_mono a b : 0 <= a <= b -> b <= MaxMemorySize -> MemoryCost a <= MemoryCost b.
Proof.
  intros. rewrite !MemoryCost_eq by lia. apply word_cost_mono. unfold words_of. zlia.
Qed.

Lemma MemoryCost_bound size :
  0 <= size <= MaxMemorySize -> 0 <= MemoryCost size <= 2150629376.
Proof.
  intros H. rewrite MemoryCost_eq by done. split.
  - unfold word_cost, words_of. assert (0 <= (size + 31) / 32) by zlia. 
    assert (0 <= (size + 31) / 32 * ((size + 31) / 32)) by nia. zlia.
  - transitivity (word_cost 1048576); [|done]. apply word_cost_mono.
    unfold words_of, MaxMemorySize in *. zlia.
Qed.

Lemma MemoryExpansionCost_eq a b :
  0 <= a <= b -> b <= MaxMemorySize ->
  MemoryExpansionCost a b = MemoryCost b - MemoryCost a.
Proof.
  intros. unfold MemoryExpansionCost.
  pose proof (MemoryCost_bound a ltac:(lia)). pose proof (MemoryCost_bound b ltac:(lia)).
  pose proof (MemoryCost_mono a b ltac:(lia) ltac:(lia)).
  rewrite u64_small by (unfold is_u64; lia). unfold MaxUint64. zcases; try lia.
  replace b with a by lia. lia.
Qed.

Lemma MemoryExpansionCost_over a b :
  0 <= a -> MaxMemorySize < b -> a < b -> MemoryExpansionCost a b = MaxUint64.
Proof.
  intros. unfold MemoryExpansionCost. rewrite MemoryCost_over by lia.
  rewrite Z.eqb_refl. zcases; done.
Qed.

Lemma MemoryExpansionCost_u64 a b : 0 <= a -> is_u64 (MemoryExpansionCost a b).
Proof.
  intros. unfold MemoryExpansionCost, MaxUint64.
  repeat case_match; unfold is_u64; try lia. apply u64_range.
Qed.

(** ** The specification of the memory *)

(** A contract sees an infinite zero-filled byte array and an active size. *)
Record MemSpec : Type := mkMemSpec { ms_byte : Z -> byte; ms_size : Z }.

Definition repr (m : Memory) (a : MemSpec) : Prop :=
  mem_ok m /\ Size m = ms_size a /\ forall i, 0 <= i -> mem_at m i = ms_byte a i.

Inductive MemOp : Type :=
  | MSet (offset : Z) (data : list byte)
  | MSetByte (offset : Z) (v : byte)
  | MGet (offset size : Z)
  | MGet32 (offset : Z)
  | MCopy (dest src size : Z)
  | MZero (offset size : Z).

Definition mem_op (o : MemOp) : M Memory (list byte) :=
  match o with
  | MSet offset data => Set_ offset data;; mret []
  | MSetByte offset v => SetByte offset v;; mret []
  | MGet offset size => Get offset size
  | MGet32 offset => w ← Get32 offset; mret (bytes_of w)
  | MCopy dest src size => Copy dest src size;; mret []
  | MZero offset size => ZeroRange offset size;; mret []
  end.

(** The operands of an operation are [uint64] values. *)
Definition mem_op_u64 (o : MemOp) : Prop :=
  match o with
  | MSet a _ | MSetByte a _ | MGet32 a => is_u64 a
  | MGet a b | MZero a b => is_u64 a /\ is_u64 b
  | MCopy a b c => is_u64 a /\ is_u64 b /\ is_u64 c
  end.

(** Writing [size] bytes given by [v] at [offset]. *)
Definition spec_write (offset size : Z) (v : Z -> byte) (a : MemSpec) : MemSpec :=
  mkMemSpec (fun i => if (offset <=? i) && (i <? offset + size) then v (i - offset) else ms_byte a i)
            (grown (ms_size a) offset size).

Definition spec_read (offset size : Z) (a : MemSpec) : list byte :=
  (fun i => ms_byte a (offset + i)) <$> seqZ 0 size.

Definition mem_spec (o : MemOp) (a : MemSpec) : res (list byte) * MemSpec :=
  match o with
  | MSet offset data =>
      if in_range offset (len data)
      then (Ok [], spec_write offset (len data) (fun i => nth (Z.to_nat i) data x00) a)
      else (Err ErrMemoryOverflow, a)
  | MSetByte offset v =>
      if in_range offset 1 then (Ok [], spec_write offset 1 (fun _ => v) a)
      else (Err ErrMemoryOverflow, a)
  | MGet offset size =>
      if in_range offset size
      then (Ok (spec_read offset size a), mkMemSpec (ms_byte a) (grown (ms_size a) offset size))
      else (Err ErrMemoryOverflow, a)
  | MGet32 offset =>
      if in_range offset 32
      then (Ok (spec_read offset 32 a), mkMemSpec (ms_byte a) (grown (ms_size a) offset 32))
      else (Err ErrMemoryOverflow, a)
  | MCopy dest src size =>
      if in_range (Z.max dest src) size then
        (Ok [], mkMemSpec (ms_byte (spec_write dest size (fun i => ms_byte a (src + i)) a))
                          (grown (ms_size a) (Z.max dest src) size))
      else (Err ErrMemoryOverflow, a)
  | MZero offset size =>
      if in_range offset size then (Ok [], spec_write offset size (fun _ => x00) a)
      else (Err ErrMemoryOverflow, a)
  end.

Lemma repr_grow m a offset size :
  repr m a -> 0 <= size -> in_range offset size = true ->
  repr (grow m offset size) (mkMemSpec (ms_byte a) (grown (ms_size a) offset size)).
Proof.
  intros (Hok & Hs & Hb) Hz Hr. split; [by apply mem_ok_grow|]. split.
  - rewrite Size_grow. simpl. by rewrite Hs.
  - intros i Hi. rewrite mem_at_grow. by apply Hb.
Qed.

Lemma repr_write m a offset data v :
  repr m a -> 0 <= offset -> in_range offset (len data) = true ->
  (forall i, 0 <= i < len data -> nth (Z.to_nat i) data x00 = v i) ->
  repr (overwrite (grow m offset (len data)) offset data) (spec_write offset (len data) v a).
Proof.
  intros Hr Ho Hin Hv. pose proof (len_nonneg data) as Hl.
  destruct (repr_grow m a offset (len data) Hr Hl Hin) as (Hok & Hs & Hb).
  simpl in Hs, Hb. set (m1 := grow m offset (len data)) in *.
  destruct (Z.eq_dec (len data) 0) as [Hz|Hn].
  { destruct data; [|unfold len in Hz; simpl in Hz; lia]. unfold overwrite.
    rewrite copy_at_nil. split; [by destruct m1|]. split; [by destruct m1|].
    intros i Hi. simpl. change (len (@nil byte)) with 0.
    rewrite Hb by done. zcases; done. }
  destruct (in_range_grow m offset (len data) Hin Ho Hl Hn) as (H1 & H2 & _). fold m1 in H1, H2.
  split; [apply mem_ok_overwrite; (done || lia)|].
  split; [rewrite Size_overwrite by lia; done|].
  intros i Hi. rewrite mem_at_overwrite by (try done; by right). simpl.
  destruct (_ && _) eqn:E; [|by apply Hb].
  apply andb_true_iff in E. rewrite Z.leb_le, Z.ltb_lt in E. apply Hv. lia.
Qed.

Lemma read_repr m a offset size :
  repr m a -> 0 <= offset -> read m offset size = spec_read offset size a.
Proof.
  intros (_ & _ & Hb) Ho. apply list_fmap_ext. intros i x Hx.
  apply lookup_seqZ in Hx as [-> ?]. apply Hb. lia.
Qed.

(** What refinement means for one operation. *)
Definition refines (m : Memory) (o : MemOp) (a : MemSpec) : Prop :=
  (mem_op o m).1 = (mem_spec o a).1 /\ repr (mem_op o m).2 (mem_spec o a).2.

Lemma refines_set m a offset data :
  repr m a -> is_u64 offset -> refines m (MSet offset data) a.
Proof.
  intros Hr [Ho _]. unfold refines. simpl.
  pose proof (Set_eq m offset data (proj1 Hr) Ho) as E.
  destruct (in_range _ _) eqn:R; [erewrite bind_Ok | erewrite bind_Err]; try exact E; [|done].
  split; [done|]. by apply repr_write.
Qed.

Lemma refines_set_byte m a offset v :
  repr m a -> is_u64 offset -> refines m (MSetByte offset v) a.
Proof.
  intros Hr [Ho _]. unfold refines. simpl.
  pose proof (SetByte_eq m offset v (proj1 Hr) Ho) as E.
  destruct (in_range _ _) eqn:R; [erewrite bind_Ok | erewrite bind_Err]; try exact E; [|done].
  split; [done|]. change 1 with (len [v]). apply repr_write; try done.
  intros i Hi. by replace i with 0 by (unfold len in Hi; simpl in Hi; lia).
Qed.

Lemma refines_get m a offset size :
  repr m a -> is_u64 offset -> is_u64 size -> refines m (MGet offset size) a.
Proof.
  intros Hr [Ho _] [Hs _]. unfold refines. simpl.
  rewrite (Get_eq m offset size (proj1 Hr) Ho Hs).
  destruct (in_range _ _) eqn:R; [|done].
  split; [by rewrite (read_repr m a)|]. by apply repr_grow.
Qed.

Lemma bytes_NewWord l : length l = 32%nat -> bytes_of (NewWord l) = l.
Proof.
  intros H. apply be_inj; [rewrite length_bytes_of; done|].
  pose proof (wz_NewWord l) as E. unfold array_to_Z in E. rewrite E.
  apply Z.mod_small. pose proof (be_range l) as R. by rewrite H in R.
Qed.

Lemma refines_get32 m a offset :
  repr m a -> is_u64 offset -> refines m (MGet32 offset) a.
Proof.
  intros Hr [Ho _]. unfold refines. simpl.
  pose proof (Get32_eq m offset (proj1 Hr) Ho) as E.
  destruct (in_range _ _) eqn:R; [erewrite bind_Ok | erewrite bind_Err]; try exact E; [|done].
  split; [|by apply repr_grow]. cbn [mret M_ret fst]. f_equal.
  rewrite bytes_NewWord; [by apply read_repr|].
  pose proof (len_read m offset 32 ltac:(lia)). unfold len in *. lia.
Qed.

Lemma refines_copy m a dest src size :
  repr m a -> is_u64 dest -> is_u64 src -> is_u64 size -> refines m (MCopy dest src size) a.
Proof.
  intros Hr Hd Hs Hz. unfold refines. simpl.
  destruct (Z.eq_dec size 0) as [->|Hn].
  { unfold Copy. simpl. split; [done|]. destruct Hr as (H1 & H2 & H3).
    split; [done|]. split; [done|]. intros i Hi. simpl. rewrite H3 by done. zcases; done. }
  pose proof (Copy_eq m dest src size (proj1 Hr) Hd Hs Hz Hn) as E.
  destruct (in_range _ _) eqn:R; [erewrite bind_Ok | erewrite bind_Err]; try exact E; [|done].
  split; [done|]. unfold is_u64 in *.
  assert (G : in_range 0 (Z.max dest src + size) = true)
    by (unfold in_range in *; revert R; zcases; done).
  pose proof (repr_grow m a 0 (Z.max dest src + size) Hr ltac:(lia) G) as (G1 & G2 & G3).
  fold (grow_both m dest src size) in *. simpl in G2, G3.
  assert (C : Z.max dest src + size <= Size (grow_both m dest src size)).
  { rewrite G2. unfold grown. zcases. zlia. }
  pose proof (len_read m src size ltac:(lia)) as L.
  split; [apply mem_ok_overwrite; (done || lia)|]. simpl. split.
  - rewrite Size_overwrite, G2 by lia. unfold grown. zcases. by rewrite Z.add_0_l.
  - intros i Hi. rewrite mem_at_overwrite by (rewrite ?L; (lia || by right; lia)). rewrite L.
    destruct (_ && _) eqn:B; [|by apply G3].
    apply andb_true_iff in B. rewrite Z.leb_le, Z.ltb_lt in B.
    rewrite read_nonempty_in by lia. destruct Hr as (_ & _ & Hb). apply Hb. lia.
Qed.

Lemma ZeroRange_eq m offset size :
  mem_ok m -> is_u64 offset -> is_u64 size -> size <> 0 ->
  ZeroRange offset size m =
  if in_range offset size then zero_loop (Z.to_nat size) offset (grow m offset size)
  else (Err ErrMemoryOverflow, m).
Proof.
  intros Hok Ho Hs Hn. unfold ZeroRange. destruct (Z.eqb_spec size 0); [done|].
  cbv zeta. rewrite bind_guard. unfold is_u64 in *.
  destruct (Z.lt_ge_cases (offset + size) (2 ^ 64)) as [W|W].
  - rewrite u64_add_no_wrap by lia. rewrite !(proj2 (Z.ltb_ge _ _)) by lia. simpl orb. cbv iota.
    pose proof (expand_eq m offset size Hok ltac:(lia) ltac:(lia)) as X.
    destruct (in_range offset size); [|by erewrite bind_Err].
    erewrite bind_Ok by exact X. do 2 f_equal. lia.
  - pose proof (u64_add_wrap offset size Ho Hs W). unfold in_range, MaxMemorySize. zcases; done.
Qed.

Lemma refines_zero m a offset size :
  repr m a -> is_u64 offset -> is_u64 size -> refines m (MZero offset size) a.
Proof.
  intros Hr Ho Hs. unfold refines. simpl.
  destruct (Z.eq_dec size 0) as [->|Hn].
  { unfold ZeroRange. simpl. split; [done|]. destruct Hr as (H1 & H2 & H3).
    split; [done|]. split; [done|]. intros i Hi. simpl. rewrite H3 by done. zcases; done. }
  pose proof (ZeroRange_eq m offset size (proj1 Hr) Ho Hs Hn) as E. unfold is_u64 in *.
  destruct (in_range offset size) eqn:R; [|by erewrite bind_Err by exact E].
  pose proof (repr_grow m a offset size Hr ltac:(lia) R) as ((G1 & G1') & G2 & G3).
  destruct (in_range_grow m offset size R) as (I1 & I2 & _); [lia|lia|done|].
  destruct (zero_loop_eq (Z.to_nat size) offset (grow m offset size)) as (m' & X & XS & XB);
    [lia|lia|].
  rewrite X in E. erewrite bind_Ok by exact E. split; [done|].
  cbn [mret M_ret snd]. unfold repr, mem_ok. rewrite XS.
  split; [done|]. split; [done|].
  intros i Hi. rewrite XB, G3 by done. simpl. by rewrite Z2Nat.id by lia.
Qed.

Fixpoint run_mem_ops {S} (f : MemOp -> M S (list byte)) (ops : list MemOp) (s : S)
    : list (res (list byte)) * S :=
  match ops with
  | [] => ([], s)
  | o :: rest =>
      let '(r, s1) := f o s in
      let '(rs, s2) := run_mem_ops f rest s1 in (r :: rs, s2)
  end.

Lemma mem_op_refines m a o : repr m a -> mem_op_u64 o -> refines m o a.
Proof.
  intros Hr Hu. destruct o; simpl in Hu.
  - by apply refines_set.
  - by apply refines_set_byte.
  - destruct Hu. by apply refines_get.
  - by apply refines_get32.
  - destruct Hu as (? & ? & ?). by apply refines_copy.
  - destruct Hu. by apply refines_zero.
Qed.

(** ** Properties *)

(** The memory refines the infinite zero-filled byte array. Every sequence
    of writes, reads, overlapping copies and secure erasures with [uint64]
    operands, from the empty memory, returns the bytes and the errors of that
    array, keeps the size a multiple of 32 and at most 32 MB, and never
    panics. *)
Theorem memory_refines_array (ops : list MemOp) (Hu : Forall mem_op_u64 ops) :
  let '(rs, m) := run_mem_ops mem_op ops NewMemory in
  let '(rs', a) := run_mem_ops mem_spec ops (mkMemSpec (fun _ => x00) 0) in
  rs = rs' /\ repr m a.
Proof.
  assert (R : repr NewMemory (mkMemSpec (fun _ => x00) 0)).
  { repeat split; try done. intros i Hi. unfold mem_at. simpl. by destruct (Z.to_nat i). }
  revert R. generalize NewMemory, (mkMemSpec (fun _ => x00) 0).
  induction Hu as [|o ops Ho Hu IH]; intros m a R; [done|]. cbn [run_mem_ops].
  destruct (mem_op_refines m a o R Ho) as [E1 E2].
  destruct (mem_op o m) as [r m1], (mem_spec o a) as [r' a1]. simpl in E1, E2.
  specialize (IH m1 a1 E2).
  destruct (run_mem_ops mem_op ops m1), (run_mem_ops mem_spec ops a1).
  destruct IH. split; [congruence|done].
Qed.

Lemma memory_refines_array_witness :
  let ops := [MSet 3 [x01; x02; x03; x04]; MCopy 4 3 3; MGet 2 6] in
  Forall mem_op_u64 ops /\
  (run_mem_ops mem_op ops NewMemory).1 = (run_mem_ops mem_spec ops (mkMemSpec (fun _ => x00) 0)).1.
Proof.
  intros ops. assert (H : Forall mem_op_u64 ops)
    by (repeat constructor; unfold is_u64; simpl; lia).
  split; [exact H|]. pose proof (memory_refines_array ops H) as T.
  destruct (run_mem_ops mem_op ops NewMemory), (run_mem_ops mem_spec ops _).
  exact (proj1 T).
Defined.

(** The gas of memory growth is exact and additive. Within the 32 MB limit
    a memory of [w] words costs [3w + w²/512] with no wrap-around, growing in
    two steps costs what growing at once does, growing never costs a negative
    amount, and a size beyond the limit costs [MaxUint64]. *)
Theorem memory_gas_additive (a b c : Z)
    (Hab : 0 <= a <= b) (Hbc : b <= c) (Hc : c <= MaxMemorySize) :
  MemoryCost c = word_cost (words_of c) /\
  MemoryExpansionCost a c = MemoryExpansionCost a b + MemoryExpansionCost b c /\
  0 <= MemoryExpansionCost a b /\
  forall d, MaxMemorySize < d -> MemoryExpansionCost a d = MaxUint64.
Proof.
  split; [apply MemoryCost_eq; lia|].
  rewrite !MemoryExpansionCost_eq by lia.
  pose proof (MemoryCost_mono a b). split; [lia|]. split; [lia|].
  intros d Hd. apply MemoryExpansionCost_over; lia.
Qed.

Lemma memory_gas_additive_witness :
  0 <= 32 <= 1024 /\ MemoryExpansionCost 32 65536
                     = MemoryExpansionCost 32 1024 + MemoryExpansionCost 1024 65536.
Proof.
  split; [lia|]. apply (memory_gas_additive 32 1024 65536); unfold MaxMemorySize; lia.
Defined.
