(* ===== verification/Gas.v ===== *)
(** * Gas accounting (qvm/gas.go)

    The gas constants, the overflow-checked arithmetic, the access list, the
    gas meter with its operations, the call-gas rule and the cost functions.
    [meter_ok] is the invariant of the meter: what was used never exceeds the
    limit, and every counter stays a [uint64]. *)

From Stdlib Require Import ZArith Lia.
From Stdlib.Strings Require Import Byte.
From stdpp Require Import base list countable gmap strings numbers.
From S2P Require Import Prelude Stack Memory.

(** ** Constants *)

Definition GasZero : Z := 0.
Definition GasBase : Z := 2.
Definition GasVeryLow : Z := 3.
Definition GasLow : Z := 5.
Definition GasMid : Z := 8.
Definition GasHigh : Z := 10.
Definition GasJump : Z := 8.
Definition GasJumpDest : Z := 1.
Definition GasMemory : Z := 3.
Definition GasCopy : Z := 3.
Definition GasSLoad : Z := 100.
Definition GasSLoadCold : Z := 2100.
Definition GasSStore : Z := 100.
Definition GasSStoreSet : Z := 20000.
Definition GasSStoreReset : Z := 2900.
Definition GasSStoreClear : Z := 4800.
Definition GasAccessListAddress : Z := 2400.
Definition GasAccessListSlot : Z := 1900.
Definition GasColdAccountAccess : Z := 2600.
Definition GasWarmAccountAccess : Z := 100.
Definition GasColdSLoad : Z := 2100.
Definition GasWarmSLoad : Z := 100.
Definition GasCall : Z := 100.
Definition GasCallCold : Z := 2600.
Definition GasCallValue : Z := 9000.
Definition GasCallNewAccount : Z := 25000.
Definition GasCallStipend : Z := 2300.
Definition GasCreate : Z := 32000.
Definition GasCreate2 : Z := 32000.
Definition GasCodeDeposit : Z := 200.
Definition GasCreateData : Z := 2.
Definition GasLog : Z := 375.
Definition GasLogTopic : Z := 375.
Definition GasLogData : Z := 8.
Definition GasSHA3 : Z := 30.
Definition GasSHA3Word : Z := 6.
Definition GasKyberKeyGen : Z := 50000.
Definition GasKyberEncaps : Z := 25000.
Definition GasKyberDecaps : Z := 25000.
Definition GasTxCreate : Z := 53000.
Definition GasTxCall : Z := 21000.
Definition GasTxDataZero : Z := 4.
Definition GasTxDataNonZero : Z := 16.
Definition GasExp : Z := 10.
Definition GasExpByte : Z := 50.
Definition GasBalance : Z := 100.
Definition GasBalanceCold : Z := 2600.
Definition GasMemoryCopy : Z := 3.
Definition GasBlockHash : Z := 20.
Definition GasSelfDestruct : Z := 5000.
Definition GasSelfDestructNewAccount : Z := 25000.

(** ** Checked arithmetic *)

Definition SafeAddGas (a b : Z) : error + Z :=
  if u64 (MaxUint64 - b) <? a then inl ErrGasOverflow else inr (u64 (a + b)).

Definition SafeMulGas (a b : Z) : error + Z :=
  if (0 <? a) && (MaxUint64 / a <? b) then inl ErrGasOverflow else inr (u64 (a * b)).

Definition SafeSubGas (a b : Z) : error + Z :=
  if a <? b then inl ErrGasOverflow else inr (u64 (a - b)).

Definition SafeAddGasTuple (a b c : Z) : error + Z :=
  match SafeAddGas a b with
  | inl e => inl e
  | inr tmp => SafeAddGas tmp c
  end.

(** ** Access list *)

Record AccessList : Type := mkAccessList {
  al_addresses : gset Address;
  al_slots : gmap Address (gset Hash)
}.

Definition NewAccessList : AccessList := mkAccessList ∅ ∅.

Definition AddAddress (addr : Address) (al : AccessList) : bool * AccessList :=
  if decide (addr ∈ al_addresses al) then (false, al)
  else (true, mkAccessList ({[addr]} ∪ al_addresses al) (al_slots al)).

(** [al.slots[addr]], the empty set where the Go map has no entry. *)
Definition slots_of (al : AccessList) (addr : Address) : gset Hash :=
  default ∅ (al_slots al !! addr).

Definition AddSlot (addr : Address) (slot : Hash) (al : AccessList)
    : bool * bool * AccessList :=
  let addrWasCold := bool_decide (addr ∉ al_addresses al) in
  let addresses := {[addr]} ∪ al_addresses al in
  let s := slots_of al addr in
  let slotWasCold := bool_decide (slot ∉ s) in
  (addrWasCold, slotWasCold,
   mkAccessList addresses (<[addr := {[slot]} ∪ s]> (al_slots al))).

Definition IsAddressWarm (al : AccessList) (addr : Address) : bool :=
  bool_decide (addr ∈ al_addresses al).

Definition IsSlotWarm (al : AccessList) (addr : Address) (slot : Hash) : bool :=
  match al_slots al !! addr with
  | Some slots => bool_decide (slot ∈ slots)
  | None => false
  end.

Definition AddressCount (al : AccessList) : Z := Z.of_nat (size (al_addresses al)).

Definition SlotCount (al : AccessList) : Z :=
  map_fold (fun _ slots count => count + Z.of_nat (size slots)) 0 (al_slots al).

(** ** The meter *)

Record GasMeter : Type := mkGasMeter {
  gm_limit : Z;
  gm_used : Z;
  gm_refund : Z;
  gm_accessList : AccessList
}.

Definition NewGasMeter (limit : Z) : GasMeter := mkGasMeter limit 0 0 NewAccessList.

Definition NewGasMeterWithAccessList (limit : Z) (al : option AccessList) : GasMeter :=
  mkGasMeter limit 0 0 (default NewAccessList al).

Definition set_used (g : GasMeter) (u : Z) : GasMeter :=
  mkGasMeter (gm_limit g) u (gm_refund g) (gm_accessList g).
Definition set_refund (g : GasMeter) (r : Z) : GasMeter :=
  mkGasMeter (gm_limit g) (gm_used g) r (gm_accessList g).
Definition set_accessList (g : GasMeter) (al : AccessList) : GasMeter :=
  mkGasMeter (gm_limit g) (gm_used g) (gm_refund g) al.

Definition Consume (amount : Z) : M GasMeter unit := fun g =>
  let newUsed := u64 (gm_used g + amount) in
  if newUsed <? gm_used g then (Err ErrGasOverflow, g) else
  if gm_limit g <? newUsed then (Err ErrOutOfGas, set_used g (gm_limit g)) else
  (Ok tt, set_used g newUsed).

(** The saturating addition to the refund counter. *)
Definition add_refund (g : GasMeter) (amount : Z) : GasMeter :=
  if u64 (gm_refund g + amount) <? gm_refund g then set_refund g MaxUint64
  else set_refund g (u64 (gm_refund g + amount)).

Definition ConsumeWithRefund (amount refund : Z) : M GasMeter unit := fun g =>
  let newUsed := u64 (gm_used g + amount) in
  if newUsed <? gm_used g then (Err ErrGasOverflow, g) else
  if gm_limit g <? newUsed then (Err ErrOutOfGas, set_used g (gm_limit g)) else
  (Ok tt, add_refund (set_used g newUsed) refund).

Definition Refund (amount : Z) : M GasMeter unit := modify (fun g => add_refund g amount).

Definition Return (amount : Z) : M GasMeter unit := modify (fun g =>
  let capped := if gm_used g <? amount then gm_used g else amount in
  set_used g (u64 (gm_used g - capped))).

Definition Used (g : GasMeter) : Z := gm_used g.

Definition Remaining (g : GasMeter) : Z :=
  if gm_limit g <=? gm_used g then 0 else u64 (gm_limit g - gm_used g).

Definition Limit (g : GasMeter) : Z := gm_limit g.

Definition RefundAmount (g : GasMeter) : Z :=
  if gm_used g =? 0 then 0 else
  let maxRefund := gm_used g / 5 in
  if maxRefund <? gm_refund g then maxRefund else gm_refund g.

Definition FinalUsed (g : GasMeter) : Z :=
  let maxRefund := if 0 <? gm_used g then gm_used g / 5 else 0 in
  let actualRefund := if maxRefund <? gm_refund g then maxRefund else gm_refund g in
  if gm_used g <? actualRefund then gm_used g else u64 (gm_used g - actualRefund).

Definition Reset (limit : Z) : M GasMeter unit :=
  modify (fun _ => mkGasMeter limit 0 0 NewAccessList).

Definition ConsumeSLoad (addr : Address) (slot : Hash) : M GasMeter unit :=
  al ← gets gm_accessList;
  if IsSlotWarm al addr slot then Consume GasWarmSLoad
  else
    modify (fun g => set_accessList g (AddSlot addr slot al).2);;
    Consume GasColdSLoad.

Definition ConsumeSStore (addr : Address) (slot currentValue newValue : Hash)
    : M GasMeter Z :=
  al ← gets gm_accessList;
  let '(_, slotWasCold, al') := AddSlot addr slot al in
  modify (fun g => set_accessList g al');;
  let cost := if slotWasCold then GasColdSLoad else 0 in
  let isZeroCurrent := bool_decide (currentValue = zero_array 32) in
  let isZeroNew := bool_decide (newValue = zero_array 32) in
  let '(cost, refundAmount) :=
    if isZeroCurrent && negb isZeroNew then (u64 (cost + GasSStoreSet), 0)
    else if negb isZeroCurrent && isZeroNew then (u64 (cost + GasSStoreReset), GasSStoreClear)
    else if negb isZeroCurrent && negb isZeroNew then (u64 (cost + GasSStoreReset), 0)
    else (u64 (cost + GasSStore), 0) in
  Consume cost;;
  (if 0 <? refundAmount then Refund refundAmount else mret tt);;
  mret cost.

Definition ConsumeAccountAccess (addr : Address) : M GasMeter unit :=
  al ← gets gm_accessList;
  if IsAddressWarm al addr then Consume GasWarmAccountAccess
  else
    modify (fun g => set_accessList g (AddAddress addr al).2);;
    Consume GasColdAccountAccess.

Definition ConsumeCall (addr : Address) (hasValue isNewAccount : bool) : M GasMeter Z :=
  al ← gets gm_accessList;
  let warm := IsAddressWarm al addr in
  (if warm then mret tt
   else modify (fun g => set_accessList g (AddAddress addr al).2));;
  let cost := if warm then GasWarmAccountAccess else GasColdAccountAccess in
  let cost := if hasValue then u64 (cost + GasCallValue) else cost in
  let cost := if isNewAccount && hasValue then u64 (cost + GasCallNewAccount) else cost in
  Consume cost;;
  mret cost.

(** The two loops of [PreloadAccessList]. A Go map has no order, so the slots
    come as the list of entries in the order the range visits them; [None] is
    the early return of [math.MaxUint64]. *)
Fixpoint preload_addresses (addrs : list Address) (cost : Z) (al : AccessList)
    : option Z * AccessList :=
  match addrs with
  | [] => (Some cost, al)
  | a :: rest =>
      let '(wasCold, al') := AddAddress a al in
      if wasCold then
        if u64 (cost + GasAccessListAddress) <? cost then (None, al')
        else preload_addresses rest (u64 (cost + GasAccessListAddress)) al'
      else preload_addresses rest cost al'
  end.

Fixpoint preload_slots (slots : list (Address * Hash)) (cost : Z) (al : AccessList)
    : option Z * AccessList :=
  match slots with
  | [] => (Some cost, al)
  | (a, s) :: rest =>
      let '(_, slotWasCold, al') := AddSlot a s al in
      if slotWasCold then
        if u64 (cost + GasAccessListSlot) <? cost then (None, al')
        else preload_slots rest (u64 (cost + GasAccessListSlot)) al'
      else preload_slots rest cost al'
  end.

Definition PreloadAccessList (addresses : list Address)
    (slots : list (Address * list Hash)) : M GasMeter Z := fun g =>
  match preload_addresses addresses 0 (gm_accessList g) with
  | (None, al) => (Ok MaxUint64, set_accessList g al)
  | (Some cost, al) =>
      let flat := slots ≫= (fun p => (fun s => (p.1, s)) <$> p.2) in
      let '(r, al') := preload_slots flat cost al in
      (Ok (default MaxUint64 r), set_accessList g al')
  end.

Record GasSnapshot : Type := mkGasSnapshot {
  gs_used : Z;
  gs_refund : Z;
  gs_accessList : AccessList
}.

Definition Snapshot (g : GasMeter) : GasSnapshot :=
  mkGasSnapshot (gm_used g) (gm_refund g) (gm_accessList g).

Definition Revert (snapshot : GasSnapshot) : M GasMeter unit := modify (fun g =>
  mkGasMeter (gm_limit g) (gs_used snapshot) (gs_refund snapshot) (gs_accessList snapshot)).

(** ** The gas table and the cost functions *)

Record GasTable : Type := mkGasTable {
  gt_SLoad : Z; gt_SLoadCold : Z; gt_SStore : Z; gt_SStoreSet : Z; gt_SStoreReset : Z; gt_SStoreClear : Z;
  gt_Call : Z; gt_CallCold : Z; gt_CallValue : Z; gt_CallNewAccount : Z;
  gt_Balance : Z; gt_BalanceCold : Z;
  gt_Create : Z; gt_Create2 : Z; gt_CodeDeposit : Z;
  gt_Log : Z; gt_LogTopic : Z; gt_LogData : Z;
  gt_SHA3 : Z; gt_SHA3Word : Z;
  gt_Exp : Z; gt_ExpByte : Z
}.

Definition DefaultGasTable : GasTable := {|
  gt_SLoad := GasSLoad; gt_SLoadCold := GasSLoadCold; gt_SStore := GasSStore;
  gt_SStoreSet := GasSStoreSet; gt_SStoreReset := GasSStoreReset; gt_SStoreClear := GasSStoreClear;
  gt_Call := GasCall; gt_CallCold := GasCallCold; gt_CallValue := GasCallValue;
  gt_CallNewAccount := GasCallNewAccount;
  gt_Balance := GasBalance; gt_BalanceCold := GasBalanceCold;
  gt_Create := GasCreate; gt_Create2 := GasCreate2; gt_CodeDeposit := GasCodeDeposit;
  gt_Log := GasLog; gt_LogTopic := GasLogTopic; gt_LogData := GasLogData;
  gt_SHA3 := GasSHA3; gt_SHA3Word := GasSHA3Word;
  gt_Exp := GasExp; gt_ExpByte := GasExpByte
|}.

Definition maxSafeGas : Z := 2 ^ 63 - 1.

(** The gas the callee receives once the price [cost] is known. *)
Definition forward_gas (cost availableGas requestedGas : Z) (hasValue : bool) : Z * Z :=
  if availableGas <=? cost then (cost, 0) else
  let gasToSend := u64 (availableGas - cost) in
  let gasToSend := if maxSafeGas <? gasToSend then maxSafeGas else gasToSend in
  let maxGas := u64 (gasToSend - gasToSend / 64) in
  let maxGas := if maxSafeGas <? maxGas then maxSafeGas else maxGas in
  let requestedGas := if maxGas <? requestedGas then maxGas else requestedGas in
  let requestedGas :=
    if hasValue then
      if u64 (maxSafeGas - GasCallStipend) <? requestedGas then maxSafeGas
      else u64 (requestedGas + GasCallStipend)
    else requestedGas in
  let cost := if maxSafeGas <? cost then maxSafeGas else cost in
  let requestedGas := if maxSafeGas <? requestedGas then maxSafeGas else requestedGas in
  (cost, requestedGas).

(** The gas of a CALL: what the caller pays and what the callee receives. *)
Definition CalculateCallGas (gasTable : option GasTable) (availableGas requestedGas : Z)
    (hasValue isNewAccount isCold : bool) : Z * Z :=
  match gasTable with
  | None => (0, 0)
  | Some t =>
    let cost := if isCold then gt_CallCold t else gt_Call t in
    if hasValue && (u64 (maxSafeGas - gt_CallValue t) <? cost) then (maxSafeGas, 0) else
    let cost := if hasValue then u64 (cost + gt_CallValue t) else cost in
    if isNewAccount && hasValue && (u64 (maxSafeGas - gt_CallNewAccount t) <? cost)
    then (maxSafeGas, 0) else
    let cost := if isNewAccount && hasValue then u64 (cost + gt_CallNewAccount t) else cost in
    let cost := if maxSafeGas <? cost then maxSafeGas else cost in
    forward_gas cost availableGas requestedGas hasValue
  end.

(** The loop over the data; [None] is the early return of [math.MaxUint64]. *)
Fixpoint data_gas (data : list byte) (gas : Z) : option Z :=
  match data with
  | [] => Some gas
  | b :: rest =>
      let cost := if b2z b =? 0 then GasTxDataZero else GasTxDataNonZero in
      if u64 (gas + cost) <? gas then None else data_gas rest (u64 (gas + cost))
  end.

Definition EstimateIntrinsicGas (data : list byte) (isCreate : bool)
    (accessList : option AccessList) : Z :=
  match data_gas data (if isCreate then GasTxCreate else GasTxCall) with
  | None => MaxUint64
  | Some gas =>
      match accessList with
      | None => gas
      | Some al =>
          let addrCost := u64 (AddressCount al * GasAccessListAddress) in
          if u64 (gas + addrCost) <? gas then MaxUint64 else
          let gas := u64 (gas + addrCost) in
          let slotCost := u64 (SlotCount al * GasAccessListSlot) in
          if u64 (gas + slotCost) <? gas then MaxUint64 else
          u64 (gas + slotCost)
      end
  end.

Definition CalculateMemoryGas (currentSize newSize : Z) : Z :=
  if newSize <=? currentSize then 0 else
  let maxSafeMemorySize := 32 * 1024 * 1024 in
  if maxSafeMemorySize <? newSize then MaxUint64 else
  let currentWords := u64 (currentSize + 31) / 32 in
  let newWords := u64 (newSize + 31) / 32 in
  if (2 ^ 32 <? currentWords) || (2 ^ 32 <? newWords) then MaxUint64 else
  let currentLinear := u64 (currentWords * GasMemory) in
  let newLinear := u64 (newWords * GasMemory) in
  let currentQuadratic := u64 (currentWords * currentWords) / 512 in
  let newQuadratic := u64 (newWords * newWords) / 512 in
  if u64 (MaxUint64 - currentQuadratic) <? currentLinear then MaxUint64 else
  if u64 (MaxUint64 - newQuadratic) <? newLinear then MaxUint64 else
  let currentCost := u64 (currentLinear + currentQuadratic) in
  let newCost := u64 (newLinear + newQuadratic) in
  if newCost <? currentCost then MaxUint64 else
  u64 (newCost - currentCost).

Definition CalculateCopyGas (size : Z) : Z :=
  if MaxUint64 - 31 <? size then MaxUint64 else
  let words := u64 (size + 31) / 32 in
  if negb (GasCopy =? 0) && (MaxUint64 / GasCopy <? words) then MaxUint64 else
  u64 (words * GasCopy).

Definition CalculateExpGas (exponentBytes : Z) : Z :=
  match SafeMulGas (u64 exponentBytes) GasExpByte with
  | inl _ => MaxUint64
  | inr expByteGas =>
      match SafeAddGas GasExp expByteGas with
      | inl _ => MaxUint64
      | inr total => total
      end
  end.

Definition CalculateSHA3Gas (size : Z) : Z :=
  if MaxUint64 - 31 <? size then MaxUint64 else
  let words := u64 (size + 31) / 32 in
  if negb (GasSHA3Word =? 0) && (MaxUint64 / GasSHA3Word <? words) then MaxUint64 else
  if u64 (MaxUint64 - u64 (words * GasSHA3Word)) <? GasSHA3 then MaxUint64 else
  u64 (GasSHA3 + u64 (words * GasSHA3Word)).

Definition CalculateLogGas (topicCount dataSize : Z) : Z :=
  let topicCost := u64 (u64 topicCount * GasLogTopic) in
  if negb (GasLogTopic =? 0) && (MaxUint64 / GasLogTopic <? u64 topicCount) then MaxUint64 else
  let dataCost := u64 (dataSize * GasLogData) in
  if negb (GasLogData =? 0) && (MaxUint64 / GasLogData <? dataSize) then MaxUint64 else
  if u64 (u64 (MaxUint64 - topicCost) - dataCost) <? GasLog then MaxUint64 else
  u64 (u64 (GasLog + topicCost) + dataCost).

Definition maxGasCostBits : Z := 256.

(** [big.Int.BitLen] *)
Definition bit_len (v : Z) : Z := if v =? 0 then 0 else Z.log2 (Z.abs v) + 1.

Definition CalculateGasCost (gas : Z) (price : option Z) : error + Z :=
  match price with
  | None => inl (ErrErrorf "gas price cannot be nil")
  | Some p =>
      if p <? 0 then inl (ErrErrorf "gas price cannot be negative") else
      let result := gas * p in
      if maxGasCostBits <? bit_len result then inl ErrGasOverflow else inr result
  end.

(** ** Invariant *)

Definition meter_ok (g : GasMeter) : Prop :=
  is_u64 (gm_limit g) /\ 0 <= gm_used g <= gm_limit g /\ is_u64 (gm_refund g).

(** What every operation on the meter keeps: the invariant and the limit. *)
Definition meter_step (g g' : GasMeter) : Prop :=
  gm_limit g' = gm_limit g /\ (meter_ok g -> meter_ok g').

#[export] Instance meter_step_preorder : PreOrder meter_step.
Proof.
  split; [by intros g|]. intros a b c [H1 H2] [H3 H4]. split; [congruence | auto].
Qed.

(** ** Lemmas *)

Lemma SafeAddGas_spec a b :
  is_u64 a -> is_u64 b ->
  SafeAddGas a b = if a + b <? 2 ^ 64 then inr (a + b) else inl ErrGasOverflow.
Proof.
  unfold is_u64, SafeAddGas, MaxUint64. intros.
  rewrite (u64_small (_ - _)) by (unfold is_u64; lia).
  zcases; try done. rewrite u64_small; [done | unfold is_u64; lia].
Qed.

Lemma SafeMulGas_spec a b :
  is_u64 a -> is_u64 b ->
  SafeMulGas a b = if a * b <? 2 ^ 64 then inr (a * b) else inl ErrGasOverflow.
Proof.
  unfold is_u64, SafeMulGas, MaxUint64. intros Ha Hb.
  destruct (Z.ltb_spec 0 a); simpl.
  - destruct (Z.ltb_spec ((2 ^ 64 - 1) / a) b) as [L|L].
    + apply Z.div_lt_upper_bound in L || idtac.
      destruct (Z.ltb_spec (a * b) (2 ^ 64)); [|done]. exfalso.
      assert (b <= (2 ^ 64 - 1) / a) by (apply Z.div_le_lower_bound; lia). lia.
    + assert (a * b <= 2 ^ 64 - 1).
      { pose proof (Z.mul_div_le (2 ^ 64 - 1) a ltac:(lia)). nia. }
      rewrite (proj2 (Z.ltb_lt _ _)) by lia. rewrite u64_small; [done|].
      unfold is_u64. nia.
  - replace a with 0 by lia. done.
Qed.

Lemma SafeSubGas_spec a b :
  is_u64 a -> is_u64 b ->
  SafeSubGas a b = if b <=? a then inr (a - b) else inl ErrGasOverflow.
Proof.
  unfold is_u64, SafeSubGas. intros. zcases; try done.
  rewrite u64_small; [done|]. unfold is_u64. lia.
Qed.

Lemma Consume_eq g amount :
  meter_ok g -> is_u64 amount ->
  Consume amount g =
  if gm_used g + amount <=? gm_limit g then (Ok tt, set_used g (gm_used g + amount))
  else if gm_used g + amount <? 2 ^ 64 then (Err ErrOutOfGas, set_used g (gm_limit g))
  else (Err ErrGasOverflow, g).
Proof.
  unfold meter_ok, is_u64, Consume. intros (Hl & Hu & _) Ha.
  destruct (Z.ltb_spec (gm_used g + amount) (2 ^ 64)) as [L|L].
  - rewrite u64_small by (unfold is_u64; lia). zcases; done.
  - pose proof (u64_add_wrap (gm_used g) amount ltac:(unfold is_u64; lia) Ha L).
    zcases; done.
Qed.

Lemma meter_step_Consume amount : sat meter_step (Consume amount).
Proof.
  intros [l u r al]. unfold Consume. simpl.
  repeat case_match; simpl; split; try done; unfold meter_ok; simpl;
    pose proof (u64_range (u + amount)) as R; unfold is_u64 in *;
    rewrite ?Z.ltb_lt, ?Z.ltb_ge in *; lia.
Qed.

Lemma meter_step_add_refund g a : meter_step g (add_refund g a).
Proof.
  unfold add_refund. case_match; (split; [done|]); intros (H1 & H2 & H3);
    (split; [done|]; split; [done|]); simpl; [|apply u64_range].
  unfold is_u64, MaxUint64. lia.
Qed.

Lemma meter_step_Refund a : sat meter_step (Refund a).
Proof. apply sat_modify. intros g. apply meter_step_add_refund. Qed.

Lemma meter_step_ConsumeWithRefund a r : sat meter_step (ConsumeWithRefund a r).
Proof.
  intros g. pose proof (meter_step_Consume a g) as H.
  unfold Consume in H. unfold ConsumeWithRefund.
  repeat case_match; try done. etransitivity; [exact H|]. apply meter_step_add_refund.
Qed.

Lemma Return_eq g a :
  meter_ok g -> 0 <= a -> Return a g = (Ok tt, set_used g (Z.max 0 (gm_used g - a))).
Proof.
  unfold meter_ok, is_u64, Return, modify. intros (Hl & Hu & _) Ha. do 2 f_equal.
  destruct (Z.ltb_spec (gm_used g) a); rewrite u64_small; unfold is_u64; lia.
Qed.

(** Gas is returned as an unsigned amount. *)
Lemma meter_step_Return a : 0 <= a -> sat meter_step (Return a).
Proof.
  intros Ha g. split; [done|]. intros Hok. rewrite Return_eq by done.
  unfold meter_ok, is_u64 in *. simpl. lia.
Qed.

Lemma meter_step_set_accessList g al : meter_step g (set_accessList g al).
Proof. by split. Qed.

(** Runs the structure of an operation and closes the leaves with the steps of
    its parts. *)
Ltac meter_auto :=
  repeat first
    [ apply meter_step_Consume | apply meter_step_Refund
    | apply (sat_modify meter_step); intros; apply meter_step_set_accessList
    | apply (sat_ret meter_step) | apply (sat_gets meter_step)
    | apply (sat_bind meter_step); [|intros]
    | case_match ].

Lemma meter_step_ConsumeSLoad addr slot : sat meter_step (ConsumeSLoad addr slot).
Proof. unfold ConsumeSLoad. meter_auto. Qed.

Lemma meter_step_ConsumeSStore addr slot cur new :
  sat meter_step (ConsumeSStore addr slot cur new).
Proof. unfold ConsumeSStore. meter_auto. Qed.

Lemma meter_step_ConsumeAccountAccess addr : sat meter_step (ConsumeAccountAccess addr).
Proof. unfold ConsumeAccountAccess. meter_auto. Qed.

Lemma meter_step_ConsumeCall addr hv na : sat meter_step (ConsumeCall addr hv na).
Proof. unfold ConsumeCall. meter_auto. Qed.

Lemma meter_step_PreloadAccessList addrs slots :
  sat meter_step (PreloadAccessList addrs slots).
Proof.
  intros g. unfold PreloadAccessList. destruct (preload_addresses _ _ _) as [[c|] al]; simpl.
  - destruct (preload_slots _ _ _). apply meter_step_set_accessList.
  - apply meter_step_set_accessList.
Qed.

#[export] Hint Resolve meter_step_Consume meter_step_Refund meter_step_Return
  meter_step_ConsumeWithRefund meter_step_ConsumeSLoad meter_step_ConsumeSStore
  meter_step_ConsumeAccountAccess meter_step_ConsumeCall meter_step_PreloadAccessList : qvm.

Lemma Remaining_eq g : meter_ok g -> Remaining g = gm_limit g - gm_used g.
Proof.
  unfold meter_ok, is_u64, Remaining. intros (Hl & Hu & _).
  zcases; [lia|]. apply u64_small. unfold is_u64. lia.
Qed.

Lemma RefundAmount_range g :
  meter_ok g -> 0 <= RefundAmount g <= gm_used g / 5.
Proof. unfold meter_ok, is_u64, RefundAmount. intros. zcases; zlia. Qed.

Lemma FinalUsed_eq g : meter_ok g -> FinalUsed g = gm_used g - RefundAmount g.
Proof.
  intros Hok. pose proof (RefundAmount_range g Hok) as R.
  unfold meter_ok, is_u64 in Hok. destruct Hok as (Hl & Hu & Hr).
  unfold FinalUsed, RefundAmount in *.
  assert (E : forall z, 0 <= z < 2 ^ 64 -> u64 z = z) by (intros; by apply u64_small).
  destruct (Z.eqb_spec (gm_used g) 0) as [Z0|Z0].
  - rewrite Z0 in *. simpl. zcases; rewrite ?E by lia; lia.
  - destruct (Z.ltb_spec 0 (gm_used g)); [|lia].
    destruct (Z.ltb_spec (gm_used g / 5) (gm_refund g)); zcases; rewrite ?E by zlia; lia.
Qed.

(** ** The call-gas rule *)

(** The part of [g] a call may forward: all but one 64th. *)
Definition all_but_64th (g : Z) : Z := g - g / 64.

(** The price of a call under the default table. *)
Definition call_cost (hasValue isNewAccount isCold : bool) : Z :=
  (if isCold then 2600 else 100) + (if hasValue then 9000 else 0)
  + (if isNewAccount && hasValue then 25000 else 0).

Lemma forward_gas_eq cost available requested hv :
  0 <= cost <= 36600 -> 0 <= available <= maxSafeGas -> 0 <= requested ->
  forward_gas cost available requested hv =
  if available <=? cost then (cost, 0)
  else (cost, Z.min requested (all_but_64th (available - cost))
              + (if hv then GasCallStipend else 0)).
Proof.
  unfold forward_gas, all_but_64th, maxSafeGas, GasCallStipend. intros Hc Ha Hr.
  destruct (Z.leb_spec available cost); [done|]. cbv zeta.
  assert (E : forall z, 0 <= z < 2 ^ 64 -> u64 z = z) by (intros; by apply u64_small).
  rewrite (E (available - cost)) by lia. set (g := available - cost).
  assert (G : 0 < g <= 2 ^ 63 - 1) by (unfold g; lia).
  rewrite (proj2 (Z.ltb_ge _ g)) by lia. rewrite (E (g - g / 64)) by zlia.
  set (m := g - g / 64). assert (Hm : 0 <= m < 2 ^ 63 - 1 - 2300) by (unfold m; zlia).
  rewrite (proj2 (Z.ltb_ge _ m)) by lia.
  replace (if m <? requested then m else requested) with (Z.min requested m)
    by (zcases; lia).
  rewrite (E (2 ^ 63 - 1 - 2300)) by lia.
  rewrite (proj2 (Z.ltb_ge _ (Z.min requested m))) by lia.
  rewrite (E (Z.min requested m + 2300)) by lia.
  destruct hv; zcases; f_equal; lia.
Qed.

Lemma CalculateCallGas_default available requested hv na cold :
  0 <= available <= maxSafeGas -> 0 <= requested ->
  CalculateCallGas (Some DefaultGasTable) available requested hv na cold =
  let cost := call_cost hv na cold in
  if available <=? cost then (cost, 0)
  else (cost, Z.min requested (all_but_64th (available - cost))
              + (if hv then GasCallStipend else 0)).
Proof.
  intros Ha Hr. cbv zeta. rewrite <- forward_gas_eq by (done || by destruct hv, na, cold).
  by destruct hv, na, cold.
Qed.

(** ** Properties *)

(** The operations of the meter as commands; the amounts are [uint64] values. *)
Inductive MeterOp : Type :=
  | GConsume (amount : Z)
  | GConsumeWithRefund (amount refund : Z)
  | GRefund (amount : Z)
  | GReturn (amount : Z)
  | GSLoad (addr : Address) (slot : Hash)
  | GSStore (addr : Address) (slot cur new : Hash)
  | GAccount (addr : Address)
  | GCall (addr : Address) (hasValue isNewAccount : bool)
  | GPreload (addrs : list Address) (slots : list (Address * list Hash)).

Definition meter_op (o : MeterOp) : M GasMeter unit :=
  match o with
  | GConsume a => Consume a
  | GConsumeWithRefund a r => ConsumeWithRefund a r
  | GRefund a => Refund a
  | GReturn a => Return (u64 a)
  | GSLoad a s => ConsumeSLoad a s
  | GSStore a s c n => ConsumeSStore a s c n;; mret tt
  | GAccount a => ConsumeAccountAccess a
  | GCall a v n => ConsumeCall a v n;; mret tt
  | GPreload a s => PreloadAccessList a s;; mret tt
  end.

Lemma meter_step_op o : sat meter_step (meter_op o).
Proof.
  destruct o; simpl; try (apply (sat_bind meter_step); [|intros; apply (sat_ret meter_step)]);
    auto with qvm.
  apply meter_step_Return. apply u64_range.
Qed.

(** The state after the operations, whether they fail or not. *)
Definition meter_after (ops : list MeterOp) (g : GasMeter) : GasMeter :=
  foldl (fun g o => (meter_op o g).2) g ops.

Lemma meter_after_step ops g : meter_step g (meter_after ops g).
Proof.
  revert g. induction ops as [|o ops IH]; intros g; [by split|].
  etransitivity; [apply (meter_step_op o) | apply IH].
Qed.

(** Gas accounting never exceeds the limit. After any sequence of meter
    operations on a fresh meter, failed ones included, the gas used is between
    0 and the limit, the remaining gas is exactly the difference, and the
    charge after refunds is at least four fifths of the gas used. *)
Theorem gas_meter_bounded (limit : Z) (ops : list MeterOp) (Hl : is_u64 limit) :
  let g := meter_after ops (NewGasMeter limit) in
  0 <= Used g <= limit /\ Limit g = limit /\
  Used g + Remaining g = limit /\
  FinalUsed g + RefundAmount g = Used g /\
  Used g - Used g / 5 <= FinalUsed g <= Used g.
Proof.
  intros g. destruct (meter_after_step ops (NewGasMeter limit)) as [HL HOK].
  fold g in HL, HOK. simpl in HL.
  assert (Hok : meter_ok g).
  { apply HOK. unfold meter_ok, is_u64 in *. simpl. lia. }
  pose proof (RefundAmount_range g Hok). pose proof (FinalUsed_eq g Hok).
  pose proof (Remaining_eq g Hok). unfold Used, Limit. destruct Hok as (? & ? & _). lia.
Qed.

Lemma gas_meter_bounded_witness :
  is_u64 1000 /\
  Used (meter_after [GConsume 600; GRefund 500; GConsume 900] (NewGasMeter 1000)) <= 1000.
Proof.
  split; [unfold is_u64; lia|].
  apply (gas_meter_bounded 1000 [GConsume 600; GRefund 500; GConsume 900]).
  unfold is_u64. lia.
Defined.

(** The 63/64 rule. Under the default gas table, with the gas limits a
    block can hold, a call pays the access, value-transfer and new-account
    prices exactly, forwards at most all but one 64th of what is left after
    them, and adds the stipend of 2300 when it transfers value; a caller that
    cannot pay the price forwards nothing. *)
Theorem call_gas_63_64 (available requested : Z) (hv na cold : bool)
    (Ha : 0 <= available <= maxSafeGas) (Hr : 0 <= requested) :
  let '(cost, callGas) :=
    CalculateCallGas (Some DefaultGasTable) available requested hv na cold in
  cost = call_cost hv na cold /\
  (available <= cost -> callGas = 0) /\
  (cost < available ->
     callGas = Z.min requested (all_but_64th (available - cost))
               + (if hv then GasCallStipend else 0)) /\
  (cost < available -> hv = false -> cost + callGas <= available).
Proof.
  rewrite CalculateCallGas_default by done. cbv zeta.
  destruct (Z.leb_spec available (call_cost hv na cold)); repeat split; try lia.
  intros _ ->. unfold all_but_64th. zlia.
Qed.

Lemma call_gas_63_64_witness :
  0 <= 100000 <= maxSafeGas /\
  (CalculateCallGas (Some DefaultGasTable) 100000 90000 true false true).1
  = call_cost true false true.
Proof.
  split; [unfold maxSafeGas; lia|].
  pose proof (call_gas_63_64 100000 90000 true false true
                ltac:(unfold maxSafeGas; lia) ltac:(lia)) as T.
  destruct (CalculateCallGas (Some DefaultGasTable) 100000 90000 true false true).
  exact (proj1 T).
Defined.

(** The two memory-gas functions of the package agree on every pair of
    sizes: [CalculateMemoryGas] of gas.go and [MemoryExpansionCost] of
    memory.go. *)
Theorem memory_gas_functions_agree (a b : Z) (Ha : is_u64 a) (Hb : is_u64 b) :
  CalculateMemoryGas a b = MemoryExpansionCost a b.
Proof.
  unfold is_u64 in *. unfold CalculateMemoryGas.
  destruct (Z.leb_spec b a); [unfold MemoryExpansionCost; by zcases|].
  change (32 * 1024 * 1024) with MaxMemorySize.
  destruct (Z.ltb_spec MaxMemorySize b);
    [by rewrite MemoryExpansionCost_over by lia|].
  pose proof (MemoryCost_mono a b ltac:(lia) ltac:(lia)).
  pose proof (MemoryCost_bound b ltac:(lia)). pose proof (MemoryCost_bound a ltac:(lia)).
  rewrite MemoryExpansionCost_eq, !MemoryCost_eq in * by lia.
  unfold word_cost, words_of, MaxMemorySize, GasMemory, MaxUint64 in *.
  assert (E : forall z, 0 <= z < 2 ^ 64 -> u64 z = z) by (intros; by apply u64_small).
  rewrite !(E (_ + 31)) by lia.
  set (x := (a + 31) / 32) in *. set (y := (b + 31) / 32) in *.
  assert (0 <= x <= 1048576) by (unfold x; zlia).
  assert (0 <= y <= 1048576) by (unfold y; zlia).
  assert (0 <= x * x <= 1048576 * 1048576) by nia.
  assert (0 <= y * y <= 1048576 * 1048576) by nia.
  rewrite !(E (_ * _)) by lia. cbv zeta.
  assert (0 <= x * x / 512 <= 2147483648) by zlia.
  assert (0 <= y * y / 512 <= 2147483648) by zlia.
  rewrite !(E (_ - _)) by lia. rewrite !(E (_ + _)) by lia.
  rewrite ?(E (_ - _)) by lia. zcases; lia.
Qed.

Lemma memory_gas_functions_agree_witness :
  is_u64 64 /\ CalculateMemoryGas 64 100000 = MemoryExpansionCost 64 100000.
Proof.
  split; [unfold is_u64; lia|].
  apply (memory_gas_functions_agree 64 100000); unfold is_u64; lia.
Defined.

Lemma CalculateLogGas_exact t d :
  0 <= t -> 0 <= d -> GasLog + t * GasLogTopic + d * GasLogData < 2 ^ 64 ->
  CalculateLogGas t d = GasLog + t * GasLogTopic + d * GasLogData.
Proof.
  unfold CalculateLogGas, GasLog, GasLogTopic, GasLogData, MaxUint64. intros Ht Hd H.
  assert (E : forall z, 0 <= z < 2 ^ 64 -> u64 z = z) by (intros; by apply u64_small).
  rewrite (E t), (E (t * 375)), (E (d * 8)) by lia. cbv zeta. simpl negb.
  rewrite (E (2 ^ 64 - 1 - t * 375)), (E (_ - d * 8)) by lia.
  rewrite (E (375 + t * 375)), (E (_ + d * 8)) by lia. zcases; done.
Qed.

(** The price of a log. [CalculateLogGas] is exact whenever the price fits
    64 bits, but it does not saturate beyond: its last guard subtracts two
    costs that together exceed [MaxUint64] and wraps, so four topics and
    [2^61 - 1] bytes are priced 1867 instead of [MaxUint64]. *)
Theorem log_gas_exact_not_saturating :
  (forall t d, 0 <= t -> 0 <= d -> GasLog + t * GasLogTopic + d * GasLogData < 2 ^ 64 ->
     CalculateLogGas t d = GasLog + t * GasLogTopic + d * GasLogData) /\
  CalculateLogGas 4 (2 ^ 61 - 1) = 1867.
Proof. split; [exact CalculateLogGas_exact | reflexivity]. Qed.
