(* ===== verification/Opcodes.v ===== *)
(** * The instruction set (qvm/opcodes.go)

    [OpCode] has the constants of the source as constructors; [encode] is the
    byte of an instruction and [decode] the instruction of a byte, [None] for
    the bytes whose slot of [opcodeInfoTable] is empty. The metadata table and
    the predicates on opcodes follow the source. *)

From Stdlib Require Import ZArith Lia.
From Stdlib.Strings Require Import Byte.
From stdpp Require Import base list countable gmap strings numbers.
From S2P Require Import Prelude Stack.

Inductive OpCode : Set :=
  | STOP | JUMP | JUMPI | JUMPDEST | PC | NOP | RETURN | REVERT | INVALID | SIGNEXTEND
  | PUSH0 | PUSH1 | PUSH2 | PUSH4 | PUSH8 | PUSH16 | PUSH32 | POP | PUSH3 | PUSH5
  | PUSH6 | PUSH7 | PUSH9 | PUSH10 | PUSH11 | PUSH12 | PUSH13 | PUSH14 | PUSH15
  | PUSH17 | PUSH18 | PUSH19 | PUSH20 | PUSH21 | PUSH22 | PUSH23 | PUSH24 | PUSH25
  | PUSH26 | PUSH27 | PUSH28 | PUSH29 | PUSH30 | PUSH31 | DUP1 | DUP2 | DUP3 | DUP4
  | DUP5 | DUP6 | DUP7 | DUP8 | DUP9 | DUP10 | DUP11 | DUP12 | DUP13 | DUP14 | DUP15
  | DUP16 | SWAP1 | SWAP2 | SWAP3 | SWAP4 | SWAP5 | SWAP6 | SWAP7 | SWAP8 | SWAP9
  | SWAP10 | SWAP11 | SWAP12 | SWAP13 | SWAP14 | SWAP15 | SWAP16 | BLOBBASEFEE | ADD
  | SUB | MUL | DIV | MOD | SDIV | SMOD | ADDMOD | MULMOD | EXP | LT | GT | SLT | SGT
  | EQ | ISZERO | AND | OR | XOR | NOT | SHL | SHR | SAR | BYTE | MLOAD | MSTORE
  | MSTORE8 | MSIZE | MCOPY | SLOAD | SSTORE | TLOAD | TSTORE | ADDRESS | BALANCE
  | ORIGIN | CALLER | CALLVALUE | CALLDATALOAD | CALLDATASIZE | CALLDATACOPY | CODESIZE
  | CODECOPY | GASPRICE | GASLIMIT | GAS | BLOCKHASH | COINBASE | TIMESTAMP | NUMBER
  | CHAINID | SELFBALANCE | EXTCODESIZE | EXTCODECOPY | EXTCODEHASH | PREVRANDAO
  | BLOBHASH | BASEFEE | SHA3 | KECCAK256 | KYBER_KEYGEN | KYBER_ENCAPS | KYBER_DECAPS
  | KYBER_ZERO_KEY | CALL | CALLCODE | DELEGATECALL | STATICCALL | CREATE | CREATE2
  | AUTH | AUTHCALL | RETURNDATASIZE | RETURNDATACOPY | LOG0 | LOG1 | LOG2 | LOG3
  | LOG4 | SELFDESTRUCT.

(** The byte value of each constant. *)
Definition encode (op : OpCode) : byte :=
  match op with
  | STOP => x00 | JUMP => x01 | JUMPI => x02 | JUMPDEST => x03 | PC => x04 | NOP => x05
  | RETURN => x06 | REVERT => x07 | INVALID => x08 | SIGNEXTEND => x09 | PUSH0 => x0a
  | PUSH1 => x10 | PUSH2 => x11 | PUSH4 => x12 | PUSH8 => x13 | PUSH16 => x14
  | PUSH32 => x15 | POP => x16 | PUSH3 => xb0 | PUSH5 => xb1 | PUSH6 => xb2
  | PUSH7 => xb3 | PUSH9 => xb4 | PUSH10 => xb5 | PUSH11 => xb6 | PUSH12 => xb7
  | PUSH13 => xb8 | PUSH14 => xb9 | PUSH15 => xba | PUSH17 => xbb | PUSH18 => xbc
  | PUSH19 => xbd | PUSH20 => xbe | PUSH21 => xbf | PUSH22 => xc0 | PUSH23 => xc1
  | PUSH24 => xc2 | PUSH25 => xc3 | PUSH26 => xc4 | PUSH27 => xc5 | PUSH28 => xc6
  | PUSH29 => xc7 | PUSH30 => xc8 | PUSH31 => xc9 | DUP1 => x17 | DUP2 => x18
  | DUP3 => x19 | DUP4 => x1a | DUP5 => xd0 | DUP6 => xd1 | DUP7 => xd2 | DUP8 => xd3
  | DUP9 => xd4 | DUP10 => xd5 | DUP11 => xd6 | DUP12 => xd7 | DUP13 => xd8
  | DUP14 => xd9 | DUP15 => xda | DUP16 => xdb | SWAP1 => x1b | SWAP2 => x1c
  | SWAP3 => x1d | SWAP4 => x1e | SWAP5 => xdc | SWAP6 => xdd | SWAP7 => xde
  | SWAP8 => xdf | SWAP9 => xe0 | SWAP10 => xe1 | SWAP11 => xe2 | SWAP12 => xe3
  | SWAP13 => xe4 | SWAP14 => xe5 | SWAP15 => xe6 | SWAP16 => xe7 | BLOBBASEFEE => xe8
  | ADD => x20 | SUB => x21 | MUL => x22 | DIV => x23 | MOD => x24 | SDIV => x25
  | SMOD => x26 | ADDMOD => x27 | MULMOD => x28 | EXP => x29 | LT => x30 | GT => x31
  | SLT => x32 | SGT => x33 | EQ => x34 | ISZERO => x35 | AND => x40 | OR => x41
  | XOR => x42 | NOT => x43 | SHL => x44 | SHR => x45 | SAR => x46 | BYTE => x47
  | MLOAD => x50 | MSTORE => x51 | MSTORE8 => x52 | MSIZE => x53 | MCOPY => x54
  | SLOAD => x60 | SSTORE => x61 | TLOAD => x62 | TSTORE => x63 | ADDRESS => x70
  | BALANCE => x71 | ORIGIN => x72 | CALLER => x73 | CALLVALUE => x74
  | CALLDATALOAD => x75 | CALLDATASIZE => x76 | CALLDATACOPY => x77 | CODESIZE => x78
  | CODECOPY => x79 | GASPRICE => x7a | GASLIMIT => x7b | GAS => x7c | BLOCKHASH => x7d
  | COINBASE => x7e | TIMESTAMP => x7f | NUMBER => x80 | CHAINID => x81
  | SELFBALANCE => x82 | EXTCODESIZE => x83 | EXTCODECOPY => x84 | EXTCODEHASH => x85
  | PREVRANDAO => x86 | BLOBHASH => x87 | BASEFEE => x8d | SHA3 => x88
  | KECCAK256 => x89 | KYBER_KEYGEN => x8a | KYBER_ENCAPS => x8b | KYBER_DECAPS => x8c
  | KYBER_ZERO_KEY => x8e | CALL => x90 | CALLCODE => x91 | DELEGATECALL => x92
  | STATICCALL => x93 | CREATE => x94 | CREATE2 => x95 | AUTH => x96 | AUTHCALL => x97
  | RETURNDATASIZE => x3d | RETURNDATACOPY => x3e | LOG0 => xa0 | LOG1 => xa1
  | LOG2 => xa2 | LOG3 => xa3 | LOG4 => xa4 | SELFDESTRUCT => xf0
  end.

(** The instruction a byte denotes. *)
Definition decode (b : byte) : option OpCode :=
  match b with
  | x00 => Some STOP | x01 => Some JUMP | x02 => Some JUMPI | x03 => Some JUMPDEST
  | x04 => Some PC | x05 => Some NOP | x06 => Some RETURN | x07 => Some REVERT
  | x08 => Some INVALID | x09 => Some SIGNEXTEND | x0a => Some PUSH0
  | x10 => Some PUSH1 | x11 => Some PUSH2 | x12 => Some PUSH4 | x13 => Some PUSH8
  | x14 => Some PUSH16 | x15 => Some PUSH32 | x16 => Some POP | xb0 => Some PUSH3
  | xb1 => Some PUSH5 | xb2 => Some PUSH6 | xb3 => Some PUSH7 | xb4 => Some PUSH9
  | xb5 => Some PUSH10 | xb6 => Some PUSH11 | xb7 => Some PUSH12 | xb8 => Some PUSH13
  | xb9 => Some PUSH14 | xba => Some PUSH15 | xbb => Some PUSH17 | xbc => Some PUSH18
  | xbd => Some PUSH19 | xbe => Some PUSH20 | xbf => Some PUSH21 | xc0 => Some PUSH22
  | xc1 => Some PUSH23 | xc2 => Some PUSH24 | xc3 => Some PUSH25 | xc4 => Some PUSH26
  | xc5 => Some PUSH27 | xc6 => Some PUSH28 | xc7 => Some PUSH29 | xc8 => Some PUSH30
  | xc9 => Some PUSH31 | x17 => Some DUP1 | x18 => Some DUP2 | x19 => Some DUP3
  | x1a => Some DUP4 | xd0 => Some DUP5 | xd1 => Some DUP6 | xd2 => Some DUP7
  | xd3 => Some DUP8 | xd4 => Some DUP9 | xd5 => Some DUP10 | xd6 => Some DUP11
  | xd7 => Some DUP12 | xd8 => Some DUP13 | xd9 => Some DUP14 | xda => Some DUP15
  | xdb => Some DUP16 | x1b => Some SWAP1 | x1c => Some SWAP2 | x1d => Some SWAP3
  | x1e => Some SWAP4 | xdc => Some SWAP5 | xdd => Some SWAP6 | xde => Some SWAP7
  | xdf => Some SWAP8 | xe0 => Some SWAP9 | xe1 => Some SWAP10 | xe2 => Some SWAP11
  | xe3 => Some SWAP12 | xe4 => Some SWAP13 | xe5 => Some SWAP14 | xe6 => Some SWAP15
  | xe7 => Some SWAP16 | xe8 => Some BLOBBASEFEE | x20 => Some ADD | x21 => Some SUB
  | x22 => Some MUL | x23 => Some DIV | x24 => Some MOD | x25 => Some SDIV
  | x26 => Some SMOD | x27 => Some ADDMOD | x28 => Some MULMOD | x29 => Some EXP
  | x30 => Some LT | x31 => Some GT | x32 => Some SLT | x33 => Some SGT
  | x34 => Some EQ | x35 => Some ISZERO | x40 => Some AND | x41 => Some OR
  | x42 => Some XOR | x43 => Some NOT | x44 => Some SHL | x45 => Some SHR
  | x46 => Some SAR | x47 => Some BYTE | x50 => Some MLOAD | x51 => Some MSTORE
  | x52 => Some MSTORE8 | x53 => Some MSIZE | x54 => Some MCOPY | x60 => Some SLOAD
  | x61 => Some SSTORE | x62 => Some TLOAD | x63 => Some TSTORE | x70 => Some ADDRESS
  | x71 => Some BALANCE | x72 => Some ORIGIN | x73 => Some CALLER
  | x74 => Some CALLVALUE | x75 => Some CALLDATALOAD | x76 => Some CALLDATASIZE
  | x77 => Some CALLDATACOPY | x78 => Some CODESIZE | x79 => Some CODECOPY
  | x7a => Some GASPRICE | x7b => Some GASLIMIT | x7c => Some GAS
  | x7d => Some BLOCKHASH | x7e => Some COINBASE | x7f => Some TIMESTAMP
  | x80 => Some NUMBER | x81 => Some CHAINID | x82 => Some SELFBALANCE
  | x83 => Some EXTCODESIZE | x84 => Some EXTCODECOPY | x85 => Some EXTCODEHASH
  | x86 => Some PREVRANDAO | x87 => Some BLOBHASH | x8d => Some BASEFEE
  | x88 => Some SHA3 | x89 => Some KECCAK256 | x8a => Some KYBER_KEYGEN
  | x8b => Some KYBER_ENCAPS | x8c => Some KYBER_DECAPS | x8e => Some KYBER_ZERO_KEY
  | x90 => Some CALL | x91 => Some CALLCODE | x92 => Some DELEGATECALL
  | x93 => Some STATICCALL | x94 => Some CREATE | x95 => Some CREATE2
  | x96 => Some AUTH | x97 => Some AUTHCALL | x3d => Some RETURNDATASIZE
  | x3e => Some RETURNDATACOPY | xa0 => Some LOG0 | xa1 => Some LOG1 | xa2 => Some LOG2
  | xa3 => Some LOG3 | xa4 => Some LOG4 | xf0 => Some SELFDESTRUCT
  | _ => None
  end.

Lemma decode_encode op : decode (encode op) = Some op.
Proof. by destruct op. Qed.

Lemma encode_inj a b : encode a = encode b -> a = b.
Proof. intros H. pose proof (decode_encode a) as E. rewrite H, decode_encode in E. congruence. Qed.

#[export] Instance OpCode_eq_dec : EqDecision OpCode.
Proof.
  intros a b. destruct (decide (encode a = encode b)) as [E|E].
  - left. by apply encode_inj.
  - right. intros ->. by apply E.
Defined.

Record OpCodeInfo : Set := mkInfo {
  Name : string;
  StackPop : Z;
  StackPush : Z;
  GasCost : Z;
  ImmediateSize : Z;
  IsJump : bool;
  IsTerminal : bool
}.

(** The table entry without an immediate that neither jumps nor ends the run. *)
Definition plain (name : string) (pop push gas : Z) : OpCodeInfo :=
  mkInfo name pop push gas 0 false false.

(** The entries of the control-flow and stack instructions. *)
Definition stackInfo (op : OpCode) : option OpCodeInfo :=
  match op with
  | STOP => Some (mkInfo "STOP" 0 0 0 0 false true)
  | JUMP => Some (mkInfo "JUMP" 1 0 8 0 true false)
  | JUMPI => Some (mkInfo "JUMPI" 2 0 10 0 true false)
  | JUMPDEST => Some (plain "JUMPDEST" 0 0 1)
  | PC => Some (plain "PC" 0 1 2)
  | NOP => Some (plain "NOP" 0 0 1)
  | RETURN => Some (mkInfo "RETURN" 2 0 0 0 false true)
  | REVERT => Some (mkInfo "REVERT" 2 0 0 0 false true)
  | INVALID => Some (mkInfo "INVALID" 0 0 0 0 false true)
  | SIGNEXTEND => Some (plain "SIGNEXTEND" 2 1 5)
  | PUSH0 => Some (plain "PUSH0" 0 1 2)
  | PUSH1 => Some (mkInfo "PUSH1" 0 1 3 1 false false)
  | PUSH2 => Some (mkInfo "PUSH2" 0 1 3 2 false false)
  | PUSH3 => Some (mkInfo "PUSH3" 0 1 3 3 false false)
  | PUSH4 => Some (mkInfo "PUSH4" 0 1 3 4 false false)
  | PUSH5 => Some (mkInfo "PUSH5" 0 1 3 5 false false)
  | PUSH6 => Some (mkInfo "PUSH6" 0 1 3 6 false false)
  | PUSH7 => Some (mkInfo "PUSH7" 0 1 3 7 false false)
  | PUSH8 => Some (mkInfo "PUSH8" 0 1 3 8 false false)
  | PUSH9 => Some (mkInfo "PUSH9" 0 1 3 9 false false)
  | PUSH10 => Some (mkInfo "PUSH10" 0 1 3 10 false false)
  | PUSH11 => Some (mkInfo "PUSH11" 0 1 3 11 false false)
  | PUSH12 => Some (mkInfo "PUSH12" 0 1 3 12 false false)
  | PUSH13 => Some (mkInfo "PUSH13" 0 1 3 13 false false)
  | PUSH14 => Some (mkInfo "PUSH14" 0 1 3 14 false false)
  | PUSH15 => Some (mkInfo "PUSH15" 0 1 3 15 false false)
  | PUSH16 => Some (mkInfo "PUSH16" 0 1 3 16 false false)
  | PUSH17 => Some (mkInfo "PUSH17" 0 1 3 17 false false)
  | PUSH18 => Some (mkInfo "PUSH18" 0 1 3 18 false false)
  | PUSH19 => Some (mkInfo "PUSH19" 0 1 3 19 false false)
  | PUSH20 => Some (mkInfo "PUSH20" 0 1 3 20 false false)
  | PUSH21 => Some (mkInfo "PUSH21" 0 1 3 21 false false)
  | PUSH22 => Some (mkInfo "PUSH22" 0 1 3 22 false false)
  | PUSH23 => Some (mkInfo "PUSH23" 0 1 3 23 false false)
  | PUSH24 => Some (mkInfo "PUSH24" 0 1 3 24 false false)
  | PUSH25 => Some (mkInfo "PUSH25" 0 1 3 25 false false)
  | PUSH26 => Some (mkInfo "PUSH26" 0 1 3 26 false false)
  | PUSH27 => Some (mkInfo "PUSH27" 0 1 3 27 false false)
  | PUSH28 => Some (mkInfo "PUSH28" 0 1 3 28 false false)
  | PUSH29 => Some (mkInfo "PUSH29" 0 1 3 29 false false)
  | PUSH30 => Some (mkInfo "PUSH30" 0 1 3 30 false false)
  | PUSH31 => Some (mkInfo "PUSH31" 0 1 3 31 false false)
  | PUSH32 => Some (mkInfo "PUSH32" 0 1 3 32 false false)
  | POP => Some (plain "POP" 1 0 2)
  | DUP1 => Some (plain "DUP1" 1 1 3)
  | DUP2 => Some (plain "DUP2" 2 1 3)
  | DUP4 => Some (plain "DUP4" 4 1 3)
  | SWAP1 => Some (plain "SWAP1" 2 0 3)
  | SWAP2 => Some (plain "SWAP2" 3 0 3)
  | SWAP3 => Some (plain "SWAP3" 4 0 3)
  | SWAP4 => Some (plain "SWAP4" 5 0 3)
  | SWAP5 => Some (plain "SWAP5" 6 0 3)
  | SWAP6 => Some (plain "SWAP6" 7 0 3)
  | SWAP7 => Some (plain "SWAP7" 8 0 3)
  | SWAP8 => Some (plain "SWAP8" 9 0 3)
  | SWAP9 => Some (plain "SWAP9" 10 0 3)
  | SWAP10 => Some (plain "SWAP10" 11 0 3)
  | SWAP11 => Some (plain "SWAP11" 12 0 3)
  | SWAP12 => Some (plain "SWAP12" 13 0 3)
  | SWAP13 => Some (plain "SWAP13" 14 0 3)
  | SWAP14 => Some (plain "SWAP14" 15 0 3)
  | SWAP15 => Some (plain "SWAP15" 16 0 3)
  | SWAP16 => Some (plain "SWAP16" 17 0 3)
  | DUP3 => Some (plain "DUP3" 3 1 3)
  | DUP5 => Some (plain "DUP5" 5 1 3)
  | DUP6 => Some (plain "DUP6" 6 1 3)
  | DUP7 => Some (plain "DUP7" 7 1 3)
  | DUP8 => Some (plain "DUP8" 8 1 3)
  | DUP9 => Some (plain "DUP9" 9 1 3)
  | DUP10 => Some (plain "DUP10" 10 1 3)
  | DUP11 => Some (plain "DUP11" 11 1 3)
  | DUP12 => Some (plain "DUP12" 12 1 3)
  | DUP13 => Some (plain "DUP13" 13 1 3)
  | DUP14 => Some (plain "DUP14" 14 1 3)
  | DUP15 => Some (plain "DUP15" 15 1 3)
  | DUP16 => Some (plain "DUP16" 16 1 3)
  | _ => None
  end.

(** The table. The first match lists the remaining sections of the source. *)
Definition opcodeInfoTable (op : OpCode) : OpCodeInfo :=
  match op with
  | ADD => plain "ADD" 2 1 3
  | SUB => plain "SUB" 2 1 3
  | MUL => plain "MUL" 2 1 5
  | DIV => plain "DIV" 2 1 5
  | MOD => plain "MOD" 2 1 5
  | SDIV => plain "SDIV" 2 1 5
  | SMOD => plain "SMOD" 2 1 5
  | ADDMOD => plain "ADDMOD" 3 1 8
  | MULMOD => plain "MULMOD" 3 1 8
  | EXP => plain "EXP" 2 1 10
  | LT => plain "LT" 2 1 3
  | GT => plain "GT" 2 1 3
  | SLT => plain "SLT" 2 1 3
  | SGT => plain "SGT" 2 1 3
  | EQ => plain "EQ" 2 1 3
  | ISZERO => plain "ISZERO" 1 1 3
  | AND => plain "AND" 2 1 3
  | OR => plain "OR" 2 1 3
  | XOR => plain "XOR" 2 1 3
  | NOT => plain "NOT" 1 1 3
  | SHL => plain "SHL" 2 1 3
  | SHR => plain "SHR" 2 1 3
  | SAR => plain "SAR" 2 1 3
  | BYTE => plain "BYTE" 2 1 3
  | MLOAD => plain "MLOAD" 1 1 3
  | MSTORE => plain "MSTORE" 2 0 3
  | MSTORE8 => plain "MSTORE8" 2 0 3
  | MSIZE => plain "MSIZE" 0 1 2
  | MCOPY => plain "MCOPY" 3 0 3
  | SLOAD => plain "SLOAD" 1 1 100
  | SSTORE => plain "SSTORE" 2 0 100
  | TLOAD => plain "TLOAD" 1 1 100
  | TSTORE => plain "TSTORE" 2 0 100
  | ADDRESS => plain "ADDRESS" 0 1 2
  | BALANCE => plain "BALANCE" 1 1 100
  | ORIGIN => plain "ORIGIN" 0 1 2
  | CALLER => plain "CALLER" 0 1 2
  | CALLVALUE => plain "CALLVALUE" 0 1 2
  | CALLDATALOAD => plain "CALLDATALOAD" 1 1 3
  | CALLDATASIZE => plain "CALLDATASIZE" 0 1 2
  | CALLDATACOPY => plain "CALLDATACOPY" 3 0 3
  | CODESIZE => plain "CODESIZE" 0 1 2
  | CODECOPY => plain "CODECOPY" 3 0 3
  | GASPRICE => plain "GASPRICE" 0 1 2
  | GASLIMIT => plain "GASLIMIT" 0 1 2
  | GAS => plain "GAS" 0 1 2
  | BLOCKHASH => plain "BLOCKHASH" 1 1 20
  | COINBASE => plain "COINBASE" 0 1 2
  | TIMESTAMP => plain "TIMESTAMP" 0 1 2
  | NUMBER => plain "NUMBER" 0 1 2
  | CHAINID => plain "CHAINID" 0 1 2
  | SELFBALANCE => plain "SELFBALANCE" 0 1 5
  | EXTCODESIZE => plain "EXTCODESIZE" 1 1 100
  | EXTCODECOPY => plain "EXTCODECOPY" 4 0 3
  | EXTCODEHASH => plain "EXTCODEHASH" 1 1 100
  | PREVRANDAO => plain "PREVRANDAO" 0 1 2
  | BLOBHASH => plain "BLOBHASH" 1 1 2
  | BASEFEE => plain "BASEFEE" 0 1 2
  | BLOBBASEFEE => plain "BLOBBASEFEE" 0 1 2
  | SHA3 => plain "SHA3" 2 1 30
  | KECCAK256 => plain "KECCAK256" 2 1 30
  | RETURNDATASIZE => plain "RETURNDATASIZE" 0 1 2
  | RETURNDATACOPY => plain "RETURNDATACOPY" 3 0 3
  | KYBER_KEYGEN => plain "KYBER_KEYGEN" 0 2 50000
  | KYBER_ENCAPS => plain "KYBER_ENCAPS" 1 2 25000
  | KYBER_DECAPS => plain "KYBER_DECAPS" 2 1 25000
  | KYBER_ZERO_KEY => plain "KYBER_ZERO_KEY" 2 0 3
  | CALL => plain "CALL" 7 1 0
  | CALLCODE => plain "CALLCODE" 7 1 0
  | DELEGATECALL => plain "DELEGATECALL" 6 1 0
  | STATICCALL => plain "STATICCALL" 6 1 0
  | CREATE => plain "CREATE" 3 1 0
  | CREATE2 => plain "CREATE2" 4 1 0
  | AUTH => plain "AUTH" 3 1 0
  | AUTHCALL => plain "AUTHCALL" 7 1 0
  | LOG0 => plain "LOG0" 2 0 375
  | LOG1 => plain "LOG1" 3 0 375
  | LOG2 => plain "LOG2" 4 0 375
  | LOG3 => plain "LOG3" 5 0 375
  | LOG4 => plain "LOG4" 6 0 375
  | SELFDESTRUCT => mkInfo "SELFDESTRUCT" 1 0 0 0 false true
  | op => default (plain EmptyString 0 0 0) (stackInfo op)
  end.
Definition isDupOrSwap (op : OpCode) : bool :=
  match op with
  | DUP1 | DUP2 | DUP3 | DUP4
  | DUP5 | DUP6 | DUP7 | DUP8 | DUP9 | DUP10 | DUP11 | DUP12 | DUP13 | DUP14 | DUP15 | DUP16
  | SWAP1 | SWAP2 | SWAP3 | SWAP4
  | SWAP5 | SWAP6 | SWAP7 | SWAP8 | SWAP9 | SWAP10 | SWAP11 | SWAP12 | SWAP13 | SWAP14
  | SWAP15 | SWAP16 => true
  | _ => false
  end.

(** [op.GetInfo()] on a byte of the code; [None] is the result [false]. *)
Definition GetInfo (b : byte) : option OpCodeInfo := opcodeInfoTable <$> decode b.

Definition OpCode_String (b : byte) : string :=
  match decode b with
  | Some op => Name (opcodeInfoTable op)
  | None => "UNKNOWN"
  end.

Definition IsValid (b : byte) : bool :=
  match decode b with Some _ => true | None => false end.

Definition IsPush (b : byte) : bool :=
  ((b2z (encode PUSH1) <=? b2z b) && (b2z b <=? b2z (encode PUSH32))) ||
  ((b2z (encode PUSH3) <=? b2z b) && (b2z b <=? b2z (encode PUSH31))).

Definition PushSize (b : byte) : Z :=
  match decode b with Some op => ImmediateSize (opcodeInfoTable op) | None => 0 end.

(** ** Lemmas *)

Lemma encode_decode b op : decode b = Some op -> encode op = b.
Proof. destruct b; simpl; intros [= <-]; done. Qed.

(** Every entry of the table has a name, so an empty name marks an unused
    slot. *)
Lemma table_named op : Name (opcodeInfoTable op) <> EmptyString.
Proof. by destruct op. Qed.

(** The two ranges of [IsPush] are the instructions with an immediate. *)
Lemma IsPush_PushSize b : IsPush b = (0 <? PushSize b).
Proof. by destruct b. Qed.

Lemma PushSize_range b : 0 <= PushSize b <= 32.
Proof. destruct b; vm_compute; split; congruence. Qed.

Lemma PushSize_not_push b : IsPush b = false -> PushSize b = 0.
Proof.
  rewrite IsPush_PushSize. pose proof (PushSize_range b). rewrite Z.ltb_ge. lia.
Qed.

Lemma table_ranges op :
  0 <= StackPop (opcodeInfoTable op) <= 17 /\ 0 <= StackPush (opcodeInfoTable op) <= 2 /\
  0 <= GasCost (opcodeInfoTable op) <= 50000.
Proof. destruct op; vm_compute; repeat split; congruence. Qed.

#[export] Hint Resolve PushSize_range : qvm.
