(* ===== verification/StateDB.v ===== *)
(** * The state database the machine runs against (qvm/qvm.go, [StateDB])

    [StateDB] is the interface of the source: the operations contract
    execution calls. [StateDBLaws] states what an implementation promises: a
    [view] of the accounts every getter reads, the effect of every setter on
    it, and the snapshot journal. The interpreter's theorems are proved against
    the laws; file Rollup proves them of an implementation of the
    repository. *)

From Stdlib Require Import ZArith Lia.
From Stdlib.Strings Require Import Byte.
From stdpp Require Import base list countable gmap strings numbers.
From S2P Require Import Prelude Stack.

(** [GetBalance] and [GetNonce] take and return the state because
    implementations may create the account they read. [GetCommittedState] and
    [ReleaseSnapshot] are the optional capabilities [committedStateReader] and
    [snapshotReleaser]. *)
Class StateDB (DB : Type) : Type := {
  GetBalance : Address -> DB -> Z * DB;
  SetBalance : Address -> Z -> DB -> DB;
  GetNonce : Address -> DB -> Z * DB;
  SetNonce : Address -> Z -> DB -> DB;
  GetCode : Address -> DB -> list byte;
  SetCode : Address -> list byte -> DB -> DB;
  GetCodeHash : Address -> DB -> Hash;
  GetCodeSize : Address -> DB -> Z;
  GetState : Address -> Hash -> DB -> Hash;
  SetState : Address -> Hash -> Hash -> DB -> DB;
  Exist : Address -> DB -> bool;
  Empty : Address -> DB -> bool;
  Snapshot : DB -> Z * DB;
  RevertToSnapshot : Z -> DB -> DB;
  SelfDestruct : Address -> DB -> DB;
  HasSelfDestructed : Address -> DB -> bool;
  AddAddressToAccessList : Address -> DB -> DB;
  AddSlotToAccessList : Address -> Hash -> DB -> DB;
  AddressInAccessList : Address -> DB -> bool;
  SlotInAccessList : Address -> Hash -> DB -> bool * bool;
  GetCommittedState : option (Address -> Hash -> DB -> Hash);
  ReleaseSnapshot : option (Z -> DB -> DB)
}.

(** [releaseFrame] *)
Definition releaseFrame `{StateDB DB} (id : Z) (s : DB) : DB :=
  if id <? 0 then s else
  match ReleaseSnapshot with
  | Some release => release id s
  | None => s
  end.

(** ** The abstract state *)

Record Account : Type := mkAccount {
  acc_balance : Z;
  acc_nonce : Z;
  acc_code : list byte;
  acc_storage : gmap Hash Hash
}.

Definition empty_account : Account := mkAccount 0 0 [] ∅.

Abbreviation View := (gmap Address Account).

Definition account (v : View) (a : Address) : Account := default empty_account (v !! a).

Definition upd (a : Address) (f : Account -> Account) (v : View) : View :=
  <[a := f (account v a)]> v.

Definition set_balance (b : Z) (x : Account) : Account :=
  mkAccount b (acc_nonce x) (acc_code x) (acc_storage x).
Definition set_nonce (n : Z) (x : Account) : Account :=
  mkAccount (acc_balance x) n (acc_code x) (acc_storage x).
Definition set_code (c : list byte) (x : Account) : Account :=
  mkAccount (acc_balance x) (acc_nonce x) c (acc_storage x).
Definition set_storage (k v : Hash) (x : Account) : Account :=
  mkAccount (acc_balance x) (acc_nonce x) (acc_code x) (<[k := v]> (acc_storage x)).

(** Two accounts a contract cannot tell apart: storage slots that were never
    written read as zero. *)
Definition slot (x : Account) (k : Hash) : Hash := default (zero_array 32) (acc_storage x !! k).

Definition acc_eq (x y : Account) : Prop :=
  acc_balance x = acc_balance y /\ acc_nonce x = acc_nonce y /\
  acc_code x = acc_code y /\ forall k, slot x k = slot y k.

(** Two states a contract cannot tell apart: an account that was never touched
    is an empty one. *)
Definition view_eq (v w : View) : Prop := forall a, acc_eq (account v a) (account w a).

Declare Scope view_scope.
Infix "≈" := view_eq (at level 70) : view_scope.
#[global] Open Scope view_scope.

#[export] Instance acc_eq_equiv : Equivalence acc_eq.
Proof.
  split.
  - by intros x.
  - intros x y (? & ? & ? & H). by repeat split.
  - intros x y z (? & ? & ? & H) (? & ? & ? & K). repeat split; congruence.
Qed.

#[export] Instance view_eq_equiv : Equivalence view_eq.
Proof.
  split.
  - intros v a. reflexivity.
  - intros v w H a. symmetry. apply H.
  - intros u v w H K a. etransitivity; [apply H | apply K].
Qed.

Lemma account_upd v a f b :
  account (upd a f v) b = if decide (a = b) then f (account v a) else account v b.
Proof.
  unfold account at 1, upd. destruct (decide (a = b)) as [->|].
  - by rewrite lookup_insert_eq.
  - by rewrite lookup_insert_ne.
Qed.

#[export] Instance upd_proper a :
  Proper ((acc_eq ==> acc_eq) ==> view_eq ==> view_eq) (upd a).
Proof.
  intros f g Hfg v w Hvw b. rewrite !account_upd. case_decide; [apply Hfg|]; apply Hvw.
Qed.

#[export] Instance set_balance_proper b : Proper (acc_eq ==> acc_eq) (set_balance b).
Proof. intros x y (? & ? & ? & ?). by repeat split. Qed.
#[export] Instance set_nonce_proper n : Proper (acc_eq ==> acc_eq) (set_nonce n).
Proof. intros x y (? & ? & ? & ?). by repeat split. Qed.
#[export] Instance set_code_proper c : Proper (acc_eq ==> acc_eq) (set_code c).
Proof. intros x y (? & ? & ? & ?). by repeat split. Qed.
#[export] Instance set_storage_proper k v : Proper (acc_eq ==> acc_eq) (set_storage k v).
Proof.
  intros x y (? & ? & ? & H). repeat split; try done. intros j. unfold slot. simpl.
  destruct (decide (k = j)) as [->|].
  - by rewrite !lookup_insert_eq.
  - rewrite !lookup_insert_ne by done. apply H.
Qed.

(** ** Total supply *)

Definition balance_of (v : View) (a : Address) : Z := acc_balance (account v a).

Definition supply_on (X : gset Address) (v : View) : Z :=
  set_fold (fun a z => balance_of v a + z) 0 X.

(** The sum of all balances. *)
Definition supply (v : View) : Z := supply_on (dom v) v.

Lemma supply_on_insert a X v :
  a ∉ X -> supply_on ({[a]} ∪ X) v = balance_of v a + supply_on X v.
Proof.
  intros H. unfold supply_on.
  rewrite (union_comm_L {[a]} X).
  rewrite (set_fold_disj_union_strong (=)); [|solve_proper|intros; lia|set_solver].
  by rewrite set_fold_singleton.
Qed.

Lemma supply_on_ext X v w :
  (forall a, a ∈ X -> balance_of v a = balance_of w a) -> supply_on X v = supply_on X w.
Proof.
  induction X as [|a X Ha IH] using set_ind_L; [done|].
  intros H. rewrite !supply_on_insert by done.
  rewrite (H a), IH; [done | |set_solver]. intros. apply H. set_solver.
Qed.

Lemma supply_on_subset X Y v :
  X ⊆ Y -> (forall a, a ∈ Y -> a ∉ X -> balance_of v a = 0) ->
  supply_on Y v = supply_on X v.
Proof.
  intros HXY H. rewrite (union_difference_L X Y HXY).
  assert (K : forall a, a ∈ Y ∖ X -> balance_of v a = 0) by set_solver.
  revert K. generalize (Y ∖ X). intros Z.
  induction Z as [|a Z Ha IH] using set_ind_L; intros K; [by rewrite (right_id_L ∅ (∪))|].
  destruct (decide (a ∈ X)).
  - replace (X ∪ ({[a]} ∪ Z)) with (X ∪ Z) by set_solver. apply IH. set_solver.
  - replace (X ∪ ({[a]} ∪ Z)) with ({[a]} ∪ (X ∪ Z)) by set_solver.
    rewrite supply_on_insert by set_solver. rewrite K by set_solver. rewrite IH; [done|set_solver].
Qed.

Lemma balance_not_in_dom v a : a ∉ dom v -> balance_of v a = 0.
Proof. intros H. apply not_elem_of_dom in H. unfold balance_of, account. by rewrite H. Qed.

Lemma supply_superset X v : dom v ⊆ X -> supply_on X v = supply v.
Proof. intros H. apply supply_on_subset; [done|]. intros. by apply balance_not_in_dom. Qed.

Lemma supply_ext v w : (forall a, balance_of v a = balance_of w a) -> supply v = supply w.
Proof.
  intros H. rewrite <- (supply_superset (dom v ∪ dom w) v) by set_solver.
  rewrite <- (supply_superset (dom v ∪ dom w) w) by set_solver.
  apply supply_on_ext. intros. apply H.
Qed.

#[export] Instance balance_of_proper : Proper (view_eq ==> eq ==> eq) balance_of.
Proof. intros v w H a ? <-. apply (H a). Qed.

#[export] Instance supply_proper : Proper (view_eq ==> eq) supply.
Proof. intros v w H. apply supply_ext. intros a. apply (H a). Qed.

(** Changing one balance moves the supply by the difference. *)
Lemma supply_change v w a :
  (forall b, b <> a -> balance_of w b = balance_of v b) ->
  supply w = supply v + (balance_of w a - balance_of v a).
Proof.
  intros H.
  set (X := dom v ∪ dom w ∪ {[a]}).
  rewrite <- (supply_superset X w), <- (supply_superset X v) by set_solver.
  replace X with ({[a]} ∪ (X ∖ {[a]})).
  - rewrite !supply_on_insert by set_solver.
    rewrite (supply_on_ext (X ∖ {[a]}) w v); [lia|]. set_solver.
  - unfold X. apply set_eq. intros x. destruct (decide (x = a)); set_solver.
Qed.

Lemma supply_upd v a f :
  supply (upd a f v) = supply v + (acc_balance (f (account v a)) - balance_of v a).
Proof.
  rewrite (supply_change v (upd a f v) a).
  - unfold balance_of at 1. rewrite account_upd, decide_True by done. done.
  - intros b Hb. unfold balance_of. by rewrite account_upd, decide_False by done.
Qed.

(** ** The laws *)

Class StateDBLaws (DB : Type) `{!StateDB DB} : Type := {
  view : DB -> View;
  journal : DB -> list View;

  view_GetBalance a s : view (GetBalance a s).2 ≈ view s;
  GetBalance_view a s : (GetBalance a s).1 = balance_of (view s) a;
  view_GetNonce a s : view (GetNonce a s).2 ≈ view s;
  GetNonce_view a s : (GetNonce a s).1 = acc_nonce (account (view s) a);
  GetCode_view a s : GetCode a s = acc_code (account (view s) a);
  GetState_view a k s : GetState a k s = slot (account (view s) a) k;

  view_SetBalance a b s : view (SetBalance a b s) ≈ upd a (set_balance b) (view s);
  view_SetNonce a n s : view (SetNonce a n s) ≈ upd a (set_nonce n) (view s);
  view_SetCode a c s : view (SetCode a c s) ≈ upd a (set_code c) (view s);
  view_SetState a k v s : view (SetState a k v s) ≈ upd a (set_storage k v) (view s);
  view_AddAddressToAccessList a s : view (AddAddressToAccessList a s) ≈ view s;
  view_AddSlotToAccessList a k s : view (AddSlotToAccessList a k s) ≈ view s;

  (** Self-destruction changes no other account and mints nothing. *)
  view_SelfDestruct a b s :
    b <> a -> acc_eq (account (view (SelfDestruct a s)) b) (account (view s) b);
  balance_SelfDestruct a s :
    balance_of (view (SelfDestruct a s)) a = balance_of (view s) a \/
    balance_of (view (SelfDestruct a s)) a = 0;
  code_SelfDestruct a s :
    acc_code (account (view (SelfDestruct a s)) a) = acc_code (account (view s) a) \/
    acc_code (account (view (SelfDestruct a s)) a) = [];

  (** The journal: a snapshot that is not refused is the index of the view it
      saved; reverting restores that view and drops the later ones. *)
  Snapshot_refused s :
    (Snapshot s).1 < 0 -> view (Snapshot s).2 ≈ view s /\ journal (Snapshot s).2 = journal s;
  Snapshot_taken s :
    0 <= (Snapshot s).1 ->
    (Snapshot s).1 = len (journal s) /\ view (Snapshot s).2 ≈ view s /\
    journal (Snapshot s).2 = journal s ++ [view s];
  Revert_view id v s :
    0 <= id -> journal s !! Z.to_nat id = Some v ->
    view (RevertToSnapshot id s) ≈ v /\
    journal (RevertToSnapshot id s) = take (Z.to_nat id) (journal s);
  Release_view release id s :
    ReleaseSnapshot = Some release -> 0 <= id < len (journal s) ->
    view (release id s) ≈ view s /\ journal (release id s) = take (Z.to_nat id) (journal s);

  journal_GetBalance a s : journal (GetBalance a s).2 = journal s;
  journal_GetNonce a s : journal (GetNonce a s).2 = journal s;
  journal_SetBalance a b s : journal (SetBalance a b s) = journal s;
  journal_SetNonce a n s : journal (SetNonce a n s) = journal s;
  journal_SetCode a c s : journal (SetCode a c s) = journal s;
  journal_SetState a k v s : journal (SetState a k v s) = journal s;
  journal_AddAddressToAccessList a s : journal (AddAddressToAccessList a s) = journal s;
  journal_AddSlotToAccessList a k s : journal (AddSlotToAccessList a k s) = journal s;
  journal_SelfDestruct a s : journal (SelfDestruct a s) = journal s
}.

#[export] Hint Rewrite @journal_GetBalance @journal_GetNonce @journal_SetBalance
  @journal_SetNonce @journal_SetCode @journal_SetState @journal_AddAddressToAccessList
  @journal_AddSlotToAccessList @journal_SelfDestruct : qvm.
