(* ===== verification/Rollup.v ===== *)
(** * The rollup's state database (rollup/state_db.go)

    [rollupStateDB] adapts the account map of the rollup to the interface the
    machine runs against: a map of accounts and a stack of deep copies. The
    instance at the end proves that it keeps the laws of [StateDBLaws], so
    every theorem about the machine holds over the rollup's state. The hash of
    the code is a parameter. Addresses and hashes of the two packages are the
    same arrays, so their conversions are the identity; the balance and the
    storage map of an account are never nil, since every constructor of the
    package allocates them. *)

From Stdlib Require Import ZArith Lia.
From Stdlib.Strings Require Import Byte.
From stdpp Require Import base list countable gmap strings numbers.
From S2P Require Import Prelude Stack StateDB.

Record RollupAccount : Type := mkRollupAccount {
  ra_Nonce : Z;
  ra_Balance : Z;
  ra_CodeHash : Hash;
  ra_Storage : gmap Hash Hash;
  ra_Code : list byte
}.

Record rollupStateDB : Type := mkRollup {
  rs_states : gmap Address RollupAccount;
  rs_snapshots : list (gmap Address RollupAccount)
}.

Definition newRollupStateDB (states : gmap Address RollupAccount) : rollupStateDB :=
  mkRollup states [].

Definition emptyRollupAccount : RollupAccount := mkRollupAccount 0 0 (zero_array 32) ∅ [].

Module RollupOps.
Section ops.
Context (sha256 : list byte -> Hash).
Implicit Types s : rollupStateDB.

(** The account, and the state in which it exists. *)
Definition getOrCreate (addr : Address) s : RollupAccount * rollupStateDB :=
  match rs_states s !! addr with
  | Some acc => (acc, s)
  | None => (emptyRollupAccount, mkRollup (<[addr := emptyRollupAccount]> (rs_states s)) (rs_snapshots s))
  end.

(** Writing a field of the account through its pointer. *)
Definition update (addr : Address) (f : RollupAccount -> RollupAccount) s : rollupStateDB :=
  let '(acc, s1) := getOrCreate addr s in
  mkRollup (<[addr := f acc]> (rs_states s1)) (rs_snapshots s1).

Definition GetBalance (addr : Address) s : Z * rollupStateDB :=
  let '(acc, s1) := getOrCreate addr s in (ra_Balance acc, s1).

Definition SetBalance (addr : Address) (balance : Z) s : rollupStateDB :=
  update addr (fun a => mkRollupAccount (ra_Nonce a) balance (ra_CodeHash a) (ra_Storage a) (ra_Code a)) s.

Definition GetNonce (addr : Address) s : Z * rollupStateDB :=
  let '(acc, s1) := getOrCreate addr s in (ra_Nonce acc, s1).

Definition SetNonce (addr : Address) (nonce : Z) s : rollupStateDB :=
  update addr (fun a => mkRollupAccount nonce (ra_Balance a) (ra_CodeHash a) (ra_Storage a) (ra_Code a)) s.

Definition GetCode (addr : Address) s : list byte :=
  match rs_states s !! addr with Some acc => ra_Code acc | None => [] end.

Definition SetCode (addr : Address) (code : list byte) s : rollupStateDB :=
  update addr (fun a =>
    let hash := if len code =? 0 then zero_array 32 else sha256 code in
    mkRollupAccount (ra_Nonce a) (ra_Balance a) hash (ra_Storage a) code) s.

Definition GetCodeHash (addr : Address) s : Hash :=
  match rs_states s !! addr with Some acc => ra_CodeHash acc | None => zero_array 32 end.

Definition GetCodeSize (addr : Address) s : Z :=
  match rs_states s !! addr with Some acc => len (ra_Code acc) | None => 0 end.

Definition GetState (addr : Address) (key : Hash) s : Hash :=
  match rs_states s !! addr with
  | Some acc => default (zero_array 32) (ra_Storage acc !! key)
  | None => zero_array 32
  end.

Definition SetState (addr : Address) (key value : Hash) s : rollupStateDB :=
  update addr (fun a => mkRollupAccount (ra_Nonce a) (ra_Balance a) (ra_CodeHash a)
                          (<[key := value]> (ra_Storage a)) (ra_Code a)) s.

Definition Exist (addr : Address) s : bool :=
  match rs_states s !! addr with
  | Some acc => (0 <? ra_Nonce acc) || (0 <? ra_Balance acc) || (0 <? len (ra_Code acc))
  | None => false
  end.

Definition Empty (addr : Address) s : bool :=
  match rs_states s !! addr with
  | Some acc => (ra_Nonce acc =? 0) && (ra_Balance acc =? 0) && (len (ra_Code acc) =? 0)
  | None => true
  end.

Definition Snapshot s : Z * rollupStateDB :=
  (len (rs_snapshots s), mkRollup (rs_states s) (rs_snapshots s ++ [rs_states s])).

Definition RevertToSnapshot (id : Z) s : rollupStateDB :=
  if (id <? 0) || (len (rs_snapshots s) <=? id) then s else
  match rs_snapshots s !! Z.to_nat id with
  | Some snap => mkRollup snap (take (Z.to_nat id) (rs_snapshots s))
  | None => s
  end.

Definition SelfDestruct (addr : Address) s : rollupStateDB :=
  match rs_states s !! addr with
  | Some acc => mkRollup (<[addr := mkRollupAccount (ra_Nonce acc) 0 (zero_array 32) ∅ []]> (rs_states s))
                  (rs_snapshots s)
  | None => s
  end.

Definition HasSelfDestructed (addr : Address) s : bool :=
  match rs_states s !! addr with
  | Some acc => (len (ra_Code acc) =? 0) && bool_decide (ra_CodeHash acc = zero_array 32) &&
                (ra_Balance acc =? 0) && bool_decide (size (ra_Storage acc) = 0%nat)
  | None => false
  end.
End ops.
End RollupOps.

(** The state type with its hash function, so that instances find it. *)
Definition RollupDB (sha256 : list byte -> Hash) : Type := rollupStateDB.

#[export] Instance rollup_StateDB sha256 : StateDB (RollupDB sha256) := {
  GetBalance := RollupOps.GetBalance;
  SetBalance := RollupOps.SetBalance;
  GetNonce := RollupOps.GetNonce;
  SetNonce := RollupOps.SetNonce;
  GetCode := RollupOps.GetCode;
  SetCode := RollupOps.SetCode sha256;
  GetCodeHash := RollupOps.GetCodeHash;
  GetCodeSize := RollupOps.GetCodeSize;
  GetState := RollupOps.GetState;
  SetState := RollupOps.SetState;
  Exist := RollupOps.Exist;
  Empty := RollupOps.Empty;
  Snapshot := RollupOps.Snapshot;
  RevertToSnapshot := RollupOps.RevertToSnapshot;
  SelfDestruct := RollupOps.SelfDestruct;
  HasSelfDestructed := RollupOps.HasSelfDestructed;
  AddAddressToAccessList := fun _ s => s;
  AddSlotToAccessList := fun _ _ s => s;
  AddressInAccessList := fun _ _ => false;
  SlotInAccessList := fun _ _ _ => (false, false);
  GetCommittedState := None;
  ReleaseSnapshot := None
}.

(** ** The laws *)

Definition of_rollup (a : RollupAccount) : Account :=
  mkAccount (ra_Balance a) (ra_Nonce a) (ra_Code a) (ra_Storage a).

Definition view_of (m : gmap Address RollupAccount) : View := of_rollup <$> m.

(** The account a getter sees. *)
Definition acc_of (m : gmap Address RollupAccount) (a : Address) : RollupAccount :=
  default emptyRollupAccount (m !! a).

Lemma account_view_of m a : account (view_of m) a = of_rollup (acc_of m a).
Proof. unfold account, view_of, acc_of. rewrite lookup_fmap. by destruct (m !! a). Qed.

Lemma getOrCreate_eq addr s :
  (RollupOps.getOrCreate addr s).1 = acc_of (rs_states s) addr /\
  rs_snapshots (RollupOps.getOrCreate addr s).2 = rs_snapshots s /\
  view_of (rs_states (RollupOps.getOrCreate addr s).2) ≈ view_of (rs_states s).
Proof.
  unfold RollupOps.getOrCreate, acc_of. destruct (rs_states s !! addr) eqn:E; simpl; [done|].
  split; [done|]. split; [done|]. intros b. rewrite !account_view_of. unfold acc_of.
  destruct (decide (addr = b)) as [->|]; [by rewrite lookup_insert_eq, E|by rewrite lookup_insert_ne].
Qed.

(** A write is the corresponding update of the view. *)
Lemma update_view addr f g s :
  (forall a, of_rollup (f a) = g (of_rollup a)) ->
  rs_snapshots (RollupOps.update addr f s) = rs_snapshots s /\
  view_of (rs_states (RollupOps.update addr f s)) ≈ upd addr g (view_of (rs_states s)).
Proof.
  intros Hfg. unfold RollupOps.update. destruct (getOrCreate_eq addr s) as (E1 & E2 & E3).
  destruct (RollupOps.getOrCreate addr s) as [acc s1]. simpl in *. subst acc. split; [done|].
  intros b. rewrite account_upd, account_view_of. unfold acc_of at 1.
  destruct (decide (addr = b)) as [->|N].
  - rewrite lookup_insert_eq. simpl. by rewrite Hfg, account_view_of.
  - rewrite lookup_insert_ne by done. fold (acc_of (rs_states s1) b). rewrite <- account_view_of. apply E3.
Qed.

Lemma selfDestruct_other a b s :
  b <> a -> acc_of (rs_states (RollupOps.SelfDestruct a s)) b = acc_of (rs_states s) b.
Proof.
  intros H. unfold RollupOps.SelfDestruct, acc_of. destruct (rs_states s !! a); [|done]. simpl.
  by rewrite lookup_insert_ne.
Qed.

Lemma selfDestruct_self a s :
  rs_snapshots (RollupOps.SelfDestruct a s) = rs_snapshots s /\
  (acc_of (rs_states (RollupOps.SelfDestruct a s)) a = acc_of (rs_states s) a \/
   exists n, acc_of (rs_states (RollupOps.SelfDestruct a s)) a =
     mkRollupAccount n 0 (zero_array 32) ∅ []).
Proof.
  unfold RollupOps.SelfDestruct, acc_of. destruct (rs_states s !! a) eqn:E; [|split; [done|left; by rewrite E]].
  simpl. split; [done|]. right. rewrite lookup_insert_eq. by eexists.
Qed.

Lemma revert_eq id m s :
  0 <= id -> rs_snapshots s !! Z.to_nat id = Some m ->
  RollupOps.RevertToSnapshot id s = mkRollup m (take (Z.to_nat id) (rs_snapshots s)).
Proof.
  intros H E. unfold RollupOps.RevertToSnapshot. apply lookup_lt_Some in E as L. rewrite E.
  unfold len. rewrite (proj2 (Z.ltb_ge _ _)), (proj2 (Z.leb_gt _ _)) by lia. done.
Qed.

Lemma journal_lookup (l : list (gmap Address RollupAccount)) n v :
  (view_of <$> l) !! n = Some v -> exists m, l !! n = Some m /\ v = view_of m.
Proof. rewrite list_lookup_fmap. destruct (l !! n) as [m|]; [|done]. intros [= <-]. by exists m. Qed.

#[export] Instance rollup_laws sha256 : StateDBLaws (RollupDB sha256).
Proof.
  refine {| view := fun s : RollupDB sha256 => view_of (rs_states s);
            journal := fun s : RollupDB sha256 => view_of <$> rs_snapshots s |}; simpl.
  - intros a s. unfold RollupOps.GetBalance. destruct (getOrCreate_eq a s) as (_ & _ & E).
    by destruct (RollupOps.getOrCreate a s).
  - intros a s. unfold RollupOps.GetBalance, balance_of. destruct (getOrCreate_eq a s) as (E & _ & _).
    rewrite account_view_of. destruct (RollupOps.getOrCreate a s). simpl in *. by rewrite E.
  - intros a s. unfold RollupOps.GetNonce. destruct (getOrCreate_eq a s) as (_ & _ & E).
    by destruct (RollupOps.getOrCreate a s).
  - intros a s. unfold RollupOps.GetNonce. destruct (getOrCreate_eq a s) as (E & _ & _).
    rewrite account_view_of. destruct (RollupOps.getOrCreate a s). simpl in *. by rewrite E.
  - intros a s. rewrite account_view_of. unfold RollupOps.GetCode, acc_of. by destruct (rs_states s !! a).
  - intros a k s. rewrite account_view_of. unfold RollupOps.GetState, acc_of, slot.
    destruct (rs_states s !! a); simpl; [done|]. by rewrite lookup_empty.
  - intros a b s. by apply update_view.
  - intros a n s. by apply update_view.
  - intros a c s. by apply update_view.
  - intros a k v s. by apply update_view.
  - done.
  - done.
  - intros a b s H. rewrite !account_view_of. by rewrite selfDestruct_other.
  - intros a s. unfold balance_of. rewrite !account_view_of.
    destruct (selfDestruct_self a s) as [_ [->|[n ->]]]; [by left|by right].
  - intros a s. rewrite !account_view_of.
    destruct (selfDestruct_self a s) as [_ [->|[n ->]]]; [by left|by right].
  - intros s H. pose proof (len_nonneg (rs_snapshots s)). lia.
  - intros s _. split; [unfold len; by rewrite length_fmap|]. split; [done|]. by rewrite fmap_app.
  - intros id v s Hid HJ. apply journal_lookup in HJ as (m & HJ & ->).
    rewrite (revert_eq id m s Hid HJ). simpl. split; [done|]. by rewrite fmap_take.
  - done.
  - intros a s. unfold RollupOps.GetBalance. destruct (getOrCreate_eq a s) as (_ & E & _).
    destruct (RollupOps.getOrCreate a s). simpl in *. by rewrite E.
  - intros a s. unfold RollupOps.GetNonce. destruct (getOrCreate_eq a s) as (_ & E & _).
    destruct (RollupOps.getOrCreate a s). simpl in *. by rewrite E.
  - intros a b s. f_equal. eapply (update_view a _ (set_balance b)). done.
  - intros a n s. f_equal. eapply (update_view a _ (set_nonce n)). done.
  - intros a c s. f_equal. eapply (update_view a _ (set_code c)). done.
  - intros a k v s. f_equal. eapply (update_view a _ (set_storage k v)). done.
  - done.
  - done.
  - intros a s. f_equal. apply selfDestruct_self.
Defined.
