(* ===== verification/Env.v ===== *)
(** * Execution context, environment and the shared world
    (qvm/qvm.go, qvm/environment.go)

    [Environment] is the state of one call frame. What the frames of a
    transaction share through pointers is kept in one [World]: the state
    database, the transient storage, the reentry counters, the sets of created
    and re-created contracts of the root environment, and the jump-destination
    cache of the interpreter. A frame holds a reference ([e_transientStorage])
    into the heap of transient-storage maps, because CREATE replaces the map of
    its own frame only. Of its ancestors a frame reads their active addresses,
    which do not change while it runs ([e_parents]). *)

From Stdlib Require Import ZArith Lia.
From Stdlib.Strings Require Import Byte.
From stdpp Require Import base list countable gmap strings numbers.
From S2P Require Import Prelude Stack Memory Gas Opcodes StateDB.

Definition MaxCodeSize : Z := 24576.
Definition MaxCallDepth : Z := 1024.
Definition MaxInitCodeSize : Z := 49152.
Definition MaxActiveCallDepth : Z := 1024.
Definition MaxReentriesPerAddress : Z := 10.

Record EventLog : Type := mkLog { log_Address : Address; log_Topics : list Hash; log_Data : list byte }.

Abbreviation TransientStorage := (gmap Address (gmap Hash Hash)).

(** What a frame reads of the frame that called it. *)
Record ParentEnv : Type := mkParent {
  pe_activeAddresses : list Address;
  pe_parents : list (list Address);
  pe_transientStorage : nat
}.

(** [GasPrice] and [Value] are pointers that may be nil; [AbortCh] tells, for each
    poll, whether the channel is closed. *)
Record ExecutionContext : Type := mkCtx {
  ctx_Origin : Address;
  ctx_GasPrice : option Z;
  ctx_Caller : Address;
  ctx_Address : Address;
  ctx_Value : option Z;
  ctx_BlockNumber : Z;
  ctx_Timestamp : Z;
  ctx_Coinbase : Address;
  ctx_GasLimit : Z;
  ctx_ChainID : Z;
  ctx_BlockHashes : gmap Z Hash;
  ctx_PrevRandao : Hash;
  ctx_BlobHashes : list Hash;
  ctx_BlobBaseFee : Z;
  ctx_BaseFee : Z;
  ctx_Code : list byte;
  ctx_Input : list byte;
  ctx_OriginalCode : option (list byte);
  ctx_EVMCompatible : bool;
  ctx_Gas : Z;
  ctx_Depth : Z;
  ctx_ReadOnly : bool;
  ctx_SkipValidation : bool;
  ctx_ParentEnv : option ParentEnv;
  ctx_AbortCh : option (nat -> bool)
}.
Definition set_ctx_Gas (v : Z) (x : ExecutionContext) : ExecutionContext :=
  mkCtx (ctx_Origin x) (ctx_GasPrice x) (ctx_Caller x) (ctx_Address x) (ctx_Value x)
    (ctx_BlockNumber x) (ctx_Timestamp x) (ctx_Coinbase x) (ctx_GasLimit x)
    (ctx_ChainID x) (ctx_BlockHashes x) (ctx_PrevRandao x) (ctx_BlobHashes x)
    (ctx_BlobBaseFee x) (ctx_BaseFee x) (ctx_Code x) (ctx_Input x)
    (ctx_OriginalCode x) (ctx_EVMCompatible x) v (ctx_Depth x) (ctx_ReadOnly x)
    (ctx_SkipValidation x) (ctx_ParentEnv x) (ctx_AbortCh x).
Definition set_ctx_AbortCh (v : option (nat -> bool)) (x : ExecutionContext) : ExecutionContext :=
  mkCtx (ctx_Origin x) (ctx_GasPrice x) (ctx_Caller x) (ctx_Address x) (ctx_Value x)
    (ctx_BlockNumber x) (ctx_Timestamp x) (ctx_Coinbase x) (ctx_GasLimit x)
    (ctx_ChainID x) (ctx_BlockHashes x) (ctx_PrevRandao x) (ctx_BlobHashes x)
    (ctx_BlobBaseFee x) (ctx_BaseFee x) (ctx_Code x) (ctx_Input x)
    (ctx_OriginalCode x) (ctx_EVMCompatible x) (ctx_Gas x) (ctx_Depth x)
    (ctx_ReadOnly x) (ctx_SkipValidation x) (ctx_ParentEnv x) v.

Record ExecutionResult : Type := mkResult {
  ReturnData : list byte;
  GasUsed : Z;
  GasRefund : Z;
  Logs : list EventLog;
  ResErr : option error;
  Reverted : bool
}.

Record Environment : Type := mkEnv {
  e_ctx : ExecutionContext;
  e_stack : Stack;
  e_memory : Memory;
  e_gas : GasMeter;
  e_gasTable : GasTable;
  e_pc : Z;
  e_jumpDests : gset Z;
  e_logs : list EventLog;
  e_returnData : list byte;
  e_stopped : bool;
  e_reverted : bool;
  e_err : option error;
  e_callDepth : Z;
  e_activeAddresses : list Address;
  e_parents : list (list Address);
  e_selfDestructed : bool;
  e_selfDestructBeneficiary : Address;
  e_blockHashes : gmap Z Hash;
  e_transientStorage : nat;
  e_authorizedAddress : option Address;
  e_pqcKeyRegions : list (Z * Z)
}.

Definition set_e_ctx (v : ExecutionContext) (x : Environment) : Environment :=
  mkEnv v (e_stack x) (e_memory x) (e_gas x) (e_gasTable x) (e_pc x) (e_jumpDests x)
    (e_logs x) (e_returnData x) (e_stopped x) (e_reverted x) (e_err x) (e_callDepth x)
    (e_activeAddresses x) (e_parents x) (e_selfDestructed x)
    (e_selfDestructBeneficiary x) (e_blockHashes x) (e_transientStorage x)
    (e_authorizedAddress x) (e_pqcKeyRegions x).
Definition set_e_stack (v : Stack) (x : Environment) : Environment :=
  mkEnv (e_ctx x) v (e_memory x) (e_gas x) (e_gasTable x) (e_pc x) (e_jumpDests x)
    (e_logs x) (e_returnData x) (e_stopped x) (e_reverted x) (e_err x) (e_callDepth x)
    (e_activeAddresses x) (e_parents x) (e_selfDestructed x)
    (e_selfDestructBeneficiary x) (e_blockHashes x) (e_transientStorage x)
    (e_authorizedAddress x) (e_pqcKeyRegions x).
Definition set_e_memory (v : Memory) (x : Environment) : Environment :=
  mkEnv (e_ctx x) (e_stack x) v (e_gas x) (e_gasTable x) (e_pc x) (e_jumpDests x)
    (e_logs x) (e_returnData x) (e_stopped x) (e_reverted x) (e_err x) (e_callDepth x)
    (e_activeAddresses x) (e_parents x) (e_selfDestructed x)
    (e_selfDestructBeneficiary x) (e_blockHashes x) (e_transientStorage x)
    (e_authorizedAddress x) (e_pqcKeyRegions x).
Definition set_e_gas (v : GasMeter) (x : Environment) : Environment :=
  mkEnv (e_ctx x) (e_stack x) (e_memory x) v (e_gasTable x) (e_pc x) (e_jumpDests x)
    (e_logs x) (e_returnData x) (e_stopped x) (e_reverted x) (e_err x) (e_callDepth x)
    (e_activeAddresses x) (e_parents x) (e_selfDestructed x)
    (e_selfDestructBeneficiary x) (e_blockHashes x) (e_transientStorage x)
    (e_authorizedAddress x) (e_pqcKeyRegions x).
Definition set_e_gasTable (v : GasTable) (x : Environment) : Environment :=
  mkEnv (e_ctx x) (e_stack x) (e_memory x) (e_gas x) v (e_pc x) (e_jumpDests x)
    (e_logs x) (e_returnData x) (e_stopped x) (e_reverted x) (e_err x) (e_callDepth x)
    (e_activeAddresses x) (e_parents x) (e_selfDestructed x)
    (e_selfDestructBeneficiary x) (e_blockHashes x) (e_transientStorage x)
    (e_authorizedAddress x) (e_pqcKeyRegions x).
Definition set_e_pc (v : Z) (x : Environment) : Environment :=
  mkEnv (e_ctx x) (e_stack x) (e_memory x) (e_gas x) (e_gasTable x) v (e_jumpDests x)
    (e_logs x) (e_returnData x) (e_stopped x) (e_reverted x) (e_err x) (e_callDepth x)
    (e_activeAddresses x) (e_parents x) (e_selfDestructed x)
    (e_selfDestructBeneficiary x) (e_blockHashes x) (e_transientStorage x)
    (e_authorizedAddress x) (e_pqcKeyRegions x).
Definition set_e_jumpDests (v : gset Z) (x : Environment) : Environment :=
  mkEnv (e_ctx x) (e_stack x) (e_memory x) (e_gas x) (e_gasTable x) (e_pc x) v
    (e_logs x) (e_returnData x) (e_stopped x) (e_reverted x) (e_err x) (e_callDepth x)
    (e_activeAddresses x) (e_parents x) (e_selfDestructed x)
    (e_selfDestructBeneficiary x) (e_blockHashes x) (e_transientStorage x)
    (e_authorizedAddress x) (e_pqcKeyRegions x).
Definition set_e_logs (v : list EventLog) (x : Environment) : Environment :=
  mkEnv (e_ctx x) (e_stack x) (e_memory x) (e_gas x) (e_gasTable x) (e_pc x)
    (e_jumpDests x) v (e_returnData x) (e_stopped x) (e_reverted x) (e_err x)
    (e_callDepth x) (e_activeAddresses x) (e_parents x) (e_selfDestructed x)
    (e_selfDestructBeneficiary x) (e_blockHashes x) (e_transientStorage x)
    (e_authorizedAddress x) (e_pqcKeyRegions x).
Definition set_e_returnData (v : list byte) (x : Environment) : Environment :=
  mkEnv (e_ctx x) (e_stack x) (e_memory x) (e_gas x) (e_gasTable x) (e_pc x)
    (e_jumpDests x) (e_logs x) v (e_stopped x) (e_reverted x) (e_err x)
    (e_callDepth x) (e_activeAddresses x) (e_parents x) (e_selfDestructed x)
    (e_selfDestructBeneficiary x) (e_blockHashes x) (e_transientStorage x)
    (e_authorizedAddress x) (e_pqcKeyRegions x).
Definition set_e_stopped (v : bool) (x : Environment) : Environment :=
  mkEnv (e_ctx x) (e_stack x) (e_memory x) (e_gas x) (e_gasTable x) (e_pc x)
    (e_jumpDests x) (e_logs x) (e_returnData x) v (e_reverted x) (e_err x)
    (e_callDepth x) (e_activeAddresses x) (e_parents x) (e_selfDestructed x)
    (e_selfDestructBeneficiary x) (e_blockHashes x) (e_transientStorage x)
    (e_authorizedAddress x) (e_pqcKeyRegions x).
Definition set_e_reverted (v : bool) (x : Environment) : Environment :=
  mkEnv (e_ctx x) (e_stack x) (e_memory x) (e_gas x) (e_gasTable x) (e_pc x)
    (e_jumpDests x) (e_logs x) (e_returnData x) (e_stopped x) v (e_err x)
    (e_callDepth x) (e_activeAddresses x) (e_parents x) (e_selfDestructed x)
    (e_selfDestructBeneficiary x) (e_blockHashes x) (e_transientStorage x)
    (e_authorizedAddress x) (e_pqcKeyRegions x).
Definition set_e_err (v : option error) (x : Environment) : Environment :=
  mkEnv (e_ctx x) (e_stack x) (e_memory x) (e_gas x) (e_gasTable x) (e_pc x)
    (e_jumpDests x) (e_logs x) (e_returnData x) (e_stopped x) (e_reverted x) v
    (e_callDepth x) (e_activeAddresses x) (e_parents x) (e_selfDestructed x)
    (e_selfDestructBeneficiary x) (e_blockHashes x) (e_transientStorage x)
    (e_authorizedAddress x) (e_pqcKeyRegions x).
Definition set_e_callDepth (v : Z) (x : Environment) : Environment :=
  mkEnv (e_ctx x) (e_stack x) (e_memory x) (e_gas x) (e_gasTable x) (e_pc x)
    (e_jumpDests x) (e_logs x) (e_returnData x) (e_stopped x) (e_reverted x) (e_err x)
    v (e_activeAddresses x) (e_parents x) (e_selfDestructed x)
    (e_selfDestructBeneficiary x) (e_blockHashes x) (e_transientStorage x)
    (e_authorizedAddress x) (e_pqcKeyRegions x).
Definition set_e_activeAddresses (v : list Address) (x : Environment) : Environment :=
  mkEnv (e_ctx x) (e_stack x) (e_memory x) (e_gas x) (e_gasTable x) (e_pc x)
    (e_jumpDests x) (e_logs x) (e_returnData x) (e_stopped x) (e_reverted x) (e_err x)
    (e_callDepth x) v (e_parents x) (e_selfDestructed x) (e_selfDestructBeneficiary x)
    (e_blockHashes x) (e_transientStorage x) (e_authorizedAddress x)
    (e_pqcKeyRegions x).
Definition set_e_parents (v : list (list Address)) (x : Environment) : Environment :=
  mkEnv (e_ctx x) (e_stack x) (e_memory x) (e_gas x) (e_gasTable x) (e_pc x)
    (e_jumpDests x) (e_logs x) (e_returnData x) (e_stopped x) (e_reverted x) (e_err x)
    (e_callDepth x) (e_activeAddresses x) v (e_selfDestructed x)
    (e_selfDestructBeneficiary x) (e_blockHashes x) (e_transientStorage x)
    (e_authorizedAddress x) (e_pqcKeyRegions x).
Definition set_e_selfDestructed (v : bool) (x : Environment) : Environment :=
  mkEnv (e_ctx x) (e_stack x) (e_memory x) (e_gas x) (e_gasTable x) (e_pc x)
    (e_jumpDests x) (e_logs x) (e_returnData x) (e_stopped x) (e_reverted x) (e_err x)
    (e_callDepth x) (e_activeAddresses x) (e_parents x) v
    (e_selfDestructBeneficiary x) (e_blockHashes x) (e_transientStorage x)
    (e_authorizedAddress x) (e_pqcKeyRegions x).
Definition set_e_selfDestructBeneficiary (v : Address) (x : Environment) : Environment :=
  mkEnv (e_ctx x) (e_stack x) (e_memory x) (e_gas x) (e_gasTable x) (e_pc x)
    (e_jumpDests x) (e_logs x) (e_returnData x) (e_stopped x) (e_reverted x) (e_err x)
    (e_callDepth x) (e_activeAddresses x) (e_parents x) (e_selfDestructed x) v
    (e_blockHashes x) (e_transientStorage x) (e_authorizedAddress x)
    (e_pqcKeyRegions x).
Definition set_e_blockHashes (v : gmap Z Hash) (x : Environment) : Environment :=
  mkEnv (e_ctx x) (e_stack x) (e_memory x) (e_gas x) (e_gasTable x) (e_pc x)
    (e_jumpDests x) (e_logs x) (e_returnData x) (e_stopped x) (e_reverted x) (e_err x)
    (e_callDepth x) (e_activeAddresses x) (e_parents x) (e_selfDestructed x)
    (e_selfDestructBeneficiary x) v (e_transientStorage x) (e_authorizedAddress x)
    (e_pqcKeyRegions x).
Definition set_e_transientStorage (v : nat) (x : Environment) : Environment :=
  mkEnv (e_ctx x) (e_stack x) (e_memory x) (e_gas x) (e_gasTable x) (e_pc x)
    (e_jumpDests x) (e_logs x) (e_returnData x) (e_stopped x) (e_reverted x) (e_err x)
    (e_callDepth x) (e_activeAddresses x) (e_parents x) (e_selfDestructed x)
    (e_selfDestructBeneficiary x) (e_blockHashes x) v (e_authorizedAddress x)
    (e_pqcKeyRegions x).
Definition set_e_authorizedAddress (v : option Address) (x : Environment) : Environment :=
  mkEnv (e_ctx x) (e_stack x) (e_memory x) (e_gas x) (e_gasTable x) (e_pc x)
    (e_jumpDests x) (e_logs x) (e_returnData x) (e_stopped x) (e_reverted x) (e_err x)
    (e_callDepth x) (e_activeAddresses x) (e_parents x) (e_selfDestructed x)
    (e_selfDestructBeneficiary x) (e_blockHashes x) (e_transientStorage x) v
    (e_pqcKeyRegions x).
Definition set_e_pqcKeyRegions (v : list (Z * Z)) (x : Environment) : Environment :=
  mkEnv (e_ctx x) (e_stack x) (e_memory x) (e_gas x) (e_gasTable x) (e_pc x)
    (e_jumpDests x) (e_logs x) (e_returnData x) (e_stopped x) (e_reverted x) (e_err x)
    (e_callDepth x) (e_activeAddresses x) (e_parents x) (e_selfDestructed x)
    (e_selfDestructBeneficiary x) (e_blockHashes x) (e_transientStorage x)
    (e_authorizedAddress x) v.
Record World (DB : Type) : Type := mkWorld {
  w_db : DB;
  w_transient : gmap nat TransientStorage;
  w_next : nat;
  w_reentryCounts : gmap Address Z;
  w_txCreatedContracts : gset Address;
  w_selfDestructCleared : gset Address;
  w_jumpDestCache : gmap Hash (gset Z);
  w_jumpDestOrder : list Hash
}.
Arguments mkWorld {DB}.
Arguments w_db {DB} _.
Arguments w_transient {DB} _.
Arguments w_next {DB} _.
Arguments w_reentryCounts {DB} _.
Arguments w_txCreatedContracts {DB} _.
Arguments w_selfDestructCleared {DB} _.
Arguments w_jumpDestCache {DB} _.
Arguments w_jumpDestOrder {DB} _.

Definition set_w_db {DB} (v : DB) (x : World DB) : World DB :=
  mkWorld v (w_transient x) (w_next x) (w_reentryCounts x) (w_txCreatedContracts x)
    (w_selfDestructCleared x) (w_jumpDestCache x) (w_jumpDestOrder x).
Definition set_w_transient {DB} (v : gmap nat TransientStorage) (x : World DB) : World DB :=
  mkWorld (w_db x) v (w_next x) (w_reentryCounts x) (w_txCreatedContracts x)
    (w_selfDestructCleared x) (w_jumpDestCache x) (w_jumpDestOrder x).
Definition set_w_next {DB} (v : nat) (x : World DB) : World DB :=
  mkWorld (w_db x) (w_transient x) v (w_reentryCounts x) (w_txCreatedContracts x)
    (w_selfDestructCleared x) (w_jumpDestCache x) (w_jumpDestOrder x).
Definition set_w_reentryCounts {DB} (v : gmap Address Z) (x : World DB) : World DB :=
  mkWorld (w_db x) (w_transient x) (w_next x) v (w_txCreatedContracts x)
    (w_selfDestructCleared x) (w_jumpDestCache x) (w_jumpDestOrder x).
Definition set_w_txCreatedContracts {DB} (v : gset Address) (x : World DB) : World DB :=
  mkWorld (w_db x) (w_transient x) (w_next x) (w_reentryCounts x) v
    (w_selfDestructCleared x) (w_jumpDestCache x) (w_jumpDestOrder x).
Definition set_w_selfDestructCleared {DB} (v : gset Address) (x : World DB) : World DB :=
  mkWorld (w_db x) (w_transient x) (w_next x) (w_reentryCounts x)
    (w_txCreatedContracts x) v (w_jumpDestCache x) (w_jumpDestOrder x).
Definition set_w_jumpDestCache {DB} (v : gmap Hash (gset Z)) (x : World DB) : World DB :=
  mkWorld (w_db x) (w_transient x) (w_next x) (w_reentryCounts x)
    (w_txCreatedContracts x) (w_selfDestructCleared x) v (w_jumpDestOrder x).
Definition set_w_jumpDestOrder {DB} (v : list Hash) (x : World DB) : World DB :=
  mkWorld (w_db x) (w_transient x) (w_next x) (w_reentryCounts x)
    (w_txCreatedContracts x) (w_selfDestructCleared x) (w_jumpDestCache x) v.
(** The state an instruction runs on: its frame and the shared world. *)
Record St (DB : Type) : Type := mkSt { env : Environment; world : World DB }.
Arguments mkSt {DB}.
Arguments env {DB} _.
Arguments world {DB} _.

(** ** The interpreter's configuration and the code it calls *)

(** What a precompiled contract is told about its call. *)
Record PrecompileContext : Type := mkPrecompileContext {
  pcx_Caller : Address;
  pcx_Origin : Address;
  pcx_BlockTime : Z;
  pcx_ChainID : Z;
  pcx_Value : option Z;
  pcx_Static : bool
}.

(** A precompiled contract, by the interface it implements: the call with the
    full context, the call with the block context, or the plain call, which
    for a context-aware contract reads the context set before it. An error of
    the contract is [Err]; a panic is [Panic]. *)
Inductive Runner (DB : Type) : Type :=
  | RunV2 (f : PrecompileContext -> list byte -> M DB (list byte))
  | RunAtomic (f : Z -> Z -> list byte -> M DB (list byte))
  | RunContextAware (f : Z -> Z -> list byte -> M DB (list byte))
  | RunPlain (f : list byte -> res (list byte)).
Arguments RunV2 {DB}.
Arguments RunAtomic {DB}.
Arguments RunContextAware {DB}.
Arguments RunPlain {DB}.

Record PrecompiledContract (DB : Type) : Type := mkPrecompiled {
  RequiredGas : list byte -> Z;
  IsStateful : bool;
  Runs : Runner DB
}.
Arguments RequiredGas {DB}.
Arguments IsStateful {DB}.
Arguments Runs {DB}.

Abbreviation Registry DB := (gmap Address (PrecompiledContract DB)).

Definition IsPrecompiled {DB} (r : Registry DB) (addr : Address) : bool :=
  bool_decide (is_Some (r !! addr)).

Definition runContract {DB} (c : PrecompiledContract DB) (ctx : PrecompileContext)
    (input : list byte) : M DB (list byte) :=
  match Runs c with
  | RunV2 f => f ctx input
  | RunAtomic f => f (pcx_BlockTime ctx) (pcx_ChainID ctx) input
  | RunContextAware f => f (pcx_BlockTime ctx) (pcx_ChainID ctx) input
  | RunPlain f => fun d => (f input, d)
  end.

Definition errPrecompilePanic : error := ErrErrorf "precompiled contract panicked".

(** The output, the gas used and the error of a call to a registered contract.
    The required gas is charged whatever the outcome. *)
Definition RunWithContextV2 {DB} (r : Registry DB) (ctx : PrecompileContext) (addr : Address)
    (input : list byte) (gas : Z) : M DB (list byte * Z * option error) :=
  match r !! addr with
  | None => mret ([], gas, None)
  | Some c =>
      let requiredGas := RequiredGas c input in
      if gas <? requiredGas then mret ([], gas, Some ErrOutOfGas)
      else fun d =>
        match runContract c ctx input d with
        | (Ok output, d') => (Ok (output, requiredGas, None), d')
        | (Err e, d') => (Ok ([], requiredGas, Some e), d')
        | (Panic, d') => (Ok ([], requiredGas, Some errPrecompilePanic), d')
        | (NoFuel, d') => (NoFuel, d')
        end
  end.

(** The cryptographic functions: hashes, Kyber decapsulation and secp256k1
    signer recovery. *)
Record Crypto : Type := mkCrypto {
  keccak256 : list byte -> Hash;
  sha256 : list byte -> Hash;
  KyberDecapsulate : list byte -> list byte -> error + list byte;
  recoverSignerAddress : Hash -> byte -> list byte -> list byte -> error + Address
}.

Record Interpreter (DB : Type) : Type := mkInterpreter {
  i_gasTable : GasTable;
  i_precompiled : option (Registry DB);
  i_ecdsaAuthEnabled : bool;
  i_devnetValidation : bool;
  i_crypto : Crypto
}.
Arguments i_gasTable {DB}.
Arguments i_precompiled {DB}.
Arguments i_ecdsaAuthEnabled {DB}.
Arguments i_devnetValidation {DB}.
Arguments i_crypto {DB}.

(** ** Access to the parts of the state *)

Section access.
Context {DB : Type}.

Definition onStack {A} (m : M Stack A) : M (St DB) A :=
  zoom (fun s => e_stack (env s)) (fun k s => mkSt (set_e_stack k (env s)) (world s)) m.
Definition onMemory {A} (m : M Memory A) : M (St DB) A :=
  zoom (fun s => e_memory (env s)) (fun k s => mkSt (set_e_memory k (env s)) (world s)) m.
Definition onGas {A} (m : M GasMeter A) : M (St DB) A :=
  zoom (fun s => e_gas (env s)) (fun k s => mkSt (set_e_gas k (env s)) (world s)) m.
Definition onWorld {A} (m : M (World DB) A) : M (St DB) A :=
  zoom world (fun w s => mkSt (env s) w) m.

Definition getE {A} (f : Environment -> A) : M (St DB) A := gets (fun s => f (env s)).
Definition getCtx {A} (f : ExecutionContext -> A) : M (St DB) A := getE (fun e => f (e_ctx e)).
Definition modE (f : Environment -> Environment) : M (St DB) unit :=
  modify (fun s => mkSt (f (env s)) (world s)).
Definition getW {A} (f : World DB -> A) : M (St DB) A := gets (fun s => f (world s)).
Definition modW (f : World DB -> World DB) : M (St DB) unit :=
  modify (fun s => mkSt (env s) (f (world s))).

(** Reading the state database, writing it, and calls that do both. *)
Definition getDB {A} (f : DB -> A) : M (St DB) A := getW (fun w => f (w_db w)).
Definition modDB (f : DB -> DB) : M (St DB) unit := modW (fun w => set_w_db (f (w_db w)) w).
Definition callDB {A} (f : DB -> A * DB) : M (St DB) A := fun s =>
  let '(a, d) := f (w_db (world s)) in (Ok a, mkSt (env s) (set_w_db d (world s))).

Definition pop : M (St DB) Word := onStack Pop.
Definition popU : M (St DB) Z := onStack PopUint64.
Definition popB : M (St DB) Z := onStack PopBigInt.
Definition push (w : Word) : M (St DB) unit := onStack (Push w).
Definition pushU (v : Z) : M (St DB) unit := onStack (PushUint64 v).
Definition pushB (v : Z) : M (St DB) unit := onStack (PushBigInt (Some v)).
Definition consume (amount : Z) : M (St DB) unit := onGas (Consume amount).
Definition memSize : M (St DB) Z := getE (fun e => Size (e_memory e)).
Definition remaining : M (St DB) Z := getE (fun e => Remaining (e_gas e)).

(** A checked computation whose error the code returns. *)
Definition check {A} (x : error + A) : M (St DB) A :=
  match x with inl e => throw e | inr a => mret a end.

(** A checked computation whose error the code replaces by [e]. *)
Definition check_as {A} (e : error) (x : error + A) : M (St DB) A :=
  match x with inl _ => throw e | inr a => mret a end.
End access.

(** ** Words and addresses *)

Lemma length_sub20 (l : list byte) n :
  length l = n -> (20 <= n)%nat -> length (take 20 (drop (n - 20) l)) = 20%nat.
Proof. intros <- ?. rewrite length_take, length_drop. lia. Qed.

(** [copy(addr[:], w[12:])] *)
Definition word_addr (w : Word) : Address :=
  mk_array (take 20 (drop 12 (bytes_of w))) (length_sub20 (bytes_of w) 32 (length_bytes_of w) ltac:(lia)).

Lemma length_addr_word (a : Address) : length (replicate 12 x00 ++ bytes_of a) = 32%nat.
Proof. rewrite length_app, length_replicate, length_bytes_of. done. Qed.

(** [copy(word[12:], addr[:])] *)
Definition addr_word (a : Address) : Word :=
  mk_array (replicate 12 x00 ++ bytes_of a) (length_addr_word a).

Lemma length_AddressToWord (a : Address) : length (bytes_of a ++ replicate 12 x00) = 32%nat.
Proof. rewrite length_app, length_replicate, length_bytes_of. done. Qed.

Definition AddressToWord (a : Address) : Word :=
  mk_array (bytes_of a ++ replicate 12 x00) (length_AddressToWord a).

Definition zero_address : Address := zero_array 20.

(** ** Active addresses and reentry counters *)

Definition IsAddressActive (e : Environment) (addr : Address) : bool :=
  existsb (fun active => bool_decide (addr ∈ active)) (e_activeAddresses e :: e_parents e).

(** The result tells whether the address was pushed. *)
Definition PushActiveAddress (addr : Address) (e : Environment) : bool * Environment :=
  if MaxActiveCallDepth <=? len (e_activeAddresses e) then (false, e)
  else (true, set_e_activeAddresses (e_activeAddresses e ++ [addr]) e).

Definition PopActiveAddress (e : Environment) : Environment :=
  if 0 <? len (e_activeAddresses e)
  then set_e_activeAddresses
         (take (length (e_activeAddresses e) - 1) (e_activeAddresses e)) e
  else e.

(** [counts[addr]] of a Go map: zero when absent. *)
Definition count_of (counts : gmap Address Z) (addr : Address) : Z := default 0 (counts !! addr).

Definition IncrementReentryCount (addr : Address) (counts : gmap Address Z)
    : bool * gmap Address Z :=
  if MaxReentriesPerAddress <=? count_of counts addr then (false, counts)
  else (true, <[addr := count_of counts addr + 1]> counts).

Definition DecrementReentryCount (addr : Address) (counts : gmap Address Z) : gmap Address Z :=
  if count_of counts addr <=? 0 then delete addr counts
  else
    let counts' := <[addr := count_of counts addr - 1]> counts in
    if count_of counts' addr =? 0 then delete addr counts' else counts'.

Definition getBlockHash (e : Environment) (blockNum : Z) : Hash :=
  let currentBlock := ctx_BlockNumber (e_ctx e) in
  if (currentBlock <=? blockNum) || (256 <? u64 (currentBlock - blockNum)) then zero_array 32
  else default (zero_array 32) (e_blockHashes e !! blockNum).

(** The ancestors of a frame called by [e], and what it reads of [e]. *)
Definition as_parent (e : Environment) : ParentEnv :=
  mkParent (e_activeAddresses e) (e_parents e) (e_transientStorage e).

(** ** Lemmas *)

Lemma word_addr_addr_word a : word_addr (addr_word a) = a.
Proof.
  apply array_eq. simpl. rewrite drop_0. apply firstn_all2. by rewrite length_bytes_of.
Qed.

(** Every counter in the map is positive. *)
Definition counts_ok (counts : gmap Address Z) : Prop :=
  forall a n, counts !! a = Some n -> 0 < n.

Lemma count_of_insert addr n counts : count_of (<[addr := n]> counts) addr = n.
Proof. unfold count_of. by rewrite lookup_insert_eq. Qed.

(** A decrement undoes the increment before it. *)
Lemma reentry_undo addr counts counts' :
  counts_ok counts -> IncrementReentryCount addr counts = (true, counts') ->
  DecrementReentryCount addr counts' = counts /\ counts_ok counts'.
Proof.
  intros Hok. unfold IncrementReentryCount, MaxReentriesPerAddress.
  destruct (Z.leb_spec 10 (count_of counts addr)); [done|]. intros [= <-].
  assert (P : 0 <= count_of counts addr).
  { unfold count_of. destruct (counts !! addr) eqn:E; simpl; [apply Hok in E|]; lia. }
  split.
  - unfold DecrementReentryCount. rewrite !count_of_insert, insert_insert_eq.
    destruct (Z.leb_spec (count_of counts addr + 1) 0); [lia|].
    replace (count_of counts addr + 1 - 1) with (count_of counts addr) by lia.
    unfold count_of in *. destruct (counts !! addr) eqn:L; simpl in *.
    + apply Hok in L as ?. destruct (Z.eqb_spec z 0); [lia|]. by rewrite insert_id.
    + by rewrite delete_insert_id.
  - intros a n. destruct (decide (addr = a)) as [->|].
    + rewrite lookup_insert_eq. intros [= <-]. lia.
    + rewrite lookup_insert_ne by done. apply Hok.
Qed.
