(* ===== verification/OpsArith.v ===== *)
(** * Stack, arithmetic, comparison and bitwise instructions
    (qvm/operations.go, qvm/operations_missing.go, qvm/opcodes_extended.go)

    Each handler pops its operands, computes a word and pushes it. The word is
    a function of its own, written with the source's fast path on [uint64]
    operands and its slow path on big integers; the lemmas prove that both
    paths compute the 256-bit operation of [unsigned_spec], [signed_spec] and
    [bit_spec]. *)

From Stdlib Require Import ZArith Lia Zpow_facts.
From Stdlib.Strings Require Import Byte.
From stdpp Require Import base list countable gmap strings numbers.
From S2P Require Import Prelude Stack Memory Gas Opcodes StateDB Env.

Definition maxUint256 : Z := 0xffffffffffffffffffffffffffffffffffffffffffffffffffffffffffffffff.
Definition bigMaxUint256Plus1 : Z :=
  0x10000000000000000000000000000000000000000000000000000000000000000.

(** [PushBigInt] and [PushUint64] of a computed value. *)
Definition big (v : Z) : Word := NewWordFromBigInt (Some v).
Definition flag (b : bool) : Word := NewWordFromUint64 (if b then 1 else 0).

Definition isUint64 (w : Word) : bool :=
  (be (sub (bytes_of w) 0 8) =? 0) && (be (sub (bytes_of w) 8 16) =? 0)
  && (be (sub (bytes_of w) 16 24) =? 0).

(** [w[k]] *)
Definition byte_at (w : Word) (k : Z) : byte := nth_byte (bytes_of w) k.

(** ** The words the instructions compute *)

Definition add_word (a b : Word) : Word :=
  let slow := big (Z.land (ToBigInt a + ToBigInt b) maxUint256) in
  if isUint64 a && isUint64 b then
    let sum := u64 (ToUint64 a + ToUint64 b) in
    if ToUint64 a <=? sum then NewWordFromUint64 sum else slow
  else slow.

Definition sub_word (a b : Word) : Word :=
  let slow :=
    let result := ToBigInt a - ToBigInt b in
    let result := if result <? 0 then result + bigMaxUint256Plus1 else result in
    big (Z.land result maxUint256) in
  if isUint64 a && isUint64 b then
    if ToUint64 b <=? ToUint64 a then NewWordFromUint64 (ToUint64 a - ToUint64 b) else slow
  else slow.

Definition mul_word (a b : Word) : Word :=
  let slow := big (Z.land (ToBigInt a * ToBigInt b) maxUint256) in
  if isUint64 a && isUint64 b then
    if (ToUint64 a =? 0) || (ToUint64 b =? 0) then NewWordFromUint64 0
    else if ToUint64 a <=? MaxUint64 / ToUint64 b
         then NewWordFromUint64 (u64 (ToUint64 a * ToUint64 b)) else slow
  else slow.

Definition div_word (a b : Word) : Word :=
  if isUint64 a && isUint64 b then
    if ToUint64 b =? 0 then NewWordFromUint64 0
    else NewWordFromUint64 (ToUint64 a / ToUint64 b)
  else if ToBigInt b =? 0 then NewWordFromUint64 0
  else big (ToBigInt a / ToBigInt b).

Definition mod_word (a b : Word) : Word :=
  if isUint64 a && isUint64 b then
    if ToUint64 b =? 0 then NewWordFromUint64 0
    else NewWordFromUint64 (ToUint64 a mod ToUint64 b)
  else if ToBigInt b =? 0 then NewWordFromUint64 0
  else big (ToBigInt a mod ToBigInt b).

Definition addmod_word (a b n : Z) : Word :=
  if n =? 0 then big 0 else big ((a + b) mod n).

Definition mulmod_word (a b n : Z) : Word :=
  if n =? 0 then big 0 else big ((a * b) mod n).

Definition lt_word (a b : Word) : Word :=
  if isUint64 a && isUint64 b then flag (ToUint64 a <? ToUint64 b)
  else flag (ToBigInt a <? ToBigInt b).

Definition gt_word (a b : Word) : Word :=
  if isUint64 a && isUint64 b then flag (ToUint64 b <? ToUint64 a)
  else flag (ToBigInt b <? ToBigInt a).

Definition eq_word (a b : Word) : Word := flag (bool_decide (a = b)).

Definition toSigned (x : Z) : Z :=
  if Z.testbit x 255 then x - bigMaxUint256Plus1 else x.

Definition fromSigned (v : Z) : Z := if v <? 0 then v + bigMaxUint256Plus1 else v.

(** [isUint64(a) && isUint64(b) && a[24] < 0x80 && b[24] < 0x80] *)
Definition small_nonneg (a b : Word) : bool :=
  isUint64 a && isUint64 b && (b2z (byte_at a 24) <? 0x80) && (b2z (byte_at b 24) <? 0x80).

Definition slt_word (a b : Word) : Word :=
  if small_nonneg a b then flag (i64 (ToUint64 a) <? i64 (ToUint64 b))
  else flag (toSigned (ToBigInt a) <? toSigned (ToBigInt b)).

Definition sgt_word (a b : Word) : Word :=
  if small_nonneg a b then flag (i64 (ToUint64 b) <? i64 (ToUint64 a))
  else flag (toSigned (ToBigInt b) <? toSigned (ToBigInt a)).

Lemma length_set_head (w : Word) (b : byte) : length (<[0%nat := b]> (bytes_of w)) = 32%nat.
Proof. by rewrite length_insert, length_bytes_of. Qed.

Definition sdiv_word (a b : Word) : Word :=
  if IsZero b then NewWordFromUint64 0
  else
    let as_ := toSigned (ToBigInt a) in
    let bs := toSigned (ToBigInt b) in
    let minInt := - Z.shiftl 1 255 in
    if (as_ =? minInt) && (bs =? -1)
    then mk_array (<[0%nat := x80]> (bytes_of (zero_array 32))) (length_set_head (zero_array 32) x80)
    else big (fromSigned (Z.quot as_ bs)).

Definition smod_word (a b : Word) : Word :=
  if IsZero b then NewWordFromUint64 0
  else big (fromSigned (Z.rem (toSigned (ToBigInt a)) (toSigned (ToBigInt b)))).

(** The loops [result[k] = a[k] op b[k]]. *)
Definition byte_op (f : Z -> Z -> Z) (x y : byte) : byte := z2b (f (b2z x) (b2z y)).

Lemma length_zip_word f (a b : Word) :
  length (zip_with (byte_op f) (bytes_of a) (bytes_of b)) = 32%nat.
Proof. by rewrite length_zip_with, !length_bytes_of. Qed.

Definition zip_word (f : Z -> Z -> Z) (a b : Word) : Word :=
  mk_array (zip_with (byte_op f) (bytes_of a) (bytes_of b)) (length_zip_word f a b).

Definition and_word : Word -> Word -> Word := zip_word Z.land.
Definition or_word : Word -> Word -> Word := zip_word Z.lor.
Definition xor_word : Word -> Word -> Word := zip_word Z.lxor.

Lemma length_not_word (a : Word) :
  length (map (fun b => z2b (Z.lnot (b2z b))) (bytes_of a)) = 32%nat.
Proof. by rewrite length_map, length_bytes_of. Qed.

Definition not_word (a : Word) : Word :=
  mk_array (map (fun b => z2b (Z.lnot (b2z b))) (bytes_of a)) (length_not_word a).

Definition shl_word (shiftWord value : Word) : Word :=
  let shift := ToUint64 shiftWord in
  let slow :=
    if 256 <=? ToBigInt shiftWord then big 0
    else big (Z.land (Z.shiftl (ToBigInt value) (ToBigInt shiftWord)) maxUint256) in
  if isUint64 shiftWord && (shift <? 64) && isUint64 value then
    let v := ToUint64 value in
    if (0 <? shift) && negb (Z.shiftr v (64 - shift) =? 0) then slow
    else NewWordFromUint64 (u64 (Z.shiftl v shift))
  else slow.

Definition shr_word (shiftWord value : Word) : Word :=
  let shift := ToUint64 shiftWord in
  if isUint64 shiftWord && (shift <? 64) && isUint64 value
  then NewWordFromUint64 (Z.shiftr (ToUint64 value) shift)
  else if 256 <=? ToBigInt shiftWord then big 0
  else big (Z.shiftr (ToBigInt value) (ToBigInt shiftWord)).

Definition sar_word (shiftWord value : Word) : Word :=
  let shift := ToUint64 shiftWord in
  if isUint64 shiftWord && (shift <? 64) && isUint64 value && (b2z (byte_at value 24) <? 0x80)
  then NewWordFromUint64 (u64 (Z.shiftr (i64 (ToUint64 value)) shift))
  else
    let valueSigned := toSigned (ToBigInt value) in
    let result :=
      if 256 <=? ToBigInt shiftWord
      then if 0 <=? valueSigned then 0 else -1
      else Z.shiftr valueSigned (ToBigInt shiftWord) in
    big (Z.land result maxUint256).

Definition byte_word (index value : Word) : Word :=
  if negb (isUint64 index) then NewWordFromUint64 0
  else
    let idx := ToUint64 index in
    if 32 <=? idx then NewWordFromUint64 0
    else NewWordFromUint64 (b2z (byte_at value idx)).

Lemma length_fill (x : Word) n c :
  (n <= 32)%nat -> length (replicate n c ++ drop n (bytes_of x)) = 32%nat.
Proof.
  intros. rewrite length_app, length_replicate, length_drop, length_bytes_of. lia.
Qed.

(** [x] with its first [n] bytes overwritten by [c]. *)
Definition fill (x : Word) (n : nat) (c : byte) : Word :=
  match le_dec n 32 with
  | left H => mk_array (replicate n c ++ drop n (bytes_of x)) (length_fill x n c H)
  | right _ => x
  end.

Definition signextend_word (kWord x : Word) : Word :=
  if negb (isUint64 kWord) then x
  else
    let k := ToUint64 kWord in
    if 31 <=? k then x
    else
      let byteIdx := 31 - k in
      let signBit := Z.land (b2z (byte_at x byteIdx)) 0x80 in
      if negb (signBit =? 0) then fill x (Z.to_nat byteIdx) xff
      else fill x (Z.to_nat byteIdx) x00.

(** ** Lemmas on the conversions *)

Lemma W256_eq : W256 = 2 ^ 256.
Proof. reflexivity. Qed.

Ltac big_wz :=
  repeat match goal with |- context [ToBigInt ?w] => change (ToBigInt w) with (wz w) end.

Lemma isUint64_spec w : isUint64 w = (wz w <? 2 ^ 64).
Proof.
  unfold isUint64, array_to_Z, sub. pose proof (length_bytes_of w) as L.
  set (l := bytes_of w) in *. clearbody l.
  change (Z.to_nat (8 - 0)) with 8%nat. change (Z.to_nat (16 - 8)) with 8%nat.
  change (Z.to_nat (24 - 16)) with 8%nat. change (Z.to_nat 0) with 0%nat.
  change (Z.to_nat 8) with 8%nat. change (Z.to_nat 16) with 16%nat. rewrite drop_0.
  assert (E : be l = be (take 8 l) * pow256 24 + (be (take 8 (drop 8 l)) * pow256 16
    + (be (take 8 (drop 16 l)) * pow256 8 + be (drop 24 l)))).
  { rewrite <- (take_drop 8 l) at 1. rewrite be_app, length_drop, L. f_equal.
    rewrite <- (take_drop 8 (drop 8 l)) at 1. rewrite be_app, !drop_drop, length_drop, L. f_equal.
    rewrite <- (take_drop 8 (drop (8 + 8) l)) at 1.
    by rewrite be_app, !drop_drop, length_drop, L. }
  rewrite E.
  pose proof (be_range (take 8 l)). pose proof (be_range (take 8 (drop 8 l))).
  pose proof (be_range (take 8 (drop 16 l))). pose proof (be_range (drop 24 l)) as R.
  rewrite length_drop, L in R. change (pow256 (32 - 24)) with (2 ^ 64) in R.
  change (pow256 24) with (2 ^ 192). change (pow256 16) with (2 ^ 128).
  change (pow256 8) with (2 ^ 64).
  apply eq_true_iff_eq. rewrite !andb_true_iff, !Z.eqb_eq, Z.ltb_lt. lia.
Qed.

Lemma ToUint64_small w : wz w < 2 ^ 64 -> ToUint64 w = wz w.
Proof. intros. rewrite ToUint64_spec. apply Z.mod_small. pose proof (wz_range w). lia. Qed.

Lemma land_max v : Z.land v maxUint256 = v mod W256.
Proof. change maxUint256 with (Z.ones 256). by rewrite Z.land_ones by lia. Qed.

Lemma wz_big v : 0 <= v < W256 -> wz (big v) = v.
Proof. apply wz_NewWordFromBigInt_small. Qed.

Lemma wz_big_land v : wz (big (Z.land v maxUint256)) = v mod W256.
Proof. rewrite land_max. apply wz_big, Z.mod_pos_bound. reflexivity. Qed.

Lemma wz_flag b : wz (flag b) = Z.b2z b.
Proof. unfold flag. rewrite wz_NewWordFromUint64; [by destruct b|]. destruct b; unfold is_u64; lia. Qed.

Lemma wz_small_uint v : 0 <= v < 2 ^ 64 -> wz (NewWordFromUint64 v) = v.
Proof. apply wz_NewWordFromUint64. Qed.

(** The value of a word as a two's complement number. *)
Definition signed (z : Z) : Z := if z <? 2 ^ 255 then z else z - W256.

Lemma toSigned_spec z : 0 <= z < W256 -> toSigned z = signed z.
Proof.
  intros H. unfold toSigned, signed. rewrite Z.testbit_eqb by lia.
  change bigMaxUint256Plus1 with W256. change W256 with (2 * 2 ^ 255) in *.
  destruct (Z.ltb_spec z (2 ^ 255)).
  - rewrite Z.div_small by lia. done.
  - replace (z / 2 ^ 255) with 1; [done|]. apply Z.div_unique with (z - 2 ^ 255); lia.
Qed.

Lemma signed_range z : 0 <= z < W256 -> - 2 ^ 255 <= signed z < 2 ^ 255.
Proof. change W256 with (2 * 2 ^ 255). unfold signed. change W256 with (2 * 2 ^ 255). zcases; lia. Qed.

Lemma wz_fromSigned v : - 2 ^ 255 <= v < 2 ^ 255 -> wz (big (fromSigned v)) = v mod W256.
Proof.
  intros H. unfold fromSigned. change bigMaxUint256Plus1 with W256.
  assert (E : W256 = 2 * 2 ^ 255) by reflexivity.
  destruct (Z.ltb_spec v 0).
  - rewrite wz_big by lia. apply Z.mod_unique with (-1); lia.
  - rewrite wz_big by lia. symmetry. apply Z.mod_small. lia.
Qed.

(** Case analysis on the fast path: the operands that fit in 64 bits are read
    as their value. *)
Ltac fast_path :=
  repeat match goal with
  | |- context [isUint64 ?w] => rewrite (isUint64_spec w)
  | |- context [wz ?w <? 2 ^ 64] => destruct (Z.ltb_spec (wz w) (2 ^ 64))
  end;
  cbn [andb negb];
  repeat match goal with
  | H : wz ?w < 2 ^ 64 |- context [ToUint64 ?w] => rewrite (ToUint64_small w H)
  end;
  big_wz.

Ltac ranges :=
  repeat match goal with
  | w : array 32 |- _ =>
      lazymatch goal with
      | _ : 0 <= wz w < W256 |- _ => fail
      | _ => pose proof (wz_range w)
      end
  end.

Lemma wz_add_word a b : wz (add_word a b) = (wz a + wz b) mod W256.
Proof.
  unfold add_word. ranges. fast_path; rewrite ?wz_big_land; try done.
  destruct (Z.leb_spec (wz a) (u64 (wz a + wz b))) as [L|L]; [|by rewrite wz_big_land].
  rewrite (Z.mod_small _ W256) by (rewrite W256_eq; lia).
  rewrite wz_small_uint by apply u64_range. unfold u64 in *. zlia.
Qed.

Lemma wz_sub_word a b : wz (sub_word a b) = (wz a - wz b) mod W256.
Proof.
  unfold sub_word. ranges.
  assert (S : wz (let result := ToBigInt a - ToBigInt b in
    let result := if result <? 0 then result + bigMaxUint256Plus1 else result in
    big (Z.land result maxUint256)) = (wz a - wz b) mod W256).
  { cbv zeta. rewrite wz_big_land. big_wz. change bigMaxUint256Plus1 with W256.
    destruct (Z.ltb_spec (wz a - wz b) 0); [|reflexivity].
    rewrite <- (Z.mod_add (wz a - wz b) 1 W256) by lia. f_equal; lia. }
  fast_path; try exact S.
  destruct (Z.leb_spec (wz b) (wz a)); [|exact S].
  rewrite wz_small_uint by lia. symmetry. apply Z.mod_small. lia.
Qed.

Lemma wz_mul_word a b : wz (mul_word a b) = (wz a * wz b) mod W256.
Proof.
  unfold mul_word. ranges. fast_path; rewrite ?wz_big_land; try done.
  destruct (Z.eqb_spec (wz a) 0) as [->|]; [done|].
  destruct (Z.eqb_spec (wz b) 0) as [->|]; [by rewrite Z.mul_0_r|]. simpl orb.
  destruct (Z.leb_spec (wz a) (MaxUint64 / wz b)) as [L|L]; [|by rewrite wz_big_land].
  assert (wz a * wz b <= MaxUint64).
  { transitivity (MaxUint64 / wz b * wz b); [apply Z.mul_le_mono_nonneg_r; lia|].
    rewrite Z.mul_comm. apply Z.mul_div_le. lia. }
  rewrite u64_small by (unfold is_u64, MaxUint64 in *; nia).
  rewrite wz_small_uint by (unfold MaxUint64 in *; nia).
  symmetry. apply Z.mod_small. rewrite W256_eq. unfold MaxUint64 in *. nia.
Qed.

Lemma wz_div_word a b : wz (div_word a b) = if wz b =? 0 then 0 else wz a / wz b.
Proof.
  unfold div_word. ranges.
  assert (B : 0 < wz b -> 0 <= wz a / wz b <= wz a).
  { intros. split; [apply Z.div_pos; lia|]. apply Z.div_le_upper_bound; nia. }
  fast_path; destruct (Z.eqb_spec (wz b) 0); rewrite ?wz_small_uint, ?wz_big; lia.
Qed.

Lemma wz_mod_word a b : wz (mod_word a b) = if wz b =? 0 then 0 else wz a mod wz b.
Proof.
  unfold mod_word. ranges.
  assert (B : 0 < wz b -> 0 <= wz a mod wz b < wz b) by (intros; by apply Z.mod_pos_bound).
  fast_path; destruct (Z.eqb_spec (wz b) 0); rewrite ?wz_small_uint, ?wz_big; lia.
Qed.

Lemma wz_addmod_word a b n :
  0 <= n < W256 -> wz (addmod_word a b n) = if n =? 0 then 0 else (a + b) mod n.
Proof.
  intros. unfold addmod_word. destruct (Z.eqb_spec n 0); [done|].
  pose proof (Z.mod_pos_bound (a + b) n). apply wz_big. lia.
Qed.

Lemma wz_mulmod_word a b n :
  0 <= n < W256 -> wz (mulmod_word a b n) = if n =? 0 then 0 else (a * b) mod n.
Proof.
  intros. unfold mulmod_word. destruct (Z.eqb_spec n 0); [done|].
  pose proof (Z.mod_pos_bound (a * b) n). apply wz_big. lia.
Qed.

Lemma wz_lt_word a b : wz (lt_word a b) = Z.b2z (wz a <? wz b).
Proof. unfold lt_word. fast_path; by rewrite wz_flag. Qed.

Lemma wz_gt_word a b : wz (gt_word a b) = Z.b2z (wz b <? wz a).
Proof. unfold gt_word. fast_path; by rewrite wz_flag. Qed.

Lemma wz_eq_word a b : wz (eq_word a b) = Z.b2z (wz a =? wz b).
Proof.
  unfold eq_word. rewrite wz_flag. f_equal. apply eq_true_iff_eq.
  rewrite bool_decide_eq_true, Z.eqb_eq. split; [by intros ->|apply array_to_Z_inj].
Qed.

(** The byte [w[24]] of a word below [2^64] holds its top bits. *)
Lemma byte_at_spec w k : 0 <= k < 32 -> b2z (byte_at w k) = wz w / 256 ^ (31 - k) mod 256.
Proof.
  intros Hk. unfold byte_at, nth_byte, array_to_Z. pose proof (length_bytes_of w) as L.
  set (l := bytes_of w) in *. clearbody l.
  destruct (lookup_lt_is_Some_2 l (Z.to_nat k)) as [b Hb]; [lia|].
  rewrite nth_lookup, Hb. simpl.
  rewrite <- (take_drop_middle l (Z.to_nat k) b Hb), be_app, be_cons.
  simpl length. rewrite length_drop, L.
  pose proof (be_range (drop (S (Z.to_nat k)) l)) as R. rewrite length_drop, L in R.
  replace (32 - S (Z.to_nat k))%nat with (Z.to_nat (31 - k)) in * by lia.
  rewrite pow256_S. unfold pow256 in *. rewrite Z2Nat.id in * by lia.
  set (P := 256 ^ (31 - k)) in *. assert (0 < P) by (apply Z.pow_pos_nonneg; lia).
  replace (be (take (Z.to_nat k) l) * (256 * P) + (b2z b * P + be (drop (S (Z.to_nat k)) l)))
    with ((be (take (Z.to_nat k) l) * 256 + b2z b) * P + be (drop (S (Z.to_nat k)) l)) by lia.
  rewrite Z.div_add_l, (Z.div_small (be (drop _ _))), Z.add_0_r by lia.
  rewrite Z.add_comm, Z.mod_add by lia. symmetry. apply Z.mod_small, b2z_range.
Qed.

Lemma small_nonneg_spec w :
  wz w < 2 ^ 64 -> (b2z (byte_at w 24) <? 0x80) = (wz w <? 2 ^ 63).
Proof.
  intros H. rewrite byte_at_spec by lia. pose proof (wz_range w).
  change (256 ^ (31 - 24)) with (2 ^ 56).
  apply eq_true_iff_eq. rewrite !Z.ltb_lt. zlia.
Qed.

Lemma signed_small v : v < 2 ^ 255 -> signed v = v.
Proof. intros. unfold signed. by rewrite (proj2 (Z.ltb_lt _ _)). Qed.

Lemma wz_slt_word a b : wz (slt_word a b) = Z.b2z (signed (wz a) <? signed (wz b)).
Proof.
  unfold slt_word. ranges. destruct (small_nonneg a b) eqn:E; rewrite wz_flag; f_equal.
  - unfold small_nonneg in E. revert E. fast_path; try done.
    rewrite !small_nonneg_spec, andb_true_iff, !Z.ltb_lt by done. intros [].
    by rewrite !i64_small, !signed_small by lia.
  - big_wz. by rewrite !toSigned_spec.
Qed.

Lemma wz_sgt_word a b : wz (sgt_word a b) = Z.b2z (signed (wz b) <? signed (wz a)).
Proof.
  unfold sgt_word. ranges. destruct (small_nonneg a b) eqn:E; rewrite wz_flag; f_equal.
  - unfold small_nonneg in E. revert E. fast_path; try done.
    rewrite !small_nonneg_spec, andb_true_iff, !Z.ltb_lt by done. intros [].
    by rewrite !i64_small, !signed_small by lia.
  - big_wz. by rewrite !toSigned_spec.
Qed.

Lemma quot_bound a b m : 0 < m -> - m <= a < m -> (a = - m -> b <> -1) -> - m <= Z.quot a b < m.
Proof.
  intros Hm Ha Hb.
  destruct (Z.eq_dec b 0) as [->|N]; [rewrite Z.quot_0_r_ext; lia|].
  assert (A : Z.abs (Z.quot a b) = Z.quot (Z.abs a) (Z.abs b)) by (symmetry; by apply Z.quot_abs).
  assert (Q : Z.quot (Z.abs a) (Z.abs b) <= Z.abs a / Z.abs b)
    by (rewrite Z.quot_div_nonneg by lia; lia).
  assert (D : Z.abs a / Z.abs b <= Z.abs a) by (apply Z.div_le_upper_bound; nia).
  destruct (Z.eq_dec (Z.quot a b) m) as [E|E]; [|lia].
  exfalso. assert (Ea : a = - m) by lia. subst a.
  destruct (Z.eq_dec (Z.abs b) 1).
  - assert (b = 1) as -> by lia. rewrite Z.quot_1_r in E. lia.
  - assert (Z.abs (- m) / Z.abs b < m) by (apply Z.div_lt_upper_bound; nia). lia.
Qed.

Lemma signed_zero z : 0 <= z < W256 -> signed z = 0 -> z = 0.
Proof. unfold signed. change W256 with (2 * 2 ^ 255). zcases; lia. Qed.

Lemma wz_sdiv_word a b :
  wz (sdiv_word a b)
  = if wz b =? 0 then 0 else Z.quot (signed (wz a)) (signed (wz b)) mod W256.
Proof.
  unfold sdiv_word. rewrite IsZero_spec. ranges. big_wz. rewrite !toSigned_spec by done.
  destruct (Z.eqb_spec (wz b) 0) as [|N]; [done|]. change (- Z.shiftl 1 255) with (- 2 ^ 255).
  pose proof (signed_range _ (wz_range a)) as Ra.
  destruct ((signed (wz a) =? - 2 ^ 255) && (signed (wz b) =? -1)) eqn:E.
  - apply andb_true_iff in E as [Ea Eb]. apply Z.eqb_eq in Ea, Eb. rewrite Ea, Eb. reflexivity.
  - apply wz_fromSigned, quot_bound; [lia|done|]. intros Ea Eb.
    by rewrite Ea, Eb, !Z.eqb_refl in E.
Qed.

Lemma wz_smod_word a b :
  wz (smod_word a b)
  = if wz b =? 0 then 0 else Z.rem (signed (wz a)) (signed (wz b)) mod W256.
Proof.
  unfold smod_word. rewrite IsZero_spec. ranges. big_wz. rewrite !toSigned_spec by done.
  destruct (Z.eqb_spec (wz b) 0) as [|N]; [done|].
  pose proof (signed_range _ (wz_range b)) as Rb.
  assert (signed (wz b) <> 0) by (intros E; by apply N, signed_zero).
  pose proof (Z.rem_bound_abs (signed (wz a)) (signed (wz b))).
  apply wz_fromSigned. lia.
Qed.

(** An operation that acts bit by bit. *)
Class Bitwise (f : Z -> Z -> Z) (g : bool -> bool -> bool) : Prop := {
  bitwise_spec x y n : Z.testbit (f x y) n = g (Z.testbit x n) (Z.testbit y n)
}.
#[export] Instance land_bitwise : Bitwise Z.land andb := {| bitwise_spec := Z.land_spec |}.
#[export] Instance lor_bitwise : Bitwise Z.lor orb := {| bitwise_spec := Z.lor_spec |}.
#[export] Instance lxor_bitwise : Bitwise Z.lxor xorb := {| bitwise_spec := Z.lxor_spec |}.

Lemma bitwise_shift `{Bitwise f g} x y b c :
  0 <= b < 256 -> 0 <= c < 256 ->
  f (x * 256 + b) (y * 256 + c) = f x y * 256 + f b c mod 256.
Proof.
  intros Hb Hc. change 256 with (2 ^ 8).
  rewrite <- (lor_disjoint b x 8), <- (lor_disjoint c y 8) by lia.
  rewrite <- (lor_disjoint _ (f x y) 8) by (try apply Z.mod_pos_bound; lia).
  apply Z.bits_inj'. intros n Hn.
  rewrite bitwise_spec, !Z.lor_spec.
  destruct (Z.lt_ge_cases n 8).
  - rewrite !Z.mul_pow2_bits_low, Z.mod_pow2_bits_low by lia.
    by rewrite !orb_false_r, bitwise_spec.
  - rewrite !Z.mul_pow2_bits, Z.mod_pow2_bits_high by lia.
    rewrite <- (Z.mod_small b (2 ^ 8)), <- (Z.mod_small c (2 ^ 8)) by lia.
    rewrite !Z.mod_pow2_bits_high by lia. simpl. by rewrite bitwise_spec.
Qed.

Lemma be_zip `{Bitwise f g} l k :
  f 0 0 = 0 -> length l = length k -> be (zip_with (byte_op f) l k) = f (be l) (be k).
Proof.
  intros Z0. revert k. induction l as [|b l IH] using rev_ind; intros k HL.
  - by destruct k.
  - destruct k as [|c k _] using rev_ind; [rewrite length_app in HL; simpl in HL; lia|].
    rewrite !length_app in HL. simpl in HL. rewrite zip_with_app by lia. simpl.
    rewrite !be_snoc, IH by lia. unfold byte_op. rewrite b2z_z2b.
    symmetry. apply bitwise_shift; apply b2z_range.
Qed.

Lemma wz_zip_word `{Bitwise f g} a b : f 0 0 = 0 -> wz (zip_word f a b) = f (wz a) (wz b).
Proof. intros. apply be_zip; [done|]. by rewrite !length_bytes_of. Qed.

Lemma wz_not_word a : wz (not_word a) = W256 - 1 - wz a.
Proof.
  unfold array_to_Z, not_word. cbn [bytes_of mk_array]. rewrite <- pow256_32.
  pose proof (length_bytes_of a) as L. revert L. generalize (bytes_of a). generalize 32%nat.
  intros n l <-. induction l as [|b l IH] using rev_ind; [done|].
  rewrite map_app, length_app, Nat.add_1_r. simpl map. rewrite !be_snoc, IH, pow256_S.
  rewrite b2z_z2b. pose proof (b2z_range b). unfold Z.lnot. zlia.
Qed.

Lemma wz_shl_word s v :
  wz (shl_word s v) = if 256 <=? wz s then 0 else (wz v * 2 ^ wz s) mod W256.
Proof.
  unfold shl_word. ranges.
  assert (S : wz (if 256 <=? ToBigInt s then big 0
                  else big (Z.land (Z.shiftl (ToBigInt v) (ToBigInt s)) maxUint256))
              = if 256 <=? wz s then 0 else (wz v * 2 ^ wz s) mod W256).
  { big_wz. destruct (Z.leb_spec 256 (wz s)); [done|].
    by rewrite wz_big_land, Z.shiftl_mul_pow2 by lia. }
  fast_path; rewrite ?andb_false_r; try exact S.
  destruct (Z.ltb_spec (wz s) 64); [|exact S]. cbn [andb].
  destruct ((0 <? wz s) && negb (Z.shiftr (wz v) (64 - wz s) =? 0)) eqn:E; [exact S|].
  rewrite (proj2 (Z.leb_gt _ _)) by lia. rewrite Z.shiftl_mul_pow2 by lia.
  assert (B : wz v * 2 ^ wz s < 2 ^ 64).
  { destruct (Z.eq_dec (wz s) 0) as [->|N]; [lia|].
    rewrite (proj2 (Z.ltb_lt 0 (wz s))) in E by lia. cbn [andb] in E.
    apply negb_false_iff, Z.eqb_eq in E. rewrite Z.shiftr_div_pow2 in E by lia.
    apply Z.div_small_iff in E; [|pose proof (Z.pow_pos_nonneg 2 (64 - wz s)); lia].
    replace (2 ^ 64) with (2 ^ (64 - wz s) * 2 ^ wz s) by (rewrite <- Z.pow_add_r by lia; f_equal; lia).
    pose proof (Z.pow_pos_nonneg 2 (wz s)). pose proof (Z.pow_pos_nonneg 2 (64 - wz s)). nia. }
  pose proof (Z.pow_pos_nonneg 2 (wz s)).
  rewrite u64_small by (unfold is_u64; nia). rewrite wz_small_uint by nia.
  symmetry. apply Z.mod_small. rewrite W256_eq. nia.
Qed.

Lemma shiftr_bound v n : 0 <= v -> 0 <= n -> 0 <= Z.shiftr v n <= v.
Proof.
  intros. rewrite Z.shiftr_div_pow2 by lia. pose proof (Z.pow_pos_nonneg 2 n).
  split; [apply Z.div_pos; lia|]. apply Z.div_le_upper_bound; nia.
Qed.

Lemma wz_shr_word s v :
  wz (shr_word s v) = if 256 <=? wz s then 0 else wz v / 2 ^ wz s.
Proof.
  unfold shr_word. ranges. pose proof (shiftr_bound (wz v) (wz s)).
  rewrite <- (Z.shiftr_div_pow2 (wz v)) by lia.
  fast_path; rewrite ?andb_false_r;
    try (destruct (Z.ltb_spec (wz s) 64); cbn [andb]);
    destruct (Z.leb_spec 256 (wz s)); rewrite ?wz_small_uint, ?wz_big; try lia; done.
Qed.

(** Shifting a number below [2^255] in absolute value by 256 bits or more
    leaves its sign. *)
Lemma div_pow2_sign v n :
  - 2 ^ 255 <= v < 2 ^ 255 -> 256 <= n -> v / 2 ^ n = if 0 <=? v then 0 else -1.
Proof.
  intros Hv Hn. assert (2 ^ 256 <= 2 ^ n) by (apply Z.pow_le_mono_r; lia).
  destruct (Z.leb_spec 0 v).
  - apply Z.div_small. lia.
  - symmetry. apply Z.div_unique with (v + 2 ^ n); lia.
Qed.

Lemma wz_sar_word s v : wz (sar_word s v) = (signed (wz v) / 2 ^ wz s) mod W256.
Proof.
  unfold sar_word. ranges. big_wz. rewrite (toSigned_spec (wz v)) by done.
  pose proof (signed_range _ (wz_range v)).
  destruct (isUint64 s && (ToUint64 s <? 64) && isUint64 v && (b2z (byte_at v 24) <? 0x80)) eqn:E.
  - revert E. fast_path; rewrite ?andb_false_r; try done.
    rewrite small_nonneg_spec, andb_true_r, andb_true_iff, !Z.ltb_lt by done. intros [].
    rewrite i64_small, signed_small, Z.shiftr_div_pow2 by lia.
    pose proof (shiftr_bound (wz v) (wz s)). rewrite Z.shiftr_div_pow2 in * by lia.
    rewrite u64_small by (unfold is_u64; lia). rewrite wz_small_uint by lia.
    symmetry. apply Z.mod_small. rewrite W256_eq. lia.
  - rewrite wz_big_land. f_equal. destruct (Z.leb_spec 256 (wz s)).
    + symmetry. by apply div_pow2_sign.
    + apply Z.shiftr_div_pow2. lia.
Qed.

Lemma wz_byte_word i v :
  wz (byte_word i v) = if 32 <=? wz i then 0 else wz v / 256 ^ (31 - wz i) mod 256.
Proof.
  unfold byte_word. ranges. fast_path.
  - destruct (Z.leb_spec 32 (wz i)); [done|].
    pose proof (b2z_range (byte_at v (wz i))).
    by rewrite wz_small_uint, byte_at_spec by lia.
  - by rewrite (proj2 (Z.leb_le 32 (wz i))) by lia.
Qed.

Lemma bytes_fill x n c :
  (n <= 32)%nat -> bytes_of (fill x n c) = replicate n c ++ drop n (bytes_of x).
Proof. intros. unfold fill. by destruct (le_dec n 32). Qed.

Lemma be_replicate_ff n : be (replicate n xff) = pow256 n - 1.
Proof.
  induction n as [|n IH]; [done|].
  rewrite replicate_S_end, be_snoc, IH, pow256_S. change (b2z xff) with 255. lia.
Qed.

(** The number the low [n] bytes of [z] denote in two's complement. *)
Definition signed_bytes (n : Z) (z : Z) : Z :=
  let low := z mod 256 ^ n in
  if low <? 256 ^ n / 2 then low else low - 256 ^ n.

Lemma wz_fill x k c :
  0 <= k < 31 ->
  wz (fill x (Z.to_nat (31 - k)) c) =
  be (replicate (Z.to_nat (31 - k)) c) * 256 ^ (k + 1) + wz x mod 256 ^ (k + 1).
Proof.
  intros Hk. unfold array_to_Z. rewrite bytes_fill, be_app by lia.
  pose proof (length_bytes_of x) as L.
  rewrite be_drop, length_drop, L by lia.
  assert (E : pow256 (32 - Z.to_nat (31 - k)) = 256 ^ (k + 1))
    by (unfold pow256; f_equal; lia).
  by rewrite E.
Qed.

Lemma land_80 b : negb (Z.land (b2z b) 0x80 =? 0) = (128 <=? b2z b).
Proof. destruct b; reflexivity. Qed.

Lemma wz_signextend_word k x :
  wz (signextend_word k x)
  = if 31 <=? wz k then wz x else signed_bytes (wz k + 1) (wz x) mod W256.
Proof.
  unfold signextend_word. ranges. fast_path.
  2: { by rewrite (proj2 (Z.leb_le _ _)) by lia. }
  destruct (Z.leb_spec 31 (wz k)) as [|Hk]; [done|].
  rewrite land_80, byte_at_spec by lia. replace (31 - (31 - wz k)) with (wz k) by lia.
  set (P := 256 ^ wz k). assert (HP : 0 < P) by (apply Z.pow_pos_nonneg; lia).
  assert (HQ : 256 ^ (wz k + 1) = P * 256) by (unfold P; rewrite Z.pow_add_r by lia; done).
  assert (HW : 256 ^ (31 - wz k) * (P * 256) = W256).
  { rewrite <- HQ, <- Z.pow_add_r by lia. by replace (31 - wz k + (wz k + 1)) with 32 by lia. }
  unfold signed_bytes. rewrite HQ.
  replace (P * 256 / 2) with (P * 128) by (apply Z.div_unique with 0; lia).
  assert (HT : P <= 256 ^ (31 - wz k) * P).
  { pose proof (Z.pow_pos_nonneg 256 (31 - wz k)). nia. }
  pose proof (Z.rem_mul_r (wz x) P 256 ltac:(lia) ltac:(lia)) as HR.
  pose proof (Z.mod_pos_bound (wz x) P HP) as HL.
  pose proof (Z.mod_pos_bound (wz x / P) 256 ltac:(lia)) as HD.
  pose proof (Z.mod_pos_bound (wz x) (P * 256) ltac:(lia)) as HM.
  destruct (Z.leb_spec 128 (wz x / P mod 256)).
  - rewrite (proj2 (Z.ltb_ge _ _)) by nia.
    rewrite wz_fill, HQ, be_replicate_ff by lia. unfold pow256. rewrite Z2Nat.id by lia.
    apply Z.mod_unique with (-1); nia.
  - rewrite (proj2 (Z.ltb_lt _ _)) by nia.
    rewrite wz_fill, HQ, be_replicate by lia.
    symmetry. rewrite Z.mul_0_l, Z.add_0_l. apply Z.mod_small. nia.
Qed.

(** ** The handlers *)

Section handlers.
Context {DB : Type}.
Local Abbreviation Op := (M (St DB) unit).

Definition unop (f : Word -> Word) : Op := a ← pop; push (f a).

Definition binop (f : Word -> Word -> Word) : Op := a ← pop; b ← pop; push (f a b).

Definition ternop (f : Z -> Z -> Z -> Word) : Op :=
  a ← popB; b ← popB; n ← popB; push (f a b n).

Definition opAdd : Op := binop add_word.
Definition opSub : Op := binop sub_word.
Definition opMul : Op := binop mul_word.
Definition opDiv : Op := binop div_word.
Definition opMod : Op := binop mod_word.
Definition opSDiv : Op := binop sdiv_word.
Definition opSMod : Op := binop smod_word.
Definition opAddMod : Op := ternop addmod_word.
Definition opMulMod : Op := ternop mulmod_word.
Definition opLt : Op := binop lt_word.
Definition opGt : Op := binop gt_word.
Definition opSlt : Op := binop slt_word.
Definition opSgt : Op := binop sgt_word.
Definition opEq : Op := binop eq_word.
Definition opIsZero : Op := unop (fun a => flag (IsZero a)).
Definition opAnd : Op := binop and_word.
Definition opOr : Op := binop or_word.
Definition opXor : Op := binop xor_word.
Definition opNot : Op := unop not_word.
Definition opShl : Op := binop shl_word.
Definition opShr : Op := binop shr_word.
Definition opSar : Op := binop sar_word.
Definition opByte : Op := binop byte_word.
Definition opSignExtend : Op := binop signextend_word.

(** [exp.BitLen()] *)
Definition BitLen (v : Z) : Z := if v =? 0 then 0 else Z.log2 (Z.abs v) + 1.

(** [big.Int.Exp] by repeated squaring. *)
Definition opExp : Op :=
  base ← popB;
  exp ← popB;
  let expBytes := (BitLen exp + 7) / 8 in
  dynamicGas ← check_as ErrGasOverflow (SafeMulGas expBytes GasExpByte);
  consume dynamicGas;;
  pushB (Zpow_mod base exp bigMaxUint256Plus1).

Definition opPush (op : OpCode) : Op :=
  let size := PushSize (encode op) in
  guard_err (size =? 0) ErrInvalidOpcode;;
  start ← getE e_pc;
  code ← getCtx ctx_Code;
  let end_ := u64 (start + size) in
  let end_ := if len code <? end_ then len code else end_ in
  data ← (if start <? len code then or_panic (slice code start end_) else mret []);
  let data := if len data <? size then copy_at (zeros size) (size - len data) data else data in
  modE (set_e_pc end_);;
  push (NewWord data).
End handlers.

(** ** What the handlers do *)

Section runs.
Context {DB : Type}.
Implicit Types s : St DB.

(** [s] with the words of [l] on its stack, the first on top. *)
Definition with_stack (l : list Word) (s : St DB) : St DB :=
  mkSt (set_e_stack (of_top l) (env s)) (world s).

Definition stack_is (s : St DB) (l : list Word) : Prop := e_stack (env s) = of_top l.

Lemma with_stack_is l s : stack_is (with_stack l s) l.
Proof. done. Qed.

Lemma with_stack_twice l k s : with_stack l (with_stack k s) = with_stack l s.
Proof. done. Qed.

Lemma pop_run s w l : stack_is s (w :: l) -> pop s = (Ok w, with_stack l s).
Proof. intros H. unfold pop, onStack, zoom. by rewrite H, Pop_of_top. Qed.

Lemma pop_empty s : stack_is s [] -> pop s = (Err ErrStackUnderflow, with_stack [] s).
Proof. intros H. unfold pop, onStack, zoom. by rewrite H, Pop_of_top_nil. Qed.

Lemma popU_run s w l : stack_is s (w :: l) -> popU s = (Ok (ToUint64 w), with_stack l s).
Proof.
  intros H. unfold popU, onStack, zoom, PopUint64. rewrite H.
  by rewrite (bind_Ok _ _ _ _ _ (Pop_of_top w l)).
Qed.

Lemma popB_run s w l : stack_is s (w :: l) -> popB s = (Ok (wz w), with_stack l s).
Proof.
  intros H. unfold popB, onStack, zoom, PopBigInt. rewrite H.
  by rewrite (bind_Ok _ _ _ _ _ (Pop_of_top w l)).
Qed.

Lemma push_run s w l :
  stack_is s l -> len l < 1024 -> push w s = (Ok tt, with_stack (w :: l) s).
Proof.
  intros H L. unfold push, onStack, zoom. rewrite H, Push_of_top.
  by rewrite (proj2 (Z.leb_gt _ _)) by (unfold MaxStackSize; lia).
Qed.

Lemma unop_run f s a l :
  stack_is s (a :: l) -> len l < 1024 -> unop f s = (Ok tt, with_stack (f a :: l) s).
Proof.
  intros H L. unfold unop. rewrite (bind_Ok _ _ _ _ _ (pop_run s a l H)).
  by rewrite (push_run _ _ l).
Qed.

Lemma binop_run f s a b l :
  stack_is s (a :: b :: l) -> len l < 1024 ->
  binop f s = (Ok tt, with_stack (f a b :: l) s).
Proof.
  intros H L. unfold binop. rewrite (bind_Ok _ _ _ _ _ (pop_run s a _ H)).
  rewrite (bind_Ok _ _ _ _ _ (pop_run _ b l (with_stack_is _ _))).
  by rewrite (push_run _ _ l).
Qed.

Lemma ternop_run f s a b n l :
  stack_is s (a :: b :: n :: l) -> len l < 1024 ->
  ternop f s = (Ok tt, with_stack (f (wz a) (wz b) (wz n) :: l) s).
Proof.
  intros H L. unfold ternop. rewrite (bind_Ok _ _ _ _ _ (popB_run s a _ H)).
  rewrite (bind_Ok _ _ _ _ _ (popB_run _ b _ (with_stack_is _ _))).
  rewrite (bind_Ok _ _ _ _ _ (popB_run _ n l (with_stack_is _ _))).
  by rewrite (push_run _ _ l).
Qed.

(** The bytes of an exponent. *)
Definition byte_size (v : Z) : Z := (BitLen v + 7) / 8.

Lemma byte_size_range w : 0 <= byte_size (wz w) <= 32.
Proof.
  unfold byte_size, BitLen. pose proof (wz_range w). destruct (Z.eqb_spec (wz w) 0); [done|].
  rewrite Z.abs_eq by lia. pose proof (Z.log2_nonneg (wz w)).
  assert (Z.log2 (wz w) < 256) by (apply Z.log2_lt_pow2; [lia|]; rewrite <- W256_eq; lia).
  zlia.
Qed.

Definition with_gas (g : GasMeter) (s : St DB) : St DB :=
  mkSt (set_e_gas g (env s)) (world s).

Lemma consume_run s amount :
  meter_ok (e_gas (env s)) -> is_u64 amount ->
  consume amount s =
  let g := e_gas (env s) in
  if gm_used g + amount <=? gm_limit g
  then (Ok tt, with_gas (set_used g (gm_used g + amount)) s)
  else if gm_used g + amount <? 2 ^ 64
  then (Err ErrOutOfGas, with_gas (set_used g (gm_limit g)) s)
  else (Err ErrGasOverflow, s).
Proof.
  intros Hg Ha. unfold consume, onGas, zoom. rewrite Consume_eq by done. cbv zeta.
  destruct (_ <=? _); [done|]. destruct (_ <? _); [done|]. by destruct s as [[] ?].
Qed.

(** EXP charges 50 gas for each byte of the exponent and pushes the power. *)
Lemma opExp_run s a b l :
  stack_is s (a :: b :: l) -> len l < 1024 -> meter_ok (e_gas (env s)) ->
  let g := e_gas (env s) in
  let used := gm_used g + 50 * byte_size (wz b) in
  used <= gm_limit g ->
  opExp s = (Ok tt, with_stack (big (wz a ^ wz b mod W256) :: l) (with_gas (set_used g used) s)).
Proof.
  intros H L Hg g used Hu. unfold opExp. rewrite (bind_Ok _ _ _ _ _ (popB_run s a _ H)).
  rewrite (bind_Ok _ _ _ _ _ (popB_run _ b l (with_stack_is _ _))). cbv zeta.
  fold (byte_size (wz b)). pose proof (byte_size_range b) as R.
  rewrite (SafeMulGas_spec (byte_size (wz b)) GasExpByte)
    by (unfold is_u64, GasExpByte; lia).
  unfold GasExpByte. rewrite (proj2 (Z.ltb_lt _ _)) by lia. unfold check_as.
  rewrite bind_ret, Z.mul_comm. unfold mbind at 1, M_bind.
  rewrite consume_run; [|done|unfold is_u64; lia]. cbv zeta.
  rewrite (proj2 (Z.leb_le _ _)) by done.
  rewrite Zpow_mod_correct by done.
  by etransitivity; [apply (push_run _ (big (wz a ^ wz b mod W256)) l)|].
Qed.
End runs.
