(* ===== verification/OpsState.v ===== *)
(** * Memory, storage, context, hashing and log instructions
    (qvm/operations.go, qvm/operations_missing.go, qvm/opcodes_extended.go)

    The handlers that read and write the frame's memory, the state database
    and the execution context, and that make no call. *)

From Stdlib Require Import ZArith Lia.
From Stdlib.Strings Require Import Byte.
From stdpp Require Import base list countable gmap strings numbers.
From S2P Require Import Prelude Stack Memory Gas Opcodes StateDB Env OpsArith.

Definition KyberPrivateKeySize : Z := 2400.
Definition KyberCiphertextSize : Z := 1088.

Section handlers.
Context {DB : Type} `{!StateDB DB} (i : Interpreter DB).
Local Abbreviation Op := (M (St DB) unit).

(** ** Memory *)

(** [newSize := offset + size], refused when it wraps, and its expansion gas. *)
Definition chargeRange (offset size : Z) : Op :=
  let newSize := u64 (offset + size) in
  guard_err (newSize <? offset) ErrMemoryOverflow;;
  size0 ← memSize;
  consume (MemoryExpansionCost size0 newSize).

Definition opMLoad : Op :=
  offset ← popU;
  chargeRange offset 32;;
  data ← onMemory (GetPtr offset 32);
  push (NewWord data).

Definition opMStore : Op :=
  offset ← popU;
  value ← pop;
  chargeRange offset 32;;
  onMemory (Set32 offset value).

Definition opMStore8 : Op :=
  offset ← popU;
  value ← pop;
  chargeRange offset 1;;
  onMemory (SetByte offset (byte_at value 31)).

Definition opMCopy : Op :=
  dest ← popU;
  src ← popU;
  size ← popU;
  if size =? 0 then mret tt else
  guard_err ((MaxUint64 - size <? dest) || (MaxUint64 - size <? src))
    (ErrErrorf "MCOPY offset overflow");;
  size0 ← memSize;
  let expansionCost := MemoryExpansionCost size0 (Z.max (u64 (dest + size)) (u64 (src + size))) in
  mcopyWords ← check_as (ErrErrorf "size overflow in MCOPY gas calculation") (SafeAddGas size 31);
  copyCost ← check_as (ErrErrorf "copy gas overflow in MCOPY")
               (SafeMulGas (mcopyWords / 32) GasMemoryCopy);
  totalCost ← check_as (ErrErrorf "MCOPY gas cost overflow") (SafeAddGas expansionCost copyCost);
  consume totalCost;;
  data ← onMemory (Get src size);
  onMemory (Set_ dest data).

(** ** Storage *)

(** The cold surcharge of a storage slot. *)
Definition chargeSlot (key : Hash) : Op :=
  addr ← getCtx ctx_Address;
  slotOk ← getDB (fun d => (SlotInAccessList addr key d).2);
  if slotOk : bool then mret tt
  else
    consume (GasColdSLoad - GasWarmSLoad);;
    modDB (AddSlotToAccessList addr key).

Definition opSLoad : Op :=
  key ← pop;
  chargeSlot key;;
  addr ← getCtx ctx_Address;
  value ← getDB (GetState addr key);
  push (NewWord (bytes_of value)).

Definition isZeroHash (h : Hash) : bool := bool_decide (h = zero_array 32).

Definition opSStore : Op :=
  readOnly ← getCtx ctx_ReadOnly;
  guard_err readOnly ErrWriteProtection;;
  key ← pop;
  value ← pop;
  chargeSlot key;;
  addr ← getCtx ctx_Address;
  current ← getDB (GetState addr key);
  original ← getDB (fun d => match GetCommittedState with
                             | Some committed => Some (committed addr key d)
                             | None => None
                             end);
  table ← getE e_gasTable;
  gasCost ←
    (if bool_decide (current = value) then mret (gt_SLoad table)
     else if match original with Some o => negb (bool_decide (current = o)) | None => false end then
       match original with
       | Some o =>
           if negb (isZeroHash o) && isZeroHash value
           then onGas (Refund (gt_SStoreClear table))
           else mret tt
       | None => mret tt
       end;;
       mret (gt_SLoad table)
     else if isZeroHash current then mret (gt_SStoreSet table)
     else if isZeroHash value then
       match original with
       | Some o => if negb (isZeroHash o) then onGas (Refund (gt_SStoreClear table)) else mret tt
       | None => mret tt
       end;;
       mret (gt_SStoreReset table)
     else mret (gt_SStoreReset table));
  consume gasCost;;
  modDB (SetState addr key value).

Definition transient_of (w : World DB) (r : nat) : TransientStorage := default ∅ (w_transient w !! r).

Definition opTLoad : Op :=
  key ← pop;
  addr ← getCtx ctx_Address;
  r ← getE e_transientStorage;
  storage ← getW (fun w => transient_of w r);
  match storage !! addr with
  | Some slots =>
      match slots !! key with
      | Some val => push (NewWord (bytes_of val))
      | None => push (NewWordFromUint64 0)
      end
  | None => push (NewWordFromUint64 0)
  end.

Definition opTStore : Op :=
  readOnly ← getCtx ctx_ReadOnly;
  guard_err readOnly ErrWriteProtection;;
  key ← pop;
  value ← pop;
  addr ← getCtx ctx_Address;
  r ← getE e_transientStorage;
  modW (fun w =>
    let storage := transient_of w r in
    let slots := default ∅ (storage !! addr) in
    set_w_transient (<[r := <[addr := <[key := value]> slots]> storage]> (w_transient w)) w).

(** ** Context *)

Definition opAddress : Op := a ← getCtx ctx_Address; push (addr_word a).
Definition opCaller : Op := a ← getCtx ctx_Caller; push (addr_word a).
Definition opCallValue : Op := v ← getCtx ctx_Value; onStack (PushBigInt v).
Definition opOrigin : Op := a ← getCtx ctx_Origin; push (NewWord (bytes_of a)).
Definition opGasPrice : Op := v ← getCtx ctx_GasPrice; push (NewWordFromBigInt v).
Definition opGasLimit : Op := v ← getCtx ctx_GasLimit; pushU v.
Definition opCoinbase : Op := a ← getCtx ctx_Coinbase; push (NewWord (bytes_of a)).
Definition opPrevRandao : Op := h ← getCtx ctx_PrevRandao; push (NewWord (bytes_of h)).
Definition opBlobBaseFee : Op := v ← getCtx ctx_BlobBaseFee; pushU v.
Definition opBaseFee : Op := v ← getCtx ctx_BaseFee; pushU v.

Definition opBlobHash : Op :=
  index ← popU;
  hashes ← getCtx ctx_BlobHashes;
  if len hashes <=? index then push (NewWordFromUint64 0)
  else
    hash ← or_panic (hashes !! Z.to_nat index);
    push (NewWord (bytes_of hash)).

Definition opBlockHash : Op :=
  blockNum ← popU;
  e ← getE id;
  let currentBlock := ctx_BlockNumber (e_ctx e) in
  if (currentBlock <=? blockNum) || (256 <? u64 (currentBlock - blockNum))
  then push (NewWord (bytes_of (zero_array 32)))
  else push (NewWord (bytes_of (getBlockHash e blockNum))).

Definition opSelfBalance : Op :=
  addr ← getCtx ctx_Address;
  balance ← callDB (GetBalance addr);
  push (NewWordFromBigInt (Some balance)).

(** The cold surcharge [cold - warm] of an account. *)
Definition chargeAccount (addr : Address) (cold warm : Z) : Op :=
  known ← getDB (AddressInAccessList addr);
  if known : bool then mret tt
  else
    surcharge ← check (SafeSubGas cold warm);
    consume surcharge;;
    modDB (AddAddressToAccessList addr).

Definition opBalance : Op :=
  addrWord ← pop;
  let addr := word_addr addrWord in
  table ← getE e_gasTable;
  chargeAccount addr (gt_BalanceCold table) (gt_Balance table);;
  balance ← callDB (GetBalance addr);
  onStack (PushBigInt (Some balance)).

Definition opExtCodeSize : Op :=
  addrWord ← pop;
  let addr := word_addr addrWord in
  chargeAccount addr GasColdAccountAccess GasWarmAccountAccess;;
  size ← getDB (GetCodeSize addr);
  pushU (u64 size).

Definition opExtCodeHash : Op :=
  addrWord ← pop;
  let addr := word_addr addrWord in
  chargeAccount addr GasColdAccountAccess GasWarmAccountAccess;;
  exist ← getDB (Exist addr);
  if negb exist then push (NewWordFromUint64 0)
  else hash ← getDB (GetCodeHash addr); push (NewWord (bytes_of hash)).

Definition opCodeSize : Op :=
  code ← getCtx ctx_Code;
  original ← getCtx ctx_OriginalCode;
  pushU (match original with Some o => len o | None => len code end).

(** ** Data *)

Definition opCallDataLoad : Op :=
  offset ← popU;
  data ← getCtx ctx_Input;
  if offset <? len data then
    let end_ :=
      if MaxUint64 - 32 <? offset then len data
      else let e := u64 (offset + 32) in if len data <? e then len data else e in
    bytes ← or_panic (slice data offset end_);
    push (mk_array (copy (bytes_of (zero_array 32)) bytes)
            (eq_trans (length_copy _ bytes) (length_bytes_of (zero_array 32))))
  else push (zero_array 32).

(** [data := make([]byte, size)] filled from [source[offset:]] as far as it
    goes. *)
Definition padded (source : list byte) (offset size : Z) : M (St DB) (list byte) :=
  if offset <? len source then
    let end_ := u64 (offset + size) in
    let end_ := if len source <? end_ then len source else end_ in
    bytes ← or_panic (slice source offset end_);
    mret (copy (zeros size) bytes)
  else mret (zeros size).

(** Expansion and per-word copy gas, with the source's error texts. *)
Definition chargeCopy (dest size : Z) (sizeMsg copyMsg : string) : Op :=
  size0 ← memSize;
  let expansionCost := MemoryExpansionCost size0 (u64 (dest + size)) in
  words ← check_as (ErrErrorf sizeMsg) (SafeAddGas size 31);
  copyGas ← check_as (ErrErrorf copyMsg) (SafeMulGas GasCopy (words / 32));
  totalCopyCost ← check_as (ErrErrorf "gas cost overflow") (SafeAddGas expansionCost copyGas);
  consume totalCopyCost.

Definition opCallDataCopy : Op :=
  dest ← popU;
  offset ← popU;
  size ← popU;
  if size =? 0 then mret tt else
  guard_err ((MaxUint64 - size <? dest) || (MaxUint64 - size <? offset))
    (ErrErrorf "CALLDATACOPY offset overflow");;
  chargeCopy dest size "size overflow in CALLDATACOPY gas calculation"
    "copy gas overflow in CALLDATACOPY";;
  input ← getCtx ctx_Input;
  data ← padded input offset size;
  onMemory (Set_ dest data).

Definition opReturnDataCopy : Op :=
  dest ← popU;
  offset ← popU;
  size ← popU;
  if size =? 0 then mret tt else
  returnData ← getE e_returnData;
  guard_err ((MaxUint64 - size <? dest) || (MaxUint64 - size <? offset))
    (ErrErrorf "RETURNDATACOPY offset overflow");;
  guard_err (len returnData <? u64 (offset + size)) (ErrErrorf "RETURNDATACOPY out of bounds");;
  chargeCopy dest size "size overflow in RETURNDATACOPY gas calculation"
    "copy gas overflow in RETURNDATACOPY";;
  bytes ← or_panic (slice returnData offset (u64 (offset + size)));
  onMemory (Set_ dest (copy (zeros size) bytes)).

Definition opCodeCopy : Op :=
  dest ← popU;
  offset ← popU;
  size ← popU;
  if size =? 0 then mret tt else
  guard_err ((MaxUint64 - size <? dest) || (MaxUint64 - size <? offset))
    (ErrErrorf "CODECOPY offset overflow");;
  chargeCopy dest size "CODECOPY size overflow" "CODECOPY copy gas overflow";;
  code ← getCtx ctx_Code;
  original ← getCtx ctx_OriginalCode;
  data ← padded (default code original) offset size;
  onMemory (Set_ dest data).

Definition opExtCodeCopy : Op :=
  addrWord ← pop;
  destOffset ← popU;
  offset ← popU;
  size ← popU;
  let addr := word_addr addrWord in
  chargeAccount addr GasColdAccountAccess GasWarmAccountAccess;;
  if size =? 0 then mret tt else
  guard_err ((MaxUint64 - size <? destOffset) || (MaxUint64 - size <? offset))
    (ErrErrorf "EXTCODECOPY offset overflow");;
  chargeCopy destOffset size "EXTCODECOPY size overflow" "EXTCODECOPY copy gas overflow";;
  code ← getDB (GetCode addr);
  data ← padded code offset size;
  onMemory (Set_ destOffset data).

(** ** Halting *)

(** The gas, the bounds and the read of the returned range. *)
Definition returnRange : Op :=
  offset ← popU;
  size ← popU;
  if 0 <? size then
    chargeRange offset size;;
    data ← onMemory (Get offset size);
    modE (set_e_returnData data)
  else mret tt.

Definition opReturn : Op := returnRange;; modE (set_e_stopped true).

Definition opRevert : Op :=
  returnRange;;
  modE (set_e_stopped true);;
  modE (set_e_reverted true);;
  modE (set_e_err (Some ErrExecutionReverted)).

(** ** Hashing and post-quantum keys *)

Definition opSHA3 : Op :=
  offset ← popU;
  size ← popU;
  chargeRange offset size;;
  sha3Words ← check_as (ErrErrorf "size overflow in SHA3 gas calculation") (SafeAddGas size 31);
  gasCost ← check (SafeMulGas (sha3Words / 32) GasSHA3Word);
  consume gasCost;;
  data ← onMemory (Get offset size);
  push (NewWord (bytes_of (keccak256 (i_crypto i) data))).

Definition opKyberKeyGen : Op := throw ErrNonDeterministicOpcode.
Definition opKyberEncaps : Op := throw ErrNonDeterministicOpcode.

Definition opKyberDecaps : Op :=
  ciphertextOffset ← popU;
  privOffset ← popU;
  let readEndPriv := u64 (privOffset + KyberPrivateKeySize) in
  guard_err (readEndPriv <? privOffset) ErrMemoryOverflow;;
  let readEndCipher := u64 (ciphertextOffset + KyberCiphertextSize) in
  guard_err (readEndCipher <? ciphertextOffset) ErrMemoryOverflow;;
  let maxReadEnd := if readEndPriv <? readEndCipher then readEndCipher else readEndPriv in
  size0 ← memSize;
  consume (MemoryExpansionCost size0 maxReadEnd);;
  privBytes ← onMemory (Get privOffset KyberPrivateKeySize);
  ciphertext ← onMemory (Get ciphertextOffset KyberCiphertextSize);
  sharedKey ← check (KyberDecapsulate (i_crypto i) privBytes ciphertext);
  sharedKeyOffset ← memSize;
  guard_err (MaxUint64 - len sharedKey <? sharedKeyOffset) ErrOutOfGas;;
  let newSize := u64 (sharedKeyOffset + len sharedKey) in
  consume (MemoryExpansionCost sharedKeyOffset newSize);;
  onMemory (Set_ sharedKeyOffset sharedKey);;
  onMemory (ZeroRange privOffset KyberPrivateKeySize);;
  pushU sharedKeyOffset.

Definition opKyberZeroKey : Op :=
  size ← popU;
  offset ← popU;
  if size =? 0 then mret tt else
  guard_err (MaxUint64 - size <? offset) ErrOutOfGas;;
  let newSize := u64 (offset + size) in
  size0 ← memSize;
  total ← check_as ErrOutOfGas
            (SafeAddGas (MemoryExpansionCost size0 newSize) (CalculateCopyGas size));
  consume total;;
  onMemory (ZeroRange offset size).

(** ** Logs *)

Fixpoint popTopics (numTopics : nat) : M (St DB) (list Hash) :=
  match numTopics with
  | O => mret []
  | S n => topic ← pop; topics ← popTopics n; mret (topic :: topics)
  end.

Definition opLog (numTopics : nat) : Op :=
  readOnly ← getCtx ctx_ReadOnly;
  guard_err readOnly ErrWriteProtection;;
  offset ← popU;
  size ← popU;
  topicGas ← check_as (ErrErrorf "gas overflow in LOG operation (topic cost)")
               (SafeMulGas GasLogTopic (Z.of_nat numTopics));
  dataGas ← check_as (ErrErrorf "gas overflow in LOG operation (data cost)")
              (SafeMulGas GasLogData size);
  dynamicGas ← check_as (ErrErrorf "gas overflow in LOG operation (total)")
                 (SafeAddGas topicGas dataGas);
  (if 0 <? size then
     guard_err (MaxUint64 - size <? offset) (ErrErrorf "LOG offset overflow");;
     size0 ← memSize;
     consume (MemoryExpansionCost size0 (u64 (offset + size)))
   else mret tt);;
  data ← onMemory (Get offset size);
  topics ← popTopics numTopics;
  (if 0 <? dynamicGas then consume dynamicGas else mret tt);;
  addr ← getCtx ctx_Address;
  modE (fun e => set_e_logs (e_logs e ++ [mkLog addr topics data]) e).

Definition opLog0 : Op := opLog 0.
Definition opLog1 : Op := opLog 1.
Definition opLog2 : Op := opLog 2.
Definition opLog3 : Op := opLog 3.
Definition opLog4 : Op := opLog 4.

(** ** Self-destruction *)

(** Everything after the address was pushed on the active list. *)
Definition selfDestructBody (beneficiary : Address) : Op :=
  addr ← getCtx ctx_Address;
  exist ← getDB (Exist beneficiary);
  balance ← callDB (GetBalance addr);
  gasCost ← (if negb exist && (0 <? balance)
             then check_as ErrGasOverflow (SafeAddGas GasSelfDestruct GasSelfDestructNewAccount)
             else mret GasSelfDestruct);
  consume gasCost;;
  balance ← callDB (GetBalance addr);
  (if 0 <? balance then
     modDB (SetBalance addr 0);;
     beneficiaryBalance ← callDB (GetBalance beneficiary);
     modDB (SetBalance beneficiary (beneficiaryBalance + balance))
   else mret tt);;
  modDB (SelfDestruct addr);;
  modE (set_e_selfDestructed true);;
  modE (set_e_selfDestructBeneficiary beneficiary);;
  modE (set_e_stopped true).

Definition opSelfDestruct : Op :=
  readOnly ← getCtx ctx_ReadOnly;
  guard_err readOnly ErrWriteProtection;;
  beneficiaryWord ← pop;
  let beneficiary := word_addr beneficiaryWord in
  addr ← getCtx ctx_Address;
  destructed ← getDB (HasSelfDestructed addr);
  cleared ← getW (fun w => bool_decide (addr ∈ w_selfDestructCleared w));
  if destructed && negb cleared then modE (set_e_stopped true)
  else
    (if destructed : bool
     then modW (fun w => set_w_selfDestructCleared (w_selfDestructCleared w ∖ {[addr]}) w)
     else mret tt);;
    created ← getW (fun w => bool_decide (addr ∈ w_txCreatedContracts w));
    if negb created then modE (set_e_stopped true)
    else
      r ← getE (PushActiveAddress addr);
      let '(pushed, e) := r in
      modE (fun _ => e);;
      if pushed : bool
      then defer (fun s => mkSt (PopActiveAddress (env s)) (world s)) (selfDestructBody beneficiary)
      else selfDestructBody beneficiary.
End handlers.
