(* ===== verification/Bytecode.v ===== *)
(** * Bytecode: jump destinations, validation, EVM translation, addresses
    (qvm/qvm.go, qvm/validator.go, qvm/evm_translate.go, qvm/executor.go)

    The functions on contract code that do not run it. Every loop over code is
    a [Fixpoint] with fuel: the length of the code is enough, because each
    step moves [pc] forward by at least one. [next] and [boundary] describe
    the instruction boundaries the loops visit. *)

From Stdlib Require Import ZArith Lia.
From Stdlib.Strings Require Import Byte.
From stdpp Require Import base list countable gmap strings numbers relations.
From S2P Require Import Prelude Stack Gas Opcodes StateDB Env.

(** ** Jump destinations *)

(** The loop of [analyzeJumpDests]. *)
Fixpoint scanDests (code : list byte) (fuel : nat) (pc : Z) (dests : gset Z) : gset Z :=
  match fuel with
  | O => dests
  | S fuel =>
      if pc <? len code then
        let op := nth_byte code pc in
        let dests := if bool_decide (op = encode JUMPDEST) then {[pc]} ∪ dests else dests in
        if IsPush op then
          let nextPC := pc + 1 + PushSize op in
          if len code <? nextPC then dests else scanDests code fuel nextPC dests
        else scanDests code fuel (pc + 1) dests
      else dests
  end.

Definition jumpDestsOf (code : list byte) : gset Z := scanDests code (length code) 0 ∅.

(** ** Validation *)

Inductive ValidationMessage : Set :=
  | CodeSizeExceeds (size max : Z)
  | UnknownOpcode
  | TruncatedPush (need have : Z)
  | InitCodeSizeExceeds (size max : Z)
  | StartsWithEF.

Record ValidationError : Set := mkValidationError {
  ve_Offset : Z;
  ve_OpCode : byte;
  ve_Message : ValidationMessage
}.

Record ValidationResult : Type := mkValidationResult {
  vr_Valid : bool;
  vr_Errors : list ValidationError;
  vr_JumpDests : gset Z;
  vr_CodeSize : Z;
  vr_OpcodeCount : Z
}.

Definition FirstError (r : option ValidationResult) : option ValidationError :=
  match r with
  | None => None
  | Some r => if vr_Valid r then None else head (vr_Errors r)
  end.

Record BytecodeValidator : Type := mkValidator {
  v_maxCodeSize : Z;
  v_allowUnknown : bool;
  v_strictMode : bool
}.

Definition NewBytecodeValidator : BytecodeValidator := mkValidator MaxCodeSize true false.

Definition WithMaxCodeSize (size : Z) (v : BytecodeValidator) : BytecodeValidator :=
  mkValidator size (v_allowUnknown v) (v_strictMode v).

Definition WithStrictMode (strict : bool) (v : BytecodeValidator) : BytecodeValidator :=
  mkValidator (v_maxCodeSize v) (negb strict) strict.

(** [result.Valid = false] with one more error. *)
Definition addError (e : ValidationError) (r : ValidationResult) : ValidationResult :=
  mkValidationResult false (vr_Errors r ++ [e]) (vr_JumpDests r) (vr_CodeSize r) (vr_OpcodeCount r).

Definition countOpcode (r : ValidationResult) : ValidationResult :=
  mkValidationResult (vr_Valid r) (vr_Errors r) (vr_JumpDests r) (vr_CodeSize r)
    (vr_OpcodeCount r + 1).

Definition addJumpDest (pc : Z) (r : ValidationResult) : ValidationResult :=
  mkValidationResult (vr_Valid r) (vr_Errors r) ({[pc]} ∪ vr_JumpDests r) (vr_CodeSize r)
    (vr_OpcodeCount r).

(** The first pass of [Validate]. The second pass, in strict mode, has no
    effect. *)
Fixpoint validateLoop (v : BytecodeValidator) (code : list byte) (fuel : nat) (pc : Z)
    (result : ValidationResult) : ValidationResult :=
  match fuel with
  | O => result
  | S fuel =>
      if pc <? len code then
        let op := nth_byte code pc in
        let result := countOpcode result in
        match GetInfo op with
        | None =>
            let result := if negb (v_allowUnknown v)
                          then addError (mkValidationError pc op UnknownOpcode) result
                          else result in
            validateLoop v code fuel (pc + 1) result
        | Some info =>
            let result := if bool_decide (op = encode JUMPDEST) then addJumpDest pc result else result in
            if IsPush op then
              let pushSize := ImmediateSize info in
              let result :=
                if len code <? pc + 1 + pushSize
                then addError (mkValidationError pc op (TruncatedPush pushSize (len code - pc - 1))) result
                else result in
              validateLoop v code fuel (pc + 1 + pushSize) result
            else validateLoop v code fuel (pc + 1) result
        end
      else result
  end.

Definition Validate (v : BytecodeValidator) (code : list byte) : ValidationResult :=
  let result := mkValidationResult true [] ∅ (len code) 0 in
  if v_maxCodeSize v <? len code
  then addError (mkValidationError 0 x00 (CodeSizeExceeds (len code) (v_maxCodeSize v))) result
  else validateLoop v code (length code) 0 result.

Definition ValidateInitCode (v : BytecodeValidator) (code : list byte) : ValidationResult :=
  let result := Validate v code in
  if MaxInitCodeSize <? len code
  then addError (mkValidationError 0 x00 (InitCodeSizeExceeds (len code) MaxInitCodeSize)) result
  else result.

Definition startsWithEF (code : list byte) : bool :=
  match code with b :: _ => bool_decide (b = xef) | [] => false end.

Definition ValidateDeployedCode (v : BytecodeValidator) (code : list byte) : ValidationResult :=
  let result := Validate v code in
  if startsWithEF code then addError (mkValidationError 0 xef StartsWithEF) result else result.

Fixpoint quickLoop (code : list byte) (fuel : nat) (pc : Z) : option error :=
  match fuel with
  | O => None
  | S fuel =>
      if pc <? len code then
        let op := nth_byte code pc in
        if IsPush op then
          let pushSize := PushSize op in
          if len code <? pc + 1 + pushSize then Some ErrInvalidPushData
          else quickLoop code fuel (pc + 1 + pushSize)
        else match GetInfo op with
             | None => Some ErrUnknownOpcode
             | Some _ => quickLoop code fuel (pc + 1)
             end
      else None
  end.

Definition QuickValidate (v : BytecodeValidator) (code : list byte) : option error :=
  if v_maxCodeSize v <? len code then Some ErrCodeTooLarge
  else if startsWithEF code then Some ErrInvalidCodePrefix
  else quickLoop code (length code) 0.

(** [Interpreter.ValidateBytecode]: outside a development network an unknown
    opcode is refused. *)
Fixpoint bytecodeLoop (devnet : bool) (code : list byte) (fuel : nat) (pc : Z) : option error :=
  match fuel with
  | O => None
  | S fuel =>
      if pc <? len code then
        let op := nth_byte code pc in
        if negb (IsValid op) then
          if negb devnet then Some ErrInvalidBytecode else bytecodeLoop devnet code fuel (pc + 1)
        else if IsPush op then bytecodeLoop devnet code fuel (pc + 1 + PushSize op)
        else bytecodeLoop devnet code fuel (pc + 1)
      else None
  end.

Definition ValidateBytecode {DB} (i : Interpreter DB) (code : list byte) : option error :=
  if MaxCodeSize <? len code then Some ErrMaxCodeSizeExceeded
  else bytecodeLoop (i_devnetValidation i) code (length code) 0.

(** ** Disassembly *)

(** A line of [Disassemble], before it is printed. *)
Inductive Line : Set :=
  | LUnknown (pc : Z) (op : byte)
  | LPush (pc : Z) (op : OpCode) (data : list byte)
  | LOp (pc : Z) (op : OpCode).

Fixpoint disLoop (code : list byte) (fuel : nat) (pc : Z) : list Line :=
  match fuel with
  | O => []
  | S fuel =>
      if pc <? len code then
        let b := nth_byte code pc in
        match decode b with
        | None => LUnknown pc b :: disLoop code fuel (pc + 1)
        | Some op =>
            if IsPush b then
              let pushSize := ImmediateSize (opcodeInfoTable op) in
              let end_ := pc + 1 + pushSize in
              let end_ := if len code <? end_ then len code else end_ in
              LPush pc op (sub code (pc + 1) end_) :: disLoop code fuel end_
            else LOp pc op :: disLoop code fuel (pc + 1)
        end
      else []
  end.

Definition Disassemble (code : list byte) : list Line := disLoop code (length code) 0.

(** The arguments of [Assemble]. *)
Inductive AsmItem : Set :=
  | AsmOp (op : OpCode)
  | AsmByte (b : byte)
  | AsmBytes (l : list byte)
  | AsmInt (n : Z).

Fixpoint Assemble (ops : list AsmItem) : list byte :=
  match ops with
  | [] => []
  | AsmOp op :: rest => encode op :: Assemble rest
  | AsmByte b :: rest => b :: Assemble rest
  | AsmBytes l :: rest => l ++ Assemble rest
  | AsmInt n :: rest => z2b n :: Assemble rest
  end.

(** ** EVM translation *)

Definition evmToQVMOpcodeMap (b : byte) : option OpCode :=
  match b with
  | x00 => Some STOP | x01 => Some ADD | x02 => Some MUL | x03 => Some SUB | x04 => Some DIV
  | x05 => Some SDIV | x06 => Some MOD | x07 => Some SMOD | x08 => Some ADDMOD
  | x09 => Some MULMOD | x0a => Some EXP | x0b => Some SIGNEXTEND | x10 => Some LT
  | x11 => Some GT | x12 => Some SLT | x13 => Some SGT | x14 => Some EQ | x15 => Some ISZERO
  | x16 => Some AND | x17 => Some OR | x18 => Some XOR | x19 => Some NOT | x1a => Some BYTE
  | x1b => Some SHL | x1c => Some SHR | x1d => Some SAR | x20 => Some KECCAK256
  | x30 => Some ADDRESS | x31 => Some BALANCE | x32 => Some ORIGIN | x33 => Some CALLER
  | x34 => Some CALLVALUE | x35 => Some CALLDATALOAD | x36 => Some CALLDATASIZE
  | x37 => Some CALLDATACOPY | x38 => Some CODESIZE | x39 => Some CODECOPY
  | x3a => Some GASPRICE | x3b => Some EXTCODESIZE | x3c => Some EXTCODECOPY
  | x3d => Some RETURNDATASIZE | x3e => Some RETURNDATACOPY | x3f => Some EXTCODEHASH
  | x40 => Some BLOCKHASH | x41 => Some COINBASE | x42 => Some TIMESTAMP | x43 => Some NUMBER
  | x44 => Some PREVRANDAO | x45 => Some GASLIMIT | x46 => Some CHAINID
  | x47 => Some SELFBALANCE | x48 => Some BASEFEE | x49 => Some BLOBHASH
  | x4a => Some BLOBBASEFEE | x50 => Some POP | x51 => Some MLOAD | x52 => Some MSTORE
  | x53 => Some MSTORE8 | x54 => Some SLOAD | x55 => Some SSTORE | x56 => Some JUMP
  | x57 => Some JUMPI | x58 => Some PC | x59 => Some MSIZE | x5a => Some GAS
  | x5b => Some JUMPDEST | x5c => Some TLOAD | x5d => Some TSTORE | x5e => Some MCOPY
  | x5f => Some PUSH0 | x60 => Some PUSH1 | x61 => Some PUSH2 | x62 => Some PUSH3
  | x63 => Some PUSH4 | x64 => Some PUSH5 | x65 => Some PUSH6 | x66 => Some PUSH7
  | x67 => Some PUSH8 | x68 => Some PUSH9 | x69 => Some PUSH10 | x6a => Some PUSH11
  | x6b => Some PUSH12 | x6c => Some PUSH13 | x6d => Some PUSH14 | x6e => Some PUSH15
  | x6f => Some PUSH16 | x70 => Some PUSH17 | x71 => Some PUSH18 | x72 => Some PUSH19
  | x73 => Some PUSH20 | x74 => Some PUSH21 | x75 => Some PUSH22 | x76 => Some PUSH23
  | x77 => Some PUSH24 | x78 => Some PUSH25 | x79 => Some PUSH26 | x7a => Some PUSH27
  | x7b => Some PUSH28 | x7c => Some PUSH29 | x7d => Some PUSH30 | x7e => Some PUSH31
  | x7f => Some PUSH32 | x80 => Some DUP1 | x81 => Some DUP2 | x82 => Some DUP3
  | x83 => Some DUP4 | x84 => Some DUP5 | x85 => Some DUP6 | x86 => Some DUP7
  | x87 => Some DUP8 | x88 => Some DUP9 | x89 => Some DUP10 | x8a => Some DUP11
  | x8b => Some DUP12 | x8c => Some DUP13 | x8d => Some DUP14 | x8e => Some DUP15
  | x8f => Some DUP16 | x90 => Some SWAP1 | x91 => Some SWAP2 | x92 => Some SWAP3
  | x93 => Some SWAP4 | x94 => Some SWAP5 | x95 => Some SWAP6 | x96 => Some SWAP7
  | x97 => Some SWAP8 | x98 => Some SWAP9 | x99 => Some SWAP10 | x9a => Some SWAP11
  | x9b => Some SWAP12 | x9c => Some SWAP13 | x9d => Some SWAP14 | x9e => Some SWAP15
  | x9f => Some SWAP16 | xa0 => Some LOG0 | xa1 => Some LOG1 | xa2 => Some LOG2
  | xa3 => Some LOG3 | xa4 => Some LOG4 | xf0 => Some CREATE | xf1 => Some CALL
  | xf2 => Some CALLCODE | xf3 => Some RETURN | xf4 => Some DELEGATECALL | xf5 => Some CREATE2
  | xf6 => Some AUTH | xf7 => Some AUTHCALL | xfa => Some STATICCALL | xfd => Some REVERT
  | xfe => Some INVALID | xff => Some SELFDESTRUCT
  | _ => None
  end.

Definition qvmOps : list OpCode :=
  [STOP; JUMP; JUMPI; JUMPDEST; PC; NOP; RETURN; REVERT; INVALID; PUSH0; PUSH1; PUSH2; PUSH3;
   PUSH4; PUSH5; PUSH6; PUSH7; PUSH8; PUSH9; PUSH10; PUSH11; PUSH12; PUSH13; PUSH14; PUSH15;
   PUSH16; ADD; MUL; SUB; DIV; SDIV; MOD; SMOD; ADDMOD; MULMOD; EXP; SIGNEXTEND; LT; GT; SLT;
   SGT; EQ; ISZERO; AND; OR; XOR; NOT; BYTE; SHL; SHR; SAR; KECCAK256; ADDRESS; BALANCE;
   ORIGIN; CALLER; CALLVALUE; CALLDATALOAD; CALLDATASIZE; CALLDATACOPY; CODESIZE; CODECOPY;
   GASPRICE; EXTCODESIZE; EXTCODECOPY; RETURNDATASIZE; RETURNDATACOPY; EXTCODEHASH; BLOCKHASH;
   COINBASE; TIMESTAMP; NUMBER; CHAINID; SELFBALANCE; PREVRANDAO; BASEFEE; BLOBBASEFEE;
   GASLIMIT; POP; MLOAD; MSTORE; MSTORE8; SLOAD; SSTORE; MSIZE; GAS; LOG0; LOG1; LOG2; LOG3;
   LOG4; CREATE; CALL; CALLCODE; DELEGATECALL; CREATE2; STATICCALL; SELFDESTRUCT; DUP1; DUP2;
   DUP3; DUP4; DUP5; DUP6; DUP7; DUP8; DUP9; DUP10; DUP11; DUP12; DUP13; DUP14; DUP15; DUP16;
   SWAP1; SWAP2; SWAP3; SWAP4; SWAP5; SWAP6; SWAP7; SWAP8; SWAP9; SWAP10; SWAP11; SWAP12;
   SWAP13; SWAP14; SWAP15; SWAP16; TLOAD; TSTORE; BLOBHASH; MCOPY].

Definition between (lo hi : Z) (b : byte) : bool := (lo <=? b2z b) && (b2z b <=? hi).

Definition IsEVMBytecode (code : list byte) : bool :=
  match code with
  | [] => false
  | first :: _ =>
      if bool_decide (take 5 code = [x60; x80; x60; x40; x52]) then true
      else if bool_decide (first = x5f) then true
      else if existsb (fun qop => bool_decide (first = encode qop)) qvmOps then false
      else between 0x60 0x7F first || between 0x80 0x9F first || between 0xA0 0xA4 first
  end.

Definition EVMTranslatedMarker : list byte := [xfa; xe5; xfe; x91; x4d; xe6; xe0; xe1].

(** The translation loop; the error values carry the position in their text. *)
Fixpoint translateLoop (evmCode : list byte) (fuel : nat) (i : Z) (qvmCode : list byte)
    : error + list byte :=
  match fuel with
  | O => inr qvmCode
  | S fuel =>
      if i <? len evmCode then
        let evmOp := nth_byte evmCode i in
        if between 0x60 0x7F evmOp then
          let pushSize := b2z evmOp - 0x60 + 1 in
          match evmToQVMOpcodeMap evmOp with
          | None => inl (ErrErrorf "evm_translate: unknown PUSH opcode")
          | Some qvmOp =>
              let end_ := i + 1 + pushSize in
              let end_ := if len evmCode <? end_ then len evmCode else end_ in
              let actualSize := end_ - i - 1 in
              translateLoop evmCode fuel end_
                (qvmCode ++ encode qvmOp :: sub evmCode (i + 1) end_ ++ zeros (pushSize - actualSize))
          end
        else
          match evmToQVMOpcodeMap evmOp with
          | None => inl (ErrErrorf "evm_translate: unknown opcode")
          | Some qvmOp => translateLoop evmCode fuel (i + 1) (qvmCode ++ [encode qvmOp])
          end
      else inr qvmCode
  end.

Definition TranslateEVMBytecode (evmCode : list byte) : error + list byte :=
  translateLoop evmCode (length evmCode) 0 EVMTranslatedMarker.

Definition TranslateEVMBytecodeWithLog (evmCode : list byte) : error + list byte :=
  if negb (IsEVMBytecode evmCode) then inr evmCode
  else match TranslateEVMBytecode evmCode with
       | inl _ => inl (ErrErrorf "EVM to QVM bytecode translation failed")
       | inr translated => inr translated
       end.

Definition isEVMTranslatedCode (code : list byte) : bool :=
  bool_decide (take 8 code = EVMTranslatedMarker)
  || bool_decide (take 8 code = [x10; x80; x10; x40; x51; x74; x17; x35]).

(** Removes the marker of translated code. The sources define it and do not
    call it. *)
Definition StripEVMTranslatedMarkerFromRuntimeCode (code : list byte) : list byte :=
  if (len EVMTranslatedMarker <=? len code) &&
     bool_decide (take 8 code = EVMTranslatedMarker)
  then drop 8 code else code.

(** ** Contract addresses *)

(** The loop that builds the big-endian bytes of a nonce. *)
Fixpoint nonceBytes (fuel : nat) (n : Z) (buf : list byte) : list byte :=
  match fuel with
  | O => buf
  | S fuel => if 0 <? n then nonceBytes fuel (Z.shiftr n 8) (z2b (Z.land n 0xff) :: buf) else buf
  end.

Lemma length_hash_tail (h : Hash) : length (take 20 (drop 12 (bytes_of h))) = 20%nat.
Proof. by rewrite length_take, length_drop, length_bytes_of. Qed.

(** [copy(addr[:], hash[12:])] *)
Definition hash_addr (h : Hash) : Address :=
  mk_array (take 20 (drop 12 (bytes_of h))) (length_hash_tail h).

(** The payload is at most 30 bytes long, so its list prefix is one byte. *)
Definition CreateAddress (c : Crypto) (caller : Address) (nonce : Z) : Address :=
  let data := x94 :: bytes_of caller in
  let data :=
    if nonce =? 0 then data ++ [x80]
    else if nonce <? 128 then data ++ [z2b nonce]
    else let buf := nonceBytes 8 nonce [] in data ++ z2b (0x80 + len buf) :: buf in
  hash_addr (keccak256 c (z2b (0xc0 + len data) :: data)).

Definition Create2Address (c : Crypto) (caller : Address) (salt : Hash) (initCode : list byte)
    : Address :=
  let codeHash := keccak256 c initCode in
  hash_addr (keccak256 c (xff :: bytes_of caller ++ bytes_of salt ++ bytes_of codeHash)).

(** ** Instruction boundaries *)

(** Where the instruction after the one at [pc] starts. *)
Definition next (code : list byte) (pc : Z) : Z := pc + 1 + PushSize (nth_byte code pc).

Definition step (code : list byte) (pc pc' : Z) : Prop :=
  0 <= pc < len code /\ pc' = next code pc.

Definition boundary (code : list byte) (pc : Z) : Prop := rtc (step code) 0 pc.

Lemma next_gt code pc : pc < next code pc.
Proof. unfold next. pose proof (PushSize_range (nth_byte code pc)). lia. Qed.

Lemma steps_ge code a b : rtc (step code) a b -> a <= b.
Proof.
  induction 1 as [|a b c [_ ->] _ IH]; [lia|]. pose proof (next_gt code a). lia.
Qed.

(** From a position inside the code one either stays or moves to the next. *)
Lemma steps_inv code a b :
  0 <= a < len code -> rtc (step code) a b <-> b = a \/ rtc (step code) (next code a) b.
Proof.
  intros Ha. split.
  - intros H. inversion H as [|? c ? [_ ->] ?]; subst; auto.
  - intros [->|H]; [reflexivity|]. eapply rtc_l; [|exact H]. by split.
Qed.

Lemma steps_end code a b : len code <= a -> rtc (step code) a b -> b = a.
Proof. intros Ha H. inversion H as [|? c ? [? ->] ?]; subst; [done|lia]. Qed.

Lemma scanDests_end code fuel pc dests : len code <= pc -> scanDests code fuel pc dests = dests.
Proof. intros. destruct fuel; [done|]. simpl. by rewrite (proj2 (Z.ltb_ge _ _)). Qed.

(** One iteration of the scan, whatever the instruction. *)
Lemma scanDests_step code fuel pc dests :
  0 <= pc < len code ->
  scanDests code (S fuel) pc dests =
  scanDests code fuel (next code pc)
    (if bool_decide (nth_byte code pc = encode JUMPDEST) then {[pc]} ∪ dests else dests).
Proof.
  intros H. cbn [scanDests]. rewrite (proj2 (Z.ltb_lt _ _)) by lia. unfold next.
  destruct (IsPush (nth_byte code pc)) eqn:E.
  - destruct (Z.ltb_spec (len code) (pc + 1 + PushSize (nth_byte code pc))); [|done].
    by rewrite (scanDests_end _ _ (pc + 1 + _)) by lia.
  - by rewrite (PushSize_not_push _ E), Z.add_0_r.
Qed.

Lemma scanDests_spec code fuel : forall pc dests x,
  0 <= pc -> len code - pc <= Z.of_nat fuel ->
  x ∈ scanDests code fuel pc dests <->
  x ∈ dests \/ (rtc (step code) pc x /\ x < len code /\ nth_byte code x = encode JUMPDEST).
Proof.
  induction fuel as [|fuel IH]; intros pc dests x Hpc Hf.
  - simpl. split; [auto|]. intros [?|(H & ? & _)]; [done|]. apply steps_ge in H. lia.
  - destruct (Z.lt_ge_cases pc (len code)) as [L|L].
    + rewrite scanDests_step by lia. pose proof (next_gt code pc).
      rewrite IH, (steps_inv code pc x) by lia.
      case_bool_decide as E; rewrite ?elem_of_union, ?elem_of_singleton;
        naive_solver.
    + rewrite scanDests_end by lia. split; [auto|].
      intros [?|(H & ? & _)]; [done|]. apply steps_end in H; lia.
Qed.

Lemma scanDests_boundary code pc :
  pc ∈ jumpDestsOf code <-> boundary code pc /\ pc < len code /\ nth_byte code pc = encode JUMPDEST.
Proof. unfold jumpDestsOf. rewrite scanDests_spec by (unfold len; lia). set_solver. Qed.

(** The jump destinations the interpreter computes for a code are exactly
    the offsets of a JUMPDEST byte that starts an instruction: a 0x03 byte
    inside the immediate of a PUSH is never one, and no JUMPDEST is missed. *)
Theorem jump_dests_exact (code : list byte) (pc : Z) :
  pc ∈ jumpDestsOf code <->
  boundary code pc /\ pc < len code /\ nth_byte code pc = encode JUMPDEST.
Proof. apply scanDests_boundary. Qed.

(** ** Validation *)

Lemma GetInfo_push op info : GetInfo op = Some info -> IsPush op = true -> ImmediateSize info = PushSize op.
Proof. by destruct op; intros [= <-]. Qed.

Lemma GetInfo_unknown op : GetInfo op = None -> IsPush op = false /\ op <> encode JUMPDEST.
Proof. by destruct op. Qed.

(** An instruction the validator accepts: a known opcode whose immediate is
    inside the code. *)
Definition instr_ok (code : list byte) (pc : Z) : Prop :=
  decode (nth_byte code pc) <> None /\ next code pc <= len code.

Lemma GetInfo_decode b : GetInfo b = None <-> decode b = None.
Proof. unfold GetInfo. destruct (decode b); simpl; split; congruence. Qed.

Lemma push_known b : IsPush b = true -> decode b <> None.
Proof. destruct b; vm_compute; congruence. Qed.

Lemma next_not_push code pc : IsPush (nth_byte code pc) = false -> next code pc = pc + 1.
Proof. intros E. unfold next. rewrite (PushSize_not_push _ E). lia. Qed.

Lemma quickLoop_spec code fuel : forall pc,
  0 <= pc -> len code - pc <= Z.of_nat fuel ->
  quickLoop code fuel pc = None <->
  (forall x, rtc (step code) pc x -> x < len code -> instr_ok code x).
Proof.
  induction fuel as [|fuel IH]; intros pc Hpc Hf.
  - simpl. split; [|done]. intros _ x H. apply steps_ge in H. lia.
  - cbn [quickLoop]. destruct (Z.ltb_spec pc (len code)) as [L|L].
    2: { split; [|done]. intros _ x H. apply steps_end in H; lia. }
    assert (E : (forall x, rtc (step code) pc x -> x < len code -> instr_ok code x) <->
                instr_ok code pc /\
                (forall x, rtc (step code) (next code pc) x -> x < len code -> instr_ok code x)).
    { setoid_rewrite (steps_inv code pc); [|lia]. naive_solver. }
    rewrite E. pose proof (next_gt code pc). unfold instr_ok at 1.
    destruct (IsPush (nth_byte code pc)) eqn:P.
    + fold (next code pc). pose proof (push_known _ P).
      destruct (Z.ltb_spec (len code) (next code pc)); [split; [done|lia]|].
      rewrite IH by lia. naive_solver.
    + rewrite <- (next_not_push code pc P).
      destruct (GetInfo (nth_byte code pc)) eqn:G.
      * rewrite IH by lia. pose proof (next_not_push code pc P).
        rewrite <- GetInfo_decode, G. naive_solver lia.
      * apply GetInfo_decode in G. naive_solver.
Qed.

Lemma validateLoop_spec v code fuel : forall pc r,
  0 <= pc -> v_allowUnknown v = false ->
  let r' := validateLoop v code fuel pc r in
  vr_Valid r' = vr_Valid r && bool_decide (quickLoop code fuel pc = None) /\
  vr_JumpDests r' = scanDests code fuel pc (vr_JumpDests r).
Proof.
  induction fuel as [|fuel IH]; intros pc r Hpc Hv; cbn zeta.
  - simpl. by rewrite andb_true_r.
  - cbn [validateLoop quickLoop]. destruct (Z.ltb_spec pc (len code)) as [L|L].
    2: { simpl. rewrite (proj2 (Z.ltb_ge _ _)), andb_true_r by done. done. }
    rewrite scanDests_step by lia. pose proof (next_gt code pc) as N.
    destruct (GetInfo (nth_byte code pc)) as [info|] eqn:G.
    + destruct (IsPush (nth_byte code pc)) eqn:P.
      * rewrite (GetInfo_push _ _ G P). fold (next code pc).
        edestruct (IH (next code pc)) as [-> ->]; [lia|done|].
        destruct (Z.ltb_spec (len code) (next code pc)); case_bool_decide; simpl;
          rewrite ?andb_false_r; done.
      * rewrite <- (next_not_push code pc P).
        edestruct (IH (next code pc)) as [-> ->]; [lia|done|].
        case_bool_decide; done.
    + destruct (GetInfo_unknown _ G) as [P J]. rewrite P, Hv, <- (next_not_push code pc P). simpl.
      edestruct (IH (next code pc)) as [-> ->]; [lia|done|].
      rewrite (bool_decide_eq_false_2 _ J). simpl. by rewrite andb_false_r.
Qed.

(** What the strict validator accepts. A code within the size limit is
    valid exactly when every instruction of it is a known opcode with its
    whole immediate; the quick check accepts the same codes, except those that
    start with 0xEF, and the jump destinations the validator reports are the
    ones the interpreter uses. *)
Theorem strict_validator_sound (code : list byte) (Hlen : len code <= MaxCodeSize) :
  let v := WithStrictMode true NewBytecodeValidator in
  let r := Validate v code in
  (vr_Valid r = true <-> forall pc, boundary code pc -> pc < len code -> instr_ok code pc) /\
  (QuickValidate v code = None <-> startsWithEF code = false /\ vr_Valid r = true) /\
  vr_JumpDests r = jumpDestsOf code.
Proof.
  cbn zeta. unfold Validate, QuickValidate. simpl v_maxCodeSize.
  rewrite (proj2 (Z.ltb_ge _ _)) by done.
  edestruct (validateLoop_spec (WithStrictMode true NewBytecodeValidator) code (length code) 0)
    as [-> ->]; [lia|done|]. simpl.
  rewrite bool_decide_eq_true, quickLoop_spec by (unfold len; lia).
  split; [done|]. split; [|done].
  destruct (startsWithEF code); [naive_solver|]. rewrite quickLoop_spec by (unfold len; lia).
  naive_solver.
Qed.

Lemma strict_validator_sound_witness :
  len [x10; x03; x03] <= MaxCodeSize /\
  vr_JumpDests (Validate (WithStrictMode true NewBytecodeValidator) [x10; x03; x03])
  = jumpDestsOf [x10; x03; x03].
Proof.
  assert (H : len [x10; x03; x03] <= MaxCodeSize) by (unfold len, MaxCodeSize; simpl; lia).
  split; [exact H|]. apply (strict_validator_sound [x10; x03; x03] H).
Defined.

(** ** Disassembly *)

(** What [Assemble] is given for a line. *)
Definition items_of (l : Line) : list AsmItem :=
  match l with
  | LUnknown _ b => [AsmByte b]
  | LPush _ op data => [AsmOp op; AsmBytes data]
  | LOp _ op => [AsmOp op]
  end.

Lemma Assemble_app a b : Assemble (a ++ b) = Assemble a ++ Assemble b.
Proof. induction a as [|[] a IH]; simpl; by rewrite ?IH, ?app_assoc. Qed.

Lemma drop_byte (code : list byte) pc :
  0 <= pc < len code -> drop (Z.to_nat pc) code = nth_byte code pc :: drop (Z.to_nat (pc + 1)) code.
Proof.
  intros H. unfold nth_byte, len in *.
  destruct (lookup_lt_is_Some_2 code (Z.to_nat pc)) as [b Hb]; [lia|].
  rewrite nth_lookup, Hb, (drop_S code b _ Hb). simpl. do 2 f_equal. lia.
Qed.

Lemma sub_drop (code : list byte) a b :
  0 <= a <= b -> b <= len code ->
  drop (Z.to_nat a) code = sub code a b ++ drop (Z.to_nat b) code.
Proof.
  intros H1 H2. unfold sub, len in *.
  rewrite <- (take_drop (Z.to_nat (b - a)) (drop (Z.to_nat a) code)) at 1.
  rewrite drop_drop. do 2 f_equal. lia.
Qed.

Lemma disLoop_spec code fuel : forall pc,
  0 <= pc -> len code - pc <= Z.of_nat fuel ->
  Assemble (concat (map items_of (disLoop code fuel pc))) = drop (Z.to_nat pc) code.
Proof.
  induction fuel as [|fuel IH]; intros pc Hpc Hf.
  - simpl. rewrite drop_ge; [done|]. unfold len in *. lia.
  - cbn [disLoop]. destruct (Z.ltb_spec pc (len code)) as [L|L].
    2: { simpl. rewrite drop_ge; [done|]. unfold len in *. lia. }
    rewrite (drop_byte code pc) by lia.
    destruct (decode (nth_byte code pc)) as [op|] eqn:D.
    2: { simpl. by rewrite IH by lia. }
    destruct (IsPush (nth_byte code pc)) eqn:P.
    2: { simpl. by rewrite (encode_decode _ _ D), IH by lia. }
    cbn zeta. set (e := if _ <? _ then _ else _).
    assert (R : 0 <= ImmediateSize (opcodeInfoTable op)) by (by destruct op).
    assert (He : pc + 1 <= e <= len code) by (unfold e; zcases; lia).
    cbn [map concat items_of]. rewrite Assemble_app, IH by lia. simpl.
    rewrite (encode_decode _ _ D), app_nil_r. f_equal. symmetry. apply sub_drop; lia.
Qed.

(** Assembling the lines [Disassemble] prints for a code, an opcode and
    its immediate at a time, gives the code back, for every byte string,
    truncated immediates and unknown opcodes included. *)
Theorem disassemble_assemble (code : list byte) :
  Assemble (concat (map items_of (Disassemble code))) = code.
Proof. unfold Disassemble. rewrite disLoop_spec by (unfold len; lia). by rewrite drop_0. Qed.

(** ** EVM translation *)

(** Immediate bytes of an EVM instruction. *)
Definition evmPushSize (b : byte) : Z := if between 0x60 0x7F b then b2z b - 0x60 + 1 else 0.

Definition evm_next (code : list byte) (pc : Z) : Z := pc + 1 + evmPushSize (nth_byte code pc).

Definition evm_step (code : list byte) (pc pc' : Z) : Prop :=
  0 <= pc < len code /\ pc' = evm_next code pc.

Definition evm_boundary (code : list byte) (pc : Z) : Prop := rtc (evm_step code) 0 pc.

Lemma evmPushSize_range b : 0 <= evmPushSize b <= 32.
Proof. destruct b; vm_compute; split; discriminate. Qed.

(** The table maps an EVM instruction to one with the same immediate, and
    JUMPDEST to JUMPDEST only. *)
Lemma evm_map_push b op : evmToQVMOpcodeMap b = Some op -> PushSize (encode op) = evmPushSize b.
Proof. by destruct b; intros [= <-]. Qed.

Lemma evm_map_jumpdest b op : evmToQVMOpcodeMap b = Some op -> encode op = encode JUMPDEST <-> b = x5b.
Proof. by destruct b; intros [= <-]. Qed.

Lemma evm_steps_ge code a b : rtc (evm_step code) a b -> a <= b.
Proof.
  induction 1 as [|a b c [_ ->] _ IH]; [lia|]. unfold evm_next in *.
  pose proof (evmPushSize_range (nth_byte code a)). lia.
Qed.

(** One iteration of the translation: the instruction at [i] with its
    immediate, padded with zeros at the end of the code. *)
Lemma translateLoop_step evm fuel i acc op :
  0 <= i < len evm -> evmToQVMOpcodeMap (nth_byte evm i) = Some op ->
  exists imm, len imm = evmPushSize (nth_byte evm i) /\
  translateLoop evm (S fuel) i acc
  = translateLoop evm fuel (Z.min (len evm) (evm_next evm i)) (acc ++ encode op :: imm).
Proof.
  intros Hi E. cbn [translateLoop]. rewrite (proj2 (Z.ltb_lt _ _)) by lia. rewrite E.
  unfold evm_next. pose proof (evmPushSize_range (nth_byte evm i)) as R.
  unfold evmPushSize in *. destruct (between 0x60 0x7F (nth_byte evm i)).
  - set (n := b2z (nth_byte evm i) - 0x60 + 1) in *.
    replace (if len evm <? i + 1 + n then len evm else i + 1 + n)
      with (Z.min (len evm) (i + 1 + n)) by (zcases; lia).
    eexists. split; [|reflexivity].
    rewrite len_app, len_sub, len_zeros by lia. lia.
  - exists []. split; [done|]. f_equal; lia.
Qed.

Lemma nth_byte_app_at (l : list byte) b r : nth_byte (l ++ b :: r) (len l) = b.
Proof. unfold nth_byte, len. rewrite Nat2Z.id, app_nth2, Nat.sub_diag by lia. done. Qed.

Lemma nth_byte_app_l (l r : list byte) x : 0 <= x < len l -> nth_byte (l ++ r) x = nth_byte l x.
Proof. intros. unfold nth_byte, len in *. apply app_nth1. lia. Qed.

(** The translated code holds, at each EVM boundary, the instruction the table
    gives; a boundary at the end of the EVM code is the end of the translated
    one. *)
Lemma translateLoop_spec m evm fuel : forall i body q,
  0 <= i <= len evm -> len evm - i <= Z.of_nat fuel -> (i < len evm -> len body = i) ->
  translateLoop evm fuel i (m ++ body) = inr q ->
  exists tail, q = m ++ body ++ tail /\ (i = len evm -> tail = []) /\
  forall pc, rtc (evm_step evm) i pc -> pc < len evm ->
    exists op, evmToQVMOpcodeMap (nth_byte evm pc) = Some op /\
      nth_byte (body ++ tail) pc = encode op /\
      (len evm <= evm_next evm pc -> evm_next evm pc = len (body ++ tail)) /\
      evm_next evm pc <= len (body ++ tail).
Proof.
  induction fuel as [|fuel IH]; intros i body q Hi Hf Hb HT.
  - simpl in HT. injection HT as <-. exists []. rewrite app_nil_r. split; [done|].
    split; [done|]. intros pc H ?. apply evm_steps_ge in H. lia.
  - destruct (Z.lt_ge_cases i (len evm)) as [L|L].
    2: { cbn [translateLoop] in HT. rewrite (proj2 (Z.ltb_ge _ _)) in HT by lia.
         injection HT as <-. exists []. rewrite app_nil_r. split; [done|].
         split; [done|]. intros pc H ?. apply evm_steps_ge in H. lia. }
    specialize (Hb L).
    destruct (evmToQVMOpcodeMap (nth_byte evm i)) as [op|] eqn:E.
    2: { cbn [translateLoop] in HT. rewrite (proj2 (Z.ltb_lt _ _)), E in HT by lia.
         by destruct (between _ _ _) in HT. }
    destruct (translateLoop_step evm fuel i (m ++ body) op ltac:(lia) E) as (imm & Hl & S).
    rewrite S, <- app_assoc in HT. pose proof (evmPushSize_range (nth_byte evm i)) as R.
    assert (Hn : evm_next evm i = len (body ++ encode op :: imm)).
    { rewrite len_app, Hb. unfold evm_next. rewrite <- Hl. unfold len. simpl. lia. }
    assert (Hi' : i < evm_next evm i) by (unfold evm_next; lia).
    apply IH in HT as (tail & -> & Htail & Hpc); [| lia | lia | lia].
    exists (encode op :: imm ++ tail). split; [by rewrite <- app_assoc|]. split; [lia|].
    rewrite <- (app_assoc body) in Hpc. simpl in Hpc.
    assert (Happ : body ++ encode op :: imm ++ tail = (body ++ encode op :: imm) ++ tail)
      by (by rewrite <- app_assoc).
    intros pc H Hlt. inversion H as [|? c ? [_ ->] Hrest]; subst.
    + exists op. split; [done|]. split; [apply nth_byte_app_at|].
      rewrite Happ, len_app, Hn. pose proof (len_nonneg tail). split; [|lia].
      intros. rewrite Htail by lia. unfold len. simpl. lia.
    + apply Hpc; [|done]. pose proof (evm_steps_ge _ _ _ Hrest).
      by rewrite Z.min_r by lia.
Qed.

Section translated.
Context (evm body : list byte).
Context (Hq : TranslateEVMBytecode evm = inr (EVMTranslatedMarker ++ body)).

Lemma translated_instr pc :
  evm_boundary evm pc -> pc < len evm ->
  exists op, evmToQVMOpcodeMap (nth_byte evm pc) = Some op /\ nth_byte body pc = encode op /\
    next body pc = evm_next evm pc /\ evm_next evm pc <= len body /\
    (len evm <= evm_next evm pc -> evm_next evm pc = len body).
Proof.
  intros H Hlt. unfold TranslateEVMBytecode in Hq.
  rewrite <- (app_nil_r EVMTranslatedMarker) in Hq at 1.
  apply translateLoop_spec in Hq as (tail & E & _ & Hpc);
    [| unfold len; lia | unfold len; lia | done].
  apply app_inv_head in E. simpl in E. subst tail. simpl in Hpc.
  destruct (Hpc pc H Hlt) as (op & Em & En & Hend & Hle). exists op.
  split; [done|]. split; [done|]. split; [|done].
  unfold next. rewrite En, (evm_map_push _ _ Em). done.
Qed.

Lemma translated_empty : len evm = 0 -> body = [].
Proof.
  intros H. apply (f_equal Z.to_nat) in H. unfold len in H. rewrite Nat2Z.id in H.
  apply nil_length_inv in H. rewrite H in Hq. injection Hq as E. done.
Qed.

Lemma translated_boundary pc : boundary body pc <-> evm_boundary evm pc.
Proof.
  split; revert pc.
  - refine (rtc_ind_r (evm_boundary evm) 0 (rtc_refl _ _) _). intros a b _ [Ha ->] IH.
    destruct (Z.lt_ge_cases a (len evm)) as [L|L].
    + destruct (translated_instr a IH L) as (op & _ & _ & -> & _).
      eapply rtc_r; [exact IH|]. split; [lia|done].
    + exfalso. destruct (rtc_inv_r _ _ IH) as [E|(c & Hc & [Hlt E])]; subst a.
      * assert (body = []) as -> by (apply translated_empty; pose proof (len_nonneg evm); lia).
        unfold len in Ha. simpl in Ha. lia.
      * destruct (translated_instr c Hc) as (op & _ & _ & _ & _ & Hend); [lia|].
        rewrite Hend in Ha by done. lia.
  - refine (rtc_ind_r (boundary body) 0 (rtc_refl _ _) _). intros a b H [Ha ->] IH.
    destruct (translated_instr a H) as (op & _ & _ & E & Hle & _); [lia|].
    eapply rtc_r; [exact IH|]. split; [|done].
    pose proof (evmPushSize_range (nth_byte evm a)). unfold evm_next in Hle. lia.
Qed.

Lemma translated_jump_dest x :
  x ∈ jumpDestsOf body <-> evm_boundary evm x /\ x < len evm /\ nth_byte evm x = x5b.
Proof.
  unfold jumpDestsOf. rewrite scanDests_spec by (unfold len; lia).
  fold (boundary body x). rewrite translated_boundary. split.
  - intros [?|(H & Hlt & E)]; [set_solver|].
    destruct (Z.lt_ge_cases x (len evm)) as [L|L].
    + destruct (translated_instr x H L) as (op & Em & En & _).
      split; [done|]. split; [done|]. apply (evm_map_jumpdest _ _ Em). congruence.
    + exfalso. apply translated_boundary in H as HB.
      destruct (rtc_inv_r _ _ H) as [<-|(c & Hc & [Hc' ->])].
      * assert (body = []) as -> by (apply translated_empty; pose proof (len_nonneg evm); lia).
        unfold len in Hlt. simpl in Hlt. lia.
      * destruct (translated_instr c Hc) as (op & _ & _ & _ & _ & Hend); [lia|].
        rewrite Hend in Hlt by done. lia.
  - intros (H & L & E). right. split; [done|].
    destruct (translated_instr x H L) as (op & Em & En & _ & Hle & _). split.
    + pose proof (evmPushSize_range (nth_byte evm x)). unfold evm_next in Hle. lia.
    + rewrite En. by apply (evm_map_jumpdest _ _ Em).
Qed.
End translated.

(** Code behind a prefix that ends on a boundary. *)
Lemma steps_shift (m body : list byte) a b :
  0 <= a -> rtc (step (m ++ body)) (len m + a) (len m + b) <-> rtc (step body) a b.
Proof.
  assert (N : forall x, 0 <= x -> nth_byte (m ++ body) (len m + x) = nth_byte body x).
  { intros x Hx. unfold nth_byte, len. rewrite app_nth2 by lia. f_equal. lia. }
  assert (X : forall x, 0 <= x -> next (m ++ body) (len m + x) = len m + next body x).
  { intros x Hx. unfold next. rewrite N by lia. lia. }
  intros Ha. split.
  - intros H. remember (len m + a) as p eqn:Ep. remember (len m + b) as r eqn:Er.
    revert a Ha Ep. induction H as [p|p q r [Hp ->] _ IH]; intros a Ha ->.
    + replace b with a by lia. reflexivity.
    + rewrite len_app in Hp. pose proof (next_gt body a).
      apply rtc_l with (next body a); [split; [lia|done]|].
      apply IH; [done|lia|]. by apply X.
  - induction 1 as [|a c b [Hp ->] _ IH]; [reflexivity|]. pose proof (next_gt body a).
    apply rtc_l with (len m + next body a); [|apply IH; lia].
    split; [rewrite len_app; pose proof (len_nonneg m); lia|]. by rewrite X.
Qed.

Lemma marker_boundary body x :
  boundary (EVMTranslatedMarker ++ body) x <->
  0 <= x < 8 \/ (8 <= x /\ boundary body (x - 8)).
Proof.
  set (q := EVMTranslatedMarker ++ body). pose proof (len_nonneg body).
  assert (L : len q = 8 + len body) by (unfold q; by rewrite len_app).
  assert (E : forall a, 0 <= a < 8 -> rtc (step q) a x <-> x = a \/ rtc (step q) (a + 1) x).
  { intros a Ha. rewrite steps_inv by lia. replace (next q a) with (a + 1); [done|].
    unfold next, q. rewrite nth_byte_app_l by done.
    assert (a = 0 \/ a = 1 \/ a = 2 \/ a = 3 \/ a = 4 \/ a = 5 \/ a = 6 \/ a = 7) as C by lia.
    by repeat destruct C as [->|C]; [..|subst a]. }
  assert (S : rtc (step q) 8 x <-> 8 <= x /\ boundary body (x - 8)).
  { unfold boundary. rewrite <- (steps_shift EVMTranslatedMarker body 0 (x - 8)) by lia.
    change (len EVMTranslatedMarker) with 8. replace (8 + (x - 8)) with x by lia.
    split; [intros H'; split; [by apply steps_ge in H'|done]|by intros []]. }
  unfold boundary at 1. rewrite !E by lia. rewrite S. intuition lia.
Qed.

(** The jump destinations of EVM code. *)
Definition evm_jump_dest (evm : list byte) (x : Z) : Prop :=
  evm_boundary evm x /\ x < len evm /\ nth_byte evm x = x5b.

Lemma marker_jump_dest body x :
  x ∈ jumpDestsOf (EVMTranslatedMarker ++ body) <-> 8 <= x /\ x - 8 ∈ jumpDestsOf body.
Proof.
  unfold jumpDestsOf. rewrite !scanDests_spec by (unfold len; lia).
  fold (boundary (EVMTranslatedMarker ++ body) x). fold (boundary body (x - 8)).
  rewrite marker_boundary. rewrite len_app. change (len EVMTranslatedMarker) with 8.
  assert (8 <= x -> nth_byte (EVMTranslatedMarker ++ body) x = nth_byte body (x - 8)) as N.
  { intros Hx. unfold nth_byte. rewrite app_nth2 by (simpl; lia). f_equal. simpl. lia. }
  split.
  - intros [?|([Hx|[Hx Hb]] & Hl & E)]; [set_solver| |].
    + rewrite nth_byte_app_l in E by done.
      assert (x = 0 \/ x = 1 \/ x = 2 \/ x = 3 \/ x = 4 \/ x = 5 \/ x = 6 \/ x = 7) as C by lia.
      by repeat destruct C as [->|C]; [..|subst x].
    + rewrite N in E by done. split; [done|]. right. split; [done|]. split; [lia|done].
  - intros [Hx [?|(Hb & Hl & E)]]; [set_solver|]. right.
    split; [auto|]. split; [lia|]. by rewrite N.
Qed.

(** A translation starts with the marker. *)
Lemma translate_marker evm q :
  TranslateEVMBytecode evm = inr q -> exists body, q = EVMTranslatedMarker ++ body.
Proof.
  unfold TranslateEVMBytecode. rewrite <- (app_nil_r EVMTranslatedMarker) at 1. intros H.
  apply translateLoop_spec in H as (tail & -> & _); [eauto | unfold len; lia | unfold len; lia | done].
Qed.

Lemma strip_marker body : StripEVMTranslatedMarkerFromRuntimeCode (EVMTranslatedMarker ++ body) = body.
Proof.
  unfold StripEVMTranslatedMarkerFromRuntimeCode. rewrite len_app, (proj2 (Z.leb_le _ _)).
  - reflexivity.
  - pose proof (len_nonneg body). lia.
Qed.

(** Translating EVM code keeps its layout. With the marker stripped, every
    EVM instruction stays at its offset, as the QVM instruction of the table
    with the same immediate size, so the instruction boundaries and the jump
    destinations are those of the EVM code; the marker identifies the code as
    translated. *)
Theorem evm_translation_layout (evm q : list byte) (Hq : TranslateEVMBytecode evm = inr q) :
  let code := StripEVMTranslatedMarkerFromRuntimeCode q in
  isEVMTranslatedCode q = true /\
  (forall pc, boundary code pc <-> evm_boundary evm pc) /\
  (forall pc, evm_boundary evm pc -> pc < len evm ->
     exists op, evmToQVMOpcodeMap (nth_byte evm pc) = Some op /\
                nth_byte code pc = encode op) /\
  (forall x, x ∈ jumpDestsOf code <-> evm_jump_dest evm x).
Proof.
  destruct (translate_marker evm q Hq) as [body ->]. cbv zeta. rewrite strip_marker.
  split; [done|]. split; [by apply translated_boundary|]. split.
  - intros pc H L. destruct (translated_instr evm body Hq pc H L) as (op & ? & ? & _). eauto.
  - intros x. by apply translated_jump_dest.
Qed.

Lemma evm_translation_layout_witness :
  exists q, TranslateEVMBytecode [x60; x03; x56; x5b] = inr q /\
  (3 ∈ jumpDestsOf (StripEVMTranslatedMarkerFromRuntimeCode q) <-> evm_jump_dest [x60; x03; x56; x5b] 3).
Proof.
  eexists. split; [reflexivity|].
  apply (evm_translation_layout [x60; x03; x56; x5b] _ eq_refl).
Defined.

(** The marker the translator leaves in front of the code moves every jump
    destination eight bytes up, while the destinations the code pushes are not
    moved: the destinations of the translated code are those of the EVM code
    plus eight. *)
Theorem evm_marker_shifts_jumps (evm q : list byte) (Hq : TranslateEVMBytecode evm = inr q) :
  forall x, x ∈ jumpDestsOf q <-> 8 <= x /\ evm_jump_dest evm (x - 8).
Proof.
  destruct (translate_marker evm q Hq) as [body ->]. intros x.
  rewrite marker_jump_dest. by rewrite (translated_jump_dest evm body Hq).
Qed.

Lemma evm_marker_shifts_jumps_witness :
  exists q, TranslateEVMBytecode [x60; x03; x56; x5b] = inr q /\
  (11 ∈ jumpDestsOf q <-> 8 <= 11 /\ evm_jump_dest [x60; x03; x56; x5b] (11 - 8)) /\
  3 ∉ jumpDestsOf q.
Proof.
  eexists. split; [reflexivity|]. split.
  - apply (evm_marker_shifts_jumps [x60; x03; x56; x5b] _ eq_refl).
  - rewrite (evm_marker_shifts_jumps [x60; x03; x56; x5b] _ eq_refl). lia.
Defined.
