(* ===== verification/Calls.v ===== *)
(** * Calls, AUTH and contract creation
    (qvm/call.go, qvm/snapshot_frame.go, qvm/precompile_context.go,
     qvm/operations_missing.go, qvm/opcodes_extended.go)

    The instructions that run another frame. The interpreter is open-recursive
    here: [execute] runs a call in a fresh frame, [run] runs a prepared
    environment to its result; file Interp ties the knot. The blocks the five
    call instructions have in common are definitions of their own; each
    instruction composes them in its own order. *)

From Stdlib Require Import ZArith Lia.
From Stdlib.Strings Require Import Byte.
From stdpp Require Import base list countable gmap strings numbers.
From S2P Require Import Prelude Stack Memory Gas Opcodes StateDB Env OpsArith OpsState Bytecode.

Section calls.
Context {DB : Type} `{!StateDB DB} (i : Interpreter DB).
Context (execute : ExecutionContext -> M (World DB) ExecutionResult).
Context (run : Environment -> M (World DB) (ExecutionResult * Environment)).
Local Abbreviation Op := (M (St DB) unit).

(** ** Common blocks *)

(** [if err := m; err != nil] where the code goes on with the error. *)
Definition errOf (m : Op) : M (St DB) (option error) :=
  r ← attempt m; mret (match r with inl e => Some e | inr _ => None end).

Definition returnErr (err : option error) : Op :=
  match err with Some e => throw e | None => mret tt end.

Definition onDB {A} (m : M DB A) : M (St DB) A := onWorld (zoom w_db set_w_db m).

Record CallArgs : Type := mkCallArgs {
  ca_gas : Z;
  ca_addr : Address;
  ca_value : Z;
  ca_inOffset : Z;
  ca_inSize : Z;
  ca_outOffset : Z;
  ca_outSize : Z
}.

(** The operands of a call, in EVM order for translated code and in the
    reverse order otherwise. *)
Definition popCallArgs (withValue : bool) : M (St DB) CallArgs :=
  evm ← getCtx ctx_EVMCompatible;
  let popValue := if withValue then pop else mret (zero_array 32) in
  if evm : bool then
    gasWord ← pop;
    addrWord ← pop;
    valueWord ← popValue;
    inOffsetWord ← pop;
    inSizeWord ← pop;
    outOffsetWord ← pop;
    outSizeWord ← pop;
    mret (mkCallArgs (ToUint64 gasWord) (word_addr addrWord) (ToBigInt valueWord)
            (ToUint64 inOffsetWord) (ToUint64 inSizeWord)
            (ToUint64 outOffsetWord) (ToUint64 outSizeWord))
  else
    outSizeWord ← pop;
    outOffsetWord ← pop;
    inSizeWord ← pop;
    inOffsetWord ← pop;
    valueWord ← popValue;
    addrWord ← pop;
    gasWord ← pop;
    mret (mkCallArgs (ToUint64 gasWord) (word_addr addrWord) (ToBigInt valueWord)
            (ToUint64 inOffsetWord) (ToUint64 inSizeWord)
            (ToUint64 outOffsetWord) (ToUint64 outSizeWord)).

(** The expansion cost of the larger of the input and output ranges. *)
Definition callMemoryCost (a : CallArgs) : M (St DB) Z :=
  size0 ← memSize;
  inCost ←
    (if 0 <? ca_inSize a then
       let newSize := u64 (ca_inOffset a + ca_inSize a) in
       guard_err (newSize <? ca_inOffset a) ErrMemoryOverflow;;
       mret (MemoryExpansionCost size0 newSize)
     else mret 0);
  if 0 <? ca_outSize a then
    let newSize := u64 (ca_outOffset a + ca_outSize a) in
    guard_err (newSize <? ca_outOffset a) ErrMemoryOverflow;;
    let outExpansion := MemoryExpansionCost size0 newSize in
    mret (if inCost <? outExpansion then outExpansion else inCost)
  else mret inCost.

(** The gas left once the memory is paid. *)
Definition availableAfter (memCost : Z) : M (St DB) Z :=
  available ← remaining;
  guard_err (available <? memCost) ErrOutOfGas;;
  mret (available - memCost).

Definition rejectZeroAddrCall (a : CallArgs) : Op :=
  memCost ← callMemoryCost a;
  available ← remaining;
  guard_err (available <? memCost) ErrOutOfGas;;
  consume memCost;;
  table ← getE e_gasTable;
  available ← remaining;
  let '(callCost, _) := CalculateCallGas (Some table) available (ca_gas a) false false false in
  if available <? callCost then pushU 0
  else consume callCost;; pushU 0.

(** The reentrancy guard: a call to code of an active address is counted, and
    costs 2300 gas more; the counter goes down again when the call returns. *)
Definition withReentryGuard (target guarded : Address) (available : Z) (k : Z -> Z -> Op) : Op :=
  code ← getDB (GetCode target);
  e ← getE id;
  if (0 <? len code) && (1 <=? e_callDepth e) && IsAddressActive e guarded then
    r ← getW (fun w => IncrementReentryCount guarded (w_reentryCounts w));
    let '(ok, counts) := r in
    modW (set_w_reentryCounts counts);;
    if negb ok then pushU 0
    else
      defer (fun s => mkSt (env s)
               (set_w_reentryCounts
                  (DecrementReentryCount guarded (w_reentryCounts (world s))) (world s)))
        (if available <? 2300 then pushU 0 else k 2300 (available - 2300))
  else k 0 available.

(** [env.callDepth++] with its deferred decrement, and the depth limit. *)
Definition enterCall (limited m : Op) : Op :=
  modE (fun e => set_e_callDepth (u64 (e_callDepth e + 1)) e);;
  defer (fun s => mkSt (set_e_callDepth (u64 (e_callDepth (env s) - 1)) (env s)) (world s))
    (depth ← getE e_callDepth;
     if MaxCallDepth <=? depth then limited else m).

Definition truncActive (n : nat) : Op :=
  modE (fun e => set_e_activeAddresses (take n (e_activeAddresses e)) e).

Definition pushActive (addr : Address) : M (St DB) bool :=
  r ← getE (PushActiveAddress addr);
  let '(pushed, e) := r in modE (fun _ => e);; mret pushed.

Definition readInput (a : CallArgs) : M (St DB) (list byte) :=
  if 0 <? ca_inSize a then onMemory (Get (ca_inOffset a) (ca_inSize a)) else mret [].

(** The first bytes of the returned data, at most [outSize] of them. *)
Definition copyOut (outOffset outSize : Z) (data : list byte) : Op :=
  if (0 <? outSize) && (0 <? len data) then
    let copySize := if len data <? outSize then len data else outSize in
    bytes ← or_panic (slice data 0 copySize);
    onMemory (Set_ outOffset bytes)
  else mret tt.

Definition transfer (from to : Address) (value : Z) : Op :=
  callerBalance ← callDB (GetBalance from);
  modDB (SetBalance from (callerBalance - value));;
  calleeBalance ← callDB (GetBalance to);
  modDB (SetBalance to (calleeBalance + value)).

(** The context of a frame called by the frame [e]. The hash windows of the
    block and of the blobs are not passed on. *)
Definition childCtx (e : Environment) (caller addr : Address) (value : option Z)
    (code input : list byte) (original : option (list byte)) (evm : bool)
    (gas depth : Z) (readOnly : bool) : ExecutionContext :=
  let c := e_ctx e in
  {| ctx_Origin := ctx_Origin c; ctx_GasPrice := ctx_GasPrice c; ctx_Caller := caller;
     ctx_Address := addr; ctx_Value := value; ctx_BlockNumber := ctx_BlockNumber c;
     ctx_Timestamp := ctx_Timestamp c; ctx_Coinbase := ctx_Coinbase c;
     ctx_GasLimit := ctx_GasLimit c; ctx_ChainID := ctx_ChainID c; ctx_BlockHashes := ∅;
     ctx_PrevRandao := ctx_PrevRandao c; ctx_BlobHashes := []; ctx_BlobBaseFee := ctx_BlobBaseFee c;
     ctx_BaseFee := ctx_BaseFee c; ctx_Code := code; ctx_Input := input;
     ctx_OriginalCode := original; ctx_EVMCompatible := evm; ctx_Gas := gas; ctx_Depth := depth;
     ctx_ReadOnly := readOnly; ctx_SkipValidation := false; ctx_ParentEnv := Some (as_parent e);
     ctx_AbortCh := None |}.

(** ** Precompiled contracts *)

(** [(executed, success, err)] *)
Definition executePrecompiled (addr : Address) (input : list byte) (callGas outOffset outSize : Z)
    (static : bool) : M (St DB) (bool * bool * option error) :=
  match i_precompiled i with
  | None => mret (false, false, None)
  | Some reg =>
      match reg !! addr with
      | None => mret (false, false, None)
      | Some c =>
          if static && IsStateful c then
            onGas (Return callGas);;
            modE (set_e_returnData []);;
            err ← errOf (pushU 0);
            mret (true, false, err)
          else
            ctx ← getE e_ctx;
            let blockTime := if 0 <? ctx_Timestamp ctx then ctx_Timestamp ctx else 0 in
            let pctx := mkPrecompileContext (ctx_Caller ctx) (ctx_Origin ctx) blockTime
                          (ctx_ChainID ctx) (ctx_Value ctx) static in
            r ← onDB (RunWithContextV2 reg pctx addr input callGas);
            let '(output, gasUsed, runErr) := r in
            (if gasUsed <? callGas then onGas (Return (callGas - gasUsed)) else mret tt);;
            match runErr with
            | Some _ =>
                modE (set_e_returnData []);;
                err ← errOf (pushU 0);
                mret (true, false, err)
            | None =>
                modE (set_e_returnData output);;
                err ← errOf (copyOut outOffset outSize output);
                match err with
                | Some e => mret (true, false, Some e)
                | None => err ← errOf (pushU 1); mret (true, true, err)
                end
            end
      end
  end.

(** ** After a call *)

Definition isErr (err : option error) : bool :=
  match err with Some _ => true | None => false end.

(** What CALL, CALLCODE, DELEGATECALL and AUTHCALL do with the result of the
    frame they ran. *)
Definition finishCall (a : CallArgs) (callGas : Z) (savedActiveLen : nat) (snapshot : Z)
    (result : ExecutionResult) : Op :=
  (if GasUsed result <? callGas then onGas (Return (callGas - GasUsed result)) else mret tt);;
  if isErr (ResErr result) && negb (Reverted result) then
    truncActive savedActiveLen;;
    modDB (RevertToSnapshot snapshot);;
    modE (set_e_returnData []);;
    pushU 0
  else
    (if Reverted result
     then truncActive savedActiveLen;; modDB (RevertToSnapshot snapshot)
     else mret tt);;
    (if negb (Reverted result) then modDB (releaseFrame snapshot) else mret tt);;
    modE (set_e_returnData (ReturnData result));;
    err ← errOf (copyOut (ca_outOffset a) (ca_outSize a) (ReturnData result));
    match err with
    | Some e => truncActive savedActiveLen;; throw e
    | None =>
        (if negb (Reverted result)
         then modE (fun e => set_e_logs (e_logs e ++ Logs result) e) else mret tt);;
        truncActive savedActiveLen;;
        pushU (if isErr (ResErr result) then 0 else 1)
    end.

(** ** CALL *)

(** From the depth check on. *)
Definition callBody (a : CallArgs) (guardGas callGas : Z) (input : list byte) : Op :=
  let addr := ca_addr a in
  let hasValue := 0 <? ca_value a in
  code ← getDB (GetCode addr);
  enterCall (pushU 0)
    (err ← (if 0 <? guardGas then errOf (consume guardGas) else mret None);
     if isErr err then pushU 0 else
     saved ← getE (fun e => length (e_activeAddresses e));
     pushed ← pushActive addr;
     if negb pushed then truncActive saved;; pushU 0 else
     snapshot ← callDB Snapshot;
     if snapshot <? 0 then truncActive saved;; pushU 0 else
     self ← getCtx ctx_Address;
     (if hasValue then transfer self addr (ca_value a) else mret tt);;
     err ← errOf (consume callGas);
     if isErr err then truncActive saved;; modDB (RevertToSnapshot snapshot);; pushU 0 else
     readOnly ← getCtx ctx_ReadOnly;
     r ← executePrecompiled addr input callGas (ca_outOffset a) (ca_outSize a) readOnly;
     let '(executed, success, err) := r in
     if executed : bool then
       (if negb success then modDB (RevertToSnapshot snapshot) else mret tt);;
       truncActive saved;;
       returnErr err
     else
     e ← getE id;
     let callCtx := childCtx e self addr (Some (ca_value a)) code input None
                      (isEVMTranslatedCode code) callGas (e_callDepth e) readOnly in
     result ← onWorld (execute callCtx);
     finishCall a callGas saved snapshot result).

Definition opCall : Op :=
  a ← popCallArgs true;
  readOnly ← getCtx ctx_ReadOnly;
  let addr := ca_addr a in
  let hasValue := 0 <? ca_value a in
  guard_err (readOnly && hasValue) ErrWriteProtection;;
  if bool_decide (addr = zero_address) then rejectZeroAddrCall a else
  isNewAccount ← getDB (fun d => negb (Exist addr d));
  isCold ← getDB (fun d => negb (AddressInAccessList addr d));
  memExpansionCost ← callMemoryCost a;
  available ← availableAfter memExpansionCost;
  withReentryGuard addr addr available (fun guardGas available =>
    table ← getE e_gasTable;
    let '(callCost, callGas) :=
      CalculateCallGas (Some table) available (ca_gas a) hasValue isNewAccount isCold in
    if available <? callCost then pushU 0 else
    consume callCost;;
    modDB (AddAddressToAccessList addr);;
    (if 0 <? memExpansionCost then consume memExpansionCost else mret tt);;
    input ← readInput a;
    self ← getCtx ctx_Address;
    enough ← (if hasValue
              then balance ← callDB (GetBalance self); mret (negb (balance <? ca_value a))
              else mret true);
    if negb enough then pushU 0 else callBody a guardGas callGas input).

(** ** STATICCALL *)

Definition staticCallBody (a : CallArgs) (callGas : Z) (input : list byte) : Op :=
  let addr := ca_addr a in
  code ← getDB (GetCode addr);
  enterCall (pushU 0)
    (saved ← getE (fun e => length (e_activeAddresses e));
     pushed ← pushActive addr;
     if negb pushed then truncActive saved;; pushU 0 else
     defer (fun s => (truncActive saved s).2)
       (err ← errOf (consume callGas);
        if isErr err then pushU 0 else
        snapshot ← callDB Snapshot;
        if snapshot <? 0 then pushU 0 else
        r ← executePrecompiled addr input callGas (ca_outOffset a) (ca_outSize a) true;
        let '(executed, success, err) := r in
        if executed : bool then
          (if negb success then modDB (RevertToSnapshot snapshot)
           else modDB (releaseFrame snapshot));;
          returnErr err
        else
        e ← getE id;
        let callCtx := childCtx e (ctx_Address (e_ctx e)) addr (Some 0) code input None
                         (isEVMTranslatedCode code) callGas (e_callDepth e) true in
        result ← onWorld (execute callCtx);
        (if GasUsed result <? callGas then onGas (Return (callGas - GasUsed result)) else mret tt);;
        modDB (releaseFrame snapshot);;
        modE (set_e_returnData (ReturnData result));;
        copyOut (ca_outOffset a) (ca_outSize a) (ReturnData result);;
        pushU (if isErr (ResErr result) then 0 else 1))).

Definition opStaticCall : Op :=
  a ← popCallArgs false;
  let addr := ca_addr a in
  if bool_decide (addr = zero_address) then rejectZeroAddrCall a else
  isCold ← getDB (fun d => negb (AddressInAccessList addr d));
  memExpansionCost ← callMemoryCost a;
  available ← availableAfter memExpansionCost;
  withReentryGuard addr addr available (fun guardGas available =>
    table ← getE e_gasTable;
    let '(callCost, callGas) :=
      CalculateCallGas (Some table) available (ca_gas a) false false isCold in
    if available <? callCost then pushU 0 else
    consume callCost;;
    modDB (AddAddressToAccessList addr);;
    (if 0 <? memExpansionCost then consume memExpansionCost else mret tt);;
    err ← (if 0 <? guardGas then errOf (consume guardGas) else mret None);
    if isErr err then pushU 0 else
    input ← readInput a;
    staticCallBody a callGas input).

(** ** DELEGATECALL *)

Definition delegateCallBody (a : CallArgs) (callGas : Z) (input : list byte) : Op :=
  let addr := ca_addr a in
  code ← getDB (GetCode addr);
  enterCall (pushU 0)
    (saved ← getE (fun e => length (e_activeAddresses e));
     self ← getCtx ctx_Address;
     pushed ← pushActive self;
     if negb pushed then truncActive saved;; pushU 0 else
     err ← errOf (consume callGas);
     if isErr err then truncActive saved;; pushU 0 else
     snapshot ← callDB Snapshot;
     if snapshot <? 0 then truncActive saved;; pushU 0 else
     readOnly ← getCtx ctx_ReadOnly;
     r ← executePrecompiled addr input callGas (ca_outOffset a) (ca_outSize a) readOnly;
     let '(executed, success, err) := r in
     if executed : bool then
       (if negb success || isErr err then modDB (RevertToSnapshot snapshot)
        else modDB (releaseFrame snapshot));;
       truncActive saved;;
       returnErr err
     else
     e ← getE id;
     let c := e_ctx e in
     let callCtx := childCtx e (ctx_Caller c) (ctx_Address c) (ctx_Value c) code input None
                      (isEVMTranslatedCode code) callGas (e_callDepth e) readOnly in
     result ← onWorld (execute callCtx);
     finishCall a callGas saved snapshot result).

Definition opDelegateCall : Op :=
  a ← popCallArgs false;
  let addr := ca_addr a in
  if bool_decide (addr = zero_address) then rejectZeroAddrCall a else
  isCold ← getDB (fun d => negb (AddressInAccessList addr d));
  memExpansionCost ← callMemoryCost a;
  available ← availableAfter memExpansionCost;
  self ← getCtx ctx_Address;
  withReentryGuard addr self available (fun guardGas available =>
    table ← getE e_gasTable;
    let '(callCost, callGas) :=
      CalculateCallGas (Some table) available (ca_gas a) false false isCold in
    consume callCost;;
    modDB (AddAddressToAccessList addr);;
    (if 0 <? memExpansionCost then consume memExpansionCost else mret tt);;
    err ← (if 0 <? guardGas then errOf (consume guardGas) else mret None);
    if isErr err then pushU 0 else
    input ← readInput a;
    delegateCallBody a callGas input).

(** ** CALLCODE *)

Definition callCodeBody (a : CallArgs) (callGas : Z) (input : list byte) : Op :=
  let addr := ca_addr a in
  enterCall (pushU 0)
    (saved ← getE (fun e => length (e_activeAddresses e));
     self ← getCtx ctx_Address;
     pushed ← pushActive self;
     if negb pushed then truncActive saved;; pushU 0 else
     snapshot ← callDB Snapshot;
     if snapshot <? 0 then truncActive saved;; pushU 0 else
     code ← getDB (GetCode addr);
     err ← errOf (consume callGas);
     if isErr err then truncActive saved;; modDB (RevertToSnapshot snapshot);; pushU 0 else
     readOnly ← getCtx ctx_ReadOnly;
     r ← executePrecompiled addr input callGas (ca_outOffset a) (ca_outSize a) readOnly;
     let '(executed, success, err) := r in
     if executed : bool then
       (if negb success then modDB (RevertToSnapshot snapshot)
        else modDB (releaseFrame snapshot));;
       truncActive saved;;
       returnErr err
     else
     e ← getE id;
     let callCtx := childCtx e self self (Some (ca_value a)) code input None
                      (isEVMTranslatedCode code) callGas (ctx_Depth (e_ctx e) + 1) readOnly in
     result ← onWorld (execute callCtx);
     finishCall a callGas saved snapshot result).

Definition opCallCode : Op :=
  a ← popCallArgs true;
  let addr := ca_addr a in
  let hasValue := 0 <? ca_value a in
  if bool_decide (addr = zero_address) then rejectZeroAddrCall a else
  readOnly ← getCtx ctx_ReadOnly;
  guard_err (readOnly && hasValue) ErrWriteProtection;;
  isNewAccount ← getDB (fun d => negb (Exist addr d));
  isCold ← getDB (fun d => negb (AddressInAccessList addr d));
  memExpansionCost ← callMemoryCost a;
  available ← availableAfter memExpansionCost;
  self ← getCtx ctx_Address;
  withReentryGuard addr self available (fun guardGas available =>
    table ← getE e_gasTable;
    let '(callCost, callGas) :=
      CalculateCallGas (Some table) available (ca_gas a) hasValue isNewAccount isCold in
    if available <? callCost then pushU 0 else
    consume callCost;;
    modDB (AddAddressToAccessList addr);;
    (if 0 <? memExpansionCost then consume memExpansionCost else mret tt);;
    err ← (if 0 <? guardGas then errOf (consume guardGas) else mret None);
    if isErr err then pushU 0 else
    input ← onMemory (Get (ca_inOffset a) (ca_inSize a));
    enough ← (if hasValue
              then balance ← callDB (GetBalance self); mret (negb (balance <? ca_value a))
              else mret true);
    if negb enough then pushU 0 else callCodeBody a callGas input).

(** ** AUTH and AUTHCALL *)

(** [env.authorizedAddress = nil; return env.stack.Push(Word{})] *)
Definition authFail : Op := modE (set_e_authorizedAddress None);; push (zero_array 32).

(** Checks the signed commitment and authorizes the account. *)
Definition authCheck (authorityAddr : Address) (msgBytes : list byte) : Op :=
  let yParity := nth_byte msgBytes 0 in
  rBytes ← or_panic (slice msgBytes 1 33);
  sBytes ← or_panic (slice msgBytes 33 65);
  commit ← or_panic (slice msgBytes 65 (len msgBytes));
  if len commit <? 84 then authFail else
  chainBytes ← or_panic (slice commit 24 32);
  addrBytes ← or_panic (slice commit 64 84);
  chainID ← getCtx ctx_ChainID;
  if negb (be chainBytes =? chainID) then authFail else
  self ← getCtx ctx_Address;
  if negb (bool_decide (addrBytes = bytes_of self)) then authFail else
  nonceBytes ← or_panic (slice commit 32 64);
  let commitNonce := be nonceBytes in
  if negb (commitNonce <? 2 ^ 64) then authFail else
  authorityNonce ← callDB (GetNonce authorityAddr);
  if negb (commitNonce =? authorityNonce) then authFail else
  let msgHash := keccak256 (i_crypto i) (x05 :: commit) in
  match recoverSignerAddress (i_crypto i) msgHash yParity rBytes sBytes with
  | inl _ => authFail
  | inr recoveredAddr =>
      if negb (bool_decide (recoveredAddr = authorityAddr)) then authFail else
      modDB (SetNonce authorityAddr (u64 (authorityNonce + 1)));;
      modE (set_e_authorizedAddress (Some authorityAddr));;
      push (addr_word authorityAddr)
  end.

Definition opAuth : Op :=
  authority ← pop;
  offset ← popU;
  length ← popU;
  if negb (i_ecdsaAuthEnabled i) then authFail else
  consume 3000;;
  (if 0 <? length then chargeRange offset length else mret tt);;
  let authorityAddr := word_addr authority in
  if bool_decide (authorityAddr = zero_address) then authFail else
  readOnly ← getCtx ctx_ReadOnly;
  if readOnly : bool then authFail else
  r ← attempt (onMemory (Get offset length));
  match r with
  | inl _ => authFail
  | inr msgBytes => if len msgBytes <? 65 then authFail else authCheck authorityAddr msgBytes
  end.

Definition authCallBody (a : CallArgs) (effectiveCaller : Address) (callerBalance : option Z)
    (callGas : Z) (input : list byte) : Op :=
  let addr := ca_addr a in
  code ← getDB (GetCode addr);
  enterCall (pushU 0)
    (saved ← getE (fun e => length (e_activeAddresses e));
     pushed ← pushActive addr;
     if negb pushed then truncActive saved;; pushU 0 else
     snapshot ← callDB Snapshot;
     if snapshot <? 0 then truncActive saved;; pushU 0 else
     match callerBalance with
     | Some balance =>
         modDB (SetBalance effectiveCaller (balance - ca_value a));;
         calleeBalance ← callDB (GetBalance addr);
         modDB (SetBalance addr (calleeBalance + ca_value a))
     | None => mret tt
     end;;
     err ← errOf (consume callGas);
     if isErr err then truncActive saved;; modDB (RevertToSnapshot snapshot);; pushU 0 else
     readOnly ← getCtx ctx_ReadOnly;
     r ← executePrecompiled addr input callGas (ca_outOffset a) (ca_outSize a) readOnly;
     let '(executed, success, err) := r in
     if executed : bool then
       (if negb success then modDB (RevertToSnapshot snapshot) else mret tt);;
       truncActive saved;;
       returnErr err
     else
     e ← getE id;
     let callCtx := childCtx e effectiveCaller addr (Some (ca_value a)) code input None
                      (isEVMTranslatedCode code) callGas (ctx_Depth (e_ctx e) + 1) readOnly in
     result ← onWorld (execute callCtx);
     finishCall a callGas saved snapshot result).

Definition opAuthCall : Op :=
  a ← popCallArgs true;
  let addr := ca_addr a in
  let hasValue := 0 <? ca_value a in
  if bool_decide (addr = zero_address) then rejectZeroAddrCall a else
  self ← getCtx ctx_Address;
  authorized ← getE e_authorizedAddress;
  let effectiveCaller := default self authorized in
  readOnly ← getCtx ctx_ReadOnly;
  guard_err (readOnly && hasValue) ErrWriteProtection;;
  isNewAccount ← getDB (fun d => negb (Exist addr d));
  isCold ← getDB (fun d => negb (AddressInAccessList addr d));
  memExpansionCost ← callMemoryCost a;
  available ← availableAfter memExpansionCost;
  withReentryGuard addr addr available (fun guardGas available =>
    table ← getE e_gasTable;
    let '(callCost, callGas) :=
      CalculateCallGas (Some table) available (ca_gas a) hasValue isNewAccount isCold in
    if available <? callCost then pushU 0 else
    consume callCost;;
    modDB (AddAddressToAccessList addr);;
    (if 0 <? memExpansionCost then consume memExpansionCost else mret tt);;
    err ← (if 0 <? guardGas then errOf (consume guardGas) else mret None);
    if isErr err then pushU 0 else
    input ← readInput a;
    callerBalance ← (if hasValue
                     then balance ← callDB (GetBalance effectiveCaller); mret (Some balance)
                     else mret None);
    if match callerBalance with Some b => b <? ca_value a | None => false end then pushU 0
    else authCallBody a effectiveCaller callerBalance callGas input).

(** ** The jump-destination cache *)

Definition maxJumpDestCacheSize : Z := 4096.

Definition analyzeJumpDests (code : list byte) : M (World DB) (gset Z) := fun w =>
  let codeHash := sha256 (i_crypto i) code in
  match w_jumpDestCache w !! codeHash with
  | Some cached => (Ok cached, w)
  | None =>
      let dests := jumpDestsOf code in
      let '(cache, order) :=
        if maxJumpDestCacheSize <=? Z.of_nat (size (w_jumpDestCache w)) then
          let evictCount :=
            let n := maxJumpDestCacheSize / 4 in
            if len (w_jumpDestOrder w) <? n then len (w_jumpDestOrder w) else n in
          let toEvict := take (Z.to_nat evictCount) (w_jumpDestOrder w) in
          (foldl (fun c h => delete h c) (w_jumpDestCache w) toEvict,
           drop (Z.to_nat evictCount) (w_jumpDestOrder w))
        else (w_jumpDestCache w, w_jumpDestOrder w) in
      (Ok dests, set_w_jumpDestOrder (order ++ [codeHash])
                   (set_w_jumpDestCache (<[codeHash := dests]> cache) w))
  end.

(** ** CREATE and CREATE2 *)

(** A frame before its first instruction. *)
Definition newEnvironment (ctx : ExecutionContext) (dests : gset Z) (callDepth : Z)
    (active : list Address) (parents : list (list Address)) (blockHashes : gmap Z Hash)
    (transient : nat) : Environment :=
  {| e_ctx := ctx; e_stack := NewStack; e_memory := NewMemory; e_gas := NewGasMeter (ctx_Gas ctx);
     e_gasTable := i_gasTable i; e_pc := 0; e_jumpDests := dests; e_logs := []; e_returnData := [];
     e_stopped := false; e_reverted := false; e_err := None; e_callDepth := callDepth;
     e_activeAddresses := active; e_parents := parents; e_selfDestructed := false;
     e_selfDestructBeneficiary := zero_address; e_blockHashes := blockHashes;
     e_transientStorage := transient; e_authorizedAddress := None; e_pqcKeyRegions := [] |}.

Definition calculateMemoryGas (offset size : Z) : M (St DB) Z :=
  if size =? 0 then mret 0 else
  guard_err (MaxUint64 - size <? offset) (ErrErrorf "memory offset+size overflow");;
  let requiredBytes := u64 (offset + size) in
  oldSize ← memSize;
  if requiredBytes <=? oldSize then mret 0 else mret (MemoryExpansionCost oldSize requiredBytes).

Definition createGas (isCreate2 : bool) (offset size : Z) : M (St DB) Z :=
  let gasCost := if isCreate2 then GasCreate2 else GasCreate in
  gasMemory ← calculateMemoryGas offset size;
  gasCost ← check_as (ErrErrorf "create gas overflow: memory expansion") (SafeAddGas gasCost gasMemory);
  gasCost ←
    (if 32 <? size then
       eip3860Cost ← check_as (ErrErrorf "create gas overflow: EIP-3860 initcode cost")
                       (SafeMulGas (size - 32) 200);
       check_as (ErrErrorf "create gas overflow: EIP-3860") (SafeAddGas gasCost eip3860Cost)
     else mret gasCost);
  if isCreate2 && (0 <? size) then
    guard_err (MaxUint64 - 31 <? size) ErrMemoryOverflow;;
    hashCost ← check_as (ErrErrorf "create gas overflow: CREATE2 hash cost")
                 (SafeMulGas ((size + 31) / 32) 6);
    check_as (ErrErrorf "create gas overflow: CREATE2 hash") (SafeAddGas gasCost hashCost)
  else mret gasCost.

Definition createFail : Op := push (AddressToWord zero_address).

Definition createRevert (snapshot : Z) : Op := modDB (RevertToSnapshot snapshot);; createFail.

(** [env.transientStorage = transientSnapshot]: the frame gets a fresh map. *)
Definition restoreTransient (saved : TransientStorage) : Op := fun s =>
  let w := world s in
  (Ok tt, mkSt (set_e_transientStorage (w_next w) (env s))
            (set_w_next (S (w_next w)) (set_w_transient (<[w_next w := saved]> (w_transient w)) w))).

Definition createFailed (snapshot : Z) (saved : TransientStorage) : Op :=
  modDB (RevertToSnapshot snapshot);; restoreTransient saved;; createFail.

(** After the constructor returned. *)
Definition createFinish (contractAddr : Address) (snapshot : Z) (saved : TransientStorage)
    (createResult : ExecutionResult) (deployedCode : list byte) : Op :=
  if MaxCodeSize <? len deployedCode then createFailed snapshot saved else
  deposit ←
    (if 0 <? len deployedCode then
       match SafeMulGas (len deployedCode) GasCodeDeposit with
       | inl e => mret (Some e)
       | inr codeDepositCost => errOf (consume codeDepositCost)
       end
     else mret None);
  if isErr deposit then createFailed snapshot saved else
  let translated :=
    if (0 <? len deployedCode) && IsEVMBytecode deployedCode
    then TranslateEVMBytecode deployedCode else inr deployedCode in
  match translated with
  | inl _ => createFailed snapshot saved
  | inr deployedCode =>
      if startsWithEF deployedCode then createFailed snapshot saved else
      modDB (SetCode contractAddr deployedCode);;
      modW (fun w => set_w_txCreatedContracts ({[contractAddr]} ∪ w_txCreatedContracts w) w);;
      modE (fun e => set_e_logs (e_logs e ++ Logs createResult) e);;
      modDB (releaseFrame snapshot);;
      push (AddressToWord contractAddr)
  end.

(** Runs the constructor in a frame of its own. *)
Definition createRun (contractAddr : Address) (value : Z) (initCode : list byte) (snapshot : Z) : Op :=
  let '(execInitCode, evmCompatible) :=
    if (0 <? len initCode) && IsEVMBytecode initCode then
      match TranslateEVMBytecode initCode with
      | inr translated => (translated, true)
      | inl _ => (initCode, false)
      end
    else (initCode, false) in
  left ← remaining;
  e ← getE id;
  let depth := ctx_Depth (e_ctx e) + 1 in
  let initCtx := childCtx e (ctx_Address (e_ctx e)) contractAddr (Some value) execInitCode initCode
                   (Some initCode) evmCompatible (left - left / 64) depth false in
  dests ← onWorld (analyzeJumpDests execInitCode);
  let initEnv := newEnvironment initCtx dests (u64 depth) (e_activeAddresses e)
                   (e_activeAddresses e :: e_parents e) (e_blockHashes e) (e_transientStorage e) in
  enterCall (createRevert snapshot)
    (let '(pushed, initEnv) := PushActiveAddress contractAddr initEnv in
     if negb pushed then createRevert snapshot else
     err ← errOf (consume (ctx_Gas initCtx));
     if isErr err then createRevert snapshot else
     saved ← getW (fun w => transient_of w (e_transientStorage e));
     r ← onWorld (run initEnv);
     let '(createResult, initEnv) := r in
     let err := match e_err initEnv with Some x => Some x | None => ResErr createResult end in
     let reverted := e_reverted initEnv || Reverted createResult in
     let childGasUsed := Used (e_gas initEnv) in
     (if childGasUsed <? ctx_Gas initCtx
      then onGas (Return (ctx_Gas initCtx - childGasUsed)) else mret tt);;
     if isErr err || reverted then createFailed snapshot saved
     else createFinish contractAddr snapshot saved createResult (e_returnData initEnv)).

(** The collision check, the nonces and the endowment; [false] when the
    creation is refused. *)
Definition createPrepare (creator contractAddr : Address) (value : Z) : M (St DB) bool :=
  created ← getW (fun w => bool_decide (contractAddr ∈ w_txCreatedContracts w));
  destructed ← getDB (HasSelfDestructed contractAddr);
  codeSize ← getDB (GetCodeSize contractAddr);
  free ←
    (if created && destructed then
       if 0 <? codeSize then mret false
       else
         modW (fun w => set_w_selfDestructCleared ({[contractAddr]} ∪ w_selfDestructCleared w) w);;
         modW (fun w => set_w_txCreatedContracts (w_txCreatedContracts w ∖ {[contractAddr]}) w);;
         mret true
     else if 0 <? codeSize then mret false
     else nonce ← callDB (GetNonce contractAddr); mret (negb (0 <? nonce)));
  if negb free then mret false else
  creatorNonce ← callDB (GetNonce creator);
  if creatorNonce =? MaxUint64 then mret false else
  modDB (SetNonce creator (creatorNonce + 1));;
  modDB (SetNonce contractAddr 1);;
  if 0 <? value then
    creatorBalance ← callDB (GetBalance creator);
    if creatorBalance <? value then mret false
    else
      modDB (SetBalance creator (creatorBalance - value));;
      contractBalance ← callDB (GetBalance contractAddr);
      modDB (SetBalance contractAddr (contractBalance + value));;
      mret true
  else mret true.

Definition opCreateGeneric (isCreate2 : bool) : Op :=
  readOnly ← getCtx ctx_ReadOnly;
  guard_err readOnly ErrWriteProtection;;
  value ← popB;
  offset ← popU;
  size ← popU;
  salt ← (if isCreate2 then pop else mret (zero_array 32));
  guard_err (MaxInitCodeSize <? size) ErrInitCodeSizeExceeded;;
  gasCost ← createGas isCreate2 offset size;
  consume gasCost;;
  initCode ← onMemory (Get offset size);
  snapshot ← callDB Snapshot;
  if snapshot <? 0 then createFail else
  creator ← getCtx ctx_Address;
  contractAddr ←
    (if isCreate2 then mret (Create2Address (i_crypto i) creator salt initCode)
     else nonce ← callDB (GetNonce creator); mret (CreateAddress (i_crypto i) creator nonce));
  ok ← createPrepare creator contractAddr value;
  if negb ok then createRevert snapshot
  else createRun contractAddr value initCode snapshot.

Definition opCreate : Op := opCreateGeneric false.
Definition opCreate2 : Op := opCreateGeneric true.
End calls.
