(* ===== verification/Interp.v ===== *)
(** * The interpreter (qvm/environment.go, qvm/qvm.go)

    [executeOp] dispatches an instruction, [loop] is the main loop of [run],
    and [Execute] runs a context in a fresh frame. The recursion through calls
    goes through the loop: with fuel [S n] an iteration and every frame it
    calls run with fuel [n]. [NoFuel] is the outcome of a run whose fuel is
    too small; file Safety proves that twice the gas of the context, plus
    two, is enough. *)

From Stdlib Require Import ZArith Lia.
From Stdlib.Strings Require Import Byte.
From stdpp Require Import base list countable gmap strings numbers.
From S2P Require Import Prelude Stack Memory Gas Opcodes StateDB Env OpsArith OpsState Bytecode Calls.

Section interpreter.
Context {DB : Type} `{!StateDB DB} (i : Interpreter DB).
Local Abbreviation Op := (M (St DB) unit).

Section dispatch.
Context (execute : ExecutionContext -> M (World DB) ExecutionResult).
Context (run : Environment -> M (World DB) (ExecutionResult * Environment)).

Definition jumpTo (dest : Z) : Op :=
  dests ← getE e_jumpDests;
  guard_err (negb (bool_decide (dest ∈ dests))) ErrInvalidJumpDest;;
  modE (set_e_pc dest).

Definition opJump : Op := dest ← popU; jumpTo dest.

Definition opJumpI : Op :=
  dest ← popU;
  cond ← pop;
  if negb (IsZero cond) then jumpTo dest else mret tt.

Definition executeOp (op : OpCode) : Op :=
  match op with
  | STOP => modE (set_e_stopped true)
  | JUMP => opJump
  | JUMPI => opJumpI
  | JUMPDEST => mret tt
  | PC => pc ← getE e_pc; pushU (u64 (pc - 1))
  | NOP => mret tt
  | RETURN => opReturn
  | REVERT => opRevert
  | INVALID => throw ErrInvalidOpcode
  | SIGNEXTEND => opSignExtend
  | PUSH0 => push (zero_array 32)
  | PUSH1 | PUSH2 | PUSH3 | PUSH4 | PUSH5 | PUSH6 | PUSH7 | PUSH8 | PUSH9 | PUSH10 | PUSH11
  | PUSH12 | PUSH13 | PUSH14 | PUSH15 | PUSH16 | PUSH17 | PUSH18 | PUSH19 | PUSH20 | PUSH21
  | PUSH22 | PUSH23 | PUSH24 | PUSH25 | PUSH26 | PUSH27 | PUSH28 | PUSH29 | PUSH30 | PUSH31
  | PUSH32 => opPush op
  | POP => pop;; mret tt
  | DUP1 => onStack (Dup 1) | DUP2 => onStack (Dup 2) | DUP3 => onStack (Dup 3)
  | DUP4 => onStack (Dup 4) | DUP5 => onStack (Dup 5) | DUP6 => onStack (Dup 6)
  | DUP7 => onStack (Dup 7) | DUP8 => onStack (Dup 8) | DUP9 => onStack (Dup 9)
  | DUP10 => onStack (Dup 10) | DUP11 => onStack (Dup 11) | DUP12 => onStack (Dup 12)
  | DUP13 => onStack (Dup 13) | DUP14 => onStack (Dup 14) | DUP15 => onStack (Dup 15)
  | DUP16 => onStack (Dup 16)
  | SWAP1 => onStack (Swap 1) | SWAP2 => onStack (Swap 2) | SWAP3 => onStack (Swap 3)
  | SWAP4 => onStack (Swap 4) | SWAP5 => onStack (Swap 5) | SWAP6 => onStack (Swap 6)
  | SWAP7 => onStack (Swap 7) | SWAP8 => onStack (Swap 8) | SWAP9 => onStack (Swap 9)
  | SWAP10 => onStack (Swap 10) | SWAP11 => onStack (Swap 11) | SWAP12 => onStack (Swap 12)
  | SWAP13 => onStack (Swap 13) | SWAP14 => onStack (Swap 14) | SWAP15 => onStack (Swap 15)
  | SWAP16 => onStack (Swap 16)
  | ADD => opAdd | SUB => opSub | MUL => opMul | DIV => opDiv | SDIV => opSDiv | MOD => opMod
  | SMOD => opSMod | ADDMOD => opAddMod | MULMOD => opMulMod | EXP => opExp
  | LT => opLt | GT => opGt | SLT => opSlt | SGT => opSgt | EQ => opEq | ISZERO => opIsZero
  | AND => opAnd | OR => opOr | XOR => opXor | NOT => opNot | SHL => opShl | SHR => opShr
  | SAR => opSar | BYTE => opByte
  | MLOAD => opMLoad | MSTORE => opMStore | MSTORE8 => opMStore8
  | MSIZE => size ← memSize; pushU size
  | MCOPY => opMCopy
  | SLOAD => opSLoad | SSTORE => opSStore | TLOAD => opTLoad | TSTORE => opTStore
  | ADDRESS => opAddress | BALANCE => opBalance | ORIGIN => opOrigin | CALLER => opCaller
  | CALLVALUE => opCallValue | CALLDATALOAD => opCallDataLoad
  | CALLDATASIZE => input ← getCtx ctx_Input; pushU (len input)
  | RETURNDATASIZE => data ← getE e_returnData; pushU (len data)
  | CALLDATACOPY => opCallDataCopy | RETURNDATACOPY => opReturnDataCopy
  | CODESIZE => opCodeSize | CODECOPY => opCodeCopy
  | GASPRICE => opGasPrice | GASLIMIT => opGasLimit
  | GAS => left ← remaining; pushU left
  | BLOCKHASH => opBlockHash | COINBASE => opCoinbase
  | TIMESTAMP => t ← getCtx ctx_Timestamp; pushU (u64 t)
  | NUMBER => n ← getCtx ctx_BlockNumber; pushU n
  | CHAINID => n ← getCtx ctx_ChainID; pushU n
  | SELFBALANCE => opSelfBalance
  | EXTCODESIZE => opExtCodeSize | EXTCODECOPY => opExtCodeCopy | EXTCODEHASH => opExtCodeHash
  | PREVRANDAO => opPrevRandao | BLOBHASH => opBlobHash | BASEFEE => opBaseFee
  | BLOBBASEFEE => opBlobBaseFee
  | SHA3 | KECCAK256 => opSHA3 i
  | KYBER_KEYGEN => opKyberKeyGen | KYBER_ENCAPS => opKyberEncaps
  | KYBER_DECAPS => opKyberDecaps i | KYBER_ZERO_KEY => opKyberZeroKey
  | CALL => opCall i execute
  | STATICCALL => opStaticCall i execute
  | DELEGATECALL => opDelegateCall i execute
  | CALLCODE => opCallCode i execute
  | CREATE => opCreate i run
  | CREATE2 => opCreate2 i run
  | AUTH => opAuth i
  | AUTHCALL => opAuthCall i execute
  | SELFDESTRUCT => opSelfDestruct
  | LOG0 => opLog0 | LOG1 => opLog1 | LOG2 => opLog2 | LOG3 => opLog3 | LOG4 => opLog4
  end.

(** [env.err = e; env.stopped = true] *)
Definition stopWith (e : error) : Op := modE (set_e_err (Some e));; modE (set_e_stopped true).

Definition abortCheckInterval : Z := 1024.

(** The operation counter and the number of polls after an instruction, and
    whether the poll found the channel closed. *)
Definition pollAbort (abort : option (nat -> bool)) (opCounter : Z) (polls : nat)
    : bool * Z * nat :=
  match abort with
  | None => (false, opCounter, polls)
  | Some closed =>
      let opCounter := opCounter + 1 in
      if abortCheckInterval <=? opCounter then (closed polls, 0, S polls)
      else (false, opCounter, polls)
  end.

(** The checks and the charge before an instruction, and the instruction;
    [true] when the loop goes on. *)
Definition stepOp (b : byte) : M (St DB) bool :=
  match decode b with
  | None => stopWith ErrInvalidOpcode;; mret false
  | Some op =>
      let info := opcodeInfoTable op in
      stackLen ← getE (fun e => Len (e_stack e));
      if stackLen <? StackPop info then stopWith ErrStackUnderflow;; mret false else
      let itemsRemoved := if isDupOrSwap op then 0 else StackPop info in
      if MaxStackSize <? stackLen - itemsRemoved + StackPush info
      then stopWith ErrStackOverflow;; mret false else
      err ← errOf (consume (GasCost info));
      match err with
      | Some e => stopWith e;; mret false
      | None =>
          modE (fun e => set_e_pc (u64 (e_pc e + 1)) e);;
          err ← errOf (executeOp op);
          match err with
          | Some e => stopWith e;; mret false
          | None => mret true
          end
      end
  end.

(** An iteration of the loop of [run]; [k] is the rest of the loop. *)
Definition iterate (opCounter : Z) (polls : nat) (k : Z -> nat -> Op) : Op :=
  e ← getE id;
  let code := ctx_Code (e_ctx e) in
  if negb (e_stopped e) && (e_pc e <? len code) then
    let '(aborted, opCounter, polls) := pollAbort (ctx_AbortCh (e_ctx e)) opCounter polls in
    if aborted : bool then stopWith (ErrErrorf "execution aborted") else
    continue ← stepOp (nth_byte code (e_pc e));
    if continue : bool then k opCounter polls else mret tt
  else mret tt.
End dispatch.

(** The clean-up of the tracked key regions that lie inside the memory. *)
Definition zeroRegions (e : Environment) : Environment :=
  let memSize := Size (e_memory e) in
  let memory := foldl (fun m '(offset, size) =>
      if size =? 0 then m else
      let end_ := u64 (offset + size) in
      if (end_ <? offset) || (memSize <? end_) then m
      else (ZeroRange offset size m).2) (e_memory e) (e_pqcKeyRegions e) in
  set_e_pqcKeyRegions [] (set_e_memory memory e).

(** [run] around its main loop: the clean-up, the result, and the recovery from
    a panic, which takes all the gas of the frame. *)
Definition runWith (main : Op) (e : Environment) : M (World DB) (ExecutionResult * Environment) :=
  fun w =>
  let '(r, s) := main (mkSt e w) in
  let e := zeroRegions (env s) in
  match r with
  | NoFuel => (NoFuel, world s)
  | Panic =>
      let e := set_e_err (Some ErrPanicRecovery) (set_e_reverted true e) in
      (Ok (mkResult [] (ctx_Gas (e_ctx e)) 0 (e_logs e) (Some ErrPanicRecovery) true, e), world s)
  | Ok _ | Err _ =>
      (Ok (mkResult (e_returnData e) (FinalUsed (e_gas e)) (RefundAmount (e_gas e)) (e_logs e)
             (e_err e) (e_reverted e), e), world s)
  end.

(** The maps a top-level frame creates. *)
Definition freshWorld (w : World DB) : World DB :=
  mkWorld (w_db w) (<[w_next w := ∅]> (w_transient w)) (S (w_next w)) ∅ ∅ ∅
    (w_jumpDestCache w) (w_jumpDestOrder w).

(** [Execute], given the run of a prepared environment. *)
Definition executeWith (run : Environment -> M (World DB) (ExecutionResult * Environment))
    (ctx : ExecutionContext) : M (World DB) ExecutionResult :=
  transient ←
    match ctx_ParentEnv ctx with
    | Some parent => mret (pe_transientStorage parent)
    | None => next ← gets w_next; modify freshWorld;; mret next
    end;
  let '(active, parents) :=
    match ctx_ParentEnv ctx with
    | Some parent => (pe_activeAddresses parent, pe_activeAddresses parent :: pe_parents parent)
    | None => (if bool_decide (ctx_Caller ctx = ctx_Address ctx) then [] else [ctx_Caller ctx], [])
    end in
  let e := newEnvironment i ctx ∅ (u64 (ctx_Depth ctx)) active parents (ctx_BlockHashes ctx) transient in
  let e := (PushActiveAddress (ctx_Address ctx) e).2 in
  dests ← analyzeJumpDests i (ctx_Code ctx);
  saved ← gets (fun w => transient_of w transient);
  r ← run (set_e_jumpDests dests e);
  let result := r.1 in
  (if bool_decide (is_Some (ctx_ParentEnv ctx)) && (isErr (ResErr result) || Reverted result)
   then modify (fun w => set_w_transient (<[transient := saved]> (w_transient w)) w)
   else mret tt);;
  mret result.

Fixpoint loop (fuel : nat) (opCounter : Z) (polls : nat) : Op :=
  match fuel with
  | O => fun s => (NoFuel, s)
  | S n =>
      let run := runWith (loop n 0 0) in
      iterate (executeWith run) run opCounter polls (loop n)
  end.

Definition run (fuel : nat) : Environment -> M (World DB) (ExecutionResult * Environment) :=
  runWith (loop fuel 0 0).

Definition Execute (fuel : nat) : ExecutionContext -> M (World DB) ExecutionResult :=
  executeWith (run fuel).

(** ** Gas estimation *)

Definition MaxEstimationGas : Z := 30000000.

(** [abort] is the abort channel as the run polls it; [timedOut] tells which
    branch of the [select] is taken. *)
Definition EstimateGas (fuel : nat) (abort : nat -> bool) (timedOut : bool)
    (ctx : ExecutionContext) : M (World DB) Z :=
  let gas := if MaxEstimationGas <? maxSafeGas then MaxEstimationGas else maxSafeGas in
  let estimateCtx := set_ctx_AbortCh (Some abort) (set_ctx_Gas gas ctx) in
  snapshot ← (fun w => let '(id, d) := Snapshot (w_db w) in (Ok id, set_w_db d w));
  result ← Execute fuel estimateCtx;
  modify (fun w => set_w_db (RevertToSnapshot snapshot (w_db w)) w);;
  if timedOut then throw (ErrErrorf "gas estimation timed out after 5 seconds") else
  match ResErr result with
  | Some e =>
      if negb (Reverted result) then throw e
      else let buffer := GasUsed result / 10 in
           if MaxUint64 - buffer <? GasUsed result then mret MaxUint64
           else mret (GasUsed result + buffer)
  | None =>
      let buffer := GasUsed result / 10 in
      if MaxUint64 - buffer <? GasUsed result then mret MaxUint64
      else mret (GasUsed result + buffer)
  end.
End interpreter.
