(* ===== verification/Executor.v ===== *)
(** * The executor (qvm/executor.go, GasEstimator of qvm/gas.go)

    [Executor] is what the node calls to run a transaction: it validates the
    code, moves the value, takes a snapshot around the interpreter and deploys
    contracts. The executor is the one [NewExecutor] builds, which has no JIT
    compiler. Contexts and blocks are not nil. *)

From Stdlib Require Import ZArith Lia.
From Stdlib.Strings Require Import Byte.
From stdpp Require Import base list countable gmap strings numbers.
From S2P Require Import Prelude Stack Memory Gas Opcodes StateDB Env OpsArith OpsState Bytecode Calls Interp.

Module Executor.

Record Executor (DB : Type) : Type := mkExecutor {
  interpreter : Interpreter DB;
  validator : BytecodeValidator;
  precompiled : Registry DB
}.
Arguments mkExecutor {DB}.
Arguments interpreter {DB}.
Arguments validator {DB}.
Arguments precompiled {DB}.

Record BlockContext : Type := mkBlockContext {
  bc_BlockNumber : Z;
  bc_Timestamp : Z;
  bc_Coinbase : Address;
  bc_GasLimit : Z;
  bc_GasPrice : option Z;
  bc_BaseFee : option Z;
  bc_BlobBaseFee : option Z;
  bc_PrevRandao : Hash;
  bc_ChainID : Z;
  bc_BlockHashes : gmap Z Hash
}.

Definition baseFeeToUint64 (bf : option Z) : Z :=
  match bf with
  | None => 0
  | Some z => if (0 <=? z) && (z <=? MaxUint64) then z else MaxUint64
  end.

(** The context of a top-level frame. *)
Definition blockCtx (b : BlockContext) (caller addr : Address) (value : option Z) (code input : list byte)
    (original : option (list byte)) (gas depth : Z) (readOnly skip : bool) : ExecutionContext :=
  {| ctx_Origin := caller; ctx_GasPrice := bc_GasPrice b; ctx_Caller := caller; ctx_Address := addr;
     ctx_Value := value; ctx_BlockNumber := bc_BlockNumber b; ctx_Timestamp := bc_Timestamp b;
     ctx_Coinbase := bc_Coinbase b; ctx_GasLimit := bc_GasLimit b; ctx_ChainID := bc_ChainID b;
     ctx_BlockHashes := bc_BlockHashes b; ctx_PrevRandao := bc_PrevRandao b; ctx_BlobHashes := [];
     ctx_BlobBaseFee := baseFeeToUint64 (bc_BlobBaseFee b); ctx_BaseFee := baseFeeToUint64 (bc_BaseFee b);
     ctx_Code := code; ctx_Input := input; ctx_OriginalCode := original;
     ctx_EVMCompatible := isEVMTranslatedCode code; ctx_Gas := gas; ctx_Depth := depth;
     ctx_ReadOnly := readOnly; ctx_SkipValidation := skip; ctx_ParentEnv := None; ctx_AbortCh := None |}.

(** [&ExecutionResult{Err: err, GasUsed: gas}] *)
Definition fail (err : error) (gas : Z) : ExecutionResult := mkResult [] gas 0 [] (Some err) false.

(** The reserve of EIP-150 for a nested caller. *)
Definition nestedGas (depth gas : Z) : Z :=
  if (0 <? depth) && (0 <? gas) then
    let maxGas := gas - gas / 64 in
    if maxGas <? gas then maxGas else gas
  else gas.

(** [value != nil && value.Sign() > 0] *)
Definition positive (value : option Z) : bool := match value with Some v => 0 <? v | None => false end.
Definition amount (value : option Z) : Z := default 0 value.

Section executor.
Context {DB : Type} `{!StateDB DB} (e : Executor DB) (fuel : nat).

(** Calls of the state database. *)
Definition db {A} (f : DB -> A * DB) : M (World DB) A :=
  fun w => let '(a, d) := f (w_db w) in (Ok a, set_w_db d w).
Definition dbGet {A} (f : DB -> A) : M (World DB) A := gets (fun w => f (w_db w)).
Definition dbSet (f : DB -> DB) : M (World DB) unit := modify (fun w => set_w_db (f (w_db w)) w).

Definition Execute (ctx : ExecutionContext) : M (World DB) ExecutionResult :=
  match (if ctx_SkipValidation ctx then None else QuickValidate (validator e) (ctx_Code ctx)) with
  | Some err => mret (fail err (ctx_Gas ctx))
  | None =>
      if MaxCallDepth <=? ctx_Depth ctx then mret (fail ErrDepthExceeded (ctx_Gas ctx))
      else Interp.Execute (interpreter e) fuel ctx
  end.

(** The end of a frame that has the snapshot [id] and at most [gas]. *)
Definition settle (id gas : Z) (result : ExecutionResult) : M (World DB) ExecutionResult :=
  if isErr (ResErr result) then
    dbSet (RevertToSnapshot id);;
    mret (if negb (Reverted result)
          then mkResult (ReturnData result) gas (GasRefund result) (Logs result) (ResErr result) (Reverted result)
          else result)
  else dbSet (releaseFrame id);; mret result.

Definition ExecuteWithRollback (ctx : ExecutionContext) : M (World DB) ExecutionResult :=
  snapshot ← db Snapshot;
  if snapshot <? 0 then mret (fail ErrDepthExceeded (ctx_Gas ctx)) else
  result ← Execute ctx;
  settle snapshot (ctx_Gas ctx) result.

(** [executePrecompiledAtomicV2] *)
Definition executePrecompiledAtomicV2 (addr caller origin : Address) (value : option Z)
    (blockTime chainID : Z) (isStatic : bool) (input : list byte) (callGas : Z) :
    M (World DB) (list byte * Z * option error) :=
  let bt := if 0 <? blockTime then blockTime else 0 in
  zoom w_db set_w_db
    (RunWithContextV2 (precompiled e) (mkPrecompileContext caller origin bt chainID value isStatic) addr input callGas).

(** [CallWithRollback] does not look at its flag. *)
Definition CallWithRollback (caller callee : Address) (input : list byte) (gas : Z) (value : option Z)
    (b : BlockContext) (rollbackOnGasExhaustion : bool) (depth : Z) : M (World DB) ExecutionResult :=
  if bool_decide (callee = zero_address) then mret (fail ErrZeroAddress 0) else
  let gas := nestedGas depth gas in
  snapshot ← db Snapshot;
  if snapshot <? 0 then mret (fail ErrDepthExceeded gas) else
  code ← dbGet (GetCode callee);
  if len code =? 0 then
    if IsPrecompiled (precompiled e) callee then
      r ← executePrecompiledAtomicV2 callee caller caller value (bc_Timestamp b) (bc_ChainID b) false input gas;
      let '(output, gasUsed, err) := r in
      match err with
      | Some err => dbSet (RevertToSnapshot snapshot);; mret (fail err gasUsed)
      | None => dbSet (releaseFrame snapshot);; mret (mkResult output gasUsed 0 [] None false)
      end
    else if positive value then
      callerBalance ← db (GetBalance caller);
      if callerBalance <? amount value then
        dbSet (releaseFrame snapshot);; mret (fail ErrInsufficientBalance gas)
      else
        dbSet (SetBalance caller (callerBalance - amount value));;
        calleeBalance ← db (GetBalance callee);
        dbSet (SetBalance callee (calleeBalance + amount value));;
        dbSet (releaseFrame snapshot);;
        mret (mkResult [] (if GasVeryLow <=? gas then GasVeryLow else gas) 0 [] None false)
    else dbSet (releaseFrame snapshot);; mret (mkResult [] 0 0 [] None false)
  else
    let ctx := blockCtx b caller callee value code input None gas depth false false in
    if positive value then
      callerBalance ← db (GetBalance caller);
      if callerBalance <? amount value then mret (fail ErrInsufficientBalance gas)
      else
        dbSet (SetBalance caller (callerBalance - amount value));;
        calleeBalance ← db (GetBalance callee);
        dbSet (SetBalance callee (calleeBalance + amount value));;
        result ← Execute ctx;
        settle snapshot gas result
    else
      result ← Execute ctx;
      settle snapshot gas result.

Definition Call (caller callee : Address) (input : list byte) (gas : Z) (value : option Z)
    (b : BlockContext) (depth : Z) : M (World DB) ExecutionResult :=
  CallWithRollback caller callee input gas value b true depth.

Definition StaticCall (caller callee : Address) (input : list byte) (gas : Z) (b : BlockContext) (depth : Z) :
    M (World DB) ExecutionResult :=
  match precompiled e !! callee with
  | Some c =>
      if IsStateful c then mret (fail ErrWriteProtection 0) else
      r ← executePrecompiledAtomicV2 callee caller caller None (bc_Timestamp b) (bc_ChainID b) true input gas;
      let '(output, gasUsed, err) := r in
      match err with
      | Some err => mret (fail err gasUsed)
      | None => mret (mkResult output gasUsed 0 [] None false)
      end
  | None =>
      code ← dbGet (GetCode callee);
      if len code =? 0 then mret (mkResult [] 0 0 [] None false)
      else Execute (blockCtx b caller callee (Some 0) code input None gas depth true false)
  end.

(** *** Deployment *)

(** After the init code returned [result]; [gas] is what it was given. *)
Definition deploy (contractAddr : Address) (snapshot gas : Z) (result : ExecutionResult) :
    M (World DB) (ExecutionResult * Address) :=
  let reject err used := dbSet (RevertToSnapshot snapshot);; mret (fail err used, zero_address) in
  if isErr (ResErr result) then dbSet (RevertToSnapshot snapshot);; mret (result, zero_address) else
  let deployedCode := ReturnData result in
  match (if (0 <? len deployedCode) && IsEVMBytecode deployedCode
         then TranslateEVMBytecode deployedCode else inr deployedCode) with
  | inl _ => reject (ErrErrorf "evm runtime translation failed (deployment rejected, fail-closed)") (GasUsed result)
  | inr deployedCode =>
      if MaxCodeSize <? len deployedCode then reject ErrMaxCodeSizeExceeded (GasUsed result) else
      if negb (vr_Valid (ValidateDeployedCode (validator e) deployedCode))
      then reject ErrInvalidBytecode (GasUsed result) else
      match
        (if 0 <? len deployedCode then
           match SafeMulGas (len deployedCode) GasCodeDeposit with
           | inl err => inl err
           | inr codeStorageCost => SafeAddGas (GasUsed result) codeStorageCost
           end
         else inr (GasUsed result))
      with
      | inl _ => reject ErrOutOfGas gas
      | inr used =>
          if (0 <? len deployedCode) && (gas <? used) then reject ErrOutOfGas gas else
          dbSet (SetCode contractAddr deployedCode);;
          dbSet (releaseFrame snapshot);;
          mret (mkResult (ReturnData result) used (GasRefund result) (Logs result) (ResErr result) (Reverted result),
                contractAddr)
      end
  end.

(** The execution of the init code. *)
Definition runInit (caller contractAddr : Address) (initCode : list byte) (gas : Z) (value : option Z)
    (b : BlockContext) (depth snapshot : Z) : M (World DB) (ExecutionResult * Address) :=
  match (if (0 <? len initCode) && IsEVMBytecode initCode then TranslateEVMBytecode initCode else inr initCode) with
  | inl _ =>
      dbSet (RevertToSnapshot snapshot);;
      mret (fail (ErrErrorf "evm translation failed") gas, zero_address)
  | inr code =>
      result ← Execute (blockCtx b caller contractAddr value code initCode (Some initCode) gas depth false true);
      deploy contractAddr snapshot gas result
  end.

(** The frame of the init code: the nonce, the endowment and the execution. *)
Definition construct (caller contractAddr : Address) (initCode : list byte) (gas : Z) (value : option Z)
    (b : BlockContext) (depth : Z) : M (World DB) (ExecutionResult * Address) :=
  snapshot ← db Snapshot;
  if snapshot <? 0 then mret (fail ErrDepthExceeded gas, zero_address) else
  dbSet (SetNonce contractAddr 1);;
  if positive value then
    callerBalance ← db (GetBalance caller);
    if callerBalance <? amount value then
      dbSet (RevertToSnapshot snapshot);; mret (fail ErrInsufficientBalance gas, zero_address)
    else
      dbSet (SetBalance caller (callerBalance - amount value));;
      dbSet (SetBalance contractAddr (amount value));;
      runInit caller contractAddr initCode gas value b depth snapshot
  else runInit caller contractAddr initCode gas value b depth snapshot.

(** [stateDB.Exist(a) || stateDB.GetCodeSize(a) > 0 || stateDB.GetNonce(a) > 0] *)
Definition taken (a : Address) : M (World DB) bool :=
  exist ← dbGet (Exist a);
  if exist : bool then mret true else
  size ← dbGet (GetCodeSize a);
  if 0 <? size then mret true else
  nonce ← db (GetNonce a); mret (0 <? nonce).

(** The checks of [Create] and [Create2] before the address is known, and the gas
    that is left for the init code; [overflow] is the text of the overflow error. *)
Definition createGas (overflow : string) (initCode : list byte) (gas depth : Z) : ExecutionResult + Z :=
  if MaxInitCodeSize <? len initCode then inl (fail ErrInitCodeSizeExceeded gas) else
  match SafeMulGas ((len initCode + 31) / 32) GasCreateData with
  | inl _ => inl (fail (ErrErrorf overflow) gas)
  | inr createDataCost =>
      if gas <? createDataCost then inl (fail ErrOutOfGas gas)
      else inr (nestedGas depth (gas - createDataCost))
  end.

Definition Create (caller : Address) (initCode : list byte) (gas : Z) (value : option Z) (b : BlockContext)
    (depth : Z) : M (World DB) (ExecutionResult * Address) :=
  match createGas "create gas overflow: EIP-3860 CreateDataGas" initCode gas depth with
  | inl r => mret (r, zero_address)
  | inr gas =>
      currentNonce ← db (GetNonce caller);
      if currentNonce =? 0 then mret (fail ErrInvalidNonce gas, zero_address) else
      let contractAddr := CreateAddress (i_crypto (interpreter e)) caller (currentNonce - 1) in
      collision ← taken contractAddr;
      if collision : bool then mret (fail ErrContractAddressCollision gas, zero_address) else
      construct caller contractAddr initCode gas value b depth
  end.

Definition Create2 (caller : Address) (initCode : list byte) (salt : Hash) (gas : Z) (value : option Z)
    (b : BlockContext) (depth : Z) : M (World DB) (ExecutionResult * Address) :=
  match createGas "create2 gas overflow: EIP-3860 CreateDataGas" initCode gas depth with
  | inl r => mret (r, zero_address)
  | inr gas =>
      let contractAddr := Create2Address (i_crypto (interpreter e)) caller salt initCode in
      collision ← taken contractAddr;
      if collision : bool then mret (fail ErrContractAddressCollision gas, zero_address) else
      construct caller contractAddr initCode gas value b depth
  end.

(** ** Gas estimation *)

(** An execution with [gas] that is undone. *)
Definition probe (ctx : ExecutionContext) (gas : Z) : M (World DB) ExecutionResult :=
  snapshot ← db Snapshot;
  result ← Execute (set_ctx_Gas gas ctx);
  dbSet (RevertToSnapshot snapshot);;
  mret result.

(** The binary search, with at most [n] more steps. *)
Fixpoint search (n : nat) (ctx : ExecutionContext) (lo hi : Z) : M (World DB) (error + Z) :=
  if u64 (lo + 1) <? hi then
    match n with
    | O => fun w => (NoFuel, w)
    | S n =>
        let mid := lo + (hi - lo) / 2 in
        result ← probe ctx mid;
        match ResErr result with
        | None | Some ErrExecutionReverted => search n ctx lo mid
        | Some ErrOutOfGas => search n ctx mid hi
        | Some err => mret (inl err)
        end
    end
  else mret (inr hi).

(** [GasEstimator.EstimateGas]; [inputNil] tells whether the input is nil. *)
Definition EstimateGasWithRange (steps : nat) (ctx : ExecutionContext) (inputNil : bool) (lo hi : Z) :
    M (World DB) (Z * option error) :=
  let isCreate := (0 <? len (ctx_Code ctx)) && inputNil in
  let intrinsicGas := EstimateIntrinsicGas (ctx_Input ctx) isCreate None in
  let lo := if lo <? intrinsicGas then intrinsicGas else lo in
  let hi := if hi =? 0 then ctx_GasLimit ctx else hi in
  let hi := if hi <? lo then lo else hi in
  result ← probe ctx hi;
  match ResErr result with
  | None | Some ErrExecutionReverted =>
      if Reverted result then mret (GasUsed result, Some ErrExecutionReverted) else
      r ← search steps ctx lo hi;
      match r with
      | inl err => mret (0, Some err)
      | inr hi =>
          let estimated := u64 (hi + hi / 10) in
          mret (if (estimated <? hi) || (ctx_GasLimit ctx <? estimated) then ctx_GasLimit ctx else estimated, None)
      end
  | Some err => mret (0, Some err)
  end.

Definition EstimateGas (steps : nat) (ctx : ExecutionContext) (inputNil : bool) : M (World DB) (Z * option error) :=
  EstimateGasWithRange steps ctx inputNil 0 (ctx_GasLimit ctx).

Definition EstimateCallGas (steps : nat) (caller callee : Address) (input : list byte) (inputNil : bool)
    (value : option Z) (b : BlockContext) (depth : Z) : M (World DB) (Z * option error) :=
  code ← dbGet (GetCode callee);
  if len code =? 0 then
    match precompiled e !! callee with
    | Some c => mret (RequiredGas c input, None)
    | None => mret (GasTxCall, None)
    end
  else EstimateGas steps (blockCtx b caller callee value code input None (bc_GasLimit b) 0 false false) inputNil.
End executor.
End Executor.
