(* ===== verification/Frame.v ===== *)
(** * The frame invariant and the logic of single instructions

    [Inv] is the well-formedness of a frame and its world. [prim] relates the
    states before and after code that calls no other frame: the context, the
    call depth, the active addresses and the reentry counters are unchanged,
    gas is only spent, the snapshot journal is unchanged, no value is minted,
    and a read-only frame leaves the state as it was. [simple] is the triple
    that establishes both, together with a bound on the growth of the stack,
    a property of the value returned, and the absence of run-time panics. The
    section proves [simple] of every instruction that makes no call. *)

From Stdlib Require Import ZArith Lia.
From Stdlib.Strings Require Import Byte.
From stdpp Require Import base list countable gmap strings numbers.
From S2P Require Import Prelude Stack Memory Gas Opcodes StateDB Env OpsArith OpsState Bytecode Calls Interp.

Section frame.
Context {DB : Type} `{!StateDB DB} `{!StateDBLaws DB}.
Implicit Types s : St DB.

(** No account has a negative balance or a code too long for a slice, now or
    in a snapshot. *)
Definition account_ok (x : Account) : Prop := 0 <= acc_balance x /\ len (acc_code x) < 2 ^ 63.

Definition view_ok (v : View) : Prop := forall a, account_ok (account v a).

Definition db_ok (d : DB) : Prop := view_ok (view d) /\ Forall view_ok (journal d).

#[global] Instance view_ok_proper : Proper (view_eq ==> iff) view_ok.
Proof.
  intros v w H. unfold view_ok, account_ok. split; intros N a; specialize (N a);
    destruct (H a) as (E & _ & C & _); [rewrite <- E, <- C|rewrite E, C]; done.
Qed.

Record Inv (s : St DB) : Prop := mkInv {
  inv_stack : stack_ok (e_stack (env s));
  inv_mem : mem_ok (e_memory (env s));
  inv_gas : meter_ok (e_gas (env s));
  inv_limit : gm_limit (e_gas (env s)) = ctx_Gas (e_ctx (env s));
  inv_table : e_gasTable (env s) = DefaultGasTable;
  inv_pc : 0 <= e_pc (env s);
  inv_depth : 0 <= e_callDepth (env s) <= MaxCallDepth;
  inv_counts : counts_ok (w_reentryCounts (world s));
  inv_db : db_ok (w_db (world s));
  inv_code : len (ctx_Code (e_ctx (env s))) < 2 ^ 63
}.

(** What code may do to the state database; [st] is true of code that leaves
    it as it was. *)
Definition dbR (st : bool) (d d' : DB) : Prop :=
  journal d' = journal d /\ supply (view d') <= supply (view d) /\
  (st = true -> view d' ≈ view d).

Record prim (st : bool) (s s' : St DB) : Prop := mkPrim {
  pr_ctx : e_ctx (env s') = e_ctx (env s);
  pr_dests : e_jumpDests (env s') = e_jumpDests (env s);
  pr_parents : e_parents (env s') = e_parents (env s);
  pr_depth : e_callDepth (env s') = e_callDepth (env s);
  pr_active : e_activeAddresses (env s') = e_activeAddresses (env s);
  pr_used : gm_used (e_gas (env s)) <= gm_used (e_gas (env s'));
  pr_counts : w_reentryCounts (world s') = w_reentryCounts (world s);
  pr_db : dbR st (w_db (world s)) (w_db (world s'))
}.

#[global] Instance dbR_preorder st : PreOrder (dbR st).
Proof.
  split.
  - intros d. split; [done|]. split; [lia|]. done.
  - intros a b c (J1 & S1 & V1) (J2 & S2 & V2). split; [congruence|]. split; [lia|].
    intros E. etransitivity; eauto.
Qed.

(** A database with the same view and journal. *)
Lemma dbR_same st (d d' : DB) : journal d' = journal d -> view d' ≈ view d -> dbR st d d'.
Proof. intros J V. split; [done|]. split; [by rewrite V|done]. Qed.

Lemma db_ok_same (d d' : DB) : journal d' = journal d -> view d' ≈ view d -> db_ok d -> db_ok d'.
Proof. intros J V [H1 H2]. split; [by rewrite V|by rewrite J]. Qed.

#[global] Instance prim_preorder st : PreOrder (prim st).
Proof.
  split.
  - intros s. by split.
  - intros a b c H K. destruct H, K. split; etransitivity; eassumption.
Qed.

(** Code that leaves the state as it was may be used anywhere. *)
Lemma prim_still st s s' : prim true s s' -> prim st s s'.
Proof.
  intros H. destruct H as [? ? ? ? ? ? ? (J & S & V)]. split; try done.
  split; [done|]. split; [done|]. auto.
Qed.

Definition stack_len (s : St DB) : Z := Len (e_stack (env s)).

Definition simple {A} (st : bool) (m : M (St DB) A) (V : A -> Prop) (k : Z) : Prop :=
  forall s, Inv s ->
  prim st s (m s).2 /\ Inv (m s).2 /\
  match (m s).1 with
  | Ok a => V a /\ stack_len (m s).2 <= stack_len s + k
  | Err _ => True
  | Panic | NoFuel => False
  end.

(** ** Rules *)

Lemma simple_bind {A B} st (m : M (St DB) A) (f : A -> M (St DB) B) V W k k1 :
  simple st m V k1 -> (forall a, V a -> simple st (f a) W (k - k1)) -> simple st (m ≫= f) W k.
Proof.
  intros Hm Hf s HI. destruct (Hm s HI) as (HP & HI' & HR).
  unfold mbind, M_bind. destruct (m s) as [[a|e| |] s']; simpl in *; try done.
  destruct HR as [HV HL]. destruct (Hf a HV s' HI') as (HP2 & HI2 & HR2).
  split; [by etransitivity|]. split; [done|].
  destruct (f a s').1; try done. destruct HR2. split; [done|lia].
Qed.

Lemma simple_weaken {A} st (m : M (St DB) A) (V W : A -> Prop) k k' :
  simple st m V k -> (forall a, V a -> W a) -> k <= k' -> simple st m W k'.
Proof.
  intros Hm HV Hk s HI. destruct (Hm s HI) as (HP & HI' & HR).
  split; [done|]. split; [done|]. destruct (m s).1; try done. destruct HR. split; [auto|lia].
Qed.

Lemma simple_ret {A} st (a : A) (V : A -> Prop) k : V a -> 0 <= k -> simple st (mret a) V k.
Proof. intros HV Hk s HI. split; [reflexivity|]. split; [done|]. simpl. split; [done|lia]. Qed.

Lemma simple_throw {A} st e (V : A -> Prop) k : simple st (throw e) V k.
Proof. intros s HI. split; [reflexivity|]. by split. Qed.

Lemma simple_guard st b e k : 0 <= k -> simple st (guard_err b e) (fun _ => b = false) k.
Proof. destruct b; intros; [apply simple_throw | by apply simple_ret]. Qed.

Lemma simple_gets {A} st (f : St DB -> A) (V : A -> Prop) k :
  (forall s, Inv s -> V (f s)) -> 0 <= k ->
  simple st (gets f) V k.
Proof. intros HV Hk s HI. split; [reflexivity|]. split; [done|]. simpl. split; [auto|lia]. Qed.

Lemma simple_attempt {A} st (m : M (St DB) A) V k :
  simple st m V k -> 0 <= k ->
  (forall s, Inv s -> match (m s).1 with Err _ => stack_len (m s).2 <= stack_len s + k | _ => True end) ->
  simple st (attempt m) (fun r => match r with inr a => V a | inl _ => True end) k.
Proof.
  intros Hm Hk He s HI. destruct (Hm s HI) as (HP & HI' & HR). specialize (He s HI).
  unfold attempt. destruct (m s) as [[a|e| |] s']; simpl in *; naive_solver.
Qed.

(** ** Primitives *)

(** A change of the frame that keeps what [prim] and [Inv] look at. *)
Lemma simple_modE st f k :
  (forall e, e_stack (f e) = e_stack e /\ e_memory (f e) = e_memory e /\ e_gas (f e) = e_gas e /\
             e_ctx (f e) = e_ctx e /\ e_gasTable (f e) = e_gasTable e /\
             e_jumpDests (f e) = e_jumpDests e /\ e_parents (f e) = e_parents e /\
             e_callDepth (f e) = e_callDepth e /\ e_activeAddresses (f e) = e_activeAddresses e /\
             (0 <= e_pc e -> 0 <= e_pc (f e))) ->
  0 <= k -> simple st (modE (DB:=DB) f) (fun _ => True) k.
Proof.
  intros Hf Hk s HI. destruct (Hf (env s)) as (E1 & E2 & E3 & E4 & E5 & E6 & E7 & E8 & E9 & E10).
  simpl. split; [split; simpl; try congruence; try (rewrite E3; lia); reflexivity|].
  destruct HI. split; [split; simpl; rewrite ?E1, ?E2, ?E3, ?E4, ?E5, ?E8; auto|].
  split; [done|]. unfold stack_len. simpl. rewrite E1. lia.
Qed.

(** A change of the world that keeps the database and the counters. *)
Lemma simple_modW st f k :
  (forall w, w_db (f w) = w_db w /\ w_reentryCounts (f w) = w_reentryCounts w) ->
  0 <= k -> simple st (modW f) (fun _ => True) k.
Proof.
  intros Hf Hk s HI. destruct (Hf (world s)) as [E1 E2].
  split; [split; simpl; try congruence; try lia; rewrite E1; reflexivity|].
  destruct HI. split; [split; simpl; try done; by rewrite ?E1, ?E2|].
  split; [done|]. unfold stack_len. simpl. lia.
Qed.

Lemma simple_modDB st f k :
  (forall d, db_ok d -> dbR st d (f d) /\ db_ok (f d)) -> 0 <= k -> simple st (modDB f) (fun _ => True) k.
Proof.
  intros Hf Hk s HI. destruct (Hf _ (inv_db s HI)) as [HR HO].
  split; [by split|]. destruct HI. split; [by split|]. split; [done|]. unfold stack_len. simpl. lia.
Qed.

Lemma simple_callDB {A} st (f : DB -> A * DB) (V : A -> Prop) k :
  (forall d, db_ok d -> dbR st d (f d).2 /\ db_ok (f d).2) -> (forall d, V (f d).1) -> 0 <= k -> simple st (callDB f) V k.
Proof.
  intros Hf HV Hk s HI. unfold callDB. destruct (Hf _ (inv_db s HI)) as [HR HO].
  specialize (HV (w_db (world s))). destruct (f (w_db (world s))) as [a d]. simpl in *.
  split; [by split|].
  destruct HI. split; [by split|]. split; [done|]. unfold stack_len. simpl. lia.
Qed.

(** A method of the stack. *)
Lemma simple_onStack {A} st (m : M Stack A) V k :
  (forall k0, stack_ok k0 -> stack_ok (m k0).2 /\
     match (m k0).1 with
     | Ok a => V a /\ Len (m k0).2 <= Len k0 + k
     | Err _ => True
     | _ => False
     end) ->
  simple st (onStack m) V k.
Proof.
  intros Hm s HI. destruct (Hm _ (inv_stack s HI)) as [H1 H2].
  unfold onStack, zoom. destruct (m (e_stack (env s))) as [r k'] eqn:E. simpl in *.
  split; [split; try done; reflexivity|]. destruct HI. split; [by split|]. done.
Qed.

(** A method of the memory. *)
Lemma simple_onMemory {A} st (m : M Memory A) (V : A -> Prop) k :
  0 <= k ->
  (forall m0, mem_ok m0 -> mem_ok (m m0).2 /\
     match (m m0).1 with Ok a => V a | Err _ => True | _ => False end) ->
  simple st (onMemory m) V k.
Proof.
  intros Hk Hm s HI. destruct (Hm _ (inv_mem s HI)) as [H1 H2].
  unfold onMemory, zoom. destruct (m (e_memory (env s))) as [r k'] eqn:E. simpl in *.
  split; [split; try done; reflexivity|]. destruct HI. split; [by split|].
  destruct r; try done. split; [done|]. unfold stack_len. simpl. lia.
Qed.

(** A method of the gas meter that spends gas. *)
Lemma simple_onGas {A} st (m : M GasMeter A) (V : A -> Prop) k :
  0 <= k -> sat meter_step m ->
  (forall g, meter_ok g -> gm_used g <= gm_used (m g).2 /\
     match (m g).1 with Ok a => V a | Err _ => True | _ => False end) ->
  simple st (onGas m) V k.
Proof.
  intros Hk Hs Hm s HI. destruct (Hm _ (inv_gas s HI)) as [H1 H2].
  specialize (Hs (e_gas (env s))). destruct Hs as [HL HK].
  unfold onGas, zoom. destruct (m (e_gas (env s))) as [r g'] eqn:E. simpl in *.
  split; [split; try done; reflexivity|]. destruct HI.
  split; [split; simpl; try done; [auto|congruence]|].
  destruct r; try done. split; [done|]. unfold stack_len. simpl. lia.
Qed.

Lemma Pop_simple k0 :
  stack_ok k0 -> stack_ok (Pop k0).2 /\
  match (Pop k0).1 with Ok _ => Len (Pop k0).2 <= Len k0 - 1 | Err _ => True | _ => False end.
Proof.
  intros H. split; [by apply Pop_ok|]. destruct (of_top_surj k0) as [[|w l] ->].
  { by rewrite Pop_of_top_nil. }
  rewrite Pop_of_top. simpl. rewrite !Len_of_top. unfold len. simpl. lia.
Qed.

Lemma simple_pop st : simple st (pop (DB:=DB)) (fun _ => True) (-1).
Proof.
  apply simple_onStack. intros k0 H. destruct (Pop_simple k0 H) as [H1 H2]. split; [done|].
  destruct (Pop k0).1; done.
Qed.

Lemma simple_popU st : simple st (popU (DB:=DB)) is_u64 (-1).
Proof.
  apply simple_onStack. intros k0 H. destruct (Pop_simple k0 H) as [H1 H2].
  unfold PopUint64, mbind, M_bind. destruct (Pop k0) as [[w|e| |] k1]; simpl in *; try done.
  split; [done|]. split; [apply ToUint64_range|done].
Qed.

Lemma simple_popB st : simple st (popB (DB:=DB)) (fun v => 0 <= v < W256) (-1).
Proof.
  apply simple_onStack. intros k0 H. destruct (Pop_simple k0 H) as [H1 H2].
  unfold PopBigInt, mbind, M_bind. destruct (Pop k0) as [[w|e| |] k1]; simpl in *; try done.
  split; [done|]. split; [apply wz_range|done].
Qed.

Lemma simple_push st w : simple st (push (DB:=DB) w) (fun _ => True) 1.
Proof.
  apply simple_onStack. intros k0 H. split; [by apply Push_ok|].
  destruct (of_top_surj k0) as [l ->]. rewrite Push_of_top.
  destruct (MaxStackSize <=? len l); [done|]. simpl. split; [done|]. rewrite !Len_of_top. unfold len. simpl. lia.
Qed.

Lemma simple_pushU st v : simple st (pushU (DB:=DB) v) (fun _ => True) 1.
Proof. apply simple_push. Qed.

Lemma simple_pushB st v : simple st (pushB (DB:=DB) v) (fun _ => True) 1.
Proof. apply simple_push. Qed.

Lemma simple_PushBigInt st v : simple st (onStack (DB:=DB) (PushBigInt v)) (fun _ => True) 1.
Proof. apply simple_push. Qed.

Lemma simple_Dup st n : simple st (onStack (DB:=DB) (Dup n)) (fun _ => True) 1.
Proof.
  apply simple_onStack. intros k0 H. split; [by apply Dup_ok|].
  unfold Dup. destruct (_ || _) eqn:E; [done|]. apply orb_false_iff in E as [E1 E2].
  apply Z.ltb_ge in E1, E2. unfold len in *.
  destruct (lookup_lt_is_Some_2 (stk_data k0) (Z.to_nat (Z.of_nat (length (stk_data k0)) - n)))
    as [w ->]; [lia|].
  destruct (of_top_surj k0) as [l ->]. rewrite Push_of_top.
  destruct (MaxStackSize <=? len l); [done|]. simpl. split; [done|]. rewrite !Len_of_top. unfold len. simpl. lia.
Qed.

Lemma simple_Swap st n : simple st (onStack (DB:=DB) (Swap n)) (fun _ => True) 0.
Proof.
  apply simple_onStack. intros k0 H. split; [by apply Swap_ok|].
  unfold Swap. destruct (_ || _) eqn:E; [done|]. apply orb_false_iff in E as [E1 E2].
  apply Z.ltb_ge in E1. apply Z.leb_gt in E2. unfold len in *.
  destruct (lookup_lt_is_Some_2 (stk_data k0) (Z.to_nat (Z.of_nat (length (stk_data k0)) - 1)))
    as [w ->]; [lia|].
  destruct (lookup_lt_is_Some_2 (stk_data k0) (Z.to_nat (Z.of_nat (length (stk_data k0)) - 1 - n)))
    as [w' ->]; [lia|].
  simpl. split; [done|]. unfold Len, len. simpl. rewrite !length_insert. lia.
Qed.

Lemma simple_consume st a : is_u64 a -> simple st (consume (DB:=DB) a) (fun _ => True) 0.
Proof.
  intros Ha. apply simple_onGas; [lia|apply meter_step_Consume|]. intros g Hg.
  rewrite Consume_eq by done. destruct Hg as (? & ? & _). unfold is_u64 in *.
  repeat case_match; simpl; split; try done; lia.
Qed.

Lemma simple_Refund st a : simple st (onGas (DB:=DB) (Refund a)) (fun _ => True) 0.
Proof.
  apply simple_onGas; [lia|apply meter_step_Refund|]. intros g Hg. simpl.
  split; [|done]. unfold add_refund. case_match; simpl; lia.
Qed.

Lemma simple_memSize st : simple st (memSize (DB:=DB)) (fun v => 0 <= v <= MaxMemorySize) 0.
Proof.
  apply simple_gets; [|lia]. intros s HI. split; [apply Size_nonneg|].
  apply (inv_mem s HI).
Qed.

Lemma simple_remaining st : simple st (remaining (DB:=DB)) is_u64 0.
Proof.
  apply simple_gets; [|lia]. intros s HI. pose proof (inv_gas s HI) as Hg.
  rewrite Remaining_eq by done. destruct Hg as (? & ? & _). unfold is_u64 in *. lia.
Qed.

Lemma simple_getTable st : simple st (getE (DB:=DB) e_gasTable) (fun t => t = DefaultGasTable) 0.
Proof. apply simple_gets; [|lia]. intros s HI. apply (inv_table s HI). Qed.

Lemma simple_getPc st : simple st (getE (DB:=DB) e_pc) (fun v => 0 <= v) 0.
Proof. apply simple_gets; [|lia]. intros s HI. apply (inv_pc s HI). Qed.

Lemma simple_getCtx {A} st (f : ExecutionContext -> A) :
  simple st (getCtx (DB:=DB) f) (fun _ => True) 0.
Proof. by apply simple_gets. Qed.

Lemma simple_getE {A} st (f : Environment -> A) : simple st (getE (DB:=DB) f) (fun _ => True) 0.
Proof. by apply simple_gets. Qed.

Lemma simple_getW {A} st (f : World DB -> A) : simple st (getW f) (fun _ => True) 0.
Proof. by apply simple_gets. Qed.

Lemma simple_getDB {A} st (f : DB -> A) : simple st (getDB f) (fun _ => True) 0.
Proof. by apply simple_gets. Qed.

Lemma simple_Get st o n :
  0 <= o -> 0 <= n -> simple st (onMemory (DB:=DB) (Get o n)) (fun l => len l = n) 0.
Proof.
  intros Ho Hn. apply simple_onMemory; [lia|]. intros m0 Hm. rewrite Get_eq by done.
  destruct (in_range o n) eqn:E; simpl; [|done].
  split; [by apply mem_ok_grow|]. by apply len_read.
Qed.

Lemma simple_Set st o l : 0 <= o -> simple st (onMemory (DB:=DB) (Set_ o l)) (fun _ => True) 0.
Proof.
  intros Ho. apply simple_onMemory; [lia|]. intros m0 Hm. rewrite Set_eq by done.
  destruct (in_range o (len l)) eqn:E; simpl; [|done]. split; [|done].
  pose proof (len_nonneg l) as Hl. destruct (Z.eq_dec (len l) 0) as [Z0|N].
  - rewrite Z0, grow_zero. unfold overwrite.
    destruct l; [|unfold len in Z0; simpl in Z0; lia]. rewrite copy_at_nil. by destruct m0.
  - destruct (in_range_grow m0 o (len l) E Ho Hl N) as (H1 & H2 & _).
    apply mem_ok_overwrite; [lia|]. by apply mem_ok_grow.
Qed.

Lemma simple_Set32 st o w : 0 <= o -> simple st (onMemory (DB:=DB) (Set32 o w)) (fun _ => True) 0.
Proof. apply simple_Set. Qed.
End frame.
