(* ===== verification/FrameOps.v ===== *)
(** * Every instruction that makes no call keeps the frame invariant

    The instructions of files OpsArith and OpsState satisfy [simple]: they run
    without panic, keep [Inv], change nothing [prim] fixes, and grow the stack
    by no more than the opcode table says. *)

From Stdlib Require Import ZArith Lia.
From Stdlib.Strings Require Import Byte.
From stdpp Require Import base list countable gmap strings numbers.
From S2P Require Import Prelude Stack Memory Gas Opcodes StateDB Env OpsArith OpsState Bytecode Calls Interp Frame.

(** Boolean tests in the context as propositions. *)
Ltac zbool :=
  repeat match goal with
  | H : (_ <? _) = true |- _ => apply Z.ltb_lt in H
  | H : (_ <? _) = false |- _ => apply Z.ltb_ge in H
  | H : (_ <=? _) = true |- _ => apply Z.leb_le in H
  | H : (_ <=? _) = false |- _ => apply Z.leb_gt in H
  | H : (_ =? _) = true |- _ => apply Z.eqb_eq in H
  | H : (_ =? _) = false |- _ => apply Z.eqb_neq in H
  | H : _ && _ = true |- _ => apply andb_true_iff in H as [? ?]
  | H : _ || _ = false |- _ => apply orb_false_iff in H as [? ?]
  | H : negb _ = true |- _ => apply negb_true_iff in H
  | H : negb _ = false |- _ => apply negb_false_iff in H
  end.

Lemma u64_div a n : is_u64 a -> 0 < n -> is_u64 (a / n).
Proof. unfold is_u64. intros. split; [apply Z.div_pos|apply Z.div_lt_upper_bound]; nia. Qed.

Lemma u64_const (a : Z) : (0 <=? a) && (a <? 2 ^ 64) = true -> is_u64 a.
Proof. unfold is_u64. rewrite andb_true_iff, Z.leb_le, Z.ltb_lt. lia. Qed.

(** The side conditions of the primitives. *)
Ltac side :=
  lazymatch goal with
  | |- True => exact I
  | |- is_u64 _ =>
      first
        [ assumption
        | apply MemoryExpansionCost_u64; lia
        | apply u64_range
        | by apply u64_const
        | apply u64_div; side
        | solve [auto with qvm]
        | unfold is_u64, MaxUint64, MaxMemorySize in *; zbool; lia ]
  | |- _ <= _ => first [lia | by apply Z.leb_le | unfold is_u64 in *; lia | unfold is_u64, MaxUint64 in *; zbool; lia]
  | |- _ <= _ <= _ => first [lia | unfold is_u64 in *; lia | unfold is_u64, MaxUint64 in *; zbool; lia]
  | |- _ < _ => lia
  | |- _ => try done
  end.

(** The bounds of a slice. *)
Ltac slice_side := unfold is_u64, MaxUint64, u64 in *; zbool; zcases; zlia.

Section lemmas.
Context {DB : Type} `{!StateDB DB} `{!StateDBLaws DB}.

Lemma simple_or_panic {A} st (o : option A) (V : A -> Prop) :
  (exists a, o = Some a /\ V a) -> simple st (or_panic (S:=St DB) o) V 0.
Proof. intros (a & -> & HV). by apply simple_ret. Qed.

Lemma simple_slice {A} st (l : list A) lo hi :
  0 <= lo <= hi -> hi <= len l ->
  simple st (or_panic (S:=St DB) (slice l lo hi)) (fun r => len r = hi - lo) 0.
Proof.
  intros H1 H2. apply simple_or_panic. exists (sub l lo hi).
  split; [by apply slice_Some|by apply len_sub].
Qed.

Lemma simple_check_add st e a b :
  is_u64 a -> is_u64 b ->
  simple st (check_as (DB:=DB) e (SafeAddGas a b)) (fun r => r = a + b /\ is_u64 r) 0.
Proof.
  intros Ha Hb. rewrite SafeAddGas_spec by done. destruct (Z.ltb_spec (a + b) (2 ^ 64)).
  - apply simple_ret; [|lia]. split; [done|]. unfold is_u64 in *. lia.
  - apply simple_throw.
Qed.

Lemma simple_check_mul st e a b :
  is_u64 a -> is_u64 b ->
  simple st (check_as (DB:=DB) e (SafeMulGas a b)) (fun r => r = a * b /\ is_u64 r) 0.
Proof.
  intros Ha Hb. rewrite SafeMulGas_spec by done. destruct (Z.ltb_spec (a * b) (2 ^ 64)).
  - apply simple_ret; [|lia]. split; [done|]. unfold is_u64 in *. nia.
  - apply simple_throw.
Qed.

Lemma simple_check_mul' st a b :
  is_u64 a -> is_u64 b ->
  simple st (check (DB:=DB) (SafeMulGas a b)) (fun r => r = a * b /\ is_u64 r) 0.
Proof.
  intros Ha Hb. rewrite SafeMulGas_spec by done. destruct (Z.ltb_spec (a * b) (2 ^ 64)).
  - apply simple_ret; [|lia]. split; [done|]. unfold is_u64 in *. nia.
  - apply simple_throw.
Qed.

Lemma simple_check {A} st (x : error + A) : simple st (check (DB:=DB) x) (fun _ => True) 0.
Proof. destruct x; [apply simple_throw|by apply simple_ret]. Qed.

Lemma simple_check_sub st a b :
  is_u64 a -> is_u64 b ->
  simple st (check (DB:=DB) (SafeSubGas a b)) is_u64 0.
Proof.
  intros Ha Hb. rewrite SafeSubGas_spec by done. destruct (Z.leb_spec b a).
  - apply simple_ret; [|lia]. unfold is_u64 in *. lia.
  - apply simple_throw.
Qed.

Lemma simple_ZeroRange st o n :
  is_u64 o -> is_u64 n -> simple st (onMemory (DB:=DB) (ZeroRange o n)) (fun _ => True) 0.
Proof.
  intros Ho Hn. apply simple_onMemory; [lia|]. intros m0 Hm.
  destruct (Z.eq_dec n 0) as [->|N]; [done|]. rewrite ZeroRange_eq by done.
  destruct (in_range o n) eqn:E; [|done]. unfold is_u64 in *.
  destruct (in_range_grow m0 o n E ltac:(lia) ltac:(lia) N) as (H1 & H2 & _).
  destruct (zero_loop_eq (Z.to_nat n) o (grow m0 o n)) as (m' & -> & ES & _); [lia|lia|].
  simpl. split; [|done]. unfold mem_ok. rewrite ES. apply mem_ok_grow; done || lia.
Qed.

Lemma simple_SetByte st o v :
  0 <= o -> simple st (onMemory (DB:=DB) (SetByte o v)) (fun _ => True) 0.
Proof.
  intros Ho. apply simple_onMemory; [lia|]. intros m0 Hm. rewrite SetByte_eq by done.
  destruct (in_range o 1) eqn:E; [|done]. simpl. split; [|done].
  destruct (in_range_grow m0 o 1 E) as (H1 & H2 & _); try lia.
  apply mem_ok_overwrite; [lia|]. apply mem_ok_grow; done || lia.
Qed.

(** A database operation that is invisible in the view. *)
Lemma still_db st (f : DB -> DB) k :
  (forall d, journal (f d) = journal d) -> (forall d, view (f d) ≈ view d) -> 0 <= k ->
  simple st (modDB f) (fun _ => True) k.
Proof.
  intros J V Hk. apply simple_modDB; [|done]. intros d Hd.
  split; [by apply dbR_same|by apply (db_ok_same d)].
Qed.

Lemma still_call {A} st (f : DB -> A * DB) k :
  (forall d, journal (f d).2 = journal d) -> (forall d, view (f d).2 ≈ view d) -> 0 <= k ->
  simple st (callDB f) (fun _ => True) k.
Proof.
  intros J V Hk. apply simple_callDB; [|done|done]. intros d Hd.
  split; [by apply dbR_same|by apply (db_ok_same d)].
Qed.

Lemma simple_GetBalance st a : simple st (callDB (GetBalance (DB:=DB) a)) (fun _ => True) 0.
Proof. apply still_call; [apply journal_GetBalance|apply view_GetBalance|lia]. Qed.

Lemma simple_GetNonce st a : simple st (callDB (GetNonce (DB:=DB) a)) (fun _ => True) 0.
Proof. apply still_call; [apply journal_GetNonce|apply view_GetNonce|lia]. Qed.

Lemma simple_AddAddress st a : simple st (modDB (AddAddressToAccessList (DB:=DB) a)) (fun _ => True) 0.
Proof. apply still_db; [apply journal_AddAddressToAccessList|apply view_AddAddressToAccessList|lia]. Qed.

Lemma simple_AddSlot st a k : simple st (modDB (AddSlotToAccessList (DB:=DB) a k)) (fun _ => True) 0.
Proof. apply still_db; [apply journal_AddSlotToAccessList|apply view_AddSlotToAccessList|lia]. Qed.

(** A write that moves no balance. *)
Lemma write_db (f : DB -> DB) a g :
  (forall d, journal (f d) = journal d) -> (forall d, view (f d) ≈ upd a g (view d)) ->
  (forall x, acc_balance (g x) = acc_balance x) -> (forall x, account_ok x -> account_ok (g x)) ->
  simple false (modDB f) (fun _ => True) 0.
Proof.
  intros J V B G. apply simple_modDB; [|lia]. intros d [N NJ]. split.
  - split; [done|]. split; [|done]. rewrite V, supply_upd, B. unfold balance_of. lia.
  - split; [|by rewrite J]. rewrite V. intros b. rewrite account_upd.
    case_decide; [|apply N]. apply G, N.
Qed.

Lemma simple_SetState a k v : simple false (modDB (SetState (DB:=DB) a k v)) (fun _ => True) 0.
Proof. eapply write_db; [apply journal_SetState|apply view_SetState|done|done]. Qed.

Lemma simple_SetNonce a n : simple false (modDB (SetNonce (DB:=DB) a n)) (fun _ => True) 0.
Proof. eapply write_db; [apply journal_SetNonce|apply view_SetNonce|done|done]. Qed.

Lemma simple_SetCode a c :
  len c < 2 ^ 63 -> simple false (modDB (SetCode (DB:=DB) a c)) (fun _ => True) 0.
Proof.
  intros Hc. eapply write_db; [apply journal_SetCode|apply view_SetCode|done|].
  intros x []. by split.
Qed.

Lemma simple_SelfDestruct a : simple false (modDB (SelfDestruct (DB:=DB) a)) (fun _ => True) 0.
Proof.
  apply simple_modDB; [|lia]. intros d [N NJ].
  assert (O : forall b, b <> a -> acc_eq (account (view (SelfDestruct a d)) b) (account (view d) b)).
  { intros b Hb. by apply view_SelfDestruct. }
  pose proof (balance_SelfDestruct a d) as B. pose proof (code_SelfDestruct a d) as C.
  unfold balance_of in B. destruct (N a) as [Na Ca]. split.
  - split; [apply journal_SelfDestruct|]. split; [|done].
    rewrite (supply_change (view d) _ a); [unfold balance_of; lia|]. intros b Hb. by apply O.
  - split; [|by rewrite journal_SelfDestruct]. intros b.
    destruct (decide (b = a)) as [->|Hb].
    + split; [lia|]. destruct C as [->| ->]; [done|]. unfold len. simpl. lia.
    + destruct (O b Hb) as (E & _ & E2 & _). destruct (N b). split; [by rewrite E|by rewrite E2].
Qed.
End lemmas.

(** The specification of a primitive operation. *)
Ltac frame_prim :=
  lazymatch goal with
  | |- simple _ ?m _ _ =>
      lazymatch m with
      | pop => apply simple_pop
      | popU => apply simple_popU
      | popB => apply simple_popB
      | push _ => apply simple_push
      | pushU _ => apply simple_pushU
      | pushB _ => apply simple_pushB
      | onStack (PushBigInt _) => apply simple_PushBigInt
      | onStack (Dup _) => apply simple_Dup
      | onStack (Swap _) => apply simple_Swap
      | consume _ => apply simple_consume; side
      | onGas (Refund _) => apply simple_Refund
      | memSize => apply simple_memSize
      | remaining => apply simple_remaining
      | mret ?a => apply (simple_ret _ a (fun x => x = a) 0); [done|lia]
      | guard_err _ _ => apply (simple_guard _ _ _ 0); lia
      | onMemory (Get _ _) => apply simple_Get; side
      | onMemory (Set_ _ _) => apply simple_Set; side
      | onMemory (Set32 _ _) => apply simple_Set32; side
      | onMemory (SetByte _ _) => apply simple_SetByte; side
      | onMemory (ZeroRange _ _) => apply simple_ZeroRange; side
      | or_panic (slice _ _ _) => apply simple_slice; slice_side
      | check_as _ (SafeAddGas _ _) => apply simple_check_add; side
      | check_as _ (SafeMulGas _ _) => apply simple_check_mul; side
      | check (SafeMulGas _ _) => apply simple_check_mul'; side
      | check (SafeSubGas _ _) => apply simple_check_sub; side
      | check _ => apply simple_check
      | callDB (GetBalance _) => apply simple_GetBalance
      | callDB (GetNonce _) => apply simple_GetNonce
      | modDB (AddAddressToAccessList _) => apply simple_AddAddress
      | modDB (AddSlotToAccessList _ _) => apply simple_AddSlot
      | modDB (SetState _ _ _) => apply simple_SetState
      | modDB (SetNonce _ _) => apply simple_SetNonce
      | modDB (SelfDestruct _) => apply simple_SelfDestruct
      | getE e_gasTable => apply simple_getTable
      | getE e_pc => apply simple_getPc
      | getE _ => apply simple_getE
      | getCtx _ => apply simple_getCtx
      | getW _ => apply simple_getW
      | getDB _ => apply simple_getDB
      | modE _ => apply (simple_modE _ _ 0); [by intros ? | lia]
      | modW _ => apply (simple_modW _ _ 0); [by intros ? | lia]
      | _ => eauto with frame
      end
  end.

Ltac frame_step :=
  cbv zeta;
  lazymatch goal with
  | |- simple _ (_ ≫= _) _ _ =>
      eapply simple_bind; [solve [frame_prim] | intros ? ?; cbv beta in *; destruct_and?;
        try match goal with H : ?t = DefaultGasTable |- _ => subst t end]
  | |- simple _ (mret _) _ _ => apply simple_ret; [side|side]
  | |- simple _ (throw _) _ _ => apply simple_throw
  | |- simple _ (if ?b then _ else _) _ _ => destruct b eqn:?; zbool
  | |- simple _ (match ?x with _ => _ end) _ _ => destruct x eqn:?
  | |- simple _ _ _ _ => eapply simple_weaken; [solve [frame_prim] | done | side]
  end.

Ltac frame := repeat frame_step.

Create HintDb frame.

Section ops.
Context {DB : Type} `{!StateDB DB} `{!StateDBLaws DB} (i : Interpreter DB).
Local Abbreviation ok st m k := (simple (DB:=DB) st m (fun _ => True) k).

Lemma unop_ok st f : ok st (unop f) 0.
Proof. unfold unop. frame. Qed.

Lemma binop_ok st f : ok st (binop f) (-1).
Proof. unfold binop. frame. Qed.

Lemma ternop_ok st f : ok st (ternop f) (-2).
Proof. unfold ternop. frame. Qed.

Lemma BitLen_u64 v : 0 <= v < W256 -> is_u64 ((BitLen v + 7) / 8).
Proof.
  intros H. unfold is_u64. pose proof (byte_size_range (big v)) as R.
  rewrite wz_big in R by done. unfold byte_size in R. lia.
Qed.

Lemma opExp_ok st : ok st opExp (-1).
Proof.
  unfold opExp. do 2 frame_step. cbv zeta.
  eapply simple_bind; [apply simple_check_mul; [by apply BitLen_u64|done]|]. intros ? [-> ?].
  frame.
Qed.

Lemma simple_getCode st :
  simple st (getCtx (DB:=DB) ctx_Code) (fun c => len c < 2 ^ 63) 0.
Proof. apply simple_gets; [|lia]. intros s HI. apply (inv_code s HI). Qed.

Lemma opPush_ok st op : ok st (opPush op) 1.
Proof.
  unfold opPush. pose proof (PushSize_range (encode op)) as R. cbv zeta. do 2 frame_step.
  eapply simple_bind; [apply simple_getCode|]. intros code Hc. cbv beta in Hc.
  set (e := if len code <? _ then _ else _).
  assert (He : 0 <= e <= len code /\ (a0 < len code -> a0 <= e)).
  { unfold e, u64. pose proof (len_nonneg code). zcases; zlia. }
  eapply simple_bind with (V := fun _ => True) (k1 := 0).
  - destruct (Z.ltb_spec a0 (len code)); [|frame].
    eapply simple_weaken; [apply simple_slice; lia|done|lia].
  - intros data _. eapply simple_bind; [apply (simple_modE _ _ 0)|intros; frame]; [|lia].
    intros x. repeat split. simpl. lia.
Qed.

Lemma chargeRange_ok st o n : 0 <= o -> ok st (chargeRange o n) 0.
Proof. intros. unfold chargeRange. frame. Qed.
Hint Extern 1 (simple _ (chargeRange _ _) _ _) => apply chargeRange_ok; side : frame.

Lemma opMLoad_ok st : ok st opMLoad 0.
Proof. unfold opMLoad, GetPtr. frame. Qed.

Lemma opMStore_ok st : ok st opMStore (-2).
Proof. unfold opMStore. frame. Qed.

Lemma opMStore8_ok st : ok st opMStore8 (-2).
Proof. unfold opMStore8. frame. Qed.

Lemma opMCopy_ok st : ok st opMCopy (-3).
Proof. unfold opMCopy. frame. Qed.

Lemma chargeSlot_ok st key : ok st (chargeSlot key) 0.
Proof. unfold chargeSlot. frame. Qed.

Lemma opTLoad_ok st : ok st opTLoad 0.
Proof. unfold opTLoad. frame. Qed.

Lemma opCallDataLoad_ok st : ok st opCallDataLoad 0.
Proof. unfold opCallDataLoad. frame. Qed.

Lemma padded_ok st src o n :
  is_u64 o -> is_u64 n -> o + n <= MaxUint64 -> simple (DB:=DB) st (padded src o n) (fun _ => True) 0.
Proof. intros. unfold padded. frame. Qed.

Lemma chargeCopy_ok st dest n m1 m2 : is_u64 dest -> is_u64 n -> ok st (chargeCopy dest n m1 m2) 0.
Proof. intros. unfold chargeCopy. frame. Qed.

Lemma chargeAccount_ok st addr cold warm :
  is_u64 cold -> is_u64 warm -> ok st (chargeAccount addr cold warm) 0.
Proof. intros. unfold chargeAccount. frame. Qed.

Hint Extern 1 (simple _ (chargeCopy _ _ _ _) _ _) => apply chargeCopy_ok; side : frame.
Hint Extern 1 (simple _ (chargeAccount _ _ _) _ _) => apply chargeAccount_ok; side : frame.
Hint Extern 1 (simple _ (padded _ _ _) _ _) =>
  apply padded_ok; [side|side|unfold is_u64, MaxUint64 in *; zbool; lia] : frame.
Hint Resolve chargeSlot_ok : frame.

Lemma opCallDataCopy_ok st : ok st opCallDataCopy (-3).
Proof. unfold opCallDataCopy. frame. Qed.

Lemma opReturnDataCopy_ok st : ok st opReturnDataCopy (-3).
Proof. unfold opReturnDataCopy. frame. Qed.

Lemma opCodeCopy_ok st : ok st opCodeCopy (-3).
Proof. unfold opCodeCopy. frame. Qed.

Lemma opExtCodeCopy_ok st : ok st opExtCodeCopy (-4).
Proof. unfold opExtCodeCopy. frame. Qed.

Lemma returnRange_ok st : ok st returnRange (-2).
Proof. unfold returnRange. frame. Qed.
Hint Resolve returnRange_ok : frame.

Lemma opReturn_ok st : ok st opReturn (-2).
Proof. unfold opReturn. frame. Qed.

Lemma opRevert_ok st : ok st opRevert (-2).
Proof. unfold opRevert. frame. Qed.

Lemma opSHA3_ok st : ok st (opSHA3 i) (-1).
Proof. unfold opSHA3. frame. Qed.

Lemma CalculateCopyGas_u64 n : is_u64 (CalculateCopyGas n).
Proof. unfold CalculateCopyGas. repeat case_match; try apply u64_range; by apply u64_const. Qed.
Hint Resolve CalculateCopyGas_u64 : qvm.

Lemma opKyberZeroKey_ok st : ok st opKyberZeroKey (-2).
Proof. unfold opKyberZeroKey. frame. Qed.

Lemma opKyberDecaps_ok st : ok st (opKyberDecaps i) (-1).
Proof. unfold opKyberDecaps. frame. Qed.

Lemma opBlobHash_ok st : ok st opBlobHash 0.
Proof.
  unfold opBlobHash. do 3 frame_step; [frame|]. unfold is_u64, len in *.
  destruct (lookup_lt_is_Some_2 a0 (Z.to_nat a)) as [h Hh]; [lia|].
  eapply simple_bind with (V := fun _ => True); [apply simple_or_panic; eauto|intros; frame].
Qed.

Lemma opBlockHash_ok st : ok st opBlockHash 0.
Proof. unfold opBlockHash. frame. Qed.

Lemma opBalance_ok st : ok st opBalance 0.
Proof. unfold opBalance. frame. Qed.

Lemma opExtCodeSize_ok st : ok st opExtCodeSize 0.
Proof. unfold opExtCodeSize. frame. Qed.

Lemma opExtCodeHash_ok st : ok st opExtCodeHash 0.
Proof. unfold opExtCodeHash. frame. Qed.

Lemma opSLoad_ok st : ok st opSLoad 0.
Proof. unfold opSLoad. frame. Qed.

Lemma opSelfBalance_ok st : ok st opSelfBalance 1.
Proof. unfold opSelfBalance. frame. Qed.

(** ** Instructions that write *)

(** The triple of a whole instruction: it leaves the state of a read-only frame
    as it was. *)
Definition op_ok (m : M (St DB) unit) (k : Z) : Prop :=
  forall s, Inv s ->
  prim (ctx_ReadOnly (e_ctx (env s))) s (m s).2 /\ Inv (m s).2 /\
  match (m s).1 with
  | Ok _ => stack_len (m s).2 <= stack_len s + k
  | Err _ => True
  | _ => False
  end.

Lemma simple_op_ok m k : ok true m k -> op_ok m k.
Proof.
  intros Hm s HI. destruct (Hm s HI) as (HP & HI' & HR).
  split; [by apply prim_still|]. split; [done|]. destruct (m s).1; try done. by destruct HR.
Qed.

(** The guard of a writing instruction: in a read-only frame it throws. *)
Lemma guarded_ok (m : M (St DB) unit) e k :
  ok false m k -> op_ok (ro ← getCtx ctx_ReadOnly; guard_err ro e;; m) k.
Proof.
  intros Hm s HI. unfold getCtx, getE. rewrite bind_gets, bind_guard.
  destruct (ctx_ReadOnly (e_ctx (env s))) eqn:E; [split; [reflexivity|done]|].
  destruct (Hm s HI) as (HP & HI' & HR). split; [done|]. split; [done|].
  destruct (m s).1; try done. by destruct HR.
Qed.

Lemma popTopics_ok st n :
  simple (DB:=DB) st (popTopics n) (fun _ => True) (- Z.of_nat n).
Proof.
  induction n as [|n IH]; [by apply simple_ret|]. cbn [popTopics]. frame_step.
  eapply simple_bind; [exact IH|]. intros l _. apply simple_ret; [done|lia].
Qed.
Hint Resolve popTopics_ok : frame.

(** An optional step in the middle of a handler. *)
Lemma simple_if st (b : bool) (m1 m2 : M (St DB) unit) :
  (b = true -> ok st m1 0) -> (b = false -> ok st m2 0) -> ok st (if b then m1 else m2) 0.
Proof. destruct b; auto. Qed.
Hint Extern 2 (simple _ (if _ then _ else _) _ _) => apply simple_if; intros; zbool; frame : frame.

Lemma opLog_ok n : (n <= 4)%nat -> op_ok (opLog n) (- 2 - Z.of_nat n).
Proof. intros Hn. unfold opLog. apply guarded_ok. frame. Qed.

Lemma opTStore_ok : op_ok opTStore (-2).
Proof. unfold opTStore. apply guarded_ok. frame. Qed.

Lemma opSStore_ok : op_ok opSStore (-2).
Proof.
  unfold opSStore. apply guarded_ok. do 7 frame_step.
  eapply simple_bind with (V := is_u64) (k1 := 0); [destruct a4; frame|intros; frame].
Qed.

(** Moving value between accounts: the database after the two writes. *)
Definition moved (a b : Address) (x v : Z) (d : DB) : DB :=
  let '(bb, d2) := GetBalance b (SetBalance a (x - v) d) in SetBalance b (bb + v) d2.

Lemma moved_ok a b x v d :
  db_ok d -> x = balance_of (view d) a -> 0 <= v <= x ->
  journal (moved a b x v d) = journal d /\
  supply (view (moved a b x v d)) = supply (view d) /\ db_ok (moved a b x v d).
Proof.
  intros [N NJ] Hx Hv. unfold moved. set (d1 := SetBalance a (x - v) d).
  pose proof (view_GetBalance b d1) as V2. pose proof (GetBalance_view b d1) as B2.
  pose proof (journal_GetBalance b d1) as J2. destruct (GetBalance b d1) as [bb d2].
  simpl in V2, B2, J2. set (d3 := SetBalance b (bb + v) d2).
  assert (J3 : journal d3 = journal d).
  { unfold d3. rewrite journal_SetBalance, J2. apply journal_SetBalance. }
  assert (V1 : view d1 ≈ upd a (set_balance (x - v)) (view d)) by apply view_SetBalance.
  assert (V3 : view d3 ≈ upd b (set_balance (bb + v)) (view d1)).
  { unfold d3. rewrite view_SetBalance. by rewrite V2. }
  assert (O1 : view_ok (view d1)).
  { rewrite V1. intros c. rewrite account_upd. case_decide; [|apply N].
    destruct (N a) as [_ C]. split; [simpl; lia|done]. }
  split; [done|]. split.
  - assert (S1 : supply (view d1) = supply (view d) - v) by (rewrite V1, supply_upd; simpl; lia).
    rewrite V3, supply_upd, S1. simpl. lia.
  - split; [|by rewrite J3]. rewrite V3. intros c. rewrite account_upd. case_decide; [|apply O1].
    destruct (O1 b) as [P C]. split; [|done]. unfold balance_of in B2. simpl. lia.
Qed.

(** A block of database operations that never fails. *)
Lemma simple_db_block st (m : M (St DB) unit) (f : DB -> DB) :
  (forall s, m s = (Ok tt, mkSt (env s) (set_w_db (f (w_db (world s))) (world s)))) ->
  (forall d, db_ok d -> dbR st d (f d) /\ db_ok (f d)) -> ok st m 0.
Proof.
  intros Hm Hf s HI. rewrite Hm. by apply (simple_modDB st f 0 Hf ltac:(lia) s HI).
Qed.

(** The balance transfer of a self-destruction. *)
Definition destructMove (a b : Address) : M (St DB) unit :=
  balance ← callDB (GetBalance a);
  if 0 <? balance then
    modDB (SetBalance a 0);;
    beneficiaryBalance ← callDB (GetBalance b);
    modDB (SetBalance b (beneficiaryBalance + balance))
  else mret tt.

Lemma destructMove_ok a b : ok false (destructMove a b) 0.
Proof.
  apply (simple_db_block _ _ (fun d =>
    let '(x, d0) := GetBalance a d in
    if 0 <? x then moved a b x x d0 else d0)).
  - intros s. unfold destructMove, mbind, M_bind, callDB, modDB, modW, modify, moved.
    destruct (GetBalance a (w_db (world s))) as [x d0]. simpl.
    destruct (0 <? x); [|done]. simpl. rewrite Z.sub_diag.
    destruct (GetBalance b (SetBalance a 0 d0)) as [y d1]. reflexivity.
  - intros d Hd. pose proof (view_GetBalance a d) as V. pose proof (GetBalance_view a d) as B.
    pose proof (journal_GetBalance a d) as J. destruct (GetBalance a d) as [x d0].
    simpl in V, B, J. pose proof (db_ok_same d d0 J V Hd) as O0.
    destruct (Z.ltb_spec 0 x); [|split; [by apply dbR_same|done]].
    destruct (moved_ok a b x x d0 O0) as (J1 & S1 & O1); [by rewrite V|lia|].
    split; [|done]. split; [congruence|]. split; [|done]. rewrite S1, V. lia.
Qed.

Lemma simple_assoc {A B C} st (m : M (St DB) A) (f : A -> M (St DB) B) (g : B -> M (St DB) C) V k :
  simple st ((m ≫= f) ≫= g) V k -> simple st (m ≫= (fun a => f a ≫= g)) V k.
Proof.
  intros H s HI. specialize (H s HI). unfold mbind, M_bind in *.
  by destruct (m s) as [[]].
Qed.

Lemma selfDestructBody_ok b : ok false (selfDestructBody b) 0.
Proof.
  unfold selfDestructBody. do 3 frame_step.
  eapply simple_bind with (V := is_u64) (k1 := 0).
  { destruct (negb a0 && (0 <? a1)); [|frame].
    eapply simple_weaken; [frame_prim|by intros ? []|lia]. }
  intros g Hg. frame_step. apply simple_assoc.
  eapply simple_bind; [apply (destructMove_ok a b)|]. intros. frame.
Qed.

(** Popping the address pushed last. *)
Lemma Push_Pop_active addr e e' :
  PushActiveAddress addr e = (true, e') ->
  e' = set_e_activeAddresses (e_activeAddresses e ++ [addr]) e /\
  forall e2, e_activeAddresses e2 = e_activeAddresses e' ->
    PopActiveAddress e2 = set_e_activeAddresses (e_activeAddresses e) e2.
Proof.
  unfold PushActiveAddress. case_match; [done|]. intros [= <-]. split; [done|].
  intros e2 E. unfold PopActiveAddress. rewrite E. simpl.
  assert (L : length (e_activeAddresses e ++ [addr]) = S (length (e_activeAddresses e)))
    by (rewrite length_app; simpl; lia).
  unfold len. rewrite L. rewrite (proj2 (Z.ltb_lt _ _)) by lia.
  rewrite Nat.sub_succ, Nat.sub_0_r. by rewrite take_app_length.
Qed.

(** A body that runs with its address on the active list, which is taken off
    again on every exit. *)
Lemma active_block_ok st addr (m : M (St DB) unit) k :
  ok st m k ->
  ok st (r ← getE (PushActiveAddress addr);
         let '(pushed, e) := r in
         modE (fun _ => e);;
         if pushed : bool
         then defer (fun s => mkSt (PopActiveAddress (env s)) (world s)) m else m) k.
Proof.
  intros Hm s HI. unfold getE, modE. rewrite bind_gets.
  destruct (PushActiveAddress addr (env s)) as [pushed e] eqn:E.
  rewrite bind_modify. destruct pushed.
  - destruct (Push_Pop_active _ _ _ E) as [-> Hpop]. unfold defer.
    set (s1 := mkSt _ (world s)). assert (HI1 : Inv s1) by (destruct HI; split; assumption).
    destruct (Hm s1 HI1) as (HP & HI2 & HR).
    destruct (m s1) as [r s2]. simpl in *. rewrite (Hpop _ (pr_active _ _ _ HP)).
    split; [destruct HP; split; assumption || reflexivity|]. split; [destruct HI2; split; assumption|].
    destruct r; done.
  - unfold PushActiveAddress in E. case_match; [|done]. injection E as <-.
    replace (mkSt (env s) (world s)) with s by (by destruct s). by apply Hm.
Qed.

Lemma opSelfDestruct_ok : op_ok opSelfDestruct 0.
Proof.
  unfold opSelfDestruct. apply guarded_ok. do 5 frame_step; [frame|]. frame_step. frame_step.
  frame_step; [frame|].
  eapply simple_weaken; [apply active_block_ok, selfDestructBody_ok|done|lia].
Qed.

(** ** All instructions that call no frame *)

Definition isCallOp (op : OpCode) : bool :=
  match op with
  | CALL | STATICCALL | DELEGATECALL | CALLCODE | CREATE | CREATE2 | AUTH | AUTHCALL => true
  | _ => false
  end.

Lemma jumpTo_ok st dest : 0 <= dest -> ok st (jumpTo dest) 0.
Proof.
  intros H. unfold jumpTo. do 2 frame_step.
  eapply simple_weaken; [apply (simple_modE _ _ 0); [by intros e|lia]|done|lia].
Qed.

Lemma opJump_ok st : ok st opJump (-1).
Proof.
  unfold opJump. frame_step. eapply simple_weaken; [apply jumpTo_ok|done|lia].
  unfold is_u64 in *. lia.
Qed.

Lemma opJumpI_ok st : ok st opJumpI (-2).
Proof.
  unfold opJumpI. do 3 frame_step; [|frame].
  eapply simple_weaken; [apply jumpTo_ok|done|lia]. unfold is_u64 in *. lia.
Qed.

Ltac plain_op :=
  lazymatch goal with
  | |- simple _ ?m _ _ =>
      lazymatch m with
      | unop _ => apply unop_ok
      | binop _ => apply binop_ok
      | ternop _ => apply ternop_ok
      | opPush _ => apply opPush_ok
      | opExp => apply opExp_ok
      | opJump => apply opJump_ok
      | opJumpI => apply opJumpI_ok
      | opReturn => apply opReturn_ok
      | opRevert => apply opRevert_ok
      | opMLoad => apply opMLoad_ok
      | opMStore => apply opMStore_ok
      | opMStore8 => apply opMStore8_ok
      | opMCopy => apply opMCopy_ok
      | opSLoad => apply opSLoad_ok
      | opTLoad => apply opTLoad_ok
      | opBalance => apply opBalance_ok
      | opCallDataLoad => apply opCallDataLoad_ok
      | opCallDataCopy => apply opCallDataCopy_ok
      | opReturnDataCopy => apply opReturnDataCopy_ok
      | opCodeCopy => apply opCodeCopy_ok
      | opBlockHash => apply opBlockHash_ok
      | opSelfBalance => apply opSelfBalance_ok
      | opExtCodeSize => apply opExtCodeSize_ok
      | opExtCodeCopy => apply opExtCodeCopy_ok
      | opExtCodeHash => apply opExtCodeHash_ok
      | opBlobHash => apply opBlobHash_ok
      | opSHA3 _ => apply opSHA3_ok
      | opKyberDecaps _ => apply opKyberDecaps_ok
      | opKyberZeroKey => apply opKyberZeroKey_ok
      end
  end.

Lemma plain_op_ok execute run op :
  isCallOp op = false -> op_ok (executeOp i execute run op) 1.
Proof.
  assert (W : forall m k, op_ok m k -> k <= 1 -> op_ok m 1).
  { intros m k H Hk s HI. destruct (H s HI) as (? & ? & HR). split; [done|]. split; [done|].
    destruct (m s).1; try done. lia. }
  destruct op; try done; intros _; cbn [executeOp];
    unfold opAdd, opSub, opMul, opDiv, opMod, opSDiv, opSMod, opAddMod, opMulMod, opLt, opGt, opSlt,
      opSgt, opEq, opIsZero, opAnd, opOr, opXor, opNot, opShl, opShr, opSar, opByte, opSignExtend,
      opLog0, opLog1, opLog2, opLog3, opLog4, opAddress, opCaller, opOrigin, opCallValue, opCodeSize,
      opGasPrice, opGasLimit, opCoinbase, opPrevRandao, opBaseFee, opBlobBaseFee, opKyberKeyGen,
      opKyberEncaps;
    lazymatch goal with
    | |- op_ok opSStore _ => eapply W; [apply opSStore_ok|lia]
    | |- op_ok opTStore _ => eapply W; [apply opTStore_ok|lia]
    | |- op_ok opSelfDestruct _ => eapply W; [apply opSelfDestruct_ok|lia]
    | |- op_ok (opLog _) _ => eapply W; [apply opLog_ok; lia|lia]
    | |- _ => apply simple_op_ok; first [eapply simple_weaken; [plain_op|done|lia] | solve [frame]]
    end.
Qed.
End ops.
