(* ===== verification/CallFrame.v ===== *)
(** * The logic of instructions that run other frames

    A call instruction changes what the instructions of file FrameOps never
    touch (the call depth, the active addresses, the reentry counters, the
    snapshot journal) and puts it back. [stands s0 x s] locates a state [s]
    inside a handler that started in [s0]: the index [x] gives the current
    value of each of these parts, the gas set aside for the callee, the
    snapshots that must survive, and whether the accounts are still as they
    were. [hoare] is the triple over such assertions; it covers total
    correctness (neither a panic nor a lack of fuel) and the error exits. *)

From Stdlib Require Import ZArith Lia.
From Stdlib.Strings Require Import Byte.
From stdpp Require Import base list countable gmap strings numbers.
From S2P Require Import Prelude Stack Memory Gas Opcodes StateDB Env OpsArith OpsState Bytecode Calls Interp Frame FrameOps.

Record Ix : Type := mkIx {
  ix_depth : Z;
  ix_active : list Address;
  ix_counts : gmap Address Z;
  ix_gas : Z;
  ix_journal : list View;
  ix_still : bool;
  ix_stack : Z
}.

Definition to_depth (d : Z) (x : Ix) : Ix :=
  mkIx d (ix_active x) (ix_counts x) (ix_gas x) (ix_journal x) (ix_still x) (ix_stack x).
Definition to_active (l : list Address) (x : Ix) : Ix :=
  mkIx (ix_depth x) l (ix_counts x) (ix_gas x) (ix_journal x) (ix_still x) (ix_stack x).
Definition to_counts (c : gmap Address Z) (x : Ix) : Ix :=
  mkIx (ix_depth x) (ix_active x) c (ix_gas x) (ix_journal x) (ix_still x) (ix_stack x).
Definition to_gas (g : Z) (x : Ix) : Ix :=
  mkIx (ix_depth x) (ix_active x) (ix_counts x) g (ix_journal x) (ix_still x) (ix_stack x).
Definition to_journal (j : list View) (x : Ix) : Ix :=
  mkIx (ix_depth x) (ix_active x) (ix_counts x) (ix_gas x) j (ix_still x) (ix_stack x).
Definition to_still (b : bool) (x : Ix) : Ix :=
  mkIx (ix_depth x) (ix_active x) (ix_counts x) (ix_gas x) (ix_journal x) b (ix_stack x).
Definition grown (k : Z) (x : Ix) : Ix :=
  mkIx (ix_depth x) (ix_active x) (ix_counts x) (ix_gas x) (ix_journal x) (ix_still x)
    (ix_stack x + k).

Section callframe.
Context {DB : Type} `{!StateDB DB} `{!StateDBLaws DB}.
Implicit Types s : St DB.

Abbreviation db s := (w_db (world s)).
Abbreviation used s := (gm_used (e_gas (env s))).
Abbreviation read_only s := (ctx_ReadOnly (e_ctx (env s))).

(** What running another frame may do to the database. *)
Definition dbP (st : bool) (d d' : DB) : Prop :=
  journal d `prefix_of` journal d' /\ supply (view d') <= supply (view d) /\
  (st = true -> view d' ≈ view d).

#[global] Instance dbP_preorder st : PreOrder (dbP st).
Proof.
  split.
  - intros d. split; [done|]. split; [lia|]. done.
  - intros a b c (J1 & S1 & V1) (J2 & S2 & V2). split; [by etransitivity|]. split; [lia|].
    intros E. etransitivity; eauto.
Qed.

Lemma dbR_dbP st (d d' : DB) : dbR st d d' -> dbP st d d'.
Proof. intros (J & S & V). split; [by rewrite J|]. done. Qed.

Record stands (s0 : St DB) (x : Ix) (s : St DB) : Prop := mkStands {
  sd_ctx : e_ctx (env s) = e_ctx (env s0);
  sd_dests : e_jumpDests (env s) = e_jumpDests (env s0);
  sd_parents : e_parents (env s) = e_parents (env s0);
  sd_depth : e_callDepth (env s) = ix_depth x;
  sd_active : e_activeAddresses (env s) = ix_active x;
  sd_counts : w_reentryCounts (world s) = ix_counts x;
  sd_used : used s0 + ix_gas x <= used s;
  sd_journal : ix_journal x `prefix_of` journal (db s);
  sd_supply : supply (view (db s)) <= supply (view (db s0));
  sd_view : ix_still x || read_only s0 = true -> view (db s) ≈ view (db s0);
  sd_stack : stack_len s <= ix_stack x
}.

(** What is known when the handler fails with an error: the frame is about to
    stop, but its caller goes on with the world. *)
Record failed (s0 : St DB) (d : Z) (c : gmap Address Z) (s : St DB) : Prop := mkFailed {
  fl_ctx : e_ctx (env s) = e_ctx (env s0);
  fl_depth : e_callDepth (env s) = d;
  fl_used : used s0 <= used s;
  fl_counts : w_reentryCounts (world s) = c;
  fl_db : dbP (read_only s0) (db s0) (db s)
}.

(** The index of the state a handler starts in. *)
Definition home (s0 : St DB) : Ix :=
  mkIx (e_callDepth (env s0)) (e_activeAddresses (env s0)) (w_reentryCounts (world s0)) 0
    (journal (db s0)) true (stack_len s0).

(** The index [x] says at least what [y] says. *)
Record ix_le (x y : Ix) : Prop := mkIxLe {
  le_depth : ix_depth x = ix_depth y;
  le_active : ix_active x = ix_active y;
  le_counts : ix_counts x = ix_counts y;
  le_gas : ix_gas y <= ix_gas x;
  le_journal : ix_journal y `prefix_of` ix_journal x;
  le_still : ix_still y = true -> ix_still x = true;
  le_stack : ix_stack x <= ix_stack y
}.

Lemma stands_home s0 : stands s0 (home s0) s0.
Proof. split; simpl; try done; lia. Qed.

Lemma stands_le s0 x y s : stands s0 x s -> ix_le x y -> stands s0 y s.
Proof.
  intros H L. destruct H, L. split; try congruence; try lia.
  - by etransitivity.
  - intros E. apply sd_view0. destruct (ix_still y); [by rewrite le_still0|].
    simpl in E. rewrite E. apply orb_true_r.
Qed.

Lemma stands_failed s0 x s :
  stands s0 x s -> journal (db s0) `prefix_of` ix_journal x -> 0 <= ix_gas x ->
  failed s0 (ix_depth x) (ix_counts x) s.
Proof.
  intros H J G. destruct H. split; try done; [lia|]. split; [by etransitivity|]. split; [done|].
  intros E. apply sd_view0. rewrite E. apply orb_true_r.
Qed.

Definition hoare {A} (P : St DB -> Prop) (m : M (St DB) A) (Q : A -> St DB -> Prop)
    (E : St DB -> Prop) : Prop :=
  forall s, Inv s -> P s ->
  Inv (m s).2 /\
  match (m s).1 with
  | Ok a => Q a (m s).2
  | Err _ => E (m s).2
  | Panic | NoFuel => False
  end.

(** ** Structural rules *)

Lemma h_bind {A B} P (m : M (St DB) A) R (f : A -> M (St DB) B) Q E :
  hoare P m R E -> (forall a, hoare (R a) (f a) Q E) -> hoare P (m ≫= f) Q E.
Proof.
  intros Hm Hf s HI HP. destruct (Hm s HI HP) as [HI' HR].
  unfold mbind, M_bind. destruct (m s) as [[a|e| |] s']; simpl in *; try done.
  by apply Hf.
Qed.

Lemma h_conseq {A} (P P' : St DB -> Prop) (m : M (St DB) A) Q Q' (E E' : St DB -> Prop) :
  hoare P' m Q' E' -> (forall s, P s -> P' s) -> (forall a s, Inv s -> Q' a s -> Q a s) ->
  (forall s, E' s -> E s) -> hoare P m Q E.
Proof.
  intros Hm HP HQ HE s HI Hs. destruct (Hm s HI (HP s Hs)) as [HI' HR]. split; [done|].
  destruct (m s).1; auto.
Qed.

Lemma h_ret {A} (P : St DB -> Prop) (a : A) (Q : A -> St DB -> Prop) E :
  (forall s, P s -> Q a s) -> hoare P (mret a) Q E.
Proof. intros H s HI HP. split; [done|]. simpl. auto. Qed.

Lemma h_throw {A} (P : St DB -> Prop) e (Q : A -> St DB -> Prop) (E : St DB -> Prop) :
  (forall s, P s -> E s) -> hoare P (throw e) Q E.
Proof. intros H s HI HP. split; [done|]. simpl. auto. Qed.

(** A pure fact in the precondition. *)
Lemma h_pure {A} (F : Prop) P (m : M (St DB) A) Q E :
  (F -> hoare P m Q E) -> hoare (fun s => F /\ P s) m Q E.
Proof. intros H s HI [HF HP]. by apply H. Qed.

Lemma h_gets {A} P (f : St DB -> A) E : hoare P (gets f) (fun a s => a = f s /\ P s) E.
Proof. intros s HI HP. split; [done|]. by split. Qed.

Lemma h_defer {A} P (f : St DB -> St DB) (m : M (St DB) A) (Q Q' : A -> St DB -> Prop) E E' :
  hoare P m Q' E' ->
  (forall a s, Inv s -> Q' a s -> Inv (f s) /\ Q a (f s)) ->
  (forall s, Inv s -> E' s -> Inv (f s) /\ E (f s)) ->
  hoare P (defer f m) Q E.
Proof.
  intros Hm HQ HE s HI HP. destruct (Hm s HI HP) as [HI' HR]. unfold defer.
  destruct (m s) as [[a|e| |] s']; simpl in *; try done.
  - by apply HQ.
  - by apply HE.
Qed.

(** ** Code that runs no frame *)

Lemma prim_stands st s0 x s s' k :
  prim st s s' -> stands s0 x s -> (ix_still x || read_only s0 = true -> st = true) ->
  stack_len s' <= stack_len s + k -> stands s0 (grown k x) s'.
Proof.
  intros HP HS Hst Hk. destruct HP as [? ? ? ? ? ? ? (J & SU & V)], HS. split; simpl; try congruence; try lia.
  intros E. etransitivity; [apply V; auto|auto].
Qed.

(** The conditions under which a failure in [x] is a failure of the handler. *)
Definition sound (s0 : St DB) (x : Ix) : Prop :=
  journal (db s0) `prefix_of` ix_journal x /\ 0 <= ix_gas x.

Lemma prim_failed st s0 x s s' :
  prim st s s' -> stands s0 x s -> (ix_still x || read_only s0 = true -> st = true) ->
  sound s0 x -> failed s0 (ix_depth x) (ix_counts x) s'.
Proof.
  intros HP HS Hst [J G]. apply (stands_failed s0 (grown (stack_len s' - stack_len s) x) s'); try done.
  eapply prim_stands; [done|done|done|lia].
Qed.

Lemma h_simple {A} s0 x (m : M (St DB) A) V k :
  simple true m V k -> sound s0 x ->
  hoare (stands s0 x) m (fun a s => V a /\ stands s0 (grown k x) s) (failed s0 (ix_depth x) (ix_counts x)).
Proof.
  intros Hm Hx s HI HS. destruct (Hm s HI) as (HP & HI' & HR). split; [done|].
  destruct (m s).1; try done.
  - destruct HR. split; [done|]. by eapply prim_stands.
  - by eapply prim_failed.
Qed.

(** Code that may write, in a frame that may. *)
Lemma h_write {A} s0 x (m : M (St DB) A) V k :
  simple false m V k -> read_only s0 = false -> sound s0 x ->
  hoare (stands s0 x) m (fun a s => V a /\ stands s0 (to_still false (grown k x)) s)
    (failed s0 (ix_depth x) (ix_counts x)).
Proof.
  intros Hm Hro Hx s HI HS. destruct (Hm s HI) as (HP & HI' & HR). split; [done|].
  assert (HS' : stands s0 (to_still false x) s) by (apply (stands_le s0 x); [done|by split]).
  assert (C : ix_still (to_still false x) || read_only s0 = true -> false = true)
    by (simpl; by rewrite Hro).
  destruct (m s).1; try done.
  - destruct HR. split; [done|]. by eapply (prim_stands false s0 (to_still false x)).
  - by eapply (prim_failed false s0 (to_still false x)).
Qed.

(** ** The parts of a call *)

Lemma errOf_run (m : M (St DB) unit) s :
  errOf m s = match m s with
              | (Ok _, s') => (Ok None, s')
              | (Err e, s') => (Ok (Some e), s')
              | (Panic, s') => (Panic, s')
              | (NoFuel, s') => (NoFuel, s')
              end.
Proof. unfold errOf, attempt, mbind, M_bind. by destruct (m s) as [[]]. Qed.

(** Setting gas aside for the callee. *)
Lemma h_setAside s0 x g E :
  is_u64 g -> sound s0 x ->
  hoare (stands s0 x) (errOf (consume g))
    (fun err => if isErr err then stands s0 x else stands s0 (to_gas (ix_gas x + g) x)) E.
Proof.
  intros Hg Hx s HI HS. pose proof (simple_consume true g Hg s HI) as (HP & HI' & HR).
  rewrite errOf_run. unfold consume, onGas, zoom in *.
  rewrite Consume_eq in * by (done || apply HI). destruct HS.
  repeat case_match; simpl in *; simplify_eq; try done; (split; [done|]); split; simpl in *;
    try done; destruct HP; simpl in *; lia.
Qed.

(** Returning unused gas to the caller. *)
Lemma h_giveBack s0 x a E :
  0 <= a <= ix_gas x -> hoare (stands s0 x) (onGas (Return a))
    (fun _ => stands s0 (to_gas (ix_gas x - a) x)) E.
Proof.
  intros Ha s HI HS. pose proof (inv_gas s HI) as Hg. unfold onGas, zoom.
  pose proof (meter_step_Return a ltac:(lia) (e_gas (env s))) as [HL HK].
  rewrite Return_eq in * by (done || lia). simpl in *. destruct HI. split.
  - split; simpl; try done. by apply HK.
  - destruct HS. destruct Hg as (_ & ? & _). split; simpl; try done. lia.
Qed.

(** A change of the frame outside what [stands] and [Inv] look at. *)
Lemma h_modE s0 x f :
  (forall e, e_stack (f e) = e_stack e /\ e_memory (f e) = e_memory e /\ e_gas (f e) = e_gas e /\
             e_ctx (f e) = e_ctx e /\ e_gasTable (f e) = e_gasTable e /\
             e_jumpDests (f e) = e_jumpDests e /\ e_parents (f e) = e_parents e /\
             e_callDepth (f e) = e_callDepth e /\ e_activeAddresses (f e) = e_activeAddresses e /\
             (0 <= e_pc e -> 0 <= e_pc (f e))) -> sound s0 x ->
  hoare (stands s0 x) (modE f) (fun _ => stands s0 x) (failed s0 (ix_depth x) (ix_counts x)).
Proof.
  intros Hf Hx. eapply h_conseq; [apply (h_simple s0 x); [by apply (simple_modE _ f 0)|done]|done| |done].
  intros [] s _ [_ H]. apply (stands_le _ _ _ _ H). split; simpl; done || lia.
Qed.

Lemma h_pushActive s0 x addr E :
  hoare (stands s0 x) (pushActive addr)
    (fun b : bool => stands s0 (if b then to_active (ix_active x ++ [addr]) x else x)) E.
Proof.
  intros s HI HS. unfold pushActive, getE, modE. rewrite bind_gets.
  unfold PushActiveAddress. rewrite (sd_active _ _ _ HS).
  destruct (MaxActiveCallDepth <=? len (ix_active x)); rewrite bind_modify; simpl.
  - destruct s. by split.
  - destruct HI, HS. split; split; done.
Qed.

Lemma h_truncActive s0 x n E :
  hoare (stands s0 x) (truncActive n) (fun _ => stands s0 (to_active (take n (ix_active x)) x)) E.
Proof.
  intros s HI HS. simpl. destruct HI, HS. split; [by split|]. split; simpl; try done. congruence.
Qed.

(** A snapshot taken inside a handler: its identifier, the snapshots below it
    and the view it saved. *)
Record saved (s0 : St DB) (x : Ix) (id : Z) (l : list View) (v : View) : Prop := mkSaved {
  sv_id : id = len l;
  sv_below : ix_journal x `prefix_of` l;
  sv_supply : supply v <= supply (view (db s0));
  sv_view : ix_still x || read_only s0 = true -> v ≈ view (db s0)
}.

Lemma h_snapshot s0 x E :
  hoare (stands s0 x) (callDB Snapshot)
    (fun id s => (id < 0 /\ stands s0 x s) \/
       (0 <= id /\ exists l v, saved s0 x id l v /\ stands s0 (to_journal (l ++ [v]) x) s)) E.
Proof.
  intros s HI HS. unfold callDB. pose proof (Snapshot_refused (db s)) as HR.
  pose proof (Snapshot_taken (db s)) as HT. destruct (Snapshot (db s)) as [id d]. simpl in *.
  destruct (Z.lt_ge_cases id 0) as [L|L].
  - destruct (HR L) as [V J]. pose proof (db_ok_same _ d J V (inv_db s HI)) as O.
    destruct HI, HS. split; [by split|]. left. split; [done|].
    split; simpl; try done; [by rewrite J|by rewrite V|]. intros E0. rewrite V. auto.
  - destruct (HT L) as (I & V & J). pose proof (inv_db s HI) as [O1 O2].
    assert (O : db_ok d).
    { split; [by rewrite V|]. rewrite J. apply Forall_app. split; [done|]. by apply Forall_singleton. }
    destruct HI. split; [by split|]. right. split; [done|].
    exists (journal (db s)), (view (db s)). destruct HS. split; [by split|].
    split; simpl; try done; [by rewrite J|by rewrite V|]. intros E0. rewrite V. auto.
Qed.

Lemma prefix_snoc_lookup (l j : list View) v :
  l ++ [v] `prefix_of` j -> j !! length l = Some v /\ take (length l) j = l /\ len l < len j.
Proof.
  intros [k ->]. rewrite <- app_assoc. simpl. split; [by rewrite list_lookup_middle|].
  split; [by rewrite take_app_length|]. unfold len. rewrite length_app. simpl. lia.
Qed.

Lemma len_to_nat {A} (l : list A) : Z.to_nat (len l) = length l.
Proof. unfold len. lia. Qed.

(** Reverting to the snapshot, and giving it up. *)
Lemma h_revert s0 x y id l v b E :
  saved s0 y id l v -> ix_journal x = l ++ [v] -> (b || read_only s0 = true -> v ≈ view (db s0)) ->
  hoare (stands s0 x) (modDB (RevertToSnapshot id))
    (fun _ => stands s0 (to_still b (to_journal l x))) E.
Proof.
  intros [-> _ SU _] J Hb s HI HS. simpl. pose proof (sd_journal _ _ _ HS) as P. rewrite J in P.
  destruct (prefix_snoc_lookup _ _ _ P) as (L & T & N).
  destruct (Revert_view (len l) v (db s)) as [V J']; [apply len_nonneg|by rewrite len_to_nat|].
  rewrite len_to_nat, T in J'. destruct (inv_db s HI) as [O1 O2].
  assert (O : db_ok (RevertToSnapshot (len l) (db s))).
  { split; [rewrite V|rewrite J', <- T; by apply Forall_take].
    rewrite Forall_lookup in O2. by apply (O2 (length l)). }
  destruct HI, HS. split; [by split|]. split; simpl; try done; [by rewrite J'|by rewrite V|].
  intros E0. rewrite V. auto.
Qed.

Lemma h_release s0 x y id l v E :
  saved s0 y id l v -> ix_journal x = l ++ [v] ->
  hoare (stands s0 x) (modDB (releaseFrame id)) (fun _ => stands s0 (to_journal l x)) E.
Proof.
  intros [-> _ _ _] J s HI HS. simpl. pose proof (sd_journal _ _ _ HS) as P. rewrite J in P.
  destruct (prefix_snoc_lookup _ _ _ P) as (L & T & N). pose proof (len_nonneg l).
  assert (R : view (releaseFrame (len l) (db s)) ≈ view (db s) /\
              l `prefix_of` journal (releaseFrame (len l) (db s)) /\
              db_ok (releaseFrame (len l) (db s))).
  { unfold releaseFrame. destruct (Z.ltb_spec (len l) 0); [lia|].
    destruct ReleaseSnapshot as [release|] eqn:ER.
    - destruct (Release_view release (len l) (db s) ER (conj H N)) as [V J'].
      rewrite len_to_nat, T in J'. split; [done|]. rewrite J'. split; [done|].
      destruct (inv_db s HI) as [O1 O2]. split; [by rewrite V|]. rewrite J', <- T. by apply Forall_take.
    - split; [done|]. split; [by eapply prefix_app_l|]. apply (inv_db s HI). }
  destruct R as (V & J' & O). destruct HI, HS. split; [by split|].
  split; simpl; try done; [by rewrite V|]. intros E0. rewrite V. auto.
Qed.
End callframe.
