(* ===== verification/CallRules.v ===== *)
(** * Rules for the blocks the call instructions share

    Value transfers, precompiled contracts, the callee's frame, the depth
    counter, the reentrancy guard, and what a call does with its result. The
    rules are proved against what the callee promises ([exec_ok]); file Safety
    discharges it by induction on the fuel. *)

From Stdlib Require Import ZArith Lia.
From Stdlib.Strings Require Import Byte.
From stdpp Require Import base list countable gmap strings numbers.
From S2P Require Import Prelude Stack Memory Gas Opcodes StateDB Env OpsArith OpsState Bytecode Calls Interp Frame FrameOps CallFrame.

Section rules.
Context {DB : Type} `{!StateDB DB} `{!StateDBLaws DB} (i : Interpreter DB).
Implicit Types s : St DB.
Local Abbreviation db s := (w_db (world s)).
Local Abbreviation read_only s := (ctx_ReadOnly (e_ctx (env s))).
Local Abbreviation ok st m k := (simple (DB:=DB) st m (fun _ => True) k).

(** ** The success flag *)

(** A word other than zero on top of the stack. *)
Definition nz_top (s : St DB) : Prop := forall l, e_stack (env s) <> of_top (zero_array 32 :: l).

(** A zero on top of the stack means the accounts are as they were. *)
Definition flag_ok (s0 s : St DB) : Prop :=
  forall l, e_stack (env s) = of_top (zero_array 32 :: l) -> view (db s) ≈ view (db s0).

Definition returned (s0 : St DB) (x : Ix) (s : St DB) : Prop := stands s0 x s /\ flag_ok s0 s.

Lemma of_top_inj l l' : of_top l = of_top l' -> l = l'.
Proof.
  unfold of_top. intros [= H]. by rewrite <- (reverse_involutive l), <- (reverse_involutive l'), H.
Qed.

Lemma push_top w s s' : push w s = (Ok tt, s') -> exists l, e_stack (env s') = of_top (w :: l).
Proof.
  unfold push, onStack, zoom. destruct (of_top_surj (e_stack (env s))) as [l ->].
  rewrite Push_of_top. destruct (MaxStackSize <=? len l); [done|]. intros [= <-]. by exists l.
Qed.

Lemma pushU_nz v s s' :
  pushU v s = (Ok tt, s') -> NewWordFromUint64 v <> zero_array 32 -> nz_top s'.
Proof.
  intros H N l E. destruct (push_top _ _ _ H) as [l' E']. rewrite E' in E.
  apply of_top_inj in E. destruct N. congruence.
Qed.

Lemma nz_flag s0 s : nz_top s -> flag_ok s0 s.
Proof. intros H l E. by destruct (H l). Qed.

Lemma one_not_zero : NewWordFromUint64 1 <> zero_array 32.
Proof. intros E. apply (f_equal array_to_Z) in E. vm_compute in E. done. Qed.

(** Pushing zero where nothing changed. *)
Lemma h_push0 s0 x :
  ix_still x = true -> sound s0 x ->
  hoare (stands s0 x) (pushU 0) (fun _ => returned s0 (grown 1 x)) (failed s0 (ix_depth x) (ix_counts x)).
Proof.
  intros Hs Hx. eapply h_conseq; [apply (h_simple s0 x), Hx; apply simple_pushU|done| |done].
  intros [] s _ [_ H]. split; [done|]. intros l _. apply (sd_view _ _ _ H). simpl. by rewrite Hs.
Qed.

Lemma h_push1 s0 x :
  sound s0 x ->
  hoare (stands s0 x) (pushU 1) (fun _ => returned s0 (grown 1 x)) (failed s0 (ix_depth x) (ix_counts x)).
Proof.
  intros Hx s HI HS. pose proof (h_simple s0 x _ _ _ (simple_pushU true 1) Hx s HI HS) as [HI' HR].
  split; [done|]. destruct (pushU 1 s) as [[[]|e| |] s'] eqn:E; simpl in *; try done.
  split; [apply HR|]. eapply nz_flag, pushU_nz; [done|]. apply one_not_zero.
Qed.

Lemma errOf_pushU_ok st v : ok st (errOf (pushU v)) 1.
Proof.
  eapply simple_bind with (k1 := 1) (V := fun _ => True); [|intros; by apply simple_ret].
  eapply simple_weaken; [apply (simple_attempt _ _ (fun _ => True)); [apply simple_pushU|lia|]|done|lia].
  intros s HI. unfold pushU, onStack, zoom, PushUint64.
  destruct (of_top_surj (e_stack (env s))) as [l El]. rewrite El, Push_of_top.
  destruct (MaxStackSize <=? len l); simpl; [|done]. unfold stack_len. simpl. rewrite El. lia.
Qed.

Lemma h_errOf_push1 s0 x E :
  sound s0 x ->
  hoare (stands s0 x) (errOf (pushU 1))
    (fun err s => stands s0 (grown 1 x) s /\ (err = None -> nz_top s)) E.
Proof.
  intros Hx s HI HS. destruct (errOf_pushU_ok true 1 s HI) as (HP & HI' & HR). split; [done|].
  rewrite errOf_run in *. destruct (pushU 1 s) as [[[]|e| |] s'] eqn:EP; simpl in *; try done.
  - destruct HR. split; [by eapply prim_stands|]. intros _. eapply pushU_nz; [done|apply one_not_zero].
  - destruct HR. split; [by eapply prim_stands|done].
Qed.

(** ** Copying the output *)

Lemma copyOut_ok st o n data : is_u64 o -> is_u64 n -> ok st (copyOut o n data) 0.
Proof. intros. unfold copyOut. pose proof (len_nonneg data). frame. Qed.

Lemma onMemory_stack {A} (m : M Memory A) s : stack_len (onMemory m s).2 = stack_len s.
Proof. unfold onMemory, zoom, stack_len. by destruct (m (e_memory (env s))). Qed.

Lemma copyOut_stack o n data s : stack_len (copyOut o n data s).2 = stack_len s.
Proof.
  unfold copyOut. case_match; [|done]. unfold mbind, M_bind, or_panic.
  destruct (slice data 0 _); [|done]. simpl. apply onMemory_stack.
Qed.

Lemma errOf_copyOut_ok st o n data : is_u64 o -> is_u64 n -> ok st (errOf (copyOut o n data)) 0.
Proof.
  intros. eapply simple_bind with (k1 := 0) (V := fun _ => True); [|intros; by apply simple_ret].
  eapply simple_weaken; [apply (simple_attempt _ _ (fun _ => True)); [by apply copyOut_ok|lia|]|done|lia].
  intros s HI. rewrite copyOut_stack. case_match; done || lia.
Qed.

(** ** Transfers *)

Lemma h_transfer s0 x from to v E :
  read_only s0 = false -> ix_still x = true -> 0 <= v <= balance_of (view (db s0)) from ->
  hoare (stands s0 x) (transfer from to v) (fun _ => stands s0 (to_still false x)) E.
Proof.
  intros Hro Hst Hv s HI HS.
  assert (V0 : view (db s) ≈ view (db s0)) by (apply (sd_view _ _ _ HS); by rewrite Hst).
  pose proof (view_GetBalance from (db s)) as V. pose proof (GetBalance_view from (db s)) as B.
  pose proof (journal_GetBalance from (db s)) as J.
  set (d1 := (GetBalance from (db s)).2). set (b := (GetBalance from (db s)).1) in *.
  assert (ER : transfer from to v s =
    (Ok tt, mkSt (env s) (set_w_db (moved from to b v d1) (world s)))).
  { unfold transfer, mbind, M_bind, callDB, modDB, modW, modify, moved, d1, b.
    destruct (GetBalance from (db s)) as [y d]. simpl.
    by destruct (GetBalance to (SetBalance from (y - v) d)). }
  rewrite ER. simpl.
  destruct (moved_ok from to b v d1) as (J1 & S1 & O1).
  { by apply (db_ok_same (db s)), HI. }
  { unfold d1. by rewrite V. }
  { rewrite B, V0. done. }
  destruct HI, HS. split; [by split|]. split; simpl; try done.
  - rewrite J1. unfold d1. by rewrite J.
  - rewrite S1. unfold d1. by rewrite V.
  - by rewrite Hro.
Qed.

(** ** The callee's frame *)

(** What the database and the counters are after another frame ran. *)
Definition worldP (st : bool) (w w' : World DB) : Prop :=
  w_reentryCounts w' = w_reentryCounts w /\ dbP st (w_db w) (w_db w') /\ db_ok (w_db w').

(** A context a frame can run in. *)
Record ctx_ok (c : ExecutionContext) : Prop := mkCtxOk {
  co_gas : is_u64 (ctx_Gas c);
  co_code : len (ctx_Code c) < 2 ^ 63;
  co_depth : 0 <= ctx_Depth c < MaxCallDepth
}.

(** The contract of the callee, for contexts with at most [G] gas. *)
Definition exec_ok (G : Z) (execute : ExecutionContext -> M (World DB) ExecutionResult) : Prop :=
  forall c w, ctx_ok c -> is_Some (ctx_ParentEnv c) -> ctx_Gas c <= G ->
  counts_ok (w_reentryCounts w) -> db_ok (w_db w) ->
  exists r w', execute c w = (Ok r, w') /\ worldP (ctx_ReadOnly c) w w' /\
    0 <= GasUsed r <= ctx_Gas c.

Lemma h_onWorld {A} s0 x st (m : M (World DB) A) (V : A -> Prop) E :
  (read_only s0 = true -> st = true) ->
  (forall s, Inv s -> stands s0 x s ->
     exists a w', m (world s) = (Ok a, w') /\ worldP st (world s) w' /\ V a) ->
  hoare (stands s0 x) (onWorld m)
    (fun a s => V a /\ stands s0 (to_still (ix_still x && st) x) s) E.
Proof.
  intros Hro Hm s HI HS. destruct (Hm s HI HS) as (a & w' & EM & (C & D & O) & HV).
  unfold onWorld, zoom. rewrite EM. simpl. destruct HI. split; [split; simpl; try done; by rewrite C|].
  split; [done|]. destruct HS, D as (J & SU & VW). split; simpl; try done; try congruence.
  - by etransitivity.
  - lia.
  - intros H. etransitivity; [apply VW|apply sd_view].
    + destruct st; [done|]. rewrite andb_false_r in H. simpl in H. by apply Hro.
    + destruct (ix_still x); [done|]. done.
Qed.

(** ** Tactics *)

Lemma sound_same s0 x y :
  sound s0 x -> ix_journal y = ix_journal x -> 0 <= ix_gas y -> sound s0 y.
Proof. intros [H _] E G. split; [by rewrite E|done]. Qed.
End rules.

#[export] Hint Resolve errOf_pushU_ok : frame.
#[export] Hint Extern 1 (simple _ (errOf (copyOut _ _ _)) _ _) =>
  apply errOf_copyOut_ok; side : frame.

Ltac sound_side :=
  first [ assumption
        | match goal with
          | H : sound ?s0 ?x |- sound ?s0 _ =>
              apply (sound_same s0 x); [exact H|reflexivity|destruct H; simpl in *; lia]
          end ].

(** A step that runs no frame, in the middle of a handler. *)
Ltac h_prim :=
  cbv beta;
  lazymatch goal with
  | |- hoare (stands ?s0 ?x) _ _ _ =>
      eapply h_bind;
      [ eapply (h_simple s0 x); [solve [frame_prim] | sound_side]
      | intros ?; apply h_pure; intros ? ]
  end.

(** The index of the goal, computed. *)
Ltac ix_norm :=
  cbv beta;
  lazymatch goal with
  | |- hoare (stands ?s0 ?x) ?m ?Q ?E =>
      let y := eval cbn [grown to_depth to_active to_counts to_gas to_journal to_still ix_depth
        ix_active ix_counts ix_gas ix_journal ix_still ix_stack home] in x in
      change (hoare (stands s0 y) m Q E)
  end.

(** The comparison of two indices. *)
Ltac ix_side :=
  split; simpl in *; try reflexivity; try done; try lia; 
  try (by rewrite ?take_take, ?Nat.min_id, ?take_app_length, ?firstn_all).

Section rules2.
Context {DB : Type} `{!StateDB DB} `{!StateDBLaws DB} (i : Interpreter DB).
Implicit Types s : St DB.
Local Abbreviation db s := (w_db (world s)).
Local Abbreviation read_only s := (ctx_ReadOnly (e_ctx (env s))).

(** ** Precompiled contracts *)

(** What a registered contract promises: its gas price fits the meter, it keeps
    the snapshots of its caller, mints nothing, and leaves the accounts alone
    unless it declares itself stateful. *)
Record contract_ok (c : PrecompiledContract DB) : Prop := mkContractOk {
  pc_gas : forall input, is_u64 (RequiredGas c input);
  pc_total : forall ctx input d, (runContract c ctx input d).1 <> NoFuel;
  pc_db : forall ctx input d, db_ok d -> db_ok (runContract c ctx input d).2;
  pc_step : forall ctx input d,
    db_ok d -> dbP (negb (IsStateful c)) d (runContract c ctx input d).2
}.

Definition registry_ok : Prop :=
  forall reg a c, i_precompiled i = Some reg -> reg !! a = Some c -> contract_ok c.

Lemma RunWithContextV2_ok reg a c ctx input g (d : DB) :
  reg !! a = Some c -> contract_ok c -> is_u64 g -> db_ok d ->
  exists o u e d', RunWithContextV2 reg ctx a input g d = (Ok (o, u, e), d') /\
    is_u64 u /\ db_ok d' /\ dbP (negb (IsStateful c)) d d'.
Proof.
  intros R C Hg Hd. unfold RunWithContextV2. rewrite R.
  destruct (Z.ltb_spec g (RequiredGas c input)).
  { by exists [], g, (Some ErrOutOfGas), d. }
  pose proof (pc_gas c C input). pose proof (pc_total c C ctx input d).
  pose proof (pc_db c C ctx input d Hd). pose proof (pc_step c C ctx input d Hd).
  destruct (runContract c ctx input d) as [[] d']; simpl in *; try done; by do 4 eexists.
Qed.

Lemma onDB_onWorld {A} (m : M DB A) : onDB m = onWorld (zoom w_db set_w_db m).
Proof. done. Qed.

Lemma h_executePrecompiled s0 x addr input g o n static :
  registry_ok -> is_u64 g -> is_u64 o -> is_u64 n -> ix_gas x = g ->
  (read_only s0 = true -> static = true) -> sound s0 x ->
  hoare (stands s0 x) (executePrecompiled i addr input g o n static)
    (fun r s => if r.1.1 : bool
                then stands s0 (to_gas 0 (to_still (ix_still x && static) (grown 1 x))) s /\
                     (r.1.2 = true -> r.2 = None -> nz_top s)
                else stands s0 x s)
    (failed s0 (ix_depth x) (ix_counts x)).
Proof.
  intros HR Hg Ho Hn Hx Hst Hs. unfold executePrecompiled.
  destruct (i_precompiled i) as [reg|] eqn:EI; [|by apply h_ret].
  destruct (reg !! addr) as [c|] eqn:EC; [|by apply h_ret]. specialize (HR reg addr c EI EC).
  unfold is_u64 in Hg.
  destruct (static && IsStateful c) eqn:EB.
  - eapply h_bind; [apply h_giveBack; lia|]. intros []. h_prim. h_prim.
    apply h_ret. intros s HS. simpl. split; [|done]. apply (stands_le _ _ _ _ HS). ix_side.
    by intros [-> _]%andb_true_iff.
  - h_prim. rename a into ctx. rewrite onDB_onWorld.
    eapply h_bind.
    { eapply (h_onWorld s0 (grown 0 x) static _ (fun r => is_u64 r.1.2)); [done|].
      intros s HI HS. destruct (RunWithContextV2_ok reg addr c
        (mkPrecompileContext (ctx_Caller ctx) (ctx_Origin ctx)
          (if 0 <? ctx_Timestamp ctx then ctx_Timestamp ctx else 0) (ctx_ChainID ctx)
          (ctx_Value ctx) static) input g (db s) EC HR Hg (inv_db s HI))
        as (out & u & e & d' & ER & Hu & Hd & HD).
      unfold zoom. rewrite ER. eexists _, _. split; [reflexivity|]. split; [|done].
      split; [done|]. split; [|done]. simpl. destruct HD as (J & SU & V). split; [done|].
      split; [done|]. intros E. apply V. rewrite E in EB. simpl in EB. by rewrite EB. }
    intros [[out u] e]. apply h_pure. simpl. intros Hu. unfold is_u64 in Hu.
    eapply h_bind with (R := fun _ => stands s0 (to_gas 0 (to_still (ix_still x && static) x))).
    { destruct (Z.ltb_spec u g).
      - eapply h_conseq; [apply (h_giveBack s0 (to_still (ix_still x && static) (grown 0 x)) (g - u)); simpl; lia
          |done| |done].
        intros [] s _ H1. apply (stands_le _ _ _ _ H1). ix_side.
      - apply h_ret. intros s H1. apply (stands_le _ _ _ _ H1). ix_side. }
    intros []. destruct e as [e|].
    + h_prim. h_prim. apply h_ret. intros s HS. simpl. split; [|done].
      apply (stands_le _ _ _ _ HS). ix_side.
    + h_prim. h_prim. destruct a0 as [e|].
      * apply h_ret. intros s HS. simpl. split; [|done]. apply (stands_le _ _ _ _ HS). ix_side.
      * eapply h_bind; [apply h_errOf_push1; sound_side|]. intros err. apply h_ret.
        intros s [HS HF]. simpl. split; [|done]. apply (stands_le _ _ _ _ HS). ix_side.
Qed.

(** ** The depth counter *)

(** A final state of the handler, seen from outside a block that moved part of
    the index. *)
Lemma returned_with s0 y y' s s' :
  returned s0 y s -> e_stack (env s') = e_stack (env s) -> db s' = db s ->
  (stands s0 y s -> stands s0 y' s') -> returned s0 y' s'.
Proof.
  intros [HS HF] E1 E2 K. split; [auto|]. unfold flag_ok. rewrite E1, E2. exact HF.
Qed.

(** A block inside [env.callDepth++]: the postcondition is restored with the
    counter. *)
Lemma h_enterDepth s0 x (limited m : M (St DB) unit) (Q Q' : St DB -> Prop) :
  0 <= ix_depth x < MaxCallDepth ->
  (forall s, Q' s -> e_callDepth (env s) = ix_depth x + 1 /\
                     Q (mkSt (set_e_callDepth (ix_depth x) (env s)) (world s))) ->
  hoare (stands s0 (to_depth (ix_depth x + 1) x)) limited
    (fun _ => Q') (failed s0 (ix_depth x + 1) (ix_counts x)) ->
  (ix_depth x + 1 < MaxCallDepth ->
   hoare (stands s0 (to_depth (ix_depth x + 1) x)) m
    (fun _ => Q') (failed s0 (ix_depth x + 1) (ix_counts x))) ->
  hoare (stands s0 x) (enterCall limited m) (fun _ => Q) (failed s0 (ix_depth x) (ix_counts x)).
Proof.
  unfold MaxCallDepth. intros Hd HQ Hl Hm. unfold enterCall.
  apply h_bind with (R := fun _ => stands s0 (to_depth (ix_depth x + 1) x)).
  - intros s HI HS. assert (EU : u64 (e_callDepth (env s) + 1) = ix_depth x + 1).
    { rewrite (sd_depth _ _ _ HS). apply u64_small. unfold is_u64. lia. }
    simpl. destruct HI, HS. split; split; simpl; try done; rewrite EU; unfold MaxCallDepth; lia.
  - intros _. assert (EU : u64 (ix_depth x + 1 - 1) = ix_depth x).
    { unfold u64. rewrite Z.mod_small; lia. }
    eapply h_defer with (Q' := fun _ => Q') (E' := failed s0 (ix_depth x + 1) (ix_counts x)).
    + intros s HI HS. unfold getE. rewrite bind_gets, (sd_depth _ _ _ HS). simpl.
      unfold MaxCallDepth in *. destruct (Z.leb_spec 1024 (ix_depth x + 1)); [by apply Hl|by apply Hm].
    + intros a s HI HR. destruct (HQ s HR) as [ED HQ']. rewrite ED, EU. split; [|done].
      destruct HI. split; try done. simpl. unfold MaxCallDepth. lia.
    + intros s HI HF. rewrite (fl_depth _ _ _ _ HF), EU. destruct HF. split; [|by split].
      destruct HI. split; try done. simpl. unfold MaxCallDepth. lia.
Qed.

Lemma h_enterCall s0 x y (limited m : M (St DB) unit) :
  0 <= ix_depth x < MaxCallDepth -> ix_depth y = ix_depth x ->
  hoare (stands s0 (to_depth (ix_depth x + 1) x)) limited
    (fun _ => returned s0 (to_depth (ix_depth x + 1) y)) (failed s0 (ix_depth x + 1) (ix_counts x)) ->
  (ix_depth x + 1 < MaxCallDepth ->
   hoare (stands s0 (to_depth (ix_depth x + 1) x)) m
    (fun _ => returned s0 (to_depth (ix_depth x + 1) y)) (failed s0 (ix_depth x + 1) (ix_counts x))) ->
  hoare (stands s0 x) (enterCall limited m) (fun _ => returned s0 y) (failed s0 (ix_depth x) (ix_counts x)).
Proof.
  intros Hd Hy Hl Hm. eapply h_enterDepth; [done| |exact Hl|exact Hm].
  intros s HS. split; [apply HS|]. eapply returned_with; [exact HS|done|done|]. intros []. by split.
Qed.

(** ** The reentrancy guard *)

(** The deferred decrement. *)
Lemma h_restoreCounts s0 x y guarded counts (m : M (St DB) unit) :
  counts_ok (ix_counts x) -> DecrementReentryCount guarded counts = ix_counts x ->
  ix_counts y = ix_counts x ->
  hoare (stands s0 (to_counts counts x)) m (fun _ => returned s0 (to_counts counts y))
    (failed s0 (ix_depth x) counts) ->
  hoare (stands s0 (to_counts counts x))
    (defer (fun s => mkSt (env s) (set_w_reentryCounts
       (DecrementReentryCount guarded (w_reentryCounts (world s))) (world s))) m)
    (fun _ => returned s0 y) (failed s0 (ix_depth x) (ix_counts x)).
Proof.
  intros C U Hc Hm. eapply h_defer; [exact Hm| |].
  - intros a s HI HR. assert (EC : w_reentryCounts (world s) = counts) by apply HR.
    rewrite EC, U. split; [destruct HI; by split|].
    eapply returned_with; [exact HR|done|done|]. intros []. by split.
  - intros s HI HF. rewrite (fl_counts _ _ _ _ HF), U.
    destruct HI, HF. split; by split.
Qed.

(** Answering zero before anything happened. *)
Lemma h_refuse s0 x y :
  ix_still x = true -> sound s0 x -> ix_le (grown 1 x) y ->
  hoare (stands s0 x) (pushU 0) (fun _ => returned s0 y) (failed s0 (ix_depth x) (ix_counts x)).
Proof.
  intros H1 H2 H3. eapply h_conseq; [by apply (h_push0 s0 x)|done| |done].
  intros a s _ [HS HF]. split; [|done]. by apply (stands_le _ _ _ _ HS).
Qed.

Lemma h_accept s0 x y :
  sound s0 x -> ix_le (grown 1 x) y ->
  hoare (stands s0 x) (pushU 1) (fun _ => returned s0 y) (failed s0 (ix_depth x) (ix_counts x)).
Proof.
  intros H2 H3. eapply h_conseq; [by apply (h_push1 s0 x)|done| |done].
  intros a s _ [HS HF]. split; [|done]. by apply (stands_le _ _ _ _ HS).
Qed.

Lemma h_giveUp {A} s0 x e (Q : A -> St DB -> Prop) :
  sound s0 x -> hoare (stands s0 x) (throw e) Q (failed s0 (ix_depth x) (ix_counts x)).
Proof. intros [J G]. apply h_throw. intros s HS. by apply stands_failed. Qed.

Lemma to_counts_le x y c : ix_le x y -> ix_le (to_counts c x) (to_counts c y).
Proof. intros []. by split. Qed.

Lemma h_reentryGuard s0 x y target guarded available (k : Z -> Z -> M (St DB) unit) :
  is_u64 available -> ix_still x = true -> sound s0 x -> ix_le (grown 1 x) y ->
  (forall c gg av, (gg = 0 \/ gg = 2300) -> is_u64 av ->
     hoare (stands s0 (to_counts c x)) (k gg av) (fun _ => returned s0 (to_counts c y))
       (failed s0 (ix_depth x) c)) ->
  hoare (stands s0 x) (withReentryGuard target guarded available k)
    (fun _ => returned s0 y) (failed s0 (ix_depth x) (ix_counts x)).
Proof.
  intros Ha Hst Hx Hle Hk s HI HS. assert (Hc : ix_counts y = ix_counts x) by (by destruct Hle).
  assert (EC : counts_ok (ix_counts x)) by (rewrite <- (sd_counts _ _ _ HS); apply HI).
  unfold withReentryGuard, getDB, getE, getW. rewrite !bind_gets. destruct (_ && _ && _).
  2: { pose proof (Hk (ix_counts x) 0 available (or_introl eq_refl) Ha) as H.
       destruct x, y. simpl in *. subst. by apply H. }
  rewrite bind_gets. destruct (IncrementReentryCount guarded (w_reentryCounts (world s)))
    as [ok counts] eqn:EI. rewrite (sd_counts _ _ _ HS) in EI. unfold modW. rewrite bind_modify.
  destruct ok; simpl negb; cbv iota.
  - destruct (reentry_undo guarded (ix_counts x) counts EC EI) as [U C].
    apply (h_restoreCounts s0 x y guarded counts _ EC U Hc).
    + destruct (Z.ltb_spec available 2300).
      * apply (h_refuse s0 (to_counts counts x)); [done|sound_side|].
        by apply (to_counts_le (grown 1 x)).
      * apply Hk; [by right|]. unfold is_u64 in *. lia.
    + destruct HI; by split.
    + destruct HS; by split.
  - unfold IncrementReentryCount in EI. case_match; [|done]. injection EI as <-.
    rewrite <- (sd_counts _ _ _ HS). replace (mkSt _ _) with s by (by destruct s as [? []]).
    rewrite (sd_counts _ _ _ HS). by apply (h_refuse s0 x).
Qed.
End rules2.

(** The answers, and giving up with an error. *)
Ltac answer0 :=
  cbv beta;
  lazymatch goal with
  | |- hoare (stands ?s0 ?x) _ _ _ => apply (h_refuse s0 x); [try done|sound_side|ix_side]
  end.
Ltac answer1 :=
  cbv beta;
  lazymatch goal with
  | |- hoare (stands ?s0 ?x) _ _ _ => apply (h_accept s0 x); [sound_side|ix_side]
  end.
Ltac abandon_call :=
  cbv beta;
  lazymatch goal with
  | |- hoare (stands ?s0 ?x) (throw _) _ _ =>
      apply (h_giveUp s0 x); sound_side
  end.
Ltac h_trunc := eapply h_bind; [apply h_truncActive|intros []; cbv beta].
