(* ===== verification/CallOps.v ===== *)
(** * The call instructions

    CALL, CALLCODE, DELEGATECALL, STATICCALL and AUTHCALL restore the call
    depth, the active addresses, the reentry counters and the snapshots below
    their own, never give gas back that was not set aside, mint nothing, leave
    the accounts alone in a read-only frame, and leave them alone whenever
    they answer zero. *)

From Stdlib Require Import ZArith Lia.
From Stdlib.Strings Require Import Byte.
From stdpp Require Import base list countable gmap strings numbers.
From S2P Require Import Prelude Stack Memory Gas Opcodes StateDB Env OpsArith OpsState Bytecode Calls Interp Frame FrameOps CallFrame CallRules.

Section calls.
Context {DB : Type} `{!StateDB DB} `{!StateDBLaws DB} (i : Interpreter DB).
Context (execute : ExecutionContext -> M (World DB) ExecutionResult).
Implicit Types s : St DB.
Local Abbreviation db s := (w_db (world s)).
Local Abbreviation used s := (gm_used (e_gas (env s))).
Local Abbreviation read_only s := (ctx_ReadOnly (e_ctx (env s))).
Local Abbreviation ok st m k := (simple (DB:=DB) st m (fun _ => True) k).

(** ** After the callee returned *)

(** A handler that has taken its snapshot and set the callee's gas aside. *)
Record entered (s0 : St DB) (x : Ix) (act : list Address) (id : Z) (l : list View) (v : View)
    : Prop := mkEntered {
  en_active : take (length act) (ix_active x) = act;
  en_saved : id = len l /\ supply v <= supply (view (db s0));
  en_view : v ≈ view (db s0);
  en_journal : ix_journal x = l ++ [v];
  en_base : journal (db s0) `prefix_of` l;
  en_gas : 0 <= ix_gas x
}.

(** The index once the snapshot is given up. *)
Definition left_ (act : list Address) (l : list View) (x : Ix) : Ix :=
  to_still false (to_active act (to_journal l (to_gas 0 x))).

Lemma entered_sound s0 x act id l v : entered s0 x act id l v -> sound s0 x.
Proof.
  intros []. split; [|done]. rewrite en_journal0. by apply prefix_app_r.
Qed.

Lemma entered_saved s0 x y act id l v :
  entered s0 x act id l v -> ix_journal y `prefix_of` l -> saved s0 y id l v.
Proof. intros [? [-> ?] ? ? ? ?]. by split. Qed.

(** Undoing the callee's writes. *)
Lemma h_undo s0 x y act id l v E :
  entered s0 y act id l v -> ix_journal x = l ++ [v] ->
  hoare (stands s0 x) (modDB (RevertToSnapshot id))
    (fun _ => stands s0 (to_still true (to_journal l x))) E.
Proof.
  intros HE HJ. apply (h_revert s0 x (to_journal l x) id l v true); [|done|intros; apply HE].
  by eapply entered_saved.
Qed.

Lemma h_keep s0 x y act id l v E :
  entered s0 y act id l v -> ix_journal x = l ++ [v] ->
  hoare (stands s0 x) (modDB (releaseFrame id)) (fun _ => stands s0 (to_journal l x)) E.
Proof. intros HE HJ. apply (h_release s0 x (to_journal l x) id l v); [|done]. by eapply entered_saved. Qed.

(** The rest of the callee's gas goes back. *)
Lemma h_giveRest s0 x g u E :
  ix_gas x = g -> 0 <= u <= g ->
  hoare (stands s0 x) (if u <? g then onGas (Return (g - u)) else mret tt)
    (fun _ => stands s0 (to_gas 0 x)) E.
Proof.
  intros Hg Hr. destruct (Z.ltb_spec u g).
  - eapply h_conseq; [apply (h_giveBack s0 x); lia|done| |done].
    intros a s _ HS. apply (stands_le _ _ _ _ HS). ix_side.
  - apply h_ret. intros s HS. apply (stands_le _ _ _ _ HS). ix_side.
Qed.

Lemma h_finishCall s0 x act id l v a callGas r :
  entered s0 x act id l v -> ix_gas x = callGas -> 0 <= GasUsed r <= callGas ->
  is_u64 (ca_outOffset a) -> is_u64 (ca_outSize a) ->
  hoare (stands s0 x) (finishCall a callGas (length act) id r)
    (fun _ => returned s0 (left_ act l (grown 1 x))) (failed s0 (ix_depth x) (ix_counts x)).
Proof.
  intros HE Hg Hr Ho Hn. pose proof (entered_sound _ _ _ _ _ _ HE) as Hx.
  pose proof (en_journal _ _ _ _ _ _ HE) as HJ. pose proof (en_active _ _ _ _ _ _ HE) as HA.
  assert (Hx' : sound s0 (to_journal l x)) by (split; [apply HE|apply HE]).
  unfold finishCall. eapply h_bind; [by apply h_giveRest|]. intros [].
  destruct (isErr (ResErr r) && negb (Reverted r)) eqn:EB.
  - h_trunc. eapply h_bind; [by eapply h_undo|]. intros []. h_prim. answer0.
  - destruct (Reverted r) eqn:ER; simpl negb; cbv iota.
    + eapply h_bind.
      { h_trunc. by eapply h_undo. }
      intros []. h_prim. h_prim. h_prim. destruct a2 as [e|].
      * h_trunc. abandon_call.
      * h_prim. h_trunc. destruct (isErr (ResErr r)); [answer0|answer1].
    + rewrite andb_true_r in EB. rewrite EB. h_prim.
      eapply h_bind; [by eapply h_keep|]. intros [].
      h_prim. h_prim. destruct a2 as [e|].
      * h_trunc. abandon_call.
      * h_prim. h_trunc. answer1.
Qed.

(** ** Values read inside a handler *)

Lemma h_getCtx {A} s0 x (f : ExecutionContext -> A) E :
  hoare (stands s0 x) (getCtx f) (fun a s => a = f (e_ctx (env s0)) /\ stands s0 x s) E.
Proof. intros s HI HS. split; [done|]. simpl. by rewrite (sd_ctx _ _ _ HS). Qed.

Lemma h_getActive s0 x E :
  hoare (stands s0 x) (getE (fun e => length (e_activeAddresses e)))
    (fun n s => n = length (ix_active x) /\ stands s0 x s) E.
Proof. intros s HI HS. split; [done|]. simpl. by rewrite (sd_active _ _ _ HS). Qed.

Lemma h_getEnv s0 x E :
  hoare (stands s0 x) (getE id)
    (fun e s => (e_ctx e = e_ctx (env s0) /\ e_callDepth e = ix_depth x) /\ stands s0 x s) E.
Proof.
  intros s HI HS. split; [done|]. simpl.
  by rewrite (sd_ctx _ _ _ HS), (sd_depth _ _ _ HS).
Qed.

Lemma simple_GetCode st a :
  simple st (getDB (GetCode (DB:=DB) a)) (fun c => len c < 2 ^ 63) 0.
Proof.
  apply simple_gets; [|lia]. intros s HI. rewrite GetCode_view.
  destruct (inv_db s HI) as [H _]. apply (H a).
Qed.

Lemma h_getBalance s0 x a E :
  ix_still x = true ->
  hoare (stands s0 x) (callDB (GetBalance a))
    (fun b s => b = balance_of (view (db s0)) a /\ stands s0 x s) E.
Proof.
  intros Hst s HI HS. assert (V0 : view (db s) ≈ view (db s0)) by (apply (sd_view _ _ _ HS); by rewrite Hst).
  destruct (simple_GetBalance true a s HI) as (HP & HI' & HR). unfold callDB in *.
  pose proof (GetBalance_view a (db s)) as B. destruct (GetBalance a (db s)) as [b d]. simpl in *.
  split; [done|]. split; [by rewrite B, V0|].
  eapply (stands_le _ (grown 0 x)); [eapply prim_stands; [done|done|done|]|ix_side].
  unfold stack_len. simpl. lia.
Qed.

Record args_ok (a : CallArgs) : Prop := mkArgsOk {
  ao_gas : is_u64 (ca_gas a);
  ao_value : 0 <= ca_value a;
  ao_inOffset : is_u64 (ca_inOffset a);
  ao_inSize : is_u64 (ca_inSize a);
  ao_outOffset : is_u64 (ca_outOffset a);
  ao_outSize : is_u64 (ca_outSize a)
}.

Lemma popCallArgs_ok st (wv : bool) :
  simple (DB:=DB) st (popCallArgs wv) args_ok (if wv then -7 else -6).
Proof.
  assert (K : forall w1 a w2 w3 w4 w5 w6,
    args_ok (mkCallArgs (ToUint64 w1) a (ToBigInt w2) (ToUint64 w3) (ToUint64 w4) (ToUint64 w5)
              (ToUint64 w6))).
  { intros. split; simpl; try apply ToUint64_range. apply wz_range. }
  unfold popCallArgs. destruct wv; frame; try apply K; side.
Qed.

Lemma callMemoryCost_ok st a : args_ok a -> simple (DB:=DB) st (callMemoryCost a) is_u64 0.
Proof.
  intros []. unfold callMemoryCost. frame_step.
  eapply simple_bind with (V := is_u64) (k1 := 0).
  { destruct (0 <? ca_inSize a); [|apply simple_ret; [by apply u64_const|lia]]. cbv zeta. frame_step.
    apply simple_ret; [side|lia]. }
  intros c Hc. frame_step; [|apply simple_ret; [done|lia]]. frame_step.
  apply simple_ret; [|lia]. case_match; [side|done].
Qed.

Lemma availableAfter_ok st c : is_u64 c -> simple (DB:=DB) st (availableAfter c) is_u64 0.
Proof. intros. unfold availableAfter. do 2 frame_step. apply simple_ret; [side|lia]. Qed.

Lemma forward_gas_u64 cost av req hv :
  is_u64 cost -> is_u64 req -> is_u64 (forward_gas cost av req hv).1 /\ is_u64 (forward_gas cost av req hv).2.
Proof.
  intros Hc Hr. unfold forward_gas. destruct (av <=? cost); [by split; [|apply u64_const]|]. cbv zeta.
  set (g := if maxSafeGas <? u64 (av - cost) then _ else _). set (m0 := u64 (g - g / 64)).
  set (m := if maxSafeGas <? m0 then _ else _).
  assert (M0 : is_u64 m0) by apply u64_range.
  assert (C0 : is_u64 maxSafeGas) by (by apply u64_const).
  assert (Hm : is_u64 m) by (unfold m; by case_match).
  set (r := if m <? req then m else req). assert (R : is_u64 r) by (unfold r; by case_match).
  set (q := if hv then _ else r). assert (Q : is_u64 q).
  { unfold q. repeat case_match; try done. apply u64_range. }
  simpl. split; by case_match.
Qed.

Lemma CalculateCallGas_u64 av req hv na cold :
  is_u64 req ->
  is_u64 (CalculateCallGas (Some DefaultGasTable) av req hv na cold).1 /\
  is_u64 (CalculateCallGas (Some DefaultGasTable) av req hv na cold).2.
Proof.
  intros Hr. destruct hv, na, cold; apply forward_gas_u64; try done; by apply u64_const.
Qed.

Lemma rejectZeroAddrCall_ok st a : args_ok a -> ok st (rejectZeroAddrCall a) 1.
Proof.
  intros Ha. unfold rejectZeroAddrCall.
  eapply simple_bind; [by apply callMemoryCost_ok|]. intros c Hc. do 5 frame_step.
  match goal with |- context [CalculateCallGas _ ?av _ _ _ _] =>
    pose proof (CalculateCallGas_u64 av (ca_gas a) false false false (ao_gas a Ha)) as [Hcost _]
  end.
  destruct (CalculateCallGas _ _ _ _ _ _) as [cost g]. simpl in Hcost. frame.
Qed.

Lemma readInput_ok st a : args_ok a -> ok st (readInput a) 0.
Proof.
  intros []. unfold readInput. destruct (0 <? ca_inSize a); [|frame].
  eapply simple_weaken; [apply simple_Get; side|done|lia].
Qed.

(** ** Running the callee *)

(** The gas the frame has left. *)
Definition gas_left (s : St DB) : Z := ctx_Gas (e_ctx (env s)) - used s.

Lemma stands_gas s0 x s : Inv s -> stands s0 x s -> ix_gas x <= gas_left s0.
Proof.
  intros HI HS. destruct HI, HS. destruct inv_gas as (_ & ? & _). unfold gas_left.
  rewrite <- sd_ctx, <- inv_limit. lia.
Qed.

Lemma h_execute s0 x c E :
  exec_ok (gas_left s0) execute -> ctx_ok c -> is_Some (ctx_ParentEnv c) -> ctx_Gas c = ix_gas x ->
  (read_only s0 = true -> ctx_ReadOnly c = true) ->
  hoare (stands s0 x) (onWorld (execute c))
    (fun r s => 0 <= GasUsed r <= ix_gas x /\ stands s0 (to_still (ix_still x && ctx_ReadOnly c) x) s) E.
Proof.
  intros HE Hc Hp Hg Hro. apply h_onWorld; [done|]. intros s HI HS.
  pose proof (stands_gas s0 x s HI HS).
  destruct (HE c (world s) Hc Hp ltac:(lia) (inv_counts s HI) (inv_db s HI)) as (r & w' & E1 & E2 & E3).
  exists r, w'. split; [done|]. split; [done|]. lia.
Qed.

Lemma childCtx_ok e caller addr value code input original evm gas depth ro :
  is_u64 gas -> len code < 2 ^ 63 -> 0 <= depth < MaxCallDepth ->
  ctx_ok (childCtx e caller addr value code input original evm gas depth ro).
Proof. by split. Qed.

(** After a precompiled contract ran: undo or keep, pop the active address,
    and return its error. *)
Definition settled (m : M (St DB) unit) (id : Z) : Prop :=
  m = mret tt \/ m = modDB (releaseFrame id).

Lemma h_settle s0 x act id l v m :
  entered s0 x act id l v -> settled m id ->
  hoare (stands s0 x) m (fun _ => stands s0 (to_journal l x)) (failed s0 (ix_depth x) (ix_counts x)).
Proof.
  intros HE [->| ->]; [|eapply h_keep; [exact HE|apply HE]]. apply h_ret. intros s HS.
  apply (stands_le _ _ _ _ HS). destruct HE. ix_side. rewrite en_journal0. by apply prefix_app_r.
Qed.

Lemma h_precompileDone s0 x act id l v (b success : bool) err m :
  entered s0 x act id l v -> settled m id -> (success = false -> b = true) ->
  hoare (fun s => stands s0 x s /\ (success = true -> err = None -> nz_top s))
    ((if b then modDB (RevertToSnapshot id) else m);; truncActive (length act);; returnErr err)
    (fun _ => returned s0 (to_still false (to_active act (to_journal l x))))
    (failed s0 (ix_depth x) (ix_counts x)).
Proof.
  intros HE Hm Hb s HI [HS HN]. pose proof (en_active _ _ _ _ _ _ HE) as HA.
  assert (Hx : sound s0 (to_journal l x)) by (split; apply HE).
  assert (K : hoare (stands s0 x)
    ((if b then modDB (RevertToSnapshot id) else m);; truncActive (length act);; returnErr err)
    (fun _ s => err = None /\ stands s0 (to_still (ix_still x || b) (to_active act (to_journal l x))) s)
    (failed s0 (ix_depth x) (ix_counts x))).
  { eapply h_bind with (R := fun _ => stands s0 (to_still (ix_still x || b) (to_journal l x))).
    - destruct b.
      + eapply h_conseq; [eapply (h_undo s0 x x); [done|apply HE]|done| |done].
        intros a s' _ H1. apply (stands_le _ _ _ _ H1). ix_side.
      + eapply h_conseq; [by eapply h_settle|done| |done].
        intros a s' _ H1. apply (stands_le _ _ _ _ H1). ix_side. by rewrite orb_false_r.
    - intros []. h_trunc. destruct err as [e|]; cbn [returnErr]; [abandon_call|]. apply h_ret. intros s' H1. split; [done|].
      apply (stands_le _ _ _ _ H1). ix_side. }
  destruct (K s HI HS) as [HI' HR]. split; [done|].
  assert (ES : e_stack (env (((if b then modDB (RevertToSnapshot id) else m);;
      truncActive (length act);; returnErr err) s).2) = e_stack (env s)).
  { destruct b, Hm as [->| ->], err; done. }
  match goal with |- match (?m s).1 with _ => _ end => destruct (m s) as [[[]|e| |] s'] end;
    simpl in *; try done.
  destruct HR as [-> HR]. split; [apply (stands_le _ _ _ _ HR); ix_side|].
  destruct success.
  - apply nz_flag. intros k. rewrite ES. by apply HN.
  - intros k _. apply (sd_view _ _ _ HR). simpl. by rewrite Hb, orb_true_r.
Qed.

Lemma entered_same s0 x y act id l v :
  entered s0 x act id l v -> ix_active y = ix_active x -> ix_journal y = ix_journal x ->
  0 <= ix_gas y -> entered s0 y act id l v.
Proof. intros [] E1 E2 G. split; try done; congruence. Qed.

(** The part CALL, CALLCODE, DELEGATECALL and AUTHCALL share: a precompiled
    contract, or the callee's frame. *)
Lemma h_runCallee s0 x act id l v a addr input callGas ro
    (mk : Environment -> ExecutionContext) (b : bool -> option error -> bool) m :
  registry_ok i -> exec_ok (gas_left s0) execute ->
  entered s0 x act id l v -> ix_gas x = callGas -> is_u64 callGas -> args_ok a -> ro = read_only s0 ->
  (forall e, e_ctx e = e_ctx (env s0) -> e_callDepth e = ix_depth x ->
     ctx_ok (mk e) /\ is_Some (ctx_ParentEnv (mk e)) /\ ctx_Gas (mk e) = callGas /\
     ctx_ReadOnly (mk e) = ro) ->
  (forall err, b false err = true) -> settled m id ->
  hoare (stands s0 x)
    (r ← executePrecompiled i addr input callGas (ca_outOffset a) (ca_outSize a) ro;
     let '(executed, success, err) := r in
     if executed : bool then
       (if b success err then modDB (RevertToSnapshot id) else m);;
       truncActive (length act);;
       returnErr err
     else
     e ← getE Datatypes.id;
     result ← onWorld (execute (mk e));
     finishCall a callGas (length act) id result)
    (fun _ => returned s0 (left_ act l (grown 1 x))) (failed s0 (ix_depth x) (ix_counts x)).
Proof.
  intros HR HX HE Hg Hu Ha Hro Hmk Hb Hm. destruct (ao_outOffset a Ha), (ao_outSize a Ha).
  pose proof (entered_sound _ _ _ _ _ _ HE) as Hx.
  eapply h_bind; [apply h_executePrecompiled; try done; by rewrite Hro|].
  intros [[[] success] err]; cbn [fst snd].
  - eapply h_conseq; [eapply (h_precompileDone s0
      (to_gas 0 (to_still (ix_still x && ro) (grown 1 x))) act id l v (b success err) success err m)|done| |done].
    + apply (entered_same _ _ _ _ _ _ _ HE); done.
    + done.
    + intros ->. apply Hb.
    + intros _ s _ [HS HF]. split; [|done]. apply (stands_le _ _ _ _ HS). ix_side.
  - eapply h_bind; [apply (h_getEnv s0 x)|]. intros e. apply h_pure. intros [E1 E2].
    destruct (Hmk e E1 E2) as (C1 & C2 & C3 & C4).
    eapply h_bind; [apply (h_execute s0 x (mk e)); try done; congruence|].
    intros r. apply h_pure. intros Hr.
    eapply h_conseq; [eapply (h_finishCall s0 (to_still (ix_still x && ctx_ReadOnly (mk e)) x) act id l v)
      |done|done|done]; try done; simpl; try lia; try apply Ha.
    apply (entered_same _ _ _ _ _ _ _ HE); try done. apply HE.
Qed.

(** Taking the snapshot, or answering that there is none. *)
Lemma h_withSnapshot s0 x k1 (k2 : Z -> M (St DB) unit) Q E :
  hoare (stands s0 x) k1 Q E ->
  (forall id l v, saved s0 x id l v -> hoare (stands s0 (to_journal (l ++ [v]) x)) (k2 id) Q E) ->
  hoare (stands s0 x) (snapshot ← callDB Snapshot; if snapshot <? 0 then k1 else k2 snapshot) Q E.
Proof.
  intros H1 H2. eapply h_bind; [apply h_snapshot|]. intros id s HI [[L HS]|(L & l & v & HV & HS)].
  - rewrite (proj2 (Z.ltb_lt _ _)) by lia. by apply H1.
  - rewrite (proj2 (Z.ltb_ge _ _)) by lia. by apply (H2 id l v).
Qed.

Lemma errOf_consume_ok st g : is_u64 g -> ok st (errOf (consume g)) 0.
Proof.
  intros Hg. eapply simple_bind with (k1 := 0) (V := fun _ => True); [|intros; by apply simple_ret].
  eapply simple_weaken; [apply (simple_attempt _ _ (fun _ => True)); [by apply simple_consume|lia|]|done|lia].
  intros s HI. unfold consume, onGas, zoom. destruct (Consume g (e_gas (env s))) as [[] g']; try done.
  simpl. unfold stack_len. simpl. lia.
Qed.

Lemma guardGas_ok st gg :
  gg = 0 \/ gg = 2300 -> ok st (if 0 <? gg then errOf (consume gg) else mret None) 0.
Proof. intros [->| ->]; [by apply simple_ret|]. by apply errOf_consume_ok. Qed.

(** ** CALL *)

Section bodies.
Context (s0 : St DB) (HR : registry_ok i) (HX : exec_ok (gas_left s0) execute).

(** Where the body of a call starts: nothing has happened yet. *)
Record start (x : Ix) : Prop := mkStart {
  st_still : ix_still x = true;
  st_gas : ix_gas x = 0;
  st_sound : sound s0 x;
  st_depth : 0 <= ix_depth x < MaxCallDepth
}.

(** The callee may be entered. *)
Lemma saved_entered x z y act id l v :
  start x -> saved s0 z id l v -> ix_journal z = ix_journal x -> ix_still z = ix_still x ->
  take (length act) (ix_active y) = act ->
  ix_journal y = l ++ [v] -> 0 <= ix_gas y -> entered s0 y act id l v.
Proof.
  intros [E _ [J _] _] [-> B SU V] EJ ES HA HJ HG. rewrite EJ in B. rewrite ES, E in V.
  split; try done; [by apply V|by etransitivity].
Qed.

Lemma saved_sound x z id l v :
  start x -> saved s0 z id l v -> ix_journal z = ix_journal x ->
  sound s0 (to_journal (l ++ [v]) x) /\ sound s0 (to_journal l x) /\ ix_journal x `prefix_of` l.
Proof.
  intros [E G [J _] _] [-> B SU V] EJ. rewrite EJ in B.
  assert (journal (db s0) `prefix_of` l) by (by etransitivity).
  split; [|split; [|done]]; (split; [|simpl; lia]); simpl; [by apply prefix_app_r|done].
Qed.

Lemma start_to_depth x d : start x -> 0 <= d < MaxCallDepth -> start (to_depth d x).
Proof. intros [] H. split; try done; sound_side. Qed.
End bodies.
End calls.

(** Pushing the active address, the refusal included. *)
Ltac h_enterActive :=
  eapply h_bind; [apply h_getActive|]; intros ?; apply h_pure; intros ->.
Ltac h_pushed :=
  eapply h_bind; [apply h_pushActive|]; intros []; cbv beta; cbn [negb]; [|h_trunc; answer0].

(** The shared part of the calls, given how a precompiled contract is settled. *)
Ltac run_callee HE b' m' :=
  lazymatch goal with |- hoare (stands ?s0' ?y') _ _ _ =>
  eapply h_conseq;
  [ eapply (h_runCallee _ _ s0' y') with (b := b') (m := m');
    [ done | done
    | apply (entered_same _ _ _ _ _ _ _ HE); try done; simpl in *; unfold is_u64 in *; lia
    | simpl in *; lia | done | done | done
    | intros ? E1 ?; split; [apply childCtx_ok; try done; rewrite ?E1; simpl in *; lia | by split; [eexists|]]
    | done | by (left + right) ]
  | done
  | intros _ ? _ [? ?]; split; [|done];
    eapply stands_le; [eassumption|]; unfold left_; ix_side
  | done ]
  end.

Section calls2.
Context {DB : Type} `{!StateDB DB} `{!StateDBLaws DB} (i : Interpreter DB).
Context (execute : ExecutionContext -> M (World DB) ExecutionResult).
Context (s0 : St DB) (HR : registry_ok i) (HX : exec_ok (gas_left s0) execute).
Local Abbreviation db s := (w_db (world s)).
Local Abbreviation read_only s := (ctx_ReadOnly (e_ctx (env s))).

Lemma h_callBody x a gg callGas input :
  start s0 x -> args_ok a -> gg = 0 \/ gg = 2300 -> is_u64 callGas ->
  (0 < ca_value a -> read_only s0 = false /\
     ca_value a <= balance_of (view (db s0)) (ctx_Address (e_ctx (env s0)))) ->
  hoare (stands s0 x) (callBody i execute a gg callGas input)
    (fun _ => returned s0 (to_still false (grown 1 x))) (failed s0 (ix_depth x) (ix_counts x)).
Proof.
  intros HS Ha Hgg Hg Hv. pose proof (st_sound _ _ HS) as Hx. pose proof (st_gas _ _ HS) as G0.
  pose proof (st_still _ _ HS) as S0. pose proof (st_depth _ _ HS) as D0.
  unfold callBody. cbv zeta. eapply h_bind; [eapply (h_simple s0 x); [apply simple_GetCode|done]|].
  intros code. apply h_pure. intros Hc.
  apply (h_enterCall s0 (grown 0 x)); [apply HS|done|answer0|]. intros Hd.
  eapply h_bind; [eapply (h_simple s0 (to_depth (ix_depth (grown 0 x) + 1) (grown 0 x)));
    [by apply guardGas_ok|sound_side]|]. intros err. apply h_pure. intros _.
  destruct (isErr err); [answer0|].
  h_enterActive. h_pushed. apply h_withSnapshot; [h_trunc; answer0|]. intros id l v HV.
  destruct (saved_sound s0 x _ id l v HS HV eq_refl) as (Hx1 & Hx2 & HB).
  eapply h_bind; [apply h_getCtx|]. intros self. apply h_pure. intros ->.
  lazymatch goal with |- hoare (stands s0 ?y) _ _ _ =>
    eapply h_bind with (R := fun _ => stands s0 (to_still (negb (0 <? ca_value a)) y)) end.
  { destruct (Z.ltb_spec 0 (ca_value a)).
    - destruct Hv; [done|]. apply h_transfer; [done|done|]. pose proof (ao_value a Ha). lia.
    - apply h_ret. intros s H1. apply (stands_le _ _ _ _ H1). ix_side. }
  intros []. eapply h_bind; [apply h_setAside; [done|sound_side]|]. intros aside.
  assert (HE : entered s0 (to_active (ix_active x ++ [ca_addr a]) (to_journal (l ++ [v]) x)) (ix_active x) id l v).
  { eapply (saved_entered s0 x); try done; simpl; [by rewrite take_app_length|lia]. }
  cbv beta. destruct (isErr aside).
  { h_trunc. eapply h_bind; [by eapply h_undo|]. intros []. answer0. }
  eapply h_bind; [apply h_getCtx|]. intros ro. apply h_pure. intros ->.
  run_callee HE (fun (success : bool) (_ : option error) => negb success) (mret (M:=M (St DB)) tt).
Qed.

(** ** The instruction *)

(** The state a frame is in between two instructions. *)
Record ready : Prop := mkReady {
  rd_depth : e_callDepth (env s0) = ctx_Depth (e_ctx (env s0));
  rd_bound : 0 <= e_callDepth (env s0) < MaxCallDepth
}.

(** Where an instruction that grew the stack by [k] ends. *)
Definition fin (k : Z) : Ix := to_still false (grown k (home s0)).

(** What an instruction that runs other frames keeps. *)
Definition call_ok (m : M (St DB) unit) (k : Z) : Prop :=
  hoare (fun s => s = s0) m (fun _ => returned s0 (fin k))
    (failed s0 (e_callDepth (env s0)) (w_reentryCounts (world s0))).

Lemma call_ok_intro m k :
  hoare (stands s0 (home s0)) m (fun _ => returned s0 (fin k))
    (failed s0 (ix_depth (home s0)) (ix_counts (home s0))) -> call_ok m k.
Proof. intros H. eapply h_conseq; [exact H| |done|done]. intros s ->. apply stands_home. Qed.

Lemma sound_home : sound s0 (home s0).
Proof. by split. Qed.

(** Code that changes no account, as the last step. *)
Lemma h_quiet x y (m : M (St DB) unit) k :
  simple true m (fun _ => True) k -> ix_still x = true -> sound s0 x -> ix_le (grown k x) y ->
  hoare (stands s0 x) m (fun _ => returned s0 y) (failed s0 (ix_depth x) (ix_counts x)).
Proof.
  intros Hm Hst Hx Hle. eapply h_conseq; [by apply (h_simple s0 x)|done| |done].
  intros [] s _ [_ HS]. split; [by apply (stands_le _ _ _ _ HS)|].
  intros l _. apply (sd_view _ _ _ HS). simpl. by rewrite Hst.
Qed.

Lemma payMemory_ok st c :
  is_u64 c -> simple (DB:=DB) st (if 0 <? c then consume c else mret tt) (fun _ => True) 0.
Proof. intros. destruct (0 <? c); [by apply simple_consume|by apply simple_ret]. Qed.

(** The balance check before a transfer. *)
Lemma h_enough x (hv : bool) a self E :
  ix_still x = true -> hv = (0 <? ca_value a) ->
  hoare (stands s0 x)
    (if hv then balance ← callDB (GetBalance self); mret (negb (balance <? ca_value a)) else mret true)
    (fun b s => (b = true -> 0 < ca_value a -> ca_value a <= balance_of (view (db s0)) self) /\
                stands s0 x s) E.
Proof.
  intros Hst ->. destruct (Z.ltb_spec 0 (ca_value a)).
  - eapply h_bind; [by apply h_getBalance|]. intros b. apply h_pure. intros ->. apply h_ret.
    intros s HS. split; [|done]. by intros ?%negb_true_iff%Z.ltb_ge.
  - apply h_ret. intros s HS. split; [lia|done].
Qed.
End calls2.

(** A block with a triple of its own, in the middle of a handler. *)
Ltac h_block L :=
  cbv beta;
  lazymatch goal with
  | |- hoare (stands ?s0 ?x) _ _ _ =>
      eapply h_bind; [eapply (h_simple s0 x); [apply L; try done | sound_side]
                     | intros ?; apply h_pure; intros ?]
  end.
Ltac h_ctx := eapply h_bind; [apply h_getCtx|]; intros ?; apply h_pure; intros ->.
(** The price of the call and the gas of the callee. *)
Ltac h_price Ha :=
  h_prim;
  match goal with H : _ = DefaultGasTable |- _ => rewrite H end;
  match goal with |- context [CalculateCallGas _ ?av (ca_gas ?a) ?hv ?na ?cold] =>
    pose proof (CalculateCallGas_u64 av (ca_gas a) hv na cold (ao_gas a Ha)) as [? ?];
    destruct (CalculateCallGas (Some DefaultGasTable) av (ca_gas a) hv na cold) as [callCost callGas]
  end; cbn [fst snd] in *.

Ltac quiet L :=
  cbv beta;
  lazymatch goal with
  | |- hoare (stands ?s0 ?x) _ _ _ =>
      eapply (h_quiet s0 x); [apply L; try done|done|sound_side|ix_side]
  end.
Ltac h_guarded :=
  cbv beta;
  lazymatch goal with
  | |- hoare (stands ?s0 ?x) _ _ _ =>
      apply (h_reentryGuard s0 x); [done|done|sound_side|ix_side|]
  end.
(** The body of the call, as the last step. *)
Ltac h_body L :=
  cbv beta;
  lazymatch goal with
  | |- hoare (stands ?s0 ?x) _ _ _ =>
      eapply h_conseq;
      [ eapply (L x) | done
      | intros _ ? _ [? ?]; split; [eapply stands_le; [eassumption|ix_side]|done] | done ]
  end.

Section calls3.
Context {DB : Type} `{!StateDB DB} `{!StateDBLaws DB} (i : Interpreter DB).
Context (execute : ExecutionContext -> M (World DB) ExecutionResult).
Context (s0 : St DB) (HR : registry_ok i) (HX : exec_ok (gas_left s0) execute) (HD : ready s0).

Lemma opCall_ok : call_ok s0 (opCall i execute) (-6).
Proof.
  apply call_ok_intro. pose proof (sound_home s0) as Hx. unfold opCall.
  h_block (popCallArgs_ok true true). rename a into args, H into Ha. h_ctx. h_prim.
  destruct (bool_decide _).
  { quiet (rejectZeroAddrCall_ok (DB:=DB) true args). }
  h_prim. h_prim. h_block callMemoryCost_ok. h_block availableAfter_ok.
  h_guarded. intros c gg av Hgg Hav.
  h_price Ha. destruct (av <? callCost); [answer0|].
  h_prim. h_prim. h_block payMemory_ok. h_block readInput_ok. h_ctx.
  eapply h_bind; [by apply h_enough|]. intros b. apply h_pure. intros Hb.
  destruct b; [|answer0].
  h_body (h_callBody i execute s0 HR HX); [split; [done|done|sound_side|apply HD]|done|done|done|].
  intros Hv. split; [|by apply Hb]. rewrite (proj2 (Z.ltb_lt _ _) Hv), andb_true_r in H. done.
Qed.
End calls3.
