(* ===== verification/CallFamily.v ===== *)
(** * DELEGATECALL, CALLCODE, AUTHCALL and STATICCALL

    The instructions CALL shares its rules with: the same guarantees, for each
    instruction in the order its handler has. *)

From Stdlib Require Import ZArith Lia.
From Stdlib.Strings Require Import Byte.
From stdpp Require Import base list countable gmap strings numbers.
From S2P Require Import Prelude Stack Memory Gas Opcodes StateDB Env OpsArith OpsState Bytecode Calls Interp Frame FrameOps CallFrame CallRules CallOps.

(** The start of every body: the counter of the depth and what [start] gives. *)
Ltac start_facts HS :=
  pose proof (st_sound _ _ HS) as Hx; pose proof (st_gas _ _ HS) as G0;
  pose proof (st_still _ _ HS) as S0; pose proof (st_depth _ _ HS) as D0.

(** The facts of a snapshot taken in the body that started at [x]. *)
Ltac saved_facts HS HV :=
  lazymatch type of HS with
  | start ?s0 ?x =>
      lazymatch type of HV with
      | saved _ _ ?id ?l ?v => destruct (saved_sound s0 x _ id l v HS HV eq_refl) as (Hx1 & Hx2 & HB)
      end
  end.

Section family.
Context {DB : Type} `{!StateDB DB} `{!StateDBLaws DB} (i : Interpreter DB).
Context (execute : ExecutionContext -> M (World DB) ExecutionResult).
Context (s0 : St DB) (HR : registry_ok i) (HX : exec_ok (gas_left s0) execute) (HD : ready s0).
Local Abbreviation db s := (w_db (world s)).
Local Abbreviation read_only s := (ctx_ReadOnly (e_ctx (env s))).

(** ** DELEGATECALL *)

Lemma h_delegateCallBody x a callGas input :
  start s0 x -> args_ok a -> is_u64 callGas ->
  hoare (stands s0 x) (delegateCallBody i execute a callGas input)
    (fun _ => returned s0 (to_still false (grown 1 x))) (failed s0 (ix_depth x) (ix_counts x)).
Proof.
  intros HS Ha Hg. start_facts HS. unfold is_u64 in Hg.
  unfold delegateCallBody. cbv zeta. h_block simple_GetCode. rename a0 into code.
  apply (h_enterCall s0 (grown 0 x)); [apply HS|done|answer0|]. intros Hd.
  h_enterActive. h_ctx. h_pushed.
  eapply h_bind; [apply h_setAside; [done|sound_side]|]. intros aside. cbv beta.
  destruct (isErr aside); [h_trunc; answer0|].
  apply h_withSnapshot; [h_trunc; answer0|]. intros id l v HV. saved_facts HS HV.
  assert (HE : entered s0 (to_active (ix_active x ++ [ctx_Address (e_ctx (env s0))])
                 (to_journal (l ++ [v]) x)) (ix_active x) id l v).
  { eapply (saved_entered s0 x); try done; simpl; [by rewrite take_app_length|lia]. }
  h_ctx.
  run_callee HE (fun (success : bool) (err : option error) => negb success || isErr err)
    (modDB (releaseFrame (DB:=DB) id)).
Qed.

Lemma opDelegateCall_ok : call_ok s0 (opDelegateCall i execute) (-5).
Proof.
  apply call_ok_intro. pose proof (sound_home s0) as Hx. unfold opDelegateCall.
  h_block (popCallArgs_ok true false). rename a into args, H into Ha.
  destruct (bool_decide _).
  { quiet (rejectZeroAddrCall_ok (DB:=DB) true args). }
  h_prim. h_block callMemoryCost_ok. h_block availableAfter_ok. h_ctx.
  h_guarded. intros c gg av Hgg Hav. h_price Ha.
  h_prim. h_prim. h_block payMemory_ok. h_block guardGas_ok.
  match goal with |- context [isErr ?e] => destruct (isErr e) end; [answer0|].
  h_block readInput_ok.
  h_body h_delegateCallBody; [split; [done|done|sound_side|apply HD]|done|done].
Qed.

(** ** CALLCODE *)

Lemma h_callCodeBody x a callGas input :
  start s0 x -> args_ok a -> is_u64 callGas -> ix_depth x = ctx_Depth (e_ctx (env s0)) ->
  hoare (stands s0 x) (callCodeBody i execute a callGas input)
    (fun _ => returned s0 (to_still false (grown 1 x))) (failed s0 (ix_depth x) (ix_counts x)).
Proof.
  intros HS Ha Hg HC. start_facts HS. unfold is_u64 in Hg. unfold callCodeBody. cbv zeta.
  apply (h_enterCall s0 x); [apply HS|done|answer0|]. intros Hd.
  h_enterActive. h_ctx. h_pushed. apply h_withSnapshot; [h_trunc; answer0|].
  intros id l v HV. saved_facts HS HV. h_block simple_GetCode. rename a0 into code.
  eapply h_bind; [apply h_setAside; [done|sound_side]|]. intros aside. cbv beta.
  assert (HE : entered s0 (to_active (ix_active x ++ [ctx_Address (e_ctx (env s0))])
                 (to_journal (l ++ [v]) x)) (ix_active x) id l v).
  { eapply (saved_entered s0 x); try done; simpl; [by rewrite take_app_length|lia]. }
  destruct (isErr aside).
  { h_trunc. eapply h_bind; [by eapply h_undo|]. intros []. answer0. }
  h_ctx.
  run_callee HE (fun (success : bool) (err : option error) => negb success)
    (modDB (releaseFrame (DB:=DB) id)).
Qed.

Lemma opCallCode_ok : call_ok s0 (opCallCode i execute) (-6).
Proof.
  apply call_ok_intro. pose proof (sound_home s0) as Hx. unfold opCallCode.
  h_block (popCallArgs_ok true true). rename a into args, H into Ha.
  destruct (bool_decide _).
  { quiet (rejectZeroAddrCall_ok (DB:=DB) true args). }
  h_ctx. h_prim. h_prim. h_prim. h_block callMemoryCost_ok. h_block availableAfter_ok. h_ctx.
  h_guarded. intros c gg av Hgg Hav. h_price Ha. destruct (av <? callCost); [answer0|].
  h_prim. h_prim. h_block payMemory_ok. h_block guardGas_ok.
  match goal with |- context [isErr ?e] => destruct (isErr e) end; [answer0|].
  destruct (ao_inOffset _ Ha), (ao_inSize _ Ha). h_prim.
  eapply h_bind; [by apply h_enough|]. intros b. apply h_pure. intros Hb. destruct b; [|answer0].
  h_body h_callCodeBody; [split; [done|done|sound_side|apply HD]|done|done|apply HD].
Qed.

(** ** AUTHCALL *)

(** The transfer of AUTHCALL, from a balance read before. *)
Lemma h_authTransfer x from to value balance E :
  read_only s0 = false -> ix_still x = true -> balance = balance_of (view (db s0)) from ->
  0 <= value <= balance ->
  hoare (stands s0 x)
    (modDB (SetBalance from (balance - value));;
     calleeBalance ← callDB (GetBalance to);
     modDB (SetBalance to (calleeBalance + value)))
    (fun _ => stands s0 (to_still false x)) E.
Proof.
  intros Hro Hst -> Hv s HI HS.
  assert (V0 : view (db s) ≈ view (db s0)) by (apply (sd_view _ _ _ HS); by rewrite Hst).
  set (b := balance_of (view (db s0)) from) in *.
  assert (ER : (modDB (SetBalance from (b - value));;
     calleeBalance ← callDB (GetBalance to); modDB (SetBalance to (calleeBalance + value))) s =
    (Ok tt, mkSt (env s) (set_w_db (moved from to b value (db s)) (world s)))).
  { unfold mbind, M_bind, callDB, modDB, modW, modify, moved. simpl.
    by destruct (GetBalance to (SetBalance from (b - value) (db s))). }
  rewrite ER. simpl.
  destruct (moved_ok from to b value (db s) (inv_db s HI)) as (J1 & S1 & O1); [by rewrite V0|done|].
  destruct HI, HS. split; [by split|]. split; simpl; try done.
  - by rewrite J1.
  - by rewrite S1.
  - by rewrite Hro.
Qed.

Lemma h_authCallBody x a caller cb callGas input :
  start s0 x -> args_ok a -> is_u64 callGas -> ix_depth x = ctx_Depth (e_ctx (env s0)) ->
  (forall b, cb = Some b -> read_only s0 = false /\ b = balance_of (view (db s0)) caller /\
     0 <= ca_value a <= b) ->
  hoare (stands s0 x) (authCallBody i execute a caller cb callGas input)
    (fun _ => returned s0 (to_still false (grown 1 x))) (failed s0 (ix_depth x) (ix_counts x)).
Proof.
  intros HS Ha Hg HC Hcb. start_facts HS. unfold is_u64 in Hg. unfold authCallBody. cbv zeta.
  h_block simple_GetCode. rename a0 into code.
  apply (h_enterCall s0 (grown 0 x)); [apply HS|done|answer0|]. intros Hd.
  h_enterActive. h_pushed. apply h_withSnapshot; [h_trunc; answer0|].
  intros id l v HV. saved_facts HS HV.
  lazymatch goal with |- hoare (stands s0 ?y) _ _ _ =>
    eapply h_bind with (R := fun _ => stands s0 (to_still (match cb with Some _ => false | None => true end) y)) end.
  { destruct cb as [b|].
    - destruct (Hcb b eq_refl) as (H1 & H2 & H3). by apply h_authTransfer.
    - apply h_ret. intros s H1. apply (stands_le _ _ _ _ H1). ix_side. }
  intros []. eapply h_bind; [apply h_setAside; [done|sound_side]|]. intros aside. cbv beta.
  assert (HE : entered s0 (to_active (ix_active x ++ [ca_addr a]) (to_journal (l ++ [v]) x)) (ix_active x) id l v).
  { eapply (saved_entered s0 x); try done; simpl; [by rewrite take_app_length|lia]. }
  destruct (isErr aside).
  { h_trunc. eapply h_bind; [by eapply h_undo|]. intros []. answer0. }
  h_ctx.
  run_callee HE (fun (success : bool) (err : option error) => negb success) (mret (M:=M (St DB)) tt).
Qed.

Lemma opAuthCall_ok : call_ok s0 (opAuthCall i execute) (-6).
Proof.
  apply call_ok_intro. pose proof (sound_home s0) as Hx. unfold opAuthCall.
  h_block (popCallArgs_ok true true). rename a into args, H into Ha.
  destruct (bool_decide _).
  { quiet (rejectZeroAddrCall_ok (DB:=DB) true args). }
  h_ctx. h_prim. rename a into authorized. h_ctx. h_prim. rename H0 into HG.
  h_prim. h_prim. h_block callMemoryCost_ok. h_block availableAfter_ok.
  h_guarded. intros c gg av Hgg Hav. h_price Ha. destruct (av <? callCost); [answer0|].
  h_prim. h_prim. h_block payMemory_ok. h_block guardGas_ok.
  match goal with |- context [isErr ?e] => destruct (isErr e) end; [answer0|].
  h_block readInput_ok. cbv zeta.
  set (caller := default (ctx_Address (e_ctx (env s0))) authorized).
  lazymatch goal with |- hoare (stands s0 ?y) _ _ _ =>
    apply h_bind with (R := fun cb s =>
      (forall b, cb = Some b -> read_only s0 = false /\ b = balance_of (view (db s0)) caller) /\
      stands s0 y s) end.
  { destruct (0 <? ca_value args) eqn:EV.
    - eapply h_bind; [by apply h_getBalance|]. intros b. apply h_pure. intros ->. apply h_ret.
      intros s HS. split; [|done]. intros ? [= <-]. by rewrite andb_true_r in HG.
    - apply h_ret. intros s HS. by split. }
  intros cb. apply h_pure. intros Hcb.
  destruct (match cb with Some b => b <? ca_value args | None => false end) eqn:EB; [answer0|].
  h_body h_authCallBody; [split; [done|done|sound_side|apply HD]|done|done|apply HD|].
  intros b ->. destruct (Hcb b eq_refl). apply Z.ltb_ge in EB. pose proof (ao_value _ Ha).
  split; [done|]. split; [done|lia].
Qed.

(** ** STATICCALL *)

(** A precompiled contract answered a static call. *)
Lemma h_staticPrecompileDone x id l v (success : bool) err :
  entered s0 x (ix_active x) id l v ->
  hoare (fun s => stands s0 x s /\ (success = true -> err = None -> nz_top s))
    ((if negb success then modDB (RevertToSnapshot id) else modDB (releaseFrame id));; returnErr err)
    (fun _ => returned s0 (to_still false (to_journal l x))) (failed s0 (ix_depth x) (ix_counts x)).
Proof.
  intros HE s HI [HS HN]. assert (Hx : sound s0 (to_journal l x)) by (split; apply HE).
  destruct success; cbn [negb].
  - destruct (h_keep s0 x x (ix_active x) id l v (fun _ => False) HE (en_journal _ _ _ _ _ _ HE) s HI HS)
      as [HI' HS'].
    destruct err as [e|]; simpl in *; (split; [done|]).
    + destruct Hx. by apply (stands_failed s0 (to_journal l x)).
    + split; [apply (stands_le _ _ _ _ HS'); ix_side|]. apply nz_flag. intros k. simpl. by apply HN.
  - destruct (h_undo s0 x x (ix_active x) id l v (fun _ => False) HE (en_journal _ _ _ _ _ _ HE) s HI HS)
      as [HI' HS'].
    destruct err as [e|]; simpl in *; (split; [done|]).
    + destruct Hx. by apply (stands_failed s0 (to_still true (to_journal l x))).
    + split; [apply (stands_le _ _ _ _ HS'); ix_side|]. intros k _. by apply (sd_view _ _ _ HS').
Qed.

(** The state under a static call is as it was, whatever the answer. *)
Lemma h_staticRun x id l v a addr code input callGas :
  entered s0 x (ix_active x) id l v -> ix_still x = true -> ix_gas x = callGas -> is_u64 callGas ->
  args_ok a -> len code < 2 ^ 63 -> 0 <= ix_depth x < MaxCallDepth ->
  hoare (stands s0 x)
    (r ← executePrecompiled i addr input callGas (ca_outOffset a) (ca_outSize a) true;
     let '(executed, success, err) := r in
     if executed : bool then
       (if negb success then modDB (RevertToSnapshot id) else modDB (releaseFrame id));; returnErr err
     else
     e ← getE Datatypes.id;
     result ← onWorld (execute (childCtx e (ctx_Address (e_ctx e)) addr (Some 0) code input None
                         (isEVMTranslatedCode code) callGas (e_callDepth e) true));
     (if GasUsed result <? callGas then onGas (Return (callGas - GasUsed result)) else mret tt);;
     modDB (releaseFrame id);;
     modE (set_e_returnData (ReturnData result));;
     copyOut (ca_outOffset a) (ca_outSize a) (ReturnData result);;
     pushU (if isErr (ResErr result) then 0 else 1))
    (fun _ => returned s0 (to_still false (to_gas 0 (to_journal l (grown 1 x)))))
    (failed s0 (ix_depth x) (ix_counts x)).
Proof.
  intros HE Hst Hg Hu Ha Hc Hd. pose proof (entered_sound _ _ _ _ _ _ HE) as Hx.
  assert (Hx' : sound s0 (to_journal l x)) by (split; apply HE).
  destruct (ao_outOffset a Ha), (ao_outSize a Ha).
  eapply h_bind; [by apply h_executePrecompiled|]. intros [[[] success] err]; cbn [fst snd].
  - eapply h_conseq; [eapply (h_staticPrecompileDone
      (to_gas 0 (to_still (ix_still x && true) (grown 1 x))) id l v success err)|done| |done].
    + by apply (entered_same _ _ _ _ _ _ _ HE).
    + intros _ s _ [HS HF]. split; [|done]. apply (stands_le _ _ _ _ HS). ix_side.
  - eapply h_bind; [apply (h_getEnv s0 x)|]. intros e. apply h_pure. intros [E1 E2].
    eapply h_bind; [apply (h_execute execute s0 x); try done|].
    { apply childCtx_ok; try done. by rewrite E2. }
    intros r. apply h_pure. intros Hr. eapply h_bind; [apply h_giveRest; simpl; lia|]. intros [].
    eapply h_bind; [by eapply (h_keep s0 _ x); [exact HE|apply HE]|]. intros [].
    h_prim. h_block copyOut_ok. rewrite andb_true_r.
    destruct (isErr (ResErr r)); [answer0|answer1].
Qed.

(** The deferred truncation of the active addresses. *)
Lemma h_deferTrunc x y act (m : M (St DB) unit) :
  take (length act) (ix_active y) = act ->
  hoare (stands s0 x) m (fun _ => returned s0 y) (failed s0 (ix_depth x) (ix_counts x)) ->
  hoare (stands s0 x) (defer (fun s => (truncActive (length act) s).2) m)
    (fun _ => returned s0 (to_active act y)) (failed s0 (ix_depth x) (ix_counts x)).
Proof.
  intros HA Hm. eapply h_defer; [exact Hm| |].
  - intros a s HI HS. split; [destruct HI; by split|]. eapply returned_with; [exact HS|done|done|].
    intros []. split; simpl; try done. by rewrite sd_active.
  - intros s HI HF. destruct HI, HF. split; by split.
Qed.

Lemma h_staticCallBody x a callGas input :
  start s0 x -> args_ok a -> is_u64 callGas ->
  hoare (stands s0 x) (staticCallBody i execute a callGas input)
    (fun _ => returned s0 (to_still false (grown 1 x))) (failed s0 (ix_depth x) (ix_counts x)).
Proof.
  intros HS Ha Hg. start_facts HS. unfold is_u64 in Hg. unfold staticCallBody. cbv zeta.
  h_block simple_GetCode. rename a0 into code.
  apply (h_enterCall s0 (grown 0 x)); [apply HS|done|answer0|]. intros Hd.
  h_enterActive. h_pushed.
  lazymatch goal with |- hoare (stands s0 ?z) _ _ _ =>
    eapply h_conseq; [apply (h_deferTrunc z (to_still false (grown 1 z)) (ix_active x));
      [simpl; by rewrite take_app_length|]|done| |done] end.
  2: { intros _ s _ [H1 H2]. split; [|done]. apply (stands_le _ _ _ _ H1). ix_side. }
  eapply h_bind; [apply h_setAside; [done|sound_side]|]. intros aside. cbv beta.
  destruct (isErr aside); [answer0|].
  apply h_withSnapshot; [answer0|]. intros id l v HV. saved_facts HS HV.
  lazymatch goal with |- hoare (stands s0 ?z) _ _ _ =>
    eapply h_conseq; [apply (h_staticRun z id l v a (ca_addr a) code input callGas)|done| |done] end;
    try done; simpl in *; try lia.
  - eapply (saved_entered s0 x); try done; simpl; [by rewrite firstn_all|lia].
  - intros _ s _ [H1 H2]. split; [|done]. apply (stands_le _ _ _ _ H1). ix_side.
Qed.

Lemma opStaticCall_ok : call_ok s0 (opStaticCall i execute) (-5).
Proof.
  apply call_ok_intro. pose proof (sound_home s0) as Hx. unfold opStaticCall.
  h_block (popCallArgs_ok true false). rename a into args, H into Ha.
  destruct (bool_decide _).
  { quiet (rejectZeroAddrCall_ok (DB:=DB) true args). }
  h_prim. h_block callMemoryCost_ok. h_block availableAfter_ok.
  h_guarded. intros c gg av Hgg Hav. h_price Ha. destruct (av <? callCost); [answer0|].
  h_prim. h_prim. h_block payMemory_ok. h_block guardGas_ok.
  match goal with |- context [isErr ?e] => destruct (isErr e) end; [answer0|].
  h_block readInput_ok.
  h_body h_staticCallBody; [split; [done|done|sound_side|apply HD]|done|done].
Qed.

(** ** AUTH *)

Lemma authFail_ok st : simple (DB:=DB) st authFail (fun _ => True) 1.
Proof. unfold authFail. frame. Qed.

Lemma attempt_Get_ok st o n :
  is_u64 o -> is_u64 n -> simple (DB:=DB) st (attempt (onMemory (Get o n)))
    (fun r => match r with inr l => len l = n | inl _ => True end) 0.
Proof.
  intros [] []. apply (simple_attempt _ _ (fun l => len l = n)); [by apply simple_Get|lia|].
  intros s HI. rewrite onMemory_stack. case_match; done || lia.
Qed.

Lemma addr_word_nz a : a <> zero_address -> addr_word a <> zero_array 32.
Proof.
  intros H E. apply H. rewrite <- (word_addr_addr_word a), E. by apply array_eq.
Qed.

(** Pushing a word other than zero, as the last step. *)
Lemma h_pushNz x y w :
  w <> zero_array 32 -> sound s0 x -> ix_le (grown 1 x) y ->
  hoare (stands s0 x) (push w) (fun _ => returned s0 y) (failed s0 (ix_depth x) (ix_counts x)).
Proof.
  intros Hw Hx Hle s HI HS.
  destruct (h_simple s0 x _ _ _ (simple_push true w) Hx s HI HS) as [HI' HR']. split; [done|].
  destruct (push w s) as [[[]|e| |] s'] eqn:EP; simpl in *; try done. destruct HR' as [_ HS'].
  split; [by apply (stands_le _ _ _ _ HS')|]. apply nz_flag. intros l E.
  destruct (push_top _ _ _ EP) as [l' E']. rewrite E' in E. apply of_top_inj in E.
  destruct Hw. congruence.
Qed.

Ltac auth_fail := quiet (authFail_ok true).

Lemma h_authCheck x y addr msg :
  addr <> zero_address -> 65 <= len msg -> read_only s0 = false -> ix_still x = true -> sound s0 x ->
  ix_le (to_still false (grown 1 x)) y ->
  hoare (stands s0 x) (authCheck i addr msg) (fun _ => returned s0 y)
    (failed s0 (ix_depth x) (ix_counts x)).
Proof.
  intros Hz Hm Hro Hst Hx Hle. destruct Hle. simpl in *. unfold authCheck. cbv zeta.
  h_prim. rename a into rBytes. h_prim. rename a into sBytes. h_prim. rename a into commit.
  destruct (Z.ltb_spec (len commit) 84); [auth_fail|].
  h_prim. h_prim. h_ctx. destruct (negb _); [auth_fail|]. h_ctx. destruct (negb _); [auth_fail|].
  h_prim. destruct (negb _); [auth_fail|]. h_prim. destruct (negb _); [auth_fail|].
  destruct (recoverSignerAddress _ _ _ _ _) as [|rec]; [auth_fail|].
  destruct (negb (bool_decide (rec = addr))); [auth_fail|].
  lazymatch goal with |- hoare (stands s0 ?z) _ _ _ =>
    eapply h_bind; [eapply (h_write s0 z); [apply simple_SetNonce|done|sound_side]|] end.
  intros []. apply h_pure. intros _. h_prim.
  lazymatch goal with |- hoare (stands s0 ?z) _ _ _ => apply (h_pushNz z) end;
    [by apply addr_word_nz|sound_side|]. ix_side.
Qed.

Lemma opAuth_ok : call_ok s0 (opAuth i) (-2).
Proof.
  apply call_ok_intro. pose proof (sound_home s0) as Hx. unfold opAuth.
  h_prim. rename a into authority. h_prim. rename a into offset, H0 into Ho.
  h_prim. rename a into length, H0 into Hl. destruct (negb _); [auth_fail|].
  h_prim.
  lazymatch goal with |- hoare (stands s0 ?z) _ _ _ =>
    eapply h_bind; [eapply (h_simple s0 z (if 0 <? length then chargeRange offset length else mret tt)
      (fun _ => True) 0); [|sound_side]|] end.
  { destruct (0 <? length); [apply chargeRange_ok; apply Ho|by apply simple_ret]. }
  intros []. apply h_pure. intros _. cbv zeta. destruct (bool_decide _) eqn:EZ; [auth_fail|].
  apply bool_decide_eq_false in EZ. h_ctx.
  destruct (read_only s0) eqn:ERO; [auth_fail|].
  h_block attempt_Get_ok.
  match goal with r : (error + list byte)%type |- _ => destruct r as [|msg] end; [auth_fail|].
  destruct (Z.ltb_spec (len msg) 65); [auth_fail|].
  lazymatch goal with |- hoare (stands s0 ?z) _ _ _ => apply (h_authCheck z) end;
    [done|done|done|done|sound_side|ix_side].
Qed.
End family.
