(* ===== verification/CreateOps.v ===== *)
(** * CREATE and CREATE2

    The guarantees of the call instructions, for contract creation: the
    constructor runs in a frame of its own ([run_ok] is what that frame
    promises), and every failure after the snapshot undoes the nonces, the
    endowment and the constructor's writes. *)

From Stdlib Require Import ZArith Lia.
From Stdlib.Strings Require Import Byte.
From stdpp Require Import base list countable gmap strings numbers.
From S2P Require Import Prelude Stack Memory Gas Opcodes StateDB Env OpsArith OpsState Bytecode Calls Interp Frame FrameOps CallFrame CallRules CallOps CallFamily.

(** ** The size of translated code *)

Lemma translateLoop_len evm fuel : forall i acc q,
  0 <= i <= len evm -> translateLoop evm fuel i acc = inr q -> len q <= len acc + 33 * Z.of_nat fuel.
Proof.
  induction fuel as [|fuel IH]; intros i acc q Hi H.
  - injection H as <-. lia.
  - destruct (Z.lt_ge_cases i (len evm)) as [L|L].
    + destruct (evmToQVMOpcodeMap (nth_byte evm i)) as [op|] eqn:E.
      * destruct (translateLoop_step evm fuel i acc op ltac:(lia) E) as (imm & Hl & S).
        rewrite S in H. apply IH in H.
        -- rewrite len_app in H. pose proof (evmPushSize_range (nth_byte evm i)).
           unfold len in *. simpl in H. lia.
        -- pose proof (evmPushSize_range (nth_byte evm i)). unfold evm_next. lia.
      * cbn [translateLoop] in H. rewrite (proj2 (Z.ltb_lt _ _)), E in H by lia.
        by destruct (between _ _ _) in H.
    + cbn [translateLoop] in H. rewrite (proj2 (Z.ltb_ge _ _)) in H by lia. injection H as <-. lia.
Qed.

Lemma TranslateEVMBytecode_len evm q :
  TranslateEVMBytecode evm = inr q -> len q <= 8 + 33 * len evm.
Proof.
  intros H. apply translateLoop_len in H; [|pose proof (len_nonneg evm); lia].
  change (len EVMTranslatedMarker) with 8 in H. unfold len at 2. lia.
Qed.

(** ** The frame of the constructor *)

(** A frame before its first instruction. *)
Record fresh (e : Environment) : Prop := mkFresh {
  fr_used : gm_used (e_gas e) = 0;
  fr_stack : Len (e_stack e) = 0;
  fr_depth : e_callDepth e = ctx_Depth (e_ctx e)
}.

Section create.
Context {DB : Type} `{!StateDB DB} `{!StateDBLaws DB} (i : Interpreter DB).
Context (run : Environment -> M (World DB) (ExecutionResult * Environment)).
Implicit Types s : St DB.
Local Abbreviation db s := (w_db (world s)).
Local Abbreviation read_only s := (ctx_ReadOnly (e_ctx (env s))).
Local Abbreviation ok st m k := (simple (DB:=DB) st m (fun _ => True) k).

Definition run_ok (G : Z) : Prop :=
  forall e w, Inv (mkSt e w) -> ctx_ok (e_ctx e) -> fresh e -> ctx_Gas (e_ctx e) <= G ->
  exists r e' w', run e w = (Ok (r, e'), w') /\ worldP (ctx_ReadOnly (e_ctx e)) w w' /\
    0 <= GasUsed r <= ctx_Gas (e_ctx e) /\ 0 <= Used (e_gas e') <= ctx_Gas (e_ctx e).

Lemma newEnvironment_ok c dests act par bh tr (w : World DB) :
  i_gasTable i = DefaultGasTable -> ctx_ok c -> counts_ok (w_reentryCounts w) -> db_ok (w_db w) ->
  let e := newEnvironment i c dests (u64 (ctx_Depth c)) act par bh tr in
  Inv (mkSt e w) /\ fresh e.
Proof.
  intros HT [Hg Hl Hd] HC HO. unfold MaxCallDepth in Hd.
  assert (ED : u64 (ctx_Depth c) = ctx_Depth c) by (apply u64_small; unfold is_u64; lia).
  split; split; simpl; try done; try lia.
  - unfold meter_ok, is_u64 in *. simpl. lia.
  - rewrite ED. unfold MaxCallDepth. lia.
Qed.

(** ** Blocks *)

Lemma calculateMemoryGas_ok st o n : is_u64 o -> is_u64 n ->
  simple (DB:=DB) st (calculateMemoryGas o n) is_u64 0.
Proof.
  intros Ho Hn. unfold calculateMemoryGas. frame_step; [apply simple_ret; [by apply u64_const|lia]|].
  do 2 frame_step. case_match; apply simple_ret; try lia; [by apply u64_const|side].
Qed.

Lemma createGas_ok st (c2 : bool) o n :
  is_u64 o -> 0 <= n <= MaxInitCodeSize -> simple (DB:=DB) st (createGas c2 o n) is_u64 0.
Proof.
  intros Ho Hn. unfold MaxInitCodeSize in Hn. assert (Hu : is_u64 n) by (unfold is_u64; lia).
  unfold createGas. eapply simple_bind; [by apply calculateMemoryGas_ok|]. intros g Hg.
  assert (G0 : is_u64 (if c2 then GasCreate2 else GasCreate)) by (destruct c2; by apply u64_const).
  frame_step. eapply simple_bind with (V := is_u64) (k1 := 0).
  { destruct (Z.ltb_spec 32 n); [|by apply simple_ret].
    eapply simple_bind; [apply simple_check_mul; [unfold is_u64; lia|by apply u64_const]|].
    intros x [-> Hx]. eapply simple_weaken; [by apply simple_check_add|by intros ? []|lia]. }
  intros x Hx. destruct (c2 && (0 <? n)); [|by apply simple_ret]. frame_step.
  eapply simple_bind; [apply simple_check_mul; [apply u64_div; unfold is_u64; lia|by apply u64_const]|].
  intros y [-> Hy]. eapply simple_weaken; [by apply simple_check_add|by intros ? []|lia].
Qed.

Lemma restoreTransient_ok st t : ok st (restoreTransient t) 0.
Proof.
  intros s HI. unfold restoreTransient. simpl. split; [by split|]. destruct HI. split; [by split|].
  split; [done|]. unfold stack_len. simpl. lia.
Qed.

Lemma createFail_ok st : ok st createFail 1.
Proof. apply simple_push. Qed.

(** The endowment of the new contract. *)
Definition endow (a b : Address) (v : Z) : M (St DB) bool :=
  creatorBalance ← callDB (GetBalance a);
  if creatorBalance <? v then mret false
  else
    modDB (SetBalance a (creatorBalance - v));;
    contractBalance ← callDB (GetBalance b);
    modDB (SetBalance b (contractBalance + v));;
    mret true.

Lemma endow_ok a b v : 0 <= v -> ok false (endow a b v) 0.
Proof.
  intros Hv. set (f := fun d : DB => let '(x, d0) := GetBalance a d in
    if x <? v then (false, d0) else (true, moved a b x v d0)).
  assert (EF : forall s, endow a b v s = callDB f s).
  { intros s. unfold endow, callDB, f, mbind, M_bind, modDB, modW, modify, moved.
    destruct (GetBalance a (db s)) as [x d0]. simpl. destruct (x <? v); [done|]. simpl.
    by destruct (GetBalance b (SetBalance a (x - v) d0)). }
  intros s HI. rewrite EF. revert s HI. apply (simple_callDB _ f (fun _ => True) 0); [|done|lia].
  intros d Hd. unfold f.
  pose proof (view_GetBalance a d) as V. pose proof (GetBalance_view a d) as B.
  pose proof (journal_GetBalance a d) as J. destruct (GetBalance a d) as [x d0]. simpl in V, B, J.
  pose proof (db_ok_same d d0 J V Hd) as O0.
  destruct (Z.ltb_spec x v); [split; [by apply dbR_same|done]|].
  destruct (moved_ok a b x v d0 O0) as (J1 & S1 & O1); [by rewrite V|lia|].
  split; [|done]. simpl. split; [congruence|]. split; [|done]. simpl. rewrite S1, V. lia.
Qed.

Lemma createPrepare_ok creator addr v : 0 <= v -> ok false (createPrepare creator addr v) 0.
Proof.
  intros Hv. unfold createPrepare. do 3 frame_step.
  eapply simple_bind with (V := fun _ => True) (k1 := 0); [frame|]. intros free _.
  destruct (negb free); [frame|]. frame_step. frame_step; [frame|]. do 2 frame_step.
  destruct (0 <? v); [|frame]. by apply endow_ok.
Qed.

(** ** Failure and success *)

(** The operands of a creation as the handler reads them: the endowment, the
    salt and the init code. *)
Definition createOperands (isCreate2 : bool) : M (St DB) (Z * Word * list byte) :=
  readOnly ← getCtx ctx_ReadOnly;
  guard_err readOnly ErrWriteProtection;;
  value ← popB;
  offset ← popU;
  size ← popU;
  salt ← (if isCreate2 then pop else mret (zero_array 32));
  guard_err (MaxInitCodeSize <? size) ErrInitCodeSizeExceeded;;
  gasCost ← createGas isCreate2 offset size;
  consume gasCost;;
  initCode ← onMemory (Get offset size);
  mret (value, salt, initCode).

(** The address that a creation started in [s] derives for its contract. *)
Definition derivedAddress (isCreate2 : bool) (s : St DB) : option Address :=
  let creator := ctx_Address (e_ctx (env s)) in
  if isCreate2 then
    match (createOperands true s).1 with
    | Ok (_, salt, initCode) => Some (Create2Address (i_crypto i) creator salt initCode)
    | _ => None
    end
  else Some (CreateAddress (i_crypto i) creator (acc_nonce (account (view (db s)) creator))).

(** The handler is done; where [nz] holds, an answer of zero is a failure. *)
Definition created (nz : Prop) (s0 : St DB) (y : Ix) (s : St DB) : Prop :=
  stands s0 y s /\ (nz -> flag_ok s0 s).

Lemma returned_created nz s0 y s : returned s0 y s -> created nz s0 y s.
Proof. intros [H1 H2]. by split. Qed.

Lemma AddressToWord_nz a : a <> zero_address -> AddressToWord a <> zero_array 32.
Proof.
  intros H E. apply H, array_eq. apply (f_equal bytes_of) in E. simpl in E.
  change (bytes_of a ++ replicate 12 x00 = bytes_of zero_address ++ replicate 12 x00) in E.
  by apply app_inj_2 in E as [? _].
Qed.

Section blocks.
Context (nz : Prop) (s0 : St DB) (Hro : read_only s0 = false).

(** A refused creation, as the last step. *)
Lemma h_createFail x y :
  ix_still x = true -> sound s0 x -> ix_le (grown 1 x) y ->
  hoare (stands s0 x) createFail (fun _ => created nz s0 y) (failed s0 (ix_depth x) (ix_counts x)).
Proof.
  intros H1 H2 H3. eapply h_conseq; [eapply (h_quiet s0 x y _ 1); try done; apply createFail_ok|done| |done].
  intros a s _. apply returned_created.
Qed.

Lemma h_createRevert x z y act id l v :
  entered s0 z act id l v -> ix_journal x = l ++ [v] -> 0 <= ix_gas x ->
  ix_le (to_still true (to_journal l (grown 1 x))) y ->
  hoare (stands s0 x) (createRevert id) (fun _ => created nz s0 y) (failed s0 (ix_depth x) (ix_counts x)).
Proof.
  intros HE HJ HG Hle. unfold createRevert. eapply h_bind; [by eapply h_undo|]. intros [].
  eapply h_conseq; [apply (h_createFail (to_still true (to_journal l x)) y)|done|done|done]; try done.
  split; [apply HE|done].
Qed.

Lemma h_createFailed x z y act id l v saved :
  entered s0 z act id l v -> ix_journal x = l ++ [v] -> 0 <= ix_gas x ->
  ix_le (to_still true (to_journal l (grown 1 x))) y ->
  hoare (stands s0 x) (createFailed id saved) (fun _ => created nz s0 y)
    (failed s0 (ix_depth x) (ix_counts x)).
Proof.
  intros HE HJ HG Hle. assert (Hx : sound s0 (to_journal l x)) by (split; [apply HE|done]).
  unfold createFailed. eapply h_bind; [by eapply h_undo|]. intros [].
  h_block restoreTransient_ok.
  eapply h_conseq; [apply (h_createFail (grown 0 (to_still true (to_journal l x))) y)|done|done|done];
    first [done|sound_side|destruct Hle; simpl in *; ix_side].
Qed.

Lemma deposit_ok st (d : list byte) :
  ok st (if 0 <? len d then
           match SafeMulGas (len d) GasCodeDeposit with
           | inl e => mret (Some e)
           | inr codeDepositCost => errOf (consume codeDepositCost)
           end
         else mret None) 0.
Proof.
  destruct (0 <? len d); [|by apply simple_ret].
  destruct (SafeMulGas (len d) GasCodeDeposit) as [e|c] eqn:E; [by apply simple_ret|].
  apply errOf_consume_ok. unfold SafeMulGas in E. case_match; [done|]. injection E as <-. apply u64_range.
Qed.

Lemma deployed_len d t :
  len d <= MaxCodeSize ->
  (if (0 <? len d) && IsEVMBytecode d then TranslateEVMBytecode d else inr d) = inr t ->
  len t < 2 ^ 63.
Proof.
  unfold MaxCodeSize. intros Hd. destruct (_ && _).
  - intros H%TranslateEVMBytecode_len. lia.
  - intros [= <-]. lia.
Qed.

Lemma h_pushAddr x y addr :
  (nz -> addr <> zero_address) -> sound s0 x -> ix_le (grown 1 x) y ->
  hoare (stands s0 x) (push (AddressToWord addr)) (fun _ => created nz s0 y)
    (failed s0 (ix_depth x) (ix_counts x)).
Proof.
  intros Hnz Hx Hle s HI HS.
  destruct (h_simple s0 x _ _ _ (simple_push true (AddressToWord addr)) Hx s HI HS) as [HI' HR'].
  split; [done|].
  destruct (push (AddressToWord addr) s) as [[[]|e| |] s'] eqn:EP; simpl in *; try done.
  destruct HR' as [_ HS']. split; [by apply (stands_le _ _ _ _ HS')|]. intros H.
  apply nz_flag. intros l E. destruct (push_top _ _ _ EP) as [l' E']. rewrite E' in E.
  apply of_top_inj in E. apply (AddressToWord_nz addr); [auto|congruence].
Qed.

Lemma h_createFinish x y act id l v addr saved r d :
  entered s0 x act id l v -> (nz -> addr <> zero_address) ->
  ix_le (to_still false (to_journal l (grown 1 x))) y ->
  hoare (stands s0 x) (createFinish addr id saved r d) (fun _ => created nz s0 y)
    (failed s0 (ix_depth x) (ix_counts x)).
Proof.
  intros HE Hnz Hle. pose proof (entered_sound _ _ _ _ _ _ HE) as Hx.
  pose proof (en_journal _ _ _ _ _ _ HE) as HJ. pose proof (en_gas _ _ _ _ _ _ HE) as HG.
  assert (Hx' : sound s0 (to_journal l x)) by (split; apply HE).
  assert (Hf : ix_le (to_still true (to_journal l (grown 1 (grown 0 x)))) y)
    by (destruct Hle; simpl in *; ix_side).
  assert (Hf0 : ix_le (to_still true (to_journal l (grown 1 x))) y)
    by (destruct Hle; simpl in *; ix_side).
  unfold createFinish. destruct (Z.ltb_spec MaxCodeSize (len d)); [by eapply h_createFailed|].
  h_block deposit_ok. rename a into deposit.
  assert (HE' : entered s0 (grown 0 x) act id l v) by (by apply (entered_same _ _ _ _ _ _ _ HE)).
  destruct (isErr deposit); [by eapply (h_createFailed (grown 0 x))|]. cbv zeta.
  destruct (if (0 <? len d) && IsEVMBytecode d then _ else _) as [|t] eqn:ET;
    [by eapply (h_createFailed (grown 0 x))|].
  destruct (startsWithEF t); [by eapply (h_createFailed (grown 0 x))|].
  eapply h_bind; [eapply (h_write s0 (grown 0 x)); [apply simple_SetCode|done|sound_side]|].
  { by eapply deployed_len. }
  intros []. apply h_pure. intros _. h_prim. h_prim.
  eapply h_bind; [by eapply (h_keep s0 _ x); [exact HE|]|]. intros [].
  lazymatch goal with |- hoare (stands s0 ?z) _ _ _ => apply (h_pushAddr z) end;
    [done|sound_side|]. destruct Hle. simpl in *. ix_side.
Qed.

(** ** The constructor *)

Context (HT : i_gasTable i = DefaultGasTable) (HX : run_ok (gas_left s0)).

Lemma analyzeJumpDests_ok code (w : World DB) :
  exists d w', analyzeJumpDests i code w = (Ok d, w') /\ w_db w' = w_db w /\
    w_reentryCounts w' = w_reentryCounts w.
Proof. unfold analyzeJumpDests. repeat case_match; by eexists _, _. Qed.

Lemma initCode_len code :
  len code <= MaxInitCodeSize ->
  len (if (0 <? len code) && IsEVMBytecode code then
         match TranslateEVMBytecode code with inr t => (t, true) | inl _ => (code, false) end
       else (code, false)).1 < 2 ^ 63.
Proof.
  unfold MaxInitCodeSize. intros H. destruct (_ && _); [|simpl; lia].
  destruct (TranslateEVMBytecode code) eqn:E; [simpl; lia|]. apply TranslateEVMBytecode_len in E.
  simpl. lia.
Qed.

(** The frame of the constructor, run to its end. *)
Lemma h_runInit x c dests act par bh tr addr e1 :
  ctx_ok c -> ctx_ReadOnly c = false -> ix_gas x = ctx_Gas c ->
  PushActiveAddress addr (newEnvironment i c dests (u64 (ctx_Depth c)) act par bh tr) = (true, e1) ->
  hoare (stands s0 x) (onWorld (run e1))
    (fun r s => 0 <= Used (e_gas r.2) <= ctx_Gas c /\ stands s0 (to_still false x) s)
    (failed s0 (ix_depth x) (ix_counts x)).
Proof.
  intros Hc Hr Hg HP. eapply h_conseq;
    [apply (h_onWorld s0 x false (run e1) (fun r => 0 <= Used (e_gas r.2) <= ctx_Gas c))|done| |done].
  - by rewrite Hro.
  - intros s HI HS. destruct (newEnvironment_ok c dests act par bh tr (world s) HT Hc (inv_counts s HI)
      (inv_db s HI)) as [HI0 HF0].
    unfold PushActiveAddress in HP. case_match; [done|]. injection HP as <-.
    set (e0 := newEnvironment i c dests (u64 (ctx_Depth c)) act par bh tr) in *.
    pose proof (stands_gas s0 x s HI HS).
    destruct (HX (set_e_activeAddresses (e_activeAddresses e0 ++ [addr]) e0) (world s))
      as (r & e' & w' & ER & HW & _ & HU).
    + destruct HI0. by split.
    + done.
    + destruct HF0. by split.
    + simpl. lia.
    + exists (r, e'), w'. split; [done|]. split; [|done]. simpl in HW. by rewrite Hr in HW.
  - intros r s _ [H1 H2]. split; [done|]. apply (stands_le _ _ _ _ H2). ix_side.
Qed.

Lemma h_createRun x y act addr v0 code id l v :
  entered s0 x act id l v -> ix_gas x = 0 ->
  0 <= ix_depth x < MaxCallDepth -> ix_depth x = ctx_Depth (e_ctx (env s0)) ->
  len code <= MaxInitCodeSize -> (nz -> addr <> zero_address) ->
  ix_le (to_still false (to_journal l (grown 1 x))) y ->
  hoare (stands s0 x) (createRun i run addr v0 code id) (fun _ => created nz s0 y)
    (failed s0 (ix_depth x) (ix_counts x)).
Proof.
  intros HE HG Hd Hdc Hcode Hnz Hle. pose proof (en_journal _ _ _ _ _ _ HE) as HJ.
  assert (Hx : sound s0 x) by (split; [rewrite HJ; apply prefix_app_r, HE|lia]).
  assert (Hx' : sound s0 (to_journal l x)) by (split; [apply HE|simpl; lia]).
  unfold createRun. pose proof (initCode_len code Hcode) as Hlen.
  destruct (if (0 <? len code) && IsEVMBytecode code then _ else _) as [exec evm]. simpl in Hlen.
  h_prim. rename a into left, H into Hl.
  eapply h_bind; [apply h_getEnv|]. intros e. apply h_pure. intros [E1 E2]. cbv zeta.
  lazymatch goal with |- hoare (stands s0 ?w) _ _ _ =>
    eapply h_bind; [apply (h_onWorld s0 w true _ (fun _ => True)); [done|]|] end.
  { intros s HI HS. destruct (analyzeJumpDests_ok exec (world s)) as (d & w' & ED & EW & EC).
    exists d, w'. split; [done|]. split; [|done]. split; [done|]. rewrite EW. split; [done|apply HI]. }
  intros dests. apply h_pure. intros _. rewrite andb_true_r.
  set (c := childCtx e _ addr _ _ _ _ _ _ _ _).
  assert (Hd1 : ctx_Gas c = left - left / 64 /\ is_u64 (ctx_Gas c)) by (simpl; unfold is_u64 in *; zlia).
  destruct Hd1 as [_ Hcg].
  assert (Hrev : ix_le (to_still true (to_journal l (grown 1 (to_depth (ix_depth x + 1) (grown 0 x)))))
                   (to_depth (ix_depth x + 1) y)).
  { destruct Hle. simpl in *. ix_side. }
  lazymatch goal with |- hoare (stands s0 ?w) _ _ _ =>
    apply (h_enterDepth s0 w _ _ _ (created nz s0 (to_depth (ix_depth x + 1) y))) end; [done| | |].
  { intros s [HS HF]. split; [apply HS|]. split; [|exact HF]. destruct HS, Hle. by split. }
  { eapply (h_createRevert (to_depth (ix_depth x + 1) (grown 0 x))); try done. simpl. lia. }
  intros Hd'. assert (Hc : ctx_ok c).
  { apply childCtx_ok; [done|done|]. rewrite E1, <- Hdc. simpl in Hd'. lia. }
  destruct (PushActiveAddress addr _) as [pushed e1] eqn:EP.
  destruct pushed; cbn [negb].
  2: { eapply (h_createRevert (to_depth (ix_depth x + 1) (grown 0 x))); try done. simpl. lia. }
  eapply h_bind; [apply (h_setAside s0 (to_depth (ix_depth x + 1) (grown 0 x))); [done|sound_side]|].
  intros aside. cbv beta. destruct (isErr aside).
  { eapply (h_createRevert (to_depth (ix_depth x + 1) (grown 0 x))); try done. simpl. lia. }
  assert (Hcg' : 0 <= ctx_Gas c) by apply Hcg.
  h_prim. rename a into saved.
  lazymatch goal with |- hoare (stands s0 ?w) _ _ _ =>
    eapply h_bind; [eapply (h_runInit w c); try done; simpl; lia|] end.
  intros [r e2]. apply h_pure. cbn [snd]. intros HU.
  eapply h_bind; [apply h_giveRest; [simpl; lia|exact HU]|]. intros []. destruct (isErr _ || _).
  - lazymatch goal with |- hoare (stands s0 ?w) _ _ _ => eapply (h_createFailed w) end; try done.
    destruct Hle. simpl in *. ix_side.
  - lazymatch goal with |- hoare (stands s0 ?w) _ _ _ => eapply (h_createFinish w) end; try done.
    + by apply (entered_same _ _ _ _ _ _ _ HE).
    + destruct Hle. simpl in *. ix_side.
Qed.
End blocks.

(** ** The instruction *)

Definition create_ok (nz : Prop) (s0 : St DB) (m : M (St DB) unit) (k : Z) : Prop :=
  hoare (fun s => s = s0) m (fun _ => created nz s0 (fin s0 k))
    (failed s0 (e_callDepth (env s0)) (w_reentryCounts (world s0))).

Lemma salt_ok st (c2 : bool) :
  ok st (if c2 then pop else mret (zero_array 32)) 0.
Proof. destruct c2; [eapply simple_weaken; [apply simple_pop|done|lia]|by apply simple_ret]. Qed.

(** The part of the handler that follows the operands. *)
Definition createRest (c2 : bool) (ops : Z * Word * list byte) : M (St DB) unit :=
  let '(value, salt, initCode) := ops in
  snapshot ← callDB Snapshot;
  if snapshot <? 0 then createFail else
  creator ← getCtx ctx_Address;
  contractAddr ←
    (if c2 then mret (Create2Address (i_crypto i) creator salt initCode)
     else nonce ← callDB (GetNonce creator); mret (CreateAddress (i_crypto i) creator nonce));
  ok ← createPrepare creator contractAddr value;
  if negb ok then createRevert snapshot
  else createRun i run contractAddr value initCode snapshot.

Lemma bind_assoc_at {A B C} (m : M (St DB) A) (f : A -> M (St DB) B) (g : B -> M (St DB) C) s :
  ((m ≫= f) ≫= g) s = (m ≫= (fun a => f a ≫= g)) s.
Proof. unfold mbind, M_bind. by destruct (m s) as [[]]. Qed.

Lemma bind_ext_at {A B} (m : M (St DB) A) (f g : A -> M (St DB) B) s :
  (forall a s, f a s = g a s) -> (m ≫= f) s = (m ≫= g) s.
Proof. intros H. unfold mbind, M_bind. destruct (m s) as [[]]; auto. Qed.

Lemma opCreateGeneric_split c2 s :
  opCreateGeneric i run c2 s = (createOperands c2 ≫= createRest c2) s.
Proof.
  unfold createOperands, opCreateGeneric.
  repeat (rewrite bind_assoc_at; apply bind_ext_at; intros ? ?). done.
Qed.

Lemma h_ext {A} P (m m' : M (St DB) A) Q E :
  (forall s, m s = m' s) -> hoare P m' Q E -> hoare P m Q E.
Proof. intros H Hm s HI HP. rewrite H. by apply Hm. Qed.

(** What was read, and that it is what the first state gives. *)
Lemma h_known {A} s0 (m : M (St DB) A) Q E :
  hoare (stands s0 (home s0)) m Q E ->
  hoare (fun s => s = s0) m (fun a s => (m s0).1 = Ok a /\ Q a s) E.
Proof.
  intros H s HI ->. destruct (H s0 HI (stands_home s0)) as [HI' HR]. split; [done|].
  by destruct (m s0).1.
Qed.

Lemma createOperands_ok s0 (c2 : bool) :
  hoare (stands s0 (home s0)) (createOperands c2)
    (fun ops s => (read_only s0 = false /\ 0 <= ops.1.1 /\ len ops.2 <= MaxInitCodeSize) /\
       stands s0 (grown (-3) (home s0)) s)
    (failed s0 (ix_depth (home s0)) (ix_counts (home s0))).
Proof.
  pose proof (sound_home s0) as Hx. unfold createOperands. h_ctx. h_prim. rename H into Hro.
  h_prim. rename a0 into value, H into Hv. h_prim. rename a0 into offset, H into Ho.
  h_prim. rename a0 into size, H into Hs.
  h_block salt_ok. rename a0 into salt. h_prim. rename H0 into Hsz. apply Z.ltb_ge in Hsz.
  unfold is_u64 in Ho, Hs. assert (Hn : 0 <= size <= MaxInitCodeSize) by lia. h_block createGas_ok. h_prim. h_prim.
  match goal with H : len ?c = size |- _ => rename H into Hcode end.
  apply h_ret. intros s HS. split; [simpl; split_and!; done || lia|]. apply (stands_le _ _ _ _ HS). ix_side.
Qed.

(** The address is the one the first state gives. *)
Lemma h_newAddress s0 x (c2 : bool) ops :
  (createOperands c2 s0).1 = Ok ops -> ix_still x = true -> sound s0 x ->
  let creator := ctx_Address (e_ctx (env s0)) in
  hoare (stands s0 x)
    (if c2 then mret (Create2Address (i_crypto i) creator ops.1.2 ops.2)
     else nonce ← callDB (GetNonce creator); mret (CreateAddress (i_crypto i) creator nonce))
    (fun a s => derivedAddress c2 s0 = Some a /\ stands s0 x s)
    (failed s0 (ix_depth x) (ix_counts x)).
Proof.
  intros HO Hst Hx creator. unfold derivedAddress. destruct c2.
  - rewrite HO. destruct ops as [[value salt] code]. by apply h_ret.
  - intros s HI HS.
    assert (HN : hoare (stands s0 x) (callDB (GetNonce creator)) (fun _ => stands s0 x)
      (failed s0 (ix_depth x) (ix_counts x))).
    { eapply h_conseq; [eapply (h_simple s0 x); [frame_prim|done]|done| |done].
      intros a t _ [_ H]. apply (stands_le _ _ _ _ H). ix_side. }
    destruct (HN s HI HS) as [HI' HR]. pose proof (GetNonce_view creator (db s)) as V.
    unfold mbind, M_bind, callDB in *. destruct (GetNonce creator (db s)) as [n d]. simpl in *.
    split; [done|]. split; [|done]. assert (HV : view (db s) ≈ view (db s0)) by (apply (sd_view _ _ _ HS); by rewrite Hst).
    destruct (HV creator) as (_ & EN & _). by rewrite V, EN.
Qed.

Lemma opCreateGeneric_ok s0 (c2 : bool) :
  i_gasTable i = DefaultGasTable -> run_ok (gas_left s0) -> ready s0 ->
  create_ok (derivedAddress c2 s0 <> Some zero_address) s0 (opCreateGeneric i run c2) (-2).
Proof.
  intros HT HX HD. eapply h_ext; [apply opCreateGeneric_split|].
  eapply h_bind; [apply h_known, createOperands_ok|]. intros ops. apply h_pure. intros HO.
  apply h_pure. intros (Hro & Hv & Hcode). pose proof (sound_home s0) as Hx.
  destruct ops as [[value salt] initCode]. cbn [fst snd] in *. unfold createRest.
  apply h_withSnapshot.
  { lazymatch goal with |- hoare (stands s0 ?z) _ _ _ => apply (h_createFail _ s0 z) end;
      [done|sound_side|ix_side]. }
  intros id l v HV. h_ctx.
  assert (HS : start s0 (home s0)) by (split; [done|done|done|apply HD]).
  saved_facts HS HV. ix_norm.
  lazymatch goal with |- hoare (stands s0 ?z) _ _ _ =>
    eapply h_bind; [apply (h_newAddress s0 z c2 _ HO); [done|sound_side]|] end.
  intros addr. apply h_pure. intros HA.
  assert (Hnz : derivedAddress c2 s0 <> Some zero_address -> addr <> zero_address) by congruence.
  lazymatch goal with |- hoare (stands s0 ?z) _ _ _ =>
    assert (HE : entered s0 z (e_activeAddresses (env s0)) id l v)
      by (eapply (saved_entered s0 (home s0)); try done; simpl; by rewrite firstn_all);
    eapply h_bind; [eapply (h_write s0 z); [apply createPrepare_ok; lia|done|sound_side]|]
  end.
  intros ok. apply h_pure. intros _. ix_norm. destruct ok; cbn [negb].
  - lazymatch goal with |- hoare (stands s0 ?z) _ _ _ => apply (h_createRun _ s0 Hro HT HX z _
      (e_activeAddresses (env s0)) addr value initCode id l v) end;
      [apply (entered_same _ _ _ _ _ _ _ HE); simpl; [reflexivity|reflexivity|lia]|reflexivity
      |apply HD|apply HD|lia|exact Hnz|ix_side].
  - lazymatch goal with |- hoare (stands s0 ?z) _ _ _ =>
      apply (h_createRevert _ s0 z _ _ _ id l v HE) end; [reflexivity|simpl; lia|ix_side].
Qed.
End create.
