(* ===== verification/Safety.v ===== *)
(** * Safety and termination of the interpreter

    Every frame runs to its end: with fuel proportional to its gas, [run] and
    [Execute] return a result, no handler panics, the gas used is at most the
    gas given, the reentry counters and the caller's snapshots are as they
    were, no value is minted, and a read-only frame leaves the accounts alone.
    The measure is twice the gas left plus the height of the stack: an
    instruction that runs no frame costs gas and pushes at most one word, and
    one that does pops at least two words more than it pushes and hands its
    callee only gas it has set aside. *)

From Stdlib Require Import ZArith Lia.
From Stdlib.Strings Require Import Byte.
From stdpp Require Import base list countable gmap strings numbers.
From S2P Require Import Prelude Stack Memory Gas Opcodes StateDB Env OpsArith OpsState Bytecode Calls Interp Frame FrameOps CallFrame CallRules CallOps CallFamily CreateOps.

Section safety.
Context {DB : Type} `{!StateDB DB} `{!StateDBLaws DB} (i : Interpreter DB).
Implicit Types s : St DB.
Local Abbreviation db s := (w_db (world s)).
Local Abbreviation used s := (gm_used (e_gas (env s))).
Local Abbreviation read_only s := (ctx_ReadOnly (e_ctx (env s))).

(** What a frame keeps from one of its states to a later one. *)
Definition kept (s s' : St DB) : Prop :=
  failed s (e_callDepth (env s)) (w_reentryCounts (world s)) s'.

#[local] Instance kept_preorder : PreOrder kept.
Proof.
  split.
  - intros s. by split.
  - intros a b c H K. destruct H, K. split; try congruence; try lia.
    etransitivity; [done|]. by rewrite <- fl_ctx.
Qed.

(** A call or a creation leaves more than [kept]: the frame's own lists too. *)
Record restored (s s' : St DB) : Prop := mkRestored {
  rs_kept : kept s s';
  rs_dests : e_jumpDests (env s') = e_jumpDests (env s);
  rs_parents : e_parents (env s') = e_parents (env s);
  rs_active : e_activeAddresses (env s') = e_activeAddresses (env s)
}.

Lemma prim_restored s s' : prim (read_only s) s s' -> restored s s'.
Proof. intros []. split; try done. split; try done. by apply dbR_dbP. Qed.

Lemma stands_restored s k s' : stands s (fin s k) s' -> restored s s'.
Proof.
  intros H. split; try apply H. apply (stands_failed s (fin s k) s' H); done.
Qed.

(** ** One instruction *)

Definition growth (op : OpCode) : Z := if isCallOp op then -2 else 1.

(** The outcome of an instruction that keeps the frame's promises. *)
Definition op_result (s : St DB) (k : Z) (r : res unit * St DB) : Prop :=
  Inv r.2 /\
  match r.1 with
  | Ok _ => restored s r.2 /\ stack_len r.2 <= stack_len s + k
  | Err _ => kept s r.2
  | _ => False
  end.

Context (HT : i_gasTable i = DefaultGasTable) (HR : registry_ok i).

Lemma call_op_result s (m : M (St DB) unit) k :
  Inv s -> k <= -2 -> call_ok s m k -> op_result s (-2) (m s).
Proof.
  intros HI Hk Hm. destruct (Hm s HI eq_refl) as [HI' Hr]. split; [done|].
  destruct (m s).1; try done. destruct Hr as [HS _]. split; [by eapply stands_restored|].
  pose proof (sd_stack _ _ _ HS). simpl in *. lia.
Qed.

Lemma executeOp_ok execute run s op :
  Inv s -> ready s ->
  (isCallOp op = true -> exec_ok (gas_left s) execute /\ run_ok run (gas_left s)) ->
  op_result s (growth op) (executeOp i execute run op s).
Proof.
  intros HI HD HX. unfold growth. destruct (isCallOp op) eqn:EC.
  - destruct (HX eq_refl) as [HE HU].
    assert (HC : forall c2, op_result s (-2) (opCreateGeneric i run c2 s)).
    { intros c2. destruct (opCreateGeneric_ok i run s c2 HT HU HD s HI eq_refl) as [HI' Hr].
      split; [done|]. destruct (opCreateGeneric i run c2 s).1; try done.
      destruct Hr as [HS _]. split; [by eapply stands_restored|]. apply HS. }
    destruct op; try discriminate EC; cbn [executeOp];
      lazymatch goal with
      | |- op_result _ _ (opCall _ _ _) => apply (call_op_result _ _ (-6)), opCall_ok
      | |- op_result _ _ (opCallCode _ _ _) => apply (call_op_result _ _ (-6)), opCallCode_ok
      | |- op_result _ _ (opDelegateCall _ _ _) => apply (call_op_result _ _ (-5)), opDelegateCall_ok
      | |- op_result _ _ (opStaticCall _ _ _) => apply (call_op_result _ _ (-5)), opStaticCall_ok
      | |- op_result _ _ (opAuthCall _ _ _) => apply (call_op_result _ _ (-6)), opAuthCall_ok
      | |- op_result _ _ (opAuth _ _) => apply (call_op_result _ _ (-2)), opAuth_ok
      | |- _ => apply HC
      end; done || lia.
  - destruct (plain_op_ok i execute run op EC s HI) as (HP & HI' & Hr). split; [done|].
    destruct (executeOp i execute run op s).1; try done; [split; [|done]|]; by apply prim_restored.
Qed.

Definition isCreateOp (op : OpCode) : bool :=
  match op with CREATE | CREATE2 => true | _ => false end.

Definition isCreate2 (op : OpCode) : bool :=
  match op with CREATE2 => true | _ => false end.

(** An instruction that calls or creates and answers zero changed no account;
    for a creation, if the address it derives is not the zero address. *)
Lemma executeOp_flag execute run s s' op :
  Inv s -> ready s -> isCallOp op = true -> exec_ok (gas_left s) execute -> run_ok run (gas_left s) ->
  (isCreateOp op = true -> derivedAddress i (isCreate2 op) s <> Some zero_address) ->
  executeOp i execute run op s = (Ok tt, s') -> flag_ok s s'.
Proof.
  intros HI HD HC HE HU HZ EO.
  assert (K : forall m k, call_ok s m k -> m s = (Ok tt, s') -> flag_ok s s').
  { intros m k Hm Em. destruct (Hm s HI eq_refl) as [_ Hr]. rewrite Em in Hr. apply Hr. }
  assert (KC : forall c2, derivedAddress i c2 s <> Some zero_address -> opCreateGeneric i run c2 s = (Ok tt, s') -> flag_ok s s').
  { intros c2 Hz Em. destruct (opCreateGeneric_ok i run s c2 HT HU HD s HI eq_refl) as [_ Hr].
    rewrite Em in Hr. by apply Hr. }
  destruct op; try discriminate HC; cbn [executeOp] in EO;
    lazymatch type of EO with
    | opCall _ _ _ = _ => by eapply K; [apply opCall_ok|]
    | opCallCode _ _ _ = _ => by eapply K; [apply opCallCode_ok|]
    | opDelegateCall _ _ _ = _ => by eapply K; [apply opDelegateCall_ok|]
    | opStaticCall _ _ _ = _ => by eapply K; [apply opStaticCall_ok|]
    | opAuthCall _ _ _ = _ => by eapply K; [apply opAuthCall_ok|]
    | opAuth _ _ = _ => by eapply K; [apply opAuth_ok|]
    | _ => by eapply KC; [apply HZ|]
    end.
Qed.

(** ** Terminal instructions stop the frame *)

Definition stops {A} (m : M (St DB) A) : Prop :=
  forall s a s', m s = (Ok a, s') -> e_stopped (env s') = true.

Lemma stops_bind {A B} (m : M (St DB) A) (f : A -> M (St DB) B) :
  (forall a, stops (f a)) -> stops (m ≫= f).
Proof.
  intros Hf s a s'. unfold mbind, M_bind. destruct (m s) as [[x| | |] s1]; try done. apply Hf.
Qed.

Lemma stops_modE f : (forall e, e_stopped (f e) = true) -> stops (modE f).
Proof. intros Hf s a s' [= <- <-]. apply Hf. Qed.

Lemma stops_selfDestructBody b : stops (selfDestructBody b).
Proof. unfold selfDestructBody. repeat (apply stops_bind; intros ?). by apply stops_modE. Qed.

Lemma stops_deferPop (m : M (St DB) unit) :
  stops m -> stops (defer (fun s => mkSt (PopActiveAddress (env s)) (world s)) m).
Proof.
  intros Hm s a s'. unfold defer. destruct (m s) as [[x| | |] s1] eqn:E; try done.
  intros [= -> <-]. apply Hm in E. simpl. unfold PopActiveAddress. by case_match.
Qed.

Lemma terminal_stops execute run op :
  IsTerminal (opcodeInfoTable op) = true -> stops (executeOp i execute run op).
Proof.
  destruct op; try discriminate 1; intros _; cbn [executeOp].
  - by apply stops_modE.
  - apply stops_bind. intros _. by apply stops_modE.
  - unfold opRevert. apply stops_bind. intros _ s a s' [= <- <-]. done.
  - done.
  - unfold opSelfDestruct. repeat (apply stops_bind; intros ?).
    case_match; [by apply stops_modE|]. repeat (apply stops_bind; intros ?).
    case_match; [by apply stops_modE|]. apply stops_bind. intros [pushed e]. apply stops_bind. intros _.
    case_match; [apply stops_deferPop|]; apply stops_selfDestructBody.
Qed.

(** ** The instruction table *)

Lemma table_cost op :
  is_u64 (GasCost (opcodeInfoTable op)) /\
  (isCallOp op = true -> 3 <= StackPop (opcodeInfoTable op)) /\
  (isCallOp op = false -> IsTerminal (opcodeInfoTable op) = false ->
     1 <= GasCost (opcodeInfoTable op)).
Proof. unfold is_u64. destruct op; (split; [by split|]); split; intros; try discriminate; done. Qed.

(** ** One step of the loop *)

Definition measure (s : St DB) : Z := 2 * gas_left s + stack_len s.

Lemma exec_ok_le G G' (f : ExecutionContext -> M (World DB) ExecutionResult) :
  G' <= G -> exec_ok G f -> exec_ok G' f.
Proof. intros HG H c w Hc Hp Hg. apply H; try done. lia. Qed.

Lemma run_ok_le G G' (f : Environment -> M (World DB) (ExecutionResult * Environment)) :
  G' <= G -> run_ok f G -> run_ok f G'.
Proof. intros HG H e w HI Hc Hf Hg. apply H; try done. lia. Qed.

(** Stopping with an error. *)
Lemma stopWith_ok e s :
  Inv s -> exists s', stopWith e s = (Ok tt, s') /\ Inv s' /\ kept s s' /\ e_stopped (env s') = true.
Proof.
  intros HI. eexists. split; [reflexivity|]. destruct HI. split; [by split|]. split; [|done].
  by split.
Qed.

(** What a step of the loop achieves; [c] tells whether the loop goes on. *)
Definition stepped (s : St DB) (c : bool) (s' : St DB) : Prop :=
  Inv s' /\ kept s s' /\ (c = true -> e_stopped (env s') = true \/ measure s' < measure s).

Lemma consume_used g s s' :
  Inv s -> is_u64 g -> consume g s = (Ok tt, s') ->
  used s' = used s + g /\ stack_len s' = stack_len s.
Proof.
  intros HI Hg. unfold consume, onGas, zoom. rewrite Consume_eq by (done || apply HI).
  repeat case_match; intros; simplify_eq; done.
Qed.

Lemma kept_gas s s' : kept s s' -> gas_left s' <= gas_left s.
Proof. intros []. unfold gas_left. rewrite fl_ctx. lia. Qed.

Lemma kept_ready s s' : kept s s' -> ready s -> ready s'.
Proof. intros [] []. split; rewrite ?fl_ctx, ?fl_depth; done. Qed.

(** The instruction itself, its error handled. *)
Lemma runOp_ok execute run op s g :
  Inv s -> ready s -> g = GasCost (opcodeInfoTable op) ->
  (isCallOp op = true -> exec_ok (gas_left s) execute /\ run_ok run (gas_left s)) ->
  exists c s', (err ← errOf (executeOp i execute run op);
     match err with Some e => stopWith e;; mret false | None => mret true end) s = (Ok c, s') /\
  Inv s' /\ kept s s' /\
  (c = true -> e_stopped (env s') = true \/ measure s' < measure s + 2 * g).
Proof.
  intros HI HD Hg HX. pose proof (executeOp_ok execute run s op HI HD HX) as [HI' HO].
  pose proof (terminal_stops execute run op) as HS. destruct (table_cost op) as (_ & HP & HC).
  unfold mbind, M_bind at 1. rewrite errOf_run.
  destruct (executeOp i execute run op s) as [[[]|e| |] s'] eqn:EO; simpl in HI', HO; try done.
  - destruct HO as [HK HL]. exists true, s'. split; [done|]. split; [done|]. split; [apply HK|]. intros _.
    destruct (IsTerminal (opcodeInfoTable op)) eqn:ET; [left; by eapply HS|right].
    pose proof (kept_gas _ _ (rs_kept _ _ HK)). unfold measure, growth in *.
    destruct (isCallOp op) eqn:EC; [|specialize (HC eq_refl eq_refl); lia].
    destruct (table_cost op) as [[? _] _]. lia.
  - destruct (stopWith_ok e s' HI') as (s2 & E2 & HI2 & HK2 & _).
    exists false, s2. unfold mbind, M_bind. rewrite E2. split; [done|]. split; [done|].
    split; [by etransitivity|done].
Qed.

Lemma stepOp_ok execute run b s :
  Inv s -> ready s ->
  (3 <= stack_len s -> exec_ok (gas_left s) execute /\ run_ok run (gas_left s)) ->
  exists c s', stepOp i execute run b s = (Ok c, s') /\ stepped s c s'.
Proof.
  intros HI HD HX.
  assert (HS : forall e s1, Inv s1 -> kept s s1 ->
    exists c s', (stopWith e;; mret false) s1 = (Ok c, s') /\ stepped s c s').
  { intros e s1 HI1 HK1. destruct (stopWith_ok e s1 HI1) as (s2 & E2 & HI2 & HK2 & _).
    exists false, s2. unfold mbind, M_bind. rewrite E2. split; [done|]. split; [done|].
    split; [by etransitivity|done]. }
  unfold stepOp. destruct (decode b) as [op|]; [|by apply HS].
  unfold getE at 1. rewrite bind_gets. fold (stack_len s).
  destruct (Z.ltb_spec (stack_len s) (StackPop (opcodeInfoTable op))); [by apply HS|]. cbv zeta.
  destruct (MaxStackSize <? _); [by apply HS|].
  destruct (table_cost op) as (HG & HP & _).
  destruct (simple_consume true _ HG s HI) as (HP1 & HI1 & HR1).
  unfold mbind at 1, M_bind at 1. rewrite errOf_run.
  destruct (consume (GasCost (opcodeInfoTable op)) s) as [[[]|e| |] s1] eqn:EC; simpl in HP1, HI1; try done.
  2: { apply HS; [done|]. by apply prim_restored, prim_still. }
  destruct (consume_used _ _ _ HI HG EC) as [HU HL].
  unfold modE at 1. rewrite bind_modify. set (s2 := mkSt _ _).
  assert (HI2 : Inv s2).
  { destruct HI1. split; try done. apply u64_range. }
  assert (HK1 : kept s s1) by (by apply prim_restored, prim_still).
  assert (HK2 : kept s s2) by (destruct HK1; by split).
  pose proof (kept_gas _ _ HK2) as HG2.
  destruct (runOp_ok execute run op s2 _ HI2 (kept_ready _ _ HK2 HD) eq_refl) as (c & s3 & E3 & HI3 & HK3 & HM).
  { intros ECO. destruct HX as [HX1 HX2]; [specialize (HP ECO); lia|].
    split; [by eapply exec_ok_le|by eapply run_ok_le]. }
  exists c, s3. split; [done|]. split; [done|]. split; [by etransitivity|]. intros Hc.
  destruct (HM Hc) as [?|HM']; [by left|right].
  unfold measure, gas_left in *. rewrite (fl_ctx _ _ _ _ HK2) in HM'.
  change (stack_len s2) with (stack_len s1) in HM'. change (used s2) with (used s1) in HM'.
  lia.
Qed.

(** ** A frame *)

(** A main loop that ends, for frames with at most [G] gas. *)
Definition main_ok (G : Z) (main : M (St DB) unit) : Prop :=
  forall s, Inv s -> ready s -> fresh (env s) -> ctx_Gas (e_ctx (env s)) <= G ->
  exists s', main s = (Ok tt, s') /\ Inv s' /\ kept s s'.

Lemma FinalUsed_range g : meter_ok g -> 0 <= FinalUsed g <= gm_used g.
Proof.
  intros H. rewrite FinalUsed_eq by done. pose proof (RefundAmount_range g H).
  destruct H as (_ & ? & _). zlia.
Qed.

Lemma fresh_ready e (w : World DB) : ctx_ok (e_ctx e) -> fresh e -> ready (mkSt e w).
Proof. intros [] []. split; simpl; [done|]. by rewrite fr_depth. Qed.

Lemma runWith_ok G main : main_ok G main -> run_ok (runWith main) G.
Proof.
  intros Hm e w HI Hc Hf Hg.
  destruct (Hm (mkSt e w) HI (fresh_ready e w Hc Hf) Hf Hg) as (s' & EM & HI' & HK).
  unfold runWith. rewrite EM. eexists _, _, _. split; [reflexivity|].
  split; [split; [apply HK|]; split; [apply HK|apply HI']|].
  pose proof (inv_gas s' HI') as HG. pose proof (inv_limit s' HI') as HL.
  rewrite (fl_ctx _ _ _ _ HK) in HL. simpl in *. pose proof (FinalUsed_range _ HG).
  destruct HG as (_ & ? & _). unfold Used. lia.
Qed.

(** ** A call *)

(** The frame [Execute] prepares. *)
Definition entryEnv (c : ExecutionContext) (dests : gset Z) (active : list Address)
    (parents : list (list Address)) (tr : nat) : Environment :=
  set_e_jumpDests dests
    (PushActiveAddress (ctx_Address c)
       (newEnvironment i c ∅ (u64 (ctx_Depth c)) active parents (ctx_BlockHashes c) tr)).2.

Lemma entryEnv_ok c dests active parents tr (w : World DB) :
  ctx_ok c -> counts_ok (w_reentryCounts w) -> db_ok (w_db w) ->
  Inv (mkSt (entryEnv c dests active parents tr) w) /\ fresh (entryEnv c dests active parents tr) /\
  e_ctx (entryEnv c dests active parents tr) = c.
Proof.
  intros Hc HC HO. destruct (newEnvironment_ok i c ∅ active parents (ctx_BlockHashes c) tr w HT Hc HC HO)
    as [HI HF].
  unfold entryEnv, PushActiveAddress. destruct (MaxActiveCallDepth <=? _); simpl.
  - split; [destruct HI; by split|]. split; [destruct HF; by split|done].
  - split; [destruct HI; by split|]. split; [destruct HF; by split|done].
Qed.

(** [Execute] with the parent's parts known. *)
Lemma executeWith_ok G run c (w : World DB) :
  run_ok run G -> ctx_ok c -> ctx_Gas c <= G -> db_ok (w_db w) -> counts_ok (w_reentryCounts w) ->
  exists r w', executeWith i run c w = (Ok r, w') /\ 0 <= GasUsed r <= ctx_Gas c /\
    dbP (ctx_ReadOnly c) (w_db w) (w_db w') /\ db_ok (w_db w') /\
    w_reentryCounts w' =
      (if bool_decide (is_Some (ctx_ParentEnv c)) then w_reentryCounts w else ∅).
Proof.
  intros Hr Hc Hg HO HC. unfold executeWith.
  set (pre := match ctx_ParentEnv c with Some p => mret (pe_transientStorage p) | None => _ end).
  assert (HP : exists tr w1, pre w = (Ok tr, w1) /\ w_db w1 = w_db w /\ counts_ok (w_reentryCounts w1) /\
    w_reentryCounts w1 = (if bool_decide (is_Some (ctx_ParentEnv c)) then w_reentryCounts w else ∅)).
  { unfold pre. destruct (ctx_ParentEnv c) as [p|].
    - by exists (pe_transientStorage p), w.
    - exists (w_next w), (freshWorld w). split; [done|]. split; [done|]. by split. }
  destruct HP as (tr & w1 & EP & ED & HC1 & EC1). rewrite (bind_Ok _ _ _ _ _ EP).
  destruct (match ctx_ParentEnv c with Some p => _ | None => _ end) as [active parents]. cbv zeta.
  destruct (analyzeJumpDests_ok i (ctx_Code c) w1) as (dests & w2 & EA & ED2 & EC2).
  rewrite (bind_Ok _ _ _ _ _ EA), bind_gets. fold (entryEnv c dests active parents tr).
  destruct (entryEnv_ok c dests active parents tr w2 Hc) as (HI & HF & HE);
    [by rewrite EC2|by rewrite ED2, ED|].
  destruct (Hr _ w2 HI ltac:(by rewrite HE) HF ltac:(by rewrite HE)) as (r & e' & w3 & ER & HW & HU & _).
  rewrite HE in *. destruct HW as (HW1 & HW2 & HW3).
  rewrite (bind_Ok _ _ _ _ _ ER). cbn [fst]. rewrite ED2, ED in HW2.
  destruct (_ && _); simpl; eexists _, _; (split; [reflexivity|]); simpl; rewrite HW1, EC2, EC1; done.
Qed.

Lemma executeWith_exec_ok G run : run_ok run G -> exec_ok G (executeWith i run).
Proof.
  intros Hr c w Hc Hp Hg HC HO.
  destruct (executeWith_ok G run c w Hr Hc Hg HO HC) as (r & w' & E & HU & HD & HO' & HC').
  exists r, w'. split; [done|]. split; [|done]. split; [|done]. by rewrite bool_decide_true in HC'.
Qed.

(** ** The loop *)

(** Enough fuel for the rest of a frame. *)
Definition enough (n : nat) (s : St DB) : Prop :=
  if e_stopped (env s) then 1 <= Z.of_nat n else measure s + 2 <= Z.of_nat n.

Lemma measure_nonneg s : Inv s -> 0 <= gas_left s /\ 0 <= stack_len s.
Proof.
  intros HI. destruct HI. destruct inv_gas as (_ & ? & _). unfold gas_left, stack_len, Len, len. lia.
Qed.

Lemma loop_ok n : forall oc polls s,
  Inv s -> ready s -> enough n s ->
  exists s', loop i n oc polls s = (Ok tt, s') /\ Inv s' /\ kept s s'.
Proof.
  induction n as [|n IH]; intros oc polls s HI HD HE.
  { unfold enough in HE. destruct (measure_nonneg s HI). unfold measure in HE. case_match; lia. }
  assert (HRUN : forall G, 2 * G + 2 <= Z.of_nat n -> run_ok (runWith (loop i n 0 0)) G).
  { intros G HG. apply runWith_ok. intros s1 HI1 HD1 HF1 HG1. apply IH; [done|done|].
    unfold enough, measure, gas_left, stack_len. destruct HF1. rewrite fr_used, fr_stack.
    destruct (measure_nonneg s1 HI1) as [HN _]. unfold gas_left in HN. case_match; lia. }
  cbn [loop]. unfold iterate, getE. rewrite bind_gets. cbv zeta. change (id (env s)) with (env s).
  destruct (negb (e_stopped (env s)) && _) eqn:EC.
  2: { exists s. split; [done|]. by split. }
  apply andb_true_iff in EC as [ES%negb_true_iff _]. unfold enough in HE. rewrite ES in HE.
  destruct (pollAbort _ oc polls) as [[aborted oc'] polls'].
  destruct aborted.
  { destruct (stopWith_ok (ErrErrorf "execution aborted") s HI) as (s' & E & HI' & HK & _). by exists s'. }
  destruct (measure_nonneg s HI) as [HN1 HN2]. unfold measure in HE.
  destruct (stepOp_ok (executeWith i (runWith (loop i n 0 0))) (runWith (loop i n 0 0))
    (nth_byte (ctx_Code (e_ctx (env s))) (e_pc (env s))) s HI HD) as (c & s1 & E1 & HI1 & HK1 & HM).
  { intros H3. assert (HR1 : run_ok (runWith (loop i n 0 0)) (gas_left s)) by (apply HRUN; lia).
    split; [by apply executeWith_exec_ok|done]. }
  rewrite (bind_Ok _ _ _ _ _ E1). destruct c; [|by exists s1].
  destruct (IH oc' polls' s1 HI1 (kept_ready _ _ HK1 HD)) as (s2 & E2 & HI2 & HK2).
  { unfold enough. destruct (e_stopped (env s1)); [lia|].
    destruct (HM eq_refl) as [?|HM']; [done|]. unfold measure in *. lia. }
  exists s2. split; [done|]. split; [done|]. by etransitivity.
Qed.

(** The fuel a frame with gas [g] needs. *)
Definition frame_fuel (g : Z) : nat := Z.to_nat (2 * g + 2).

Lemma run_total n G : (frame_fuel G <= n)%nat -> run_ok (run i n) G.
Proof.
  intros HG. unfold frame_fuel in HG. apply runWith_ok. intros s HI HD HF HG1. apply loop_ok; [done|done|].
  unfold enough, measure, gas_left, stack_len. destruct HF. rewrite fr_used, fr_stack.
  destruct (measure_nonneg s HI) as [HN _]. unfold gas_left in HN. case_match; lia.
Qed.

Lemma Execute_total n c (w : World DB) :
  ctx_ok c -> (frame_fuel (ctx_Gas c) <= n)%nat -> db_ok (w_db w) -> counts_ok (w_reentryCounts w) ->
  exists r w', Execute i n c w = (Ok r, w') /\ 0 <= GasUsed r <= ctx_Gas c /\
    dbP (ctx_ReadOnly c) (w_db w) (w_db w') /\ db_ok (w_db w') /\
    w_reentryCounts w' =
      (if bool_decide (is_Some (ctx_ParentEnv c)) then w_reentryCounts w else ∅).
Proof. intros Hc Hn HO HC. eapply executeWith_ok; [by apply run_total|done|lia|done|done]. Qed.
End safety.
