(* ===== verification/Fuel.v ===== *)
(** * Fuel

    The model runs the interpreter with fuel. Here: a run that did not run out
    of fuel gives the same answer with any larger fuel, so the fuel is not part
    of what the interpreter computes. [m ⊑ m'] says that [m'] does what [m]
    does wherever [m] has enough fuel; every construct of the interpreter is
    monotone for it. *)

From Stdlib Require Import ZArith Lia.
From Stdlib.Strings Require Import Byte.
From stdpp Require Import base list countable gmap strings numbers.
From S2P Require Import Prelude Stack Memory Gas Opcodes StateDB Env OpsArith OpsState Bytecode Calls Interp.

Definition refines {S A} (m m' : M S A) : Prop := forall s, (m s).1 = NoFuel \/ m s = m' s.
Declare Scope fuel_scope.
Infix "⊑m" := refines (at level 70) : fuel_scope.
Local Open Scope fuel_scope.

#[export] Instance refines_preorder S A : PreOrder (@refines S A).
Proof.
  split; [by right|]. intros m1 m2 m3 H1 H2 s. destruct (H1 s) as [E|E]; [by left|].
  rewrite E. apply H2.
Qed.

Lemma refines_refl {S A} (m : M S A) : m ⊑m m.
Proof. reflexivity. Qed.

Lemma refines_bind {S A B} (m m' : M S A) (f f' : A -> M S B) :
  m ⊑m m' -> (forall a, f a ⊑m f' a) -> (m ≫= f) ⊑m (m' ≫= f').
Proof.
  intros Hm Hf s. unfold mbind, M_bind. destruct (Hm s) as [E|E].
  - left. by destruct (m s) as [[] ?].
  - rewrite <- E. destruct (m s) as [[a|e| |] s']; try (by right). apply Hf.
Qed.

Lemma refines_attempt {S A} (m m' : M S A) : m ⊑m m' -> attempt m ⊑m attempt m'.
Proof.
  intros Hm s. unfold attempt. destruct (Hm s) as [E|E].
  - left. by destruct (m s) as [[] ?].
  - rewrite <- E. by right.
Qed.

Lemma refines_defer {S A} (f : S -> S) (m m' : M S A) : m ⊑m m' -> defer f m ⊑m defer f m'.
Proof.
  intros Hm s. unfold defer. destruct (Hm s) as [E|E].
  - left. by destruct (m s) as [[] ?].
  - rewrite <- E. by right.
Qed.

Lemma refines_zoom {S T A} (get : T -> S) set (m m' : M S A) :
  m ⊑m m' -> zoom get set m ⊑m zoom get set m'.
Proof.
  intros Hm t. unfold zoom. destruct (Hm (get t)) as [E|E].
  - left. by destruct (m (get t)) as [[] ?].
  - rewrite <- E. by right.
Qed.

(** Walks through a definition: the parts that run no callee are equal, a case
    analysis is the same on both sides. *)
Ltac refines_step :=
  lazymatch goal with
  | |- ?m ⊑m ?m' =>
      tryif constr_eq m m' then exact (refines_refl m) else
      lazymatch m with
      | mbind _ _ => apply refines_bind; [|intros ?]
      | attempt _ => apply refines_attempt
      | defer _ _ => apply refines_defer
      | zoom _ _ _ => apply refines_zoom
      | match ?x with _ => _ end => destruct x
      | _ => first [progress cbv zeta | match goal with
                 | H : forall x, _ ⊑m _ |- _ => apply H
                 | H : forall x y, _ ⊑m _ |- _ => apply H
                 end]
      end
  end.
Ltac refines := repeat refines_step.

Section mono.
Context {DB : Type} `{!StateDB DB} (i : Interpreter DB).
Context (execute execute' : ExecutionContext -> M (World DB) ExecutionResult).
Context (run run' : Environment -> M (World DB) (ExecutionResult * Environment)).
Context (Hexecute : forall c, execute c ⊑m execute' c) (Hrun : forall e, run e ⊑m run' e).

Ltac mono_op := unfold withReentryGuard, enterCall, onWorld; refines.

Lemma opCall_mono : opCall i execute ⊑m opCall i execute'.
Proof. unfold opCall, callBody. mono_op. Qed.

Lemma opStaticCall_mono : opStaticCall i execute ⊑m opStaticCall i execute'.
Proof. unfold opStaticCall, staticCallBody. mono_op. Qed.

Lemma opDelegateCall_mono : opDelegateCall i execute ⊑m opDelegateCall i execute'.
Proof. unfold opDelegateCall, delegateCallBody. mono_op. Qed.

Lemma opCallCode_mono : opCallCode i execute ⊑m opCallCode i execute'.
Proof. unfold opCallCode, callCodeBody. mono_op. Qed.

Lemma opAuthCall_mono : opAuthCall i execute ⊑m opAuthCall i execute'.
Proof. unfold opAuthCall, authCallBody. mono_op. Qed.

Lemma opCreateGeneric_mono b : opCreateGeneric i run b ⊑m opCreateGeneric i run' b.
Proof. unfold opCreateGeneric, createRun. mono_op. Qed.

Lemma executeOp_mono op : executeOp i execute run op ⊑m executeOp i execute' run' op.
Proof.
  unfold executeOp. destruct op; cbn match;
    lazymatch goal with
    | |- opCall _ _ ⊑m _ => apply opCall_mono
    | |- opStaticCall _ _ ⊑m _ => apply opStaticCall_mono
    | |- opDelegateCall _ _ ⊑m _ => apply opDelegateCall_mono
    | |- opCallCode _ _ ⊑m _ => apply opCallCode_mono
    | |- opAuthCall _ _ ⊑m _ => apply opAuthCall_mono
    | |- opCreate _ _ ⊑m _ => apply opCreateGeneric_mono
    | |- opCreate2 _ _ ⊑m _ => apply opCreateGeneric_mono
    | |- ?m ⊑m _ => exact (refines_refl m)
    end.
Qed.

Lemma stepOp_mono b : stepOp i execute run b ⊑m stepOp i execute' run' b.
Proof.
  pose proof executeOp_mono as H. unfold stepOp, errOf. refines.
Qed.

Lemma iterate_mono opCounter polls k k' :
  (forall n p, k n p ⊑m k' n p) ->
  iterate i execute run opCounter polls k ⊑m iterate i execute' run' opCounter polls k'.
Proof. intros Hk. pose proof stepOp_mono as H. unfold iterate. refines. Qed.
End mono.

Section fuel.
Context {DB : Type} `{!StateDB DB} (i : Interpreter DB).

Lemma runWith_mono (main main' : M (St DB) unit) e :
  main ⊑m main' -> runWith main e ⊑m runWith main' e.
Proof.
  intros H w. unfold runWith. destruct (H (mkSt e w)) as [E|E].
  - left. destruct (main (mkSt e w)) as [[] ?]; simpl in *; congruence.
  - right. by rewrite E.
Qed.

Lemma executeWith_mono run run' c :
  (forall e, run e ⊑m run' e) -> executeWith i run c ⊑m executeWith i run' c.
Proof. intros H. unfold executeWith. refines. Qed.

Lemma loop_S n opCounter polls : loop i n opCounter polls ⊑m loop i (S n) opCounter polls.
Proof.
  revert opCounter polls. induction n as [|n IH]; intros opCounter polls; [by left|].
  change (loop i (S n) opCounter polls) with
    (iterate i (executeWith i (runWith (loop i n 0 0))) (runWith (loop i n 0 0)) opCounter polls (loop i n)).
  change (loop i (S (S n)) opCounter polls) with
    (iterate i (executeWith i (runWith (loop i (S n) 0 0))) (runWith (loop i (S n) 0 0)) opCounter polls
       (loop i (S n))).
  apply iterate_mono; [|intros; by apply runWith_mono|done].
  intros c. apply executeWith_mono. intros e. by apply runWith_mono.
Qed.

Lemma loop_mono n m opCounter polls :
  (n <= m)%nat -> loop i n opCounter polls ⊑m loop i m opCounter polls.
Proof. induction 1 as [|m _ IH]; [reflexivity|]. etransitivity; [exact IH|apply loop_S]. Qed.

Lemma Execute_mono n m c : (n <= m)%nat -> Execute i n c ⊑m Execute i m c.
Proof. intros H. apply executeWith_mono. intros e. by apply runWith_mono, loop_mono. Qed.
End fuel.
