(* ===== verification/Control.v ===== *)
(** * Control flow

    Which fields of its frame an instruction can change. [keeps π m] says that
    [m] leaves the projection [π] of the frame alone; every instruction but the
    jumps and the pushes keeps the program counter, the context and the jump
    destinations. It follows that the program counter of a running frame is
    always on an instruction boundary of its code, and that a frame at the
    depth limit runs no callee. *)

From Stdlib Require Import ZArith Lia.
From Stdlib.Strings Require Import Byte.
From stdpp Require Import base list countable gmap strings numbers.
From S2P Require Import Prelude Stack Memory Gas Opcodes StateDB Env OpsArith OpsState Bytecode Calls Interp.

(** A projection of the frame that the writes of the instructions do not reach. *)
Class Stable {A} (π : Environment -> A) : Prop := {
  stable_stack v e : π (set_e_stack v e) = π e;
  stable_memory v e : π (set_e_memory v e) = π e;
  stable_gas v e : π (set_e_gas v e) = π e;
  stable_logs v e : π (set_e_logs v e) = π e;
  stable_returnData v e : π (set_e_returnData v e) = π e;
  stable_stopped v e : π (set_e_stopped v e) = π e;
  stable_reverted v e : π (set_e_reverted v e) = π e;
  stable_err v e : π (set_e_err v e) = π e;
  stable_active v e : π (set_e_activeAddresses v e) = π e;
  stable_selfDestructed v e : π (set_e_selfDestructed v e) = π e;
  stable_beneficiary v e : π (set_e_selfDestructBeneficiary v e) = π e;
  stable_transient v e : π (set_e_transientStorage v e) = π e;
  stable_authorized v e : π (set_e_authorizedAddress v e) = π e;
  stable_regions v e : π (set_e_pqcKeyRegions v e) = π e
}.

Create Rewrite HintDb stable.
#[export] Hint Rewrite @stable_stack @stable_memory @stable_gas @stable_logs @stable_returnData
  @stable_stopped @stable_reverted @stable_err @stable_active @stable_selfDestructed
  @stable_beneficiary @stable_transient @stable_authorized @stable_regions using typeclasses eauto : stable.

#[export] Instance stable_pair {A B} (π : Environment -> A) (ρ : Environment -> B) :
  Stable π -> Stable ρ -> Stable (fun e => (π e, ρ e)).
Proof. by intros [] []; split; intros; f_equal. Qed.
#[export] Instance stable_ctx : Stable e_ctx. Proof. by split. Qed.
#[export] Instance stable_jumpDests : Stable e_jumpDests. Proof. by split. Qed.
#[export] Instance stable_pc : Stable e_pc. Proof. by split. Qed.
#[export] Instance stable_callDepth : Stable e_callDepth. Proof. by split. Qed.

Definition keeps {DB A B} (π : Environment -> A) (m : M (St DB) B) : Prop :=
  sat (fun s s' => π (env s') = π (env s)) m.

Section keeps.
Context {DB : Type} `{!StateDB DB} {A : Type} (π : Environment -> A) `{!Stable π}.
Implicit Types s : St DB.

Let R (s s' : St DB) : Prop := π (env s') = π (env s).
Local Instance R_preorder : PreOrder R.
Proof. split; [by intros ?|]. intros ??? H1 H2. unfold R in *. congruence. Qed.

Lemma keeps_bind {B C} (m : M (St DB) B) (f : B -> M (St DB) C) :
  keeps π m -> (forall b, keeps π (f b)) -> keeps π (m ≫= f).
Proof. apply (sat_bind R). Qed.

Lemma keeps_attempt {B} (m : M (St DB) B) : keeps π m -> keeps π (attempt m).
Proof. apply (sat_attempt R). Qed.

Lemma keeps_defer {B} f (m : M (St DB) B) :
  (forall s, π (env (f s)) = π (env s)) -> keeps π m -> keeps π (defer f m).
Proof.
  intros Hf Hm s. specialize (Hm s). unfold defer. destruct (m s) as [r s']. simpl in *.
  by rewrite Hf.
Qed.

Lemma keeps_ret {B} (b : B) : keeps (DB:=DB) π (mret b).
Proof. by intros s. Qed.
Lemma keeps_throw {B} e : keeps (DB:=DB) π (throw (A:=B) e).
Proof. by intros s. Qed.
Lemma keeps_panic {B} : keeps (DB:=DB) π (panic (A:=B)).
Proof. by intros s. Qed.
Lemma keeps_gets {B} (f : St DB -> B) : keeps π (gets f).
Proof. by intros s. Qed.

Lemma keeps_modE f : (forall e, π (f e) = π e) -> keeps (DB:=DB) π (modE f).
Proof. intros H s. apply H. Qed.
Lemma keeps_modW f : keeps (DB:=DB) π (modW f).
Proof. by intros s. Qed.
Lemma keeps_callDB {B} (f : DB -> B * DB) : keeps π (callDB f).
Proof. intros s. unfold callDB. by destruct (f _). Qed.

Lemma keeps_onStack {B} (m : M Stack B) : keeps (DB:=DB) π (onStack m).
Proof. intros s. unfold onStack, zoom. destruct (m _). simpl. by autorewrite with stable. Qed.
Lemma keeps_onMemory {B} (m : M Memory B) : keeps (DB:=DB) π (onMemory m).
Proof. intros s. unfold onMemory, zoom. destruct (m _). simpl. by autorewrite with stable. Qed.
Lemma keeps_onGas {B} (m : M GasMeter B) : keeps (DB:=DB) π (onGas m).
Proof. intros s. unfold onGas, zoom. destruct (m _). simpl. by autorewrite with stable. Qed.
Lemma keeps_onWorld {B} (m : M (World DB) B) : keeps π (onWorld m).
Proof. intros s. unfold onWorld, zoom. by destruct (m _). Qed.

Lemma PushActiveAddress_stable addr e : π (PushActiveAddress addr e).2 = π e.
Proof. unfold PushActiveAddress. destruct (_ <=? _); simpl; by autorewrite with stable. Qed.

Lemma PopActiveAddress_stable e : π (PopActiveAddress e) = π e.
Proof. unfold PopActiveAddress. destruct (_ <? _); by autorewrite with stable. Qed.

(** The block that pushes an active address and goes on with the outcome. *)
Lemma keeps_push_active {B} addr (k : bool -> M (St DB) B) :
  (forall b, keeps π (k b)) ->
  keeps π (r ← getE (PushActiveAddress addr); let '(pushed, e) := r in modE (fun _ => e);; k pushed).
Proof.
  intros Hk s. unfold getE. rewrite bind_gets. pose proof (PushActiveAddress_stable addr (env s)) as H.
  destruct (PushActiveAddress addr (env s)) as [b e]. simpl in H. unfold modE. rewrite bind_modify.
  specialize (Hk b (mkSt e (world s))). simpl in Hk. congruence.
Qed.

Lemma keeps_pushActive addr : keeps (DB:=DB) π (pushActive addr).
Proof. apply keeps_push_active. intros b. apply keeps_ret. Qed.

Lemma keeps_restoreTransient saved : keeps (DB:=DB) π (restoreTransient saved).
Proof. intros s. unfold restoreTransient. simpl. by autorewrite with stable. Qed.
Lemma keeps_popTopics n : keeps (DB:=DB) π (popTopics n).
Proof.
  induction n; simpl; [apply keeps_ret|]. apply keeps_bind; [apply keeps_onStack|intros ?].
  apply keeps_bind; [done|intros ?]. apply keeps_ret.
Qed.
End keeps.

(** Walks through a definition, case by case. *)
Ltac head_of m := lazymatch m with ?f _ => head_of f | _ => m end.
Ltac keeps_side := intros; simpl; autorewrite with stable; try reflexivity.
Ltac keeps_step :=
  lazymatch goal with
  | |- Stable _ => typeclasses eauto
  | |- keeps _ (mbind _ _) => apply keeps_bind; [|intros ?]
  | |- keeps _ (mret _) => apply keeps_ret
  | |- keeps _ (throw _) => apply keeps_throw
  | |- keeps _ panic => apply keeps_panic
  | |- keeps _ (gets _) => apply keeps_gets
  | |- keeps _ (attempt _) => apply keeps_attempt
  | |- keeps _ (defer _ _) => apply keeps_defer; [keeps_side|]
  | |- keeps _ (modE _) => apply keeps_modE; keeps_side
  | |- keeps _ (modW _) => apply keeps_modW
  | |- keeps _ (callDB _) => apply keeps_callDB
  | |- keeps _ (onStack _) => apply keeps_onStack
  | |- keeps _ (onMemory _) => apply keeps_onMemory
  | |- keeps _ (onGas _) => apply keeps_onGas
  | |- keeps _ (onWorld _) => apply keeps_onWorld
  | |- keeps _ (pushActive _) => apply keeps_pushActive
  | |- keeps _ (restoreTransient _) => apply keeps_restoreTransient
  | |- keeps _ (match ?x with _ => _ end) => destruct x
  | H : keeps _ ?m |- keeps _ ?m => exact H
  | |- keeps _ (popTopics _) => apply keeps_popTopics
  | |- keeps _ (let _ := _ in _) => cbv zeta
  | |- keeps _ ?m => let f := head_of m in unfold f
  end.
Ltac keeps := repeat keeps_step.

Section instructions.
Context {DB : Type} `{!StateDB DB} (i : Interpreter DB).
Context {A : Type} (π : Environment -> A) `{!Stable π}.

Lemma keeps_opSelfDestruct : keeps (DB:=DB) π opSelfDestruct.
Proof.
  unfold opSelfDestruct.
  repeat (lazymatch goal with
          | |- keeps _ (mbind _ (getE (PushActiveAddress _))) => fail
          | _ => keeps_step
          end);
  (refine (keeps_push_active π _ _ _); intros []; keeps; by rewrite (PopActiveAddress_stable π)).
Qed.

(** The instructions that set the program counter, and those that run a callee. *)
Definition setsPc (op : OpCode) : bool :=
  match op with JUMP | JUMPI => true | _ => IsPush (encode op) end.

Context (execute : ExecutionContext -> M (World DB) ExecutionResult).
Context (run : Environment -> M (World DB) (ExecutionResult * Environment)).
Context (Hdepth : forall v e, π (set_e_callDepth v e) = π e).

Lemma keeps_enterCall (limited m : M (St DB) unit) :
  keeps π limited -> keeps π m -> keeps π (enterCall limited m).
Proof.
  intros H1 H2. unfold enterCall. apply keeps_bind; [apply keeps_modE; intros; by rewrite Hdepth|intros ?].
  apply keeps_defer; [intros; simpl; by rewrite Hdepth|]. keeps.
Qed.

Lemma executeOp_keeps op : setsPc op = false -> keeps π (executeOp i execute run op).
Proof.
  intros Hop. unfold executeOp.
  destruct op; try discriminate Hop; cbn match;
    repeat first
      [ lazymatch goal with |- keeps _ (enterCall _ _) => apply keeps_enterCall end
      | lazymatch goal with |- keeps _ opSelfDestruct => apply keeps_opSelfDestruct end
      | keeps_step ].
Qed.
End instructions.

(** ** The program counter *)

Lemma bind_Ok_inv {S A B} (m : M S A) (f : A -> M S B) s b s' :
  (m ≫= f) s = (Ok b, s') -> exists a s1, m s = (Ok a, s1) /\ f a s1 = (Ok b, s').
Proof. unfold mbind, M_bind. destruct (m s) as [[a|e| |] s1]; try done. by exists a, s1. Qed.

Section pc.
Context {DB : Type} `{!StateDB DB} (i : Interpreter DB).
Context (execute : ExecutionContext -> M (World DB) ExecutionResult).
Context (run : Environment -> M (World DB) (ExecutionResult * Environment)).
Implicit Types s : St DB.

(** What a frame knows of its code. *)
Definition code_view (e : Environment) : ExecutionContext * gset Z := (e_ctx e, e_jumpDests e).

Local Instance code_view_stable : Stable code_view.
Proof. by split. Qed.

Lemma stepOp_inv b s s' :
  stepOp i execute run b s = (Ok true, s') ->
  exists op s1, decode b = Some op /\ executeOp i execute run op s1 = (Ok tt, s') /\
    code_view (env s1) = code_view (env s) /\ e_pc (env s1) = u64 (e_pc (env s) + 1).
Proof.
  unfold stepOp. destruct (decode b) as [op|]; [|intros (? & ? & _ & ?)%bind_Ok_inv; done].
  cbv zeta. intros H. exists op. apply bind_Ok_inv in H as (l & s1 & [= <- <-] & H).
  destruct (_ <? _); [apply bind_Ok_inv in H as (? & ? & _ & ?); done|].
  destruct (_ <? _); [apply bind_Ok_inv in H as (? & ? & _ & ?); done|].
  apply bind_Ok_inv in H as (err & s2 & HC & H).
  assert (K : keeps (fun e => (code_view e, e_pc e)) (errOf (consume (DB:=DB) (GasCost (opcodeInfoTable op)))))
    by keeps.
  specialize (K s). rewrite HC in K. simpl in K. injection K as K1 K2 K3.
  destruct err; [apply bind_Ok_inv in H as (? & ? & _ & ?); done|].
  apply bind_Ok_inv in H as ([] & s3 & [= <-] & H). apply bind_Ok_inv in H as (err & s4 & HE & H).
  destruct err; [apply bind_Ok_inv in H as (? & ? & _ & ?); done|]. injection H as <-.
  exists (mkSt (set_e_pc (u64 (e_pc (env s2) + 1)) (env s2)) (world s2)). split; [done|].
  unfold errOf, attempt in HE. apply bind_Ok_inv in HE as (r & s5 & HE & HR).
  destruct (executeOp i execute run op _) as [[[]|?| |] s6]; try done; injection HE as <- <-; try done.
  injection HR as <-. unfold code_view. simpl. by rewrite <- K1, <- K2, <- K3.
Qed.

Lemma jumpTo_inv dest s s' :
  jumpTo dest s = (Ok tt, s') ->
  code_view (env s') = code_view (env s) /\ e_pc (env s') = dest /\ dest ∈ e_jumpDests (env s).
Proof.
  unfold jumpTo, getE. rewrite bind_gets, bind_guard. case_bool_decide as H; [|done].
  by intros [= <-].
Qed.

Lemma keeps_Ok {A B} (π : Environment -> A) (m : M (St DB) B) s b s' :
  keeps π m -> m s = (Ok b, s') -> π (env s') = π (env s).
Proof. intros H E. specialize (H s). by rewrite E in H. Qed.

Lemma opJump_inv s s' :
  opJump s = (Ok tt, s') ->
  code_view (env s') = code_view (env s) /\ e_pc (env s') ∈ e_jumpDests (env s).
Proof.
  intros (dest & s1 & H1 & (H2 & H3 & H4)%jumpTo_inv)%bind_Ok_inv.
  apply (keeps_Ok code_view) in H1; [|apply keeps_onStack, _]. rewrite H2, H3.
  split; [done|]. by injection H1 as _ <-.
Qed.

Lemma opJumpI_inv s s' :
  opJumpI s = (Ok tt, s') ->
  code_view (env s') = code_view (env s) /\
  (e_pc (env s') ∈ e_jumpDests (env s) \/ e_pc (env s') = e_pc (env s)).
Proof.
  intros (dest & s1 & H1 & (cond & s2 & H2 & H)%bind_Ok_inv)%bind_Ok_inv.
  pose proof (keeps_Ok code_view _ _ _ _ (keeps_onStack _ _) H1) as V1.
  pose proof (keeps_Ok code_view _ _ _ _ (keeps_onStack _ _) H2) as V2.
  pose proof (keeps_Ok e_pc _ _ _ _ (keeps_onStack _ _) H1) as P1.
  pose proof (keeps_Ok e_pc _ _ _ _ (keeps_onStack _ _) H2) as P2.
  destruct (negb (IsZero cond)).
  - apply jumpTo_inv in H as (V3 & -> & D). rewrite V3, V2. split; [done|]. left.
    injection V1 as _ <-. by injection V2 as _ <-.
  - injection H as <-. rewrite V2, P2. auto.
Qed.

Lemma opPush_inv op s s' :
  opPush op s = (Ok tt, s') ->
  let code := ctx_Code (e_ctx (env s)) in
  let end_ := u64 (e_pc (env s) + PushSize (encode op)) in
  code_view (env s') = code_view (env s) /\
  e_pc (env s') = if len code <? end_ then len code else end_.
Proof.
  unfold opPush, getCtx, getE. cbv zeta. rewrite bind_guard. destruct (_ =? 0); [done|].
  rewrite !bind_gets. intros (data & s1 & H1 & (u & s2 & [= _ <-] & H)%bind_Ok_inv)%bind_Ok_inv.
  pose proof (keeps_Ok code_view _ _ _ _ (keeps_onStack _ _) H) as V2.
  pose proof (keeps_Ok e_pc _ _ _ _ (keeps_onStack _ _) H) as P2. rewrite V2, P2.
  assert (s1 = s) as ->; [|done].
  destruct (_ <? _) in H1; [|by injection H1]. unfold or_panic in H1.
  destruct (slice _ _ _) in H1; [by injection H1|done].
Qed.

(** The invariant of a running frame. *)
Definition code_ok (e : Environment) : Prop :=
  len (ctx_Code (e_ctx e)) < 2 ^ 63 /\ e_jumpDests e ⊆ jumpDestsOf (ctx_Code (e_ctx e)).

Definition on_boundary (e : Environment) : Prop :=
  boundary (ctx_Code (e_ctx e)) (e_pc e) \/ e_pc e = len (ctx_Code (e_ctx e)).

(** An iteration of the loop that goes on. *)
Definition frame_step s s' : Prop :=
  let code := ctx_Code (e_ctx (env s)) in
  e_stopped (env s) = false /\ e_pc (env s) < len code /\
  stepOp i execute run (nth_byte code (e_pc (env s))) s = (Ok true, s').

Lemma frame_step_intro s :
  let m := stepOp i execute run (nth_byte (ctx_Code (e_ctx (env s))) (e_pc (env s))) s in
  e_stopped (env s) = false -> e_pc (env s) < len (ctx_Code (e_ctx (env s))) -> m.1 = Ok true ->
  frame_step s m.2.
Proof.
  cbv zeta. intros H1 H2 H3. split; [done|]. split; [done|].
  destruct (stepOp _ _ _ _ _). simpl in *. by rewrite H3.
Qed.

Lemma code_ok_view e e' : code_view e' = code_view e -> code_ok e -> code_ok e'.
Proof. intros [= E1 E2]. unfold code_ok. by rewrite E1, E2. Qed.

(** Where an instruction leaves the program counter, [pc] being its own offset. *)
Lemma executeOp_pc op s s' :
  executeOp i execute run op s = (Ok tt, s') ->
  let code := ctx_Code (e_ctx (env s)) in
  let end_ := u64 (e_pc (env s) + PushSize (encode op)) in
  code_view (env s') = code_view (env s) /\
  (e_pc (env s') ∈ e_jumpDests (env s) \/
   e_pc (env s') = e_pc (env s) /\ IsPush (encode op) = false \/
   e_pc (env s') = if len code <? end_ then len code else end_).
Proof.
  intros H. cbv zeta. destruct (setsPc op) eqn:Hop.
  - destruct op; try discriminate Hop;
      first [ apply opJump_inv in H as [? ?] | apply opJumpI_inv in H as [? [?|?]]
            | apply opPush_inv in H as [? ?] ]; auto 6.
  - assert (IsPush (encode op) = false) by (by destruct op).
    pose proof (keeps_Ok (fun e => (code_view e, e_pc e)) _ _ _ _
      (executeOp_keeps i (fun e => (code_view e, e_pc e)) execute run (fun _ _ => eq_refl) op Hop) H) as [= E1 E2 E3].
    unfold code_view. rewrite E1, E2, E3. auto.
Qed.

Lemma frame_step_boundary s s' :
  frame_step s s' -> code_ok (env s) -> on_boundary (env s) ->
  code_ok (env s') /\ on_boundary (env s') /\ e_ctx (env s') = e_ctx (env s).
Proof.
  intros (_ & Hlt & HS) Hok Hb. destruct Hb as [Hb|Hb]; [|lia].
  apply stepOp_inv in HS as (op & s1 & HD & HE & HV & HP).
  pose proof (steps_ge _ _ _ Hb) as Hpc. destruct Hok as [HL HJ].
  assert (EC : e_ctx (env s1) = e_ctx (env s)) by by injection HV.
  assert (EJ : e_jumpDests (env s1) = e_jumpDests (env s)) by by injection HV.
  apply executeOp_pc in HE as [HV' HE]. cbv zeta in HE. rewrite EC, EJ, HP in HE.
  assert (HV2 : code_view (env s') = code_view (env s)) by congruence.
  split; [by eapply code_ok_view; [|split]|].
  assert (EC' : e_ctx (env s') = e_ctx (env s)) by by injection HV2.
  split; [|done]. unfold on_boundary. rewrite EC'.
  set (code := ctx_Code (e_ctx (env s))) in *. set (pc := e_pc (env s)) in *.
  apply encode_decode in HD. rewrite HD in HE.
  rewrite !u64_small in HE by (unfold is_u64; lia).
  assert (Hnext : boundary code (next code pc)) by (eapply rtc_r; [exact Hb|by split]).
  pose proof (PushSize_range (nth_byte code pc)) as HS.
  destruct HE as [HE|[[-> HE]|HE]].
  - left. apply HJ, scanDests_boundary in HE. apply HE.
  - left. by rewrite <- (next_not_push code pc).
  - rewrite u64_small in HE by (unfold is_u64; lia). unfold next in Hnext.
    destruct (_ <? _); [by right|]. left. by rewrite HE.
Qed.
End pc.

(** ** The depth limit *)

Section depth.
Context {DB : Type} `{!StateDB DB} (i : Interpreter DB) (d : Z).
Context (Hd : MaxCallDepth - 1 <= d) (Hd' : d < 2 ^ 64 - 1).
Implicit Types s : St DB.

(** [m] and [m'] do the same in a frame at depth [d]. *)
Definition agree {A} (m m' : M (St DB) A) : Prop := forall s, e_callDepth (env s) = d -> m s = m' s.

Lemma agree_refl {A} (m : M (St DB) A) : agree m m.
Proof. by intros s. Qed.

Lemma agree_bind {A B} (m : M (St DB) A) (f f' : A -> M (St DB) B) :
  keeps e_callDepth m -> (forall a, agree (f a) (f' a)) -> agree (m ≫= f) (m ≫= f').
Proof.
  intros Hm Hf s Hs. specialize (Hm s). unfold mbind, M_bind.
  destruct (m s) as [[a|e| |] s1]; try done. apply Hf. simpl in Hm. congruence.
Qed.

Lemma agree_defer {A} f (m m' : M (St DB) A) : agree m m' -> agree (defer f m) (defer f m').
Proof. intros H s Hs. unfold defer. by rewrite H. Qed.

Lemma agree_enterCall (limited m m' : M (St DB) unit) :
  agree (enterCall limited m) (enterCall limited m').
Proof.
  intros s Hs. unfold enterCall, modE. rewrite !bind_modify. unfold defer, getE.
  rewrite !bind_gets. simpl. rewrite Hs, u64_small by (unfold is_u64, MaxCallDepth in *; lia).
  by rewrite (proj2 (Z.leb_le _ _)) by lia.
Qed.

Ltac agree :=
  repeat lazymatch goal with
  | |- agree ?m ?m' =>
      tryif constr_eq m m' then exact (agree_refl m) else
      lazymatch m with
      | mbind _ _ => apply agree_bind; [keeps|intros ?]
      | defer _ _ => apply agree_defer
      | enterCall _ _ => apply agree_enterCall
      | match ?x with _ => _ end => destruct x
      | _ => progress cbv zeta
      end
  end.

Context (execute execute' : ExecutionContext -> M (World DB) ExecutionResult).
Context (run run' : Environment -> M (World DB) (ExecutionResult * Environment)).

Lemma executeOp_depth op : agree (executeOp i execute run op) (executeOp i execute' run' op).
Proof.
  unfold executeOp.
  destruct op; cbn match;
    unfold opCall, callBody, opStaticCall, staticCallBody, opDelegateCall, delegateCallBody, opCallCode,
      callCodeBody, opAuthCall, authCallBody, opCreate, opCreate2, opCreateGeneric, createRun, withReentryGuard;
    agree.
Qed.
End depth.

(** ** The jump-destination cache *)

Section cache.
Context {DB : Type} (i : Interpreter DB).
Implicit Types w : World DB.

(** Every entry is the analysis of a code with that hash, the order lists the
    keys without repetition, and the cache is within its bound. *)
Record cache_ok w : Prop := {
  cache_entries h d : w_jumpDestCache w !! h = Some d ->
    exists code, sha256 (i_crypto i) code = h /\ d = jumpDestsOf code;
  cache_order : NoDup (w_jumpDestOrder w);
  cache_keys h : h ∈ w_jumpDestOrder w <-> is_Some (w_jumpDestCache w !! h);
  cache_bound : len (w_jumpDestOrder w) <= maxJumpDestCacheSize
}.

Lemma lookup_evict {V} (c : gmap Hash V) l h :
  foldl (fun c h => delete h c) c l !! h = if bool_decide (h ∈ l) then None else c !! h.
Proof.
  revert c. induction l as [|x l IH]; intros c; simpl; [done|]. rewrite IH.
  destruct (decide (x = h)) as [->|].
  - rewrite lookup_delete_eq. by repeat case_bool_decide; try set_solver.
  - rewrite lookup_delete_ne by done. by repeat case_bool_decide; try set_solver.
Qed.

(** The keys in insertion order count the entries. *)
Lemma cache_size w : cache_ok w -> Z.of_nat (size (w_jumpDestCache w)) = len (w_jumpDestOrder w).
Proof.
  intros H. unfold len. f_equal. rewrite <- size_dom.
  rewrite <- (size_list_to_set (C:=gset Hash) _ (cache_order w H)). f_equal.
  apply set_eq. intros h. by rewrite elem_of_dom, elem_of_list_to_set, (cache_keys w H).
Qed.

Definition evict w : gmap Hash (gset Z) * list Hash :=
  if maxJumpDestCacheSize <=? Z.of_nat (size (w_jumpDestCache w)) then
    let n := maxJumpDestCacheSize / 4 in
    let k := Z.to_nat (if len (w_jumpDestOrder w) <? n then len (w_jumpDestOrder w) else n) in
    (foldl (fun c h => delete h c) (w_jumpDestCache w) (take k (w_jumpDestOrder w)),
     drop k (w_jumpDestOrder w))
  else (w_jumpDestCache w, w_jumpDestOrder w).

Lemma evict_ok w cache order :
  cache_ok w -> evict w = (cache, order) ->
  (forall h d, cache !! h = Some d -> w_jumpDestCache w !! h = Some d) /\ NoDup order /\
  (forall h, h ∈ order <-> is_Some (cache !! h)) /\ len order < maxJumpDestCacheSize.
Proof.
  intros H. pose proof (cache_bound w H) as HB. unfold evict. rewrite (cache_size w H).
  destruct (Z.leb_spec maxJumpDestCacheSize (len (w_jumpDestOrder w))) as [L|L].
  2: { intros [= <- <-]. split; [done|]. split; [apply H|]. split; [apply H|done]. }
  change (maxJumpDestCacheSize / 4) with 1024. unfold maxJumpDestCacheSize in *.
  rewrite (proj2 (Z.ltb_ge _ _)) by lia. intros [= <- <-]. set (k := Z.to_nat 1024).
  pose proof (cache_order w H) as HN. rewrite <- (take_drop k (w_jumpDestOrder w)) in HN.
  apply list.NoDup_app in HN as (_ & HN1 & HN2). split; [|split; [done|split]].
  - intros h d. rewrite lookup_evict. by case_bool_decide.
  - intros h. rewrite lookup_evict. pose proof (cache_keys w H h) as HK.
    rewrite <- (take_drop k (w_jumpDestOrder w)), elem_of_app in HK.
    case_bool_decide as Ht; [|naive_solver].
    split; [intros Hd; exfalso; by eapply HN1|by intros [? ?]].
  - unfold len in *. rewrite length_drop. unfold k. lia.
Qed.

(** Analysing a code keeps the cache in order, and answers the destinations of
    a code with the same hash. *)
Lemma analyzeJumpDests_cached code w d w' :
  cache_ok w -> analyzeJumpDests i code w = (Ok d, w') ->
  cache_ok w' /\ w_db w' = w_db w /\
  exists code', sha256 (i_crypto i) code' = sha256 (i_crypto i) code /\ d = jumpDestsOf code'.
Proof.
  intros H. unfold analyzeJumpDests. set (h := sha256 (i_crypto i) code).
  destruct (w_jumpDestCache w !! h) as [c|] eqn:E.
  { intros [= <- <-]. split; [done|]. split; [done|]. by apply (cache_entries w H). }
  fold (evict w). destruct (evict w) as [cache order] eqn:EV.
  destruct (evict_ok w cache order H EV) as (HE & HN & HK & HB).
  intros [= <- <-]. split; [|by eauto]. simpl.
  assert (Hh : cache !! h = None).
  { destruct (cache !! h) eqn:E'; [|done]. apply HE in E'. congruence. }
  split; simpl.
  - intros h' d'. destruct (decide (h = h')) as [<-|].
    + rewrite lookup_insert_eq. intros [= <-]. by exists code.
    + rewrite lookup_insert_ne by done. intros Hd. by apply HE, (cache_entries w H) in Hd.
  - apply list.NoDup_app. split; [done|]. split; [|apply NoDup_singleton].
    intros h' Ho ->%list.list_elem_of_singleton. apply HK in Ho. rewrite Hh in Ho. by destruct Ho.
  - intros h'. rewrite elem_of_app, list.list_elem_of_singleton, HK.
    destruct (decide (h = h')) as [<-|]; [rewrite lookup_insert_eq|rewrite lookup_insert_ne by done];
      naive_solver.
  - rewrite len_app. unfold len at 2. simpl. lia.
Qed.
End cache.

(** ** The frame of an execution *)

(** A frame before its first instruction. *)
Record fresh_frame (c : ExecutionContext) (e : Environment) : Prop := {
  ff_ctx : e_ctx e = c;
  ff_pc : e_pc e = 0;
  ff_stopped : e_stopped e = false;
  ff_gas : e_gas e = NewGasMeter (ctx_Gas c);
  ff_returnData : e_returnData e = [];
  ff_logs : e_logs e = [];
  ff_reverted : e_reverted e = false;
  ff_err : e_err e = None;
  ff_regions : e_pqcKeyRegions e = []
}.

Section frame.
Context {DB : Type} `{!StateDB DB} (i : Interpreter DB).

Lemma analyzeJumpDests_Ok code (w : World DB) :
  exists d w', analyzeJumpDests i code w = (Ok d, w') /\ w_db w' = w_db w.
Proof.
  unfold analyzeJumpDests. destruct (w_jumpDestCache w !! _); [by eauto|].
  destruct (maxJumpDestCacheSize <=? _); by eauto.
Qed.

(** [Execute] answers what the run of a fresh frame answers. *)
Lemma Execute_frame n c (w : World DB) :
  exists e w1, fresh_frame c e /\ w_db w1 = w_db w /\
    forall r e' w2, run i n e w1 = (Ok (r, e'), w2) ->
      exists w3, Execute i n c w = (Ok r, w3) /\ w_db w3 = w_db w2.
Proof.
  unfold Execute, executeWith.
  assert (T : exists t w0, w_db w0 = w_db w /\
    match ctx_ParentEnv c with
    | Some parent => mret (pe_transientStorage parent)
    | None => next ← gets w_next; modify freshWorld;; mret next
    end w = (Ok t, w0)) by (destruct (ctx_ParentEnv c) as [p|];
      [by exists (pe_transientStorage p), w|by exists (w_next w), (freshWorld w)]).
  destruct T as (t & w0 & Hw0 & T).
  set (p := match ctx_ParentEnv c with Some parent => _ | None => _ end). destruct p as [active parents].
  set (e := (PushActiveAddress (ctx_Address c) (newEnvironment i c ∅ (u64 (ctx_Depth c)) active parents
    (ctx_BlockHashes c) t)).2).
  destruct (analyzeJumpDests_Ok (ctx_Code c) w0) as (d & w1 & HA & Hw1).
  exists (set_e_jumpDests d e), w1.
  split; [|split; [congruence|]].
  - unfold e, PushActiveAddress. destruct (_ <=? _); by split.
  - intros r e' w2 HR. rewrite (bind_Ok _ _ _ _ _ T). cbv beta. fold e.
    rewrite (bind_Ok _ _ _ _ _ HA), bind_gets, (bind_Ok _ _ _ _ _ HR). simpl.
    destruct (_ && _); [rewrite bind_modify|rewrite bind_ret]; by eexists.
Qed.
End frame.
