(* ===== verification/Semantics.v ===== *)
(** * The meaning of the arithmetic instructions

    The mathematical function on 256-bit numbers each arithmetic, comparison
    and bitwise instruction stands for, written without reference to the code,
    and the proof that the instruction computes it: the 64-bit fast paths and
    the big-integer paths of the handlers agree with it on every operand. *)

From Stdlib Require Import ZArith Lia.
From Stdlib.Strings Require Import Byte.
From stdpp Require Import base list countable gmap strings numbers.
From S2P Require Import Prelude Stack Memory Gas Opcodes StateDB Env OpsArith OpsState Bytecode Calls Interp.

(** The function of an instruction with one, two or three operands. *)
Variant Meaning : Type :=
  | Unary (f : Z -> Z)
  | Binary (f : Z -> Z -> Z)
  | Ternary (f : Z -> Z -> Z -> Z).

Definition wrap (z : Z) : Z := z mod 2 ^ 256.

(** Instructions with the first operand on top of the stack. *)
Definition meaning (op : OpCode) : option Meaning :=
  match op with
  | ADD => Some (Binary (fun a b => wrap (a + b)))
  | SUB => Some (Binary (fun a b => wrap (a - b)))
  | MUL => Some (Binary (fun a b => wrap (a * b)))
  | DIV => Some (Binary (fun a b => if b =? 0 then 0 else a / b))
  | MOD => Some (Binary (fun a b => if b =? 0 then 0 else a mod b))
  | SDIV => Some (Binary (fun a b => if b =? 0 then 0 else wrap (Z.quot (signed a) (signed b))))
  | SMOD => Some (Binary (fun a b => if b =? 0 then 0 else wrap (Z.rem (signed a) (signed b))))
  | ADDMOD => Some (Ternary (fun a b n => if n =? 0 then 0 else (a + b) mod n))
  | MULMOD => Some (Ternary (fun a b n => if n =? 0 then 0 else (a * b) mod n))
  | SIGNEXTEND => Some (Binary (fun k x => if 31 <=? k then x else wrap (signed_bytes (k + 1) x)))
  | LT => Some (Binary (fun a b => Z.b2z (a <? b)))
  | GT => Some (Binary (fun a b => Z.b2z (b <? a)))
  | SLT => Some (Binary (fun a b => Z.b2z (signed a <? signed b)))
  | SGT => Some (Binary (fun a b => Z.b2z (signed b <? signed a)))
  | EQ => Some (Binary (fun a b => Z.b2z (a =? b)))
  | ISZERO => Some (Unary (fun a => Z.b2z (a =? 0)))
  | AND => Some (Binary Z.land)
  | OR => Some (Binary Z.lor)
  | XOR => Some (Binary Z.lxor)
  | NOT => Some (Unary (fun a => 2 ^ 256 - 1 - a))
  | SHL => Some (Binary (fun n a => wrap (a * 2 ^ n)))
  | SHR => Some (Binary (fun n a => a / 2 ^ n))
  | SAR => Some (Binary (fun n a => wrap (signed a / 2 ^ n)))
  | BYTE => Some (Binary (fun k a => if 32 <=? k then 0 else a / 256 ^ (31 - k) mod 256))
  | _ => None
  end.

(** The value of [m] on its operands. *)
Definition denote (m : Meaning) (args : list Z) : option Z :=
  match m, args with
  | Unary f, [a] => Some (f a)
  | Binary f, [a; b] => Some (f a b)
  | Ternary f, [a; b; c] => Some (f a b c)
  | _, _ => None
  end.

(** Shifts by 256 bits or more leave nothing. *)
Lemma shl_large a n : 0 <= a -> 256 <= n -> wrap (a * 2 ^ n) = 0.
Proof.
  intros Ha Hn. unfold wrap. replace n with (n - 256 + 256) by lia.
  rewrite Z.pow_add_r, Z.mul_assoc by lia. apply Z.mod_mul. lia.
Qed.

Lemma shr_large a n : 0 <= a < 2 ^ 256 -> 256 <= n -> a / 2 ^ n = 0.
Proof.
  intros Ha Hn. apply Z.div_small. split; [lia|].
  apply Z.lt_le_trans with (2 ^ 256); [lia|]. apply Z.pow_le_mono_r; lia.
Qed.

Lemma wz_shl a b : wz (shl_word a b) = wrap (wz b * 2 ^ wz a).
Proof.
  rewrite wz_shl_word. pose proof (wz_range a). pose proof (wz_range b).
  destruct (Z.leb_spec 256 (wz a)); [|done]. by rewrite shl_large by lia.
Qed.

Lemma wz_shr a b : wz (shr_word a b) = wz b / 2 ^ wz a.
Proof.
  rewrite wz_shr_word. pose proof (wz_range b) as H. rewrite W256_eq in H.
  destruct (Z.leb_spec 256 (wz a)); [|done]. by rewrite shr_large.
Qed.

Create HintDb words.
#[local] Hint Resolve wz_add_word wz_sub_word wz_mul_word wz_div_word wz_mod_word wz_sdiv_word
  wz_smod_word wz_signextend_word wz_lt_word wz_gt_word wz_slt_word wz_sgt_word wz_eq_word
  wz_not_word wz_shl wz_shr wz_sar_word wz_byte_word : words.

(** [k] is the number of bytes of [v]. *)
Definition is_byte_size (k v : Z) : Prop := 0 <= k /\ v < 256 ^ k /\ (0 < v -> 256 ^ (k - 1) <= v).

Lemma byte_size_spec v : 0 <= v -> is_byte_size (byte_size v) v.
Proof.
  intros Hv. unfold is_byte_size, byte_size, BitLen. destruct (Z.eqb_spec v 0) as [->|N].
  { by vm_compute. }
  rewrite Z.abs_eq by lia. pose proof (Z.log2_nonneg v). pose proof (Z.log2_spec v ltac:(lia)) as [L1 L2].
  set (n := Z.log2 v) in *. change 256 with (2 ^ 8). split; [zlia|].
  rewrite <- !Z.pow_mul_r by zlia. split.
  - apply Z.lt_le_trans with (2 ^ Z.succ n); [done|]. apply Z.pow_le_mono_r; zlia.
  - intros _. apply Z.le_trans with (2 ^ n); [|done]. apply Z.pow_le_mono_r; zlia.
Qed.

Section semantics.
Context {DB : Type} `{!StateDB DB} (i : Interpreter DB).
Context (execute : ExecutionContext -> M (World DB) ExecutionResult).
Context (run : Environment -> M (World DB) (ExecutionResult * Environment)).
Implicit Types s : St DB.

(** [op] replaces its operands by a word with value [v], and does nothing else. *)
Definition answers (op : OpCode) s (l : list Word) (v : Z) : Prop :=
  exists r, executeOp i execute run op s = (Ok tt, with_stack (r :: l) s) /\ wz r = v.

Lemma unop_answers op f g s a l :
  executeOp i execute run op = unop f -> (forall a, wz (f a) = g (wz a)) ->
  stack_is s (a :: l) -> len l < 1024 -> answers op s l (g (wz a)).
Proof. intros E H HS HL. exists (f a). rewrite E. split; [by apply unop_run|apply H]. Qed.

Lemma binop_answers op f g s a b l :
  executeOp i execute run op = binop f -> (forall a b, wz (f a b) = g (wz a) (wz b)) ->
  stack_is s (a :: b :: l) -> len l < 1024 -> answers op s l (g (wz a) (wz b)).
Proof. intros E H HS HL. exists (f a b). rewrite E. split; [by apply binop_run|apply H]. Qed.

Lemma ternop_answers op f g s a b c l :
  executeOp i execute run op = ternop f ->
  (forall a b c, 0 <= c < W256 -> wz (f a b c) = g a b c) ->
  stack_is s (a :: b :: c :: l) -> len l < 1024 -> answers op s l (g (wz a) (wz b) (wz c)).
Proof.
  intros E H HS HL. exists (f (wz a) (wz b) (wz c)). rewrite E.
  split; [by apply ternop_run|apply H, wz_range].
Qed.

Lemma meaning_answers op m s (args l : list Word) v :
  meaning op = Some m -> denote m (map wz args) = Some v ->
  stack_is s (args ++ l) -> len l < 1024 -> answers op s l v.
Proof.
  intros HM HD HS HL.
  destruct args as [|a [|b [|c [|]]]], m as [f|f|f]; try discriminate HD; injection HD as <-; simpl in HS;
    destruct op; try discriminate HM; injection HM as Hf;
    (first [eapply (unop_answers _ _ f) | eapply (binop_answers _ _ f) | eapply (ternop_answers _ _ f)];
     [reflexivity|rewrite <- Hf|exact HS|exact HL]).
  all: try (intros; first [by rewrite wz_addmod_word | by rewrite wz_mulmod_word]).
  all: try (intros; by rewrite wz_flag, IsZero_spec).
  all: try (intros; by apply wz_zip_word).
  all: auto with words.
Qed.

(** EXP without the gas for its exponent. *)
Lemma opExp_poor s a b l :
  stack_is s (a :: b :: l) -> meter_ok (e_gas (env s)) ->
  gm_limit (e_gas (env s)) < gm_used (e_gas (env s)) + 50 * byte_size (wz b) ->
  exists e s', opExp s = (Err e, s') /\ (e = ErrOutOfGas \/ e = ErrGasOverflow).
Proof.
  intros H Hg Hu. unfold opExp. rewrite (bind_Ok _ _ _ _ _ (popB_run s a _ H)).
  rewrite (bind_Ok _ _ _ _ _ (popB_run _ b l (with_stack_is _ _))). cbv zeta.
  fold (byte_size (wz b)). pose proof (byte_size_range b) as R.
  rewrite (SafeMulGas_spec (byte_size (wz b)) GasExpByte) by (unfold is_u64, GasExpByte; lia).
  unfold GasExpByte. rewrite (proj2 (Z.ltb_lt _ _)) by lia. unfold check_as.
  rewrite bind_ret, Z.mul_comm. unfold mbind at 1, M_bind.
  rewrite consume_run; [|done|unfold is_u64; lia]. cbv zeta. simpl e_gas.
  rewrite (proj2 (Z.leb_gt _ _)) by done. destruct (_ <? _); eauto.
Qed.
End semantics.
