(* ===== verification/Machine.v ===== *)
(** * A concrete machine

    An interpreter over the rollup's state database, with contexts, frames and
    worlds at which the theorems of the other files are applied. *)

From Stdlib Require Import ZArith Lia.
From Stdlib.Strings Require Import Byte.
From stdpp Require Import base list countable gmap strings numbers.
From S2P Require Import Prelude Stack Memory Gas Opcodes StateDB Rollup Env OpsArith OpsState Bytecode Calls Interp Frame FrameOps CallFrame CallRules CallOps CallFamily CreateOps Safety Control.

(** The outcome of a run, its final state left as it is. *)
Lemma fst_eq {A B} (x : A * B) a : x.1 = a -> x = (a, x.2).
Proof. destruct x. simpl. by intros ->. Qed.

Module Demo.

(** A hash that keeps the first bytes of its input. *)
Definition hash (l : list byte) : Hash := array_of_Z 32 (be (take 16 l) + 1).

Abbreviation DB := (RollupDB hash).

Definition crypto : Crypto := {|
  keccak256 := hash;
  sha256 := hash;
  KyberDecapsulate := fun _ _ => inl ErrInvalidBytecode;
  recoverSignerAddress := fun _ _ _ _ => inl ErrInvalidBytecode
|}.

Definition interp : Interpreter DB := mkInterpreter _ DefaultGasTable None false false crypto.

Definition addr (z : Z) : Address := array_of_Z 20 z.

Definition db : DB := newRollupStateDB
  {[ addr 1 := mkRollupAccount 0 1000 (zero_array 32) ∅ [] ]}.

Definition world : World DB := mkWorld db ∅ 0 ∅ ∅ ∅ ∅ [].

(** A call of [code] with [gas]. *)
Definition ctx (code : list byte) (gas : Z) (readOnly : bool) : ExecutionContext := {|
  ctx_Origin := addr 1; ctx_GasPrice := Some 1; ctx_Caller := addr 1; ctx_Address := addr 2;
  ctx_Value := Some 0; ctx_BlockNumber := 7; ctx_Timestamp := 9; ctx_Coinbase := addr 3;
  ctx_GasLimit := 30000000; ctx_ChainID := 1; ctx_BlockHashes := ∅; ctx_PrevRandao := zero_array 32;
  ctx_BlobHashes := []; ctx_BlobBaseFee := 1; ctx_BaseFee := 1; ctx_Code := code; ctx_Input := [];
  ctx_OriginalCode := None; ctx_EVMCompatible := false; ctx_Gas := gas; ctx_Depth := 0;
  ctx_ReadOnly := readOnly; ctx_SkipValidation := false; ctx_ParentEnv := None; ctx_AbortCh := None
|}.

Lemma db_ok_demo : db_ok db.
Proof.
  split; [|apply Forall_nil_2]. intros a. change (view db) with (view_of (rs_states db)).
  rewrite account_view_of. unfold acc_of, db, newRollupStateDB. simpl.
  destruct (decide (addr 1 = a)) as [<-|]; [rewrite lookup_singleton_eq|rewrite lookup_singleton_ne by done];
    split; simpl; unfold len; simpl; lia.
Qed.

Lemma counts_ok_demo : counts_ok (w_reentryCounts world).
Proof. done. Qed.

Lemma registry_ok_demo : registry_ok interp.
Proof. done. Qed.

Lemma ctx_ok_demo code gas ro :
  (0 <=? gas) && (gas <? 2 ^ 64) = true -> (len code <? 2 ^ 63) = true -> ctx_ok (ctx code gas ro).
Proof. intros H1 H2%Z.ltb_lt. split; simpl; [by apply u64_const|done|done]. Qed.

(** The result of a demo call exists. *)
Definition exec (code : list byte) (gas : Z) (ro : bool) : res ExecutionResult * World DB :=
  Execute interp (frame_fuel gas) (ctx code gas ro) world.

Lemma exec_Ok code gas ro :
  (0 <=? gas) && (gas <? 2 ^ 64) = true -> (len code <? 2 ^ 63) = true ->
  exists r w', exec code gas ro = (Ok r, w').
Proof.
  intros H1 H2. destruct (Execute_total interp eq_refl registry_ok_demo (frame_fuel gas) (ctx code gas ro)
    world (ctx_ok_demo code gas ro H1 H2) (le_n _) db_ok_demo counts_ok_demo) as (r & w' & E & _).
  by exists r, w'.
Qed.

(** The same world after a snapshot. *)
Definition world1 : World DB := set_w_db (RollupOps.Snapshot db).2 world.

Lemma db_ok_demo1 : db_ok (w_db world1).
Proof.
  destruct db_ok_demo as [H _]. split; [exact H|]. by apply Forall_singleton.
Qed.

(** A frame that is about to run [code] with [stack]. *)
Definition state (code : list byte) (stack : list Word) (gas : Z) (ro : bool) : St DB :=
  mkSt (set_e_stack (of_top stack)
          (newEnvironment interp (ctx code gas ro) (jumpDestsOf code) 0 [addr 1; addr 2] [] ∅ 0)) world.

Lemma state_ok code stack gas ro :
  (0 <=? gas) && (gas <? 2 ^ 64) = true -> (len code <? 2 ^ 63) = true -> (len stack <=? 1024) = true ->
  Inv (state code stack gas ro) /\ ready (state code stack gas ro) /\
  gas_left (state code stack gas ro) = gas.
Proof.
  intros H1 H2 H3%Z.leb_le. destruct (newEnvironment_ok interp (ctx code gas ro) (jumpDestsOf code)
    [addr 1; addr 2] [] ∅ 0%nat world eq_refl (ctx_ok_demo code gas ro H1 H2) counts_ok_demo db_ok_demo)
    as [HI HF].
  split; [|split].
  - destruct HI. split; try done. simpl. unfold stack_ok. by rewrite Len_of_top.
  - by split.
  - unfold gas_left. simpl. lia.
Qed.

(** An instruction run in a demo frame with enough fuel for [gas]. *)
Abbreviation step op gas s :=
  (executeOp interp (Execute interp (frame_fuel gas)) (run interp (frame_fuel gas)) op s).

(** The operands of a CALL of [addr 7] with value 5, which account 2 does not have. *)
Definition poor_call : St DB :=
  state [x90] (map (array_of_Z 32) [0; 0; 0; 0; 5; 7; 1000]) 100000 false.

(** A frame about to CREATE from the first [n] bytes of its memory: code that
    writes 5 to the slot 1, followed, where [n] is 10, by a REVERT. *)
Definition init_code : list byte := [x10; x05; x10; x01; x61; x10; x00; x10; x00; x07].
Definition creating (n : Z) : St DB :=
  let s := state [x94] (map (array_of_Z 32) [0; 0; n]) 100000 false in
  mkSt (set_e_memory (mkMemory (init_code ++ replicate 22 x00)) (env s)) world.

Lemma creating_ok n : Inv (creating n) /\ ready (creating n) /\ gas_left (creating n) = 100000.
Proof.
  destruct (state_ok [x94] (map (array_of_Z 32) [0; 0; n]) 100000 false eq_refl eq_refl eq_refl)
    as (HI & HD & HG).
  split; [|by destruct HD]. by destruct HI.
Qed.

Definition err_of (x : res ExecutionResult * World DB) : option error :=
  match x.1 with Ok r => ResErr r | _ => None end.

(** An iteration of the loop of a demo frame without callees. *)
Definition execute0 : ExecutionContext -> M (World DB) ExecutionResult := Execute interp 0.
Definition run0 : Environment -> M (World DB) (ExecutionResult * Environment) := run interp 0.
Definition step0 (s : St DB) : res bool * St DB :=
  stepOp interp execute0 run0 (nth_byte (ctx_Code (e_ctx (env s))) (e_pc (env s))) s.
Definition next (s : St DB) : St DB := (step0 s).2.

Lemma next_step s :
  e_stopped (env s) = false -> (e_pc (env s) <? len (ctx_Code (e_ctx (env s)))) = true ->
  (step0 s).1 = Ok true -> frame_step interp execute0 run0 s (next s).
Proof. intros H1 H2%Z.ltb_lt H3. by apply frame_step_intro. Qed.

(** A jump over the immediate byte 0x03, which looks like a JUMPDEST. *)
Definition jumping : St DB := state [x10; x05; x01; x10; x03; x03] [] 1000 false.
End Demo.
