(* ===== verification/Theorems.v ===== *)
(** * What the interpreter guarantees

    The theorems about whole executions and about every instruction, stated
    for any state database that keeps the laws and any registry of precompiled
    contracts that keeps its contract. Each is applied to a concrete
    interpreter over the rollup's state database. *)

From Stdlib Require Import ZArith Lia.
From Stdlib.Strings Require Import Byte.
From stdpp Require Import base list countable gmap strings numbers.
From S2P Require Import Prelude Stack Memory Gas Opcodes StateDB Rollup Env OpsArith OpsState Bytecode Calls Interp Frame FrameOps CallFrame CallRules CallOps CallFamily CreateOps Safety Fuel Control Semantics Machine.

(** ** Whole executions *)

(** C3: execution always ends, with a result, within its gas: for every code,
    every input and every state, [Execute] with fuel proportional to the gas
    of the call returns a result (it neither runs out of fuel nor panics), and
    the gas it reports is at most the gas it was given. *)
Theorem execute_terminates {DB} `{!StateDB DB} `{!StateDBLaws DB} (i : Interpreter DB)
    (n : nat) (c : ExecutionContext) (w : World DB)
    (HT : i_gasTable i = DefaultGasTable) (HR : registry_ok i) (Hc : ctx_ok c)
    (HO : db_ok (w_db w)) (HC : counts_ok (w_reentryCounts w))
    (Hn : (frame_fuel (ctx_Gas c) <= n)%nat) :
  exists r w', Execute i n c w = (Ok r, w') /\ 0 <= GasUsed r <= ctx_Gas c.
Proof.
  destruct (Execute_total i HT HR n c w Hc Hn HO HC) as (r & w' & E & HU & _). by exists r, w'.
Qed.

(** A program that calls itself for ever ends by running out of gas. *)
Lemma execute_terminates_witness :
  let code := [x03; x10; x00; x01] in
  exists r w', Execute Demo.interp (frame_fuel 200) (Demo.ctx code 200 false) Demo.world = (Ok r, w') /\
    0 <= GasUsed r <= 200.
Proof.
  apply (execute_terminates Demo.interp (frame_fuel 200) (Demo.ctx [x03; x10; x00; x01] 200 false)
           Demo.world eq_refl Demo.registry_ok_demo (Demo.ctx_ok_demo [x03; x10; x00; x01] 200 false eq_refl eq_refl)
           Demo.db_ok_demo Demo.counts_ok_demo (le_n _)).
Defined.

(** C19: an execution in a read-only context leaves every balance, nonce, code
    and storage slot as it was, whatever the code calls. *)
Theorem execute_read_only {DB} `{!StateDB DB} `{!StateDBLaws DB} (i : Interpreter DB)
    (n : nat) (c : ExecutionContext) (w : World DB) r w'
    (HT : i_gasTable i = DefaultGasTable) (HR : registry_ok i) (Hc : ctx_ok c)
    (HO : db_ok (w_db w)) (HC : counts_ok (w_reentryCounts w))
    (Hn : (frame_fuel (ctx_Gas c) <= n)%nat) (Hro : ctx_ReadOnly c = true)
    (HE : Execute i n c w = (Ok r, w')) :
  view (w_db w') ≈ view (w_db w).
Proof.
  destruct (Execute_total i HT HR n c w Hc Hn HO HC) as (r' & w1 & E & _ & (_ & _ & HV) & _).
  rewrite HE in E. injection E as <- <-. by apply HV.
Qed.

(** A store in a read-only frame: the write is refused. *)
Lemma execute_read_only_witness :
  let code := [x10; x05; x10; x01; x61] in
  exists r w', Demo.exec code 50000 true = (Ok r, w') /\ ResErr r = Some ErrWriteProtection /\
    view (w_db w') ≈ view (w_db Demo.world).
Proof.
  set (code := [x10; x05; x10; x01; x61]). cbv zeta.
  destruct (Demo.exec_Ok code 50000 true eq_refl eq_refl) as (r & w' & E). exists r, w'.
  assert (K : Demo.err_of (Demo.exec code 50000 true) = Some ErrWriteProtection)
    by (vm_compute; reflexivity).
  rewrite E in K. split; [exact E|]. split; [exact K|].
  exact (execute_read_only Demo.interp (frame_fuel 50000) (Demo.ctx code 50000 true) Demo.world r w'
    eq_refl Demo.registry_ok_demo (Demo.ctx_ok_demo code 50000 true eq_refl eq_refl) Demo.db_ok_demo
    Demo.counts_ok_demo (le_n _) eq_refl E).
Defined.

(** Execution never creates value: the sum of all balances after a call is
    at most what it was before, and no balance becomes negative. *)
Theorem execute_never_mints {DB} `{!StateDB DB} `{!StateDBLaws DB} (i : Interpreter DB)
    (n : nat) (c : ExecutionContext) (w : World DB) r w'
    (HT : i_gasTable i = DefaultGasTable) (HR : registry_ok i) (Hc : ctx_ok c)
    (HO : db_ok (w_db w)) (HC : counts_ok (w_reentryCounts w))
    (Hn : (frame_fuel (ctx_Gas c) <= n)%nat) (HE : Execute i n c w = (Ok r, w')) :
  supply (view (w_db w')) <= supply (view (w_db w)) /\
  forall a, 0 <= balance_of (view (w_db w')) a.
Proof.
  destruct (Execute_total i HT HR n c w Hc Hn HO HC) as (r' & w1 & E & _ & (_ & HS & _) & HO' & _).
  rewrite HE in E. injection E as <- <-. split; [done|]. intros a. apply HO'.
Qed.

(** A call with a value the caller does not have. *)
Definition call_with_value : list byte :=
  [x10; x00; x10; x00; x10; x00; x10; x00; x10; x05; x10; x07; x11; xff; xff; x90].

Lemma execute_never_mints_witness :
  exists r w', Demo.exec call_with_value 50000 false = (Ok r, w') /\ ResErr r = None /\
    supply (view (w_db w')) <= supply (view (w_db Demo.world)).
Proof.
  destruct (Demo.exec_Ok call_with_value 50000 false eq_refl eq_refl) as (r & w' & E). exists r, w'.
  assert (K : Demo.err_of (Demo.exec call_with_value 50000 false) = None) by (vm_compute; reflexivity).
  rewrite E in K. split; [exact E|]. split; [exact K|].
  exact (proj1 (execute_never_mints Demo.interp (frame_fuel 50000) (Demo.ctx call_with_value 50000 false)
    Demo.world r w' eq_refl Demo.registry_ok_demo
    (Demo.ctx_ok_demo call_with_value 50000 false eq_refl eq_refl) Demo.db_ok_demo
    Demo.counts_ok_demo (le_n _) E)).
Defined.

(** The snapshots the caller took before an execution survive it: reverting
    to any of them afterwards gives back the accounts it saved. *)
Theorem execute_keeps_snapshots {DB} `{!StateDB DB} `{!StateDBLaws DB} (i : Interpreter DB)
    (n : nat) (c : ExecutionContext) (w : World DB) r w' (id : Z) (v : View)
    (HT : i_gasTable i = DefaultGasTable) (HR : registry_ok i) (Hc : ctx_ok c)
    (HO : db_ok (w_db w)) (HC : counts_ok (w_reentryCounts w))
    (Hn : (frame_fuel (ctx_Gas c) <= n)%nat) (HE : Execute i n c w = (Ok r, w'))
    (Hid : 0 <= id) (HJ : journal (w_db w) !! Z.to_nat id = Some v) :
  view (RevertToSnapshot id (w_db w')) ≈ v.
Proof.
  destruct (Execute_total i HT HR n c w Hc Hn HO HC) as (r' & w1 & E & _ & (HP & _) & _).
  rewrite HE in E. injection E as <- <-. apply Revert_view; [done|]. by eapply prefix_lookup_Some.
Qed.

Lemma execute_keeps_snapshots_witness :
  let code := [x10; x05; x10; x01; x61] in
  exists r w', Execute Demo.interp (frame_fuel 50000) (Demo.ctx code 50000 false) Demo.world1 = (Ok r, w') /\
    GetState (Demo.addr 2) (array_of_Z 32 1) (w_db w') = array_of_Z 32 5 /\
    view (RevertToSnapshot 0 (w_db w')) ≈ view (w_db Demo.world).
Proof.
  set (code := [x10; x05; x10; x01; x61]). cbv zeta.
  destruct (Execute_total Demo.interp eq_refl Demo.registry_ok_demo (frame_fuel 50000)
    (Demo.ctx code 50000 false) Demo.world1 (Demo.ctx_ok_demo code 50000 false eq_refl eq_refl) (le_n _)
    Demo.db_ok_demo1 Demo.counts_ok_demo) as (r & w' & E & _).
  exists r, w'. split; [exact E|].
  assert (K : GetState (Demo.addr 2) (array_of_Z 32 1)
    (w_db (Execute Demo.interp (frame_fuel 50000) (Demo.ctx code 50000 false) Demo.world1).2) = array_of_Z 32 5)
    by (apply array_eq; vm_compute; reflexivity).
  rewrite E in K. split; [exact K|].
  exact (execute_keeps_snapshots Demo.interp (frame_fuel 50000) (Demo.ctx code 50000 false) Demo.world1 r w'
    0 (view (w_db Demo.world)) eq_refl Demo.registry_ok_demo
    (Demo.ctx_ok_demo code 50000 false eq_refl eq_refl)
    Demo.db_ok_demo1 Demo.counts_ok_demo (le_n _) E (Z.le_refl 0) eq_refl).
Defined.

(** ** Every instruction *)

(** C18: no instruction panics, whatever the stack, the memory and the operands:
    in a well-formed frame every opcode ends with a value or an error, and
    leaves the frame well-formed. *)
Theorem instructions_never_panic {DB} `{!StateDB DB} `{!StateDBLaws DB} (i : Interpreter DB)
    (n : nat) (op : OpCode) (s : St DB)
    (HT : i_gasTable i = DefaultGasTable) (HR : registry_ok i) (HI : Inv s) (HD : ready s)
    (Hn : (frame_fuel (gas_left s) <= n)%nat) :
  Inv (executeOp i (Execute i n) (run i n) op s).2 /\
  (executeOp i (Execute i n) (run i n) op s).1 <> Panic /\
  (executeOp i (Execute i n) (run i n) op s).1 <> NoFuel.
Proof.
  pose proof (run_total i HT HR n (gas_left s) Hn) as HU.
  destruct (executeOp_ok i HT HR (Execute i n) (run i n) s op HI HD) as [HI' HO].
  { intros _. split; [|done]. by apply (executeWith_exec_ok i HT). }
  split; [done|]. by destruct (executeOp i (Execute i n) (run i n) op s).1.
Qed.

Lemma instructions_never_panic_witness :
  let s := Demo.state [x92] (repeat (array_of_Z 32 (2 ^ 256 - 1)) 6) 1000 false in
  (executeOp Demo.interp (Execute Demo.interp (frame_fuel 1000)) (run Demo.interp (frame_fuel 1000))
    DELEGATECALL s).1 <> Panic.
Proof.
  destruct (Demo.state_ok [x92] (repeat (array_of_Z 32 (2 ^ 256 - 1)) 6) 1000 false eq_refl eq_refl eq_refl)
    as (HI & HD & HG).
  refine (proj1 (proj2 (instructions_never_panic Demo.interp (frame_fuel 1000) DELEGATECALL
    (Demo.state [x92] (repeat (array_of_Z 32 (2 ^ 256 - 1)) 6) 1000 false) eq_refl Demo.registry_ok_demo
    HI HD _))).
  rewrite HG. apply le_n.
Defined.

(** An instruction, whatever frames it ran, leaves the bookkeeping of its
    frame as it found it: the context, the call depth, the active addresses,
    the ancestors, the jump destinations and the reentry counters; and it gives
    back no gas that was not set aside for a callee. *)
Theorem instructions_restore_frame {DB} `{!StateDB DB} `{!StateDBLaws DB} (i : Interpreter DB)
    (n : nat) (op : OpCode) (s s' : St DB)
    (HT : i_gasTable i = DefaultGasTable) (HR : registry_ok i) (HI : Inv s) (HD : ready s)
    (Hn : (frame_fuel (gas_left s) <= n)%nat)
    (HE : executeOp i (Execute i n) (run i n) op s = (Ok tt, s')) :
  e_ctx (env s') = e_ctx (env s) /\
  e_callDepth (env s') = e_callDepth (env s) /\
  e_activeAddresses (env s') = e_activeAddresses (env s) /\
  e_parents (env s') = e_parents (env s) /\
  e_jumpDests (env s') = e_jumpDests (env s) /\
  w_reentryCounts (world s') = w_reentryCounts (world s) /\
  gm_used (e_gas (env s)) <= gm_used (e_gas (env s')).
Proof.
  pose proof (run_total i HT HR n (gas_left s) Hn) as HU.
  destruct (executeOp_ok i HT HR (Execute i n) (run i n) s op HI HD) as [HI' HO].
  { intros _. split; [|done]. by apply (executeWith_exec_ok i HT). }
  rewrite HE in HO. destruct HO as [[[] ? ? ?] _]. done.
Qed.

Lemma instructions_restore_frame_witness :
  exists s', Demo.step CALL 100000 Demo.poor_call = (Ok tt, s') /\
    e_activeAddresses (env s') = [Demo.addr 1; Demo.addr 2] /\
    gm_used (e_gas (env Demo.poor_call)) <= gm_used (e_gas (env s')).
Proof.
  destruct (Demo.step CALL 100000 Demo.poor_call) as [r s'] eqn:E. exists s'.
  assert (K : (Demo.step CALL 100000 Demo.poor_call).1 = Ok tt) by (vm_compute; reflexivity).
  rewrite E in K. simpl in K. subst r. split; [reflexivity|].
  destruct (Demo.state_ok [x90] (map (array_of_Z 32) [0; 0; 0; 0; 5; 7; 1000]) 100000 false eq_refl eq_refl
    eq_refl) as (HI & HD & HG).
  assert (Hn : (frame_fuel (gas_left Demo.poor_call) <= frame_fuel 100000)%nat)
    by (unfold Demo.poor_call; rewrite HG; apply le_n).
  destruct (instructions_restore_frame Demo.interp (frame_fuel 100000) CALL Demo.poor_call s' eq_refl
    Demo.registry_ok_demo HI HD Hn E) as (_ & _ & HA & _ & _ & _ & HU).
  split; [exact HA|exact HU].
Defined.

(** C4: a call that fails leaves no trace: when CALL, CALLCODE, DELEGATECALL,
    STATICCALL, AUTHCALL or AUTH answers zero, and when CREATE or CREATE2 does
    (where the address this creation derives is not the zero address, which is
    also pushed as zero), every balance, nonce, code and storage slot is what
    it was before the instruction. *)
Theorem failed_call_rolls_back {DB} `{!StateDB DB} `{!StateDBLaws DB} (i : Interpreter DB)
    (n : nat) (op : OpCode) (s s' : St DB) (l : list Word)
    (HT : i_gasTable i = DefaultGasTable) (HR : registry_ok i) (HI : Inv s) (HD : ready s)
    (Hn : (frame_fuel (gas_left s) <= n)%nat)
    (Hop : isCallOp op = true) (Hnz : isCreateOp op = true -> derivedAddress i (isCreate2 op) s <> Some zero_address)
    (HE : executeOp i (Execute i n) (run i n) op s = (Ok tt, s'))
    (H0 : e_stack (env s') = of_top (zero_array 32 :: l)) :
  view (w_db (world s')) ≈ view (w_db (world s)).
Proof.
  pose proof (run_total i HT HR n (gas_left s) Hn) as HU.
  eapply (executeOp_flag i HT HR (Execute i n) (run i n) s s' op); try done.
  by apply (executeWith_exec_ok i HT).
Qed.

(** A constructor that writes a slot and reverts; without the REVERT the slot
    keeps its value and the nonce of the creator grows. *)
Lemma failed_call_rolls_back_witness :
  (let v := view (w_db (world (Demo.step CREATE 100000 (Demo.creating 5)).2)) in
   match derivedAddress Demo.interp false (Demo.creating 5) with
   | Some a => slot (account v a) (array_of_Z 32 1) = array_of_Z 32 5 /\ acc_nonce (account v (Demo.addr 2)) = 1
   | None => False
   end) /\
  exists s', Demo.step CREATE 100000 (Demo.creating 10) = (Ok tt, s') /\
    view (w_db (world s')) ≈ view (w_db (world (Demo.creating 10))).
Proof.
  split; [vm_compute; split; reflexivity|].
  destruct (Demo.step CREATE 100000 (Demo.creating 10)) as [r s'] eqn:E. exists s'.
  assert (K : (Demo.step CREATE 100000 (Demo.creating 10)).1 = Ok tt) by (vm_compute; reflexivity).
  assert (K2 : e_stack (env (Demo.step CREATE 100000 (Demo.creating 10)).2) = of_top [zero_array 32])
    by (vm_compute; reflexivity).
  rewrite E in K, K2. simpl in K, K2. subst r. split; [reflexivity|].
  destruct (Demo.creating_ok 10) as (HI & HD & HG).
  assert (Hn : (frame_fuel (gas_left (Demo.creating 10)) <= frame_fuel 100000)%nat)
    by (rewrite HG; apply le_n).
  refine (failed_call_rolls_back Demo.interp (frame_fuel 100000) CREATE (Demo.creating 10) s' [] eq_refl
    Demo.registry_ok_demo HI HD Hn eq_refl _ E K2). intros _ K3. vm_compute in K3. discriminate K3.
Defined.

(** An instruction the table marks as terminal ends the frame: when STOP,
    RETURN, REVERT or SELFDESTRUCT succeeds, the loop stops. *)
Theorem terminal_instructions_stop {DB} `{!StateDB DB} (i : Interpreter DB) execute run
    (op : OpCode) (s s' : St DB)
    (Hop : IsTerminal (opcodeInfoTable op) = true)
    (HE : executeOp i execute run op s = (Ok tt, s')) :
  e_stopped (env s') = true.
Proof. by eapply terminal_stops. Qed.

Lemma terminal_instructions_stop_witness :
  let s := Demo.state [x06] (map (array_of_Z 32) [0; 64]) 1000 false in
  exists s', Demo.step RETURN 1000 s = (Ok tt, s') /\ e_stopped (env s') = true.
Proof.
  set (s := Demo.state [x06] (map (array_of_Z 32) [0; 64]) 1000 false). cbv zeta.
  destruct (Demo.step RETURN 1000 s) as [r s'] eqn:E. exists s'.
  assert (K : (Demo.step RETURN 1000 s).1 = Ok tt) by (vm_compute; reflexivity).
  rewrite E in K. simpl in K. subst r. split; [reflexivity|].
  exact (terminal_instructions_stop Demo.interp _ _ RETURN s s' eq_refl E).
Defined.

(** ** Fuel *)

(** The fuel of the model is not part of what the interpreter computes: any
    two amounts that cover the gas of the call give the same result and the
    same state. *)
Theorem execute_fuel_independent {DB} `{!StateDB DB} `{!StateDBLaws DB} (i : Interpreter DB)
    (n m : nat) (c : ExecutionContext) (w : World DB)
    (HT : i_gasTable i = DefaultGasTable) (HR : registry_ok i) (Hc : ctx_ok c)
    (HO : db_ok (w_db w)) (HC : counts_ok (w_reentryCounts w))
    (Hn : (frame_fuel (ctx_Gas c) <= n)%nat) (Hm : (frame_fuel (ctx_Gas c) <= m)%nat) :
  Execute i n c w = Execute i m c w.
Proof.
  destruct (Execute_total i HT HR _ c w Hc (le_n _) HO HC) as (r & w' & E & _).
  destruct (Execute_mono i _ n c Hn w) as [K|K]; [by rewrite E in K|].
  destruct (Execute_mono i _ m c Hm w) as [K'|K']; [by rewrite E in K'|]. congruence.
Qed.

Lemma execute_fuel_independent_witness :
  Execute Demo.interp 1000 (Demo.ctx [x03; x10; x00; x01] 200 false) Demo.world =
  Execute Demo.interp (frame_fuel 200) (Demo.ctx [x03; x10; x00; x01] 200 false) Demo.world.
Proof.
  apply (execute_fuel_independent Demo.interp 1000 (frame_fuel 200) (Demo.ctx [x03; x10; x00; x01] 200 false)
    Demo.world eq_refl Demo.registry_ok_demo (Demo.ctx_ok_demo [x03; x10; x00; x01] 200 false eq_refl eq_refl)
    Demo.db_ok_demo Demo.counts_ok_demo); [|apply le_n].
  apply Nat.leb_le. vm_compute. reflexivity.
Defined.

(** ** Control flow *)

(** The program counter of a running frame is always on an instruction
    boundary of its code, or at its end: no jump and no push leads into the
    immediate bytes of another instruction. *)
Theorem pc_on_boundary {DB} `{!StateDB DB} (i : Interpreter DB) execute run (s s' : St DB)
    (Hok : code_ok (env s)) (H0 : e_pc (env s) = 0) (Hrun : rtc (frame_step i execute run) s s') :
  boundary (ctx_Code (e_ctx (env s))) (e_pc (env s')) \/
  e_pc (env s') = len (ctx_Code (e_ctx (env s))).
Proof.
  assert (Hb : on_boundary (env s)) by (left; rewrite H0; apply rtc_refl). clear H0.
  induction Hrun as [s|s s1 s' Hs _ IH]; [done|].
  destruct (frame_step_boundary i execute run s s1 Hs Hok Hb) as (H1 & H2 & H3).
  rewrite <- H3. by apply IH.
Qed.

(** A jump over the immediate byte 0x03, which looks like a JUMPDEST. *)
Lemma pc_on_boundary_witness :
  let s := Demo.jumping in
  frame_step Demo.interp Demo.execute0 Demo.run0 s (Demo.next s) /\
  frame_step Demo.interp Demo.execute0 Demo.run0 (Demo.next s) (Demo.next (Demo.next s)) /\
  (boundary (ctx_Code (e_ctx (env s))) (e_pc (env (Demo.next (Demo.next s)))) \/
   e_pc (env (Demo.next (Demo.next s))) = len (ctx_Code (e_ctx (env s)))).
Proof.
  cbv zeta.
  assert (F1 : frame_step Demo.interp Demo.execute0 Demo.run0 Demo.jumping (Demo.next Demo.jumping))
    by (apply Demo.next_step; vm_compute; reflexivity).
  assert (F2 : frame_step Demo.interp Demo.execute0 Demo.run0 (Demo.next Demo.jumping)
                 (Demo.next (Demo.next Demo.jumping)))
    by (apply Demo.next_step; vm_compute; reflexivity).
  split; [exact F1|]. split; [exact F2|].
  refine (pc_on_boundary Demo.interp _ _ Demo.jumping (Demo.next (Demo.next Demo.jumping)) _ eq_refl
    (rtc_l _ _ _ _ F1 (rtc_once _ _ F2))).
  split; [reflexivity|reflexivity].
Defined.

(** A frame at the depth limit runs no callee: at call depth 1023 and above
    the outcome of every instruction is the same whatever the code of a callee
    or a constructor would do. *)
Theorem depth_limit_runs_no_callee {DB} `{!StateDB DB} (i : Interpreter DB) execute execute' run run'
    (op : OpCode) (s : St DB)
    (Hd : MaxCallDepth - 1 <= e_callDepth (env s)) (Hd' : e_callDepth (env s) < 2 ^ 64 - 1) :
  executeOp i execute run op s = executeOp i execute' run' op s.
Proof. by apply (executeOp_depth i (e_callDepth (env s)) Hd Hd'). Qed.

Lemma depth_limit_runs_no_callee_witness :
  let s := mkSt (set_e_callDepth 1023 (env Demo.poor_call)) (world Demo.poor_call) in
  executeOp Demo.interp (fun _ _ => (Panic, Demo.world)) (fun _ _ => (Panic, Demo.world)) CALL s =
  executeOp Demo.interp (Execute Demo.interp 7) (run Demo.interp 7) CALL s.
Proof. apply depth_limit_runs_no_callee; vm_compute; congruence. Defined.

(** The jump-destination cache is transparent: it stays within its 4096
    entries with its eviction order and contents consistent, and what it
    answers for a code is the analysis of a code with the same SHA-256 hash,
    so the wrong destinations would need a hash collision. *)
Theorem jump_cache_sound {DB} (i : Interpreter DB) (code : list byte) (w w' : World DB) d
    (H : cache_ok i w) (HE : analyzeJumpDests i code w = (Ok d, w')) :
  cache_ok i w' /\ len (w_jumpDestOrder w') <= maxJumpDestCacheSize /\ w_db w' = w_db w /\
  (d = jumpDestsOf code \/ exists code', code' <> code /\ sha256 (i_crypto i) code' = sha256 (i_crypto i) code).
Proof.
  destruct (analyzeJumpDests_cached i code w d w' H HE) as (H1 & H2 & code' & H3 & ->).
  split; [done|]. split; [apply H1|]. split; [done|].
  destruct (decide (code' = code)) as [->|]; eauto.
Qed.

Lemma jump_cache_sound_witness :
  exists w', analyzeJumpDests Demo.interp [x03; x10; x03; x03] Demo.world = (Ok {[0; 3]}, w') /\
    cache_ok Demo.interp w'.
Proof.
  assert (H : cache_ok Demo.interp Demo.world).
  { split; [done|apply NoDup_nil_2|by intros h; split; [intros ?%not_elem_of_nil|intros [? ?]]|by vm_compute]. }
  assert (E : analyzeJumpDests Demo.interp [x03; x10; x03; x03] Demo.world =
    (Ok {[0; 3]}, (analyzeJumpDests Demo.interp [x03; x10; x03; x03] Demo.world).2))
    by (apply fst_eq; vm_compute; reflexivity).
  eexists. split; [exact E|].
  exact (proj1 (jump_cache_sound Demo.interp [x03; x10; x03; x03] Demo.world _ _ H E)).
Defined.

(** ** Translated code *)

(** A frame whose code starts with the marker stops at its first byte. *)
Lemma loop_marker {DB} `{!StateDB DB} (i : Interpreter DB) n body (s : St DB) :
  ctx_Code (e_ctx (env s)) = EVMTranslatedMarker ++ body -> ctx_AbortCh (e_ctx (env s)) = None ->
  e_pc (env s) = 0 -> e_stopped (env s) = false ->
  loop i (S n) 0 0 s =
  (Ok tt, mkSt (set_e_stopped true (set_e_err (Some ErrInvalidOpcode) (env s))) (world s)).
Proof.
  intros HC HA HP HS. pose proof (len_nonneg body).
  change (loop i (S n) 0 0) with
    (iterate i (executeWith i (runWith (loop i n 0 0))) (runWith (loop i n 0 0)) 0 0 (loop i n)).
  unfold iterate, getE. rewrite bind_gets. unfold id. cbv zeta. rewrite HS, HP, HC, HA, len_app.
  rewrite (proj2 (Z.ltb_lt _ _)) by (unfold len; simpl; lia). reflexivity.
Qed.

(** What the EVM translator produces cannot be run as it is: executing
    translated code stops at the first byte of the marker with an
    invalid-opcode error, uses no gas and changes no account. *)
Theorem translated_code_is_invalid {DB} `{!StateDB DB} (i : Interpreter DB) (n : nat)
    (evm : list byte) (c : ExecutionContext) (w : World DB)
    (Hq : TranslateEVMBytecode evm = inr (ctx_Code c)) (HA : ctx_AbortCh c = None) :
  exists r w', Execute i (S n) c w = (Ok r, w') /\ ResErr r = Some ErrInvalidOpcode /\
    Reverted r = false /\ GasUsed r = 0 /\ ReturnData r = [] /\ Logs r = [] /\ w_db w' = w_db w.
Proof.
  destruct (translate_marker evm _ Hq) as [body HC].
  destruct (Execute_frame i (S n) c w) as (e & w1 & [<- Hp Hs Hg Hr Hl Hv He Hx] & Hw & HE).
  edestruct HE as (w3 & E & Hw3).
  - unfold run, runWith. rewrite (loop_marker i n body (mkSt e w1)); [|done..].
    unfold zeroRegions. simpl. rewrite Hx. reflexivity.
  - exists (mkResult (e_returnData e) (FinalUsed (e_gas e)) (RefundAmount (e_gas e)) (e_logs e)
      (Some ErrInvalidOpcode) (e_reverted e)), w3.
    split; [exact E|]. simpl. rewrite Hg. split; [done|]. split; [done|].
    split; [done|]. split; [done|]. split; [done|]. simpl in Hw3. congruence.
Qed.

Lemma translated_code_is_invalid_witness :
  exists q r w', TranslateEVMBytecode [x60; x00; x56] = inr q /\
    Execute Demo.interp 1 (Demo.ctx q 50000 false) Demo.world = (Ok r, w') /\
    ResErr r = Some ErrInvalidOpcode.
Proof.
  exists (EVMTranslatedMarker ++ [x10; x00; x01]).
  destruct (translated_code_is_invalid Demo.interp 0 [x60; x00; x56]
    (Demo.ctx (EVMTranslatedMarker ++ [x10; x00; x01]) 50000 false) Demo.world eq_refl eq_refl)
    as (r & w' & E & HR & _).
  exists r, w'. split; [reflexivity|]. split; [exact E|exact HR].
Defined.

(** ** Arithmetic *)

(** EXP costs 50 gas for each byte of the exponent: with that gas it
    replaces its operands by the power modulo 2^256, without it it fails for
    lack of gas. *)
Theorem exp_exact {DB} `{!StateDB DB} (i : Interpreter DB) execute run (s : St DB) (a b : Word) (l : list Word)
    (HS : stack_is s (a :: b :: l)) (HL : len l < 1024) (HG : meter_ok (e_gas (env s))) :
  exists k, is_byte_size k (wz b) /\
    let g := e_gas (env s) in
    if gm_used g + 50 * k <=? gm_limit g
    then exists r, executeOp i execute run EXP s =
           (Ok tt, with_stack (r :: l) (with_gas (set_used g (gm_used g + 50 * k)) s)) /\
         wz r = wz a ^ wz b mod 2 ^ 256
    else exists e s', executeOp i execute run EXP s = (Err e, s') /\ (e = ErrOutOfGas \/ e = ErrGasOverflow).
Proof.
  exists (byte_size (wz b)). split; [apply byte_size_spec, wz_range|]. cbv zeta.
  destruct (Z.leb_spec (gm_used (e_gas (env s)) + 50 * byte_size (wz b)) (gm_limit (e_gas (env s)))).
  - eexists. split; [by apply opExp_run|]. apply wz_big. by apply Z.mod_pos_bound.
  - by apply (opExp_poor s a b l).
Qed.

Lemma exp_exact_witness :
  let args := map (array_of_Z 32) [3; 300] in
  exists k, is_byte_size k 300 /\
    (if 0 + 50 * k <=? 100
     then exists r s', Demo.step EXP 100 (Demo.state [x00] args 100 false) = (Ok tt, s') /\
       wz r = 3 ^ 300 mod 2 ^ 256
     else True).
Proof.
  cbv zeta. set (args := map (array_of_Z 32) [3; 300]).
  destruct (exp_exact Demo.interp (Execute Demo.interp (frame_fuel 100)) (run Demo.interp (frame_fuel 100))
    (Demo.state [x00] args 100 false) (array_of_Z 32 3) (array_of_Z 32 300) [] eq_refl eq_refl)
    as (k & Hk & H); [by apply Demo.state_ok|].
  exists k. split; [exact Hk|]. simpl in H. destruct (_ <=? _); [|exact I].
  destruct H as (r & E & Hr). exists r. eexists. split; [exact E|exact Hr].
Defined.
(** C20: every arithmetic, comparison and bitwise instruction computes its
    mathematical function exactly: it replaces its operands by the word whose
    value is the function's, modulo 2^256 where the function can leave the
    range, and changes nothing else. EXP, which costs 50 gas for each byte of the
    exponent, takes that gas as well, or fails for lack of it. *)
Theorem arithmetic_exact {DB} `{!StateDB DB} (i : Interpreter DB) execute run
    (s : St DB) (l : list Word) (HL : len l < 1024) :
  (forall op m args v, meaning op = Some m -> denote m (map wz args) = Some v -> stack_is s (args ++ l) ->
    exists r, executeOp i execute run op s = (Ok tt, with_stack (r :: l) s) /\ wz r = v) /\
  (forall a b, stack_is s (a :: b :: l) -> meter_ok (e_gas (env s)) ->
    exists k, is_byte_size k (wz b) /\
    let g := e_gas (env s) in
    if gm_used g + 50 * k <=? gm_limit g
    then exists r, executeOp i execute run EXP s =
           (Ok tt, with_stack (r :: l) (with_gas (set_used g (gm_used g + 50 * k)) s)) /\
         wz r = wz a ^ wz b mod 2 ^ 256
    else exists e s', executeOp i execute run EXP s = (Err e, s') /\ (e = ErrOutOfGas \/ e = ErrGasOverflow)).
Proof.
  split; [intros op m args v Hop Hv HS; by apply (meaning_answers i execute run op m s args l v)|].
  intros a b HS HG. by apply exp_exact.
Qed.

(** The division of the smallest signed number by minus one, and a power. *)
Lemma arithmetic_exact_witness :
  let args := map (array_of_Z 32) [2 ^ 255; 2 ^ 256 - 1] in
  let s := Demo.state [x00] (map (array_of_Z 32) [3; 300]) 100 false in
  (exists r, Demo.step SDIV 100 (Demo.state [x00] args 100 false) =
      (Ok tt, with_stack [r] (Demo.state [x00] args 100 false)) /\ wz r = 2 ^ 255) /\
  exists k, is_byte_size k 300 /\
    (if 0 + 50 * k <=? 100 then exists r s', Demo.step EXP 100 s = (Ok tt, s') /\ wz r = 3 ^ 300 mod 2 ^ 256 else True).
Proof.
  cbv zeta. set (args := map (array_of_Z 32) [2 ^ 255; 2 ^ 256 - 1]). split.
  - refine (proj1 (arithmetic_exact Demo.interp (Execute Demo.interp (frame_fuel 100)) (run Demo.interp (frame_fuel 100))
      (Demo.state [x00] args 100 false) [] eq_refl) SDIV _ args (2 ^ 255) eq_refl _ _); [vm_compute; reflexivity|].
    unfold stack_is. by rewrite app_nil_r.
  - set (args' := map (array_of_Z 32) [3; 300]).
    destruct (proj2 (arithmetic_exact Demo.interp (Execute Demo.interp (frame_fuel 100)) (run Demo.interp (frame_fuel 100))
      (Demo.state [x00] args' 100 false) [] eq_refl) (array_of_Z 32 3) (array_of_Z 32 300) eq_refl) as (k & Hk & H); [by apply Demo.state_ok|].
    exists k. split; [exact Hk|]. simpl in H. destruct (_ <=? _); [|exact I].
    destruct H as (r & E & Hr). exists r. eexists. split; [exact E|exact Hr].
Defined.

