(* ===== verification/ExecutorSpec.v ===== *)
(** * What the executor guarantees

    Every transaction ends with a result within its gas; a failed one leaves the
    accounts as they were; none mints. The proofs follow the state of the database
    through its stages: untouched, inside a snapshot, settled. *)

From Stdlib Require Import ZArith Lia.
From Stdlib.Strings Require Import Byte.
From stdpp Require Import base list countable gmap strings numbers.
From S2P Require Import Prelude Stack Memory Gas Opcodes StateDB Rollup Env OpsArith OpsState Bytecode Calls Interp Frame FrameOps CallFrame CallRules CallOps CallFamily CreateOps Safety Executor Machine.

Module ExecutorSpec.
Import Executor.

Section spec.
Context {DB : Type} `{!StateDB DB} `{!StateDBLaws DB} (e : Executor DB) (fuel : nat).
Context (HT : i_gasTable (interpreter e) = DefaultGasTable) (HR : registry_ok (interpreter e)).
Context (HP : forall a c, precompiled e !! a = Some c -> contract_ok c).

(** ** Stages of a transaction that started in the database [d0] *)

Definition untouched (d0 : DB) (w : World DB) : Prop :=
  dbP true d0 (w_db w) /\ db_ok (w_db w) /\ counts_ok (w_reentryCounts w).

Definition settled (d0 : DB) (w : World DB) : Prop :=
  dbP false d0 (w_db w) /\ db_ok (w_db w) /\ counts_ok (w_reentryCounts w).

(** After the snapshot [id]. *)
Definition inside (d0 : DB) (id : Z) (w : World DB) : Prop :=
  exists j v, journal d0 `prefix_of` j /\ v ≈ view d0 /\ (j ++ [v]) `prefix_of` journal (w_db w) /\
    id = len j /\ supply (view (w_db w)) <= supply (view d0) /\ db_ok (w_db w) /\
    counts_ok (w_reentryCounts w).

Lemma untouched_settled d0 w : untouched d0 w -> settled d0 w.
Proof. intros ((J & S & V) & HO & HC). split; [|done]. by split. Qed.

Lemma untouched_refl w : db_ok (w_db w) -> counts_ok (w_reentryCounts w) -> untouched (w_db w) w.
Proof. intros HO HC. by split. Qed.

(** ** Steps *)

(** [m] runs from a world in [P] to a value and a world in [Q]. *)
Definition runs {A} (P : World DB -> Prop) (m : M (World DB) A) (Q : A -> World DB -> Prop) : Prop :=
  forall w, P w -> exists a w', m w = (Ok a, w') /\ Q a w'.

Lemma runs_bind {A B} P (m : M (World DB) A) (f : A -> M (World DB) B) R Q :
  runs P m R -> (forall a, runs (R a) (f a) Q) -> runs P (m ≫= f) Q.
Proof.
  intros Hm Hf w Hw. destruct (Hm w Hw) as (a & w1 & E & HQ). rewrite (bind_Ok _ _ _ _ _ E). by apply Hf.
Qed.

Lemma runs_ret {A} (P : World DB -> Prop) (a : A) (Q : A -> World DB -> Prop) :
  (forall w, P w -> Q a w) -> runs P (mret a) Q.
Proof. intros H w Hw. exists a, w. auto. Qed.

Lemma runs_conseq {A} (P P' : World DB -> Prop) (m : M (World DB) A) (Q Q' : A -> World DB -> Prop) :
  runs P m Q -> (forall w, P' w -> P w) -> (forall a w, Q a w -> Q' a w) -> runs P' m Q'.
Proof. intros H H1 H2 w Hw. destruct (H w (H1 w Hw)) as (a & w' & E & HQ). exists a, w'. auto. Qed.

Lemma runs_dbSet (P Q : World DB -> Prop) f :
  (forall w, P w -> Q (set_w_db (f (w_db w)) w)) -> runs P (dbSet f) (fun _ => Q).
Proof. intros H w Hw. exists tt. eexists. split; [reflexivity|]. by apply H. Qed.

Lemma runs_dbGet {A} (P : World DB -> Prop) (f : DB -> A) :
  runs P (dbGet f) (fun a w => P w /\ a = f (w_db w)).
Proof. intros w Hw. by exists (f (w_db w)), w. Qed.

(** A change that keeps the journal. *)
Lemma inside_step d0 id w d :
  inside d0 id w -> journal d = journal (w_db w) -> supply (view d) <= supply (view (w_db w)) -> db_ok d ->
  inside d0 id (set_w_db d w).
Proof.
  intros (j & v & H1 & H2 & H3 & H4 & H5 & H6 & H7) HJ HS HO. exists j, v. simpl. rewrite HJ.
  do 4 (split; [done|]). split; [lia|done].
Qed.

Lemma runs_Snapshot d0 :
  runs (untouched d0) (db Snapshot)
    (fun id w => if id <? 0 then untouched d0 w else inside d0 id w /\ view (w_db w) ≈ view d0).
Proof.
  intros w ((J & S & V) & HO & HC). unfold db. pose proof (Snapshot_refused (w_db w)) as H1.
  pose proof (Snapshot_taken (w_db w)) as H2. destruct (Snapshot (w_db w)) as [id d]. simpl in *.
  exists id. eexists. split; [reflexivity|]. specialize (V eq_refl). destruct (Z.ltb_spec id 0) as [N|N].
  - destruct (H1 N) as [V1 J1]. split; [split; simpl; [by rewrite J1|split; [by rewrite V1|intros _; by rewrite V1]]|].
    split; [by apply (db_ok_same (w_db w))|done].
  - destruct (H2 N) as (E & V1 & J1). split; [|simpl; by rewrite V1]. exists (journal (w_db w)), (view (w_db w)). simpl.
    do 2 (split; [done|]). split; [by rewrite J1|]. split; [done|]. split; [by rewrite V1|]. split; [|done].
    destruct HO as [HO1 HO2]. split; [by rewrite V1|]. rewrite J1. apply Forall_app. by split; [|constructor].
Qed.

Lemma revert_inside d0 id w :
  inside d0 id w -> untouched d0 (set_w_db (RevertToSnapshot id (w_db w)) w).
Proof.
  intros (j & v & H1 & H2 & H3 & -> & H5 & [HO1 HO2] & H7).
  assert (HL : journal (w_db w) !! Z.to_nat (len j) = Some v).
  { unfold len. rewrite Nat2Z.id. eapply prefix_lookup_Some; [|exact H3]. by apply list_lookup_middle. }
  destruct (Revert_view (len j) v (w_db w) (len_nonneg j) HL) as [V J].
  assert (EJ : take (Z.to_nat (len j)) (journal (w_db w)) = j).
  { unfold len. rewrite Nat2Z.id. destruct H3 as [k ->]. rewrite <- app_assoc. apply take_app_length. }
  rewrite EJ in J. assert (V' : view (RevertToSnapshot (len j) (w_db w)) ≈ view d0) by by rewrite V.
  split; [split; simpl; [by rewrite J|split; [by rewrite V'|done]]|]. split; [|done]. split; simpl.
  - rewrite V. rewrite Forall_forall in HO2. apply HO2, list_elem_of_In. by eapply list_elem_of_lookup_2.
  - rewrite J. destruct H3 as [k E]. rewrite E in HO2. by apply Forall_app in HO2 as [[? _]%Forall_app _].
Qed.

Lemma runs_revert d0 id : runs (inside d0 id) (dbSet (RevertToSnapshot id)) (fun _ => untouched d0).
Proof. apply runs_dbSet. apply revert_inside. Qed.

Lemma release_inside d0 id w :
  inside d0 id w -> settled d0 (set_w_db (releaseFrame id (w_db w)) w) /\
    view (releaseFrame id (w_db w)) ≈ view (w_db w).
Proof.
  intros (j & v & H1 & H2 & H3 & -> & H5 & HO & H7). unfold releaseFrame. pose proof (len_nonneg j).
  rewrite (proj2 (Z.ltb_ge _ _)) by done. destruct ReleaseSnapshot as [release|] eqn:ER.
  - assert (HL : len j < len (journal (w_db w))).
    { destruct H3 as [k ->]. rewrite !len_app. change (len [v]) with 1. pose proof (len_nonneg k). lia. }
    destruct (Release_view release (len j) (w_db w) ER (conj H HL)) as [V J].
    assert (EJ : take (Z.to_nat (len j)) (journal (w_db w)) = j).
    { unfold len. rewrite Nat2Z.id. destruct H3 as [k ->]. rewrite <- app_assoc. apply take_app_length. }
    rewrite EJ in J. split; [|done]. split; [split; simpl; [by rewrite J|split; [by rewrite V|done]]|]. split; [|done].
    destruct HO as [HO1 HO2]. split; simpl; [by rewrite V|]. rewrite J. destruct H3 as [k E]. rewrite E in HO2.
    by apply Forall_app in HO2 as [[? _]%Forall_app _].
  - split; [|done]. split; [|done]. split; simpl; [|done]. etransitivity; [exact H1|]. etransitivity; [|exact H3]. by apply prefix_app_r.
Qed.

Lemma runs_release d0 id : runs (inside d0 id) (dbSet (releaseFrame id)) (fun _ => settled d0).
Proof. apply runs_dbSet. intros w Hw. by apply release_inside. Qed.

(** Nothing has been changed since the snapshot. *)
Definition fresh (d0 : DB) (id : Z) (w : World DB) : Prop := inside d0 id w /\ view (w_db w) ≈ view d0.

Lemma fresh_untouched d0 id w : fresh d0 id w -> untouched d0 w.
Proof.
  intros [(j & v & H1 & H2 & H3 & _ & H5 & HO & HC) HV]. split; [|done]. split; [|done].
  etransitivity; [exact H1|]. etransitivity; [|exact H3]. by apply prefix_app_r.
Qed.

Lemma runs_release_fresh d0 id : runs (fresh d0 id) (dbSet (releaseFrame id)) (fun _ => untouched d0).
Proof.
  apply runs_dbSet. intros w [HI HV]. destruct (release_inside d0 id w HI) as [((J & S & _) & HO & HC) V].
  split; [|done]. split; [done|]. split; [done|]. intros _. simpl. by rewrite V.
Qed.

(** Reading an account. *)
Lemma fresh_read d0 id w d : fresh d0 id w -> journal d = journal (w_db w) -> view d ≈ view (w_db w) ->
  fresh d0 id (set_w_db d w).
Proof.
  intros [HI HV] HJ HVd. split; [|simpl; by rewrite HVd]. apply inside_step; [done|done|by rewrite HVd|].
  apply (db_ok_same (w_db w)); [done|done|]. by destruct HI as (? & ? & _ & _ & _ & _ & _ & HO & _).
Qed.

Lemma inside_ok d0 id w : inside d0 id w -> db_ok (w_db w).
Proof. by intros (j & v & _ & _ & _ & _ & _ & HO & _). Qed.

(** The interpreter inside a snapshot. *)
Lemma runs_Execute d0 id c :
  is_u64 (ctx_Gas c) -> len (ctx_Code c) < 2 ^ 63 -> 0 <= ctx_Depth c -> (frame_fuel (ctx_Gas c) <= fuel)%nat ->
  runs (inside d0 id) (Execute e fuel c) (fun r w => inside d0 id w /\ 0 <= GasUsed r <= ctx_Gas c).
Proof.
  intros Hg Hc Hd Hf w HI. unfold is_u64 in Hg. unfold Execute. destruct (if ctx_SkipValidation c then _ else _).
  { eexists _, w. split; [reflexivity|]. split; [done|]. simpl. lia. }
  destruct (Z.leb_spec MaxCallDepth (ctx_Depth c)) as [HL|HL].
  { eexists _, w. split; [reflexivity|]. split; [done|]. simpl. lia. }
  pose proof HI as (j & v & H1 & H2 & H3 & H4 & H5 & HO & HC).
  destruct (Execute_total (interpreter e) HT HR fuel c w (mkCtxOk c Hg Hc (conj Hd HL)) Hf HO HC)
    as (r & w' & E & HU & (J & S & _) & HO' & HC').
  exists r, w'. split; [done|]. split; [|done]. exists j, v. do 2 (split; [done|]).
  split; [by etransitivity|]. split; [done|]. split; [lia|]. split; [done|]. rewrite HC'. by case_bool_decide.
Qed.

(** Moving [v] from [caller] to [callee], if there is as much. *)
Lemma runs_transfer {A} d0 id caller callee v (bad good : M (World DB) A) Q :
  0 < v -> runs (fresh d0 id) bad Q -> runs (inside d0 id) good Q ->
  runs (fresh d0 id)
    (callerBalance ← db (GetBalance caller);
     if callerBalance <? v then bad
     else
       dbSet (SetBalance caller (callerBalance - v));;
       calleeBalance ← db (GetBalance callee);
       dbSet (SetBalance callee (calleeBalance + v));;
       good) Q.
Proof.
  intros Hv Hbad Hgood w HI. unfold mbind at 1, M_bind at 1, db at 1.
  pose proof (view_GetBalance caller (w_db w)) as V. pose proof (GetBalance_view caller (w_db w)) as B.
  pose proof (journal_GetBalance caller (w_db w)) as J. destruct (GetBalance caller (w_db w)) as [x d1]. simpl in V, B, J.
  pose proof (fresh_read d0 id w d1 HI J V) as HI1. destruct (Z.ltb_spec x v); [by apply Hbad|].
  destruct HI1 as [HI1 _]. destruct (moved_ok caller callee x v d1) as (J1 & S1 & O1).
  { by apply (inside_ok d0 id (set_w_db d1 w)). }
  { by rewrite V, B. }
  { lia. }
  specialize (Hgood (set_w_db (moved caller callee x v d1) (set_w_db d1 w))). unfold moved in *.
  unfold mbind, M_bind, dbSet, modify, db. simpl. destruct (GetBalance callee _) as [y d2]. simpl in *.
  apply Hgood. apply (inside_step d0 id (set_w_db d1 w)); simpl; try done. lia.
Qed.

(** The end of a frame: [Q] is what every transaction promises. *)
Definition finished (d0 : DB) (gas : Z) (r : ExecutionResult) (w : World DB) : Prop :=
  0 <= GasUsed r <= gas /\ settled d0 w /\ (isErr (ResErr r) = true -> untouched d0 w).

Lemma finished_fail d0 gas err g w : 0 <= g <= gas -> untouched d0 w -> finished d0 gas (fail err g) w.
Proof. intros Hg HU. split; [done|]. split; [by apply untouched_settled|done]. Qed.

Lemma runs_settle d0 id gas G r :
  0 <= gas <= G -> 0 <= GasUsed r <= G ->
  runs (inside d0 id) (settle id gas r) (finished d0 G).
Proof.
  intros Hg Hr. unfold settle. destruct (isErr (ResErr r)) eqn:E.
  - eapply runs_bind; [apply runs_revert|]. intros []. apply runs_ret. intros w HU.
    split; [by destruct (negb _)|]. split; [by apply untouched_settled|done].
  - eapply runs_bind; [apply runs_release|]. intros []. apply runs_ret. intros w HS.
    split; [done|]. split; [done|]. by rewrite E.
Qed.

Lemma runs_execute_settle d0 id c G :
  is_u64 (ctx_Gas c) -> len (ctx_Code c) < 2 ^ 63 -> 0 <= ctx_Depth c -> (frame_fuel (ctx_Gas c) <= fuel)%nat ->
  ctx_Gas c <= G ->
  runs (inside d0 id) (r ← Execute e fuel c; settle id (ctx_Gas c) r) (finished d0 G).
Proof.
  intros Hg Hc Hd Hf HG. eapply runs_bind; [by apply runs_Execute|]. intros r w [HI HU].
  unfold is_u64 in Hg. eapply runs_settle; [| |exact HI]; lia.
Qed.

Lemma nestedGas_le depth gas : 0 <= gas -> 0 <= nestedGas depth gas <= gas.
Proof. intros Hg. unfold nestedGas. destruct (_ && _); [|lia]. cbv zeta. destruct (_ <? _); zlia. Qed.

(** *** Calls *)

Lemma RunWithContextV2_gas reg a c ctx input g (d : DB) o u err d' :
  reg !! a = Some c -> contract_ok c -> 0 <= g ->
  RunWithContextV2 reg ctx a input g d = (Ok (o, u, err), d') -> 0 <= u <= g.
Proof.
  intros ER HC Hg. unfold RunWithContextV2. rewrite ER. pose proof (pc_gas c HC input) as HU. unfold is_u64 in HU.
  destruct (Z.ltb_spec g (RequiredGas c input)); [intros [= _ <- _]; lia|].
  destruct (runContract c ctx input d) as [[] ?]; intros [= _ <- _ _]; lia.
Qed.

Lemma runs_precompiled (P : World DB -> Prop) a c caller value t chain static input g :
  precompiled e !! a = Some c -> is_u64 g ->
  (forall w d, P w -> dbP (negb (IsStateful c)) (w_db w) d -> db_ok d -> P (set_w_db d w)) ->
  (forall w, P w -> db_ok (w_db w)) ->
  runs P (executePrecompiledAtomicV2 e a caller caller value t chain static input g)
    (fun r w => P w /\ 0 <= r.1.2 <= g).
Proof.
  intros EC Hg HPd HPo w Hw. specialize (HP a c EC). unfold executePrecompiledAtomicV2, zoom.
  destruct (RunWithContextV2_ok (precompiled e) a c
    (mkPrecompileContext caller caller (if 0 <? t then t else 0) chain value static) input g (w_db w) EC HP Hg (HPo w Hw))
    as (o & u & err & d' & E & _ & HO & HD).
  rewrite E. exists (o, u, err), (set_w_db d' w). split; [done|]. split; [by apply HPd|].
  unfold is_u64 in Hg. eapply RunWithContextV2_gas; [exact EC|done|lia|exact E].
Qed.

Lemma inside_dbP d0 id st w d : inside d0 id w -> dbP st (w_db w) d -> db_ok d -> inside d0 id (set_w_db d w).
Proof.
  intros (j & v & H1 & H2 & H3 & H4 & H5 & HO & HC) (J & S & _) HO'. exists j, v. simpl.
  do 2 (split; [done|]). split; [by etransitivity|]. split; [done|]. split; [lia|done].
Qed.

(** The arguments of a call: the gas fits, and there is fuel for it. *)
Definition call_ok (gas depth : Z) : Prop :=
  is_u64 gas /\ 0 <= depth /\ (frame_fuel gas <= fuel)%nat.

Lemma frame_fuel_mono g g' : 0 <= g <= g' -> (frame_fuel g' <= fuel)%nat -> (frame_fuel g <= fuel)%nat.
Proof. unfold frame_fuel. lia. Qed.

Lemma runs_GetCode {A} P a (k : list byte -> M (World DB) A) Q :
  (forall w, P w -> db_ok (w_db w)) -> (forall code, len code < 2 ^ 63 -> runs P (k code) Q) ->
  runs P (dbGet (GetCode a) ≫= k) Q.
Proof.
  intros HO Hk w HF. destruct (HO w HF) as [H _].
  assert (HL : len (GetCode a (w_db w)) < 2 ^ 63) by (rewrite GetCode_view; by destruct (H a)).
  exact (Hk _ HL w HF).
Qed.

(** A call of an address without code. *)
Lemma runs_plain_call d0 id caller callee input g value b :
  is_u64 g ->
  runs (fresh d0 id)
    (if IsPrecompiled (precompiled e) callee then
      r ← executePrecompiledAtomicV2 e callee caller caller value (bc_Timestamp b) (bc_ChainID b) false input g;
      let '(output, gasUsed, err) := r in
      match err with
      | Some err => dbSet (RevertToSnapshot id);; mret (fail err gasUsed)
      | None => dbSet (releaseFrame id);; mret (mkResult output gasUsed 0 [] None false)
      end
    else if positive value then
      callerBalance ← db (GetBalance caller);
      if callerBalance <? amount value then
        dbSet (releaseFrame id);; mret (fail ErrInsufficientBalance g)
      else
        dbSet (SetBalance caller (callerBalance - amount value));;
        calleeBalance ← db (GetBalance callee);
        dbSet (SetBalance callee (calleeBalance + amount value));;
        dbSet (releaseFrame id);;
        mret (mkResult [] (if GasVeryLow <=? g then GasVeryLow else g) 0 [] None false)
    else dbSet (releaseFrame id);; mret (mkResult [] 0 0 [] None false)) (finished d0 g).
Proof.
  intros Hg. unfold is_u64 in Hg. unfold IsPrecompiled. case_bool_decide as HC.
  - destruct HC as [c EC]. eapply runs_conseq; [|intros w [HI _]; exact HI|intros ? ? H; exact H].
    eapply runs_bind.
    { apply (runs_precompiled (inside d0 id) callee c); [done|done| |apply inside_ok]. intros. by eapply inside_dbP. }
    intros [[o u] [err|]]; simpl.
    + intros w [HI HU]. revert w HI. eapply runs_bind; [apply runs_revert|]. intros []. apply runs_ret.
      intros w HV. by apply finished_fail.
    + intros w [HI HU]. revert w HI. eapply runs_bind; [apply runs_release|]. intros []. apply runs_ret.
      intros w HV. by split.
  - destruct (positive value) eqn:EP.
    + apply runs_transfer.
      * destruct value as [v|]; [|done]. by apply Z.ltb_lt in EP.
      * eapply runs_bind; [apply runs_release_fresh|]. intros []. apply runs_ret. intros w HU. apply finished_fail; [lia|done].
      * eapply runs_bind; [apply runs_release|]. intros []. apply runs_ret. intros w HU. split; [|done]. simpl.
        unfold GasVeryLow. destruct (Z.leb_spec 3 g); lia.
    + eapply runs_bind; [apply runs_release_fresh|]. intros []. apply runs_ret. intros w HU. split; [simpl; lia|].
      split; [by apply untouched_settled|done].
Qed.

Lemma finished_mono d0 g g' r w : g <= g' -> finished d0 g r w -> finished d0 g' r w.
Proof. intros Hg (H1 & H2). split; [lia|done]. Qed.

Lemma runs_CallWithRollback d0 caller callee input gas value b flag depth :
  call_ok gas depth ->
  runs (untouched d0) (CallWithRollback e fuel caller callee input gas value b flag depth) (finished d0 gas).
Proof.
  intros (Hg & Hd & Hf). unfold is_u64 in Hg. unfold CallWithRollback. case_bool_decide.
  { apply runs_ret. intros w HU. apply finished_fail; [lia|done]. }
  cbv zeta. pose proof (nestedGas_le depth gas ltac:(lia)) as HN. set (g := nestedGas depth gas) in *.
  assert (Hfg : (frame_fuel g <= fuel)%nat) by (eapply frame_fuel_mono; [|exact Hf]; lia).
  eapply runs_bind; [apply runs_Snapshot|]. intros id. cbv beta. destruct (id <? 0).
  { apply runs_ret. intros w HU. by apply finished_fail. }
  apply (runs_GetCode (fresh d0 id)); [intros w [HI _]; by apply (inside_ok d0 id)|]. intros code HL.
  assert (HX : runs (inside d0 id)
    (r ← Execute e fuel (blockCtx b caller callee value code input None g depth false false); settle id g r) (finished d0 gas)).
  { apply (runs_execute_settle d0 id (blockCtx b caller callee value code input None g depth false false) gas); simpl;
      [unfold is_u64; lia|done|done|done|lia]. }
  destruct (len code =? 0).
  { eapply runs_conseq; [apply (runs_plain_call d0 id); unfold is_u64; lia|done|]. intros r w. apply finished_mono. lia. }
  destruct (positive value) eqn:EP.
  - apply runs_transfer; [destruct value; [by apply Z.ltb_lt in EP|done]| |done].
    apply runs_ret. intros w HF. apply finished_fail; [lia|]. by eapply fresh_untouched.
  - eapply runs_conseq; [exact HX|by intros w [? _]|done].
Qed.

(** *** Static calls *)

Lemma runs_static_execute d0 c :
  is_u64 (ctx_Gas c) -> len (ctx_Code c) < 2 ^ 63 -> 0 <= ctx_Depth c -> (frame_fuel (ctx_Gas c) <= fuel)%nat ->
  ctx_ReadOnly c = true ->
  runs (untouched d0) (Execute e fuel c) (fun r w => untouched d0 w /\ 0 <= GasUsed r <= ctx_Gas c).
Proof.
  intros Hg Hc Hd Hf Hro w HU. unfold is_u64 in Hg. unfold Execute. destruct (if ctx_SkipValidation c then _ else _).
  { eexists _, w. split; [reflexivity|]. split; [done|]. simpl. lia. }
  destruct (Z.leb_spec MaxCallDepth (ctx_Depth c)) as [HL|HL].
  { eexists _, w. split; [reflexivity|]. split; [done|]. simpl. lia. }
  destruct HU as (HD & HO & HC).
  destruct (Execute_total (interpreter e) HT HR fuel c w (mkCtxOk c Hg Hc (conj Hd HL)) Hf HO HC)
    as (r & w' & E & HU & HD' & HO' & HC').
  exists r, w'. split; [done|]. split; [|done]. rewrite Hro in HD'. split; [by etransitivity|].
  split; [done|]. rewrite HC'. by case_bool_decide.
Qed.

Lemma runs_StaticCall d0 caller callee input gas b depth :
  call_ok gas depth ->
  runs (untouched d0) (StaticCall e fuel caller callee input gas b depth)
    (fun r w => untouched d0 w /\ 0 <= GasUsed r <= gas).
Proof.
  intros (Hg & Hd & Hf). pose proof Hg as Hg'. unfold is_u64 in Hg'. unfold StaticCall.
  destruct (precompiled e !! callee) as [c|] eqn:EC.
  - destruct (IsStateful c) eqn:ES; [apply runs_ret; intros w HU; split; [done|simpl; lia]|].
    eapply runs_bind.
    { apply (runs_precompiled (untouched d0) callee c); [done|done| |by intros w (_ & HO & _)].
      intros w d (HD & HO & HC) HD' HO'. rewrite ES in HD'. split; [by etransitivity|done]. }
    intros [[o u] [err|]]; apply runs_ret; intros w [HU Hu]; split; done.
  - apply (runs_GetCode (untouched d0)); [by intros w (_ & HO & _)|]. intros code HL.
    destruct (len code =? 0); [apply runs_ret; intros w HU; split; [done|simpl; lia]|].
    by apply (runs_static_execute d0 (blockCtx b caller callee (Some 0) code input None gas depth true false)).
Qed.

Lemma runs_ExecuteWithRollback d0 c :
  is_u64 (ctx_Gas c) -> len (ctx_Code c) < 2 ^ 63 -> 0 <= ctx_Depth c -> (frame_fuel (ctx_Gas c) <= fuel)%nat ->
  runs (untouched d0) (ExecuteWithRollback e fuel c) (finished d0 (ctx_Gas c)).
Proof.
  intros Hg Hc Hd Hf. unfold ExecuteWithRollback. pose proof Hg as Hg'. unfold is_u64 in Hg'.
  eapply runs_bind; [apply runs_Snapshot|]. intros id. cbv beta. destruct (id <? 0).
  { apply runs_ret. intros w HU. apply finished_fail; [lia|done]. }
  eapply runs_conseq; [by apply runs_execute_settle|by intros w [? _]|done].
Qed.

(** *** Deployment *)

Definition fits (code : list byte) : Prop :=
  len code <= MaxCodeSize /\ vr_Valid (ValidateDeployedCode (validator e) code) = true.

(** [code] is what the init code returned, translated if it is EVM code. *)
Definition runtime_of (returned code : list byte) : Prop :=
  (if (0 <? len returned) && IsEVMBytecode returned then TranslateEVMBytecode returned else inr returned) = inr code.

(** A creation that succeeded has put code that passed the checks at its address. *)
Definition created (d0 : DB) (gas : Z) (p : ExecutionResult * Address) (w : World DB) : Prop :=
  finished d0 gas p.1 w /\
  (isErr (ResErr p.1) = false ->
   fits (GetCode p.2 (w_db w)) /\ runtime_of (ReturnData p.1) (GetCode p.2 (w_db w))).

Lemma created_fail d0 gas err g a w : 0 <= g <= gas -> untouched d0 w -> created d0 gas (fail err g, a) w.
Proof. intros Hg HU. split; [by apply finished_fail|done]. Qed.

Lemma inside_SetCode d0 id w a code :
  inside d0 id w -> len code <= MaxCodeSize -> inside d0 id (set_w_db (SetCode a code (w_db w)) w).
Proof.
  intros HI HL. pose proof (inside_ok d0 id w HI) as [HO1 HO2]. apply inside_step; [done|apply journal_SetCode| |].
  - rewrite view_SetCode, supply_upd. unfold balance_of. simpl. lia.
  - split; [|by rewrite journal_SetCode]. rewrite view_SetCode. intros c. rewrite account_upd. case_decide; [|apply HO1].
    destruct (HO1 a). split; [done|]. simpl. unfold MaxCodeSize in HL. lia.
Qed.

Lemma code_SetCode a code (d : DB) : GetCode a (SetCode a code d) = code.
Proof.
  rewrite GetCode_view. destruct (view_SetCode a code d a) as (_ & _ & -> & _). by rewrite account_upd, decide_True.
Qed.

Lemma runs_deploy d0 id a gas G r :
  0 <= GasUsed r <= gas -> gas <= G < 2 ^ 64 ->
  runs (inside d0 id) (deploy e a id gas r) (created d0 G).
Proof.
  intros Hr HG. unfold deploy. cbv zeta.
  assert (HF : forall err used, 0 <= used <= G ->
    runs (inside d0 id) (dbSet (RevertToSnapshot id);; mret (fail err used, zero_address)) (created d0 G)).
  { intros err used Hu. eapply runs_bind; [apply runs_revert|]. intros []. apply runs_ret. intros w HU. by apply created_fail. }
  destruct (isErr (ResErr r)) eqn:EE.
  { eapply runs_bind; [apply runs_revert|]. intros []. apply runs_ret. intros w HU.
    split; [|simpl; by rewrite EE]. split; [simpl; lia|]. split; [by apply untouched_settled|done]. }
  destruct (if (0 <? len (ReturnData r)) && _ then _ else _) as [|code] eqn:ER; [apply HF; lia|].
  destruct (Z.ltb_spec MaxCodeSize (len code)) as [|HL]; [apply HF; lia|].
  destruct (vr_Valid _) eqn:EV; [|apply HF; lia]. cbn [negb].
  destruct (if 0 <? len code then _ else _) as [|used] eqn:EU; [apply HF; lia|].
  assert (Hused : 0 <= used /\ ((0 <? len code) && (gas <? used) = false -> used <= G)).
  { destruct (0 <? len code).
    - destruct (SafeMulGas _ _) as [|cost]; [done|]. unfold SafeAddGas in EU. destruct (u64 (MaxUint64 - cost) <? GasUsed r); [done|].
      injection EU as <-. pose proof (u64_range (GasUsed r + cost)) as HU. unfold is_u64 in HU. split; [lia|].
      intros HX%Z.ltb_ge. lia.
    - injection EU as <-. split; [lia|]. intros _. lia. }
  destruct ((0 <? len code) && (gas <? used)); [apply HF; lia|]. destruct Hused as [H0 HU]. specialize (HU eq_refl).
  intros w HI. pose proof (inside_SetCode d0 id w a code HI HL) as HI1.
  destruct (release_inside d0 id _ HI1) as [HS HV]. simpl in HV. eexists. eexists. split; [reflexivity|].
  split; [split; [done|]; split; [exact HS|simpl; by rewrite EE]|]. intros _. simpl.
  rewrite !GetCode_view. destruct (HV a) as (_ & _ & -> & _). rewrite <- GetCode_view, code_SetCode. by split.
Qed.

Lemma init_len initCode code :
  len initCode <= MaxInitCodeSize ->
  (if (0 <? len initCode) && IsEVMBytecode initCode then TranslateEVMBytecode initCode else inr initCode) = inr code ->
  len code < 2 ^ 63.
Proof.
  unfold MaxInitCodeSize. intros HL. destruct (_ && _); [|intros [= <-]; lia]. intros H%TranslateEVMBytecode_len. lia.
Qed.

(** The endowment overwrites the balance of the new account. *)
Lemma inside_endow d0 id w caller a x v :
  inside d0 id w -> x = balance_of (view (w_db w)) caller -> 0 <= v <= x ->
  inside d0 id (set_w_db (SetBalance a v (SetBalance caller (x - v) (w_db w))) w).
Proof.
  intros HI Hx Hv. pose proof (inside_ok d0 id w HI) as [HO1 HO2]. set (d1 := SetBalance caller (x - v) (w_db w)).
  assert (V1 : view d1 ≈ upd caller (set_balance (x - v)) (view (w_db w))) by apply view_SetBalance.
  assert (O1 : view_ok (view d1)).
  { rewrite V1. intros c. rewrite account_upd. case_decide; [|apply HO1]. destruct (HO1 caller). split; [simpl; lia|done]. }
  assert (S1 : supply (view d1) = supply (view (w_db w)) - v) by (rewrite V1, supply_upd; simpl; lia).
  apply inside_step; [done|unfold d1; by rewrite !journal_SetBalance| |].
  - rewrite view_SetBalance, supply_upd, S1. simpl. destruct (O1 a) as [P _]. unfold balance_of. lia.
  - split; [|unfold d1; by rewrite !journal_SetBalance]. rewrite view_SetBalance. intros c. rewrite account_upd.
    case_decide; [|apply O1]. destruct (O1 a). split; [simpl; lia|done].
Qed.

Lemma inside_SetNonce d0 id w a n : inside d0 id w -> inside d0 id (set_w_db (SetNonce a n (w_db w)) w).
Proof.
  intros HI. pose proof (inside_ok d0 id w HI) as [HO1 HO2]. apply inside_step; [done|apply journal_SetNonce| |].
  - rewrite view_SetNonce, supply_upd. unfold balance_of. simpl. lia.
  - split; [|by rewrite journal_SetNonce]. rewrite view_SetNonce. intros c. rewrite account_upd. case_decide; [|apply HO1].
    by destruct (HO1 a).
Qed.

Lemma runs_runInit d0 id caller a initCode gas G value b depth :
  call_ok gas depth -> gas <= G < 2 ^ 64 -> len initCode <= MaxInitCodeSize ->
  runs (inside d0 id) (runInit e fuel caller a initCode gas value b depth id) (created d0 G).
Proof.
  intros (Hg & Hd & Hf) HG HL. pose proof Hg as Hg'. unfold is_u64 in Hg'. unfold runInit.
  destruct (if (0 <? len initCode) && _ then _ else _) as [|code] eqn:EC.
  - eapply runs_bind; [apply runs_revert|]. intros []. apply runs_ret. intros w HU. apply created_fail; [lia|done].
  - eapply runs_bind.
    { apply (runs_Execute d0 id (blockCtx b caller a value code initCode (Some initCode) gas depth false true));
        [done|by eapply init_len|done|done]. }
    intros r w [HI HU]. revert w HI. by apply runs_deploy.
Qed.

Lemma runs_construct d0 caller a initCode gas G value b depth :
  call_ok gas depth -> gas <= G < 2 ^ 64 -> len initCode <= MaxInitCodeSize ->
  runs (untouched d0) (construct e fuel caller a initCode gas value b depth) (created d0 G).
Proof.
  intros HK HG HL. pose proof (fun id => runs_runInit d0 id caller a initCode gas G value b depth HK HG HL) as Hrun.
  destruct HK as (Hg & _). unfold is_u64 in Hg. unfold construct.
  eapply runs_bind; [apply runs_Snapshot|]. intros id. cbv beta. destruct (id <? 0).
  { apply runs_ret. intros w HU. apply created_fail; [lia|done]. }
  eapply runs_bind; [apply (runs_dbSet _ (inside d0 id)); intros w [HI _]; by apply inside_SetNonce|]. intros [].
  destruct (positive value) eqn:EP; [|apply Hrun]. intros w HI.
  unfold mbind at 1, M_bind at 1, db at 1.
  pose proof (view_GetBalance caller (w_db w)) as V. pose proof (GetBalance_view caller (w_db w)) as B.
  pose proof (journal_GetBalance caller (w_db w)) as J. destruct (GetBalance caller (w_db w)) as [x d1]. simpl in V, B, J.
  assert (HI1 : inside d0 id (set_w_db d1 w)).
  { apply inside_step; [done|done|by rewrite V|]. by apply (db_ok_same (w_db w)), (inside_ok d0 id w). }
  destruct (Z.ltb_spec x (amount value)).
  - revert HI1. generalize (set_w_db d1 w). eapply runs_bind; [apply runs_revert|]. intros []. apply runs_ret.
    intros w' HU. apply created_fail; [lia|done].
  - destruct value as [v|]; [|done]. apply Z.ltb_lt in EP. simpl in *.
    pose proof (inside_endow d0 id (set_w_db d1 w) caller a x v HI1) as HE. simpl in HE.
    exact (Hrun id _ (HE ltac:(by rewrite V, B) ltac:(lia))).
Qed.

Lemma untouched_read d0 w d :
  untouched d0 w -> journal d = journal (w_db w) -> view d ≈ view (w_db w) -> untouched d0 (set_w_db d w).
Proof.
  intros ((J & S & V) & HO & HC) HJ HV. split; [split; simpl; [by rewrite HJ|split; [by rewrite HV|intros _; rewrite HV; auto]]|].
  split; [by apply (db_ok_same (w_db w))|done].
Qed.

Lemma runs_GetNonce d0 a : runs (untouched d0) (db (GetNonce a)) (fun _ => untouched d0).
Proof.
  intros w HU. unfold db. pose proof (view_GetNonce a (w_db w)) as V. pose proof (journal_GetNonce a (w_db w)) as J.
  destruct (GetNonce a (w_db w)) as [n d]. eexists. eexists. split; [reflexivity|]. by apply untouched_read.
Qed.

Lemma runs_taken d0 a : runs (untouched d0) (taken a) (fun _ => untouched d0).
Proof.
  unfold taken. eapply runs_bind; [apply runs_dbGet|]. intros [|] w [HU _]; [by eexists _, _|]. revert w HU.
  eapply runs_bind; [apply runs_dbGet|]. intros size w [HU _]. revert w HU. destruct (0 <? size); [by apply runs_ret|].
  eapply runs_bind; [apply runs_GetNonce|]. intros n. by apply runs_ret.
Qed.

Lemma initGas_ok msg initCode gas depth g :
  call_ok gas depth -> createGas msg initCode gas depth = inr g ->
  call_ok g depth /\ g <= gas < 2 ^ 64 /\ len initCode <= MaxInitCodeSize.
Proof.
  intros (Hg & Hd & Hf). unfold is_u64 in Hg. unfold createGas.
  destruct (Z.ltb_spec MaxInitCodeSize (len initCode)) as [|HL]; [done|].
  destruct (SafeMulGas _ _) as [|cost] eqn:EM; [done|]. destruct (Z.ltb_spec gas cost); [done|]. intros [= <-].
  assert (Hc : 0 <= cost). { unfold SafeMulGas in EM. destruct (_ && _); [done|]. injection EM as <-. apply u64_range. }
  pose proof (nestedGas_le depth (gas - cost) ltac:(lia)) as HN. split; [|split; [lia|done]].
  split; [unfold is_u64; lia|]. split; [done|]. eapply frame_fuel_mono; [|exact Hf]. lia.
Qed.

Lemma initGas_fail msg initCode gas depth r :
  createGas msg initCode gas depth = inl r -> exists err, r = fail err gas.
Proof.
  unfold createGas. destruct (_ <? _); [intros [= <-]; by eexists|]. destruct (SafeMulGas _ _); [intros [= <-]; by eexists|].
  destruct (_ <? _); [intros [= <-]; by eexists|done].
Qed.

Lemma runs_Create d0 caller initCode gas value b depth :
  call_ok gas depth ->
  runs (untouched d0) (Create e fuel caller initCode gas value b depth) (created d0 gas).
Proof.
  intros HK. pose proof HK as (Hg & _). unfold is_u64 in Hg. unfold Create.
  destruct (createGas _ initCode gas depth) as [r|g] eqn:EG.
  { destruct (initGas_fail _ _ _ _ _ EG) as [err ->]. apply runs_ret. intros w HU. apply created_fail; [lia|done]. }
  destruct (initGas_ok _ _ _ _ _ HK EG) as (HKg & Hgg & HL). assert (0 <= g) by (destruct HKg as [HKg _]; unfold is_u64 in HKg; lia).
  eapply runs_bind; [apply runs_GetNonce|]. intros nonce. cbv beta. destruct (nonce =? 0).
  { apply runs_ret. intros w HU. apply created_fail; [lia|done]. }
  eapply runs_bind; [apply runs_taken|]. intros []; [|by apply runs_construct].
  apply runs_ret. intros w HU. apply created_fail; [lia|done].
Qed.

Lemma runs_Create2 d0 caller initCode salt gas value b depth :
  call_ok gas depth ->
  runs (untouched d0) (Create2 e fuel caller initCode salt gas value b depth) (created d0 gas).
Proof.
  intros HK. pose proof HK as (Hg & _). unfold is_u64 in Hg. unfold Create2.
  destruct (createGas _ initCode gas depth) as [r|g] eqn:EG.
  { destruct (initGas_fail _ _ _ _ _ EG) as [err ->]. apply runs_ret. intros w HU. apply created_fail; [lia|done]. }
  destruct (initGas_ok _ _ _ _ _ HK EG) as (HKg & Hgg & HL). assert (0 <= g) by (destruct HKg as [HKg _]; unfold is_u64 in HKg; lia).
  eapply runs_bind; [apply runs_taken|]. intros []; [|by apply runs_construct].
  apply runs_ret. intros w HU. apply created_fail; [lia|done].
Qed.

(** *** Gas estimation *)

Section estimation.
Context (Hsnap : forall d : DB, 0 <= (Snapshot d).1).

(** A context the estimator can probe with up to [top] gas. *)
Definition probe_ok (c : ExecutionContext) (top : Z) : Prop :=
  len (ctx_Code c) < 2 ^ 63 /\ 0 <= ctx_Depth c /\ (frame_fuel top <= fuel)%nat /\ top < MaxUint64.

Lemma runs_probe d0 c top gas :
  probe_ok c top -> 0 <= gas <= top ->
  runs (untouched d0) (probe e fuel c gas) (fun r w => untouched d0 w /\ 0 <= GasUsed r <= gas).
Proof.
  intros (Hc & Hd & Hf & Ht) Hg. unfold probe, MaxUint64 in *. intros w HU.
  pose proof (Hsnap (w_db w)) as HS.
  assert (HX : exists id w1, db Snapshot w = (Ok id, w1) /\ inside d0 id w1).
  { destruct (runs_Snapshot d0 w HU) as (id & w1 & E & HI). exists id, w1. split; [done|].
    unfold db in E. destruct (Snapshot (w_db w)) as [id' d]. injection E as -> <-. simpl in HS.
    rewrite (proj2 (Z.ltb_ge _ _)) in HI by done. apply HI. }
  destruct HX as (id & w1 & E & HI). rewrite (bind_Ok _ _ _ _ _ E). revert w1 HI E. intros w1 HI _. revert w1 HI.
  eapply runs_bind.
  { apply (runs_Execute d0 id (set_ctx_Gas gas c)); simpl; [unfold is_u64; lia|done|done|].
    eapply frame_fuel_mono; [|exact Hf]. lia. }
  intros r w1 [HI Hr]. revert w1 HI. eapply runs_bind; [apply runs_revert|]. intros []. by apply runs_ret.
Qed.

(** A run with [gas] on the same accounts ended in a result that satisfies [P]. *)
Definition probed (d0 : DB) (c : ExecutionContext) (gas : Z) (P : option error -> Prop) : Prop :=
  exists w1 r w2, untouched d0 w1 /\ probe e fuel c gas w1 = (Ok r, w2) /\ P (ResErr r).

(** What the search may answer: an amount with which a run did not run out of
    gas, and, unless it is next to the lower end, one less made a run fail so. *)
Definition least (d0 : DB) (c : ExecutionContext) (lo hi h : Z) : Prop :=
  lo <= h <= hi /\ (lo < hi -> lo < h) /\ probed d0 c h (.≠ Some ErrOutOfGas) /\
  (h <= lo + 1 \/ probed d0 c (h - 1) (.= Some ErrOutOfGas)).

Lemma least_low d0 c lo mid hi h : lo < mid <= hi -> least d0 c lo mid h -> least d0 c lo hi h.
Proof. intros Hm (Hh & Hl & Hp & Hs). split; [lia|]. split; [|done]. intros _. apply Hl. lia. Qed.

Lemma least_high d0 c lo mid hi h :
  lo < mid < hi -> probed d0 c mid (.= Some ErrOutOfGas) -> least d0 c mid hi h -> least d0 c lo hi h.
Proof.
  intros Hm Hp (Hh & Hl & He & Hs). split; [lia|]. split; [lia|]. split; [done|]. destruct Hs as [Hs|Hs]; [|by right].
  right. by replace (h - 1) with mid by lia.
Qed.

Lemma runs_search d0 c top n : forall lo hi,
  probe_ok c top -> 0 <= lo <= hi -> hi <= top -> hi - lo <= 2 ^ Z.of_nat n -> probed d0 c hi (.≠ Some ErrOutOfGas) ->
  runs (untouched d0) (search e fuel n c lo hi)
    (fun r w => untouched d0 w /\ match r with inr h => least d0 c lo hi h | inl _ => True end).
Proof.
  induction n as [|n IH]; intros lo hi HK Hlo Hhi Hw HE; cbn [search];
    rewrite (u64_small (lo + 1)) by (destruct HK as (_ & _ & _ & HK); unfold is_u64, MaxUint64 in *; lia);
    (destruct (Z.ltb_spec (lo + 1) hi) as [Hlt|Hge];
      [|intros w HU; eexists _, _; split; [reflexivity|]; split; [done|]; repeat split; try lia; auto; left; lia]).
  { change (2 ^ Z.of_nat 0) with 1 in Hw. lia. }
  rewrite Nat2Z.inj_succ, Z.pow_succ_r in Hw by lia. cbv zeta.
  set (mid := lo + (hi - lo) / 2) in *. assert (Hm : lo < mid < hi) by (unfold mid; zlia).
  assert (Hm' : mid - lo <= 2 ^ Z.of_nat n /\ hi - mid <= 2 ^ Z.of_nat n) by (unfold mid; zlia).
  intros w HU. destruct (runs_probe d0 c top mid HK ltac:(lia) w HU) as (r & w1 & E & HU1 & _).
  rewrite (bind_Ok _ _ _ _ _ E).
  assert (Hlow : ResErr r <> Some ErrOutOfGas -> exists a w', search e fuel n c lo mid w1 = (Ok a, w') /\
    (untouched d0 w' /\ match a with inr h => least d0 c lo hi h | inl _ => True end)).
  { intros HN. destruct (IH lo mid HK ltac:(lia) ltac:(lia) ltac:(lia)) with (w := w1) as (a & w' & Ea & HUa & Ha);
      [by exists w, r, w1|done|]. exists a, w'. split; [done|]. split; [done|].
    destruct a; [done|]. eapply least_low; [|done]. lia. }
  destruct (ResErr r) as [[]|] eqn:HE'; try (by apply Hlow); try (eexists _, _; by split).
  destruct (IH mid hi HK ltac:(lia) ltac:(lia) ltac:(lia) HE w1 HU1) as (a & w' & Ea & HUa & Ha).
  exists a, w'. split; [done|]. split; [done|]. destruct a; [done|]. eapply least_high; [| |done]; [lia|]. by exists w, r, w1.
Qed.

Lemma runs_EstimateGasWithRange d0 c top nil lo hi :
  let intrinsic := EstimateIntrinsicGas (ctx_Input c) ((0 <? len (ctx_Code c)) && nil) None in
  probe_ok c top -> 0 <= lo <= top -> 0 <= hi <= top -> 0 <= ctx_GasLimit c <= top -> 0 <= intrinsic <= top ->
  runs (untouched d0) (EstimateGasWithRange e fuel 64 c nil lo hi)
    (fun r w => untouched d0 w /\
       (r.2 = None -> r.1 <= ctx_GasLimit c /\
          exists hi' h, least d0 c (Z.max lo intrinsic) hi' h /\ (r.1 = h + h / 10 \/ r.1 = ctx_GasLimit c))).
Proof.
  intros intrinsic HK Hlo Hhi HG HI. unfold EstimateGasWithRange. cbv zeta. fold intrinsic. clearbody intrinsic.
  assert (El : (if lo <? intrinsic then intrinsic else lo) = Z.max lo intrinsic) by (destruct (Z.ltb_spec lo intrinsic); lia).
  rewrite El. clear El. set (lo' := Z.max lo intrinsic).
  set (h0 := if hi =? 0 then ctx_GasLimit c else hi). set (hi' := if h0 <? lo' then lo' else h0).
  assert (Hl' : 0 <= lo' <= top) by (unfold lo'; lia).
  assert (Hh' : lo' <= hi' <= top).
  { unfold hi', h0. destruct (hi =? 0); [destruct (Z.ltb_spec (ctx_GasLimit c) lo')|destruct (Z.ltb_spec hi lo')]; lia. }
  clearbody lo' hi'. intros w HU. destruct (runs_probe d0 c top hi' HK ltac:(lia) w HU) as (r & w1 & E & HU1 & _).
  rewrite (bind_Ok _ _ _ _ _ E).
  assert (HS : ResErr r <> Some ErrOutOfGas -> exists a w',
    (if Reverted r then mret (GasUsed r, Some ErrExecutionReverted) else
      r ← search e fuel 64 c lo' hi';
      match r with
      | inl err => mret (0, Some err)
      | inr hi =>
          let estimated := u64 (hi + hi / 10) in
          mret (if (estimated <? hi) || (ctx_GasLimit c <? estimated) then ctx_GasLimit c else estimated, None)
      end) w1 = (Ok a, w') /\ untouched d0 w' /\
       (a.2 = None -> a.1 <= ctx_GasLimit c /\
          exists hi' h, least d0 c lo' hi' h /\ (a.1 = h + h / 10 \/ a.1 = ctx_GasLimit c))).
  { intros HN. destruct (Reverted r); [eexists _, _; by split|].
    destruct (runs_search d0 c top 64 lo' hi' HK ltac:(lia) ltac:(lia)) with (w := w1) as (a & w2 & Es & HUs & Ha).
    - destruct HK as (_ & _ & _ & HK). unfold MaxUint64 in HK. change (2 ^ Z.of_nat 64) with (2 ^ 64). lia.
    - by exists w, r, w1.
    - done.
    - rewrite (bind_Ok _ _ _ _ _ Es). destruct a as [err|h]; [eexists _, _; by split|]. assert (Hh : lo' <= h <= hi') by apply Ha.
      eexists _, _. split; [reflexivity|]. split; [done|]. intros _. simpl. destruct (Z.ltb_spec (u64 (h + h / 10)) h); simpl.
      { split; [lia|]. exists hi', h. auto. }
      destruct (Z.ltb_spec (ctx_GasLimit c) (u64 (h + h / 10))); [split; [lia|]; exists hi', h; auto|].
      split; [lia|]. exists hi', h. split; [done|]. left. destruct HK as (_ & _ & _ & HK). unfold u64, MaxUint64 in *. zlia. }
  destruct (ResErr r) as [[]|]; try (by apply HS); eexists _, _; by split.
Qed.
End estimation.
End spec.

(** ** Theorems *)

Section theorems.
Context {DB : Type} `{!StateDB DB} `{!StateDBLaws DB}.

(** The executor charges by the default gas table and has registries of contracts
    that keep the rules for precompiled contracts. *)
Record executor_ok (e : Executor DB) : Prop := {
  ex_table : i_gasTable (interpreter e) = DefaultGasTable;
  ex_registry : registry_ok (interpreter e);
  ex_precompiled : forall a c, precompiled e !! a = Some c -> contract_ok c
}.

(** The ways the node starts a transaction. *)
Inductive Entry : Type :=
| EntryExecute (ctx : ExecutionContext)
| EntryCall (caller callee : Address) (input : list byte) (value : option Z)
| EntryCreate (caller : Address) (initCode : list byte) (value : option Z)
| EntryCreate2 (caller : Address) (initCode : list byte) (salt : Hash) (value : option Z).

Definition entry_ok (t : Entry) : Prop :=
  match t with
  | EntryExecute c => len (ctx_Code c) < 2 ^ 63 /\ 0 <= ctx_Depth c
  | _ => True
  end.

Definition start (e : Executor DB) (fuel : nat) (t : Entry) (gas : Z) (b : BlockContext) (depth : Z) :
    M (World DB) ExecutionResult :=
  match t with
  | EntryExecute c => ExecuteWithRollback e fuel (set_ctx_Gas gas c)
  | EntryCall caller callee input value => Call e fuel caller callee input gas value b depth
  | EntryCreate caller initCode value => p ← Create e fuel caller initCode gas value b depth; mret p.1
  | EntryCreate2 caller initCode salt value => p ← Create2 e fuel caller initCode salt gas value b depth; mret p.1
  end.

Lemma runs_fst {A B} (P : World DB -> Prop) (m : M (World DB) (A * B)) (Q : A -> World DB -> Prop) :
  runs P m (fun p => Q p.1) -> runs P (p ← m; mret p.1) Q.
Proof. intros H. eapply runs_bind; [exact H|]. intros [a b]. by apply runs_ret. Qed.

Lemma runs_start e fuel t gas b depth d0 :
  executor_ok e -> entry_ok t -> call_ok fuel gas depth ->
  runs (untouched d0) (start e fuel t gas b depth) (finished d0 gas).
Proof.
  intros [HT HR HP] Ht HK. destruct t; cbn [start].
  - destruct Ht, HK as (? & ? & ?). by apply (runs_ExecuteWithRollback e fuel HT HR d0 (set_ctx_Gas gas ctx)).
  - by apply (runs_CallWithRollback e fuel HT HR HP d0).
  - apply runs_fst. eapply runs_conseq; [by apply (runs_Create e fuel HT HR d0)|done|by intros ? ? []].
  - apply runs_fst. eapply runs_conseq; [by apply (runs_Create2 e fuel HT HR d0)|done|by intros ? ? []].
Qed.

(** The end of a transaction that is known to have returned. *)
Lemma start_finished e fuel t gas b depth w r w' :
  executor_ok e -> entry_ok t -> call_ok fuel gas depth -> db_ok (w_db w) -> counts_ok (w_reentryCounts w) ->
  start e fuel t gas b depth w = (Ok r, w') -> finished (w_db w) gas r w'.
Proof.
  intros He Ht HK HO HC E. destruct (runs_start e fuel t gas b depth (w_db w) He Ht HK w (untouched_refl w HO HC))
    as (r1 & w1 & E1 & HF). rewrite E in E1. by injection E1 as <- <-.
Qed.
End theorems.
End ExecutorSpec.
