(* ===== verification/ExecutorTheorems.v ===== *)
(** * Theorems about transactions

    What the node may rely on when it starts a transaction through the
    executor, each applied to a small chain of three accounts. *)

From Stdlib Require Import ZArith Lia.
From Stdlib.Strings Require Import Byte.
From stdpp Require Import base list countable gmap strings numbers.
From S2P Require Import Prelude Stack Memory Gas Opcodes StateDB Rollup Env OpsArith OpsState Bytecode Calls Interp Frame FrameOps CallFrame CallRules CallOps CallFamily CreateOps Safety Executor Machine ExecutorSpec.

Import Executor ExecutorSpec.

(** ** A small chain *)

Module Chain.

(** Stores 5 in slot 1 and then meets an invalid instruction. *)
Definition failing : list byte := [x10; x05; x10; x01; x61; x08].

(** Stores 5 in slot 1 and stops. *)
Definition storing : list byte := [x10; x05; x10; x01; x61; x00].

(** Init code that returns one zero byte. *)
Definition initCode : list byte := [x10; x01; x10; x00; x06].

Definition db : Demo.DB := newRollupStateDB
  (<[Demo.addr 1 := mkRollupAccount 1 1000 (zero_array 32) ∅ []]>
   (<[Demo.addr 8 := mkRollupAccount 1 0 (zero_array 32) ∅ storing]>
    {[Demo.addr 9 := mkRollupAccount 1 0 (zero_array 32) ∅ failing]})).

Definition world : World Demo.DB := mkWorld db ∅ 0 ∅ ∅ ∅ ∅ [].

Definition executor : Executor Demo.DB := mkExecutor Demo.interp NewBytecodeValidator ∅.

Definition block : BlockContext :=
  mkBlockContext 7 9 (Demo.addr 3) 60000 (Some 1) (Some 1) (Some 1) (zero_array 32) 1 ∅.

Lemma executor_ok_chain : executor_ok executor.
Proof. split; [done|apply Demo.registry_ok_demo|]. intros a c. simpl. by rewrite lookup_empty. Qed.

Lemma db_ok_chain : db_ok (w_db world).
Proof.
  split; [|apply Forall_nil_2]. intros a. change (view (w_db world)) with (view_of (rs_states db)).
  rewrite account_view_of. unfold acc_of, db, newRollupStateDB. simpl.
  destruct (decide (Demo.addr 1 = a)) as [<-|]; [rewrite lookup_insert_eq|rewrite lookup_insert_ne by done;
    destruct (decide (Demo.addr 8 = a)) as [<-|]; [rewrite lookup_insert_eq|rewrite lookup_insert_ne by done;
      destruct (decide (Demo.addr 9 = a)) as [<-|]; [rewrite lookup_singleton_eq|rewrite lookup_singleton_ne by done]]];
    split; simpl; unfold len; simpl; lia.
Qed.

Lemma counts_ok_chain : counts_ok (w_reentryCounts world).
Proof. done. Qed.

Definition tx (t : Entry) (gas : Z) : res ExecutionResult * World Demo.DB :=
  start executor (frame_fuel gas) t gas block 0 world.

Lemma call_ok_chain gas : (0 <=? gas) && (gas <? 2 ^ 64) = true -> call_ok (frame_fuel gas) gas 0.
Proof. intros H. split; [by apply u64_const|done]. Qed.

Lemma tx_Ok t gas : entry_ok t -> (0 <=? gas) && (gas <? 2 ^ 64) = true -> exists r w', tx t gas = (Ok r, w').
Proof.
  intros Ht H. destruct (runs_start executor (frame_fuel gas) t gas block 0 (w_db world) executor_ok_chain Ht
    (call_ok_chain gas H) world (untouched_refl _ db_ok_chain counts_ok_chain)) as (r & w' & E & _). by exists r, w'.
Qed.

Definition call_failing : Entry := EntryCall (Demo.addr 1) (Demo.addr 9) [] (Some 10).
Definition call_storing : Entry := EntryCall (Demo.addr 1) (Demo.addr 8) [] (Some 10).
Definition creating : Entry := EntryCreate (Demo.addr 1) initCode (Some 10).
End Chain.

(** ** Transactions *)

Section transactions.
Context {DB : Type} `{!StateDB DB} `{!StateDBLaws DB} (e : Executor DB) (fuel : nat).

(** Every transaction terminates: a call, a creation or a plain execution
    returns a result, and it is charged at most the gas it was given. *)
Theorem transaction_terminates (t : Entry) (gas : Z) (b : BlockContext) (depth : Z) (w : World DB)
    (He : executor_ok e) (Ht : entry_ok t) (HK : call_ok fuel gas depth)
    (HO : db_ok (w_db w)) (HC : counts_ok (w_reentryCounts w)) :
  exists r w', start e fuel t gas b depth w = (Ok r, w') /\ 0 <= GasUsed r <= gas.
Proof.
  destruct (runs_start e fuel t gas b depth (w_db w) He Ht HK w (untouched_refl w HO HC)) as (r & w' & E & Hg & _).
  by exists r, w'.
Qed.

(** C21: a transaction that ends with an error leaves every balance, nonce, code
    and storage slot as it was before it, the value it moved included. *)
Theorem failed_transaction_rolls_back (t : Entry) (gas : Z) (b : BlockContext) (depth : Z) (w : World DB) r w'
    (He : executor_ok e) (Ht : entry_ok t) (HK : call_ok fuel gas depth)
    (HO : db_ok (w_db w)) (HC : counts_ok (w_reentryCounts w))
    (HE : start e fuel t gas b depth w = (Ok r, w')) (Herr : isErr (ResErr r) = true) :
  view (w_db w') ≈ view (w_db w).
Proof.
  destruct (start_finished e fuel t gas b depth w r w' He Ht HK HO HC HE) as (_ & _ & HU).
  destruct (HU Herr) as ((_ & _ & HV) & _). by apply HV.
Qed.

(** C22: no transaction creates value, if no precompiled contract does: the sum of
    all balances does not grow, no balance is negative afterwards, and the
    snapshots the node took before it can still be reverted to. *)
Theorem transaction_never_mints (t : Entry) (gas : Z) (b : BlockContext) (depth : Z) (w : World DB) r w'
    (He : executor_ok e) (Ht : entry_ok t) (HK : call_ok fuel gas depth)
    (HO : db_ok (w_db w)) (HC : counts_ok (w_reentryCounts w))
    (HE : start e fuel t gas b depth w = (Ok r, w')) :
  supply (view (w_db w')) <= supply (view (w_db w)) /\
  (forall a, 0 <= balance_of (view (w_db w')) a) /\
  journal (w_db w) `prefix_of` journal (w_db w').
Proof.
  destruct (start_finished e fuel t gas b depth w r w' He Ht HK HO HC HE) as (_ & ((HJ & HS & _) & [HO1 _] & _) & _).
  split; [done|]. split; [|done]. intros a. apply HO1.
Qed.
(** A static call, to code or to a precompiled contract, returns within its
    gas and leaves every balance, nonce, code and storage slot as it was. *)
Theorem static_call_read_only (caller callee : Address) (input : list byte) (gas : Z) (b : BlockContext)
    (depth : Z) (w : World DB)
    (He : executor_ok e) (HK : call_ok fuel gas depth) (HO : db_ok (w_db w)) (HC : counts_ok (w_reentryCounts w)) :
  exists r w', StaticCall e fuel caller callee input gas b depth w = (Ok r, w') /\
    0 <= GasUsed r <= gas /\ view (w_db w') ≈ view (w_db w).
Proof.
  destruct He as [HT HR HP]. destruct (runs_StaticCall e fuel HT HR HP (w_db w) caller callee input gas b depth HK w
    (untouched_refl w HO HC)) as (r & w' & E & ((_ & _ & HV) & _) & Hg). exists r, w'. auto.
Qed.

(** A creation that reports success has left code at the address it
    returns: what the init code returned, translated if it is EVM code, not
    larger than the limit and accepted by the validator. *)
Theorem created_code_checked (salt : option Hash) (caller : Address) (initCode : list byte) (gas : Z)
    (value : option Z) (b : BlockContext) (depth : Z) (w : World DB)
    (He : executor_ok e) (HK : call_ok fuel gas depth) (HO : db_ok (w_db w)) (HC : counts_ok (w_reentryCounts w)) :
  exists r a w',
    match salt with
    | None => Create e fuel caller initCode gas value b depth
    | Some salt => Create2 e fuel caller initCode salt gas value b depth
    end w = (Ok (r, a), w') /\
    (ResErr r = None ->
     let code := GetCode a (w_db w') in
     runtime_of (ReturnData r) code /\ len code <= MaxCodeSize /\
     vr_Valid (ValidateDeployedCode (validator e) code) = true).
Proof.
  destruct He as [HT HR _]. pose proof (untouched_refl w HO HC) as HU. destruct salt as [salt|].
  - destruct (runs_Create2 e fuel HT HR (w_db w) caller initCode salt gas value b depth HK w HU)
      as ([r a] & w' & E & _ & HF). exists r, a, w'. split; [done|]. intros Hn. simpl in HF. rewrite Hn in HF. by destruct HF.
  - destruct (runs_Create e fuel HT HR (w_db w) caller initCode gas value b depth HK w HU)
      as ([r a] & w' & E & _ & HF). exists r, a, w'. split; [done|]. intros Hn. simpl in HF. rewrite Hn in HF. by destruct HF.
Qed.

(** Gas estimation by binary search ends within 64 probes, leaves the
    accounts as they were, and answers an amount that, before the margin of a
    tenth, was enough for a run, while one less was not (unless it is at the
    lower end of the range); the answer is never above the block's limit. It is
    assumed that the database refuses no snapshot. *)
Theorem estimate_is_least (ctx : ExecutionContext) (top lo hi : Z) (inputNil : bool) (w : World DB)
    (He : executor_ok e) (Hsnap : forall d : DB, 0 <= (Snapshot d).1) (HK : probe_ok fuel ctx top)
    (Hlo : 0 <= lo <= top) (Hhi : 0 <= hi <= top) (HG : 0 <= ctx_GasLimit ctx <= top)
    (HI : 0 <= EstimateIntrinsicGas (ctx_Input ctx) ((0 <? len (ctx_Code ctx)) && inputNil) None <= top)
    (HO : db_ok (w_db w)) (HC : counts_ok (w_reentryCounts w)) :
  let intrinsic := EstimateIntrinsicGas (ctx_Input ctx) ((0 <? len (ctx_Code ctx)) && inputNil) None in
  exists g err w', EstimateGasWithRange e fuel 64 ctx inputNil lo hi w = (Ok (g, err), w') /\
    view (w_db w') ≈ view (w_db w) /\
    (err = None -> g <= ctx_GasLimit ctx /\
       exists hi' h, least e fuel (w_db w) ctx (Z.max lo intrinsic) hi' h /\ (g = h + h / 10 \/ g = ctx_GasLimit ctx)).
Proof.
  destruct He as [HT HR _]. destruct (runs_EstimateGasWithRange e fuel HT HR Hsnap (w_db w) ctx top inputNil lo hi
    HK Hlo Hhi HG HI w (untouched_refl w HO HC)) as ([g err] & w' & E & ((_ & _ & HV) & _) & HF).
  exists g, err, w'. auto.
Qed.
End transactions.

(** ** The theorems at work *)

Lemma transaction_terminates_witness :
  exists r w', start Chain.executor (frame_fuel 50000) Chain.creating 50000 Chain.block 0 Chain.world = (Ok r, w') /\
    0 <= GasUsed r <= 50000.
Proof.
  exact (transaction_terminates Chain.executor (frame_fuel 50000) Chain.creating 50000 Chain.block 0 Chain.world
    Chain.executor_ok_chain I (Chain.call_ok_chain 50000 eq_refl) Chain.db_ok_chain Chain.counts_ok_chain).
Defined.

(** The value and the store of a failing call are undone. *)
Lemma failed_transaction_rolls_back_witness :
  exists r w', Chain.tx Chain.call_failing 50000 = (Ok r, w') /\ isErr (ResErr r) = true /\
    view (w_db w') ≈ view (w_db Chain.world).
Proof.
  destruct (Chain.tx_Ok Chain.call_failing 50000 I eq_refl) as (r & w' & E). exists r, w'.
  assert (K : isErr (Demo.err_of (Chain.tx Chain.call_failing 50000)) = true) by (vm_compute; reflexivity).
  rewrite E in K. split; [exact E|]. split; [exact K|].
  exact (failed_transaction_rolls_back Chain.executor (frame_fuel 50000) Chain.call_failing 50000 Chain.block 0
    Chain.world r w' Chain.executor_ok_chain I (Chain.call_ok_chain 50000 eq_refl) Chain.db_ok_chain
    Chain.counts_ok_chain E K).
Defined.

(** A call that moves 10 and stores a word. *)
Lemma transaction_never_mints_witness :
  exists r w', Chain.tx Chain.call_storing 50000 = (Ok r, w') /\ ResErr r = None /\
    supply (view (w_db w')) <= supply (view (w_db Chain.world)).
Proof.
  destruct (Chain.tx_Ok Chain.call_storing 50000 I eq_refl) as (r & w' & E). exists r, w'.
  assert (K : Demo.err_of (Chain.tx Chain.call_storing 50000) = None) by (vm_compute; reflexivity).
  rewrite E in K. split; [exact E|]. split; [exact K|].
  exact (proj1 (transaction_never_mints Chain.executor (frame_fuel 50000) Chain.call_storing 50000 Chain.block 0
    Chain.world r w' Chain.executor_ok_chain I (Chain.call_ok_chain 50000 eq_refl) Chain.db_ok_chain
    Chain.counts_ok_chain E)).
Defined.

Lemma static_call_read_only_witness :
  exists r w', StaticCall Chain.executor (frame_fuel 50000) (Demo.addr 1) (Demo.addr 8) [] 50000 Chain.block 0
      Chain.world = (Ok r, w') /\ 0 <= GasUsed r <= 50000 /\ view (w_db w') ≈ view (w_db Chain.world).
Proof.
  exact (static_call_read_only Chain.executor (frame_fuel 50000) (Demo.addr 1) (Demo.addr 8) [] 50000 Chain.block 0
    Chain.world Chain.executor_ok_chain (Chain.call_ok_chain 50000 eq_refl) Chain.db_ok_chain Chain.counts_ok_chain).
Defined.

(** The creation succeeds, and its code is the byte the init code returned. *)
Lemma created_code_checked_witness :
  exists r a w', Create Chain.executor (frame_fuel 50000) (Demo.addr 1) Chain.initCode 50000 (Some 10) Chain.block 0
      Chain.world = (Ok (r, a), w') /\ ResErr r = None /\ ReturnData r = [x00] /\
    runtime_of (ReturnData r) (GetCode a (w_db w')).
Proof.
  destruct (created_code_checked Chain.executor (frame_fuel 50000) None (Demo.addr 1) Chain.initCode 50000 (Some 10)
    Chain.block 0 Chain.world Chain.executor_ok_chain (Chain.call_ok_chain 50000 eq_refl) Chain.db_ok_chain
    Chain.counts_ok_chain) as (r & a & w' & E & H).
  assert (K : match (Create Chain.executor (frame_fuel 50000) (Demo.addr 1) Chain.initCode 50000 (Some 10) Chain.block 0
      Chain.world).1 with Ok (r, _) => (ResErr r, ReturnData r) | _ => (Some ErrOutOfGas, []) end = (None, [x00]))
    by (vm_compute; reflexivity).
  rewrite E in K. injection K as K1 K2. exists r, a, w'. split; [exact E|]. split; [exact K1|]. split; [exact K2|].
  exact (proj1 (H K1)).
Defined.

(** The estimate for the storing code: the store is what costs. *)
Lemma estimate_is_least_witness :
  let ctx := blockCtx Chain.block (Demo.addr 1) (Demo.addr 8) None Chain.storing [] None 60000 0 false false in
  exists g err w', EstimateGasWithRange Chain.executor (frame_fuel 60000) 64 ctx false 0 60000 Chain.world =
      (Ok (g, err), w') /\ view (w_db w') ≈ view (w_db Chain.world) /\ err = None /\ g <= 60000.
Proof.
  set (ctx := blockCtx Chain.block (Demo.addr 1) (Demo.addr 8) None Chain.storing [] None 60000 0 false false). cbv zeta.
  assert (Hs : forall d : Demo.DB, 0 <= (Snapshot d).1) by (intros d; apply len_nonneg).
  assert (Hp : probe_ok (frame_fuel 60000) ctx 60000) by (repeat split; apply le_n || reflexivity || done).
  destruct (estimate_is_least Chain.executor (frame_fuel 60000) ctx 60000 0 60000 false Chain.world
    Chain.executor_ok_chain Hs Hp ltac:(lia) ltac:(lia) ltac:(simpl; lia) ltac:(vm_compute; split; discriminate)
    Chain.db_ok_chain Chain.counts_ok_chain) as (g & err & w' & E & HV & HF).
  assert (K : match (EstimateGasWithRange Chain.executor (frame_fuel 60000) 64 ctx false 0 60000 Chain.world).1 with
    Ok (_, err) => err | _ => Some ErrOutOfGas end = None) by (vm_compute; reflexivity).
  rewrite E in K. simpl in K. exists g, err, w'. split; [exact E|]. split; [exact HV|]. split; [exact K|].
  exact (proj1 (HF K)).
Defined.
