(* ===== verification/SparseMerkle.v ===== *)
(** * The sparse Merkle tree of the rollup (rollup/sparse_merkle.go)

    The tree has a leaf for each of the 2^160 addresses and stores the nodes above
    the leaves that were set; every other subtree has a hash that depends on its
    height only. A Go map is ranged over in any order, so [BatchInsert] takes the
    entries in the order of the iteration. SHA-256 is a parameter. *)

From Stdlib Require Import ZArith Lia.
From Stdlib.Strings Require Import Byte.
From stdpp Require Import base list countable gmap sorting strings numbers.
From S2P Require Import Prelude Stack StateDB Rollup.

Module SparseMerkle.

Definition SparseMerkleTreeDepth : nat := 160.

(** *** Paths *)

Definition byteAt (p : Address) (i : Z) : Z := b2z (nth_byte (bytes_of p) i).

Lemma length_setByte (p : Address) i b : length (<[Z.to_nat i := b]> (bytes_of p)) = 20%nat.
Proof. rewrite length_insert. apply length_bytes_of. Qed.

(** [p[i] = v] *)
Definition setByte (p : Address) (i v : Z) : Address := mk_array _ (length_setByte p i (z2b v)).

Definition byteIndex (bitIndex : Z) : Z := bitIndex / 8.
Definition bitInByte (bitIndex : Z) : Z := 7 - bitIndex mod 8.

(** [(p[byteIndex] >> bitInByte) & 1] *)
Definition bitAt (p : Address) (bitIndex : Z) : Z :=
  Z.land (Z.shiftr (byteAt p (byteIndex bitIndex)) (bitInByte bitIndex)) 1.

(** [p[byteIndex] ^= 1 << bitInByte] *)
Definition flipBit (p : Address) (bitIndex : Z) : Address :=
  setByte p (byteIndex bitIndex) (Z.lxor (byteAt p (byteIndex bitIndex)) (Z.shiftl 1 (bitInByte bitIndex))).

(** [p[byteIndex] &^= 1 << bitInByte] *)
Definition clearBit (p : Address) (bitIndex : Z) : Address :=
  setByte p (byteIndex bitIndex) (Z.ldiff (byteAt p (byteIndex bitIndex)) (Z.shiftl 1 (bitInByte bitIndex))).

(** *** The tree *)

Record smtNodeKey : Type := mkKey { k_depth : nat; k_path : Address }.

#[export] Instance smtNodeKey_eq_dec : EqDecision smtNodeKey.
Proof. solve_decision. Defined.

#[export] Instance smtNodeKey_countable : Countable smtNodeKey.
Proof. by refine (inj_countable' (fun k => (k_depth k, k_path k)) (fun p => mkKey p.1 p.2) _); intros []. Defined.

Record SparseMerkleTree : Type := mkSMT {
  nodes : gmap smtNodeKey Hash;
  root : Hash
}.

Record MerkleProof : Type := mkProof {
  LeafHash : Hash;
  Siblings : list Hash
}.

(** [compareHash] *)
Fixpoint compareBytes (a b : list byte) : Z :=
  match a, b with
  | x :: a, y :: b =>
      if b2z x <? b2z y then -1 else if b2z y <? b2z x then 1 else compareBytes a b
  | _, _ => 0
  end.
Definition compareHash (a b : Hash) : Z := compareBytes (bytes_of a) (bytes_of b).

Definition hash_le (a b : Hash) : Prop := compareHash a b <= 0.

#[export] Instance hash_le_dec a b : Decision (hash_le a b).
Proof. apply Z_le_dec. Defined.

Section tree.
Context (sha256 : list byte -> Hash).

(** The hash of a node with two children. *)
Definition hashPair (left right : Hash) : Hash := sha256 (bytes_of left ++ bytes_of right).

(** [smtZeroHashes[i]] *)
Fixpoint smtZeroHashes (i : nat) : Hash :=
  match i with
  | O => sha256 []
  | S i => let h := smtZeroHashes i in hashPair h h
  end.

Definition NewSparseMerkleTree : SparseMerkleTree := mkSMT ∅ (smtZeroHashes SparseMerkleTreeDepth).

(** The hash of the node at [path] on level [depth], if it is not stored the one
    of an empty subtree. *)
Definition nodeHash (ns : gmap smtNodeKey Hash) (depth : nat) (path : Address) : Hash :=
  default (smtZeroHashes (SparseMerkleTreeDepth - depth)) (ns !! mkKey depth path).

(** One level up: [isRight] tells whether the current node is the right child. *)
Definition parentHash (isRight : Z) (current sibling : Hash) : Hash :=
  if isRight =? 1 then hashPair sibling current else hashPair current sibling.

(** The walk from level [currentDepth] to the root. *)
Fixpoint insertLoop (currentDepth : nat) (currentHash : Hash) (currentPath : Address)
    (ns : gmap smtNodeKey Hash) : gmap smtNodeKey Hash * Hash :=
  match currentDepth with
  | O => (ns, currentHash)
  | S depth =>
      let bitIndex := Z.of_nat depth in
      let isRight := bitAt currentPath bitIndex in
      let siblingPath := flipBit currentPath bitIndex in
      let siblingHash := nodeHash ns (S depth) siblingPath in
      let currentHash := parentHash isRight currentHash siblingHash in
      let currentPath := clearBit currentPath bitIndex in
      insertLoop depth currentHash currentPath (<[mkKey depth currentPath := currentHash]> ns)
  end.

Definition insertLocked (addr : Address) (leafHash : Hash) (smt : SparseMerkleTree) : SparseMerkleTree :=
  let ns := <[mkKey SparseMerkleTreeDepth addr := leafHash]> (nodes smt) in
  let '(ns, h) := insertLoop SparseMerkleTreeDepth leafHash addr ns in
  mkSMT ns h.

Definition Insert (addr : Address) (leafHash : Hash) (smt : SparseMerkleTree) : SparseMerkleTree :=
  insertLocked addr leafHash smt.

Definition BatchInsert (entries : list (Address * Hash)) (smt : SparseMerkleTree) : SparseMerkleTree :=
  foldl (fun t '(addr, leafHash) => insertLocked addr leafHash t) smt entries.

Definition Get (addr : Address) (smt : SparseMerkleTree) : option Hash :=
  nodes smt !! mkKey SparseMerkleTreeDepth addr.

Fixpoint proveLoop (depth : nat) (currentPath : Address) (ns : gmap smtNodeKey Hash) : list Hash :=
  match depth with
  | O => []
  | S d =>
      let bitIndex := Z.of_nat d in
      nodeHash ns (S d) (flipBit currentPath bitIndex) :: proveLoop d (clearBit currentPath bitIndex) ns
  end.

Definition Prove (addr : Address) (smt : SparseMerkleTree) : MerkleProof :=
  mkProof (default (smtZeroHashes 0) (nodes smt !! mkKey SparseMerkleTreeDepth addr))
    (proveLoop SparseMerkleTreeDepth addr (nodes smt)).

Fixpoint verifyLoop (addr : Address) (depth : nat) (siblings : list Hash) (currentHash : Hash) : Hash :=
  match depth, siblings with
  | S d, sibling :: siblings =>
      verifyLoop addr d siblings (parentHash (bitAt addr (Z.of_nat d)) currentHash sibling)
  | _, _ => currentHash
  end.

Definition VerifyMerkleProof (addr : Address) (proof : option MerkleProof) (expectedRoot : Hash) : bool :=
  match proof with
  | None => false
  | Some proof =>
      if negb (len (Siblings proof) =? Z.of_nat SparseMerkleTreeDepth) then false else
      bool_decide (verifyLoop addr SparseMerkleTreeDepth (Siblings proof) (LeafHash proof) = expectedRoot)
  end.

Definition VerifyMerkleProofForAccount (addr : Address) (proof : option MerkleProof) (expectedRoot : Hash) :
    option error :=
  if VerifyMerkleProof addr proof expectedRoot then None
  else Some (ErrErrorf "merkle proof verification failed for account").

(** *** Leaves *)

(** [sort.Slice] with [compareHash]; the keys of a map are distinct. *)
Definition sortedKeys (storage : gmap Hash Hash) : list Hash :=
  merge_sort hash_le (map_to_list storage).*1.

Definition computeStorageRoot (storage : gmap Hash Hash) : Hash :=
  if bool_decide (storage = ∅) then smtZeroHashes 0 else
  sha256 (flat_map (fun k => bytes_of k ++ bytes_of (default (zero_array 32) (storage !! k))) (sortedKeys storage)).

Definition computeAccountLeafHashWithStorageRoot (addr : Address) (acc : option RollupAccount) (storageRoot : Hash) :
    Hash :=
  match acc with
  | None => smtZeroHashes 0
  | Some acc =>
      let balanceBytes := big_bytes (ra_Balance acc) in
      sha256 (bytes_of addr ++ be_bytes 8 (ra_Nonce acc) ++ be_bytes 4 (len balanceBytes) ++ balanceBytes ++
              bytes_of (ra_CodeHash acc) ++ bytes_of storageRoot)
  end.

Definition ComputeAccountLeafHash (addr : Address) (acc : option RollupAccount) : Hash :=
  match acc with
  | None => smtZeroHashes 0
  | Some a => computeAccountLeafHashWithStorageRoot addr acc (computeStorageRoot (ra_Storage a))
  end.

(** The slice expression panics when the amount has more than 32 bytes. *)
Definition ComputeWithdrawalLeafHash (withdrawer : Address) (amount : option Z) (txIndex : Z) : res Hash :=
  let amountBytes := match amount with Some amount => big_bytes amount | None => [] end in
  if 32 <? len amountBytes then Panic else
  Ok (sha256 (bytes_of withdrawer ++ copy_at (zeros 32) (32 - len amountBytes) amountBytes ++ be_bytes 4 txIndex)).

Lemma length_take20 (h : Hash) : length (take 20 (bytes_of h)) = 20%nat.
Proof. rewrite length_take, length_bytes_of. lia. Qed.

Definition ComputeWithdrawalTreeKey (withdrawer : Address) (txIndex : Z) : Address :=
  mk_array _ (length_take20 (sha256 (bytes_of withdrawer ++ be_bytes 4 txIndex))).

(** *** The state root (rollup/state_manager.go) *)

(** The tree that [computeStateRoot] builds of the accounts. *)
Definition stateTree (states : gmap Address RollupAccount) : SparseMerkleTree :=
  BatchInsert (map_to_list (map_imap (fun addr acc => Some (ComputeAccountLeafHash addr (Some acc))) states))
    NewSparseMerkleTree.

Definition computeStateRoot (states : gmap Address RollupAccount) : Hash := root (stateTree states).
End tree.
End SparseMerkle.
