(* ===== verification/MerkleSpec.v ===== *)
(** * What the sparse Merkle tree guarantees

    The tree computes the Merkle root of its leaves, whatever the order they were
    set in; its proofs verify; and a proof that verifies against its root is about
    a leaf it has, unless two of the strings that are hashed on the way collide.
    These strings are named: a function into 32 bytes has collisions somewhere, and
    an alternative that does not say where would say nothing. *)

From Stdlib Require Import ZArith Lia.
From Stdlib.Strings Require Import Byte.
From stdpp Require Import base list countable gmap sorting strings numbers.
From S2P Require Import Prelude Stack StateDB Rollup SparseMerkle.

Module MerkleSpec.
Import SparseMerkle.

(** ** Paths as bit strings *)

Definition byte_bits (b : byte) : list bool := map (Z.testbit (b2z b)) [7; 6; 5; 4; 3; 2; 1; 0].

Definition bits (a : Address) : list bool := flat_map byte_bits (bytes_of a).

Lemma length_flat_bits l : length (flat_map byte_bits l) = (8 * length l)%nat.
Proof. induction l as [|b l IH]; [done|]. cbn [flat_map]. rewrite length_app, IH. simpl. lia. Qed.

Lemma length_bits a : length (bits a) = 160%nat.
Proof. unfold bits. rewrite length_flat_bits, length_bytes_of. done. Qed.

Lemma byte_bits_value b : foldl (fun z c => 2 * z + Z.b2z c) 0 (byte_bits b) = b2z b.
Proof. by destruct b. Qed.

Lemma byte_bits_inj a b : byte_bits a = byte_bits b -> a = b.
Proof. intros H. apply b2z_inj. by rewrite <- !byte_bits_value, H. Qed.

Lemma flat_bits_inj l : forall k, flat_map byte_bits l = flat_map byte_bits k -> l = k.
Proof.
  induction l as [|a l IH]; intros [|b k]; try done. cbn [flat_map]. intros H.
  apply app_inj_1 in H as [H1 H2]; [|done]. f_equal; [by apply byte_bits_inj|by apply IH].
Qed.

Lemma bits_inj a b : bits a = bits b -> a = b.
Proof. intros H. by apply array_eq, flat_bits_inj. Qed.

(** The operations of the source on a byte, on its bits. *)
Lemma byte_flip b r : (r < 8)%nat ->
  byte_bits (z2b (Z.lxor (b2z b) (Z.shiftl 1 (7 - Z.of_nat r)))) = alter negb r (byte_bits b).
Proof. intros H. do 8 (destruct r as [|r]; [by destruct b|]). lia. Qed.

Lemma byte_clear b r : (r < 8)%nat ->
  byte_bits (z2b (Z.ldiff (b2z b) (Z.shiftl 1 (7 - Z.of_nat r)))) = alter (fun _ => false) r (byte_bits b).
Proof. intros H. do 8 (destruct r as [|r]; [by destruct b|]). lia. Qed.

Lemma byte_test b r : (r < 8)%nat ->
  byte_bits b !! r = Some (Z.land (Z.shiftr (b2z b) (7 - Z.of_nat r)) 1 =? 1).
Proof. intros H. do 8 (destruct r as [|r]; [by destruct b|]). lia. Qed.

Lemma flat_alter f l : forall q r b b',
  l !! q = Some b -> (r < 8)%nat -> byte_bits b' = alter f r (byte_bits b) ->
  flat_map byte_bits (<[q := b']> l) = alter f (8 * q + r)%nat (flat_map byte_bits l).
Proof.
  induction l as [|a l IH]; intros [|q] r b b' Hq Hr Hb; try done; cbn [flat_map].
  - injection Hq as ->. change (<[0%nat := b']> (b :: l)) with (b' :: l). cbn [flat_map]. rewrite Hb. symmetry.
    rewrite Nat.mul_0_r, Nat.add_0_l. apply alter_app_l. done.
  - change (<[S q := b']> (a :: l)) with (a :: <[q := b']> l). cbn [flat_map].
    rewrite (IH q r b b') by done. replace (8 * S q + r)%nat with (length (byte_bits a) + (8 * q + r))%nat by (simpl; lia).
    by rewrite alter_app_r.
Qed.

Lemma flat_lookup l : forall q r b,
  l !! q = Some b -> (r < 8)%nat -> flat_map byte_bits l !! (8 * q + r)%nat = byte_bits b !! r.
Proof.
  induction l as [|a l IH]; intros [|q] r b Hq Hr; try done; cbn [flat_map].
  - injection Hq as ->. by rewrite Nat.mul_0_r, Nat.add_0_l, lookup_app_l.
  - replace (8 * S q + r)%nat with (length (byte_bits a) + (8 * q + r))%nat by (simpl; lia).
    rewrite lookup_app_r by lia. rewrite Nat.add_comm, Nat.add_sub. by apply IH.
Qed.

(** The byte and the bit in it that hold bit [i]. *)
Lemma bit_split a i : (i < 160)%nat -> exists q r b, i = (8 * q + r)%nat /\ (r < 8)%nat /\ bytes_of a !! q = Some b /\
  byteIndex (Z.of_nat i) = Z.of_nat q /\ bitInByte (Z.of_nat i) = 7 - Z.of_nat r /\ byteAt a (Z.of_nat q) = b2z b.
Proof.
  intros Hi. exists (i / 8)%nat, (i mod 8)%nat, (nth (i / 8) (bytes_of a) x00).
  pose proof (Nat.div_mod_eq i 8). pose proof (Nat.mod_upper_bound i 8 ltac:(lia)).
  assert (Hq : (i / 8 < length (bytes_of a))%nat) by (rewrite length_bytes_of; lia).
  split; [done|]. split; [done|]. split; [destruct (nth_lookup_or_length (bytes_of a) (i / 8) x00); [done|lia]|].
  unfold byteIndex, bitInByte, byteAt, nth_byte. rewrite Nat2Z.id, Nat2Z.inj_div, Nat2Z.inj_mod. done.
Qed.

(** [bitAt] with its answer as a boolean. *)
Definition isRight (a : Address) (i : nat) : bool := bitAt a (Z.of_nat i) =? 1.

Lemma bits_test a i : (i < 160)%nat -> bits a !! i = Some (isRight a i).
Proof.
  intros Hi. destruct (bit_split a i Hi) as (q & r & b & E & Hr & Hq & E1 & E2 & E3).
  unfold isRight, bitAt, bits. rewrite E1, E2, E3. rewrite E at 1. rewrite (flat_lookup _ q r b Hq Hr). by apply byte_test.
Qed.

Lemma bits_flip a i : (i < 160)%nat -> bits (flipBit a (Z.of_nat i)) = alter negb i (bits a).
Proof.
  intros Hi. destruct (bit_split a i Hi) as (q & r & b & E & Hr & Hq & E1 & E2 & E3).
  unfold flipBit, setByte, bits. rewrite E1, E2, E3. simpl. rewrite Nat2Z.id. rewrite E.
  apply (flat_alter negb _ q r b); [done|done|]. by apply byte_flip.
Qed.

Lemma bits_clear a i : (i < 160)%nat -> bits (clearBit a (Z.of_nat i)) = alter (fun _ => false) i (bits a).
Proof.
  intros Hi. destruct (bit_split a i Hi) as (q & r & b & E & Hr & Hq & E1 & E2 & E3).
  unfold clearBit, setByte, bits. rewrite E1, E2, E3. simpl. rewrite Nat2Z.id. rewrite E.
  apply (flat_alter (fun _ => false) _ q r b); [done|done|]. by apply byte_clear.
Qed.

(** ** Positions in the tree *)

(** The path of a node on level [d]: what follows the first [d] bits is zero. *)
Definition canon (d : nat) (a : Address) : Prop := drop d (bits a) = replicate (160 - d) false.

Definition prefix (d : nat) (a : Address) : list bool := take d (bits a).

Lemma canon_leaf a : canon 160 a.
Proof. unfold canon. rewrite drop_ge; [done|]. by rewrite length_bits. Qed.

Lemma canon_eq d a b : canon d a -> canon d b -> prefix d a = prefix d b -> a = b.
Proof.
  unfold canon, prefix. intros Ha Hb H. apply bits_inj. by rewrite <- (take_drop d (bits a)), <- (take_drop d (bits b)), Ha, Hb, H.
Qed.

Lemma prefix_leaf a : prefix 160 a = bits a.
Proof. unfold prefix. apply take_ge. by rewrite length_bits. Qed.

Lemma prefix_S d a : (d < 160)%nat -> prefix (S d) a = prefix d a ++ [isRight a d].
Proof. intros Hd. unfold prefix. apply take_S_r. by apply bits_test. Qed.

Lemma drop_S_bits d a : (d < 160)%nat -> drop d (bits a) = isRight a d :: drop (S d) (bits a).
Proof. intros Hd. apply drop_S. by apply bits_test. Qed.

Lemma isRight_alter f d a b : (d < 160)%nat -> bits b = alter f d (bits a) -> isRight b d = f (isRight a d).
Proof.
  intros Hd H. pose proof (bits_test b d Hd) as E. rewrite H, list_lookup_alter_eq, (bits_test a d Hd) in E. simpl in E. congruence.
Qed.

Lemma prefix_alter f d a b : bits b = alter f d (bits a) -> prefix d b = prefix d a.
Proof. intros H. unfold prefix. rewrite H. by apply take_alter_ge. Qed.

Lemma canon_alter f d a b : (d < 160)%nat -> bits b = alter f d (bits a) -> canon (S d) a -> canon (S d) b.
Proof. intros Hd H. unfold canon. rewrite H. rewrite drop_alter_lt by lia. done. Qed.

Lemma flip_pos d a : (d < 160)%nat -> canon (S d) a ->
  canon (S d) (flipBit a (Z.of_nat d)) /\ prefix (S d) (flipBit a (Z.of_nat d)) = prefix d a ++ [negb (isRight a d)].
Proof.
  intros Hd HC. pose proof (bits_flip a d Hd) as HB. split; [by eapply canon_alter|].
  by rewrite prefix_S, (prefix_alter negb d a), (isRight_alter negb d a).
Qed.

Lemma clear_pos d a : (d < 160)%nat -> canon (S d) a ->
  canon d (clearBit a (Z.of_nat d)) /\ prefix d (clearBit a (Z.of_nat d)) = prefix d a.
Proof.
  intros Hd HC. pose proof (bits_clear a d Hd) as HB. split; [|by apply (prefix_alter (fun _ => false) d a)].
  pose proof (canon_alter _ d a _ Hd HB HC) as HC'. unfold canon in *. rewrite drop_S_bits, HC', (isRight_alter _ d a _ Hd HB) by done.
  by replace (160 - d)%nat with (S (160 - S d)) by lia.
Qed.

(** ** The Merkle tree of a set of leaves *)

Section spec.
Context (sha256 : list byte -> Hash).

(** Two of the strings in [P] have the same hash. *)
Definition collision (P : list byte -> Prop) : Prop := exists x y, P x /\ P y /\ x <> y /\ sha256 x = sha256 y.

Lemma collision_mono (P Q : list byte -> Prop) : (forall x, P x -> Q x) -> collision P -> collision Q.
Proof. intros H (x & y & Hx & Hy & HE). exists x, y. auto. Qed.

(** The root of the full binary tree of height [h] whose leaves are given by [f];
    a leaf that is not set has the hash of the empty string. *)
Fixpoint merkle (h : nat) (f : list bool -> option Hash) : Hash :=
  match h with
  | O => default (sha256 []) (f [])
  | S h => hashPair sha256 (merkle h (fun p => f (false :: p))) (merkle h (fun p => f (true :: p)))
  end.

Lemma merkle_ext h : forall f g, (forall p, f p = g p) -> merkle h f = merkle h g.
Proof. induction h as [|h IH]; intros f g H; simpl; [by rewrite H|]. f_equal; apply IH; auto. Qed.

Lemma merkle_empty h f : (forall p, f p = None) -> merkle h f = smtZeroHashes sha256 h.
Proof. revert f. induction h as [|h IH]; intros f H; simpl; [by rewrite H|]. by rewrite !IH by auto. Qed.

(** The subtree at [p] of the tree of the leaves [L]. *)
Definition leaf (L : gmap Address Hash) (p : list bool) : option Hash := (kmap bits L : gmap (list bool) Hash) !! p.

#[local] Instance bits_Inj : Inj (=) (=) bits.
Proof. exact bits_inj. Qed.

Lemma leaf_bits L a : leaf L (bits a) = L !! a.
Proof. apply lookup_kmap, _. Qed.

Lemma leaf_insert L a h p : leaf (<[a := h]> L) p = if decide (p = bits a) then Some h else leaf L p.
Proof.
  unfold leaf. rewrite kmap_insert by apply _. case_decide as E; [subst; by rewrite lookup_insert_eq|].
  by rewrite lookup_insert_ne.
Qed.

Lemma leaf_empty p : leaf ∅ p = None.
Proof. unfold leaf. by rewrite kmap_empty, lookup_empty. Qed.

Definition subtree (L : gmap Address Hash) (d : nat) (p : list bool) : Hash := merkle (160 - d) (fun s => leaf L (p ++ s)).

#[local] Arguments subtree : simpl never.

Definition merkleRoot (L : gmap Address Hash) : Hash := subtree L 0 [].

Lemma subtree_node L d p : (d < 160)%nat ->
  subtree L d p = hashPair sha256 (subtree L (S d) (p ++ [false])) (subtree L (S d) (p ++ [true])).
Proof.
  intros Hd. unfold subtree. replace (160 - d)%nat with (S (160 - S d)) by lia. simpl.
  f_equal; apply merkle_ext; intros q; by rewrite <- app_assoc.
Qed.

(** Off the path of [a], setting its leaf changes nothing. *)
Lemma subtree_insert L a h d p : length p = d -> p <> prefix d a -> subtree (<[a := h]> L) d p = subtree L d p.
Proof.
  intros Hl Hp. apply merkle_ext. intros s. rewrite leaf_insert. case_decide as E; [|done]. contradict Hp.
  unfold prefix. rewrite <- E, <- Hl. by rewrite take_app_length.
Qed.

(** ** The invariant *)

Definition node_ok (ns : gmap smtNodeKey Hash) (L : gmap Address Hash) (d : nat) (a : Address) : Prop :=
  nodeHash sha256 ns d a = subtree L d (prefix d a).

Record smt_ok (t : SparseMerkleTree) (L : gmap Address Hash) : Prop := mkSmtOk {
  ok_nodes : forall d a, (d <= 160)%nat -> canon d a -> node_ok (nodes t) L d a;
  ok_leaves : forall a, nodes t !! mkKey 160 a = L !! a;
  ok_root : root t = merkleRoot L
}.

Lemma length_prefix d a : (d <= 160)%nat -> length (prefix d a) = d.
Proof. intros H. unfold prefix. rewrite length_take, length_bits. lia. Qed.

Lemma new_ok : smt_ok (NewSparseMerkleTree sha256) ∅.
Proof.
  split.
  - intros d a Hd HC. unfold node_ok, nodeHash. simpl. rewrite lookup_empty. simpl. symmetry. apply merkle_empty.
    intros p. apply leaf_empty.
  - intros a. by rewrite !lookup_empty.
  - symmetry. apply (merkle_empty 160). intros p. apply leaf_empty.
Qed.

(** The two children of the node above [a] on level [S d]. *)
Lemma parent_ok L d a : (d < 160)%nat ->
  parentHash sha256 (bitAt a (Z.of_nat d)) (subtree L (S d) (prefix (S d) a))
    (subtree L (S d) (prefix d a ++ [negb (isRight a d)])) = subtree L d (prefix d a).
Proof.
  intros Hd. rewrite (subtree_node L d) by done. rewrite prefix_S by done. unfold parentHash, isRight.
  by destruct (bitAt a (Z.of_nat d) =? 1).
Qed.

(** Before the walk reaches level [d], the nodes below it and off the path are right. *)
Lemma insertLoop_ok L addr d : forall cur path ns,
  (d <= 160)%nat -> canon d path -> prefix d path = prefix d addr -> cur = subtree L d (prefix d addr) ->
  (forall d' a, (d' <= 160)%nat -> canon d' a -> (d <= d')%nat \/ prefix d' a <> prefix d' addr -> node_ok ns L d' a) ->
  (forall a, ns !! mkKey 160 a = L !! a) ->
  smt_ok (let '(ns, h) := insertLoop sha256 d cur path ns in mkSMT ns h) L.
Proof.
  induction d as [|d IH]; intros cur path ns Hd HC HP Hcur HN HL; cbn [insertLoop].
  { split; [|done|done]. intros d a Hda HCa. apply HN; [done|done|left; lia]. }
  pose proof HP as HPS. rewrite !prefix_S in HPS by lia. apply app_inj_2 in HPS as [HP' HB]; [|done].
  destruct (flip_pos d path ltac:(lia) HC) as [HCf HPf]. destruct (clear_pos d path ltac:(lia) HC) as [HCc HPc].
  assert (Hpar : parentHash sha256 (bitAt path (Z.of_nat d)) cur
    (nodeHash sha256 ns (S d) (flipBit path (Z.of_nat d))) = subtree L d (prefix d addr)).
  { rewrite (HN (S d) (flipBit path (Z.of_nat d))) by (done || lia || (left; lia)). rewrite HPf, Hcur, <- HP.
    rewrite <- HP'. apply parent_ok. lia. }
  rewrite Hpar. set (path' := clearBit path (Z.of_nat d)) in *. apply IH; [lia|done|by rewrite HPc|done| |].
  - intros d' a Hd' HCa Hor. unfold node_ok, nodeHash. destruct (decide (mkKey d path' = mkKey d' a)) as [E|E].
    + injection E as <- <-. rewrite lookup_insert_eq. simpl. by rewrite HPc, HP'.
    + rewrite lookup_insert_ne by done. apply HN; [done|done|]. destruct Hor as [Hor|Hor]; [|by right].
      destruct (decide (d = d')) as [<-|]; [|left; lia]. right. intros Hp. apply E. f_equal.
      apply (canon_eq d); [done|done|]. by rewrite HPc, HP', Hp.
  - intros a. rewrite lookup_insert_ne; [done|]. intros [=]. lia.
Qed.

Lemma insertLocked_ok t L addr h : smt_ok t L -> smt_ok (insertLocked sha256 addr h t) (<[addr := h]> L).
Proof.
  intros [HN HL _]. unfold insertLocked. apply (insertLoop_ok _ addr 160); [done|apply canon_leaf|done| | |].
  - unfold subtree. rewrite prefix_leaf. simpl. rewrite app_nil_r, leaf_insert, decide_True; done.
  - intros d a Hd HC Hor. unfold node_ok, nodeHash. destruct (decide (mkKey 160 addr = mkKey d a)) as [E|E].
    + injection E as <- <-. rewrite lookup_insert_eq. unfold subtree. rewrite prefix_leaf. simpl.
      rewrite app_nil_r, leaf_insert, decide_True; done.
    + rewrite lookup_insert_ne by done. rewrite subtree_insert; [by apply HN|by apply length_prefix|].
      destruct Hor as [Hor|Hor]; [|done]. assert (d = 160%nat) as -> by lia. rewrite !prefix_leaf. intros Hb%bits_inj. by subst.
  - intros a. destruct (decide (addr = a)) as [->|Hn]; [by rewrite !lookup_insert_eq|].
    rewrite !lookup_insert_ne by congruence. apply HL.
Qed.

(** The leaves after [entries] were set in this order. *)
Definition setLeaves (entries : list (Address * Hash)) (L : gmap Address Hash) : gmap Address Hash :=
  foldl (fun L '(a, h) => <[a := h]> L) L entries.

Lemma BatchInsert_ok entries : forall t L,
  smt_ok t L -> smt_ok (BatchInsert sha256 entries t) (setLeaves entries L).
Proof.
  induction entries as [|[a h] entries IH]; intros t L H; unfold BatchInsert, setLeaves in *; cbn [foldl]; [exact H|].
  apply IH, insertLocked_ok, H.
Qed.

(** The entries of a Go map, in any order. *)
Lemma setLeaves_lookup entries : forall L a, NoDup entries.*1 ->
  setLeaves entries L !! a = match (list_to_map entries : gmap Address Hash) !! a with Some h => Some h | None => L !! a end.
Proof.
  induction entries as [|[b h] entries IH]; intros L a ND; simpl in *; [by rewrite lookup_empty|].
  apply list.NoDup_cons in ND as [Hb ND]. rewrite (IH _ _ ND). destruct (decide (b = a)) as [->|].
  - rewrite !lookup_insert_eq. by rewrite (not_elem_of_list_to_map_1 _ _ Hb).
  - by rewrite !lookup_insert_ne.
Qed.

Lemma setLeaves_map (m : gmap Address Hash) entries L : entries ≡ₚ map_to_list m -> setLeaves entries L = m ∪ L.
Proof.
  intros HP. apply map_eq. intros a. assert (ND : NoDup entries.*1) by (rewrite HP; apply NoDup_fst_map_to_list).
  rewrite setLeaves_lookup by done. rewrite (list_to_map_proper entries (map_to_list m)) by done.
  rewrite list_to_map_to_list, lookup_union. by destruct (m !! a), (L !! a).
Qed.

(** ** Proofs *)

Lemma length_proveLoop d : forall path ns, length (proveLoop sha256 d path ns) = d.
Proof. induction d as [|d IH]; intros path ns; simpl; [done|]. by rewrite IH. Qed.

Lemma verify_prove_loop t L addr d : smt_ok t L -> forall path,
  (d <= 160)%nat -> canon d path -> prefix d path = prefix d addr ->
  verifyLoop sha256 addr d (proveLoop sha256 d path (nodes t)) (subtree L d (prefix d addr)) = root t.
Proof.
  intros HT. induction d as [|d IH]; intros path Hd HC HP; cbn [verifyLoop proveLoop].
  { rewrite (ok_root t L HT). unfold merkleRoot. change (prefix 0 addr) with (@nil bool). reflexivity. }
  pose proof HP as HPS. rewrite !prefix_S in HPS by lia. apply app_inj_2 in HPS as [HP' HB]; [|done]. injection HB as HB.
  destruct (flip_pos d path ltac:(lia) HC) as [HCf HPf]. destruct (clear_pos d path ltac:(lia) HC) as [HCc HPc].
  rewrite (ok_nodes t L HT (S d) (flipBit path (Z.of_nat d))) by (done || lia). rewrite HPf, HP', HB, parent_ok by lia.
  apply IH; [lia|done|by rewrite HPc].
Qed.

Lemma leaf_subtree L a : subtree L 160 (prefix 160 a) = default (sha256 []) (L !! a).
Proof. unfold subtree. rewrite prefix_leaf. change (160 - 160)%nat with 0%nat. cbn [merkle]. by rewrite app_nil_r, leaf_bits. Qed.

Lemma verify_Prove t L addr : smt_ok t L ->
  verifyLoop sha256 addr 160 (Siblings (Prove sha256 addr t)) (LeafHash (Prove sha256 addr t)) = root t.
Proof.
  intros HT. unfold Prove. cbn [Siblings LeafHash]. unfold SparseMerkleTreeDepth. rewrite (ok_leaves t L HT).
  change (smtZeroHashes sha256 0) with (sha256 []). rewrite <- leaf_subtree.
  apply (verify_prove_loop t L addr 160 HT); [done|apply canon_leaf|done].
Qed.

Lemma Verify_Prove t L addr : smt_ok t L -> VerifyMerkleProof sha256 addr (Some (Prove sha256 addr t)) (root t) = true.
Proof.
  intros HT. unfold VerifyMerkleProof. pose proof (length_proveLoop SparseMerkleTreeDepth addr (nodes t)) as Hlen.
  unfold Prove at 1. cbn [Siblings]. unfold len. rewrite Hlen, Z.eqb_refl. cbn [negb]. apply bool_decide_eq_true_2.
  by apply (verify_Prove t L).
Qed.

(** *** Soundness *)

Section inputs.
Context (P : list byte -> Prop).

Lemma hash_inj x y : P x -> P y -> sha256 x = sha256 y -> x = y \/ collision P.
Proof. intros Hx Hy H. destruct (decide (x = y)); [by left|right]. by exists x, y. Qed.

Definition pairBytes (a b : Hash) : list byte := bytes_of a ++ bytes_of b.

Lemma hashPair_inj a b c d : P (pairBytes a b) -> P (pairBytes c d) -> hashPair sha256 a b = hashPair sha256 c d ->
  (a = c /\ b = d) \/ collision P.
Proof.
  intros H1 H2 H. destruct (hash_inj _ _ H1 H2 H) as [HE|]; [left|by right].
  apply app_inj_1 in HE as [HA HB]; [|by rewrite !length_bytes_of]. split; by apply array_eq.
Qed.

(** What [parentHash] hashes. *)
Definition parentBytes (isRight : Z) (current sibling : Hash) : list byte :=
  if isRight =? 1 then pairBytes sibling current else pairBytes current sibling.

Lemma parentHash_inj r a s b u : P (parentBytes r a s) -> P (parentBytes r b u) ->
  parentHash sha256 r a s = parentHash sha256 r b u -> (a = b /\ s = u) \/ collision P.
Proof.
  unfold parentHash, parentBytes. intros H1 H2. destruct (r =? 1); intros H; destruct (hashPair_inj _ _ _ _ H1 H2 H) as [[-> ->]|]; auto.
Qed.
End inputs.

(** What the check of a proof hashes, level by level. *)
Fixpoint verifyInputs (addr : Address) (depth : nat) (siblings : list Hash) (currentHash : Hash) : list (list byte) :=
  match depth, siblings with
  | S d, sibling :: siblings =>
      let r := bitAt addr (Z.of_nat d) in
      parentBytes r currentHash sibling :: verifyInputs addr d siblings (parentHash sha256 r currentHash sibling)
  | _, _ => []
  end.

Definition proofInputs (addr : Address) (p : MerkleProof) : list (list byte) :=
  verifyInputs addr SparseMerkleTreeDepth (Siblings p) (LeafHash p).

Lemma verifyLoop_inj P addr d : forall ss us a b,
  length ss = d -> length us = d -> Forall P (verifyInputs addr d ss a) -> Forall P (verifyInputs addr d us b) ->
  verifyLoop sha256 addr d ss a = verifyLoop sha256 addr d us b -> (a = b /\ ss = us) \/ collision P.
Proof.
  induction d as [|d IH]; intros [|s ss] [|u us] a b; try done; simpl; [auto|]. intros [= Hs] [= Hu] HA HB H.
  apply list.Forall_cons in HA as [HA1 HA], HB as [HB1 HB].
  destruct (IH _ _ _ _ Hs Hu HA HB H) as [[HE ->]|]; [|by right]. apply (parentHash_inj P) in HE as [[-> ->]|]; auto.
Qed.

Lemma Verify_inv addr p r :
  VerifyMerkleProof sha256 addr (Some p) r = true ->
  length (Siblings p) = 160%nat /\ verifyLoop sha256 addr 160 (Siblings p) (LeafHash p) = r.
Proof.
  unfold VerifyMerkleProof. destruct (Z.eqb_spec (len (Siblings p)) (Z.of_nat SparseMerkleTreeDepth)) as [E|E]; cbn [negb];
    [|discriminate].
  intros H%bool_decide_eq_true_1. split; [unfold len, SparseMerkleTreeDepth in E; lia|exact H].
Qed.

(** A proof that verifies is the proof the tree gives. *)
Lemma verified_proof t L addr p :
  smt_ok t L -> VerifyMerkleProof sha256 addr (Some p) (root t) = true ->
  p = Prove sha256 addr t \/ collision (fun x => x ∈ proofInputs addr p \/ x ∈ proofInputs addr (Prove sha256 addr t)).
Proof.
  intros HT [Hl HV]%Verify_inv. pose proof (verify_Prove t L addr HT) as HP.
  assert (Hl' : length (Siblings (Prove sha256 addr t)) = 160%nat) by apply length_proveLoop.
  revert HP Hl'. generalize (Prove sha256 addr t). intros q HP Hl'. rewrite <- HP in HV.
  destruct (verifyLoop_inj (fun x => x ∈ proofInputs addr p \/ x ∈ proofInputs addr q) addr 160 _ _ (LeafHash p) (LeafHash q) Hl Hl') as [[HE HS]|];
    [apply list.Forall_forall; by auto..|done|left|by right].
  destruct p, q. cbn [LeafHash Siblings] in *. by subst.
Qed.

(** ** What a root commits to *)

(** What computing the root of a tree hashes above its leaves. Empty subtrees of
    one height hash the same string. *)
Fixpoint merkleInputs (h : nat) (f : list bool -> option Hash) (x : list byte) : Prop :=
  match h with
  | O => False
  | S h =>
      let left := fun p => f (false :: p) in
      let right := fun p => f (true :: p) in
      x = pairBytes (merkle h left) (merkle h right) \/ merkleInputs h left x \/ merkleInputs h right x
  end.

Lemma merkle_inj P h : forall f g, (forall x, merkleInputs h f x -> P x) -> (forall x, merkleInputs h g x -> P x) ->
  merkle h f = merkle h g ->
  (forall p, length p = h -> default (sha256 []) (f p) = default (sha256 []) (g p)) \/ collision P.
Proof.
  induction h as [|h IH]; intros f g HF HG H; cbn [merkle merkleInputs] in *.
  - left. intros [|]; [done|discriminate].
  - apply (hashPair_inj P) in H as [[H1 H2]|]; [|by right|by auto..]. apply IH in H1 as [H1|]; [|by right|by auto..].
    apply IH in H2 as [H2|]; [|by right|by auto..]. left. intros [|[] p] [= Hp]; auto.
Qed.

(** The account fields a leaf hash covers. *)
Definition committed (acc : RollupAccount) : Z * Z * Hash * gmap Hash Hash :=
  (ra_Nonce acc, ra_Balance acc, ra_CodeHash acc, ra_Storage acc).

Definition account_ok (acc : RollupAccount) : Prop := is_u64 (ra_Nonce acc) /\ 0 <= ra_Balance acc.

Lemma chunks_inj (f g : Hash -> Hash) : forall ks js,
  flat_map (fun k => bytes_of k ++ bytes_of (f k)) ks = flat_map (fun k => bytes_of k ++ bytes_of (g k)) js ->
  ks = js /\ Forall (fun k => f k = g k) ks.
Proof.
  induction ks as [|k ks IH]; intros [|j js] H; cbn [flat_map] in H; [by split| | |].
  - symmetry in H. apply app_eq_nil in H as [[H _]%app_eq_nil _]. pose proof (length_bytes_of j) as HL. by rewrite H in HL.
  - apply app_eq_nil in H as [[H _]%app_eq_nil _]. pose proof (length_bytes_of k) as HL. by rewrite H in HL.
  - rewrite <- !app_assoc in H. apply app_inj_1 in H as [H1 H]; [|by rewrite !length_bytes_of].
    apply app_inj_1 in H as [H2 H]; [|by rewrite !length_bytes_of]. apply array_eq in H1, H2. subst j.
    destruct (IH js H) as [-> HF]. split; [done|]. by constructor.
Qed.

Lemma sortedKeys_elem (m : gmap Hash Hash) k : k ∈ sortedKeys m <-> is_Some (m !! k).
Proof.
  unfold sortedKeys. rewrite (merge_sort_Permutation hash_le), list_elem_of_fmap. split.
  - intros ([k' v] & -> & H%elem_of_map_to_list). by exists v.
  - intros [v H]. exists (k, v). split; [done|]. by apply elem_of_map_to_list.
Qed.

(** What the storage root hashes. *)
Definition storageBytes (m : gmap Hash Hash) : list byte :=
  flat_map (fun k => bytes_of k ++ bytes_of (default (zero_array 32) (m !! k))) (sortedKeys m).

Lemma storageRoot_inj P (m n : gmap Hash Hash) : P (storageBytes m) -> P (storageBytes n) ->
  computeStorageRoot sha256 m = computeStorageRoot sha256 n -> m = n \/ collision P.
Proof.
  assert (HR : forall m : gmap Hash Hash, computeStorageRoot sha256 m = sha256 (storageBytes m)).
  { intros m'. unfold computeStorageRoot. case_bool_decide as E; [|done]. by subst. }
  rewrite !HR. intros HP HP' H. apply (hash_inj P) in H as [H|]; [left|by right|done..]. apply chunks_inj in H as [HK HF]. rewrite Forall_forall in HF.
  apply map_eq. intros k. destruct (m !! k) as [v|] eqn:Em, (n !! k) as [v'|] eqn:En.
  - specialize (HF k). rewrite Em, En in HF. f_equal. apply HF, list_elem_of_In, sortedKeys_elem. by exists v.
  - assert (Hk : k ∈ sortedKeys n) by (rewrite <- HK; apply sortedKeys_elem; by exists v). apply sortedKeys_elem in Hk as [? Hk]. congruence.
  - assert (Hk : k ∈ sortedKeys m) by (rewrite HK; apply sortedKeys_elem; by exists v'). apply sortedKeys_elem in Hk as [? Hk]. congruence.
  - done.
Qed.

Lemma be_bytes_inj n x y : 0 <= x < pow256 n -> 0 <= y < pow256 n -> be_bytes n x = be_bytes n y -> x = y.
Proof. intros Hx Hy H. rewrite <- (Z.mod_small x (pow256 n)), <- (Z.mod_small y (pow256 n)), <- !be_be_bytes by done. by rewrite H. Qed.

(** What the leaf of an account hashes. *)
Definition accountBytes (a : Address) (acc : RollupAccount) : list byte :=
  bytes_of a ++ be_bytes 8 (ra_Nonce acc) ++ be_bytes 4 (len (big_bytes (ra_Balance acc))) ++ big_bytes (ra_Balance acc) ++
  bytes_of (ra_CodeHash acc) ++ bytes_of (computeStorageRoot sha256 (ra_Storage acc)).

Lemma accountLeaf_inj P a b x y :
  account_ok x -> account_ok y -> P (accountBytes a x) -> P (accountBytes b y) ->
  P (storageBytes (ra_Storage x)) -> P (storageBytes (ra_Storage y)) ->
  ComputeAccountLeafHash sha256 a (Some x) = ComputeAccountLeafHash sha256 b (Some y) ->
  (a = b /\ committed x = committed y) \/ collision P.
Proof.
  intros [Hx Bx] [Hy By] P1 P2 P3 P4 H. apply (hash_inj P (accountBytes a x) (accountBytes b y) P1 P2) in H as [H|]; [|by right]. apply app_inj_1 in H as [H1 H]; [|by rewrite !length_bytes_of].
  apply app_inj_1 in H as [H2 H]; [|by rewrite !length_be_bytes]. apply app_inj_1 in H as [_ H]; [|by rewrite !length_be_bytes].
  apply app_inj_2 in H as [H3 H]; [|by rewrite !length_app, !length_bytes_of].
  apply app_inj_1 in H as [H4 H]; [|by rewrite !length_bytes_of]. apply array_eq in H1, H4, H.
  apply (storageRoot_inj P) in H as [H|]; [left|by right|done..]. split; [done|]. apply (be_bytes_inj 8) in H2; [|exact Hx|exact Hy].
  apply (f_equal be) in H3. rewrite !be_big_bytes, !Z.abs_eq in H3 by done. unfold committed. by rewrite H2, H3, H4, H.
Qed.

Lemma accountLeaf_not_empty P a x : P (accountBytes a x) -> P [] -> ComputeAccountLeafHash sha256 a (Some x) = sha256 [] -> collision P.
Proof.
  intros P1 P2 H. apply (hash_inj P (accountBytes a x) [] P1 P2) in H as [H|]; [|done].
  apply app_eq_nil in H as [H _]. pose proof (length_bytes_of a) as HL. by rewrite H in HL.
Qed.

(** The tree of a set of accounts. *)
Definition leavesOf (states : gmap Address RollupAccount) : gmap Address Hash :=
  map_imap (fun addr acc => Some (ComputeAccountLeafHash sha256 addr (Some acc))) states.

Lemma leavesOf_lookup states a : leavesOf states !! a = (fun acc => ComputeAccountLeafHash sha256 a (Some acc)) <$> states !! a.
Proof. unfold leavesOf. rewrite map_lookup_imap. by destruct (states !! a). Qed.

Lemma stateTree_ok states : smt_ok (stateTree sha256 states) (leavesOf states).
Proof.
  pose proof (BatchInsert_ok (map_to_list (leavesOf states)) _ _ new_ok) as H.
  rewrite (setLeaves_map (leavesOf states) _ ∅) in H by done. rewrite map_union_empty in H. exact H.
Qed.

(** What computing the root of a set of accounts hashes. *)
Definition stateInputs (S : gmap Address RollupAccount) (x : list byte) : Prop :=
  x = [] \/ merkleInputs 160 (leaf (leavesOf S)) x \/
  exists a acc, S !! a = Some acc /\ (x = accountBytes a acc \/ x = storageBytes (ra_Storage acc)).

Lemma stateInputs_account S a acc : S !! a = Some acc -> stateInputs S (accountBytes a acc) /\ stateInputs S (storageBytes (ra_Storage acc)).
Proof. intros H. split; right; right; eauto. Qed.

Lemma account_inj P (S1 S2 : gmap Address RollupAccount) a :
  map_Forall (fun _ => account_ok) S1 -> map_Forall (fun _ => account_ok) S2 ->
  (forall x, stateInputs S1 x -> P x) -> (forall x, stateInputs S2 x -> P x) ->
  default (sha256 []) (leavesOf S1 !! a) = default (sha256 []) (leavesOf S2 !! a) ->
  committed <$> S1 !! a = committed <$> S2 !! a \/ collision P.
Proof.
  intros H1 H2 P1 P2. assert (P0 : P []) by (apply P1; by left). rewrite !leavesOf_lookup. destruct (S1 !! a) as [x|] eqn:E1, (S2 !! a) as [y|] eqn:E2; cbn [fmap option_fmap option_map default]; intros H.
  - destruct (stateInputs_account _ _ _ E1), (stateInputs_account _ _ _ E2).
    apply (accountLeaf_inj P) in H as [[_ H]|]; [left; by rewrite H|by right|by apply (H1 a)|by apply (H2 a)|by auto..].
  - right. destruct (stateInputs_account _ _ _ E1). apply (accountLeaf_not_empty P a x); auto.
  - right. destruct (stateInputs_account _ _ _ E2). apply (accountLeaf_not_empty P a y); auto.
  - by left.
Qed.

(** Two finite maps differ at a key of one of them, or agree. *)
Lemma map_agree {A} `{!EqDecision A} (m n : gmap Address A) (P : Prop) :
  (forall a, m !! a = n !! a \/ P) -> m = n \/ P.
Proof.
  intros H. destruct (decide (Exists (fun a => m !! a <> n !! a) (elements (dom m ∪ dom n)))) as [HE|HE].
  - right. apply Exists_exists in HE as (a & _ & Ha). by destruct (H a).
  - left. apply map_eq. intros a. destruct (decide (m !! a = n !! a)) as [|Hn]; [done|]. contradict HE. apply Exists_exists.
    exists a. split; [|done]. apply list_elem_of_In, elem_of_elements, elem_of_union. rewrite !elem_of_dom.
    destruct (m !! a) eqn:E; [left; by eexists|right]. destruct (n !! a); [by eexists|done].
Qed.

Lemma state_root_inj S1 S2 :
  map_Forall (fun _ => account_ok) S1 -> map_Forall (fun _ => account_ok) S2 ->
  computeStateRoot sha256 S1 = computeStateRoot sha256 S2 ->
  committed <$> S1 = committed <$> S2 \/ collision (fun x => stateInputs S1 x \/ stateInputs S2 x).
Proof.
  intros H1 H2. unfold computeStateRoot. rewrite (ok_root _ _ (stateTree_ok S1)), (ok_root _ _ (stateTree_ok S2)).
  unfold merkleRoot, subtree. intros H.
  apply (merkle_inj (fun x => stateInputs S1 x \/ stateInputs S2 x)) in H as [H|];
    [|by right|intros x Hx; left; right; by left|intros x Hx; right; right; by left].
  apply map_agree. intros a. rewrite !lookup_fmap. apply account_inj; [done|done|by auto|by auto|]. specialize (H (bits a) (length_bits a)). by rewrite !app_nil_l, !leaf_bits in H.
Qed.
End spec.
End MerkleSpec.
