(* ===== verification/Bridge.v ===== *)
(** * The bridge between L1 and the rollup (rollup/bridge.go)

    The in-memory L1 bridge holds what was deposited and pays withdrawals that a
    Merkle proof shows to be part of a finalized batch; the L2 bridge mints
    deposits and hands the withdrawals of finalized batches to L1. Deposits are
    objects both sides point to, so they live in a heap. The clock and the answer
    of the L1 height reader are arguments. Calls are sequential: the locks and the
    retry goroutine are left out. *)

From Stdlib Require Import ZArith Lia.
From Stdlib.Strings Require Import Byte.
From stdpp Require Import base list countable gmap strings numbers.
From S2P Require Import Prelude Stack StateDB Rollup SparseMerkle.

Module Bridge.
Import SparseMerkle.

Definition ErrDepositNotFound : error := ErrErrorf "deposit not found".
Definition ErrDepositAlreadyMinted : error := ErrErrorf "deposit already minted on L2".
Definition ErrInsufficientL1Liquidity : error := ErrErrorf "insufficient L1 liquidity in bridge".
Definition ErrWithdrawalAlreadyProcessed : error := ErrErrorf "withdrawal already processed on L1".
Definition ErrInvalidWithdrawalProof : error := ErrErrorf "invalid withdrawal proof".
Definition ErrDepositNotFinalized : error :=
  ErrErrorf "deposit L1 block not yet finalized (insufficient confirmations)".

Record RollupTransaction : Type := mkTx {
  tx_Nonce : Z;
  tx_GasPrice : Z;
  tx_GasLimit : Z;
  tx_To : option Address;
  tx_Value : option Z;
  tx_Data : list byte;
  tx_From : Address;
  tx_Hash : Hash;
  tx_Signature : list byte;
  tx_ChainID : Z;
  tx_PublicKey : list byte
}.

Inductive BatchStatus : Set :=
  | BatchStatusPending | BatchStatusSubmitted | BatchStatusFinalized | BatchStatusChallenged | BatchStatusRejected.

Record Batch : Type := mkBatch {
  bt_Index : Z;
  bt_PrevStateRoot : Hash;
  bt_PostStateRoot : Hash;
  bt_Transactions : list RollupTransaction;
  bt_TxCount : Z;
  bt_TotalGasUsed : Z;
  bt_Timestamp : Z;
  bt_Status : BatchStatus;
  bt_BatchHash : Hash;
  bt_SubmitTxHash : Hash;
  bt_SubmittedAt : Z;
  bt_FinalizedAt : Z;
  bt_ChallengeDeadline : Z;
  bt_SubmitHeight : Z;
  bt_AnchorFailed : bool;
  bt_AnchorRetries : Z;
  bt_WithdrawalRoot : Hash
}.

Record Deposit : Type := mkDeposit {
  d_Hash : Hash;
  d_Depositor : Address;
  d_Amount : Z;
  d_Timestamp : Z;
  d_Minted : bool;
  d_L1Height : Z
}.

Record MerkleWithdrawalProof : Type := mkWithdrawalProof {
  mw_WithdrawalRoot : Hash;
  mw_Proof : option MerkleProof;
  mw_TreeKey : Address
}.

Record Withdrawal : Type := mkWithdrawal {
  w_Hash : Hash;
  w_Withdrawer : Address;
  w_Amount : Z;
  w_BatchIndex : Z;
  w_TxIndex : Z;
  w_BatchHash : Hash;
  w_Processed : bool;
  w_Timestamp : Z;
  w_Proof : option MerkleWithdrawalProof
}.

(** [l1_heap] holds the deposit objects; a pointer is an index. *)
Record memoryL1Bridge : Type := mkL1 {
  l1_heap : list Deposit;
  l1_deposits : gmap Hash nat;
  l1_withdrawals : gset Hash;
  l1_liquidity : Z;
  l1_finalizedRoots : gmap Z Hash;
  l1_withdrawalRoots : gmap Z Hash;
  l1_currentHeight : Z
}.

Definition NewMemoryL1Bridge : memoryL1Bridge := mkL1 [] ∅ ∅ 0 ∅ ∅ 0.

Definition SetHeight (height : Z) (b : memoryL1Bridge) : memoryL1Bridge :=
  mkL1 (l1_heap b) (l1_deposits b) (l1_withdrawals b) (l1_liquidity b) (l1_finalizedRoots b) (l1_withdrawalRoots b) height.

Definition nextDepositNonce (b : memoryL1Bridge) : Z := Z.of_nat (size (l1_deposits b)).

Definition RecordFinalizedBatch (batchIndex : Z) (stateRoot : Hash) (b : memoryL1Bridge) : memoryL1Bridge :=
  mkL1 (l1_heap b) (l1_deposits b) (l1_withdrawals b) (l1_liquidity b)
    (<[batchIndex := stateRoot]> (l1_finalizedRoots b)) (l1_withdrawalRoots b) (l1_currentHeight b).

Definition RecordWithdrawalRoot (batchIndex : Z) (root : Hash) (b : memoryL1Bridge) : memoryL1Bridge :=
  mkL1 (l1_heap b) (l1_deposits b) (l1_withdrawals b) (l1_liquidity b) (l1_finalizedRoots b)
    (<[batchIndex := root]> (l1_withdrawalRoots b)) (l1_currentHeight b).

Definition GetFinalizedStateRoot (batchIndex : Z) (b : memoryL1Bridge) : option Hash := l1_finalizedRoots b !! batchIndex.
Definition GetWithdrawalRoot (batchIndex : Z) (b : memoryL1Bridge) : option Hash := l1_withdrawalRoots b !! batchIndex.
Definition GetDeposit (depositHash : Hash) (b : memoryL1Bridge) : option nat := l1_deposits b !! depositHash.
Definition GetLiquidity (b : memoryL1Bridge) : Z := l1_liquidity b.
Definition GetCurrentHeight (b : memoryL1Bridge) : Z := l1_currentHeight b.

(** The mark is already in the shared object. *)
Definition MarkDepositMinted (depositHash : Hash) : M memoryL1Bridge unit := mret tt.

(** [amount == nil || amount.Sign() <= 0] *)
Definition notPositive (amount : option Z) : bool := match amount with Some v => v <=? 0 | None => true end.

Section bridge.
Context (sha256 : list byte -> Hash).

Definition computeDepositHash (depositor : Address) (amount nonce : Z) : Hash :=
  sha256 (bytes_of depositor ++ big_bytes amount ++ be_bytes 8 nonce).

Definition computeWithdrawalHash (withdrawer : Address) (amount batchIndex txIndex : Z) (batchHash : Hash) : Hash :=
  sha256 (bytes_of withdrawer ++ big_bytes amount ++ be_bytes 8 batchIndex ++ be_bytes 4 txIndex ++ bytes_of batchHash).

(** [memoryL1Bridge.Deposit]; [now] is the time. *)
Definition L1Deposit (now : Z) (depositor : Address) (amount : option Z) : M memoryL1Bridge Hash :=
  guard_err (notPositive amount) (ErrErrorf "deposit amount must be positive");;
  b ← gets id;
  let amount := default 0 amount in
  let hash := computeDepositHash depositor amount (nextDepositNonce b) in
  let deposit := mkDeposit hash depositor amount now false (l1_currentHeight b) in
  modify (fun b =>
    mkL1 (l1_heap b ++ [deposit]) (<[hash := length (l1_heap b)]> (l1_deposits b)) (l1_withdrawals b)
      (l1_liquidity b + amount) (l1_finalizedRoots b) (l1_withdrawalRoots b) (l1_currentHeight b));;
  mret hash.

(** A result that does not depend on the state. *)
Definition ofRes {S A} (r : res A) : M S A := fun s => (r, s).

(** The checks of [ProcessWithdrawal] on the proof. *)
Definition checkProof (recordedRoot : option Hash) (withdrawer : Address) (amount txIndex : Z)
    (proof : MerkleWithdrawalProof) (mp : MerkleProof) : M memoryL1Bridge unit :=
  match recordedRoot with
  | None => throw ErrInvalidWithdrawalProof
  | Some recordedRoot =>
      guard_err (negb (bool_decide (mw_WithdrawalRoot proof = recordedRoot))) ErrInvalidWithdrawalProof;;
      expectedLeaf ← ofRes (ComputeWithdrawalLeafHash sha256 withdrawer (Some amount) txIndex);
      guard_err (negb (bool_decide (expectedLeaf = LeafHash mp))) ErrInvalidWithdrawalProof;;
      guard_err (negb (VerifyMerkleProof sha256 (mw_TreeKey proof) (Some mp) recordedRoot)) ErrInvalidWithdrawalProof
  end.

(** The payment. *)
Definition release (wHash : Hash) (amount : Z) (b : memoryL1Bridge) : memoryL1Bridge :=
  mkL1 (l1_heap b) (l1_deposits b) ({[wHash]} ∪ l1_withdrawals b) (l1_liquidity b - amount) (l1_finalizedRoots b)
    (l1_withdrawalRoots b) (l1_currentHeight b).

Definition ProcessWithdrawal (withdrawer : Address) (amount : option Z) (batchIndex txIndex : Z) (batchHash : Hash)
    (proof : option MerkleWithdrawalProof) : M memoryL1Bridge unit :=
  guard_err (notPositive amount) (ErrErrorf "withdrawal amount must be positive");;
  let amount := default 0 amount in
  match proof ≫= (fun p => (fun mp => (p, mp)) <$> mw_Proof p) with
  | None => throw ErrInvalidWithdrawalProof
  | Some (proof, mp) =>
      let wHash := computeWithdrawalHash withdrawer amount batchIndex txIndex batchHash in
      b ← gets id;
      guard_err (bool_decide (wHash ∈ l1_withdrawals b)) ErrWithdrawalAlreadyProcessed;;
      checkProof (l1_withdrawalRoots b !! batchIndex) withdrawer amount txIndex proof mp;;
      guard_err (l1_liquidity b <? amount) ErrInsufficientL1Liquidity;;
      modify (release wHash amount)
  end.

(** *** L2 *)

(** The L2 bridge with the L1 bridge it calls, the accounts of the state manager
    and its archived state roots. *)
Record L2Bridge : Type := mkL2 {
  b_l1Bridge : memoryL1Bridge;
  b_accountStates : gmap Address RollupAccount;
  b_stateRoots : gmap Z Hash;
  b_bridgeAddress : Address;
  b_deposits : gmap Hash nat;
  b_withdrawals : gmap Hash Withdrawal;
  b_requiredDepositConfirmations : Z
}.

Definition set_l1 (l1 : memoryL1Bridge) (b : L2Bridge) : L2Bridge :=
  mkL2 l1 (b_accountStates b) (b_stateRoots b) (b_bridgeAddress b) (b_deposits b) (b_withdrawals b)
    (b_requiredDepositConfirmations b).
Definition set_states (s : gmap Address RollupAccount) (b : L2Bridge) : L2Bridge :=
  mkL2 (b_l1Bridge b) s (b_stateRoots b) (b_bridgeAddress b) (b_deposits b) (b_withdrawals b)
    (b_requiredDepositConfirmations b).
Definition set_deposits (m : gmap Hash nat) (b : L2Bridge) : L2Bridge :=
  mkL2 (b_l1Bridge b) (b_accountStates b) (b_stateRoots b) (b_bridgeAddress b) m (b_withdrawals b)
    (b_requiredDepositConfirmations b).
Definition set_withdrawals (m : gmap Hash Withdrawal) (b : L2Bridge) : L2Bridge :=
  mkL2 (b_l1Bridge b) (b_accountStates b) (b_stateRoots b) (b_bridgeAddress b) (b_deposits b) m
    (b_requiredDepositConfirmations b).

Definition NewL2Bridge (l1 : memoryL1Bridge) (states : gmap Address RollupAccount) (roots : gmap Z Hash)
    (bridgeAddress : Address) : L2Bridge := mkL2 l1 states roots bridgeAddress ∅ ∅ 0.

Definition SetRequiredDepositConfirmations (n : Z) (b : L2Bridge) : L2Bridge :=
  mkL2 (b_l1Bridge b) (b_accountStates b) (b_stateRoots b) (b_bridgeAddress b) (b_deposits b) (b_withdrawals b) n.

(** [StateManager.MintBalance] and [StateManager.BurnBalance] *)
Definition addBalance (addr : Address) (v : Z) (states : gmap Address RollupAccount) : gmap Address RollupAccount :=
  let acc := default emptyRollupAccount (states !! addr) in
  <[addr := mkRollupAccount (ra_Nonce acc) (ra_Balance acc + v) (ra_CodeHash acc) (ra_Storage acc) (ra_Code acc)]> states.

Definition MintBalance (addr : Address) (amount : option Z) : M (gmap Address RollupAccount) unit :=
  guard_err (notPositive amount) (ErrErrorf "mint amount must be positive");;
  modify (addBalance addr (default 0 amount)).

Definition BurnBalance (addr : Address) (amount : option Z) : M (gmap Address RollupAccount) unit :=
  guard_err (notPositive amount) (ErrErrorf "burn amount must be positive");;
  modify (addBalance addr 0);;
  states ← gets id;
  guard_err (ra_Balance (default emptyRollupAccount (states !! addr)) <? default 0 amount) (ErrErrorf "insufficient balance");;
  modify (addBalance addr (- default 0 amount)).

(** Writing [Minted] through the pointer [p]. *)
Definition setMinted (p : nat) (v : bool) (b : memoryL1Bridge) : memoryL1Bridge :=
  mkL1 (alter (fun d => mkDeposit (d_Hash d) (d_Depositor d) (d_Amount d) (d_Timestamp d) v (d_L1Height d)) p (l1_heap b))
    (l1_deposits b) (l1_withdrawals b) (l1_liquidity b) (l1_finalizedRoots b) (l1_withdrawalRoots b) (l1_currentHeight b).

(** The pointer to a deposit, cached in the map of the L2 bridge. *)
Definition findDeposit (depositHash : Hash) : M L2Bridge nat :=
  b ← gets id;
  match b_deposits b !! depositHash with
  | Some p => mret p
  | None =>
      match GetDeposit depositHash (b_l1Bridge b) with
      | None => throw ErrDepositNotFound
      | Some p => modify (fun b => set_deposits (<[depositHash := p]> (b_deposits b)) b);; mret p
      end
  end.

(** The finality check; [reader] is the answer of the height reader, if there is one. *)
Definition checkFinality (required : Z) (reader : option Z) (deposit : Deposit) : M L2Bridge unit :=
  if 0 <? required then
    match reader with
    | None => throw (ErrErrorf "deposit finality check enabled but no L1HeightReader configured")
    | Some currentL1Height =>
        guard_err (d_L1Height deposit =? 0) (ErrErrorf "deposit has L1Height=0 (unknown L1 inclusion block)");;
        guard_err (currentL1Height <? d_L1Height deposit) ErrDepositNotFinalized;;
        guard_err (currentL1Height - d_L1Height deposit <? required) ErrDepositNotFinalized
    end
  else mret tt.

(** The deposit at [p] is marked before the balance is minted, and the mark is
    taken back if that fails. *)
Definition mintDeposit (p : nat) (deposit : Deposit) : M L2Bridge unit :=
  modify (fun b => set_l1 (setMinted p true (b_l1Bridge b)) b);;
  err ← attempt (zoom b_accountStates set_states (MintBalance (d_Depositor deposit) (Some (d_Amount deposit))));
  match err with
  | inr _ => mret tt
  | inl err => modify (fun b => set_l1 (setMinted p false (b_l1Bridge b)) b);; throw err
  end.

(** A pointer outside the heap does not occur. *)
Definition ProcessDeposit (reader : option Z) (depositHash : Hash) : M L2Bridge unit :=
  p ← findDeposit depositHash;
  b ← gets id;
  match l1_heap (b_l1Bridge b) !! p with
  | None => panic
  | Some deposit =>
      guard_err (d_Minted deposit) ErrDepositAlreadyMinted;;
      checkFinality (b_requiredDepositConfirmations b) reader deposit;;
      mintDeposit p deposit;;
      zoom b_l1Bridge set_l1 (MarkDepositMinted depositHash)
  end.

(** *** Finalized batches *)

(** The transactions that are withdrawals. *)
Definition isWithdrawal (bridgeAddress : Address) (tx : RollupTransaction) : bool :=
  bool_decide (tx_To tx = Some bridgeAddress) && negb (notPositive (tx_Value tx)).

Fixpoint buildLoop (bridgeAddress : Address) (txIdx : Z) (txs : list RollupTransaction) (smt : SparseMerkleTree) :
    res SparseMerkleTree :=
  match txs with
  | [] => Ok smt
  | tx :: txs =>
      if isWithdrawal bridgeAddress tx then
        let key := ComputeWithdrawalTreeKey sha256 (tx_From tx) txIdx in
        match ComputeWithdrawalLeafHash sha256 (tx_From tx) (tx_Value tx) txIdx with
        | Ok leaf => buildLoop bridgeAddress (txIdx + 1) txs (Insert sha256 key leaf smt)
        | _ => Panic
        end
      else buildLoop bridgeAddress (txIdx + 1) txs smt
  end.

Definition buildWithdrawalSMT (txs : list RollupTransaction) (bridgeAddress : Address) : res SparseMerkleTree :=
  buildLoop bridgeAddress 0 txs (NewSparseMerkleTree sha256).

(** The loop over the transactions. An error of L1 leaves a pending withdrawal. *)
Fixpoint payLoop (now batchIndex : Z) (batchHash : Hash) (bridgeAddress : Address) (smt : SparseMerkleTree)
    (txIdx : Z) (txs : list RollupTransaction) : M L2Bridge unit :=
  match txs with
  | [] => mret tt
  | tx :: txs =>
      (if isWithdrawal bridgeAddress tx then
         let value := default 0 (tx_Value tx) in
         let wHash := computeWithdrawalHash (tx_From tx) value batchIndex txIdx batchHash in
         b ← gets id;
         if default false (w_Processed <$> b_withdrawals b !! wHash) then mret tt else
         let treeKey := ComputeWithdrawalTreeKey sha256 (tx_From tx) txIdx in
         let proof := mkWithdrawalProof (root smt) (Some (Prove sha256 treeKey smt)) treeKey in
         let record processed b :=
           set_withdrawals (<[wHash := mkWithdrawal wHash (tx_From tx) value batchIndex txIdx batchHash processed now
                                         (Some proof)]> (b_withdrawals b)) b in
         err ← attempt (zoom b_l1Bridge set_l1
                  (ProcessWithdrawal (tx_From tx) (tx_Value tx) batchIndex txIdx batchHash (Some proof)));
         modify (record (match err with inr _ => true | inl _ => false end))
       else mret tt);;
      payLoop now batchIndex batchHash bridgeAddress smt (txIdx + 1) txs
  end.

(** [ProcessFinalizedBatch]; the answer is what it writes to [batch.WithdrawalRoot]. *)
Definition ProcessFinalizedBatch (now : Z) (batch : Batch) : M L2Bridge Hash :=
  b ← gets id;
  match (if bool_decide (bt_PostStateRoot batch = zero_array 32) then b_stateRoots b !! bt_Index batch
         else Some (bt_PostStateRoot batch)) with
  | None => throw (ErrErrorf "cannot determine post-state root for batch")
  | Some stateRoot =>
      modify (fun b => set_l1 (RecordFinalizedBatch (bt_Index batch) stateRoot (b_l1Bridge b)) b);;
      withdrawalSMT ← ofRes (buildWithdrawalSMT (bt_Transactions batch) (b_bridgeAddress b));
      let withdrawalRoot := root withdrawalSMT in
      modify (fun b => set_l1 (RecordWithdrawalRoot (bt_Index batch) withdrawalRoot (b_l1Bridge b)) b);;
      payLoop now (bt_Index batch) (bt_BatchHash batch) (b_bridgeAddress b) withdrawalSMT 0 (bt_Transactions batch);;
      mret withdrawalRoot
  end.

(** [RetryPendingWithdrawals] ranges over the map in the order [hashes]. *)
Fixpoint RetryPendingWithdrawals (hashes : list Hash) : M L2Bridge Z :=
  match hashes with
  | [] => mret 0
  | h :: hashes =>
      b ← gets id;
      match b_withdrawals b !! h with
      | None => RetryPendingWithdrawals hashes
      | Some w =>
          if w_Processed w then RetryPendingWithdrawals hashes else
          match w_Proof w with
          | None => RetryPendingWithdrawals hashes
          | Some proof =>
              err ← attempt (zoom b_l1Bridge set_l1
                       (ProcessWithdrawal (w_Withdrawer w) (Some (w_Amount w)) (w_BatchIndex w) (w_TxIndex w)
                          (w_BatchHash w) (Some proof)));
              match err with
              | inl _ => RetryPendingWithdrawals hashes
              | inr _ =>
                  modify (fun b => set_withdrawals (<[h := mkWithdrawal (w_Hash w) (w_Withdrawer w) (w_Amount w)
                    (w_BatchIndex w) (w_TxIndex w) (w_BatchHash w) true (w_Timestamp w) (w_Proof w)]> (b_withdrawals b)) b);;
                  n ← RetryPendingWithdrawals hashes; mret (n + 1)
              end
          end
      end
  end.
End bridge.
End Bridge.
