(* ===== verification/BridgeSpec.v ===== *)
(** * What the bridge guarantees

    L1 pays a withdrawal only if the transaction is part of the batch it names;
    what it holds is what was deposited less what it paid; it pays each withdrawal
    hash once; and L2 mints no more than was deposited. *)

From Stdlib Require Import ZArith Lia.
From Stdlib.Strings Require Import Byte.
From stdpp Require Import base list countable gmap strings numbers.
From S2P Require Import Prelude Stack StateDB Rollup SparseMerkle MerkleSpec Bridge.

Module BridgeSpec.
Import SparseMerkle MerkleSpec Bridge.

Section spec.
Context (sha256 : list byte -> Hash).

(** ** Leaves of the withdrawal tree *)

Lemma padded_amount bs : len bs <= 32 ->
  length (copy_at (zeros 32) (32 - len bs) bs) = 32%nat /\ be (copy_at (zeros 32) (32 - len bs) bs) = be bs.
Proof.
  intros H. assert (HL : (length bs <= 32)%nat) by (unfold len in H; lia).
  rewrite (copy_at_zeros_right 32 bs HL : copy_at (zeros 32) (32 - len bs) bs = _). split; [|apply be_zeros_app].
  rewrite length_app, length_replicate. lia.
Qed.

Lemma be_bytes_mod n x y : be_bytes n x = be_bytes n y -> x mod pow256 n = y mod pow256 n.
Proof. intros H. by rewrite <- !be_be_bytes, H. Qed.

(** What the leaf of a withdrawal hashes. *)
Definition withdrawalBytes (w : Address) (amount : option Z) (i : Z) : list byte :=
  let bs := match amount with Some amount => big_bytes amount | None => [] end in
  bytes_of w ++ copy_at (zeros 32) (32 - len bs) bs ++ be_bytes 4 i.

Lemma withdrawalLeaf_inj P w a i w' a' i' h :
  0 <= a -> 0 <= a' -> P (withdrawalBytes w (Some a) i) -> P (withdrawalBytes w' (Some a') i') ->
  ComputeWithdrawalLeafHash sha256 w (Some a) i = Ok h -> ComputeWithdrawalLeafHash sha256 w' (Some a') i' = Ok h ->
  (w = w' /\ a = a' /\ i mod 2 ^ 32 = i' mod 2 ^ 32) \/ collision sha256 P.
Proof.
  unfold ComputeWithdrawalLeafHash. intros Ha Ha' P1 P2. destruct (Z.ltb_spec 32 (len (big_bytes a))) as [|H1]; [done|].
  destruct (Z.ltb_spec 32 (len (big_bytes a'))) as [|H2]; [done|]. intros [= <-] [= H]. symmetry in H.
  apply (hash_inj sha256 P _ _ P1 P2) in H as [H|]; [|by right]. destruct (padded_amount _ H1) as [L1 B1], (padded_amount _ H2) as [L2 B2].
  apply app_inj_1 in H as [HW H]; [|by rewrite !length_bytes_of]. apply app_inj_1 in H as [HA HI]; [|by rewrite L1, L2].
  left. split; [by apply array_eq|]. split.
  - apply (f_equal be) in HA. rewrite B1, B2, !be_big_bytes in HA. lia.
  - by apply (be_bytes_mod 4) in HI.
Qed.

Lemma withdrawalLeaf_not_empty P w a i h : P (withdrawalBytes w a i) -> P [] ->
  ComputeWithdrawalLeafHash sha256 w a i = Ok h -> h = sha256 [] -> collision sha256 P.
Proof.
  intros P1 P2. unfold ComputeWithdrawalLeafHash. destruct (32 <? _); [done|]. intros [= <-] H.
  apply (hash_inj sha256 P _ _ P1 P2) in H as [H|]; [|done].
  apply app_eq_nil in H as [H _]. pose proof (length_bytes_of w) as HL. by rewrite H in HL.
Qed.

(** ** The withdrawal tree *)

(** [h] is the leaf of a withdrawal of [txs]. *)
Definition commits (ba : Address) (txs : list RollupTransaction) (h : Hash) : Prop :=
  exists i tx, txs !! i = Some tx /\ isWithdrawal ba tx = true /\
    ComputeWithdrawalLeafHash sha256 (tx_From tx) (tx_Value tx) (Z.of_nat i) = Ok h.

Lemma commits_mono ba txs more h : commits ba txs h -> commits ba (txs ++ more) h.
Proof. intros (i & tx & Hi & H). exists i, tx. split; [by apply lookup_app_l_Some|done]. Qed.

Lemma buildLoop_ok ba txs : forall seen smt L t,
  smt_ok sha256 smt L -> map_Forall (fun _ => commits ba seen) L ->
  buildLoop sha256 ba (len seen) txs smt = Ok t ->
  exists L', smt_ok sha256 t L' /\ map_Forall (fun _ => commits ba (seen ++ txs)) L'.
Proof.
  induction txs as [|tx txs IH]; intros seen smt L t HT HL; cbn [buildLoop].
  { intros [= <-]. exists L. by rewrite app_nil_r. }
  assert (Hlen : len seen + 1 = len (seen ++ [tx])) by (rewrite len_app; done). rewrite Hlen.
  replace (seen ++ tx :: txs) with ((seen ++ [tx]) ++ txs) by by rewrite <- app_assoc.
  assert (HL' : map_Forall (fun _ => commits ba (seen ++ [tx])) L).
  { intros k h Hk. by apply commits_mono, (HL k). }
  destruct (isWithdrawal ba tx) eqn:EW; [|by apply (IH _ smt L)].
  destruct (ComputeWithdrawalLeafHash sha256 (tx_From tx) (tx_Value tx) (len seen)) as [leaf| | |] eqn:EL; try done.
  apply (IH (seen ++ [tx]) _ (<[ComputeWithdrawalTreeKey sha256 (tx_From tx) (len seen) := leaf]> L)).
  - by apply insertLocked_ok.
  - apply map_Forall_insert_2; [|done]. exists (length seen), tx. split; [|done]. by apply list_lookup_middle.
Qed.

Lemma buildWithdrawalSMT_ok txs ba t :
  buildWithdrawalSMT sha256 txs ba = Ok t ->
  exists L, smt_ok sha256 t L /\ map_Forall (fun _ => commits ba txs) L.
Proof. apply (buildLoop_ok ba txs [] _ ∅ t (new_ok sha256)). done. Qed.

(** ** Payments *)

Lemma guard_Ok {S} b e (s : S) r s' : guard_err b e s = (Ok r, s') -> b = false /\ s' = s.
Proof. unfold guard_err, throw. destruct b; [done|]. by intros [= _ <-]. Qed.

Lemma run_bind_inv {S A B} (m : M S A) (f : A -> M S B) s b s' :
  (m ≫= f) s = (Ok b, s') -> exists a s1, m s = (Ok a, s1) /\ f a s1 = (Ok b, s').
Proof. unfold mbind, M_bind. destruct (m s) as [[a| | |] s1]; try done. intros H. by exists a, s1. Qed.

Lemma checkProof_inv root w a i p mp b s' :
  checkProof sha256 root w a i p mp b = (Ok tt, s') ->
  s' = b /\ root = Some (mw_WithdrawalRoot p) /\ ComputeWithdrawalLeafHash sha256 w (Some a) i = Ok (LeafHash mp) /\
  VerifyMerkleProof sha256 (mw_TreeKey p) (Some mp) (mw_WithdrawalRoot p) = true.
Proof.
  unfold checkProof. destruct root as [root|]; [|done].
  intros (? & s1 & [H1 ->]%guard_Ok & H)%run_bind_inv. apply negb_false_iff, bool_decide_eq_true_1 in H1.
  apply run_bind_inv in H as (leaf & s2 & H2 & H). unfold ofRes in H2. injection H2 as HL <-.
  apply run_bind_inv in H as (? & s3 & [H3 ->]%guard_Ok & [H4 ->]%guard_Ok).
  apply negb_false_iff, bool_decide_eq_true_1 in H3. apply negb_false_iff in H4. by subst.
Qed.

(** What a payment requires and does. *)
Lemma ProcessWithdrawal_inv w amount bi ti bh proof b s' :
  ProcessWithdrawal sha256 w amount bi ti bh proof b = (Ok tt, s') ->
  exists a p mp, amount = Some a /\ 0 < a /\ proof = Some p /\ mw_Proof p = Some mp /\
    let wHash := computeWithdrawalHash sha256 w a bi ti bh in
    (wHash ∉ l1_withdrawals b) /\ a <= l1_liquidity b /\ s' = release wHash a b /\
    l1_withdrawalRoots b !! bi = Some (mw_WithdrawalRoot p) /\
    ComputeWithdrawalLeafHash sha256 w (Some a) ti = Ok (LeafHash mp) /\
    VerifyMerkleProof sha256 (mw_TreeKey p) (Some mp) (mw_WithdrawalRoot p) = true.
Proof.
  unfold ProcessWithdrawal. intros (? & s1 & [H1 ->]%guard_Ok & H)%run_bind_inv.
  destruct amount as [a|]; [|done]. simpl in H1. apply Z.leb_gt in H1. cbn [default] in H.
  destruct proof as [p|]; [|done]. cbn [mbind option_bind] in H. destruct (mw_Proof p) as [mp|] eqn:EP; [|done].
  cbn [fmap option_fmap option_map] in H. rewrite bind_gets in H. cbn [id] in H.
  apply run_bind_inv in H as (? & s2 & [H2 ->]%guard_Ok & H). apply bool_decide_eq_false_1 in H2.
  apply run_bind_inv in H as ([] & s3 & (-> & HR & HL & HV)%checkProof_inv & H).
  apply run_bind_inv in H as (? & s4 & [H4 ->]%guard_Ok & H). apply Z.ltb_ge in H4. injection H as <-.
  exists a, p, mp. cbv zeta. by repeat split.
Qed.

Lemma ProcessWithdrawal_intro w a bi ti bh p mp b :
  0 < a -> mw_Proof p = Some mp -> computeWithdrawalHash sha256 w a bi ti bh ∉ l1_withdrawals b -> a <= l1_liquidity b ->
  l1_withdrawalRoots b !! bi = Some (mw_WithdrawalRoot p) ->
  ComputeWithdrawalLeafHash sha256 w (Some a) ti = Ok (LeafHash mp) ->
  VerifyMerkleProof sha256 (mw_TreeKey p) (Some mp) (mw_WithdrawalRoot p) = true ->
  ProcessWithdrawal sha256 w (Some a) bi ti bh (Some p) b =
    (Ok tt, release (computeWithdrawalHash sha256 w a bi ti bh) a b).
Proof.
  intros Ha Hp Hnew Hliq HR Hleaf HV. unfold ProcessWithdrawal. rewrite bind_guard. cbn [notPositive].
  rewrite (proj2 (Z.leb_gt a 0)) by lia. cbn [mbind option_bind]. rewrite Hp. cbn [fmap option_fmap option_map].
  rewrite bind_gets. cbn [id]. rewrite bind_guard, bool_decide_eq_false_2 by done. unfold checkProof. rewrite HR.
  unfold mbind at 1, M_bind at 1. rewrite bind_guard, bool_decide_eq_true_2 by done. cbn [negb].
  unfold mbind at 1, M_bind at 1, ofRes. change (default 0 (Some a)) with a. rewrite Hleaf, bind_guard, bool_decide_eq_true_2 by done. cbn [negb].
  rewrite HV. cbn [negb guard_err]. unfold mret, M_ret. rewrite bind_guard, (proj2 (Z.ltb_ge _ _)) by done. reflexivity.
Qed.

Lemma isWithdrawal_inv ba tx : isWithdrawal ba tx = true -> exists v, tx_To tx = Some ba /\ tx_Value tx = Some v /\ 0 < v.
Proof.
  unfold isWithdrawal. intros [H1%bool_decide_eq_true_1 H2]%andb_true_iff. destruct (tx_Value tx) as [v|]; [|done].
  exists v. simpl in H2. apply negb_true_iff, Z.leb_gt in H2. done.
Qed.

(** What is hashed to check a proof for a withdrawal, to make the tree's own
    proof for the same key, and to make the leaves of a batch. *)
Definition claimInputs (txs : list RollupTransaction) (ba : Address) (t : SparseMerkleTree) (key : Address) (mp : MerkleProof)
    (w : Address) (amount : option Z) (i : Z) (x : list byte) : Prop :=
  x = [] \/ x = withdrawalBytes w amount i \/ x ∈ proofInputs sha256 key mp \/ x ∈ proofInputs sha256 key (Prove sha256 key t) \/
  exists j tx, txs !! j = Some tx /\ isWithdrawal ba tx = true /\ x = withdrawalBytes (tx_From tx) (tx_Value tx) (Z.of_nat j).

(** A leaf that verifies against the root of the tree of a batch is of a withdrawal of the batch. *)
Lemma verified_commits txs ba t key mp w a i :
  buildWithdrawalSMT sha256 txs ba = Ok t -> 0 <= a ->
  ComputeWithdrawalLeafHash sha256 w (Some a) i = Ok (LeafHash mp) ->
  VerifyMerkleProof sha256 key (Some mp) (root t) = true ->
  (exists j tx, txs !! j = Some tx /\ tx_To tx = Some ba /\ tx_From tx = w /\ tx_Value tx = Some a /\
     Z.of_nat j mod 2 ^ 32 = i mod 2 ^ 32) \/ collision sha256 (claimInputs txs ba t key mp w (Some a) i).
Proof.
  intros (L & HT & HL)%buildWithdrawalSMT_ok Ha Hleaf HV.
  set (P := claimInputs txs ba t key mp w (Some a) i). assert (P0 : P []) by by left.
  assert (P1 : P (withdrawalBytes w (Some a) i)) by (right; by left).
  apply (verified_proof sha256 t L) in HV as [HM|HC];
    [|right; revert HC; apply collision_mono; unfold P, claimInputs; tauto|done].
  assert (HE : LeafHash (Prove sha256 key t) = default (sha256 []) (L !! key)).
  { unfold Prove, SparseMerkleTreeDepth. cbn [LeafHash]. by rewrite (ok_leaves sha256 t L HT). }
  rewrite HM, HE in Hleaf. destruct (L !! key) as [h|] eqn:EL; cbn [default] in Hleaf.
  - destruct (HL key h EL) as (j & tx & Hj & HW & Hh). destruct (isWithdrawal_inv ba tx HW) as (v & HTo & HV & Hv).
    assert (P2 : P (withdrawalBytes (tx_From tx) (tx_Value tx) (Z.of_nat j))) by (right; right; right; right; by exists j, tx).
    rewrite HV in Hh, P2. destruct (withdrawalLeaf_inj P _ _ _ _ _ _ _ Ha (Z.lt_le_incl _ _ Hv) P1 P2 Hleaf Hh) as [(-> & -> & Hi)|]; [|by right].
    left. exists j, tx. by rewrite Hi.
  - right. by apply (withdrawalLeaf_not_empty P _ _ _ _ P1 P0 Hleaf).
Qed.

(** ** The ledger of L1 *)

(** The calls of the L1 bridge. *)
Inductive L1Call : Type :=
| CallDeposit (now : Z) (depositor : Address) (amount : option Z)
| CallWithdraw (withdrawer : Address) (amount : option Z) (batchIndex txIndex : Z) (batchHash : Hash)
    (proof : option MerkleWithdrawalProof)
| CallFinalized (batchIndex : Z) (stateRoot : Hash)
| CallRoot (batchIndex : Z) (root : Hash)
| CallHeight (height : Z).

(** What moved: a deposit, or the payment of a withdrawal. *)
Inductive Event : Type :=
| Deposited (amount : Z)
| Released (wHash : Hash) (amount : Z).

Definition perform (c : L1Call) (b : memoryL1Bridge) : memoryL1Bridge * list Event :=
  match c with
  | CallDeposit now who amount =>
      match L1Deposit sha256 now who amount b with
      | (Ok _, b') => (b', [Deposited (default 0 amount)])
      | (_, b') => (b', [])
      end
  | CallWithdraw who amount bi ti bh proof =>
      match ProcessWithdrawal sha256 who amount bi ti bh proof b with
      | (Ok _, b') => (b', [Released (computeWithdrawalHash sha256 who (default 0 amount) bi ti bh) (default 0 amount)])
      | (_, b') => (b', [])
      end
  | CallFinalized bi r => (RecordFinalizedBatch bi r b, [])
  | CallRoot bi r => (RecordWithdrawalRoot bi r b, [])
  | CallHeight h => (SetHeight h b, [])
  end.

Fixpoint history (cs : list L1Call) (b : memoryL1Bridge) : memoryL1Bridge * list Event :=
  match cs with
  | [] => (b, [])
  | c :: cs =>
      let '(b1, ev) := perform c b in
      let '(b2, evs) := history cs b1 in (b2, ev ++ evs)
  end.

Definition deposited (evs : list Event) : Z :=
  foldr (fun e n => match e with Deposited a => a + n | Released _ _ => n end) 0 evs.
Definition released (evs : list Event) : Z :=
  foldr (fun e n => match e with Deposited _ => n | Released _ a => a + n end) 0 evs.
Definition paid (evs : list Event) : list Hash :=
  omap (fun e => match e with Deposited _ => None | Released h _ => Some h end) evs.

(** An error leaves the L1 bridge as it was. *)
Lemma ProcessWithdrawal_err w amount bi ti bh proof b r s' :
  ProcessWithdrawal sha256 w amount bi ti bh proof b = (r, s') -> (forall u, r <> Ok u) -> s' = b.
Proof.
  unfold ProcessWithdrawal. rewrite bind_guard. destruct (notPositive amount); [by intros [= <- <-]|].
  destruct (proof ≫= _) as [[p mp]|]; [|by intros [= <- <-]]. rewrite bind_gets. cbn [id]. rewrite bind_guard.
  destruct (bool_decide _); [by intros [= <- <-]|]. unfold checkProof.
  destruct (l1_withdrawalRoots b !! bi) as [root|]; [|by intros [= <- <-]].
  unfold mbind at 1, M_bind at 1. rewrite bind_guard. destruct (negb (bool_decide (mw_WithdrawalRoot p = root))); [by intros [= <- <-]|].
  unfold mbind at 1, M_bind at 1, ofRes. destruct (ComputeWithdrawalLeafHash _ _ _ _) as [leaf| | |]; [|by intros [= <- <-]..].
  rewrite bind_guard. destruct (negb (bool_decide (leaf = _))); [by intros [= <- <-]|].
  unfold guard_err at 1. destruct (negb _); [by intros [= <- <-]|]. unfold mret, M_ret. rewrite bind_guard.
  destruct (_ <? _); [by intros [= <- <-]|]. intros [= <- <-] H. by destruct (H tt).
Qed.

(** The effect of some calls on the ledger: what is held, and which hashes were paid. *)
Record ledger (b b' : memoryL1Bridge) (evs : list Event) : Prop := mkLedger {
  led_sum : l1_liquidity b' = l1_liquidity b + deposited evs - released evs;
  led_pos : 0 <= l1_liquidity b -> 0 <= l1_liquidity b';
  led_paid : l1_withdrawals b' = list_to_set (paid evs) ∪ l1_withdrawals b;
  led_once : NoDup (paid evs);
  led_new : Forall (.∉ l1_withdrawals b) (paid evs)
}.

Lemma ledger_same b b' : l1_liquidity b' = l1_liquidity b -> l1_withdrawals b' = l1_withdrawals b -> ledger b b' [].
Proof. intros H1 H2. split; simpl; [lia|lia| |constructor|constructor]. rewrite H2. set_solver. Qed.

Lemma deposited_app x y : deposited (x ++ y) = deposited x + deposited y.
Proof. induction x as [|[] x IH]; simpl; lia. Qed.

Lemma released_app x y : released (x ++ y) = released x + released y.
Proof. induction x as [|[] x IH]; simpl; lia. Qed.

Lemma paid_app x y : paid (x ++ y) = paid x ++ paid y.
Proof. apply omap_app. Qed.

Lemma ledger_trans b b1 b2 x y : ledger b b1 x -> ledger b1 b2 y -> ledger b b2 (x ++ y).
Proof.
  intros [S1 P1 W1 O1 N1] [S2 P2 W2 O2 N2].
  split; rewrite ?deposited_app, ?released_app, ?paid_app; [lia|auto| | |].
  - rewrite W2, W1. set_solver.
  - apply list.NoDup_app. split; [done|]. split; [|done]. intros h Hx Hy. rewrite Forall_forall in N2.
    apply list_elem_of_In in Hy. specialize (N2 h Hy). rewrite W1 in N2. set_solver.
  - apply Forall_app. split; [done|]. eapply Forall_impl; [|exact N2]. intros h. cbv beta. rewrite W1. set_solver.
Qed.

Lemma L1Deposit_cases now who amount b :
  (exists a h, amount = Some a /\ 0 < a /\ h = computeDepositHash sha256 who a (nextDepositNonce b) /\
    L1Deposit sha256 now who amount b =
      (Ok h, mkL1 (l1_heap b ++ [mkDeposit h who a now false (l1_currentHeight b)]) (<[h := length (l1_heap b)]> (l1_deposits b))
               (l1_withdrawals b) (l1_liquidity b + a) (l1_finalizedRoots b) (l1_withdrawalRoots b) (l1_currentHeight b))) \/
  exists err, L1Deposit sha256 now who amount b = (Err err, b).
Proof.
  unfold L1Deposit. rewrite bind_guard. destruct amount as [a|]; simpl; [|right; by eexists].
  destruct (Z.leb_spec a 0); [right; by eexists|]. left. by exists a, (computeDepositHash sha256 who a (nextDepositNonce b)).
Qed.

Lemma perform_ledger c b : ledger b (perform c b).1 (perform c b).2.
Proof.
  destruct c; cbn [perform]; try by apply ledger_same.
  - destruct (L1Deposit_cases now depositor amount b) as [(a & h & -> & Ha & _ & ->)|[err ->]]; [|by apply ledger_same].
    split; simpl; [lia|lia|set_solver|constructor|constructor].
  - destruct (ProcessWithdrawal _ _ _ _ _ _ _ b) as [[[]| | |] b'] eqn:E;
      try (apply ProcessWithdrawal_err in E as ->; [by apply ledger_same|done]).
    apply ProcessWithdrawal_inv in E as (a & p & mp & -> & Ha & _ & _ & HN & HL & -> & _). cbn [default].
    split; simpl; [lia|lia|set_solver| |].
    + apply NoDup_singleton.
    + by apply Forall_singleton.
Qed.

Lemma history_ledger cs : forall b, ledger b (history cs b).1 (history cs b).2.
Proof.
  induction cs as [|c cs IH]; intros b; cbn [history]; [by apply ledger_same|]. pose proof (perform_ledger c b) as H1.
  destruct (perform c b) as [b1 ev]. specialize (IH b1). destruct (history cs b1) as [b2 evs]. by eapply ledger_trans.
Qed.

(** ** Minting *)

(** The sum of the deposits, and of those that were minted. *)
Definition depositSum (heap : list Deposit) : Z := foldr (fun d n => d_Amount d + n) 0 heap.
Definition mintedSum (heap : list Deposit) : Z := foldr (fun d n => (if d_Minted d then d_Amount d else 0) + n) 0 heap.

Definition heap_ok (heap : list Deposit) : Prop := Forall (fun d => 0 < d_Amount d) heap.

Lemma mintedSum_le heap : heap_ok heap -> mintedSum heap <= depositSum heap.
Proof. induction 1 as [|d heap Hd _ IH]; simpl; [done|]. destruct (d_Minted d); lia. Qed.

Lemma mintedSum_snoc heap d : mintedSum (heap ++ [d]) = mintedSum heap + (if d_Minted d then d_Amount d else 0).
Proof. induction heap as [|x heap IH]; simpl; lia. Qed.

Definition supplyOf (b : L2Bridge) : Z := supply (view_of (b_accountStates b)).
Definition heapOf (b : L2Bridge) : list Deposit := l1_heap (b_l1Bridge b).

(** Is the deposit at [p] marked? *)
Definition isMinted (heap : list Deposit) (p : nat) : bool := default false (d_Minted <$> heap !! p).

(** Between two states of the bridge the accounts received what was newly minted,
    and no deposit lost its mark. *)
Record backed (b b' : L2Bridge) : Prop := mkBacked {
  bk_mint : supplyOf b' - mintedSum (heapOf b') = supplyOf b - mintedSum (heapOf b);
  bk_heap : heap_ok (heapOf b) -> heap_ok (heapOf b');
  bk_marks : forall p, isMinted (heapOf b) p = true -> isMinted (heapOf b') p = true;
  bk_known : b_deposits b ⊆ b_deposits b'
}.

#[local] Instance backed_preorder : PreOrder backed.
Proof.
  split; [by split|]. intros x y z [H1 H2 H3 H4] [K1 K2 K3 K4]. split; [lia|auto|auto|by etransitivity].
Qed.

Lemma backed_same b b' :
  b_accountStates b' = b_accountStates b -> heapOf b' = heapOf b -> b_deposits b ⊆ b_deposits b' -> backed b b'.
Proof. intros H1 H2 H3. split; unfold supplyOf; rewrite ?H1, ?H2; done. Qed.

Lemma supply_addBalance a v states : supply (view_of (addBalance a v states)) = supply (view_of states) + v.
Proof.
  rewrite (supply_change (view_of states) (view_of (addBalance a v states)) a); unfold balance_of.
  - rewrite !account_view_of. unfold addBalance, acc_of. rewrite lookup_insert_eq. simpl. lia.
  - intros b Hb. rewrite !account_view_of. unfold addBalance, acc_of. by rewrite lookup_insert_ne.
Qed.

(** Marking the deposit [d] at [p]. *)
Lemma setMinted_sum p v b d : l1_heap b !! p = Some d ->
  mintedSum (l1_heap (setMinted p v b)) =
    mintedSum (l1_heap b) + (if v then d_Amount d else 0) - (if d_Minted d then d_Amount d else 0).
Proof.
  unfold setMinted. cbn [l1_heap].
  set (f := fun d => mkDeposit _ _ _ _ v _). assert (Hf : forall d, d_Amount (f d) = d_Amount d /\ d_Minted (f d) = v) by done.
  clearbody f. generalize (l1_heap b). intros heap. revert p. induction heap as [|x heap IH]; intros [|p] H; try done.
  - injection H as ->. destruct (Hf d) as [H1 H2]. change (alter f 0%nat (d :: heap)) with (f d :: heap). simpl. rewrite H1, H2. lia.
  - change (alter f (S p) (x :: heap)) with (x :: alter f p heap). cbn [mintedSum foldr].
    fold (mintedSum (alter f p heap)) (mintedSum heap). rewrite (IH p H). lia.
Qed.

Lemma setMinted_heap p v b : heap_ok (l1_heap b) -> heap_ok (l1_heap (setMinted p v b)).
Proof. intros H. unfold heap_ok, setMinted. simpl. apply Forall_alter; [done|]. by intros x _ Hx. Qed.

#[local] Arguments addBalance : simpl never.
#[local] Arguments mintedSum : simpl never.

Lemma MintBalance_cases a v states :
  (0 < v /\ MintBalance a (Some v) states = (Ok tt, addBalance a v states)) \/
  exists err, MintBalance a (Some v) states = (Err err, states).
Proof. unfold MintBalance. rewrite bind_guard. simpl. destruct (Z.leb_spec v 0); [right; by eexists|by left]. Qed.

Lemma findDeposit_cases h b :
  (exists p b1, findDeposit h b = (Ok p, b1) /\ b_deposits b1 !! h = Some p /\ b_l1Bridge b1 = b_l1Bridge b /\ backed b b1) \/
  exists err, findDeposit h b = (Err err, b).
Proof.
  unfold findDeposit. rewrite bind_gets. cbn [id]. destruct (b_deposits b !! h) as [p|] eqn:E; [left; by exists p, b|].
  destruct (GetDeposit h (b_l1Bridge b)) as [p|]; [left|right; by eexists]. eexists p, _. split; [reflexivity|].
  split; [apply lookup_insert_eq|]. split; [done|]. apply backed_same; [done|done|]. by apply insert_subseteq.
Qed.

Lemma checkFinality_state n reader d b : (checkFinality n reader d b).2 = b.
Proof.
  unfold checkFinality. destruct (0 <? _); [|done]. destruct reader; [|done]. rewrite bind_guard. destruct (_ =? 0); [done|].
  rewrite bind_guard. destruct (_ <? _); [done|]. unfold guard_err. by destruct (_ <? _).
Qed.

Lemma isMinted_set p v l1 q : isMinted (l1_heap (setMinted p v l1)) q =
  if decide (p = q) then bool_decide (is_Some (l1_heap l1 !! p)) && v else isMinted (l1_heap l1) q.
Proof.
  unfold isMinted, setMinted. cbn [l1_heap]. case_decide as E.
  - subst q. rewrite list_lookup_alter_eq. by destruct (l1_heap l1 !! p).
  - by rewrite list_lookup_alter_ne.
Qed.

Lemma mintDeposit_cases p d b :
  mintDeposit p d b = (Ok tt, set_states (addBalance (d_Depositor d) (d_Amount d) (b_accountStates b))
                                (set_l1 (setMinted p true (b_l1Bridge b)) b)) \/
  exists err, mintDeposit p d b = (Err err, set_l1 (setMinted p false (setMinted p true (b_l1Bridge b))) b).
Proof.
  destruct (MintBalance_cases (d_Depositor d) (d_Amount d) (b_accountStates b)) as [[_ E]|[err E]]; [left|right; exists err];
    unfold mintDeposit; rewrite bind_modify; unfold mbind, M_bind, attempt, zoom; cbn [b_accountStates set_l1]; by rewrite E.
Qed.

Lemma mintDeposit_backed p d b :
  heapOf b !! p = Some d -> d_Minted d = false ->
  backed b (mintDeposit p d b).2 /\ b_deposits (mintDeposit p d b).2 = b_deposits b /\
  ((mintDeposit p d b).1 = Ok tt -> isMinted (heapOf (mintDeposit p d b).2) p = true).
Proof.
  intros Ed EM. unfold heapOf in Ed. pose proof (setMinted_sum p true (b_l1Bridge b) d Ed) as HS. rewrite EM in HS.
  pose proof (setMinted_heap p true (b_l1Bridge b)) as HK. pose proof (isMinted_set p true (b_l1Bridge b)) as HM.
  assert (Ed' : l1_heap (setMinted p true (b_l1Bridge b)) !! p =
    Some (mkDeposit (d_Hash d) (d_Depositor d) (d_Amount d) (d_Timestamp d) true (d_L1Height d))).
  { unfold setMinted. cbn [l1_heap]. by rewrite list_lookup_alter_eq, Ed. }
  assert (Hp : isMinted (l1_heap (b_l1Bridge b)) p = false) by (unfold isMinted; by rewrite Ed).
  pose proof (setMinted_sum p false _ _ Ed') as HS'. pose proof (setMinted_heap p false (setMinted p true (b_l1Bridge b))) as HK'.
  pose proof (isMinted_set p false (setMinted p true (b_l1Bridge b))) as HM'. cbn [d_Amount d_Minted] in *.
  destruct (mintDeposit_cases p d b) as [E|[err E]]; rewrite E; clear E; revert HS HK HM HS' HK' HM' Ed';
    generalize (setMinted p true (b_l1Bridge b)); intros l1; [|generalize (setMinted p false l1); intros l2];
    intros HS HK HM HS' HK' HM' Ed'; cbn [fst snd]; (split; [split; unfold supplyOf, heapOf; simpl|split; [done|]]).
  - rewrite supply_addBalance. lia.
  - auto.
  - intros q Hq. rewrite HM. case_decide; [|done]. subst q. congruence.
  - done.
  - intros _. unfold heapOf, isMinted. simpl. by rewrite Ed'.
  - lia.
  - auto.
  - intros q Hq. rewrite HM'. case_decide; [subst q; congruence|]. by rewrite HM, decide_False.
  - done.
  - done.
Qed.

(** A deposit is minted once. *)
Lemma mark_minted h b : zoom b_l1Bridge set_l1 (MarkDepositMinted h) b = (Ok tt, b).
Proof. by destruct b. Qed.

Lemma ProcessDeposit_cases reader h b :
  backed b (ProcessDeposit reader h b).2 /\
  ((ProcessDeposit reader h b).1 = Ok tt -> exists p, b_deposits (ProcessDeposit reader h b).2 !! h = Some p /\
     isMinted (heapOf (ProcessDeposit reader h b).2) p = true).
Proof.
  unfold ProcessDeposit. destruct (findDeposit_cases h b) as [(p & b1 & E & Hp & HL & HB)|[err E]];
    [rewrite (bind_Ok _ _ _ _ _ E)|rewrite (bind_Err _ _ _ _ _ E); by split]. clear E.
  rewrite bind_gets. cbn [id]. destruct (l1_heap (b_l1Bridge b1) !! p) as [d|] eqn:Ed; [|by split].
  rewrite bind_guard. destruct (d_Minted d) eqn:EM; [by split|].
  pose proof (checkFinality_state (b_requiredDepositConfirmations b1) reader d b1) as HF.
  unfold mbind, M_bind. destruct (checkFinality _ _ _ b1) as [[[]| | |] b0]; simpl in HF; subst b0; [|by split..].
  destruct (mintDeposit_backed p d b1 Ed EM) as (H1 & H2 & H3).
  destruct (mintDeposit p d b1) as [[[]| | |] b2]; cbn in H1, H2, H3; (split; [|try by intros [=]]);
    try (by etransitivity); rewrite mark_minted; [by etransitivity|].
  intros _. exists p. cbn. rewrite H2. auto.
Qed.
(** Payments touch neither the accounts nor the deposits. *)
Lemma pay_backed w a bi ti bh p : sat backed (zoom b_l1Bridge set_l1 (ProcessWithdrawal sha256 w a bi ti bh p)).
Proof.
  intros b. unfold zoom. destruct (ProcessWithdrawal _ _ _ _ _ _ _ _) as [r l1] eqn:E. apply backed_same; [done| |done]. unfold heapOf. simpl.
  destruct r as [[]| | |]; try (apply ProcessWithdrawal_err in E; [by subst|done]).
  by apply ProcessWithdrawal_inv in E as (a' & q & mp & _ & _ & _ & _ & _ & _ & -> & _).
Qed.

Ltac backed_steps :=
  repeat match goal with
  | |- sat backed (_ ≫= _) => apply sat_bind; [apply _| |intros ?]
  | |- sat backed (attempt _) => apply sat_attempt, pay_backed
  | |- sat backed (modify _) => apply sat_modify; intros ?; by apply backed_same
  | |- sat backed (ofRes _) => intros ?; reflexivity
  | |- sat backed _ => by auto with qvm
  | |- sat backed (if ?b then _ else _) => destruct b
  | |- sat backed (match ?x with _ => _ end) => destruct x
  end.

Lemma payLoop_backed now bi bh ba smt txs : forall i, sat backed (payLoop sha256 now bi bh ba smt i txs).
Proof. induction txs as [|tx txs IH]; intros i; cbn [payLoop]; cbv zeta; backed_steps. Qed.

Lemma batch_backed now batch : sat backed (ProcessFinalizedBatch sha256 now batch).
Proof. unfold ProcessFinalizedBatch; cbv zeta. pose proof payLoop_backed. backed_steps. Qed.

Lemma retry_backed hs : sat backed (RetryPendingWithdrawals sha256 hs).
Proof. induction hs as [|h hs IH]; cbn [RetryPendingWithdrawals]; backed_steps. Qed.

(** The calls of the bridge. *)
Inductive BridgeCall : Type :=
| CallL1 (c : L1Call)
| CallMint (reader : option Z) (depositHash : Hash)
| CallBatch (now : Z) (batch : Batch)
| CallRetry (hashes : list Hash)
| CallRequired (n : Z).

Definition next (b : L2Bridge) (c : BridgeCall) : L2Bridge :=
  match c with
  | CallL1 c => set_l1 (perform c (b_l1Bridge b)).1 b
  | CallMint reader h => (ProcessDeposit reader h b).2
  | CallBatch now batch => (ProcessFinalizedBatch sha256 now batch b).2
  | CallRetry hs => (RetryPendingWithdrawals sha256 hs b).2
  | CallRequired n => SetRequiredDepositConfirmations n b
  end.

Lemma isMinted_app heap d p : isMinted heap p = true -> isMinted (heap ++ d) p = true.
Proof. unfold isMinted. destruct (heap !! p) eqn:E; [|done]. by rewrite (lookup_app_l_Some _ _ _ _ E). Qed.

Lemma perform_heap c b : l1_heap (perform c b).1 = l1_heap b \/
  exists d, l1_heap (perform c b).1 = l1_heap b ++ [d] /\ d_Minted d = false /\ 0 < d_Amount d.
Proof.
  destruct c; cbn [perform]; try by left.
  - destruct (L1Deposit_cases now depositor amount b) as [(a & h & -> & Ha & _ & ->)|[err ->]]; [right|by left].
    eexists. split; [reflexivity|]. done.
  - left. destruct (ProcessWithdrawal _ _ _ _ _ _ _ b) as [[[]| | |] b'] eqn:E;
      try (apply ProcessWithdrawal_err in E; [by subst|done]).
    by apply ProcessWithdrawal_inv in E as (a' & q & mp & _ & _ & _ & _ & _ & _ & -> & _).
Qed.

Lemma next_backed b c : backed b (next b c).
Proof.
  destruct c; cbn [next].
  - destruct (perform_heap c (b_l1Bridge b)) as [E|(d & E & HM & Ha)]; [by apply backed_same|].
    split; unfold supplyOf, heapOf; cbn [b_accountStates b_l1Bridge set_l1 b_deposits]; rewrite ?E.
    + rewrite mintedSum_snoc, HM. lia.
    + intros H. apply Forall_app. split; [done|]. by apply Forall_singleton.
    + intros p. apply isMinted_app.
    + done.
  - apply ProcessDeposit_cases.
  - apply batch_backed.
  - apply retry_backed.
  - by apply backed_same.
Qed.

Lemma calls_backed cs : forall b, backed b (foldl next b cs).
Proof. induction cs as [|c cs IH]; intros b; simpl; [done|]. etransitivity; [apply next_backed|apply IH]. Qed.

Lemma ProcessDeposit_minted reader h b p :
  b_deposits b !! h = Some p -> isMinted (heapOf b) p = true ->
  ProcessDeposit reader h b = (Err ErrDepositAlreadyMinted, b).
Proof.
  intros Hp HM. unfold ProcessDeposit, findDeposit. unfold mbind at 1, M_bind at 1. rewrite bind_gets. cbn [id]. rewrite Hp.
  unfold mret, M_ret. rewrite bind_gets. cbn [id]. unfold isMinted, heapOf in HM. destruct (l1_heap (b_l1Bridge b) !! p); [|done].
  simpl in HM. by rewrite bind_guard, HM.
Qed.

(** ** Finalized batches are paid *)

Section payment.
Context (ba : Address) (bi : Z) (bh : Hash).

(** The withdrawals of a list of transactions, with their places. *)
Definition withdraws (txs : list RollupTransaction) (i : nat) (tx : RollupTransaction) : Prop :=
  txs !! i = Some tx /\ isWithdrawal ba tx = true.

Definition keyOf (i : nat) (tx : RollupTransaction) : Address := ComputeWithdrawalTreeKey sha256 (tx_From tx) (Z.of_nat i).
Definition hashOf (i : nat) (tx : RollupTransaction) : Hash :=
  computeWithdrawalHash sha256 (tx_From tx) (default 0 (tx_Value tx)) bi (Z.of_nat i) bh.

(** No two withdrawals have the same place in the tree or the same hash. *)
Definition distinct (txs : list RollupTransaction) : Prop :=
  forall i j tx ty, withdraws txs i tx -> withdraws txs j ty -> i <> j -> keyOf i tx <> keyOf j ty /\ hashOf i tx <> hashOf j ty.

Definition withdrawn (txs : list RollupTransaction) : Z :=
  foldr (fun tx n => (if isWithdrawal ba tx then default 0 (tx_Value tx) else 0) + n) 0 txs.

Lemma withdraws_here seen tx txs : isWithdrawal ba tx = true -> withdraws (seen ++ tx :: txs) (length seen) tx.
Proof. intros H. split; [by apply list_lookup_middle|done]. Qed.

Lemma withdraws_app txs more i tx : withdraws txs i tx -> withdraws (txs ++ more) i tx /\ (i < length txs)%nat.
Proof. intros [H1 H2]. split; [split; [by apply lookup_app_l_Some|done]|]. by eapply lookup_lt_Some. Qed.

Lemma withdraws_snoc seen x i tx : withdraws (seen ++ [x]) i tx -> withdraws seen i tx \/ (i = length seen /\ x = tx /\ isWithdrawal ba tx = true).
Proof. intros [[H|(H & HE)]%lookup_snoc_Some HW]; [left; by split; [apply H|]|right]. by subst. Qed.

Lemma buildLoop_complete txs : forall seen smt L t,
  smt_ok sha256 smt L -> distinct (seen ++ txs) ->
  (forall i tx, withdraws seen i tx -> exists h, L !! keyOf i tx = Some h /\
     ComputeWithdrawalLeafHash sha256 (tx_From tx) (tx_Value tx) (Z.of_nat i) = Ok h) ->
  buildLoop sha256 ba (len seen) txs smt = Ok t ->
  exists L', smt_ok sha256 t L' /\
    forall i tx, withdraws (seen ++ txs) i tx -> exists h, L' !! keyOf i tx = Some h /\
      ComputeWithdrawalLeafHash sha256 (tx_From tx) (tx_Value tx) (Z.of_nat i) = Ok h.
Proof.
  induction txs as [|x txs IH]; intros seen smt L t HT HD HL; cbn [buildLoop].
  { intros [= <-]. exists L. by rewrite app_nil_r. }
  assert (Hlen : len seen + 1 = len (seen ++ [x])) by (rewrite len_app; done). rewrite Hlen. clear Hlen.
  assert (HA : seen ++ x :: txs = (seen ++ [x]) ++ txs) by by rewrite <- app_assoc. pose proof HD as HD'. rewrite HA in HD'.
  rewrite HA. destruct (isWithdrawal ba x) eqn:EW.
  - destruct (ComputeWithdrawalLeafHash sha256 (tx_From x) (tx_Value x) (len seen)) as [leaf| | |] eqn:EL; try done.
    apply (IH (seen ++ [x]) _ (<[keyOf (length seen) x := leaf]> L)); [by apply insertLocked_ok|done|].
    intros i tx [Hi|(-> & <- & _)]%withdraws_snoc; [|exists leaf; split; [apply lookup_insert_eq|exact EL]].
    destruct (HL i tx Hi) as (h & H1 & H2). exists h. split; [|done]. rewrite lookup_insert_ne; [done|].
    destruct (withdraws_app seen (x :: txs) i tx Hi) as [Hi' Hlt].
    apply (HD (length seen) i x tx); [by apply withdraws_here|done|lia].
  - apply (IH (seen ++ [x]) smt L); [done|done|]. intros i tx [Hi|(-> & <- & HW)]%withdraws_snoc; [by apply HL|congruence].
Qed.

Lemma withdraws_value txs i tx : withdraws txs i tx -> exists v, tx_Value tx = Some v /\ 0 < v.
Proof. intros [_ H]. destruct (isWithdrawal_inv ba tx H) as (v & _ & Hv & Hp). by exists v. Qed.

(** The proof the tree gives for a leaf it has is accepted. *)
Lemma pay_ok t L l1 w v i key h :
  smt_ok sha256 t L -> L !! key = Some h -> ComputeWithdrawalLeafHash sha256 w (Some v) i = Ok h -> 0 < v ->
  l1_withdrawalRoots l1 !! bi = Some (root t) -> v <= l1_liquidity l1 ->
  computeWithdrawalHash sha256 w v bi i bh ∉ l1_withdrawals l1 ->
  ProcessWithdrawal sha256 w (Some v) bi i bh (Some (mkWithdrawalProof (root t) (Some (Prove sha256 key t)) key)) l1 =
    (Ok tt, release (computeWithdrawalHash sha256 w v bi i bh) v l1).
Proof.
  intros HT HL Hleaf Hv HR Hliq Hnew. apply (ProcessWithdrawal_intro _ _ _ _ _ _ (Prove sha256 key t)); try done.
  - unfold Prove, SparseMerkleTreeDepth. cbn [LeafHash]. rewrite (ok_leaves sha256 t L HT), HL. exact Hleaf.
  - by apply (Verify_Prove sha256 t L).
Qed.

Lemma withdrawn_nonneg txs : 0 <= withdrawn txs.
Proof.
  induction txs as [|y txs IH]; simpl; [done|]. fold (withdrawn txs). destruct (isWithdrawal ba y) eqn:E; [|lia].
  destruct (isWithdrawal_inv ba y E) as (u & _ & -> & Hu). simpl. lia.
Qed.

(** The withdrawal [i] is recorded as paid. *)
Definition isPaid (b : L2Bridge) (i : nat) (tx : RollupTransaction) : Prop :=
  exists w, b_withdrawals b !! hashOf i tx = Some w /\ w_Processed w = true.

(** The withdrawal [i] has not been paid. *)
Definition isNew (b : L2Bridge) (i : nat) (tx : RollupTransaction) : Prop :=
  (hashOf i tx ∉ l1_withdrawals (b_l1Bridge b)) /\ default false (w_Processed <$> b_withdrawals b !! hashOf i tx) = false.

Lemma payLoop_ok now t L txs : forall seen b,
  smt_ok sha256 t L -> distinct (seen ++ txs) ->
  (forall i tx, withdraws (seen ++ txs) i tx -> exists h, L !! keyOf i tx = Some h /\
     ComputeWithdrawalLeafHash sha256 (tx_From tx) (tx_Value tx) (Z.of_nat i) = Ok h) ->
  l1_withdrawalRoots (b_l1Bridge b) !! bi = Some (root t) -> withdrawn txs <= l1_liquidity (b_l1Bridge b) ->
  (forall i tx, withdraws seen i tx -> isPaid b i tx) ->
  (forall i tx, withdraws (seen ++ txs) i tx -> (length seen <= i)%nat -> isNew b i tx) ->
  exists b', payLoop sha256 now bi bh ba t (len seen) txs b = (Ok tt, b') /\
    (forall i tx, withdraws (seen ++ txs) i tx -> isPaid b' i tx) /\
    l1_liquidity (b_l1Bridge b') = l1_liquidity (b_l1Bridge b) - withdrawn txs.
Proof.
  induction txs as [|x txs IH]; intros seen b HT HD HL HR Hliq Hpaid Hnew; cbn [payLoop withdrawn foldr] in *.
  { exists b. rewrite app_nil_r. split; [done|]. split; [done|lia]. }
  fold (withdrawn txs) in *. assert (Hlen : len seen + 1 = len (seen ++ [x])) by (rewrite len_app; done).
  assert (HA : seen ++ x :: txs = (seen ++ [x]) ++ txs) by by rewrite <- app_assoc.
  assert (Hlt : length (seen ++ [x]) = S (length seen)) by (rewrite length_app; simpl; lia).
  destruct (isWithdrawal ba x) eqn:EW.
  - pose proof (withdraws_here seen x txs EW) as Hx. destruct (HL _ _ Hx) as (h & Hk & Hleaf).
    destruct (withdraws_value _ _ _ Hx) as (v & Hv & Hpos). destruct (Hnew _ _ Hx ltac:(lia)) as [HN1 HN2].
    pose proof (withdrawn_nonneg txs) as Hval.
    unfold hashOf in HN1, HN2. rewrite Hv in *. change (default 0 (Some v)) with v in *. unfold mbind at 1, M_bind at 1. rewrite bind_gets. cbn [id].
    change (Z.of_nat (length seen)) with (len seen) in *. rewrite HN2. cbv zeta. unfold mbind at 1, M_bind at 1, attempt, zoom.
    unfold keyOf in Hk. rewrite (pay_ok t L (b_l1Bridge b) _ v (len seen) _ h) by (done || lia).
    unfold modify at 1. rewrite Hlen, HA. set (w := mkWithdrawal _ _ _ _ _ _ _ _ _). set (b1 := set_withdrawals _ _).
    assert (Hold : forall i tx, withdraws seen i tx \/ (withdraws (seen ++ x :: txs) i tx /\ (S (length seen) <= i)%nat) ->
      hashOf i tx <> hashOf (length seen) x).
    { intros i tx [Hi|[Hi Hi']]; [destruct (withdraws_app seen (x :: txs) i tx Hi) as [Hi1 Hi2]|]; apply (HD i (length seen)); done || lia. }
    assert (Hh : hashOf (length seen) x = computeWithdrawalHash sha256 (tx_From x) v bi (len seen) bh) by (unfold hashOf; by rewrite Hv).
    destruct (IH (seen ++ [x]) b1) as (b' & E & HP & HQ); rewrite <- ?HA; try done.
    + unfold b1. simpl. lia.
    + intros i tx [Hi|(-> & <- & _)]%withdraws_snoc.
      * destruct (Hpaid i tx Hi) as (w0 & Hw0 & Hp0). exists w0. split; [|done]. unfold b1. simpl. rewrite <- Hh.
        rewrite lookup_insert_ne; [done|]. apply not_eq_sym, Hold. by left.
      * exists w. split; [|done]. unfold b1. simpl. rewrite <- Hh. apply lookup_insert_eq.
    + intros i tx Hi Hge. rewrite Hlt in Hge. pose proof (Hold i tx (or_intror (conj Hi Hge))) as Hne.
      destruct (Hnew i tx Hi ltac:(lia)) as [N1 N2]. split; unfold b1; simpl; rewrite <- Hh.
      * set_solver.
      * by rewrite lookup_insert_ne.
    + exists b'. rewrite <- HA in HP. split; [exact E|]. split; [done|]. rewrite HQ. unfold b1. simpl. lia.
  - rewrite bind_ret. rewrite Hlen. rewrite HA in *. apply (IH (seen ++ [x]) b); try done.
    + intros i tx [Hi|(-> & <- & HW)]%withdraws_snoc; [by apply Hpaid|congruence].
    + intros i tx Hi Hge. apply Hnew; [done|]. lia.
Qed.

Lemma ProcessFinalizedBatch_ok now batch b t :
  bt_Index batch = bi -> bt_BatchHash batch = bh -> b_bridgeAddress b = ba -> bt_PostStateRoot batch <> zero_array 32 ->
  let txs := bt_Transactions batch in
  buildWithdrawalSMT sha256 txs ba = Ok t -> distinct txs -> (forall i tx, withdraws txs i tx -> isNew b i tx) ->
  withdrawn txs <= l1_liquidity (b_l1Bridge b) ->
  exists b', ProcessFinalizedBatch sha256 now batch b = (Ok (root t), b') /\
    (forall i tx, withdraws txs i tx -> isPaid b' i tx) /\
    l1_liquidity (b_l1Bridge b') = l1_liquidity (b_l1Bridge b) - withdrawn txs.
Proof.
  intros Hi Hb Ha Hs txs HB HD HN Hliq. destruct (buildLoop_complete txs [] _ ∅ t (new_ok sha256) HD) as (L & HT & HL); [|exact HB|].
  { by intros i tx [HX _]. }
  unfold ProcessFinalizedBatch. rewrite bind_gets. cbn [id]. rewrite bool_decide_eq_false_2 by done. rewrite bind_modify, Ha.
  unfold mbind at 1, M_bind at 1, ofRes. fold txs. rewrite HB. cbv zeta. rewrite bind_modify, Hi, Hb.
  set (b1 := set_l1 (RecordWithdrawalRoot _ _ _) _).
  destruct (payLoop_ok now t L txs [] b1 HT HD HL) as (b' & E & HP & HQ).
  - unfold b1. simpl. apply lookup_insert_eq.
  - exact Hliq.
  - by intros i tx [HX _].
  - intros i tx Hx _. exact (HN i tx Hx).
  - exists b'. change (len []) with 0 in E. rewrite (bind_Ok _ _ _ _ _ E). split; [done|]. split; [exact HP|exact HQ].
Qed.
End payment.
End spec.
End BridgeSpec.
