(* ===== verification/RollupTheorems.v ===== *)
(** * Theorems about the rollup's state commitment and bridge

    They hold for every hash function: where a theorem relies on its quality, the
    alternative is a collision, two of the strings that are hashed in the theorem's
    own situation, which it names, with the same hash. Each theorem is
    applied with a small hash function that can be evaluated. *)

From Stdlib Require Import ZArith Lia.
From Stdlib.Strings Require Import Byte.
From stdpp Require Import base list countable gmap strings numbers.
From S2P Require Import Prelude Stack StateDB Rollup SparseMerkle MerkleSpec Bridge BridgeSpec.

Import SparseMerkle MerkleSpec Bridge BridgeSpec.

(** ** Outcomes *)

Definition okOr {A} (d : A) (r : res A) : A := match r with Ok a => a | _ => d end.
Definition isOk {A} (r : res A) : bool := match r with Ok _ => true | _ => false end.

Lemma okOr_Ok {A} (d : A) (r : res A) : isOk r = true -> r = Ok (okOr d r).
Proof. by destruct r. Qed.

(** ** A small rollup *)

Module Sample.

(** The first 20 and the last 12 bytes, padded with zeros. *)
Lemma length_ends (l : list byte) : length (take 20 (l ++ replicate 20 x00) ++ drop (length l) (replicate 12 x00 ++ l)) = 32%nat.
Proof. rewrite length_app, length_take, length_drop, !length_app, !length_replicate. lia. Qed.

Definition hash (l : list byte) : Hash := mk_array _ (length_ends l).

Definition addr (z : Z) : Address := array_of_Z 20 z.
Definition word (z : Z) : Hash := array_of_Z 32 z.

Definition entries : list (Address * Hash) := [(addr 5, word 50); (addr (2 ^ 159), word 60); (addr 5, word 51)].

Definition account (balance : Z) : RollupAccount :=
  mkRollupAccount 1 balance (word 0) {[word 1 := word 2]} [].

Definition states : gmap Address RollupAccount := <[addr 1 := account 10]> {[addr 2 := account 20]}.

Definition bridgeAddress : Address := addr 99.

(** Two withdrawals and a transfer. *)
Definition tx (from to value : Z) : RollupTransaction :=
  mkTx 0 1 21000 (Some (addr to)) (Some value) [] (addr from) (word 0) [] 1 [].
Definition txs : list RollupTransaction := [tx 1 99 30; tx 2 3 5; tx 2 99 40].

Definition batch : Batch :=
  mkBatch 7 (word 1) (word 2) txs 3 0 0 BatchStatusFinalized (word 77) (word 0) 0 0 0 0 false 0 (word 0).

Definition tree : SparseMerkleTree :=
  okOr (NewSparseMerkleTree hash) (buildWithdrawalSMT hash txs bridgeAddress).

(** L1 after a deposit of 100, with the withdrawal root of the batch. *)
Definition l1 : memoryL1Bridge := RecordWithdrawalRoot 7 (root tree) (L1Deposit hash 0 (addr 1) (Some 100) NewMemoryL1Bridge).2.

Definition proof : MerkleWithdrawalProof :=
  let key := ComputeWithdrawalTreeKey hash (addr 1) 0 in mkWithdrawalProof (root tree) (Some (Prove hash key tree)) key.

Definition bridge : L2Bridge := NewL2Bridge (SetHeight 1 l1) ∅ ∅ bridgeAddress.

Definition depositHash : Hash := computeDepositHash hash (addr 1) 100 0.
End Sample.

Section theorems.
Context (sha256 : list byte -> Hash).

(** C31: the sparse tree computes the root of the full binary Merkle tree of
    height 160 over its leaves, whatever the leaves and the order in which they
    were set, and answers the leaves that were set last. In particular the order
    in which a Go map is ranged over does not matter. *)
Theorem smt_refines_merkle (entries : list (Address * Hash)) :
  let t := BatchInsert sha256 entries (NewSparseMerkleTree sha256) in
  root t = merkleRoot sha256 (setLeaves entries ∅) /\
  (forall a, Get a t = setLeaves entries ∅ !! a) /\
  (forall m, entries ≡ₚ map_to_list m -> root t = merkleRoot sha256 m).
Proof.
  cbv zeta. pose proof (BatchInsert_ok sha256 entries _ _ (new_ok sha256)) as HT. split; [apply (ok_root _ _ _ HT)|].
  split; [intros a; apply (ok_leaves _ _ _ HT)|]. intros m Hm. rewrite (ok_root _ _ _ HT), (setLeaves_map m) by done.
  by rewrite map_union_empty.
Qed.

(** C32: the proof the tree gives for an address verifies against its root and
    shows the leaf of the address, or the empty leaf if it has none; and it is the
    only proof that verifies, unless two of the strings hashed to check the two
    proofs have the same hash. *)
Theorem merkle_proofs_exact (entries : list (Address * Hash)) (addr : Address) :
  let t := BatchInsert sha256 entries (NewSparseMerkleTree sha256) in
  VerifyMerkleProof sha256 addr (Some (Prove sha256 addr t)) (root t) = true /\
  LeafHash (Prove sha256 addr t) = default (sha256 []) (setLeaves entries ∅ !! addr) /\
  forall p, VerifyMerkleProof sha256 addr (Some p) (root t) = true ->
    p = Prove sha256 addr t \/
    collision sha256 (fun x => x ∈ proofInputs sha256 addr p \/ x ∈ proofInputs sha256 addr (Prove sha256 addr t)).
Proof.
  cbv zeta. pose proof (BatchInsert_ok sha256 entries _ _ (new_ok sha256)) as HT. split; [by eapply Verify_Prove|].
  split; [|intros p; by eapply verified_proof]. unfold Prove, SparseMerkleTreeDepth. cbn [LeafHash].
  by rewrite (ok_leaves _ _ _ HT).
Qed.

(** C30: a state root commits to the whole state: two sets of accounts with the
    same root have the same addresses with the same nonces, balances, code hashes
    and storage, unless two of the strings hashed to compute the two roots have
    the same hash. *)
Theorem state_root_commits (S1 S2 : gmap Address RollupAccount)
    (H1 : map_Forall (fun _ => account_ok) S1) (H2 : map_Forall (fun _ => account_ok) S2)
    (HE : computeStateRoot sha256 S1 = computeStateRoot sha256 S2) :
  committed <$> S1 = committed <$> S2 \/ collision sha256 (fun x => stateInputs sha256 S1 x \/ stateInputs sha256 S2 x).
Proof. by apply state_root_inj. Qed.

(** C29: L1 pays a withdrawal only if it is in the batch: when the root recorded
    for a batch is that of the withdrawal tree of its transactions and a payment
    succeeds, whatever the proof, one of these transactions sends this amount from
    this account to the bridge at this index (modulo 2^32, since the leaf has 32
    bits for it), unless two of the strings hashed for this payment have the same
    hash: those of the proof that was checked, of the tree's own proof for its key
    and of the leaves. *)
Theorem paid_withdrawal_was_committed (txs : list RollupTransaction) (ba : Address) (t : SparseMerkleTree)
    (withdrawer : Address) (amount : option Z) (batchIndex txIndex : Z) (batchHash : Hash)
    (proof : option MerkleWithdrawalProof) (b b' : memoryL1Bridge)
    (HB : buildWithdrawalSMT sha256 txs ba = Ok t) (HR : l1_withdrawalRoots b !! batchIndex = Some (root t))
    (HE : ProcessWithdrawal sha256 withdrawer amount batchIndex txIndex batchHash proof b = (Ok tt, b')) :
  (exists i tx, txs !! i = Some tx /\ tx_To tx = Some ba /\ tx_From tx = withdrawer /\ tx_Value tx = amount /\
     Z.of_nat i mod 2 ^ 32 = txIndex mod 2 ^ 32) \/
  exists p mp, proof = Some p /\ mw_Proof p = Some mp /\
    collision sha256 (claimInputs sha256 txs ba t (mw_TreeKey p) mp withdrawer amount txIndex).
Proof.
  apply ProcessWithdrawal_inv in HE as (a & p & mp & -> & Ha & -> & HP & _ & _ & _ & HR' & Hleaf & HV).
  rewrite HR in HR'. injection HR' as HR'. rewrite <- HR' in HV.
  destruct (verified_commits sha256 txs ba t _ mp withdrawer a txIndex HB (Z.lt_le_incl _ _ Ha) Hleaf HV); [by left|right].
  by exists p, mp.
Qed.

(** The ledger of L1 balances: after any calls, what L1 holds is what it held,
    plus the deposits, less the payments, and never negative; and it has paid
    each withdrawal hash at most once, and none it had paid before. *)
Theorem l1_ledger_balances (cs : list L1Call) (b : memoryL1Bridge) (Hb : 0 <= l1_liquidity b) :
  let '(b', evs) := history sha256 cs b in
  l1_liquidity b' = l1_liquidity b + deposited evs - released evs /\ 0 <= l1_liquidity b' /\
  NoDup (paid evs) /\ Forall (.∉ l1_withdrawals b) (paid evs).
Proof.
  destruct (history_ledger sha256 cs b) as [H1 H2 _ H4 H5]. destruct (history sha256 cs b) as [b' evs].
  split; [done|]. split; [by apply H2|]. done.
Qed.

(** L2 mints what was deposited and no deposit twice: over any calls of the
    bridge the sum of the L2 balances grows by exactly the deposits newly marked
    as minted, which are part of what was deposited; and once a deposit was
    minted, every later attempt to mint it fails and changes nothing. *)
Theorem minted_once_and_backed (cs : list BridgeCall) (b : L2Bridge) (HH : heap_ok (heapOf b)) :
  let b' := foldl (next sha256) b cs in
  supplyOf b' - supplyOf b = mintedSum (heapOf b') - mintedSum (heapOf b) /\
  mintedSum (heapOf b') <= depositSum (heapOf b') /\
  forall reader reader' h b0, ProcessDeposit reader h b0 = (Ok tt, b) ->
    ProcessDeposit reader' h b' = (Err ErrDepositAlreadyMinted, b').
Proof.
  cbv zeta. destruct (calls_backed sha256 cs b) as [H1 H2 H3 H4]. split; [lia|]. split; [by apply mintedSum_le, H2|].
  intros reader reader' h b0 E. destruct (ProcessDeposit_cases reader h b0) as [_ HM]. rewrite E in HM.
  destruct (HM eq_refl) as (p & Hp & HM'). apply (ProcessDeposit_minted _ _ _ p); [|by apply H3].
  by eapply lookup_weaken.
Qed.

(** A finalized batch is paid: if L1 holds enough, no withdrawal of the batch
    has been paid, and no two of them fall on the same place of the tree or have
    the same hash, then processing the batch pays all of them: each is recorded
    as processed, and L1 holds their sum less. *)
Theorem finalized_batch_is_paid (now : Z) (batch : Batch) (b : L2Bridge) (t : SparseMerkleTree)
    (Hs : bt_PostStateRoot batch <> zero_array 32)
    (HB : buildWithdrawalSMT sha256 (bt_Transactions batch) (b_bridgeAddress b) = Ok t)
    (HD : distinct sha256 (b_bridgeAddress b) (bt_Index batch) (bt_BatchHash batch) (bt_Transactions batch))
    (HN : forall i tx, withdraws (b_bridgeAddress b) (bt_Transactions batch) i tx ->
            isNew sha256 (bt_Index batch) (bt_BatchHash batch) b i tx)
    (HL : withdrawn (b_bridgeAddress b) (bt_Transactions batch) <= l1_liquidity (b_l1Bridge b)) :
  exists b', ProcessFinalizedBatch sha256 now batch b = (Ok (root t), b') /\
    (forall i tx, withdraws (b_bridgeAddress b) (bt_Transactions batch) i tx ->
       isPaid sha256 (bt_Index batch) (bt_BatchHash batch) b' i tx) /\
    l1_liquidity (b_l1Bridge b') = l1_liquidity (b_l1Bridge b) - withdrawn (b_bridgeAddress b) (bt_Transactions batch).
Proof. by apply (ProcessFinalizedBatch_ok sha256 _ (bt_Index batch) (bt_BatchHash batch)). Qed.

(** The batch hash a withdrawal is submitted with is not checked: after a
    payment, the same withdrawal with the same proof and any other batch hash,
    whose withdrawal hash is new, is paid again. *)
Theorem replayed_withdrawal_is_paid_again (withdrawer : Address) (a batchIndex txIndex : Z) (bh bh' : Hash)
    (proof : option MerkleWithdrawalProof) (b b1 : memoryL1Bridge)
    (HE : ProcessWithdrawal sha256 withdrawer (Some a) batchIndex txIndex bh proof b = (Ok tt, b1))
    (HL : a <= l1_liquidity b1)
    (HN : computeWithdrawalHash sha256 withdrawer a batchIndex txIndex bh' ∉ l1_withdrawals b1) :
  exists b2, ProcessWithdrawal sha256 withdrawer (Some a) batchIndex txIndex bh' proof b1 = (Ok tt, b2) /\
    l1_liquidity b2 = l1_liquidity b - 2 * a.
Proof.
  apply ProcessWithdrawal_inv in HE as (a' & p & mp & [= <-] & Ha & -> & Hmp & _ & _ & -> & HR & Hleaf & HV).
  eexists. split; [by apply (ProcessWithdrawal_intro sha256 _ _ _ _ _ p mp)|]. simpl. lia.
Qed.
End theorems.

(** ** The theorems at work *)

Lemma tree_built : buildWithdrawalSMT Sample.hash Sample.txs Sample.bridgeAddress = Ok Sample.tree.
Proof. apply okOr_Ok. vm_compute. reflexivity. Qed.

(** Setting a leaf twice keeps the second value. *)
Lemma smt_refines_merkle_witness :
  Get (Sample.addr 5) (BatchInsert Sample.hash Sample.entries (NewSparseMerkleTree Sample.hash)) = Some (Sample.word 51).
Proof.
  rewrite (proj1 (proj2 (smt_refines_merkle Sample.hash Sample.entries)) (Sample.addr 5)). vm_compute. reflexivity.
Defined.

(** A proof of absence. *)
Lemma merkle_proofs_exact_witness :
  let t := BatchInsert Sample.hash Sample.entries (NewSparseMerkleTree Sample.hash) in
  VerifyMerkleProof Sample.hash (Sample.addr 6) (Some (Prove Sample.hash (Sample.addr 6) t)) (root t) = true /\
  LeafHash (Prove Sample.hash (Sample.addr 6) t) = Sample.hash [].
Proof.
  destruct (merkle_proofs_exact Sample.hash Sample.entries (Sample.addr 6)) as (H1 & H2 & _). split; [exact H1|].
  etransitivity; [exact H2|]. vm_compute. reflexivity.
Defined.

(** The order in which the accounts were added does not matter for the root. *)
Lemma state_root_commits_witness :
  let S2 := <[Sample.addr 2 := Sample.account 20]> {[Sample.addr 1 := Sample.account 10]} in
  computeStateRoot Sample.hash Sample.states = computeStateRoot Sample.hash S2 /\
  (committed <$> Sample.states = committed <$> S2 \/ collision Sample.hash (fun x => stateInputs Sample.hash Sample.states x \/ stateInputs Sample.hash S2 x)).
Proof.
  set (S2 := <[Sample.addr 2 := Sample.account 20]> {[Sample.addr 1 := Sample.account 10]}). cbv zeta.
  assert (E : computeStateRoot Sample.hash Sample.states = computeStateRoot Sample.hash S2)
    by (apply array_eq; vm_compute; reflexivity).
  split; [exact E|]. apply (state_root_commits Sample.hash Sample.states S2); [| |exact E].
  - apply map_Forall_insert_2; [|apply map_Forall_singleton]; split; [unfold is_u64; simpl; lia|simpl; lia|unfold is_u64; simpl; lia|simpl; lia].
  - apply map_Forall_insert_2; [|apply map_Forall_singleton]; split; [unfold is_u64; simpl; lia|simpl; lia|unfold is_u64; simpl; lia|simpl; lia].
Defined.

Lemma fst_Ok {A S} (x : res A * S) a : x.1 = Ok a -> x = (Ok a, x.2).
Proof. destruct x. simpl. by intros ->. Qed.

Definition payment : res unit * memoryL1Bridge :=
  ProcessWithdrawal Sample.hash (Sample.addr 1) (Some 30) 7 0 (Sample.word 77) (Some Sample.proof) Sample.l1.

Lemma payment_Ok : payment = (Ok tt, payment.2).
Proof. apply fst_Ok. vm_compute. reflexivity. Qed.

Lemma paid_withdrawal_was_committed_witness :
  (exists i tx, Sample.txs !! i = Some tx /\ tx_To tx = Some Sample.bridgeAddress /\ tx_From tx = Sample.addr 1 /\
     tx_Value tx = Some 30 /\ Z.of_nat i mod 2 ^ 32 = 0 mod 2 ^ 32) \/
  exists p mp, Some Sample.proof = Some p /\ mw_Proof p = Some mp /\
    collision Sample.hash (claimInputs Sample.hash Sample.txs Sample.bridgeAddress Sample.tree (mw_TreeKey p) mp (Sample.addr 1) (Some 30) 0).
Proof.
  refine (paid_withdrawal_was_committed Sample.hash Sample.txs Sample.bridgeAddress Sample.tree (Sample.addr 1) (Some 30) 7 0
    (Sample.word 77) (Some Sample.proof) Sample.l1 payment.2 tree_built _ payment_Ok).
  apply lookup_insert_eq.
Defined.

(** A deposit, a payment, and the same payment again. *)
Definition calls : list L1Call :=
  let w := CallWithdraw (Sample.addr 1) (Some 30) 7 0 (Sample.word 77) (Some Sample.proof) in
  [CallDeposit 0 (Sample.addr 2) (Some 5); w; w].

Lemma l1_ledger_balances_witness :
  deposited (history Sample.hash calls Sample.l1).2 = 5 /\ released (history Sample.hash calls Sample.l1).2 = 30 /\
  l1_liquidity (history Sample.hash calls Sample.l1).1 = l1_liquidity Sample.l1 + 5 - 30.
Proof.
  assert (H : 0 <= l1_liquidity Sample.l1) by (vm_compute; discriminate).
  pose proof (l1_ledger_balances Sample.hash calls Sample.l1 H) as HL.
  assert (HD : deposited (history Sample.hash calls Sample.l1).2 = 5) by (vm_compute; reflexivity).
  assert (HR : released (history Sample.hash calls Sample.l1).2 = 30) by (vm_compute; reflexivity).
  destruct (history Sample.hash calls Sample.l1) as [b' evs]. cbn [fst snd] in *. rewrite HD, HR in HL.
  split; [exact HD|]. split; [exact HR|]. exact (proj1 HL).
Defined.

(** The state after the deposit of the sample was minted. *)
Definition minted : res unit * L2Bridge := ProcessDeposit None Sample.depositHash Sample.bridge.

Lemma minted_once_and_backed_witness :
  supplyOf minted.2 = 100 /\
  ProcessDeposit None Sample.depositHash minted.2 = (Err ErrDepositAlreadyMinted, minted.2).
Proof.
  assert (HM : minted = (Ok tt, minted.2)) by (apply fst_Ok; vm_compute; reflexivity).
  assert (HH : heap_ok (heapOf minted.2)) by (repeat constructor).
  assert (HS : supplyOf minted.2 = 100) by (vm_compute; reflexivity).
  destruct (minted_once_and_backed Sample.hash [] minted.2 HH) as (_ & _ & H).
  split; [exact HS|]. exact (H None None Sample.depositHash Sample.bridge HM).
Defined.

Lemma sample_distinct : distinct Sample.hash Sample.bridgeAddress 7 (Sample.word 77) Sample.txs.
Proof.
  intros [|[|[|i]]] [|[|[|j]]] tx ty [Hi Wi] [Hj Wj] Hne; try done; injection Hi as <-; injection Hj as <-; try done;
    (split; intros H; apply (f_equal bytes_of) in H; revert H; vm_compute; discriminate).
Qed.

Lemma sample_new i tx : withdraws Sample.bridgeAddress Sample.txs i tx -> isNew Sample.hash 7 (Sample.word 77) Sample.bridge i tx.
Proof. intros _. split; [apply not_elem_of_empty|]. simpl. by rewrite lookup_empty. Qed.

Lemma finalized_batch_is_paid_witness :
  exists b', ProcessFinalizedBatch Sample.hash 0 Sample.batch Sample.bridge = (Ok (root Sample.tree), b') /\
    l1_liquidity (b_l1Bridge b') = 100 - 70.
Proof.
  assert (HL : withdrawn Sample.bridgeAddress Sample.txs <= l1_liquidity (b_l1Bridge Sample.bridge)) by (vm_compute; discriminate).
  assert (Hs : bt_PostStateRoot Sample.batch <> zero_array 32).
  { intros H. apply (f_equal bytes_of) in H. revert H. vm_compute. discriminate. }
  destruct (finalized_batch_is_paid Sample.hash 0 Sample.batch Sample.bridge Sample.tree Hs tree_built sample_distinct sample_new HL)
    as (b' & E & _ & H).
  exists b'. split; [exact E|]. rewrite H. vm_compute. reflexivity.
Defined.

Lemma replayed_withdrawal_is_paid_again_witness :
  exists b2, ProcessWithdrawal Sample.hash (Sample.addr 1) (Some 30) 7 0 (Sample.word 78) (Some Sample.proof) payment.2 = (Ok tt, b2) /\
    l1_liquidity b2 = 40.
Proof.
  destruct (replayed_withdrawal_is_paid_again Sample.hash (Sample.addr 1) 30 7 0 (Sample.word 77) (Sample.word 78)
    (Some Sample.proof) Sample.l1 payment.2 payment_Ok) as (b2 & E & H).
  - vm_compute. discriminate.
  - apply (bool_decide_eq_false_1 _). vm_compute. reflexivity.
  - exists b2. split; [exact E|]. rewrite H. vm_compute. reflexivity.
Defined.
