(* ===== verification/RollupConfig.v ===== *)
(** * Configuration and errors of the rollup (rollup/config.go, rollup/rollup.go)

    Durations are nanoseconds. The size of the state history is computed with
    64-bit floating-point numbers, which Go rounds to nearest as IEEE 754 says;
    the operations are those of [SpecFloat]. *)

From Stdlib Require Import ZArith Lia SpecFloat.
From Stdlib.Strings Require Import Byte.
From stdpp Require Import base list countable gmap strings numbers.
From S2P Require Import Prelude Stack.

(** ** Errors *)

Definition ErrInvalidChainID : error := ErrErrorf "invalid chain ID".
Definition ErrInvalidBatchSize : error := ErrErrorf "invalid batch size".
Definition ErrInvalidBlockTime : error := ErrErrorf "invalid block time".
Definition ErrInvalidChallengePeriod : error := ErrErrorf "invalid challenge period".
Definition ErrInvalidGasLimit : error := ErrErrorf "invalid gas limit".
Definition ErrBatchFull : error := ErrErrorf "batch is full".
Definition ErrInsufficientTxs : error := ErrErrorf "insufficient transactions to build batch".
Definition ErrBatchNotFound : error := ErrErrorf "batch not found".
Definition ErrBatchAlreadySubmitted : error := ErrErrorf "batch already submitted".
Definition ErrBatchNotSubmitted : error := ErrErrorf "batch not submitted".
Definition ErrChallengePeriodNotOver : error := ErrErrorf "challenge period not over".
Definition ErrRollupNotRunning : error := ErrErrorf "rollup not running".
Definition ErrRollupAlreadyRunning : error := ErrErrorf "rollup already running".
Definition ErrInvalidStateTransition : error := ErrErrorf "invalid state transition".
Definition ErrFraudProofInvalid : error := ErrErrorf "invalid fraud proof".
Definition ErrBatchChallenged : error := ErrErrorf "batch has a fraud proof - finalization blocked".

(** ** Configuration *)

Record RollupConfig : Type := mkConfig {
  cfg_ChainID : Z;
  cfg_MaxBatchSize : Z;
  cfg_MaxBatchBytes : Z;
  cfg_BlockTime : Z;
  cfg_ChallengePeriod : Z;
  cfg_MaxTxPerBatch : Z;
  cfg_MinTxPerBatch : Z;
  cfg_BatchSubmissionTimeout : Z;
  cfg_L1ChainID : Z;
  cfg_L1BridgeAddress : Address;
  cfg_L1BridgeContractAddress : Address;
  cfg_BatchInboxAddress : Address;
  cfg_GenesisStateRoot : Hash;
  cfg_BaseFee : option Z;
  cfg_GasLimit : Z;
  cfg_FinalizeCheckInterval : Z;
  cfg_SequencerTimeout : Z;
  cfg_BridgeAddress : Address
}.

Definition Second : Z := 1000000000.

Definition DefaultRollupConfig : RollupConfig :=
  mkConfig 1670 1000 (128 * 1024) (2 * Second) (7 * 24 * 3600 * Second) 500 1 (600 * Second) 1668
    (zero_array 20) (zero_array 20) (zero_array 20) (zero_array 32) (Some 1000000000) 30000000 (30 * Second) 3
    (zero_array 20).

(** ** The size of the state history *)

Definition minStateHistoryEntries : Z := 1000.
Definition maxStateHistoryEntries : Z := 500000.

(** [float64(z)] *)
Definition float64 (z : Z) : spec_float := binary_normalize 53 1024 z 0 false.

(** The constants 1.25 and 0.999, correctly rounded. *)
Definition stateHistorySafetyMargin : spec_float := SFdiv 53 1024 (float64 5) (float64 4).
Definition ceilRounding : spec_float := SFdiv 53 1024 (float64 999) (float64 1000).

(** [int(f)] drops the fraction; outside the range of [int] the processor answers
    the smallest one. *)
Definition int_of_float (f : spec_float) : Z :=
  let t :=
    match f with
    | S754_finite s m e =>
        let v := if 0 <=? e then Zpos m * 2 ^ e else Zpos m / 2 ^ (- e) in if s then - v else v
    | S754_zero _ => 0
    | _ => - 2 ^ 63
    end in
  if (- 2 ^ 63 <=? t) && (t <? 2 ^ 63) then t else - 2 ^ 63.

(** [int(float64(period)/float64(blockTime)*stateHistorySafetyMargin + 0.999)] *)
Definition snapshotsNeeded (period blockTime : Z) : Z :=
  int_of_float (SFadd 53 1024
    (SFmul 53 1024 (SFdiv 53 1024 (float64 period) (float64 blockTime)) stateHistorySafetyMargin) ceilRounding).

Definition computeStateHistoryEntries (config : option RollupConfig) : Z :=
  match config with
  | None => minStateHistoryEntries
  | Some c =>
      if (cfg_BlockTime c <=? 0) || (cfg_ChallengePeriod c <=? 0) then minStateHistoryEntries else
      let needed := snapshotsNeeded (cfg_ChallengePeriod c) (cfg_BlockTime c) in
      if needed <? minStateHistoryEntries then minStateHistoryEntries
      else if maxStateHistoryEntries <? needed then maxStateHistoryEntries
      else needed
  end.

(** [Validate]; [None] is no error. *)
Definition Validate (c : RollupConfig) : option error :=
  if cfg_ChainID c =? 0 then Some ErrInvalidChainID else
  if cfg_ChainID c =? cfg_L1ChainID c then Some ErrInvalidChainID else
  if cfg_L1ChainID c =? 0 then Some ErrInvalidChainID else
  if cfg_MaxBatchSize c <=? 0 then Some ErrInvalidBatchSize else
  if cfg_BlockTime c <=? 0 then Some ErrInvalidBlockTime else
  if cfg_ChallengePeriod c <=? 0 then Some ErrInvalidChallengePeriod else
  if (Second <=? cfg_BlockTime c) && (maxStateHistoryEntries <? snapshotsNeeded (cfg_ChallengePeriod c) (cfg_BlockTime c))
  then Some (ErrErrorf "challenge period requires too many in-memory snapshots") else
  if cfg_GasLimit c =? 0 then Some ErrInvalidGasLimit else None.

Lemma history_entries_range config :
  minStateHistoryEntries <= computeStateHistoryEntries config <= maxStateHistoryEntries.
Proof.
  unfold computeStateHistoryEntries. destruct config as [c|]; [|done]. destruct (_ || _); [done|]. cbv zeta.
  generalize (snapshotsNeeded (cfg_ChallengePeriod c) (cfg_BlockTime c)). intros n.
  destruct (Z.ltb_spec n minStateHistoryEntries); [done|]. destruct (Z.ltb_spec maxStateHistoryEntries n); [done|]. lia.
Qed.

Lemma default_history_entries : computeStateHistoryEntries (Some DefaultRollupConfig) = 378000.
Proof. vm_compute. reflexivity. Qed.
