(* ===== verification/BatchManager.v ===== *)
(** * Batches and their life cycle (rollup/batch.go)

    The batch manager collects transactions, builds batches of them, and moves a
    batch from pending to submitted and from there to finalized or challenged. The
    clock is an argument, and so is the fraud prover a batch is checked against.
    A batch object is reached only through the map, so the map holds the objects
    and the pointer to the current batch is its index. Persistence is left out. *)

From Stdlib Require Import ZArith Lia SpecFloat.
From Stdlib.Strings Require Import Byte.
From stdpp Require Import base list countable gmap strings numbers sorting.
From S2P Require Import Prelude Stack RollupConfig StateDB Rollup SparseMerkle Bridge.

Module BatchManager.
Import Bridge.

#[export] Instance BatchStatus_eq_dec : EqDecision BatchStatus.
Proof. solve_decision. Defined.

(** [BatchStatus] is a number; [>=] compares it. *)
Definition statusCode (s : BatchStatus) : Z :=
  match s with
  | BatchStatusPending => 0
  | BatchStatusSubmitted => 1
  | BatchStatusFinalized => 2
  | BatchStatusChallenged => 3
  | BatchStatusRejected => 4
  end.

(** ** Batches *)

Definition set_Status (v : BatchStatus) (b : Batch) : Batch :=
  mkBatch (bt_Index b) (bt_PrevStateRoot b) (bt_PostStateRoot b) (bt_Transactions b) (bt_TxCount b) (bt_TotalGasUsed b)
    (bt_Timestamp b) v (bt_BatchHash b) (bt_SubmitTxHash b) (bt_SubmittedAt b) (bt_FinalizedAt b)
    (bt_ChallengeDeadline b) (bt_SubmitHeight b) (bt_AnchorFailed b) (bt_AnchorRetries b) (bt_WithdrawalRoot b).

Definition set_FinalizedAt (v : Z) (b : Batch) : Batch :=
  mkBatch (bt_Index b) (bt_PrevStateRoot b) (bt_PostStateRoot b) (bt_Transactions b) (bt_TxCount b) (bt_TotalGasUsed b)
    (bt_Timestamp b) (bt_Status b) (bt_BatchHash b) (bt_SubmitTxHash b) (bt_SubmittedAt b) v
    (bt_ChallengeDeadline b) (bt_SubmitHeight b) (bt_AnchorFailed b) (bt_AnchorRetries b) (bt_WithdrawalRoot b).

Definition set_SubmitHeight (v : Z) (b : Batch) : Batch :=
  mkBatch (bt_Index b) (bt_PrevStateRoot b) (bt_PostStateRoot b) (bt_Transactions b) (bt_TxCount b) (bt_TotalGasUsed b)
    (bt_Timestamp b) (bt_Status b) (bt_BatchHash b) (bt_SubmitTxHash b) (bt_SubmittedAt b) (bt_FinalizedAt b)
    (bt_ChallengeDeadline b) v (bt_AnchorFailed b) (bt_AnchorRetries b) (bt_WithdrawalRoot b).

Definition set_Anchor (failed : bool) (retries : Z) (b : Batch) : Batch :=
  mkBatch (bt_Index b) (bt_PrevStateRoot b) (bt_PostStateRoot b) (bt_Transactions b) (bt_TxCount b) (bt_TotalGasUsed b)
    (bt_Timestamp b) (bt_Status b) (bt_BatchHash b) (bt_SubmitTxHash b) (bt_SubmittedAt b) (bt_FinalizedAt b)
    (bt_ChallengeDeadline b) (bt_SubmitHeight b) failed retries (bt_WithdrawalRoot b).

Definition set_TotalGasUsed (v : Z) (b : Batch) : Batch :=
  mkBatch (bt_Index b) (bt_PrevStateRoot b) (bt_PostStateRoot b) (bt_Transactions b) (bt_TxCount b) v
    (bt_Timestamp b) (bt_Status b) (bt_BatchHash b) (bt_SubmitTxHash b) (bt_SubmittedAt b) (bt_FinalizedAt b)
    (bt_ChallengeDeadline b) (bt_SubmitHeight b) (bt_AnchorFailed b) (bt_AnchorRetries b) (bt_WithdrawalRoot b).

Definition set_WithdrawalRoot (v : Hash) (b : Batch) : Batch :=
  mkBatch (bt_Index b) (bt_PrevStateRoot b) (bt_PostStateRoot b) (bt_Transactions b) (bt_TxCount b) (bt_TotalGasUsed b)
    (bt_Timestamp b) (bt_Status b) (bt_BatchHash b) (bt_SubmitTxHash b) (bt_SubmittedAt b) (bt_FinalizedAt b)
    (bt_ChallengeDeadline b) (bt_SubmitHeight b) (bt_AnchorFailed b) (bt_AnchorRetries b) v.

(** The batch after [SubmitBatch] wrote its fields. *)
Definition submitted (postStateRoot txHash : Hash) (now deadline : Z) (b : Batch) : Batch :=
  mkBatch (bt_Index b) (bt_PrevStateRoot b) postStateRoot (bt_Transactions b) (bt_TxCount b) (bt_TotalGasUsed b)
    (bt_Timestamp b) BatchStatusSubmitted (bt_BatchHash b) txHash now (bt_FinalizedAt b) deadline
    (bt_SubmitHeight b) (bt_AnchorFailed b) (bt_AnchorRetries b) (bt_WithdrawalRoot b).

Definition set_Hash (h : Hash) (tx : RollupTransaction) : RollupTransaction :=
  mkTx (tx_Nonce tx) (tx_GasPrice tx) (tx_GasLimit tx) (tx_To tx) (tx_Value tx) (tx_Data tx) (tx_From tx) h
    (tx_Signature tx) (tx_ChainID tx) (tx_PublicKey tx).

(** ** The manager *)

Record BatchManager : Type := mkBM {
  bm_config : RollupConfig;
  bm_batches : gmap Z Batch;
  bm_currentBatch : option Z;
  bm_nextIndex : Z;
  bm_pendingTxs : list RollupTransaction;
  bm_lastStateRoot : Hash;
  bm_l1CurrentHeight : Z;
  bm_l1ChallengeBlocks : Z
}.

Definition NewBatchManager (config : RollupConfig) (genesisStateRoot : Hash) : BatchManager :=
  mkBM config ∅ None 0 [] genesisStateRoot 0 0.

Definition set_batches (m : gmap Z Batch) (s : BatchManager) : BatchManager :=
  mkBM (bm_config s) m (bm_currentBatch s) (bm_nextIndex s) (bm_pendingTxs s) (bm_lastStateRoot s)
    (bm_l1CurrentHeight s) (bm_l1ChallengeBlocks s).

(** A write to the batch object with the index [i]. *)
Definition update (i : Z) (f : Batch -> Batch) (s : BatchManager) : BatchManager := set_batches (alter f i (bm_batches s)) s.

Definition set_pending (l : list RollupTransaction) (s : BatchManager) : BatchManager :=
  mkBM (bm_config s) (bm_batches s) (bm_currentBatch s) (bm_nextIndex s) l (bm_lastStateRoot s)
    (bm_l1CurrentHeight s) (bm_l1ChallengeBlocks s).
Definition set_meta (next : Z) (root : Hash) (s : BatchManager) : BatchManager :=
  mkBM (bm_config s) (bm_batches s) (bm_currentBatch s) next (bm_pendingTxs s) root
    (bm_l1CurrentHeight s) (bm_l1ChallengeBlocks s).
Definition SetL1CurrentHeight (height : Z) (s : BatchManager) : BatchManager :=
  mkBM (bm_config s) (bm_batches s) (bm_currentBatch s) (bm_nextIndex s) (bm_pendingTxs s) (bm_lastStateRoot s)
    height (bm_l1ChallengeBlocks s).
Definition SetL1ChallengeBlocks (blocks : Z) (s : BatchManager) : BatchManager :=
  mkBM (bm_config s) (bm_batches s) (bm_currentBatch s) (bm_nextIndex s) (bm_pendingTxs s) (bm_lastStateRoot s)
    (bm_l1CurrentHeight s) blocks.

Section manager.
Context (sha256 : list byte -> Hash).

(** *** Hashes *)

(** [Value.Bytes()], nothing for nil. *)
Definition valueBytes (v : option Z) : list byte := match v with Some v => big_bytes v | None => [] end.

Definition encodeTxForHash (tx : RollupTransaction) : list byte :=
  be_bytes 8 (tx_Nonce tx) ++ be_bytes 8 (tx_GasPrice tx) ++ be_bytes 8 (tx_GasLimit tx) ++
  bytes_of (default (zero_array 20) (tx_To tx)) ++
  be_bytes 4 (len (valueBytes (tx_Value tx))) ++ valueBytes (tx_Value tx) ++
  tx_Data tx ++ bytes_of (tx_From tx) ++ be_bytes 8 (tx_ChainID tx).

Definition computeBatchHash (batch : Batch) : Hash :=
  sha256 (be_bytes 8 (bt_Index batch) ++ bytes_of (bt_PrevStateRoot batch) ++ be_bytes 8 (bt_Timestamp batch) ++
          flat_map (fun tx => bytes_of (tx_Hash tx)) (bt_Transactions batch)).

(** What the sender signs. *)
Definition signingBytes (tx : RollupTransaction) : list byte :=
  bytes_of (tx_From tx) ++
  be_bytes 8 (tx_Nonce tx) ++ be_bytes 8 (tx_GasPrice tx) ++ be_bytes 8 (tx_GasLimit tx) ++
  match tx_To tx with Some to => bytes_of to | None => [] end ++
  match tx_Value tx with Some v => be_bytes 4 (len (big_bytes v)) ++ big_bytes v | None => [] end ++
  be_bytes 4 (len (tx_Data tx)) ++ tx_Data tx ++
  be_bytes 8 (tx_ChainID tx) ++
  be_bytes 4 (len (tx_PublicKey tx)) ++ tx_PublicKey tx.

Definition SigningHash (tx : RollupTransaction) : Hash := sha256 (signingBytes tx).

(** *** Building *)

Definition AddTransaction (tx : RollupTransaction) : M BatchManager unit :=
  s ← gets id;
  guard_err (cfg_MaxTxPerBatch (bm_config s) <=? len (bm_pendingTxs s)) ErrBatchFull;;
  modify (fun s => set_pending (bm_pendingTxs s ++ [set_Hash (sha256 (encodeTxForHash tx)) tx]) s).

(** The new batch, before its hash is set. *)
Definition newBatch (now : Z) (s : BatchManager) : Batch :=
  mkBatch (bm_nextIndex s) (bm_lastStateRoot s) (zero_array 32) (bm_pendingTxs s) (len (bm_pendingTxs s)) 0 now
    BatchStatusPending (zero_array 32) (zero_array 32) 0 0 0 0 false 0 (zero_array 32).

Definition set_BatchHash (h : Hash) (b : Batch) : Batch :=
  mkBatch (bt_Index b) (bt_PrevStateRoot b) (bt_PostStateRoot b) (bt_Transactions b) (bt_TxCount b) (bt_TotalGasUsed b)
    (bt_Timestamp b) (bt_Status b) h (bt_SubmitTxHash b) (bt_SubmittedAt b) (bt_FinalizedAt b)
    (bt_ChallengeDeadline b) (bt_SubmitHeight b) (bt_AnchorFailed b) (bt_AnchorRetries b) (bt_WithdrawalRoot b).

Definition BuildBatch (now : Z) : M BatchManager Batch :=
  s ← gets id;
  guard_err (len (bm_pendingTxs s) <? cfg_MinTxPerBatch (bm_config s)) ErrInsufficientTxs;;
  let batch := newBatch now s in
  let batch := set_BatchHash (computeBatchHash batch) batch in
  modify (fun s =>
    mkBM (bm_config s) (<[bt_Index batch := batch]> (bm_batches s)) (Some (bt_Index batch)) (u64 (bm_nextIndex s + 1)) []
      (bm_lastStateRoot s) (bm_l1CurrentHeight s) (bm_l1ChallengeBlocks s));;
  mret batch.
End manager.

(** *** Life cycle *)

(** The batch with this index. *)
Definition lookup (index : Z) : M BatchManager Batch :=
  s ← gets id;
  match bm_batches s !! index with
  | None => throw ErrBatchNotFound
  | Some batch => mret batch
  end.

(** [Duration.Seconds], truncated by the caller. *)
Definition Seconds (d : Z) : Z :=
  int_of_float (SFadd 53 1024 (float64 (Z.quot d Second)) (SFdiv 53 1024 (float64 (Z.rem d Second)) (float64 1000000000))).

Definition SubmitBatch (now index : Z) (postStateRoot txHash : Hash) : M BatchManager unit :=
  batch ← lookup index;
  guard_err (negb (bool_decide (bt_Status batch = BatchStatusPending))) ErrBatchAlreadySubmitted;;
  modify (fun s =>
    let deadline := i64 (now + Seconds (cfg_ChallengePeriod (bm_config s))) in
    set_meta (bm_nextIndex s) postStateRoot (update index (submitted postStateRoot txHash now deadline) s)).

(** The check of the challenge period. *)
Definition checkPeriod (now : Z) (batch : Batch) : M BatchManager unit :=
  s ← gets id;
  if 0 <? bt_SubmitHeight batch then
    guard_err (bm_l1CurrentHeight s <? u64 (bt_SubmitHeight batch + bm_l1ChallengeBlocks s)) ErrChallengePeriodNotOver
  else if 0 <? bm_l1ChallengeBlocks s then
    throw (ErrErrorf "batch has no L1 anchor but L1 challenge mode is active")
  else guard_err (now <? bt_ChallengeDeadline batch) ErrChallengePeriodNotOver.

(** [prover] answers whether there is a fraud proof, if a prover was set. *)
Definition hasProof (prover : option (Z -> bool)) (index : Z) : bool :=
  match prover with Some has => has index | None => false end.

Definition FinalizeBatch (prover : option (Z -> bool)) (now index : Z) : M BatchManager unit :=
  batch ← lookup index;
  guard_err (negb (bool_decide (bt_Status batch = BatchStatusSubmitted))) ErrBatchNotSubmitted;;
  if hasProof prover index then
    modify (update index (set_Status BatchStatusChallenged));;
    throw ErrBatchChallenged
  else
    checkPeriod now batch;;
    modify (update index (fun b => set_FinalizedAt now (set_Status BatchStatusFinalized b))).

Definition ChallengeBatch (prover : option (Z -> bool)) (index : Z) : M BatchManager unit :=
  batch ← lookup index;
  guard_err (negb (bool_decide (bt_Status batch = BatchStatusSubmitted))) ErrBatchNotSubmitted;;
  guard_err (negb (hasProof prover index)) ErrFraudProofInvalid;;
  modify (update index (set_Status BatchStatusChallenged)).

Definition SetBatchAnchor (index submitHeight : Z) (s : BatchManager) : BatchManager :=
  update index (set_SubmitHeight submitHeight) s.

(** *** Restart *)

(** The loop of [RestoreBatches]: the map, the next index, and the latest batch
    that was submitted with its root. *)
Fixpoint restoreLoop (batches : list Batch) (m : gmap Z Batch) (next : Z) (latest : option (Z * Hash)) :
    gmap Z Batch * Z * option (Z * Hash) :=
  match batches with
  | [] => (m, next, latest)
  | b :: batches =>
      let next := if next <=? bt_Index b then u64 (bt_Index b + 1) else next in
      let latest :=
        if (1 <=? statusCode (bt_Status b)) && negb (bool_decide (bt_PostStateRoot b = zero_array 32)) &&
           match latest with None => true | Some (i, _) => i <? bt_Index b end
        then Some (bt_Index b, bt_PostStateRoot b) else latest in
      restoreLoop batches (<[bt_Index b := b]> m) next latest
  end.

Definition RestoreBatches (batches : list Batch) (s : BatchManager) : BatchManager :=
  let '(m, next, latest) := restoreLoop batches (bm_batches s) (bm_nextIndex s) None in
  set_meta next (match latest with Some (_, root) => root | None => bm_lastStateRoot s end) (set_batches m s).

Definition RestoreMeta (nextIndex : Z) (lastStateRoot : Hash) (s : BatchManager) : BatchManager :=
  set_meta (if bm_nextIndex s <? nextIndex then nextIndex else bm_nextIndex s)
    (if bool_decide (lastStateRoot = zero_array 32) then bm_lastStateRoot s else lastStateRoot) s.

(** *** Queries *)

Definition GetBatch (index : Z) (s : BatchManager) : error + Batch :=
  match bm_batches s !! index with None => inl ErrBatchNotFound | Some batch => inr batch end.

Definition GetBatchStatus (index : Z) (s : BatchManager) : error + BatchStatus :=
  match bm_batches s !! index with None => inl ErrBatchNotFound | Some batch => inr (bt_Status batch) end.

(** The indices of the submitted batches, in ascending order. *)
Definition GetSubmittedBatchIndices (s : BatchManager) : list Z :=
  merge_sort Z.le (map_to_list (filter (fun '(_, b) => bt_Status b = BatchStatusSubmitted) (bm_batches s))).*1.

Definition GetCurrentBatch (s : BatchManager) : option Batch := bm_currentBatch s ≫= fun i => bm_batches s !! i.
Definition PendingTxCount (s : BatchManager) : Z := len (bm_pendingTxs s).
Definition GetLastStateRoot (s : BatchManager) : Hash := bm_lastStateRoot s.
End BatchManager.
