(* ===== verification/StateManager.v ===== *)
(** * The rollup's state manager (rollup/state_manager.go)

    It executes batches of transactions on the accounts, archives the state roots
    and keeps snapshots of earlier states, on which fraud proofs are checked. A
    snapshot is a deep copy, so it is a value here. A contract call goes to an
    executor with the interface of the virtual machine, which works on the account
    map through [rollupStateDB]; what the manager relies on is the class
    [ExecutorLaws] of StateManagerSpec. The persistence layer is left out. *)

From Stdlib Require Import ZArith Lia.
From Stdlib.Strings Require Import Byte.
From stdpp Require Import base list countable gmap strings numbers.
From S2P Require Import Prelude Stack Gas StateDB Rollup Env Executor SparseMerkle Bridge RollupConfig.

Module StateManager.
Import SparseMerkle Bridge Executor.

(** The interface [QVMExecutor]: caller, callee, input, gas, value, block, depth. *)
Definition QVMExecutor : Type :=
  Address -> Address -> list byte -> Z -> option Z -> BlockContext -> Z -> M rollupStateDB ExecutionResult.

Abbreviation Accounts := (gmap Address RollupAccount).

Record StateManager : Type := mkSM {
  sm_config : option RollupConfig;
  sm_maxHistoryEntries : Z;
  sm_stateRoots : gmap Z Hash;
  sm_accountStates : Accounts;
  sm_stateHistory : gmap Hash Accounts;
  sm_stateHistoryOrder : list Hash;
  sm_executor : option QVMExecutor;
  sm_smt : SparseMerkleTree
}.

Definition set_accounts (m : Accounts) (s : StateManager) : StateManager :=
  mkSM (sm_config s) (sm_maxHistoryEntries s) (sm_stateRoots s) m (sm_stateHistory s) (sm_stateHistoryOrder s)
    (sm_executor s) (sm_smt s).
Definition set_roots (m : gmap Z Hash) (s : StateManager) : StateManager :=
  mkSM (sm_config s) (sm_maxHistoryEntries s) m (sm_accountStates s) (sm_stateHistory s) (sm_stateHistoryOrder s)
    (sm_executor s) (sm_smt s).
Definition set_history (m : gmap Hash Accounts) (l : list Hash) (s : StateManager) : StateManager :=
  mkSM (sm_config s) (sm_maxHistoryEntries s) (sm_stateRoots s) (sm_accountStates s) m l (sm_executor s) (sm_smt s).
Definition set_smt (t : SparseMerkleTree) (s : StateManager) : StateManager :=
  mkSM (sm_config s) (sm_maxHistoryEntries s) (sm_stateRoots s) (sm_accountStates s) (sm_stateHistory s)
    (sm_stateHistoryOrder s) (sm_executor s) t.
Definition SetExecutor (executor : option QVMExecutor) (s : StateManager) : StateManager :=
  mkSM (sm_config s) (sm_maxHistoryEntries s) (sm_stateRoots s) (sm_accountStates s) (sm_stateHistory s)
    (sm_stateHistoryOrder s) executor (sm_smt s).

(** ** Transactions *)

Section transactions.
Context (config : option RollupConfig) (executor : option QVMExecutor).

Definition getOrCreateAccount (addr : Address) : M Accounts RollupAccount :=
  m ← gets id;
  match m !! addr with
  | Some acc => mret acc
  | None => modify (<[addr := emptyRollupAccount]>);; mret emptyRollupAccount
  end.

(** A write through the pointer to the account of [addr]. *)
Definition write (addr : Address) (f : RollupAccount -> RollupAccount) : M Accounts unit := modify (alter f addr).

(** [acc.Balance.Sub(acc.Balance, v); acc.Nonce++] *)
Definition spend (v : Z) (a : RollupAccount) : RollupAccount :=
  mkRollupAccount (u64 (ra_Nonce a + 1)) (ra_Balance a - v) (ra_CodeHash a) (ra_Storage a) (ra_Code a).

(** [acc.Balance.Add(acc.Balance, v)] *)
Definition credit (v : Z) (a : RollupAccount) : RollupAccount :=
  mkRollupAccount (ra_Nonce a) (ra_Balance a + v) (ra_CodeHash a) (ra_Storage a) (ra_Code a).

(** The transaction withdraws to L1. *)
Definition isWithdrawalBurn (tx : RollupTransaction) : bool :=
  match config with
  | Some c => negb (bool_decide (cfg_BridgeAddress c = zero_array 20)) && bool_decide (tx_To tx = Some (cfg_BridgeAddress c))
  | None => false
  end.

(** The gas of the batch after [gas] more. *)
Definition addGas (totalGasUsed gas : Z) : M Accounts Z :=
  match SafeAddGas totalGasUsed gas with
  | inl _ => throw ErrInvalidStateTransition
  | inr newTotal =>
      guard_err (match config with Some c => cfg_GasLimit c <? newTotal | None => false end) ErrInvalidStateTransition;;
      mret newTotal
  end.

Definition gasCostOf (tx : RollupTransaction) : Z := tx_GasLimit tx * tx_GasPrice tx.
Definition valueOf (tx : RollupTransaction) : Z := default 0 (tx_Value tx).

(** The block a contract sees. *)
Definition callContext (c : RollupConfig) (tx : RollupTransaction) : BlockContext :=
  mkBlockContext 0 0 (zero_array 20) (cfg_GasLimit c) (Some (tx_GasPrice tx)) None None (zero_array 32) (cfg_ChainID c) ∅.

(** A contract call to [to]. The account map is shared with the executor; a nil
    configuration is dereferenced. *)
Definition executeContractCall (call : QVMExecutor) (tx : RollupTransaction) (to : Address) (txValue : Z) : M Accounts Z :=
  match config with
  | None => panic
  | Some c =>
      result ← zoom newRollupStateDB (fun db _ => rs_states db)
        (call (tx_From tx) to (tx_Data tx) (tx_GasLimit tx) (Some txValue) (callContext c tx) 0);
      getOrCreateAccount (tx_From tx);;
      let gasUsed := if tx_GasLimit tx <? GasUsed result then tx_GasLimit tx else GasUsed result in
      (if gasUsed <? tx_GasLimit tx
       then write (tx_From tx) (credit ((tx_GasLimit tx - gasUsed) * tx_GasPrice tx)) else mret tt);;
      mret gasUsed
  end.

(** The account [to] has code. *)
Definition isContract (to : option Address) : M Accounts bool :=
  match to with
  | None => mret false
  | Some to => toAcc ← getOrCreateAccount to; mret (negb (bool_decide (ra_CodeHash toAcc = zero_array 32)))
  end.

(** A withdrawal: the value is burned. *)
Definition burn (totalGasUsed : Z) (fromAcc : RollupAccount) (tx : RollupTransaction) : M Accounts Z :=
  guard_err (ra_Balance fromAcc <? valueOf tx + gasCostOf tx) ErrInvalidStateTransition;;
  write (tx_From tx) (spend (valueOf tx + gasCostOf tx));;
  addGas totalGasUsed (tx_GasLimit tx).

(** A call of the contract at [to]. *)
Definition contractCall (call : QVMExecutor) (to : Address) (totalGasUsed : Z) (fromAcc : RollupAccount)
    (tx : RollupTransaction) : M Accounts Z :=
  guard_err (ra_Balance fromAcc <? valueOf tx + gasCostOf tx) ErrInvalidStateTransition;;
  write (tx_From tx) (spend (gasCostOf tx));;
  gasUsed ← executeContractCall call tx to (valueOf tx);
  addGas totalGasUsed gasUsed.

(** A transfer without code. *)
Definition simpleTransfer (totalGasUsed : Z) (fromAcc : RollupAccount) (tx : RollupTransaction) : M Accounts Z :=
  guard_err (ra_Balance fromAcc <? valueOf tx + gasCostOf tx) ErrInvalidStateTransition;;
  write (tx_From tx) (spend (valueOf tx + gasCostOf tx));;
  newTotal ← addGas totalGasUsed (tx_GasLimit tx);
  (match tx_To tx with
   | Some to => getOrCreateAccount to;; write to (credit (valueOf tx))
   | None => mret tt
   end);;
  mret newTotal.

(** One iteration of [processBatchLocked]. *)
Definition processTx (totalGasUsed : Z) (tx : RollupTransaction) : M Accounts Z :=
  fromAcc ← getOrCreateAccount (tx_From tx);
  guard_err (negb (ra_Nonce fromAcc =? tx_Nonce tx)) ErrInvalidStateTransition;;
  if isWithdrawalBurn tx then burn totalGasUsed fromAcc tx else
  isContractCall ← isContract (tx_To tx);
  match tx_To tx, executor with
  | Some to, Some call =>
      if (isContractCall : bool) then contractCall call to totalGasUsed fromAcc tx
      else simpleTransfer totalGasUsed fromAcc tx
  | _, _ => simpleTransfer totalGasUsed fromAcc tx
  end.

Fixpoint processTxs (totalGasUsed : Z) (txs : list RollupTransaction) : M Accounts Z :=
  match txs with
  | [] => mret totalGasUsed
  | tx :: txs => total ← processTx totalGasUsed tx; processTxs total txs
  end.
End transactions.

(** ** The manager *)

Definition deepCopyAccounts (src : Accounts) : Accounts :=
  (fun acc => mkRollupAccount (ra_Nonce acc) (ra_Balance acc) (ra_CodeHash acc) (ra_Storage acc) (ra_Code acc)) <$> src.

Definition GetAccount (addr : Address) (s : StateManager) : option RollupAccount := sm_accountStates s !! addr.

Section manager.
Context (sha256 : list byte -> Hash).

Definition NewStateManager (config : option RollupConfig) : StateManager :=
  mkSM config (computeStateHistoryEntries config) ∅ ∅ ∅ [] None (NewSparseMerkleTree sha256).

(** The root of the accounts; the tree is kept for proofs. *)
Definition stateRoot : M StateManager Hash :=
  m ← gets sm_accountStates;
  let smt := stateTree sha256 m in
  modify (set_smt smt);; mret (root smt).

(** *** Snapshots *)

(** The loop [for len(sm.stateHistory) > limit]; the order list is what it takes
    from, and an empty one is an index out of range. *)
Fixpoint evictLoop (limit : Z) (order : list Hash) (history : gmap Hash Accounts) : res (gmap Hash Accounts * list Hash) :=
  if Z.of_nat (size history) <=? limit then Ok (history, order) else
  match order with
  | [] => Panic
  | oldest :: order => evictLoop limit order (delete oldest history)
  end.

Definition archiveStateSnapshot (stateRoot : Hash) (states : Accounts) : M StateManager unit :=
  s ← gets id;
  if bool_decide (is_Some (sm_stateHistory s !! stateRoot)) then mret tt else
  let history := <[stateRoot := deepCopyAccounts states]> (sm_stateHistory s) in
  let order := sm_stateHistoryOrder s ++ [stateRoot] in
  let limit := if sm_maxHistoryEntries s <=? 0 then minStateHistoryEntries else sm_maxHistoryEntries s in
  r ← ofRes (evictLoop limit order history);
  modify (set_history r.1 r.2).

(** [processBatchLocked] does not look at its previous state root. *)
Definition processBatchLocked (prevStateRoot : Hash) (txs : list RollupTransaction) : M StateManager (Hash * Z) :=
  s ← gets id;
  totalGasUsed ← zoom sm_accountStates set_accounts (processTxs (sm_config s) (sm_executor s) 0 txs);
  newRoot ← stateRoot;
  mret (newRoot, totalGasUsed).

(** *** Batches *)

(** The declared root must be that of the accounts, unless there are none. *)
Definition checkRoot (prevStateRoot : Hash) : M StateManager unit :=
  m ← gets sm_accountStates;
  if bool_decide (m = ∅) then mret tt else
  currentRoot ← stateRoot;
  guard_err (negb (bool_decide (prevStateRoot = currentRoot))) ErrInvalidStateTransition.

Definition ProcessBatch (batchIndex : Z) (prevStateRoot : Hash) (txs : list RollupTransaction) :
    M StateManager (Hash * Z) :=
  checkRoot prevStateRoot;;
  s ← gets id;
  (if bool_decide (is_Some (sm_stateHistory s !! prevStateRoot)) then mret tt
   else archiveStateSnapshot prevStateRoot (sm_accountStates s));;
  preStateSnapshot ← gets (fun s => deepCopyAccounts (sm_accountStates s));
  r ← attempt (processBatchLocked prevStateRoot txs);
  match r with
  | inl err => modify (set_accounts preStateSnapshot);; throw err
  | inr (newRoot, gasUsed) =>
      modify (fun s => set_roots (<[batchIndex := newRoot]> (sm_stateRoots s)) s);;
      states ← gets sm_accountStates;
      archiveStateSnapshot newRoot states;;
      mret (newRoot, gasUsed)
  end.

(** The snapshot of [snapshotLocked] holds nonce, balance, code hash and storage. *)
Record Saved : Type := mkSaved {
  sv_nonce : Z;
  sv_balance : Z;
  sv_codeHash : Hash;
  sv_storage : gmap Hash Hash
}.

Definition snapshotLocked (s : StateManager) : gmap Address Saved :=
  (fun acc => mkSaved (ra_Nonce acc) (ra_Balance acc) (ra_CodeHash acc) (ra_Storage acc)) <$> sm_accountStates s.

(** Saved fields are written back to the accounts that exist, and accounts that
    were not saved are deleted. The code is not written back. *)
Definition restoreLocked (snap : gmap Address Saved) (s : StateManager) : StateManager :=
  set_accounts (merge (fun acc saved =>
      match acc, saved with
      | Some acc, Some v => Some (mkRollupAccount (sv_nonce v) (sv_balance v) (sv_codeHash v) (sv_storage v) (ra_Code acc))
      | _, _ => None
      end) (sm_accountStates s) snap) s.

Definition SimulateBatch (prevStateRoot : Hash) (txs : list RollupTransaction) : M StateManager (Hash * Z) :=
  s ← gets id;
  match sm_stateHistory s !! prevStateRoot with
  | Some historicalStates =>
      modify (set_accounts (deepCopyAccounts historicalStates));;
      defer (set_accounts (sm_accountStates s)) (processBatchLocked prevStateRoot txs)
  | None =>
      checkRoot prevStateRoot;;
      snap ← gets snapshotLocked;
      r ← attempt (processBatchLocked prevStateRoot txs);
      modify (restoreLocked snap);;
      match r with inl err => throw err | inr r => mret r end
  end.

(** *** Queries *)

Definition GetStateRoot (batchIndex : Z) (s : StateManager) : option Hash := sm_stateRoots s !! batchIndex.

Definition GetCurrentRoot (s : StateManager) : Hash := root (sm_smt s).

Definition ProveAccount (addr : Address) (s : StateManager) : MerkleProof := Prove sha256 addr (sm_smt s).

Definition ProveAccountWithStateAtState (addr : Address) (stateRoot : Hash) (s : StateManager) :
    error + MerkleProof * RollupAccount :=
  match sm_stateHistory s !! stateRoot with
  | None => inl (ErrErrorf "state root not found in history (evicted or unknown)")
  | Some historicalStates =>
      match historicalStates !! addr with
      | None => inl (ErrErrorf "account not found at state root")
      | Some acc =>
          let smt := stateTree sha256 historicalStates in
          if negb (bool_decide (root smt = stateRoot)) then inl (ErrErrorf "internal error: rebuilt SMT root does not match expected")
          else inr (Prove sha256 addr smt, acc)
      end
  end.

Definition RestoreFromSnapshot (states : Accounts) (stateRoots : gmap Z Hash) (s : StateManager) : StateManager :=
  (stateRoot (set_roots stateRoots (set_accounts states s))).2.
End manager.

End StateManager.
