(* ===== verification/FraudProof.v ===== *)
(** * Fraud proofs (rollup/fraud_proof.go)

    A challenger shows that a submitted batch is wrong: that executing it, or one
    of its transactions, gives another state root, or that it contains the same
    nonce of a sender twice. The prover executes on the snapshots of the state
    manager. The signature scheme, the hash of messages and the clock are
    arguments; metrics and persistence are left out. *)

From Stdlib Require Import ZArith Lia.
From Stdlib.Strings Require Import Byte.
From stdpp Require Import base list countable gmap strings numbers.
From S2P Require Import Prelude Stack RollupConfig StateDB Rollup SparseMerkle Bridge BatchManager StateManager.

Module FraudProof.
Import Bridge BatchManager StateManager.

Inductive FraudProofType : Set :=
  | FraudProofTypeStateTransition
  | FraudProofTypeInvalidBatch
  | FraudProofTypeDoubleSpend
  | FraudProofTypeOther (code : Z).

Definition typeCode (t : FraudProofType) : Z :=
  match t with
  | FraudProofTypeStateTransition => 0
  | FraudProofTypeInvalidBatch => 1
  | FraudProofTypeDoubleSpend => 2
  | FraudProofTypeOther c => c
  end.

(** A pointer to a transaction. The code compares pointers: it is the object at a
    position of a batch, or an object of the caller's own, such as one decoded
    from a request. *)
Inductive TxPointer : Type :=
  | InBatch (batch : Z) (position : nat)
  | Own (tx : RollupTransaction).

Record FraudProof : Type := mkFraudProof {
  pf_Type : FraudProofType;
  pf_BatchIndex : Z;
  pf_Challenger : Address;
  pf_PreStateRoot : Hash;
  pf_PostStateRoot : Hash;
  pf_InvalidTx : option TxPointer;
  pf_ProofData : list byte;
  pf_Timestamp : Z;
  pf_ChallengerSig : list byte;
  pf_ChallengerPubKey : list byte
}.

(** [VerifyFraudProofSignature]: challenger, public key, message, signature. *)
Definition SignatureVerifier : Type := Address -> list byte -> list byte -> list byte -> bool.

(** [fp_batchLookup] tells whether the batch manager was set as lookup. *)
Record FraudProver : Type := mkProver {
  fp_batchLookup : bool;
  fp_sigVerifier : option SignatureVerifier;
  fp_requireSigVerifier : bool;
  fp_productionLocked : bool;
  fp_proofs : gmap Z FraudProof
}.

Definition NewFraudProver : FraudProver := mkProver false None true false ∅.

Definition SetBatchLookup (fp : FraudProver) : FraudProver :=
  mkProver true (fp_sigVerifier fp) (fp_requireSigVerifier fp) (fp_productionLocked fp) (fp_proofs fp).

Definition SetSignatureVerifier (sv : option SignatureVerifier) (fp : FraudProver) : FraudProver :=
  mkProver (fp_batchLookup fp) sv (fp_requireSigVerifier fp) (fp_productionLocked fp) (fp_proofs fp).

Definition SetRequireSignatureVerifier (require : bool) (fp : FraudProver) : FraudProver :=
  if negb require && fp_productionLocked fp then fp else
  mkProver (fp_batchLookup fp) (fp_sigVerifier fp) require (fp_productionLocked fp) (fp_proofs fp).

Definition LockProductionMode (fp : FraudProver) : FraudProver :=
  mkProver (fp_batchLookup fp) (fp_sigVerifier fp) true true (fp_proofs fp).

Definition set_proofs (m : gmap Z FraudProof) (fp : FraudProver) : FraudProver :=
  mkProver (fp_batchLookup fp) (fp_sigVerifier fp) (fp_requireSigVerifier fp) (fp_productionLocked fp) m.

Definition RestoreFraudProofs (proofs : list FraudProof) (fp : FraudProver) : FraudProver :=
  set_proofs (foldl (fun m p => <[pf_BatchIndex p := p]> m) (fp_proofs fp) proofs) fp.

Definition HasFraudProof (fp : FraudProver) (batchIndex : Z) : bool := bool_decide (is_Some (fp_proofs fp !! batchIndex)).

Section prover.
Context (sha256 sha3 : list byte -> Hash).

Definition buildFraudProofSignMessage (proof : FraudProof) : list byte :=
  bytes_of (sha3 (be_bytes 1 (typeCode (pf_Type proof)) ++ be_bytes 8 (pf_BatchIndex proof) ++
    bytes_of (pf_PreStateRoot proof) ++ bytes_of (pf_PostStateRoot proof) ++ be_bytes 8 (pf_Timestamp proof) ++
    bytes_of (sha3 (pf_ProofData proof)))).

(** The prover and the state manager it points to. *)
Abbreviation Prover := (FraudProver * StateManager)%type.

Definition simulate (prevStateRoot : Hash) (txs : list RollupTransaction) : M Prover (Hash * Z) :=
  zoom snd (fun sm p => (p.1, sm)) (SimulateBatch sha256 prevStateRoot txs).

(** The batch of the proof, if there is a lookup and it knows the batch. *)
Definition batchOf (bm : BatchManager) (proof : FraudProof) : M Prover Batch :=
  fp ← gets fst;
  guard_err (negb (fp_batchLookup fp)) ErrFraudProofInvalid;;
  match GetBatch (pf_BatchIndex proof) bm with
  | inl _ => throw ErrFraudProofInvalid
  | inr batch => mret batch
  end.

(** The roots of the proof are those of the batch. *)
Definition checkRoots (batch : Batch) (proof : FraudProof) : M Prover unit :=
  guard_err (negb (bool_decide (pf_PreStateRoot proof = bt_PrevStateRoot batch))) ErrFraudProofInvalid;;
  guard_err (negb (bool_decide (pf_PostStateRoot proof = bt_PostStateRoot batch))) ErrFraudProofInvalid.

(** The transactions give another root than the batch recorded. *)
Definition confirm (batch : Batch) (proof : FraudProof) (txs : list RollupTransaction) : M Prover unit :=
  r ← attempt (simulate (pf_PreStateRoot proof) txs);
  match r with
  | inl _ => throw ErrFraudProofInvalid
  | inr (expectedRoot, _) => guard_err (bool_decide (expectedRoot = bt_PostStateRoot batch)) ErrFraudProofInvalid
  end.

(** The transaction of the batch the pointer points to. *)
Definition findTx (batch : Batch) (tx : TxPointer) : option RollupTransaction :=
  match tx with
  | InBatch i k => if i =? bt_Index batch then bt_Transactions batch !! k else None
  | Own _ => None
  end.

Definition verifyStateTransitionFraud (bm : BatchManager) (proof : FraudProof) : M Prover unit :=
  match pf_InvalidTx proof with
  | None => throw ErrFraudProofInvalid
  | Some invalidTx =>
      batch ← batchOf bm proof;
      checkRoots batch proof;;
      match findTx batch invalidTx with
      | None => throw ErrFraudProofInvalid
      | Some tx => confirm batch proof [tx]
      end
  end.

Definition verifyInvalidBatchFraud (bm : BatchManager) (proof : FraudProof) : M Prover unit :=
  batch ← batchOf bm proof;
  checkRoots batch proof;;
  confirm batch proof (bt_Transactions batch).

(** [matchCount] *)
Definition matchCount (nonce : Z) (from : list byte) (txs : list RollupTransaction) : Z :=
  Z.of_nat (length (filter (fun tx => tx_Nonce tx = nonce /\ bytes_of (tx_From tx) = from) txs)).

Definition verifyDoubleSpendFraud (bm : BatchManager) (proof : FraudProof) : M Prover unit :=
  let data := pf_ProofData proof in
  guard_err (len data <? 60) ErrFraudProofInvalid;;
  fp ← gets fst;
  guard_err (negb (fp_batchLookup fp)) ErrFraudProofInvalid;;
  let nonce1 := be (sub data 0 8) in
  let from1 := sub data 8 28 in
  let nonce2 := be (sub data 32 40) in
  let from2 := sub data 40 60 in
  guard_err (negb (nonce1 =? nonce2) || negb (bool_decide (from1 = from2))) ErrFraudProofInvalid;;
  batch ← batchOf bm proof;
  guard_err (matchCount nonce1 from1 (bt_Transactions batch) <? 2) ErrFraudProofInvalid.

(** The signature of the challenger. *)
Definition checkSignature (proof : FraudProof) : M Prover unit :=
  guard_err (len (pf_ChallengerSig proof) =? 0) ErrFraudProofInvalid;;
  fp ← gets fst;
  match fp_sigVerifier fp with
  | Some verify =>
      guard_err (len (pf_ChallengerPubKey proof) =? 0) ErrFraudProofInvalid;;
      guard_err (negb (verify (pf_Challenger proof) (pf_ChallengerPubKey proof) (buildFraudProofSignMessage proof)
                         (pf_ChallengerSig proof))) ErrFraudProofInvalid
  | None => guard_err (fp_requireSigVerifier fp) ErrFraudProofInvalid
  end.

Definition verifyFraudProof (bm : BatchManager) (proof : FraudProof) : M Prover unit :=
  guard_err ((pf_BatchIndex proof =? 0) && bool_decide (pf_PreStateRoot proof = zero_array 32)) ErrFraudProofInvalid;;
  guard_err (bool_decide (pf_Challenger proof = zero_array 20)) ErrFraudProofInvalid;;
  checkSignature proof;;
  guard_err (pf_Timestamp proof <=? 0) ErrFraudProofInvalid;;
  match pf_Type proof with
  | FraudProofTypeStateTransition => verifyStateTransitionFraud bm proof
  | FraudProofTypeInvalidBatch => verifyInvalidBatchFraud bm proof
  | FraudProofTypeDoubleSpend => verifyDoubleSpendFraud bm proof
  | FraudProofTypeOther _ => throw ErrFraudProofInvalid
  end.

(** [FraudProver.SubmitFraudProof] *)
Definition storeFraudProof (bm : BatchManager) (proof : FraudProof) : M Prover unit :=
  fp ← gets fst;
  guard_err (HasFraudProof fp (pf_BatchIndex proof)) ErrFraudProofInvalid;;
  verifyFraudProof bm proof;;
  modify (fun p => (set_proofs (<[pf_BatchIndex proof := proof]> (fp_proofs p.1)) p.1, p.2)).
End prover.
End FraudProof.
