(* ===== verification/Sequencing.v ===== *)
(** * Sequencing and anchoring (rollup/sequencer.go, sequencer_elector.go, l1_anchor.go)

    Who may build batches, which transactions the sequencer accepts, and how a
    batch is anchored on L1. The validator set with its epochs and seeds is an
    argument, as are the hash functions and the signature scheme. *)

From Stdlib Require Import ZArith Lia.
From Stdlib.Strings Require Import Byte Ascii String.
From stdpp Require Import base list countable gmap strings numbers pretty.
From S2P Require Import Prelude Stack Rlp RollupConfig StateDB Rollup SparseMerkle Bridge BatchManager.

Module Sequencing.
Import Bridge BatchManager.
Import Rlp(Ty(..), Val(..), RlpError(..), EncodeToBytes).

(** ** Election *)

Definition ErrNoValidators : error := ErrErrorf "sequencer elector: validator set is empty".
Definition ErrVRFSeedNotAvailable : error :=
  ErrErrorf "sequencer elector: VRF seed not yet available for epoch at or above minVRFEpoch".

(** [ValidatorSetProvider] *)
Record ValidatorSetProvider : Type := mkProvider {
  vp_validators : list Address;
  vp_currentEpoch : Z;
  vp_epochSeed : Z -> Hash
}.

Record QPOSSequencerElector : Type := mkElector {
  el_provider : option ValidatorSetProvider;
  el_minVRFEpoch : Z
}.

Definition NewQPOSSequencerElector (provider : ValidatorSetProvider) : QPOSSequencerElector := mkElector (Some provider) 0.
Definition SetMinVRFEpoch (epoch : Z) (e : QPOSSequencerElector) : QPOSSequencerElector := mkElector (el_provider e) epoch.

Definition getValidators (e : QPOSSequencerElector) : list Address :=
  match el_provider e with Some p => vp_validators p | None => [] end.
Definition getEpochSeed (epoch : Z) (e : QPOSSequencerElector) : Hash :=
  match el_provider e with Some p => vp_epochSeed p epoch | None => zero_array 32 end.
Definition GetCurrentEpoch (e : QPOSSequencerElector) : Z :=
  match el_provider e with Some p => vp_currentEpoch p | None => 0 end.

Section election.
Context (keccak256 : list byte -> Hash).

Definition computeSequencerIndex (epoch : Z) (seed : Hash) (n : Z) : Z :=
  if n <=? 0 then 0 else
  let out := keccak256 (be_bytes 8 epoch ++ (if bool_decide (seed = zero_array 32) then [] else bytes_of seed)) in
  be (bytes_of out) mod n.

(** The sequencer of [epoch]; an index out of range would panic. *)
Definition sequencerOf (epoch : Z) (e : QPOSSequencerElector) : res Address :=
  let addrs := getValidators e in
  if len addrs =? 0 then Err ErrNoValidators else
  let seed := getEpochSeed epoch e in
  if bool_decide (seed = zero_array 32) && (el_minVRFEpoch e <=? epoch) && (0 <? el_minVRFEpoch e)
  then Err ErrVRFSeedNotAvailable else
  match addrs !! Z.to_nat (computeSequencerIndex epoch seed (len addrs)) with
  | Some a => Ok a
  | None => Panic
  end.

Definition GetCurrentSequencer (epoch : Z) (e : QPOSSequencerElector) : res Address := sequencerOf epoch e.
Definition GetNextSequencer (epoch : Z) (e : QPOSSequencerElector) : res Address := sequencerOf (u64 (epoch + 1)) e.

(** *** Whose turn it is *)

(** The fields of the engine that [shouldBuildBatch] works on; times are in
    nanoseconds, and no observation is [None]. *)
Record Turn : Type := mkTurn {
  t_elector : option QPOSSequencerElector;
  t_localAddress : Address;
  t_missedBatchCount : Z;
  t_lastSequencerAddr : Address;
  t_lastObservedBatchTime : option Z;
  t_lastObservedBatchEvidence : Hash
}.

Definition set_missed (n : Z) (t : Turn) : Turn :=
  mkTurn (t_elector t) (t_localAddress t) n (t_lastSequencerAddr t) (t_lastObservedBatchTime t) (t_lastObservedBatchEvidence t).

Definition newSequencer (current : Address) (t : Turn) : Turn :=
  mkTurn (t_elector t) (t_localAddress t) 0 current (t_lastObservedBatchTime t) (t_lastObservedBatchEvidence t).

(** [time.Duration(timeout) * blockTime] and [time.Since] wrap like [int64]. *)
Definition silent (config : RollupConfig) (now : Z) (t : Turn) : bool :=
  match t_lastObservedBatchTime t with
  | Some at_ =>
      if 0 <? cfg_BlockTime config
      then i64 (i64 (cfg_SequencerTimeout config) * cfg_BlockTime config) <=? now - at_
      else true
  | None => true
  end.

Definition shouldBuildBatch (config : RollupConfig) (now : Z) : M Turn bool :=
  t ← gets id;
  match t_elector t with
  | None => mret true
  | Some elector =>
      if bool_decide (t_localAddress t = zero_array 20) then mret true else
      let epoch := GetCurrentEpoch elector in
      match GetCurrentSequencer epoch elector with
      | Err _ => mret false
      | Ok current =>
          (if bool_decide (current = t_lastSequencerAddr t) then mret tt else modify (newSequencer current));;
          let missed := if bool_decide (current = t_lastSequencerAddr t) then t_missedBatchCount t else 0 in
          if bool_decide (current = t_localAddress t) then mret true else
          if (0 <? cfg_SequencerTimeout config) && (cfg_SequencerTimeout config <=? missed) then
            match GetNextSequencer epoch elector with
            | Err _ => mret false
            | Ok next =>
                if negb (silent config now t) then mret false else mret (bool_decide (next = t_localAddress t))
            | _ => panic
            end
          else mret false
      | _ => panic
      end
  end.

Definition RecordBatchReceivedFromCurrentSequencer (now : Z) (batchHash postStateRoot : Hash) (t : Turn) : Turn :=
  if bool_decide (batchHash = zero_array 32) || bool_decide (postStateRoot = zero_array 32) then t else
  match t_elector t with
  | None => t
  | Some _ => mkTurn (t_elector t) (t_localAddress t) 0 (t_lastSequencerAddr t) (Some now) batchHash
  end.
End election.

(** ** Accepting transactions *)

(** [VerifyTxSignature]: sender, public key, message, signature. *)
Definition TxSignatureVerifier : Type := Address -> list byte -> list byte -> list byte -> bool.

Record Sequencer : Type := mkSequencer {
  sq_config : RollupConfig;
  sq_txSigVerifier : option TxSignatureVerifier;
  sq_requireTxSig : bool
}.

Definition NewSequencer (config : RollupConfig) : Sequencer := mkSequencer config None true.
Definition SetTxSignatureVerifier (sv : option TxSignatureVerifier) (s : Sequencer) : Sequencer :=
  mkSequencer (sq_config s) sv (sq_requireTxSig s).
Definition SetRequireTxSig (require : bool) (s : Sequencer) : Sequencer :=
  mkSequencer (sq_config s) (sq_txSigVerifier s) require.

Section accept.
Context (sha256 : list byte -> Hash).

(** [None] is no error. *)
Definition validateTransaction (s : Sequencer) (tx : RollupTransaction) : option error :=
  if tx_GasLimit tx =? 0 then Some ErrInvalidGasLimit else
  if bool_decide (tx_From tx = zero_array 20) then Some (ErrErrorf "invalid sender address") else
  match tx_Value tx with
  | None => Some (ErrErrorf "transaction value cannot be nil")
  | Some _ =>
      if negb (tx_ChainID tx =? cfg_ChainID (sq_config s)) then
        Some (ErrErrorf "transaction chainID does not match rollup chainID (anti-replay)") else
      match sq_txSigVerifier s with
      | Some verify =>
          if len (tx_Signature tx) =? 0 then Some (ErrErrorf "transaction signature is required") else
          if len (tx_PublicKey tx) =? 0 then
            Some (ErrErrorf "transaction public key is required for L2 signature verification") else
          if negb (verify (tx_From tx) (tx_PublicKey tx) (bytes_of (SigningHash sha256 tx)) (tx_Signature tx)) then
            Some (ErrErrorf "invalid transaction signature") else None
      | None =>
          if sq_requireTxSig s then Some (ErrErrorf "transaction signature verifier not configured (fail-closed)") else None
      end
  end.

Definition AcceptTransaction (s : Sequencer) (tx : RollupTransaction) : M BatchManager unit :=
  match validateTransaction s tx with
  | Some err => throw err
  | None => AddTransaction sha256 tx
  end.
End accept.

(** ** Anchoring *)

Record AnchorRecord : Type := mkAnchor {
  ar_BatchHash : Hash;
  ar_PostStateRoot : Hash;
  ar_TxDataHash : Hash;
  ar_SubmitHeight : Z;
  ar_ChallengeBlocks : Z
}.

Definition ChallengeDeadlineHeight (r : AnchorRecord) : Z := u64 (ar_SubmitHeight r + ar_ChallengeBlocks r).

Record memoryL1Anchor : Type := mkL1Anchor {
  an_anchors : gmap Hash AnchorRecord;
  an_currentHeight : Z;
  an_challengeBlocks : Z
}.

Definition NewMemoryL1Anchor (challengeBlocks : Z) : memoryL1Anchor := mkL1Anchor ∅ 0 challengeBlocks.

Definition SetAnchorHeight (height : Z) (a : memoryL1Anchor) : memoryL1Anchor :=
  mkL1Anchor (an_anchors a) height (an_challengeBlocks a).

(** The bytes of a string. *)
Fixpoint string_bytes (s : string) : list byte :=
  match s with
  | EmptyString => []
  | String c s => byte_of_ascii c :: string_bytes s
  end.

(** The fields of [rlpRollupTransaction]; [Value] is the decimal text. *)
Definition wireTx (tx : RollupTransaction) : Val :=
  VList [VInt (tx_Nonce tx); VInt (tx_GasPrice tx); VInt (tx_GasLimit tx);
         VBytes (bytes_of (default (zero_array 20) (tx_To tx)));
         VBytes (match tx_Value tx with Some v => string_bytes (pretty v) | None => [] end);
         VBytes (tx_Data tx); VBytes (bytes_of (tx_From tx)); VBytes (bytes_of (tx_Hash tx));
         VBytes (tx_Signature tx); VInt (tx_ChainID tx); VBytes (tx_PublicKey tx)].

Definition rlpRollupTransaction : Ty :=
  TStruct [TUint 64; TUint 64; TUint 64; TByteArray 20; TBytes; TBytes; TByteArray 20; TByteArray 32; TBytes; TUint 64; TBytes].

Definition serializeBatchTxDataRLPV2 (txs : list RollupTransaction) : RlpError + list byte :=
  EncodeToBytes (VList (map wireTx txs)).

(** [json] is the JSON envelope written when the encoding fails. *)
Definition serializeBatchTxData (json : list RollupTransaction -> list byte) (txs : list RollupTransaction) : list byte :=
  if len txs =? 0 then [] else
  match serializeBatchTxDataRLPV2 txs with
  | inr body => if 0 <? len body then x02 :: body else json txs
  | inl _ => json txs
  end.

Section anchor.
Context (sha256 : list byte -> Hash).

Definition AnchorBatch (batchHash postStateRoot : Hash) (txData : list byte) : M memoryL1Anchor Z :=
  modify (fun a =>
    let height := u64 (an_currentHeight a + 1) in
    mkL1Anchor (<[batchHash := mkAnchor batchHash postStateRoot (sha256 txData) height (an_challengeBlocks a)]> (an_anchors a))
      height (an_challengeBlocks a));;
  gets an_currentHeight.

Definition maxAnchorRetries : nat := 3.

(** The retry loop; [outage] tells which attempts L1 does not answer. *)
Fixpoint anchorLoop (n : nat) (outage : nat -> bool) (batchHash postStateRoot : Hash) (txData : list byte) :
    M memoryL1Anchor (option Z) :=
  match n with
  | O => mret None
  | S n =>
      if outage (maxAnchorRetries - S n)%nat then anchorLoop n outage batchHash postStateRoot txData
      else h ← AnchorBatch batchHash postStateRoot txData; mret (Some h)
  end.
End anchor.
End Sequencing.
