(* ===== verification/Engine.v ===== *)
(** * The rollup engine (rollup/rollup.go, rollup/l1_anchor.go, rollup/persistence.go)

    The engine ties the parts together: it accepts transactions, builds, executes
    and submits batches, takes fraud proofs, and finalizes batches and hands them
    to the bridge. Its loops are sequences of the ticks below, whose clocks and L1
    outages are arguments; the ticks recover from panics. A step of the system is
    one call of the engine or of the bridge. Metrics, logs and the writes of the
    persistence layer are left out. *)

From Stdlib Require Import ZArith Lia.
From Stdlib.Strings Require Import Byte.
From stdpp Require Import base list countable gmap strings numbers.
From S2P Require Import Prelude Stack RollupConfig StateDB Rollup SparseMerkle Bridge BatchManager StateManager FraudProof Sequencing.

Module Engine.
Import Bridge BatchManager StateManager FraudProof Sequencing.

Inductive RollupStatus : Set :=
  | RollupStatusStopped | RollupStatusRunning | RollupStatusPaused | RollupStatusStopping.

#[export] Instance RollupStatus_eq_dec : EqDecision RollupStatus.
Proof. solve_decision. Defined.

(** [e_bridge] is the withdrawal processor; the accounts and roots it works on are
    those of the state manager. [e_proverSet] tells whether the fraud prover was
    given to the batch manager. *)
Record RollupEngine : Type := mkEngine {
  e_config : RollupConfig;
  e_status : RollupStatus;
  e_batchManager : BatchManager;
  e_sequencer : Sequencer;
  e_stateManager : StateManager;
  e_fraudProver : FraudProver;
  e_proverSet : bool;
  e_l1Anchor : option memoryL1Anchor;
  e_bridge : option L2Bridge;
  e_lastAnchorHeight : Z;
  e_consecutiveFailures : Z;
  e_turn : Turn;
  e_totalBatches : Z;
  e_totalTxs : Z
}.

Definition set_status (v : RollupStatus) (e : RollupEngine) : RollupEngine :=
  mkEngine (e_config e) v (e_batchManager e) (e_sequencer e) (e_stateManager e) (e_fraudProver e) (e_proverSet e)
    (e_l1Anchor e) (e_bridge e) (e_lastAnchorHeight e) (e_consecutiveFailures e) (e_turn e) (e_totalBatches e) (e_totalTxs e).
Definition set_bm (v : BatchManager) (e : RollupEngine) : RollupEngine :=
  mkEngine (e_config e) (e_status e) v (e_sequencer e) (e_stateManager e) (e_fraudProver e) (e_proverSet e)
    (e_l1Anchor e) (e_bridge e) (e_lastAnchorHeight e) (e_consecutiveFailures e) (e_turn e) (e_totalBatches e) (e_totalTxs e).
Definition set_sm (v : StateManager) (e : RollupEngine) : RollupEngine :=
  mkEngine (e_config e) (e_status e) (e_batchManager e) (e_sequencer e) v (e_fraudProver e) (e_proverSet e)
    (e_l1Anchor e) (e_bridge e) (e_lastAnchorHeight e) (e_consecutiveFailures e) (e_turn e) (e_totalBatches e) (e_totalTxs e).
Definition set_fp (v : FraudProver) (e : RollupEngine) : RollupEngine :=
  mkEngine (e_config e) (e_status e) (e_batchManager e) (e_sequencer e) (e_stateManager e) v (e_proverSet e)
    (e_l1Anchor e) (e_bridge e) (e_lastAnchorHeight e) (e_consecutiveFailures e) (e_turn e) (e_totalBatches e) (e_totalTxs e).
Definition set_anchor (v : option memoryL1Anchor) (height : Z) (e : RollupEngine) : RollupEngine :=
  mkEngine (e_config e) (e_status e) (e_batchManager e) (e_sequencer e) (e_stateManager e) (e_fraudProver e) (e_proverSet e)
    v (e_bridge e) height (e_consecutiveFailures e) (e_turn e) (e_totalBatches e) (e_totalTxs e).
Definition set_bridge (v : option L2Bridge) (e : RollupEngine) : RollupEngine :=
  mkEngine (e_config e) (e_status e) (e_batchManager e) (e_sequencer e) (e_stateManager e) (e_fraudProver e) (e_proverSet e)
    (e_l1Anchor e) v (e_lastAnchorHeight e) (e_consecutiveFailures e) (e_turn e) (e_totalBatches e) (e_totalTxs e).
Definition set_turn (v : Turn) (e : RollupEngine) : RollupEngine :=
  mkEngine (e_config e) (e_status e) (e_batchManager e) (e_sequencer e) (e_stateManager e) (e_fraudProver e) (e_proverSet e)
    (e_l1Anchor e) (e_bridge e) (e_lastAnchorHeight e) (e_consecutiveFailures e) v (e_totalBatches e) (e_totalTxs e).
Definition set_counters (failures batches txs : Z) (e : RollupEngine) : RollupEngine :=
  mkEngine (e_config e) (e_status e) (e_batchManager e) (e_sequencer e) (e_stateManager e) (e_fraudProver e) (e_proverSet e)
    (e_l1Anchor e) (e_bridge e) (e_lastAnchorHeight e) failures (e_turn e) batches txs.

(** One more failure in a row. *)
Definition failure (e : RollupEngine) : RollupEngine :=
  set_counters (u64 (e_consecutiveFailures e + 1)) (e_totalBatches e) (e_totalTxs e) e.

(** The fraud prover the batch manager asks. *)
Definition proverOf (e : RollupEngine) : option (Z -> bool) :=
  if e_proverSet e then Some (HasFraudProof (e_fraudProver e)) else None.

(** Methods of the parts. *)
Definition onBatches {A} (m : M BatchManager A) : M RollupEngine A := zoom e_batchManager set_bm m.
Definition onState {A} (m : M StateManager A) : M RollupEngine A := zoom e_stateManager set_sm m.
Definition onTurn {A} (m : M Turn A) : M RollupEngine A := zoom e_turn set_turn m.
Definition onProver {A} (m : M (FraudProver * StateManager) A) : M RollupEngine A :=
  zoom (fun e => (e_fraudProver e, e_stateManager e)) (fun p e => set_fp p.1 (set_sm p.2 e)) m.

(** The bridge sees the accounts and archived roots of the state manager. *)
Definition bridgeView (e : RollupEngine) (b : L2Bridge) : L2Bridge :=
  mkL2 (b_l1Bridge b) (sm_accountStates (e_stateManager e)) (sm_stateRoots (e_stateManager e)) (b_bridgeAddress b)
    (b_deposits b) (b_withdrawals b) (b_requiredDepositConfirmations b).

(** A method of the bridge, if there is one. *)
Definition onBridge {A} (m : M L2Bridge A) : M RollupEngine (option A) := fun e =>
  match e_bridge e with
  | None => (Ok None, e)
  | Some b =>
      let '(r, b') := m (bridgeView e b) in
      (match r with Ok a => Ok (Some a) | Err err => Err err | Panic => Panic | NoFuel => NoFuel end,
       set_bridge (Some b') (set_sm (set_accounts (b_accountStates b') (e_stateManager e)) e))
  end.

(** [defer func() { if r := recover(); r != nil { f } }()] *)
Definition recovered (f : RollupEngine -> RollupEngine) (m : M RollupEngine unit) : M RollupEngine unit := fun e =>
  match m e with
  | (Panic, e') => (Ok tt, f e')
  | r => r
  end.

Section engine.
Context (sha256 sha3 keccak256 : list byte -> Hash) (json : list RollupTransaction -> list byte).

Definition NewRollupEngine (config : RollupConfig) : error + RollupEngine :=
  match Validate config with
  | Some err => inl err
  | None =>
      inr (mkEngine config RollupStatusStopped (NewBatchManager config (cfg_GenesisStateRoot config)) (NewSequencer config)
             (NewStateManager sha256 (Some config)) NewFraudProver false None None 0 0
             (mkTurn None (zero_array 20) 0 (zero_array 20) None (zero_array 32)) 0 0)
  end.

(** [Start] and [Stop], without the goroutines they start and wait for. *)
Definition Start : M RollupEngine unit :=
  e ← gets id;
  guard_err (bool_decide (e_status e = RollupStatusRunning)) ErrRollupAlreadyRunning;;
  modify (set_status RollupStatusRunning).

Definition Stop : M RollupEngine unit :=
  e ← gets id;
  guard_err (negb (bool_decide (e_status e = RollupStatusRunning))) ErrRollupNotRunning;;
  modify (set_status RollupStatusStopped).

Definition SubmitL2Transaction (tx : RollupTransaction) : M RollupEngine unit :=
  e ← gets id;
  guard_err (negb (bool_decide (e_status e = RollupStatusRunning))) ErrRollupNotRunning;;
  onBatches (AcceptTransaction sha256 (e_sequencer e) tx).

(** *** Anchoring *)

(** [anchorBatch] for the batch object with this index. *)
Definition anchorBatch (outage : nat -> bool) (index : Z) : M RollupEngine unit :=
  e ← gets id;
  match e_l1Anchor e, bm_batches (e_batchManager e) !! index with
  | Some anchor, Some batch =>
      let txData := serializeBatchTxData json (bt_Transactions batch) in
      let '(r, anchor') := anchorLoop sha256 maxAnchorRetries outage (bt_BatchHash batch) (bt_PostStateRoot batch) txData anchor in
      match r with
      | Ok (Some submitHeight) =>
          modify (fun e => set_anchor (Some anchor') submitHeight
            (set_bm (SetBatchAnchor index submitHeight (update index (set_Anchor false 0) (e_batchManager e))) e))
      | _ =>
          modify (fun e => set_anchor (Some anchor') (e_lastAnchorHeight e)
            (set_bm (update index (fun b => set_Anchor true (bt_AnchorRetries b + 1) b) (e_batchManager e)) e))
      end
  | _, _ => mret tt
  end.

(** *** Building batches *)

Definition computeSubmitHash (batchHash postRoot : Hash) : Hash := keccak256 (bytes_of batchHash ++ bytes_of postRoot).

(** The end of [tryBuildAndSubmitBatch], for a batch that was executed. *)
Definition submitExecuted (now : Z) (outage : nat -> bool) (batch : Batch) (postRoot : Hash) (gasUsed : Z) :
    M RollupEngine unit :=
  modify (fun e => set_bm (update (bt_Index batch) (set_TotalGasUsed gasUsed) (e_batchManager e)) e);;
  let submitHash := computeSubmitHash (bt_BatchHash batch) postRoot in
  err ← attempt (onBatches (SubmitBatch (now / Second) (bt_Index batch) postRoot submitHash));
  match err with
  | inl _ => modify failure
  | inr _ =>
      modify (fun e => set_turn (set_missed 0 (e_turn e))
        (set_counters 0 (u64 (e_totalBatches e + 1)) (u64 (e_totalTxs e + bt_TxCount batch)) e));;
      anchorBatch outage (bt_Index batch);;
      modify (fun e => set_turn (RecordBatchReceivedFromCurrentSequencer now (bt_BatchHash batch) postRoot (e_turn e)) e)
  end.

(** [now] is in nanoseconds. *)
Definition tryBuildAndSubmitBatch (now : Z) (outage : nat -> bool) : M RollupEngine unit :=
  recovered failure (
    e ← gets id;
    if negb (bool_decide (e_status e = RollupStatusRunning)) then mret tt else
    turn ← onTurn (shouldBuildBatch keccak256 (e_config e) now);
    if negb turn then modify (fun e => set_turn (set_missed (u64 (t_missedBatchCount (e_turn e) + 1)) (e_turn e)) e) else
    built ← attempt (onBatches (BuildBatch sha256 (now / Second)));
    match built with
    | inl err =>
        if bool_decide (err = ErrInsufficientTxs) || bool_decide (err = ErrBatchFull) then mret tt else modify failure
    | inr batch =>
        r ← attempt (onState (ProcessBatch sha256 (bt_Index batch) (bt_PrevStateRoot batch) (bt_Transactions batch)));
        match r with
        | inl _ => modify failure
        | inr (postRoot, gasUsed) => submitExecuted now outage batch postRoot gasUsed
        end
    end).

(** *** Finalizing *)

(** What the loop does for one batch that is no longer held back. *)
Definition finalizeOne (now index : Z) : M RollupEngine unit :=
  e ← gets id;
  err ← attempt (onBatches (FinalizeBatch (proverOf e) (now / Second) index));
  match err with
  | inl _ => mret tt
  | inr _ =>
      e ← gets id;
      match bm_batches (e_batchManager e) !! index with
      | None => mret tt
      | Some batch =>
          w ← attempt (onBridge (ProcessFinalizedBatch sha256 (now / Second) batch));
          match w with
          | inr (Some root) => modify (fun e => set_bm (update index (set_WithdrawalRoot root) (e_batchManager e)) e)
          | _ => mret tt
          end
      end
  end.

Fixpoint finalizeLoop (now : Z) (indices : list Z) : M RollupEngine unit :=
  match indices with
  | [] => mret tt
  | index :: indices =>
      e ← gets id;
      (if match bm_batches (e_batchManager e) !! index with Some b => bt_AnchorFailed b | None => false end
       then mret tt else finalizeOne now index);;
      finalizeLoop now indices
  end.

Definition tryFinalizeBatches (now : Z) : M RollupEngine unit :=
  recovered id (
    e ← gets id;
    if negb (bool_decide (e_status e = RollupStatusRunning)) then mret tt else
    let indices := GetSubmittedBatchIndices (e_batchManager e) in
    if len indices =? 0 then mret tt else
    modify (fun e =>
      match e_l1Anchor e with
      | Some a => set_bm (SetL1CurrentHeight (an_currentHeight a) (e_batchManager e)) e
      | None => e
      end);;
    finalizeLoop now indices).

(** *** Fraud proofs *)

(** [RollupEngine.SubmitFraudProof] *)
Definition SubmitFraudProof (proof : FraudProof) : M RollupEngine unit :=
  e ← gets id;
  onProver (storeFraudProof sha256 sha3 (e_batchManager e) proof);;
  e ← gets id;
  attempt (onBatches (ChallengeBatch (proverOf e) (pf_BatchIndex proof)));;
  mret tt.

(** *** Restart *)

(** What [RestoreState] found on disk. *)
Record Persisted : Type := mkPersisted {
  ps_states : option (Accounts * gmap Z Hash);
  ps_batches : list Batch;
  ps_nextIndex : Z;
  ps_lastRoot : Hash;
  ps_proofs : list FraudProof;
  ps_anchors : gmap Hash AnchorRecord
}.

Definition restoreAnchors (anchors : gmap Hash AnchorRecord) (a : memoryL1Anchor) : memoryL1Anchor :=
  mkL1Anchor (anchors ∪ an_anchors a)
    (map_fold (fun _ r h => Z.max (ar_SubmitHeight r) h) (an_currentHeight a) anchors) (an_challengeBlocks a).

Definition RestoreState (p : Persisted) : M RollupEngine unit :=
  modify (fun e =>
    match ps_states p with
    | Some (states, roots) => set_sm (RestoreFromSnapshot sha256 states roots (e_stateManager e)) e
    | None => e
    end);;
  modify (fun e => set_bm (RestoreMeta (ps_nextIndex p) (ps_lastRoot p) (RestoreBatches (ps_batches p) (e_batchManager e))) e);;
  modify (fun e => set_fp (RestoreFraudProofs (ps_proofs p) (e_fraudProver e)) e);;
  modify (fun e =>
    match e_l1Anchor e with
    | Some a => set_anchor (Some (restoreAnchors (ps_anchors p) a))
                  (map_fold (fun _ r h => Z.max (ar_SubmitHeight r) h) 0 (ps_anchors p)) e
    | None => e
    end);;
  modify (fun e => set_counters (e_consecutiveFailures e) (len (ps_batches p))
                     (u64 (foldl (fun n b => n + bt_TxCount b) (e_totalTxs e) (ps_batches p))) e);;
  guard_err (bool_decide (is_Some (ps_states p)) && (len (ps_batches p) =? 0) && (0 <? ps_nextIndex p))
    (ErrErrorf "inconsistent persisted state: batches are missing");;
  guard_err ((0 <? len (ps_batches p)) && (0 <? ps_nextIndex p) && negb (bool_decide (ps_lastRoot p = zero_array 32)) &&
             negb (existsb (fun b => bool_decide (bt_PostStateRoot b = ps_lastRoot p)) (ps_batches p)))
    (ErrErrorf "inconsistent persisted state: meta root matches no batch").

(** ** The system *)

(** The calls the node and its users make while the engine runs; the last but one
    is a withdrawal that is claimed from the L1 bridge itself. [RestoreState] is
    not among them: [Start] calls it once, before the loops. *)
Inductive Call : Type :=
  | CallTransaction (tx : RollupTransaction)
  | CallBuild (now : Z) (outage : nat -> bool)
  | CallFinalize (now : Z)
  | CallFraudProof (proof : FraudProof)
  | CallDeposit (now : Z) (depositor : Address) (amount : option Z)
  | CallMint (reader : option Z) (depositHash : Hash)
  | CallRetry (hashes : list Hash)
  | CallL1Withdraw (withdrawer : Address) (amount : option Z) (batchIndex txIndex : Z) (batchHash : Hash)
      (proof : option MerkleWithdrawalProof)
  | CallHeight (height : Z).

Definition runCall (c : Call) (e : RollupEngine) : RollupEngine :=
  match c with
  | CallTransaction tx => (SubmitL2Transaction tx e).2
  | CallBuild now outage => (tryBuildAndSubmitBatch now outage e).2
  | CallFinalize now => (tryFinalizeBatches now e).2
  | CallFraudProof proof => (SubmitFraudProof proof e).2
  | CallDeposit now who amount => (onBridge (zoom b_l1Bridge set_l1 (L1Deposit sha256 now who amount)) e).2
  | CallMint reader h => (onBridge (ProcessDeposit reader h) e).2
  | CallRetry hashes => (onBridge (RetryPendingWithdrawals sha256 hashes) e).2
  | CallL1Withdraw who amount batchIndex txIndex batchHash proof =>
      (onBridge (zoom b_l1Bridge set_l1 (ProcessWithdrawal sha256 who amount batchIndex txIndex batchHash proof)) e).2
  | CallHeight height =>
      match e_l1Anchor e with
      | Some a => set_anchor (Some (SetAnchorHeight height a)) (e_lastAnchorHeight e) e
      | None => e
      end
  end.

(** One step of the system. *)
Inductive step (e : RollupEngine) : RollupEngine -> Prop :=
  | step_call c : step e (runCall c e).
End engine.
End Engine.
