(* ===== verification/Wp.v ===== *)
(** * Weakest preconditions

    [wp m Q E s] says that [m], started in [s], neither panics nor runs out of
    fuel, and ends with a result and a state that satisfy [Q] or with an error
    and a state that satisfy [E]. *)

From Stdlib Require Import ZArith Lia.
From stdpp Require Import base list numbers.
From S2P Require Import Prelude.

Definition wp {S A} (m : M S A) (Q : A -> S -> Prop) (E : error -> S -> Prop) (s : S) : Prop :=
  match m s with
  | (Ok a, s') => Q a s'
  | (Err e, s') => E e s'
  | _ => False
  end.

Section rules.
Context {S : Type}.
Implicit Types s : S.

Lemma wp_bind {A B} (m : M S A) (f : A -> M S B) Q E s :
  wp m (fun a => wp (f a) Q E) E s -> wp (m ≫= f) Q E s.
Proof. unfold wp, mbind, M_bind. by destruct (m s) as [[a|e| |] s']. Qed.

Lemma wp_mono {A} (m : M S A) (Q Q' : A -> S -> Prop) (E E' : error -> S -> Prop) s :
  wp m Q E s -> (forall a s', Q a s' -> Q' a s') -> (forall e s', E e s' -> E' e s') -> wp m Q' E' s.
Proof. unfold wp. intros H HQ HE. destruct (m s) as [[a|e| |] s']; auto. Qed.

Lemma wp_guard b e (Q : unit -> S -> Prop) (E : error -> S -> Prop) s :
  (b = true -> E e s) -> (b = false -> Q tt s) -> wp (guard_err b e) Q E s.
Proof. destruct b; cbv [wp guard_err throw mret M_ret]; auto. Qed.

Lemma wp_attempt {A} (m : M S A) (Q : error + A -> S -> Prop) (E : error -> S -> Prop) s :
  wp m (fun a => Q (inr a)) (fun e => Q (inl e)) s -> wp (attempt m) Q E s.
Proof. unfold wp, attempt. by destruct (m s) as [[a|e| |] s']. Qed.

Lemma wp_zoom {T A} (get : T -> S) (set : S -> T -> T) (m : M S A) (Q : A -> T -> Prop) (E : error -> T -> Prop) t :
  wp m (fun a s => Q a (set s t)) (fun e s => E e (set s t)) (get t) -> wp (zoom get set m) Q E t.
Proof. unfold wp, zoom. by destruct (m (get t)) as [[a|e| |] s']. Qed.

Lemma wp_defer {A} (f : S -> S) (m : M S A) (Q : A -> S -> Prop) (E : error -> S -> Prop) s :
  wp m (fun a s => Q a (f s)) (fun e s => E e (f s)) s -> wp (defer f m) Q E s.
Proof. unfold wp, defer. by destruct (m s) as [[a|e| |] s']. Qed.

(** A run that is known. *)
Lemma wp_Ok {A} (m : M S A) (Q : A -> S -> Prop) (E : error -> S -> Prop) s a s' :
  wp m Q E s -> m s = (Ok a, s') -> Q a s'.
Proof. unfold wp. intros H R. by rewrite R in H. Qed.

Lemma wp_Err {A} (m : M S A) (Q : A -> S -> Prop) (E : error -> S -> Prop) s e s' :
  wp m Q E s -> m s = (Err e, s') -> E e s'.
Proof. unfold wp. intros H R. by rewrite R in H. Qed.
End rules.
