(* ===== verification/StateManagerSpec.v ===== *)
(** * Properties of the state manager

    What a batch does to the accounts, the archive of roots and the history of
    snapshots. The executor of contracts is used through the class
    [ExecutorLaws]; the executor of the virtual machine is an instance. *)

From Stdlib Require Import ZArith Lia.
From Stdlib.Strings Require Import Byte.
From stdpp Require Import base list countable gmap strings numbers.
From S2P Require Import Prelude Wp Stack Memory Gas Opcodes StateDB Rollup Env OpsArith OpsState Bytecode Calls Interp Frame FrameOps CallFrame CallRules CallOps CallFamily CreateOps Safety Executor Machine ExecutorSpec SparseMerkle MerkleSpec Bridge BridgeSpec RollupConfig StateManager.

Module StateManagerSpec.
Import SparseMerkle MerkleSpec Bridge StateManager.

(** Balances are not negative and code is shorter than a slice can be. *)
Abbreviation states_ok m := (view_ok (view_of m)).

Abbreviation total m := (supply (view_of m)).

(** What an executor promises: a call returns within its gas and mints nothing. *)
Class ExecutorLaws (call : QVMExecutor) : Prop :=
  call_returns caller callee input gas value block m :
    states_ok m -> is_u64 gas ->
    exists r db, call caller callee input gas value block 0 (newRollupStateDB m) = (Ok r, db) /\
      0 <= GasUsed r <= gas /\ states_ok (rs_states db) /\ total (rs_states db) <= total m.

(** ** The executor of the virtual machine *)

Section machine.
Context (sha256 : list byte -> Hash) (e : Executor.Executor (RollupDB sha256)).

(** Every call starts in a world of its own, with an empty cache of jump
    destinations: a cached entry is what the analysis of the code gives. *)
Definition machineCall : QVMExecutor := fun caller callee input gas value block depth db =>
  let '(r, w) := Executor.Call e (frame_fuel gas) caller callee input gas value block depth (mkWorld db ∅ 0 ∅ ∅ ∅ ∅ []) in
  (r, w_db w).

Lemma machine_laws : ExecutorSpec.executor_ok e -> ExecutorLaws machineCall.
Proof.
  intros He caller callee input gas value block m Hm Hg.
  set (w := mkWorld (DB := RollupDB sha256) (newRollupStateDB m) ∅ 0 ∅ ∅ ∅ ∅ []).
  assert (HO : db_ok (w_db w)) by (split; [exact Hm|apply Forall_nil_2]).
  destruct (ExecutorSpec.runs_start e (frame_fuel gas) (ExecutorSpec.EntryCall caller callee input value) gas block 0 (w_db w) He I)
    with (w := w) as (r & w' & E & Hr & ((_ & HS & _) & [HV _] & _) & _).
  - split; [done|]. by split.
  - by apply ExecutorSpec.untouched_refl.
  - exists r, (w_db w'). cbn [ExecutorSpec.start] in E. split; [|done].
    change (machineCall caller callee input gas value block 0 (newRollupStateDB m)) with
      (let '(r, w) := Executor.Call e (frame_fuel gas) caller callee input gas value block 0 w in (r, w_db w)).
    by rewrite E.
Qed.
End machine.

(** ** Accounts *)

Lemma deepCopy_id m : deepCopyAccounts m = m.
Proof. unfold deepCopyAccounts. rewrite <- (map_fmap_id m) at 2. apply map_fmap_ext. by intros i [] _. Qed.

Lemma total_alter f a m acc : m !! a = Some acc -> total (alter f a m) = total m + (ra_Balance (f acc) - ra_Balance acc).
Proof.
  intros H. rewrite (supply_change (view_of m) (view_of (alter f a m)) a); unfold balance_of.
  - rewrite !account_view_of. unfold acc_of. by rewrite lookup_alter_eq, H.
  - intros b Hb. rewrite !account_view_of. unfold acc_of. by rewrite lookup_alter_ne.
Qed.

Lemma ok_alter f a m acc :
  states_ok m -> m !! a = Some acc -> 0 <= ra_Balance (f acc) -> ra_Code (f acc) = ra_Code acc -> states_ok (alter f a m).
Proof.
  intros Hm H HB HC b. rewrite account_view_of. unfold acc_of. specialize (Hm b). rewrite account_view_of in Hm. unfold acc_of in Hm.
  destruct (decide (a = b)) as [<-|N]; [|by rewrite lookup_alter_ne]. rewrite lookup_alter_eq, H. rewrite H in Hm.
  destruct Hm as [_ HL]. split; [done|]. simpl in *. by rewrite HC.
Qed.

Lemma ok_balance m a acc : states_ok m -> m !! a = Some acc -> 0 <= ra_Balance acc.
Proof. intros Hm H. specialize (Hm a). rewrite account_view_of in Hm. unfold acc_of in Hm. rewrite H in Hm. apply Hm. Qed.

Lemma supply_mono v w : (forall a, balance_of v a <= balance_of w a) -> supply v <= supply w.
Proof.
  intros H. rewrite <- (supply_superset (dom v ∪ dom w) v), <- (supply_superset (dom v ∪ dom w) w) by set_solver.
  generalize (dom v ∪ dom w). intros X. induction X as [|a X Ha IH] using set_ind_L; [done|].
  rewrite !supply_on_insert by done. specialize (H a). lia.
Qed.

Lemma supply_nonneg m : states_ok m -> 0 <= supply (view_of m).
Proof.
  intros Hm. replace 0 with (supply (view_of ∅)) by (vm_compute; done). apply supply_mono. intros a. specialize (Hm a).
  unfold balance_of. rewrite !account_view_of in *. unfold acc_of at 1. rewrite lookup_empty. apply Hm.
Qed.

(** Reading an account creates it. *)
Lemma wp_getOrCreate addr m Q E :
  (forall m', m' !! addr = Some (acc_of m addr) -> view_of m' ≈ view_of m -> m ⊆ m' -> Q (acc_of m addr) m') ->
  wp (getOrCreateAccount addr) Q E m.
Proof.
  intros H. unfold getOrCreateAccount. apply wp_bind. change (wp (match m !! addr with Some acc => mret acc | None =>
    modify (<[addr := emptyRollupAccount]>);; mret emptyRollupAccount end) Q E m).
  destruct (m !! addr) as [acc|] eqn:A; unfold acc_of in H; rewrite A in H.
  - by apply H.
  - apply (H (<[addr := emptyRollupAccount]> m)); [by rewrite lookup_insert_eq| |by apply insert_subseteq].
    intros b. rewrite !account_view_of. unfold acc_of. destruct (decide (addr = b)) as [<-|N]; [by rewrite lookup_insert_eq, A|].
    by rewrite lookup_insert_ne.
Qed.

(** ** Transactions *)

(** A transaction with a value and numbers of their types. The code does not
    check that the value is not negative. *)
Record tx_ok (tx : RollupTransaction) : Prop := {
  txo_value : 0 <= valueOf tx;
  txo_limit : is_u64 (tx_GasLimit tx);
  txo_price : is_u64 (tx_GasPrice tx)
}.

Section transactions.
Context (c : RollupConfig) (executor : option QVMExecutor).
Context (HX : forall call, executor = Some call -> ExecutorLaws call).

(** What a withdrawal takes from L2. *)
Definition burned (tx : RollupTransaction) : Z := if isWithdrawalBurn (Some c) tx then valueOf tx else 0.
Definition burnedBy (txs : list RollupTransaction) : Z := foldr (fun tx n => burned tx + n) 0 txs.

(** After a run: the accounts are fine, and at least [v] less is there. *)
Definition lost (v : Z) (m m' : Accounts) : Prop := states_ok m' /\ total m' + v <= total m.

Abbreviation okError := (fun (_ : error) (m : Accounts) => states_ok m).

Lemma wp_addGas g n (Q : Z -> Accounts -> Prop) m : states_ok m -> (forall g', Q g' m) -> wp (addGas (Some c) g n) Q okError m.
Proof.
  intros Hm H. unfold addGas. destruct (SafeAddGas g n) as [|g']; [done|]. apply wp_bind, wp_guard; [done|]. intros _. apply H.
Qed.

Lemma gasCost_nonneg tx : tx_ok tx -> 0 <= gasCostOf tx.
Proof. intros [_ [H1 _] [H2 _]]. by apply Z.mul_nonneg_nonneg. Qed.

(** The sender pays [v]. *)
Lemma spend_lost v m a acc : states_ok m -> m !! a = Some acc -> v <= ra_Balance acc -> lost v m (alter (spend v) a m).
Proof.
  intros Hm Ha Hv. split; [apply (ok_alter _ a m acc); simpl; try done; lia|]. rewrite (total_alter _ a m acc) by done. simpl. lia.
Qed.

Lemma wp_burn g acc tx m :
  tx_ok tx -> states_ok m -> m !! tx_From tx = Some acc ->
  wp (burn (Some c) g acc tx) (fun _ m' => lost (valueOf tx) m m') okError m.
Proof.
  intros Ht Hm Ha. pose proof (gasCost_nonneg tx Ht). unfold burn. apply wp_bind, wp_guard; [done|]. intros HB%Z.ltb_ge.
  destruct (spend_lost (valueOf tx + gasCostOf tx) m (tx_From tx) acc) as [H1 H2]; try done.
  apply wp_bind. cbn. apply wp_addGas; [done|]. intros _. split; [done|lia].
Qed.

Lemma wp_transfer g acc tx m :
  tx_ok tx -> states_ok m -> m !! tx_From tx = Some acc ->
  wp (simpleTransfer (Some c) g acc tx) (fun _ m' => lost 0 m m') okError m.
Proof.
  intros Ht Hm Ha. pose proof (gasCost_nonneg tx Ht). destruct Ht as [Hv _ _]. unfold simpleTransfer.
  apply wp_bind, wp_guard; [done|]. intros HB%Z.ltb_ge.
  destruct (spend_lost (valueOf tx + gasCostOf tx) m (tx_From tx) acc) as [H1 H2]; try done.
  apply wp_bind. cbn. apply wp_bind, wp_addGas; [done|]. intros g'.
  destruct (tx_To tx) as [to|]; [|split; [done|lia]].
  apply wp_bind, wp_bind, wp_getOrCreate. intros m2 A2 V2 _. cbn. rewrite <- V2 in H1, H2.
  pose proof (ok_balance m2 _ _ H1 A2). split; [apply (ok_alter _ to m2 _ H1 A2); simpl; [lia|done]|].
  rewrite (total_alter _ to m2 _ A2). simpl. lia.
Qed.

Lemma wp_contractCall call to g acc tx m :
  ExecutorLaws call -> tx_ok tx -> states_ok m -> m !! tx_From tx = Some acc ->
  wp (contractCall (Some c) call to g acc tx) (fun _ m' => lost 0 m m') okError m.
Proof.
  intros Hcall Ht Hm Ha. pose proof (gasCost_nonneg tx Ht). destruct Ht as [Hv HL HP]. unfold contractCall.
  apply wp_bind, wp_guard; [done|]. intros HB%Z.ltb_ge. apply wp_bind. cbn.
  destruct (spend_lost (gasCostOf tx) m (tx_From tx) acc) as [H1 H2]; try done; [lia|].
  apply wp_bind. unfold executeContractCall. apply wp_bind, wp_zoom. unfold wp.
  destruct (Hcall (tx_From tx) to (tx_Data tx) (tx_GasLimit tx) (Some (valueOf tx)) (callContext c tx) _ H1 HL)
    as (r & db & -> & Hr & HS & HT). apply wp_bind, wp_getOrCreate. intros m2 A2 V2 _. rewrite <- V2 in HS, HT.
  unfold gasCostOf, is_u64 in *. destruct (Z.ltb_spec (tx_GasLimit tx) (GasUsed r)); [lia|]. apply wp_bind.
  destruct (Z.ltb_spec (GasUsed r) (tx_GasLimit tx)); cbn; [|by apply wp_addGas; [|split; [|lia]]].
  pose proof (ok_balance m2 _ _ HS A2).
  assert (HR : 0 <= (tx_GasLimit tx - GasUsed r) * tx_GasPrice tx <= tx_GasLimit tx * tx_GasPrice tx) by nia.
  assert (HS' : states_ok (alter (credit ((tx_GasLimit tx - GasUsed r) * tx_GasPrice tx)) (tx_From tx) m2))
    by (apply (ok_alter _ _ m2 _ HS A2); simpl; [lia|done]).
  apply wp_addGas; [done|]. intros _. split; [done|]. rewrite (total_alter _ _ m2 _ A2). simpl. lia.
Qed.

(** A transaction takes at least what it withdraws from the accounts, and leaves
    no balance negative. *)
Lemma wp_processTx g tx m :
  tx_ok tx -> states_ok m -> wp (processTx (Some c) executor g tx) (fun _ m' => lost (burned tx) m m') okError m.
Proof.
  intros Ht Hm. unfold processTx, burned. apply wp_bind, wp_getOrCreate. intros m1 A1 V1 _.
  assert (HL : forall v m', lost v m1 m' -> lost v m m') by (intros v m' [? ?]; split; [done|by rewrite <- V1]).
  rewrite <- V1 in Hm. apply wp_bind, wp_guard; [done|]. intros _. destruct (isWithdrawalBurn (Some c) tx).
  { eapply wp_mono; [by apply wp_burn|auto|done]. }
  apply wp_bind. unfold isContract. destruct (tx_To tx) as [to|] eqn:ET; cbn;
    [|by eapply wp_mono; [apply wp_transfer|auto|done]].
  apply wp_bind, wp_getOrCreate. intros m2 A2 V2 S2. cbn. rewrite <- V2 in Hm.
  assert (HL2 : forall v m', lost v m2 m' -> lost v m m') by (intros v m' [? ?]; apply HL; split; [done|by rewrite <- V2]).
  assert (A3 : m2 !! tx_From tx = Some (acc_of m (tx_From tx))) by (by eapply lookup_weaken).
  destruct executor as [call|]; [destruct (negb _)|]; (apply (wp_mono _ (fun _ m' => lost 0 m2 m') _ okError); [|auto|done]);
    [apply wp_contractCall; [by apply HX|done..]|by apply wp_transfer..].
Qed.

Lemma wp_processTxs txs : forall g m, Forall tx_ok txs -> states_ok m ->
  wp (processTxs (Some c) executor g txs) (fun _ m' => lost (burnedBy txs) m m') okError m.
Proof.
  induction txs as [|tx txs IH]; intros g m HF Hm; [split; [done|simpl; lia]|]. apply list.Forall_cons in HF as [Ht HF].
  cbn [processTxs]. apply wp_bind. eapply wp_mono; [by apply wp_processTx| |done]. intros g1 m1 [H1 H2].
  eapply wp_mono; [by apply IH| |done]. intros g2 m2 [H3 H4]. split; [done|]. cbn [burnedBy foldr]. fold (burnedBy txs). lia.
Qed.
End transactions.

(** ** Snapshots *)

(** The snapshots are those the order lists, once each, and not too many. *)
Record history_ok (s : StateManager) : Prop := {
  ho_NoDup : NoDup (sm_stateHistoryOrder s);
  ho_order r : r ∈ sm_stateHistoryOrder s <-> is_Some (sm_stateHistory s !! r);
  ho_limit : 0 < sm_maxHistoryEntries s;
  ho_size : Z.of_nat (size (sm_stateHistory s)) <= sm_maxHistoryEntries s
}.

(** Only the history may have changed. *)
Record same_but_history (s s' : StateManager) : Prop := {
  sb_config : sm_config s' = sm_config s;
  sb_max : sm_maxHistoryEntries s' = sm_maxHistoryEntries s;
  sb_roots : sm_stateRoots s' = sm_stateRoots s;
  sb_accounts : sm_accountStates s' = sm_accountStates s;
  sb_executor : sm_executor s' = sm_executor s
}.

(** One snapshot too many: the oldest goes. *)
Lemma evict_one limit order history :
  NoDup order -> (forall r, r ∈ order <-> is_Some (history !! r)) -> 0 <= limit -> Z.of_nat (size history) <= limit + 1 ->
  evictLoop limit order history =
    Ok (if Z.of_nat (size history) <=? limit then (history, order)
        else match order with oldest :: order => (delete oldest history, order) | [] => (history, order) end).
Proof.
  intros HN HO Hl Hs. destruct order as [|oldest order]; cbn [evictLoop]; destruct (Z.leb_spec (Z.of_nat (size history)) limit) as [|Hlt]; try done.
  - replace history with (∅ : gmap Hash Accounts) in Hlt; [rewrite map_size_empty in Hlt; lia|].
    symmetry. apply map_empty. intros r. destruct (history !! r) eqn:E; [|done].
    assert (HE : r ∈ ([] : list Hash)) by (apply HO; by eexists). by apply not_elem_of_nil in HE.
  - destruct (proj1 (HO oldest)) as [S HS]; [by left|]. pose proof (map_size_delete_Some oldest history (ex_intro _ S HS)) as HD.
    assert (size history <> 0%nat) by (intros H0%map_size_empty_inv; by rewrite H0, lookup_empty in HS).
    destruct order; cbn [evictLoop]; (destruct (Z.leb_spec (Z.of_nat (size (delete oldest history))) limit); [done|lia]).
Qed.

Lemma evictLoop_ok (order : list Hash) (history : gmap Hash Accounts) oldest :
  NoDup (oldest :: order) -> (forall r, r ∈ oldest :: order <-> is_Some (history !! r)) ->
  forall r, r ∈ order <-> is_Some (delete oldest history !! r).
Proof.
  intros [HN _]%list.NoDup_cons HO r. specialize (HO r). rewrite elem_of_cons in HO. destruct (decide (oldest = r)) as [<-|N].
  - rewrite lookup_delete_eq. split; [done|by intros []].
  - rewrite lookup_delete_ne by done. naive_solver.
Qed.

(** What archiving does to the history: nothing is replaced, and the new snapshot
    is there. *)
Record archived (r : Hash) (st : Accounts) (s s' : StateManager) : Prop := {
  av_same : same_but_history s s';
  av_ok : history_ok s';
  av_new : sm_stateHistory s' !! r = Some (default st (sm_stateHistory s !! r));
  av_old r' S : sm_stateHistory s' !! r' = Some S -> sm_stateHistory s !! r' = Some S \/ (r' = r /\ S = st);
  av_smt : sm_smt s' = sm_smt s
}.

Lemma wp_archive r st s E : history_ok s -> wp (archiveStateSnapshot r st) (fun _ s' => archived r st s s') E s.
Proof.
  intros HH. pose proof HH as [HN HO Hl Hs]. unfold archiveStateSnapshot. apply wp_bind. cbn. case_bool_decide as Hr.
  { destruct Hr as [S HS]. cbn. split; try done. by rewrite HS. auto. }
  assert (Hr' : sm_stateHistory s !! r = None) by (by apply eq_None_not_Some). rewrite deepCopy_id.
  destruct (Z.leb_spec (sm_maxHistoryEntries s) 0); [lia|].
  assert (HNs : NoDup (sm_stateHistoryOrder s ++ [r])).
  { apply list.NoDup_app. split; [done|]. split; [|apply NoDup_singleton]. intros x Hx ->%list_elem_of_singleton. by apply Hr, HO. }
  assert (HOs : forall x, x ∈ sm_stateHistoryOrder s ++ [r] <-> is_Some (<[r:=st]> (sm_stateHistory s) !! x)).
  { intros x. rewrite elem_of_app, list_elem_of_singleton, HO, lookup_insert_is_Some'. naive_solver. }
  unfold wp, mbind, M_bind, ofRes. rewrite evict_one by (try done; try lia; rewrite map_size_insert_None by done; lia).
  rewrite map_size_insert_None by done.
  destruct (Z.leb_spec (Z.of_nat (S (size (sm_stateHistory s)))) (sm_maxHistoryEntries s)); cbn.
  - split; cbn; [done| | | |done].
    + split; cbn; [done|done|done|]. rewrite map_size_insert_None by done. lia.
    + by rewrite lookup_insert_eq, Hr'.
    + intros r' S. rewrite lookup_insert_Some. naive_solver.
  - destruct (sm_stateHistoryOrder s) as [|oldest order] eqn:EO.
    { exfalso. assert (HE : sm_stateHistory s = ∅).
      { apply map_empty. intros x. apply eq_None_not_Some. intros Hx%HO. by apply not_elem_of_nil in Hx. }
      rewrite HE, map_size_empty in *. lia. }
    assert (oldest <> r) by (intros ->; apply Hr, HO; left).
    cbn. split; cbn; [done| | | |done].
    + split; cbn; [by apply list.NoDup_cons in HNs as [_ ?]|by apply evictLoop_ok|done|].
      rewrite map_size_delete_Some, map_size_insert_None by (try done; apply HOs; left). lia.
    + by rewrite lookup_delete_ne, lookup_insert_eq, Hr'.
    + intros r' S. rewrite lookup_delete_Some, lookup_insert_Some. naive_solver.
Qed.
(** ** Batches *)

Section batches.
Context (sha256 : list byte -> Hash).
Abbreviation rootOf := (computeStateRoot sha256).

(** A snapshot is kept under the root of its accounts; without accounts any root
    was accepted. *)
Definition rooted (s : StateManager) : Prop :=
  forall r S, sm_stateHistory s !! r = Some S -> S = ∅ \/ rootOf S = r.

(** The result of executing a batch on the accounts [m]. *)
Definition execute (s : StateManager) (txs : list RollupTransaction) (m : Accounts) : res Z * Accounts :=
  processTxs (sm_config s) (sm_executor s) 0 txs m.

Lemma processBatchLocked_eq prev txs s :
  processBatchLocked sha256 prev txs s =
    match execute s txs (sm_accountStates s) with
    | (Ok g, m) => (Ok (rootOf m, g), set_smt (stateTree sha256 m) (set_accounts m s))
    | (Err err, m) => (Err err, set_accounts m s)
    | (Panic, m) => (Panic, set_accounts m s)
    | (NoFuel, m) => (NoFuel, set_accounts m s)
    end.
Proof.
  unfold processBatchLocked, execute. rewrite bind_gets. unfold mbind, M_bind, zoom. cbn [id].
  by destruct (processTxs _ _ 0 txs _) as [[g|err| |] m].
Qed.

Lemma wp_checkRoot prev s (Q : unit -> StateManager -> Prop) (E : error -> StateManager -> Prop) :
  (forall t, sm_accountStates s = ∅ \/ rootOf (sm_accountStates s) = prev -> Q tt (set_smt t s)) ->
  (forall t, E ErrInvalidStateTransition (set_smt t s)) -> wp (checkRoot sha256 prev) Q E s.
Proof.
  intros HQ HE. unfold checkRoot. apply wp_bind. cbn. case_bool_decide as HM.
  { replace s with (set_smt (sm_smt s) s) by (by destruct s). apply HQ. by left. }
  apply wp_bind. cbn. apply wp_guard; [by intros _|]. intros HB%negb_false_iff%bool_decide_eq_true_1. apply HQ. by right.
Qed.

(** What a batch that was executed leaves behind. *)
Record processed (i : Z) (prev : Hash) (txs : list RollupTransaction) (root : Hash) (gas : Z) (s s' : StateManager) : Prop := {
  pr_prev : sm_accountStates s = ∅ \/ rootOf (sm_accountStates s) = prev;
  pr_run : execute s txs (sm_accountStates s) = (Ok gas, sm_accountStates s');
  pr_root : root = rootOf (sm_accountStates s');
  pr_roots : sm_stateRoots s' = <[i := root]> (sm_stateRoots s);
  pr_config : sm_config s' = sm_config s;
  pr_executor : sm_executor s' = sm_executor s;
  pr_history : history_ok s';
  pr_origin r S : sm_stateHistory s' !! r = Some S ->
    sm_stateHistory s !! r = Some S \/ (r = prev /\ S = sm_accountStates s) \/ (r = root /\ S = sm_accountStates s');
  pr_snapshot : is_Some (sm_stateHistory s' !! root);
  pr_smt : sm_smt s' = stateTree sha256 (sm_accountStates s')
}.

(** What a batch that was refused leaves behind. *)
Record refused (prev : Hash) (s s' : StateManager) : Prop := {
  rf_accounts : sm_accountStates s' = sm_accountStates s;
  rf_roots : sm_stateRoots s' = sm_stateRoots s;
  rf_config : sm_config s' = sm_config s;
  rf_executor : sm_executor s' = sm_executor s;
  rf_history : history_ok s';
  rf_origin r S : sm_stateHistory s' !! r = Some S ->
    sm_stateHistory s !! r = Some S \/ (r = prev /\ S = sm_accountStates s /\ (S = ∅ \/ rootOf S = prev))
}.

(** The execution neither panics nor runs out of fuel. *)
Definition returns (s : StateManager) (txs : list RollupTransaction) : Prop :=
  match (execute s txs (sm_accountStates s)).1 with Ok _ | Err _ => True | _ => False end.

Lemma wp_snapshot prev s (Q : unit -> StateManager -> Prop) (E : error -> StateManager -> Prop) :
  history_ok s -> sm_accountStates s = ∅ \/ rootOf (sm_accountStates s) = prev ->
  (forall s', same_but_history s s' -> history_ok s' ->
     (forall r S, sm_stateHistory s' !! r = Some S -> sm_stateHistory s !! r = Some S \/ (r = prev /\ S = sm_accountStates s)) ->
     Q tt s') ->
  wp (if bool_decide (is_Some (sm_stateHistory s !! prev)) then mret tt
      else archiveStateSnapshot prev (sm_accountStates s)) Q E s.
Proof.
  intros HH HP HQ. case_bool_decide; [apply HQ; [done|done|by left]|]. eapply wp_mono; [by apply wp_archive| |by auto].
  intros [] s' [H1 H2 H3 H4 H5]. by apply HQ.
Qed.

(** A batch is executed as a whole or not at all. *)
Lemma wp_ProcessBatch i prev txs s :
  history_ok s -> returns s txs ->
  wp (ProcessBatch sha256 i prev txs) (fun r s' => processed i prev txs r.1 r.2 s s') (fun _ s' => refused prev s s') s.
Proof.
  intros HH HT. unfold ProcessBatch. apply wp_bind, wp_checkRoot; [|intros t; split; try done; [by destruct HH|by left]]. intros t HP. apply wp_bind. cbn.
  apply wp_bind, (wp_snapshot prev (set_smt t s)); [by destruct HH|done|]. intros s1 [H1 H2 H3 H4 H5] HH1 HR1. cbn in H1, H2, H3, H4, H5.
  apply wp_bind. cbn. rewrite deepCopy_id. apply wp_bind, wp_attempt. unfold wp. rewrite processBatchLocked_eq.
  unfold returns in HT. unfold execute. rewrite H1, H4, H5. fold (execute s txs (sm_accountStates s)).
  destruct (execute s txs (sm_accountStates s)) as [[g|err| |] m] eqn:EX; try done.
  - set (s2 := set_roots (<[i := rootOf m]> (sm_stateRoots s1)) (set_smt (stateTree sha256 m) (set_accounts m s1))).
    change (wp (archiveStateSnapshot (rootOf m) m;; mret (rootOf m, g)) (fun r s' => processed i prev txs r.1 r.2 s s') (fun _ s' => refused prev s s') s2).
    assert (HH2 : history_ok s2) by (by destruct HH1). apply wp_bind. eapply wp_mono; [by apply (wp_archive _ _ _ (fun _ _ => False))| |done].
    intros [] s3 [[A1 A2 A3 A4 A5] HH3 HN HO HM]. cbn. cbn in A1, A2, A3, A4, A5, HM.
    split; rewrite ?A4; try done; [by rewrite A3, H3|by rewrite A1|by rewrite A5|].
    intros r S [[HS|HS]%HR1|HS]%HO; auto.
  - split; cbn; [done|by rewrite H3|done|done|by destruct HH1|]. intros r S [HS|[-> ->]]%HR1; auto.
Qed.

(** *** Simulation *)

Lemma SimulateBatch_history prev txs s S :
  sm_stateHistory s !! prev = Some S ->
  (SimulateBatch sha256 prev txs s).1 =
    match execute s txs S with
    | (Ok g, m) => Ok (rootOf m, g)
    | (Err err, _) => Err err
    | (Panic, _) => Panic
    | (NoFuel, _) => NoFuel
    end /\
  exists t, (SimulateBatch sha256 prev txs s).2 = set_smt t s.
Proof.
  intros HS. unfold SimulateBatch. rewrite bind_gets. cbn [id]. rewrite HS, bind_modify. unfold defer.
  rewrite processBatchLocked_eq, deepCopy_id. unfold execute. cbn.
  destruct (processTxs _ _ 0 txs S) as [[g|err| |] m]; (split; [done|]); [by exists (stateTree sha256 m)|..];
    exists (sm_smt s); by destruct s.
Qed.

(** *** What the manager guarantees in operation *)

(** A manager with a configuration, a lawful executor and sound accounts. *)
Record manager_ok (c : RollupConfig) (s : StateManager) : Prop := {
  mo_config : sm_config s = Some c;
  mo_executor call : sm_executor s = Some call -> ExecutorLaws call;
  mo_history : history_ok s;
  mo_states : states_ok (sm_accountStates s);
  mo_snapshots r S : sm_stateHistory s !! r = Some S -> states_ok S
}.

Lemma execute_ok c s txs m : manager_ok c s -> Forall tx_ok txs -> states_ok m ->
  match execute s txs m with
  | (Ok _, m') => lost (burnedBy c txs) m m'
  | (Err _, m') => states_ok m'
  | _ => False
  end.
Proof. intros [HC HX _ _ _] HF Hm. unfold execute. rewrite HC. by apply (wp_processTxs c (sm_executor s) HX). Qed.

Lemma returns_ok c s txs : manager_ok c s -> Forall tx_ok txs -> returns s txs.
Proof.
  intros Hs HF. pose proof (execute_ok c s txs _ Hs HF (mo_states _ _ Hs)) as H. unfold returns.
  by destruct (execute s txs _) as [[]].
Qed.

Lemma manager_smt c s t : manager_ok c s -> manager_ok c (set_smt t s).
Proof. intros [H1 H2 [H3 H4 H5 H6] H7 H8]. by split. Qed.

(** Simulating a batch leaves the manager sound and mints nothing. *)
Record simulated (c : RollupConfig) (s s' : StateManager) : Prop := {
  si_ok : manager_ok c s';
  si_total : total (sm_accountStates s') <= total (sm_accountStates s);
  si_roots : sm_stateRoots s' = sm_stateRoots s;
  si_history : sm_stateHistory s' = sm_stateHistory s
}.

Lemma restored_ok c s m t :
  manager_ok c s -> states_ok m -> simulated c s (restoreLocked (snapshotLocked s) (set_smt t (set_accounts m s))).
Proof.
  intros [H1 H2 [H3 H4 H5 H6] H7 H8] Hm.
  assert (HB : forall a, (acc_of (sm_accountStates (restoreLocked (snapshotLocked s) (set_smt t (set_accounts m s)))) a =
    match m !! a, sm_accountStates s !! a with
    | Some x, Some y => mkRollupAccount (ra_Nonce y) (ra_Balance y) (ra_CodeHash y) (ra_Storage y) (ra_Code x)
    | _, _ => emptyRollupAccount end)).
  { intros a. unfold acc_of, restoreLocked, snapshotLocked. cbn. rewrite lookup_merge, lookup_fmap.
    by destruct (m !! a), (sm_accountStates s !! a). }
  split; [split; [done|done|by split| |done]| |done|done].
  - intros a. rewrite account_view_of, HB. specialize (Hm a). specialize (H7 a). rewrite account_view_of in Hm, H7. unfold acc_of in Hm, H7.
    destruct (m !! a), (sm_accountStates s !! a); try (split; simpl; unfold len; simpl; lia). split; [apply H7|apply Hm].
  - apply supply_mono. intros a. unfold balance_of. rewrite !account_view_of, HB. unfold acc_of at 1.
    specialize (H7 a). rewrite account_view_of in H7. unfold acc_of in H7.
    destruct (m !! a), (sm_accountStates s !! a); simpl; try done. apply H7.
Qed.

Lemma simulate_ok c prev txs s : manager_ok c s -> Forall tx_ok txs ->
  wp (SimulateBatch sha256 prev txs) (fun _ s' => simulated c s s') (fun _ s' => simulated c s s') s.
Proof.
  intros Hs HF. destruct (sm_stateHistory s !! prev) as [S|] eqn:HS.
  - destruct (SimulateBatch_history prev txs s S HS) as [E1 [t E2]]. pose proof (execute_ok c s txs S Hs HF (mo_snapshots _ _ Hs _ _ HS)) as HX.
    assert (HT : simulated c s (set_smt t s)) by (split; [by apply manager_smt|done..]).
    unfold wp. destruct (SimulateBatch _ _ _ s) as [r s']. cbn in E1, E2. rewrite E1, E2.
    by destruct (execute s txs S) as [[] m].
  - unfold SimulateBatch. apply wp_bind. cbn. rewrite HS. apply wp_bind, wp_checkRoot;
      [|intros t; split; [by apply manager_smt|done..]]. intros t _. apply wp_bind. cbn. apply wp_bind, wp_attempt. unfold wp.
    rewrite processBatchLocked_eq. unfold execute. cbn. fold (execute s txs (sm_accountStates s)).
    pose proof (execute_ok c s txs _ Hs HF (mo_states _ _ Hs)) as HX.
    destruct (execute s txs (sm_accountStates s)) as [[g|err| |] m]; try done.
    + exact (restored_ok c s m (stateTree sha256 m) Hs (proj1 HX)).
    + exact (restored_ok c s m t Hs HX).
Qed.

(** Executing a batch keeps the manager sound. *)
Lemma wp_ProcessBatch_ok c i prev txs s :
  manager_ok c s -> Forall tx_ok txs ->
  wp (ProcessBatch sha256 i prev txs)
    (fun r s' => processed i prev txs r.1 r.2 s s' /\ manager_ok c s' /\ lost (burnedBy c txs) (sm_accountStates s) (sm_accountStates s'))
    (fun _ s' => refused prev s s' /\ manager_ok c s') s.
Proof.
  intros Hs HF. pose proof Hs as [H1 H2 H3 H4 H5]. eapply wp_mono; [apply wp_ProcessBatch; [done|by eapply returns_ok]|..].
  - intros [root gas] s' HP. pose proof HP as [_ HR _ _ HC HX HH HO _ _]. cbn [fst snd] in *.
    pose proof (execute_ok c s txs _ Hs HF H4) as HE. rewrite HR in HE. destruct HE as [HS HL].
    split; [done|]. split; [|by split]. split; [by rewrite HC|by rewrite HX|done|done|].
    intros r S [HS'|[[_ ->]|[_ ->]]]%HO; [by eapply H5|done|done].
  - intros err s' HR. pose proof HR as [HA _ HC HX HH HO]. split; [done|].
    split; [by rewrite HC|by rewrite HX|done|by rewrite HA|]. intros r S [HS'|(_ & -> & _)]%HO; [by eapply H5|done].
Qed.

Lemma processed_rooted i prev txs root gas s s' : processed i prev txs root gas s s' -> rooted s -> rooted s'.
Proof. intros [HP _ -> _ _ _ _ HO _ _] HR r S [HS|[[-> ->]|[-> ->]]]%HO; [by apply HR|done|by right]. Qed.

Lemma refused_rooted prev s s' : refused prev s s' -> rooted s -> rooted s'.
Proof. intros [_ _ _ _ _ HO] HR r S [HS|(-> & _ & HS)]%HO; [by apply HR|done]. Qed.

(** *** The root determines the accounts *)

(** The code hash of an account is that of its code. *)
Definition code_ok (acc : RollupAccount) : Prop :=
  ra_CodeHash acc = if len (ra_Code acc) =? 0 then zero_array 32 else sha256 (ra_Code acc).

Definition accounts_ok (m : Accounts) : Prop := map_Forall (fun _ acc => MerkleSpec.account_ok acc /\ code_ok acc) m.

(** What hashing the accounts with their code hashes. *)
Definition codeInputs (m : Accounts) (x : list byte) : Prop :=
  MerkleSpec.stateInputs sha256 m x \/ exists a acc, m !! a = Some acc /\ x = ra_Code acc.

(** Two of the strings in [P] have the same hash, or one has the hash zero. *)
Definition broken (P : list byte -> Prop) : Prop := MerkleSpec.collision sha256 P \/ exists x, P x /\ sha256 x = zero_array 32.

Lemma code_inj P x y : code_ok x -> code_ok y -> P (ra_Code x) -> P (ra_Code y) ->
  ra_CodeHash x = ra_CodeHash y -> ra_Code x = ra_Code y \/ broken P.
Proof.
  unfold code_ok, len. intros -> -> P1 P2. revert P1 P2. destruct (ra_Code x) as [|b l] eqn:Ex, (ra_Code y) as [|b' l'] eqn:Ey; cbn [length Z.of_nat Z.eqb]; intros P1 P2 H.
  - by left.
  - right. right. by exists (b' :: l').
  - right. right. by exists (b :: l).
  - apply (hash_inj sha256 P _ _ P1 P2) in H as [H|H]; [by left|right; by left].
Qed.

#[local] Instance RollupAccount_eq_dec : EqDecision RollupAccount.
Proof. solve_decision. Defined.

Lemma root_determines S1 S2 : accounts_ok S1 -> accounts_ok S2 -> rootOf S1 = rootOf S2 ->
  S1 = S2 \/ broken (fun x => codeInputs S1 x \/ codeInputs S2 x).
Proof.
  intros H1 H2 HE. destruct (state_root_inj sha256 S1 S2) as [HC|HC];
    [by eapply map_Forall_impl; [done|intros ? ? []]..|done| |right; left; revert HC; apply MerkleSpec.collision_mono; unfold codeInputs; tauto].
  apply map_agree. intros a. pose proof (f_equal (lookup a) HC) as E. rewrite !lookup_fmap in E.
  destruct (S1 !! a) as [x|] eqn:Ex, (S2 !! a) as [y|] eqn:Ey; try done; [|by left]. injection E as E1 E2 E3 E4.
  destruct (code_inj (fun x => codeInputs S1 x \/ codeInputs S2 x) x y) as [E5|];
    [by apply (H1 a)|by apply (H2 a)|left; right; eauto|right; right; eauto|done| |by right]. left. destruct x, y. simpl in *. by subst.
Qed.
End batches.
End StateManagerSpec.
