(* ===== verification/FraudProofSpec.v ===== *)
(** * Properties of fraud proofs

    When the prover accepts a proof, and what that says about the batch. *)

From Stdlib Require Import ZArith Lia.
From Stdlib.Strings Require Import Byte.
From stdpp Require Import base list countable gmap strings numbers.
From S2P Require Import Prelude Wp Stack StateDB Rollup SparseMerkle MerkleSpec Bridge BridgeSpec RollupConfig BatchManager StateManager StateManagerSpec FraudProof.

Module FraudProofSpec.
Import SparseMerkle Bridge BridgeSpec BatchManager StateManager StateManagerSpec FraudProof.

Section spec.
Context (sha256 sha3 : list byte -> Hash).
Abbreviation rootOf := (computeStateRoot sha256).

(** The checks on every proof. *)
Definition admissible (fp : FraudProver) (p : FraudProof) : bool :=
  negb ((pf_BatchIndex p =? 0) && bool_decide (pf_PreStateRoot p = zero_array 32)) &&
  negb (bool_decide (pf_Challenger p = zero_array 20)) &&
  negb (len (pf_ChallengerSig p) =? 0) &&
  match fp_sigVerifier fp with
  | Some verify => negb (len (pf_ChallengerPubKey p) =? 0) &&
      verify (pf_Challenger p) (pf_ChallengerPubKey p) (buildFraudProofSignMessage sha3 p) (pf_ChallengerSig p)
  | None => negb (fp_requireSigVerifier fp)
  end &&
  (0 <? pf_Timestamp p).

(** The check of the type of the proof. *)
Definition verifyType (bm : BatchManager) (p : FraudProof) : M (FraudProver * StateManager) unit :=
  match pf_Type p with
  | FraudProofTypeStateTransition => verifyStateTransitionFraud sha256 bm p
  | FraudProofTypeInvalidBatch => verifyInvalidBatchFraud sha256 bm p
  | FraudProofTypeDoubleSpend => verifyDoubleSpendFraud bm p
  | FraudProofTypeOther _ => throw ErrFraudProofInvalid
  end.

Lemma verifyFraudProof_eq bm p st :
  verifyFraudProof sha256 sha3 bm p st =
    if admissible st.1 p then verifyType bm p st else (Err ErrFraudProofInvalid, st).
Proof.
  unfold verifyFraudProof, admissible, checkSignature, verifyType. rewrite bind_guard.
  destruct ((pf_BatchIndex p =? 0) && _); [done|]. rewrite bind_guard. destruct (bool_decide (pf_Challenger p = _)); [done|].
  unfold mbind at 1, M_bind at 1. rewrite bind_guard. destruct (len (pf_ChallengerSig p) =? 0); [done|].
  rewrite bind_gets. rewrite Z.ltb_antisym. destruct (fp_sigVerifier st.1) as [verify|]; cbn [negb andb].
  - rewrite bind_guard. destruct (len (pf_ChallengerPubKey p) =? 0); [done|]. cbn [negb andb].
    destruct (verify _ _ _ _); cbn [negb guard_err throw andb]; [|done]. cbn. rewrite bind_guard. by destruct (pf_Timestamp p <=? 0).
  - destruct (fp_requireSigVerifier st.1); cbn; [done|]. rewrite bind_guard. by destruct (pf_Timestamp p <=? 0).
Qed.

(** The batch a proof is about, as far as its roots are right. *)
Definition accused (bm : BatchManager) (fp : FraudProver) (p : FraudProof) (b : Batch) : Prop :=
  fp_batchLookup fp = true /\ bm_batches bm !! pf_BatchIndex p = Some b /\
  pf_PreStateRoot p = bt_PrevStateRoot b /\ pf_PostStateRoot p = bt_PostStateRoot b.

(** The check of the roots and the re-execution of [txs b]. *)
Definition reexecute (bm : BatchManager) (p : FraudProof) (f : Batch -> option (list RollupTransaction)) :
    M (FraudProver * StateManager) unit :=
  batch ← batchOf bm p;
  checkRoots batch p;;
  match f batch with
  | None => throw ErrFraudProofInvalid
  | Some txs => confirm sha256 batch p txs
  end.

(** A re-execution is accepted if it gives another root, and only then. *)
Lemma reexecute_inv bm p f fp sm st' :
  reexecute bm p f (fp, sm) = (Ok tt, st') ->
  exists b txs r g sm', accused bm fp p b /\ f b = Some txs /\
    SimulateBatch sha256 (pf_PreStateRoot p) txs sm = (Ok (r, g), sm') /\ r <> bt_PostStateRoot b /\ st' = (fp, sm').
Proof.
  unfold reexecute, batchOf. intros (b & s1 & H & K)%run_bind_inv. rewrite bind_gets, bind_guard in H. cbn [fst] in H.
  destruct (fp_batchLookup fp) eqn:EL; [|done]. cbn [negb] in H. unfold GetBatch in H.
  destruct (bm_batches bm !! pf_BatchIndex p) as [b'|] eqn:EB; [|done]. injection H as -> <-.
  unfold checkRoots in K. apply run_bind_inv in K as (? & s2 & K1 & K). apply run_bind_inv in K1 as (? & s3 & [G1 ->]%guard_Ok & [G2 ->]%guard_Ok).
  apply negb_false_iff, bool_decide_eq_true_1 in G1, G2. destruct (f b) as [txs|] eqn:EF; [|done].
  unfold confirm in K. apply run_bind_inv in K as (r & s4 & KA & K). unfold attempt, simulate, zoom in KA. cbn [snd] in KA.
  destruct (SimulateBatch sha256 _ txs sm) as [[[r' g]|err| |] sm'] eqn:ES; try done; injection KA as <- <-; [|done].
  apply guard_Ok in K as [K ->]. apply bool_decide_eq_false_1 in K. exists b, txs, r', g, sm'. by repeat split.
Qed.

Lemma reexecute_intro bm p f fp sm b txs r g sm' :
  accused bm fp p b -> f b = Some txs ->
  SimulateBatch sha256 (pf_PreStateRoot p) txs sm = (Ok (r, g), sm') -> r <> bt_PostStateRoot b ->
  reexecute bm p f (fp, sm) = (Ok tt, (fp, sm')).
Proof.
  intros (H1 & H2 & H3 & H4) HF HS Hr. unfold reexecute, batchOf, checkRoots, confirm, GetBatch.
  unfold mbind at 1, M_bind at 1. rewrite bind_gets, bind_guard. cbn [fst]. rewrite H1, H2. cbn [negb mret M_ret].
  unfold mbind at 1, M_bind at 1. rewrite bind_guard. rewrite (bool_decide_eq_true_2 _ H3), (bool_decide_eq_true_2 _ H4). cbn [negb guard_err mret M_ret].
  rewrite HF. unfold mbind, M_bind, attempt, simulate, zoom. cbn [snd]. rewrite HS. cbn. by rewrite (bool_decide_eq_false_2 _ Hr).
Qed.

Lemma stateTransition_eq bm p t st : pf_InvalidTx p = Some t ->
  verifyStateTransitionFraud sha256 bm p st = reexecute bm p (fun b => (fun tx => [tx]) <$> findTx b t) st.
Proof.
  intros HT. unfold verifyStateTransitionFraud, reexecute. rewrite HT. unfold mbind, M_bind.
  destruct (batchOf bm p st) as [[b| | |] s1]; try done. destruct (checkRoots b p s1) as [[]]; try done. by destruct (findTx b t).
Qed.

Lemma invalidBatch_eq bm p st : verifyInvalidBatchFraud sha256 bm p st = reexecute bm p (fun b => Some (bt_Transactions b)) st.
Proof. done. Qed.

(** Storing a proof. *)
Lemma store_inv bm p fp sm st' :
  storeFraudProof sha256 sha3 bm p (fp, sm) = (Ok tt, st') ->
  fp_proofs fp !! pf_BatchIndex p = None /\ admissible fp p = true /\
  exists fp' sm', verifyType bm p (fp, sm) = (Ok tt, (fp', sm')) /\ st' = (set_proofs (<[pf_BatchIndex p := p]> (fp_proofs fp')) fp', sm').
Proof.
  unfold storeFraudProof. rewrite bind_gets, bind_guard. cbn [fst]. unfold HasFraudProof. case_bool_decide as HN; [done|].
  intros ([] & [fp' sm'] & H & K)%run_bind_inv. rewrite verifyFraudProof_eq in H. cbn [fst] in H.
  destruct (admissible fp p); [|done]. injection K as <-. split; [by apply eq_None_not_Some|]. split; [done|]. by exists fp', sm'.
Qed.

Lemma store_intro bm p fp sm fp' sm' :
  fp_proofs fp !! pf_BatchIndex p = None -> admissible fp p = true -> verifyType bm p (fp, sm) = (Ok tt, (fp', sm')) ->
  storeFraudProof sha256 sha3 bm p (fp, sm) = (Ok tt, (set_proofs (<[pf_BatchIndex p := p]> (fp_proofs fp')) fp', sm')).
Proof.
  intros HN HA HV. unfold storeFraudProof. rewrite bind_gets, bind_guard. cbn [fst]. unfold HasFraudProof. rewrite HN, bool_decide_eq_false_2 by (by intros []).
  unfold mbind, M_bind. rewrite verifyFraudProof_eq. cbn [fst]. by rewrite HA, HV.
Qed.
End spec.
End FraudProofSpec.
