(* ===== verification/SolvencySpec.v ===== *)
(** * Solvency of the bridge

    What L1 holds, compared with what it may have to pay: the L2 balances, the
    deposits not yet minted and the withdrawals not yet paid. Every call of the
    bridge keeps the difference, except that paying a batch may lower it by the
    withdrawals of the batch, which were burned when the batch was executed. *)

From Stdlib Require Import ZArith Lia.
From Stdlib.Strings Require Import Byte.
From stdpp Require Import base list countable gmap strings numbers.
From S2P Require Import Prelude Wp Stack StateDB Rollup Frame SparseMerkle MerkleSpec Bridge BridgeSpec.

Module SolvencySpec.
Import SparseMerkle Bridge BridgeSpec.

(** ** The bridge *)

Abbreviation states_ok m := (view_ok (view_of m)).

(** What is recorded but not paid. *)
Definition unpaid (w : Withdrawal) : Z := if w_Processed w then 0 else w_Amount w.

(** What L1 holds beyond what it may have to pay. *)
Definition slack (b : L2Bridge) : Z :=
  l1_liquidity (b_l1Bridge b) - msum unpaid (b_withdrawals b) - (depositSum (heapOf b) - mintedSum (heapOf b)) - supplyOf b.

(** Deposits are positive, recorded withdrawals not negative, accounts sound. *)
Record bridge_ok (b : L2Bridge) : Prop := {
  br_heap : heap_ok (heapOf b);
  br_amounts : map_Forall (fun _ w => 0 <= w_Amount w) (b_withdrawals b);
  br_states : states_ok (b_accountStates b)
}.

(** The bridge may have paid up to [v]. *)
Record paid_upto (v : Z) (b b' : L2Bridge) : Prop := {
  pu_slack : bridge_ok b -> slack b - v <= slack b';
  pu_ok : bridge_ok b -> bridge_ok b';
  pu_address : b_bridgeAddress b' = b_bridgeAddress b;
  pu_roots : b_stateRoots b' = b_stateRoots b
}.

Lemma paid_refl b : paid_upto 0 b b.
Proof. split; auto with lia. Qed.

Lemma paid_trans u v b b1 b2 : paid_upto u b b1 -> paid_upto v b1 b2 -> paid_upto (u + v) b b2.
Proof.
  intros [H1 H2 H3 H4] [K1 K2 K3 K4]. split; [|auto|by rewrite K3|by rewrite K4]. intros Hb. specialize (H1 Hb). specialize (K1 (H2 Hb)). lia.
Qed.

Lemma paid_mono u v b b' : paid_upto u b b' -> u <= v -> paid_upto v b b'.
Proof. intros [H1 H2 H3 H4] Hle. split; auto. intros Hb. specialize (H1 Hb). lia. Qed.

(** Two states with the same accounts, deposits and withdrawals. *)
Lemma paid_same b b' :
  l1_liquidity (b_l1Bridge b') = l1_liquidity (b_l1Bridge b) -> heapOf b' = heapOf b -> b_withdrawals b' = b_withdrawals b ->
  b_accountStates b' = b_accountStates b -> b_bridgeAddress b' = b_bridgeAddress b -> b_stateRoots b' = b_stateRoots b ->
  paid_upto 0 b b'.
Proof.
  intros H1 H2 H3 H4 H5 H6. split; [| |done|done].
  - intros _. unfold slack, supplyOf. rewrite H1, H2, H3, H4. lia.
  - intros [K1 K2 K3]. split; [by rewrite H2|by rewrite H3|by rewrite H4].
Qed.

Section calls.
Context (sha256 : list byte -> Hash).

(** One payment attempt: L1 pays [v], or nothing changes. *)
Definition pay (w : Address) (v : option Z) (bi ti : Z) (bh : Hash) (p : option MerkleWithdrawalProof) : M L2Bridge (error + unit) :=
  attempt (zoom b_l1Bridge set_l1 (ProcessWithdrawal sha256 w v bi ti bh p)).

Lemma pay_cases w v bi ti bh p b :
  (exists a h, v = Some a /\ 0 < a /\ pay w v bi ti bh p b = (Ok (inr tt), set_l1 (release h a (b_l1Bridge b)) b)) \/
  (exists err, pay w v bi ti bh p b = (Ok (inl err), b)) \/ (exists r, pay w v bi ti bh p b = (r, b) /\ forall x, r <> Ok x).
Proof.
  unfold pay, attempt, zoom. destruct (ProcessWithdrawal sha256 w v bi ti bh p (b_l1Bridge b)) as [r l1] eqn:E.
  destruct r as [[]|err| |].
  - left. apply ProcessWithdrawal_inv in E as (a & q & mp & -> & Ha & _ & _ & _ & _ & -> & _). by eexists a, _.
  - right. left. apply ProcessWithdrawal_err in E as ->; [|done]. exists err. by destruct b.
  - right. right. apply ProcessWithdrawal_err in E as ->; [|done]. exists Panic. by destruct b.
  - right. right. apply ProcessWithdrawal_err in E as ->; [|done]. exists NoFuel. by destruct b.
Qed.

(** Recording a withdrawal [w] under its hash. *)
Lemma slack_record h w b :
  slack (set_withdrawals (<[h := w]> (b_withdrawals b)) b) = slack b - unpaid w + default 0 (unpaid <$> b_withdrawals b !! h).
Proof.
  unfold slack, supplyOf, heapOf. cbn [set_withdrawals b_l1Bridge b_withdrawals b_accountStates]. rewrite msum_insert. lia.
Qed.

Lemma unpaid_nonneg h b : bridge_ok b -> 0 <= default 0 (unpaid <$> b_withdrawals b !! h).
Proof.
  intros [_ H2 _]. destruct (b_withdrawals b !! h) as [x|] eqn:E; [|done]. cbn. specialize (H2 h x E). unfold unpaid. by destruct (w_Processed x).
Qed.

Lemma record_ok h w b : 0 <= w_Amount w -> bridge_ok b -> bridge_ok (set_withdrawals (<[h := w]> (b_withdrawals b)) b).
Proof. intros Hw [H1 H2 H3]. split; [done| |done]. cbn. by apply map_Forall_insert_2. Qed.

Lemma paid_record h w b :
  0 <= w_Amount w -> paid_upto (unpaid w) b (set_withdrawals (<[h := w]> (b_withdrawals b)) b).
Proof.
  intros Hw. split; [|by apply record_ok|done|done]. intros Hb. rewrite slack_record. pose proof (unpaid_nonneg h b Hb). lia.
Qed.

Lemma slack_release h a b : slack (set_l1 (release h a (b_l1Bridge b)) b) = slack b - a.
Proof. unfold slack, supplyOf, heapOf. cbn [set_l1 release b_l1Bridge b_withdrawals b_accountStates l1_liquidity l1_heap]. lia. Qed.

Lemma paid_release h a b : paid_upto a b (set_l1 (release h a (b_l1Bridge b)) b).
Proof. split; [|by intros [? ? ?]|done|done]. intros _. rewrite slack_release. lia. Qed.

(** Paying the withdrawals of a batch takes at most their sum. *)
Lemma payLoop_paid now bi bh ba smt txs : forall i b,
  paid_upto (withdrawn ba txs) b (payLoop sha256 now bi bh ba smt i txs b).2.
Proof.
  induction txs as [|tx txs IH]; intros i b; [apply paid_refl|]. cbn [payLoop withdrawn foldr]. fold (withdrawn ba txs).
  pose proof (withdrawn_nonneg ba txs) as HW. destruct (isWithdrawal ba tx) eqn:EW;
    [|rewrite bind_ret; eapply paid_mono; [apply IH|lia]].
  destruct (isWithdrawal_inv ba tx EW) as (v & _ & EV & Hv). rewrite EV. cbn [default from_option id].
  unfold mbind at 1, M_bind at 1. rewrite bind_gets. cbn [id]. destruct (default false _).
  { eapply paid_mono; [apply IH|lia]. }
  fold (pay (tx_From tx) (Some v) bi i bh (Some (mkWithdrawalProof (root smt) (Some (Prove sha256 (ComputeWithdrawalTreeKey sha256 (tx_From tx) i) smt))
    (ComputeWithdrawalTreeKey sha256 (tx_From tx) i)))). unfold mbind at 1, M_bind at 1.
  destruct (pay_cases (tx_From tx) (Some v) bi i bh (Some (mkWithdrawalProof (root smt) (Some (Prove sha256 (ComputeWithdrawalTreeKey sha256 (tx_From tx) i) smt))
    (ComputeWithdrawalTreeKey sha256 (tx_From tx) i))) b) as [(a & h & [= <-] & _ & ->)|[[err ->]|(r & -> & Hr)]].
  - eapply paid_mono; [eapply paid_trans; [apply paid_release|eapply paid_trans; [apply paid_record|apply IH]]|]; cbn; lia.
  - eapply paid_mono; [eapply paid_trans; [apply paid_record|apply IH]|]; cbn; lia.
  - destruct r; [by edestruct Hr|..]; cbn; (eapply paid_mono; [apply paid_refl|lia]).
Qed.

Lemma batch_paid now batch b :
  paid_upto (withdrawn (b_bridgeAddress b) (bt_Transactions batch)) b (ProcessFinalizedBatch sha256 now batch b).2.
Proof.
  pose proof (withdrawn_nonneg (b_bridgeAddress b) (bt_Transactions batch)) as HW.
  unfold ProcessFinalizedBatch. rewrite bind_gets. cbn [id]. destruct (if bool_decide _ then _ else _) as [r|];
    [|eapply paid_mono; [apply paid_refl|done]]. rewrite bind_modify.
  set (b1 := set_l1 (RecordFinalizedBatch (bt_Index batch) r (b_l1Bridge b)) b).
  assert (P1 : paid_upto 0 b b1) by (by apply paid_same). unfold ofRes, mbind at 1, M_bind at 1.
  destruct (buildWithdrawalSMT _ _ _) as [smt| | |]; try (eapply paid_mono; [exact P1|done]). rewrite bind_modify.
  set (b2 := set_l1 (RecordWithdrawalRoot (bt_Index batch) (root smt) (b_l1Bridge b1)) b1).
  assert (P2 : paid_upto 0 b1 b2) by (by apply paid_same). unfold mbind, M_bind.
  pose proof (payLoop_paid now (bt_Index batch) (bt_BatchHash batch) (b_bridgeAddress b) smt (bt_Transactions batch) 0 b2) as P3.
  destruct (payLoop _ _ _ _ _ _ _ _ b2) as [[[]| | |] b3]; cbn in P3 |- *;
    (eapply paid_mono; [eapply paid_trans; [exact P1|eapply paid_trans; [exact P2|exact P3]]|lia]).
Qed.

(** A payment that was pending. *)
Lemma retry_one h w w' a h' b :
  b_withdrawals b !! h = Some w -> w_Processed w = false -> w_Processed w' = true -> a = w_Amount w -> w_Amount w' = a -> 0 < a ->
  let b1 := set_l1 (release h' a (b_l1Bridge b)) b in
  paid_upto 0 b (set_withdrawals (<[h := w']> (b_withdrawals b1)) b1).
Proof.
  intros Hw Hp Hp' Ha Ha' Hpos b1. split; [| |done|done].
  - intros _. rewrite slack_record. unfold b1 at 2. cbn [set_l1 b_withdrawals]. rewrite Hw. cbn. unfold unpaid. rewrite Hp, Hp'. unfold b1. rewrite slack_release. lia.
  - intros [H1 H2 H3]. apply record_ok; [lia|]. by split.
Qed.

Lemma retry_paid hs : forall b, paid_upto 0 b (RetryPendingWithdrawals sha256 hs b).2.
Proof.
  induction hs as [|h hs IH]; intros b; [apply paid_refl|]. cbn [RetryPendingWithdrawals]. rewrite bind_gets. cbn [id].
  destruct (b_withdrawals b !! h) as [w|] eqn:Hw; [|apply IH]. destruct (w_Processed w) eqn:Hp; [apply IH|].
  destruct (w_Proof w) as [p|]; [|apply IH]. unfold mbind at 1, M_bind at 1.
  fold (pay (w_Withdrawer w) (Some (w_Amount w)) (w_BatchIndex w) (w_TxIndex w) (w_BatchHash w) (Some p)).
  destruct (pay_cases (w_Withdrawer w) (Some (w_Amount w)) (w_BatchIndex w) (w_TxIndex w) (w_BatchHash w) (Some p) b)
    as [(a & h' & [= Ea] & Ha & ->)|[[err ->]|(r & -> & Hr)]]; [|apply IH|destruct r; [by edestruct Hr|apply paid_refl..]].
  rewrite bind_modify. match goal with |- paid_upto _ _ ((?f ≫= ?k) ?s).2 => pose proof (IH s) as P; unfold mbind, M_bind; destruct (f s) as [[]] end;
    cbn [snd fst mret M_ret] in P |- *; (eapply (paid_trans 0 0); [|exact P]; by apply (retry_one h w _ a h')).
Qed.

Lemma depositSum_snoc heap d : depositSum (heap ++ [d]) = depositSum heap + d_Amount d.
Proof. induction heap as [|x heap IH]; simpl; lia. Qed.

Lemma deposit_paid now who amount b : paid_upto 0 b (zoom b_l1Bridge set_l1 (L1Deposit sha256 now who amount) b).2.
Proof.
  unfold zoom. destruct (L1Deposit_cases sha256 now who amount (b_l1Bridge b)) as [(a & h & -> & Ha & _ & ->)|[err ->]];
    [|by apply paid_same]. cbn [snd]. split; [| |done|done].
  - intros _. unfold slack, supplyOf, heapOf. cbn [set_l1 b_l1Bridge b_withdrawals b_accountStates l1_liquidity l1_heap].
    rewrite depositSum_snoc, mintedSum_snoc. cbn [d_Amount d_Minted]. lia.
  - intros [H1 H2 H3]. split; [|done|done]. unfold heapOf, heap_ok. cbn. apply Forall_app. split; [done|]. by repeat constructor.
Qed.

Lemma setMinted_deposits p v l1 : depositSum (l1_heap (setMinted p v l1)) = depositSum (l1_heap l1).
Proof.
  unfold setMinted. cbn [l1_heap]. generalize (l1_heap l1). intros heap. revert p.
  induction heap as [|x heap IH]; intros [|p]; try done. cbn. by rewrite IH.
Qed.

Lemma addBalance_ok a v m : 0 <= v -> states_ok m -> states_ok (addBalance a v m).
Proof.
  intros Hv Hm b. specialize (Hm b). rewrite account_view_of in *. unfold addBalance, acc_of in *.
  destruct (decide (a = b)) as [<-|N]; [|by rewrite lookup_insert_ne]. rewrite lookup_insert_eq. destruct Hm as [HB HL].
  split; cbn; [cbn in HB; lia|done].
Qed.

Lemma mint_paid p d b :
  heapOf b !! p = Some d -> d_Minted d = false -> heap_ok (heapOf b) -> paid_upto 0 b (mintDeposit p d b).2.
Proof.
  intros Ed EM HP. destruct (mintDeposit_backed p d b Ed EM) as ([HB HH _ _] & _).
  assert (Hd : 0 < d_Amount d) by (unfold heap_ok in HP; rewrite Forall_lookup in HP; by apply (HP p)).
  destruct (mintDeposit_cases p d b) as [E|[err E]]; rewrite E in HB, HH |- *; cbn [snd] in *;
    (split; [intros _|intros [H1 H2 H3]; split; [by auto|done|]|done|done]); try done.
  - unfold slack. unfold heapOf in *. cbn [set_l1 set_states b_l1Bridge b_withdrawals] in *. rewrite setMinted_deposits.
    change (l1_liquidity (setMinted _ _ _)) with (l1_liquidity (b_l1Bridge b)). lia.
  - cbn. apply addBalance_ok; [lia|done].
  - unfold slack. unfold heapOf in *. cbn [set_l1 b_l1Bridge b_withdrawals] in *. rewrite !setMinted_deposits.
    change (l1_liquidity (setMinted _ _ _)) with (l1_liquidity (b_l1Bridge b)). lia.
Qed.

Lemma find_paid h b : paid_upto 0 b (findDeposit h b).2.
Proof.
  unfold findDeposit. rewrite bind_gets. cbn [id]. destruct (b_deposits b !! h); [apply paid_refl|].
  destruct (GetDeposit h (b_l1Bridge b)); by apply paid_same.
Qed.

Lemma ProcessDeposit_paid reader h b : bridge_ok b -> paid_upto 0 b (ProcessDeposit reader h b).2.
Proof.
  intros HO. pose proof (find_paid h b) as P. unfold ProcessDeposit. unfold mbind at 1, M_bind at 1.
  destruct (findDeposit h b) as [[p| | |] b1]; try exact P. cbn [snd] in P. rewrite bind_gets. cbn [id].
  destruct (l1_heap (b_l1Bridge b1) !! p) as [d|] eqn:Ed; [|exact P].
  rewrite bind_guard. destruct (d_Minted d) eqn:EM; [exact P|].
  pose proof (checkFinality_state (b_requiredDepositConfirmations b1) reader d b1) as HF.
  unfold mbind, M_bind. destruct (checkFinality _ _ _ b1) as [[[]| | |] b0]; simpl in HF; subst b0; try exact P.
  pose proof (mint_paid p d b1 Ed EM (br_heap _ (pu_ok _ _ _ P HO))) as P2.
  destruct (mintDeposit p d b1) as [[[]| | |] b2]; cbn [snd] in P2; rewrite ?mark_minted; exact (paid_trans 0 0 _ _ _ P P2).
Qed.
End calls.
End SolvencySpec.
