(* ===== verification/EngineSpec.v ===== *)
(** * Properties of the engine

    The parts together: the invariant that keeps the bridge solvent up to what is
    claimed on L1 directly. *)

From Stdlib Require Import ZArith Lia.
From Stdlib.Strings Require Import Byte.
From stdpp Require Import base list countable gmap strings numbers.
From S2P Require Import Prelude Wp Stack StateDB Rollup Frame SparseMerkle MerkleSpec Bridge BridgeSpec RollupConfig BatchManager StateManager FraudProof Sequencing Engine StateManagerSpec FraudProofSpec SolvencySpec.

Module EngineSpec.
Import SparseMerkle Bridge BridgeSpec BatchManager StateManager FraudProof Sequencing Engine StateManagerSpec FraudProofSpec SolvencySpec.

(** Reading a batch. *)
Lemma bind_lookup {A} i (f : Batch -> M BatchManager A) bm :
  (lookup i ≫= f) bm = match bm_batches bm !! i with Some b => f b bm | None => (Err ErrBatchNotFound, bm) end.
Proof. unfold lookup, mbind, M_bind. cbn. by destruct (bm_batches bm !! i). Qed.

Section solvency.
Context (sha256 sha3 keccak256 : list byte -> Hash) (json : list RollupTransaction -> list byte).
Context (c : RollupConfig).

(** What was claimed from the L1 bridge itself, beside the batches. *)
Context (dc : Z).

Abbreviation ba := (cfg_BridgeAddress c).

(** What the bridge will have to pay for a batch. *)
Definition owedBy (b : Batch) : Z :=
  match bt_Status b with BatchStatusSubmitted => withdrawn ba (bt_Transactions b) | _ => 0 end.

Definition owed (bm : BatchManager) : Z := msum owedBy (bm_batches bm).

(** All transactions the manager holds are well formed. *)
Record batches_ok (bm : BatchManager) : Prop := {
  bo_pending : Forall tx_ok (bm_pendingTxs bm);
  bo_batches : map_Forall (fun _ b => Forall tx_ok (bt_Transactions b)) (bm_batches bm)
}.

(** The invariant: the parts are sound, and L1 could pay what the submitted batches
    withdraw, with [v] to spare, if it still had [dc]. *)
Record inv (v : Z) (e : RollupEngine) : Prop := {
  in_manager : manager_ok c (e_stateManager e);
  in_batches : batches_ok (e_batchManager e);
  in_bridge : exists b, e_bridge e = Some b /\ b_bridgeAddress b = ba /\ bridge_ok (bridgeView e b) /\
    owed (e_batchManager e) + v <= slack (bridgeView e b) + dc
}.

Lemma owedBy_nonneg b : 0 <= owedBy b.
Proof. unfold owedBy. pose proof (withdrawn_nonneg ba (bt_Transactions b)). by destruct (bt_Status b). Qed.

(** *** Changes of one part *)

Lemma inv_mono u v e : inv u e -> v <= u -> inv v e.
Proof. intros [H1 H2 (b & H3 & H4 & H5 & H6)] Hle. split; [done|done|]. exists b. split_and!; try done. lia. Qed.

Lemma inv_same v e e' :
  e_batchManager e' = e_batchManager e -> e_stateManager e' = e_stateManager e -> e_bridge e' = e_bridge e -> inv v e -> inv v e'.
Proof.
  intros E1 E2 E3 [H1 H2 (b & H3 & H4 & H5 & H6)]. unfold bridgeView in *. split; [by rewrite E2|by rewrite E1|]. exists b.
  unfold bridgeView. rewrite E1, E2, E3. done.
Qed.

Lemma inv_bm u v e bm :
  inv u e -> batches_ok bm -> owed bm + v <= owed (e_batchManager e) + u -> inv v (set_bm bm e).
Proof. intros [H1 H2 (b & H3 & H4 & H5 & H6)] HB HO. split; [done|done|]. exists b. split_and!; try done. change (slack (bridgeView (set_bm bm e) b)) with (slack (bridgeView e b)). cbn. lia. Qed.

Lemma slack_sm sm e b :
  slack (bridgeView (set_sm sm e) b) =
    slack (bridgeView e b) + supply (view_of (sm_accountStates (e_stateManager e))) - supply (view_of (sm_accountStates sm)).
Proof. unfold slack, supplyOf, heapOf. cbn [bridgeView set_sm e_stateManager b_l1Bridge b_withdrawals b_accountStates]. lia. Qed.

Lemma inv_sm u v e sm :
  inv u e -> manager_ok c sm -> supply (view_of (sm_accountStates sm)) + v <= supply (view_of (sm_accountStates (e_stateManager e))) + u ->
  inv v (set_sm sm e).
Proof.
  intros [H1 H2 (b & H3 & H4 & [H5 H6 H7] & H8)] HM HS. split; [done|done|]. exists b. split; [done|]. split; [done|]. split.
  - split; [done|done|]. apply (mo_states _ _ HM).
  - rewrite slack_sm. cbn. lia.
Qed.

Lemma manager_accounts m sm : manager_ok c sm -> states_ok m -> manager_ok c (set_accounts m sm).
Proof. intros [H1 H2 [H3 H4 H5 H6] H7 H8] Hm. by split. Qed.

Lemma inv_onBridge {A} (m : M L2Bridge A) v e :
  inv v e -> (forall b, b_bridgeAddress b = ba -> bridge_ok b -> paid_upto v b (m b).2) -> inv 0 (onBridge m e).2.
Proof.
  intros [H1 H2 (b & H3 & H4 & H5 & H6)] HM. unfold onBridge. rewrite H3.
  specialize (HM (bridgeView e b) H4 H5). destruct (m (bridgeView e b)) as [r b']. cbn [snd] in *. destruct HM as [P1 P2 P3 P4].
  specialize (P1 H5). specialize (P2 H5). split; [apply manager_accounts; [done|apply P2]|done|].
  exists b'. split; [done|]. split; [by rewrite P3|]. split; [by destruct P2|].
  change (slack (bridgeView _ b')) with (slack b'). cbn. lia.
Qed.

(** *** Writes to a batch *)

Lemma update_owed i f bm :
  (forall b, bm_batches bm !! i = Some b -> owedBy (f b) <= owedBy b) -> owed (update i f bm) <= owed bm.
Proof.
  intros H. unfold owed, update. cbn. rewrite msum_alter. destruct (bm_batches bm !! i) as [b|]; cbn; [specialize (H b eq_refl)|]; lia.
Qed.

Lemma update_ok i f bm : (forall b, bt_Transactions (f b) = bt_Transactions b) -> batches_ok bm -> batches_ok (update i f bm).
Proof.
  intros Hf [H1 H2]. split; [done|]. unfold update. cbn. intros j b. rewrite lookup_alter_Some. intros [(-> & x & E & ->)|[_ E]].
  - rewrite Hf. by apply (H2 j).
  - by apply (H2 j).
Qed.

Lemma inv_update v i f e :
  (forall b, bt_Transactions (f b) = bt_Transactions b) -> (forall b, owedBy (f b) <= owedBy b) -> inv v e ->
  inv v (set_bm (update i f (e_batchManager e)) e).
Proof.
  intros H1 H2 HI. apply (inv_bm v); [done|apply update_ok; [done|apply HI]|]. pose proof (update_owed i f (e_batchManager e) (fun b _ => H2 b)). lia.
Qed.
(** *** Calls *)

Definition keeps (e e' : RollupEngine) : Prop := inv 0 e -> inv 0 e'.

#[local] Instance keeps_preorder : PreOrder keeps.
Proof. split; [intros e HI; exact HI|]. intros x y z H1 H2 HI. exact (H2 (H1 HI)). Qed.

Lemma keeps_update i f e :
  (forall b, bt_Transactions (f b) = bt_Transactions b) -> (forall b, owedBy (f b) <= owedBy b) ->
  keeps e (set_bm (update i f (e_batchManager e)) e).
Proof. intros H1 H2 HI. by apply inv_update. Qed.

Lemma accept_keeps s tx : tx_ok tx -> sat keeps (onBatches (AcceptTransaction sha256 s tx)).
Proof.
  intros Ht e HI. unfold onBatches, zoom, AcceptTransaction, AddTransaction. destruct (validateTransaction _ _ _); [by apply (inv_same 0 e)|].
  rewrite bind_gets, bind_guard. cbn [id]. destruct (_ <=? _); [by apply (inv_same 0 e)|]. cbn [snd modify]. apply (inv_bm 0); [done| |done].
  destruct HI as [_ [H1 H2] _]. split; [|done]. cbn. apply Forall_app. split; [done|]. apply Forall_singleton. by destruct Ht.
Qed.

Lemma transaction_keeps tx : tx_ok tx -> sat keeps (SubmitL2Transaction sha256 tx).
Proof.
  intros Ht. unfold SubmitL2Transaction. apply sat_bind; [apply _|apply sat_gets, _|]. intros e. apply sat_bind; [apply _|apply sat_guard, _|].
  intros _. by apply accept_keeps.
Qed.

Lemma anchor_keeps outage i : sat keeps (anchorBatch sha256 json outage i).
Proof.
  intros e HI. unfold anchorBatch. rewrite bind_gets. cbn [id]. destruct (e_l1Anchor e) as [a|]; [|done].
  destruct (bm_batches (e_batchManager e) !! i) as [b|]; [|done].
  destruct (anchorLoop _ _ _ _ _ _ _) as [[[h|]| | |] a']; unfold modify; cbn [snd].
  - apply (inv_same 0 (set_bm (SetBatchAnchor i h (update i (set_Anchor false 0) (e_batchManager e))) e)); [done..|].
    unfold SetBatchAnchor. by apply (inv_update 0 i (set_SubmitHeight h) (set_bm (update i (set_Anchor false 0) (e_batchManager e)) e)), inv_update.
  - match goal with |- inv 0 (set_anchor _ _ ?x) => apply (inv_same 0 x); [done..|] end. by apply inv_update.
  - match goal with |- inv 0 (set_anchor _ _ ?x) => apply (inv_same 0 x); [done..|] end. by apply inv_update.
  - match goal with |- inv 0 (set_anchor _ _ ?x) => apply (inv_same 0 x); [done..|] end. by apply inv_update.
  - match goal with |- inv 0 (set_anchor _ _ ?x) => apply (inv_same 0 x); [done..|] end. by apply inv_update.
Qed.

(** Submitting a batch that was executed. *)
Lemma SubmitBatch_cases now i post h bm :
  (exists b d, bm_batches bm !! i = Some b /\ bt_Status b = BatchStatusPending /\
     SubmitBatch now i post h bm = (Ok tt, set_meta (bm_nextIndex bm) post (update i (submitted post h now d) bm))) \/
  exists err, SubmitBatch now i post h bm = (Err err, bm).
Proof.
  unfold SubmitBatch. rewrite bind_lookup. destruct (bm_batches bm !! i) as [b|] eqn:E; [|right; by eexists]. rewrite bind_guard.
  case_bool_decide as HS; cbn [negb]; [left|right; by eexists].
  exists b. eexists. split; [done|]. split; [done|]. reflexivity.
Qed.

Lemma submit_inv now outage batch post gas e b :
  bm_batches (e_batchManager e) !! bt_Index batch = Some b -> inv (withdrawn ba (bt_Transactions b)) e ->
  inv 0 (submitExecuted sha256 keccak256 json now outage batch post gas e).2.
Proof.
  intros Hb HI. unfold submitExecuted. rewrite bind_modify.
  set (e1 := set_bm (update (bt_Index batch) (set_TotalGasUsed gas) (e_batchManager e)) e).
  assert (H1 : inv (withdrawn ba (bt_Transactions b)) e1) by (by apply inv_update).
  assert (Hb1 : bm_batches (e_batchManager e1) !! bt_Index batch = Some (set_TotalGasUsed gas b)).
  { unfold e1, update. cbn. by rewrite lookup_alter_eq, Hb. }
  assert (H0 : inv 0 e1) by (eapply inv_mono; [exact H1|apply withdrawn_nonneg]). clearbody e1.
  unfold mbind at 1, M_bind at 1, attempt, onBatches, zoom.
  destruct (SubmitBatch_cases (now / Second) (bt_Index batch) post (computeSubmitHash keccak256 (bt_BatchHash batch) post) (e_batchManager e1))
    as [(b1 & d & Hb' & HS & ->)|[err ->]].
  - rewrite Hb1 in Hb'. injection Hb' as <-. rewrite bind_modify.
    match goal with |- inv 0 (?m ?s).2 => assert (K : inv 0 s); [|generalize dependent s] end.
    + match goal with |- inv 0 (set_turn _ (set_counters _ _ _ ?x)) => apply (inv_same 0 x); [done..|] end. apply (inv_bm _ 0 _ _ H1).
      * destruct (update_ok (bt_Index batch) (submitted post (computeSubmitHash keccak256 (bt_BatchHash batch) post) (now / Second) d)
          (e_batchManager e1)) as [K1 K2]; [done|apply H1|]. by split.
      * unfold owed, update. cbn [set_meta set_batches bm_batches]. rewrite msum_alter, Hb1. cbn [fmap option_fmap option_map default from_option id].
        replace (owedBy (set_TotalGasUsed gas b)) with 0 by (unfold owedBy; by rewrite HS).
        match goal with |- _ + (?x - _) + _ <= _ => change x with (withdrawn ba (bt_Transactions b)) end. lia.
    + intros s K. pose proof (anchor_keeps outage (bt_Index batch) s K) as KA. unfold mbind, M_bind.
      destruct (anchorBatch _ _ _ _ s) as [[[]| | |] s0]; cbn in KA |- *; [by apply (inv_same 0 s0)|done..].
  - unfold modify. cbn [snd]. by apply (inv_same 0 e1).
Qed.
Lemma BuildBatch_cases now bm :
  (exists b, b = set_BatchHash (computeBatchHash sha256 (newBatch now bm)) (newBatch now bm) /\
     BuildBatch sha256 now bm =
       (Ok b, mkBM (bm_config bm) (<[bm_nextIndex bm := b]> (bm_batches bm)) (Some (bm_nextIndex bm)) (u64 (bm_nextIndex bm + 1)) []
                (bm_lastStateRoot bm) (bm_l1CurrentHeight bm) (bm_l1ChallengeBlocks bm))) \/
  exists err, BuildBatch sha256 now bm = (Err err, bm).
Proof.
  unfold BuildBatch. rewrite bind_gets, bind_guard. cbn [id]. destruct (_ <? _); [right; by eexists|]. left. by eexists.
Qed.

(** What is burned in L2 covers what is withdrawn. *)
Lemma withdrawn_burned txs : ba <> zero_array 20 -> Forall tx_ok txs -> withdrawn ba txs <= burnedBy c txs.
Proof.
  intros Hba. induction 1 as [|tx txs [Hv _ _] _ IH]; [done|]. cbn [withdrawn burnedBy foldr]. fold (withdrawn ba txs) (burnedBy c txs).
  unfold burned. destruct (isWithdrawal ba tx) eqn:E; [|destruct (isWithdrawalBurn _ tx); lia].
  apply isWithdrawal_inv in E as (v & HT & _ & _). unfold isWithdrawalBurn. rewrite HT, bool_decide_eq_false_2, bool_decide_eq_true_2 by done.
  cbn [negb andb]. unfold valueOf. lia.
Qed.

Lemma recovered_keeps f m e : (forall e', inv 0 e' -> inv 0 (f e')) -> inv 0 (m e).2 -> inv 0 (recovered f m e).2.
Proof. intros Hf H. unfold recovered. destruct (m e) as [[] e']; cbn in *; auto. Qed.

Lemma execute_inv now outage b e :
  ba <> zero_array 20 -> bm_batches (e_batchManager e) !! bt_Index b = Some b -> inv 0 e ->
  inv 0 ((r ← attempt (onState (ProcessBatch sha256 (bt_Index b) (bt_PrevStateRoot b) (bt_Transactions b)));
          match r with
          | inl _ => modify failure
          | inr (postRoot, gasUsed) => submitExecuted sha256 keccak256 json now outage b postRoot gasUsed
          end) e).2.
Proof.
  intros Hba Hb HI. pose proof HI as [HM [_ HB] _]. specialize (HB _ _ Hb). cbv beta in HB.
  pose proof (wp_ProcessBatch_ok sha256 c (bt_Index b) (bt_PrevStateRoot b) _ _ HM HB) as HP. unfold wp in HP.
  unfold mbind, M_bind, attempt, onState, zoom. destruct (ProcessBatch _ _ _ _ _) as [[[post gas]|err| |] sm]; try done.
  - destruct HP as (_ & HM' & [_ HL]). eapply (submit_inv _ _ _ _ _ _ b); [done|].
    pose proof (withdrawn_burned _ Hba HB). apply (inv_sm 0); [done|done|lia].
  - destruct HP as [HR HM']. unfold modify. cbn [snd]. match goal with |- inv 0 (failure ?x) => apply (inv_same 0 x); [done..|] end.
    apply (inv_sm 0); [done|done|]. rewrite (rf_accounts _ _ _ _ HR). lia.
Qed.

Lemma build_keeps now outage : ba <> zero_array 20 -> sat keeps (tryBuildAndSubmitBatch sha256 keccak256 json now outage).
Proof.
  intros Hba e HI. unfold tryBuildAndSubmitBatch. apply recovered_keeps; [intros e'; by apply inv_same|].
  rewrite bind_gets. cbn [id]. destruct (negb _); [done|]. unfold mbind at 1, M_bind at 1, onTurn, zoom.
  destruct (shouldBuildBatch _ _ _ _) as [r t]. set (e1 := set_turn t e). assert (H1 : inv 0 e1) by (by apply (inv_same 0 e)).
  clearbody e1. destruct r as [turn| | |]; try exact H1. destruct (negb turn); [by apply (inv_same 0 e1)|].
  unfold mbind at 1, M_bind at 1, attempt at 1, onBatches, zoom.
  destruct (BuildBatch_cases (now / Second) (e_batchManager e1)) as [(b & Eb & ->)|[err ->]].
  - apply execute_inv; [done|subst b; cbn; apply lookup_insert_eq|]. apply (inv_bm 0); [done|..]; pose proof (in_batches _ _ H1) as [HP HB].
    + split; [done|]. cbn. apply map_Forall_insert_2; [|done]. by subst b.
    + unfold owed. cbn. rewrite msum_insert. pose proof (owedBy_nonneg) as HN. replace (owedBy b) with 0 by (by subst b).
      destruct (bm_batches (e_batchManager e1) !! _) as [x|]; cbn; [specialize (HN x)|]; lia.
  - cbn [snd fst]. destruct (_ || _); [by apply (inv_same 0 e1)|]. unfold modify. cbn [snd]. by apply (inv_same 0 e1).
Qed.
(** *** Finalizing *)

Lemma checkPeriod_state now b bm : (checkPeriod now b bm).2 = bm.
Proof.
  unfold checkPeriod. rewrite bind_gets. cbn [id]. unfold guard_err. destruct (0 <? _); [by destruct (_ <? _)|].
  destruct (0 <? _); [done|]. by destruct (_ <? _).
Qed.

Definition finalized (now : Z) (b : Batch) : Batch := set_FinalizedAt now (set_Status BatchStatusFinalized b).

Lemma FinalizeBatch_cases prover now i bm :
  (exists b, bm_batches bm !! i = Some b /\ bt_Status b = BatchStatusSubmitted /\ hasProof prover i = false /\
     checkPeriod now b bm = (Ok tt, bm) /\ FinalizeBatch prover now i bm = (Ok tt, update i (finalized now) bm)) \/
  (exists b, bm_batches bm !! i = Some b /\ bt_Status b = BatchStatusSubmitted /\ hasProof prover i = true /\
     FinalizeBatch prover now i bm = (Err ErrBatchChallenged, update i (set_Status BatchStatusChallenged) bm)) \/
  (exists err, FinalizeBatch prover now i bm = (Err err, bm) /\
     forall b, bm_batches bm !! i = Some b -> bt_Status b = BatchStatusSubmitted -> hasProof prover i = false /\ exists err, checkPeriod now b bm = (Err err, bm)).
Proof.
  unfold FinalizeBatch. rewrite bind_lookup. destruct (bm_batches bm !! i) as [b|] eqn:E; [|right; right; by eexists]. rewrite bind_guard.
  case_bool_decide as HS; cbn [negb]; [|right; right; eexists; split; [done|]; by intros ? [= <-]].
  destruct (hasProof prover i) eqn:HP; [right; left; by exists b|]. pose proof (checkPeriod_state now b bm) as HC.
  unfold mbind, M_bind. destruct (checkPeriod now b bm) as [[[]|err| |] bm'] eqn:EC; cbn in HC; subst bm'; [left; by exists b|right; right|..].
  - exists err. split; [done|]. intros ? [= <-] _. by split; [|exists err].
  - exfalso. unfold checkPeriod in EC. rewrite bind_gets in EC. unfold guard_err in EC. cbn [id] in EC. by repeat (case_match; try done).
  - exfalso. unfold checkPeriod in EC. rewrite bind_gets in EC. unfold guard_err in EC. cbn [id] in EC. by repeat (case_match; try done).
Qed.

Lemma finalizeOne_keeps now i : sat keeps (finalizeOne sha256 now i).
Proof.
  intros e HI. unfold finalizeOne. rewrite bind_gets. cbn [id]. unfold mbind at 1, M_bind at 1, attempt at 1, onBatches, zoom.
  destruct (FinalizeBatch_cases (proverOf e) (now / Second) i (e_batchManager e)) as [(b & Hb & HS & _ & _ & ->)|[(b & Hb & HS & _ & ->)|(err & -> & _)]].
  - rewrite bind_gets. cbn [id set_bm e_batchManager update set_batches bm_batches]. rewrite lookup_alter_eq, Hb. cbn [fmap option_fmap option_map].
    set (e1 := set_bm _ e). assert (H1 : inv (withdrawn ba (bt_Transactions b)) e1).
    { apply (inv_bm 0); [done|apply update_ok; [done|apply HI]|]. unfold owed, update. cbn [set_batches bm_batches].
      rewrite msum_alter, Hb. cbn [fmap option_fmap option_map default from_option id]. change (owedBy (finalized _ b)) with 0.
      unfold owedBy at 2. rewrite HS. lia. }
    clearbody e1. unfold mbind, M_bind, attempt.
    pose proof (inv_onBridge (ProcessFinalizedBatch sha256 (now / Second) (finalized (now / Second) b)) _ _ H1) as H2.
    destruct (onBridge _ e1) as [r e2]. cbn [snd] in H2.
    assert (K : inv 0 e2) by (apply H2; intros b' Ha _; rewrite <- Ha; exact (batch_paid sha256 _ (finalized (now / Second) b) b')).
    destruct r as [[root|]| | |]; try done. unfold modify. cbn [snd]. by apply inv_update.
  - cbn [snd mret M_ret]. apply (inv_update 0); [done| |done]. intros x. apply owedBy_nonneg.
  - by apply (inv_same 0 e).
Qed.

Lemma finalizeLoop_keeps now l : sat keeps (finalizeLoop sha256 now l).
Proof.
  induction l as [|i l IH]; cbn [finalizeLoop]; [apply sat_ret, _|]. apply sat_bind; [apply _|apply sat_gets, _|]. intros e.
  apply sat_bind; [apply _| |done]. destruct (match _ with Some _ => _ | None => _ end); [apply sat_ret, _|apply finalizeOne_keeps].
Qed.

Lemma finalize_keeps now : sat keeps (tryFinalizeBatches sha256 now).
Proof.
  intros e HI. unfold tryFinalizeBatches. apply recovered_keeps; [done|]. rewrite bind_gets. cbn [id]. destruct (negb _); [done|].
  destruct (_ =? 0); [done|]. rewrite bind_modify. apply finalizeLoop_keeps. destruct (e_l1Anchor e) as [a|]; [|done].
  apply (inv_bm 0); [done| |done]. by destruct HI as [_ [? ?] _].
Qed.

(** *** Fraud proofs *)

(** The prover works on the state manager, and only simulates. *)
Definition simulates (st st' : FraudProver * StateManager) : Prop := manager_ok c st.2 -> simulated c st.2 st'.2.

#[local] Instance simulates_preorder : PreOrder simulates.
Proof.
  split; [by intros st H|]. intros x y z H1 H2 Hx. destruct (H1 Hx) as [K1 K2 K3 K4]. destruct (H2 K1) as [L1 L2 L3 L4].
  split; [done|lia|congruence|congruence].
Qed.

Lemma batchOf_bind {A} bm p (f : Batch -> M (FraudProver * StateManager) A) :
  (forall b, bm_batches bm !! pf_BatchIndex p = Some b -> sat simulates (f b)) -> sat simulates (batchOf bm p ≫= f).
Proof.
  intros H st. unfold batchOf. unfold mbind at 1, M_bind at 1. rewrite bind_gets, bind_guard. destruct (negb _); [reflexivity|].
  unfold GetBatch. destruct (bm_batches bm !! _) as [b|]; [|reflexivity]. by apply H.
Qed.

Lemma confirm_simulates b p txs : Forall tx_ok txs -> sat simulates (confirm sha256 b p txs).
Proof.
  intros HF. unfold confirm. apply sat_bind; [apply _| |intros [|[? ?]]; [apply sat_throw, _|apply sat_guard, _]].
  apply sat_attempt. intros [fp sm] Hm. unfold simulate, zoom. cbn [snd] in *. pose proof (simulate_ok sha256 c (pf_PreStateRoot p) txs sm Hm HF) as H.
  unfold wp in H. by destruct (SimulateBatch _ _ _ sm) as [[]].
Qed.

Lemma store_simulates bm p : batches_ok bm -> sat simulates (storeFraudProof sha256 sha3 bm p).
Proof.
  intros [_ HB]. intros [fp sm]. unfold storeFraudProof. rewrite bind_gets, bind_guard. cbn [fst]. destruct (HasFraudProof _ _); [reflexivity|].
  revert sm. assert (HV : sat simulates (verifyFraudProof sha256 sha3 bm p)).
  { intros st. rewrite verifyFraudProof_eq. destruct (admissible _ _ _); [|reflexivity]. revert st. change (sat simulates (verifyType sha256 bm p)).
    unfold verifyType. destruct (pf_Type p); [unfold verifyStateTransitionFraud; destruct (pf_InvalidTx p) as [t|]; [|apply sat_throw, _]| | |apply sat_throw, _].
    - apply batchOf_bind. intros b Hb. apply sat_bind; [apply _| |intros _].
      { unfold checkRoots. apply sat_bind; [apply _|apply sat_guard, _|intros _; apply sat_guard, _]. }
      destruct (findTx b t) as [tx|] eqn:Et; [|apply sat_throw, _]. apply confirm_simulates, Forall_singleton.
      specialize (HB _ _ Hb). cbv beta in HB. destruct t as [i k|]; [|done]. cbn in Et. destruct (_ =? _); [|done].
      rewrite Forall_lookup in HB. by apply (HB k).
    - apply batchOf_bind. intros b Hb. apply sat_bind; [apply _| |intros _; apply confirm_simulates, (HB _ _ Hb)].
      unfold checkRoots. apply sat_bind; [apply _|apply sat_guard, _|intros _; apply sat_guard, _].
    - unfold verifyDoubleSpendFraud. apply sat_bind; [apply _|apply sat_guard, _|intros _]. apply sat_bind; [apply _|apply sat_gets, _|intros f].
      apply sat_bind; [apply _|apply sat_guard, _|intros _]. apply sat_bind; [apply _|apply sat_guard, _|intros _].
      apply batchOf_bind. intros b Hb. apply sat_guard, _. }
  intros sm. specialize (HV (fp, sm)). unfold mbind, M_bind. destruct (verifyFraudProof _ _ bm p (fp, sm)) as [[[]| | |] [fp' sm']]; exact HV.
Qed.

Lemma ChallengeBatch_cases prover i bm :
  (exists b, bm_batches bm !! i = Some b /\ bt_Status b = BatchStatusSubmitted /\ hasProof prover i = true /\
     ChallengeBatch prover i bm = (Ok tt, update i (set_Status BatchStatusChallenged) bm)) \/
  exists err, ChallengeBatch prover i bm = (Err err, bm).
Proof.
  unfold ChallengeBatch. rewrite bind_lookup. destruct (bm_batches bm !! i) as [b|] eqn:E; [|right; by eexists]. rewrite bind_guard.
  case_bool_decide as HS; cbn [negb]; [|right; by eexists]. rewrite bind_guard. destruct (hasProof prover i) eqn:HP; cbn [negb]; [|right; by eexists].
  left. by exists b.
Qed.

Lemma proof_keeps p : sat keeps (SubmitFraudProof sha256 sha3 p).
Proof.
  intros e HI. unfold SubmitFraudProof. rewrite bind_gets. cbn [id]. unfold mbind at 1, M_bind at 1, onProver, zoom.
  pose proof (store_simulates (e_batchManager e) p (in_batches _ _ HI) (e_fraudProver e, e_stateManager e) (in_manager _ _ HI)) as HS.
  destruct (storeFraudProof _ _ _ _ _) as [r [fp sm]]. destruct HS as [H1 H2 _ _]. cbn [snd fst] in *.
  assert (K : inv 0 (set_fp fp (set_sm sm e))).
  { apply (inv_same 0 (set_sm sm e)); [done..|]. apply (inv_sm 0); [done|done|lia]. }
  destruct r; [|done..]. rewrite bind_gets. cbn [id]. generalize dependent (set_fp fp (set_sm sm e)). intros e1 K.
  unfold mbind, M_bind, attempt, onBatches, zoom.
  destruct (ChallengeBatch_cases (proverOf e1) (pf_BatchIndex p) (e_batchManager e1)) as [(b & _ & _ & _ & ->)|[err ->]]; cbn [snd mret M_ret].
  - apply inv_update; [done| |done]. intros x. apply owedBy_nonneg.
  - by apply (inv_same 0 e1).
Qed.

(** *** All calls *)

(** Transactions that users submit have values that are not negative. *)
Definition call_ok (call : Call) : Prop := match call with CallTransaction tx => tx_ok tx | _ => True end.

Definition isClaim (call : Call) : bool := match call with CallL1Withdraw _ _ _ _ _ _ => true | _ => false end.

Lemma call_keeps call :
  ba <> zero_array 20 -> call_ok call -> isClaim call = false -> forall e, keeps e (runCall sha256 sha3 keccak256 json call e).
Proof.
  intros Hba Hc HN e HI. destruct call as [tx|now outage|now|p|now who a|reader h|hs|who a bi ti bh pf|h]; cbn [runCall]; try discriminate HN.
  - by apply transaction_keeps.
  - by apply build_keeps.
  - by apply finalize_keeps.
  - by apply proof_keeps.
  - eapply inv_onBridge; [done|]. intros b _ _. apply deposit_paid.
  - eapply inv_onBridge; [done|]. intros b _ Hb. by apply ProcessDeposit_paid.
  - eapply inv_onBridge; [done|]. intros b _ _. apply retry_paid.
  - destruct (e_l1Anchor e); [by apply (inv_same 0 e)|done].
Qed.
End solvency.

(** *** Claims on L1 *)

Section claims.
Context (sha256 sha3 keccak256 : list byte -> Hash) (json : list RollupTransaction -> list byte).
Context (c : RollupConfig).

(** What L1 holds. *)
Definition liquidity (e : RollupEngine) : Z :=
  match e_bridge e with Some b => l1_liquidity (b_l1Bridge b) | None => 0 end.

(** What a call that claims a withdrawal on L1 is paid, and what a sequence of
    calls claims. *)
Definition paidDirectly (call : Call) (e : RollupEngine) : Z :=
  if isClaim call then liquidity e - liquidity (runCall sha256 sha3 keccak256 json call e) else 0.

Fixpoint claims (cs : list Call) (e : RollupEngine) : Z :=
  match cs with
  | [] => 0
  | call :: cs => paidDirectly call e + claims cs (runCall sha256 sha3 keccak256 json call e)
  end.

Lemma claim_cases who a bi ti bh pf b :
  (exists h, (zoom b_l1Bridge set_l1 (ProcessWithdrawal sha256 who a bi ti bh pf) b).2 =
     set_l1 (release h (default 0 a) (b_l1Bridge b)) b) \/
  (zoom b_l1Bridge set_l1 (ProcessWithdrawal sha256 who a bi ti bh pf) b).2 = set_l1 (b_l1Bridge b) b.
Proof.
  unfold zoom. destruct (ProcessWithdrawal sha256 who a bi ti bh pf (b_l1Bridge b)) as [r s'] eqn:E. cbn [snd].
  destruct r as [[]|err| |]; [left|right; by rewrite (ProcessWithdrawal_err sha256 _ _ _ _ _ _ _ _ _ E)..].
  apply ProcessWithdrawal_inv in E as (x & p & mp & -> & _ & _ & _ & _ & _ & -> & _). by eexists.
Qed.

Lemma claim_keeps d call e :
  isClaim call = true -> inv c d 0 e -> inv c (d + paidDirectly call e) 0 (runCall sha256 sha3 keccak256 json call e).
Proof.
  intros HC [H1 H2 (b & H3 & H4 & [K1 K2 K3] & H6)]. unfold paidDirectly. rewrite HC.
  destruct call as [| | | | | | |who a bi ti bh pf|]; try discriminate HC. unfold liquidity. cbn [runCall]. unfold onBridge. rewrite H3.
  destruct (claim_cases who a bi ti bh pf (bridgeView e b)) as [[h E]|E];
    destruct (zoom _ _ _ (bridgeView e b)) as [r b']; cbn [snd] in E |- *; subst b'.
  - pose proof (slack_release h (default 0 a) (bridgeView e b)) as HS.
    split; [by apply manager_accounts|done|]. eexists. split; [done|]. split; [done|]. split; [by split|].
    match goal with |- context [slack (bridgeView ?e' ?b')] => change (slack (bridgeView e' b')) with (slack b') end.
    cbn in HS |- *. lia.
  - split; [by apply manager_accounts|done|]. eexists. split; [done|]. split; [done|]. split; [by split|].
    cbn in H6 |- *. unfold slack, supplyOf, heapOf in *. cbn in H6 |- *. lia.
Qed.

(** Any calls. *)
Lemma run_inv cs : forall d e, cfg_BridgeAddress c <> zero_array 20 -> Forall call_ok cs -> inv c d 0 e ->
  inv c (d + claims cs e) 0 (foldl (fun e call => runCall sha256 sha3 keccak256 json call e) e cs).
Proof.
  induction cs as [|call cs IH]; intros d e Hba HF HI; [by rewrite Z.add_0_r|].
  apply list.Forall_cons in HF as [Hc HF]. cbn [foldl claims]. rewrite Z.add_assoc. apply IH; [done|done|].
  destruct (isClaim call) eqn:EC; [by apply claim_keeps|]. unfold paidDirectly. rewrite EC, Z.add_0_r.
  by apply call_keeps.
Qed.
End claims.
End EngineSpec.
