(* ===== verification/LifecycleSpec.v ===== *)
(** * The life cycle of batches

    How the calls of the engine move batches from one status to the next, and
    what one finalization tick does to every batch. *)

From Stdlib Require Import ZArith Lia.
From Stdlib.Strings Require Import Byte.
From stdpp Require Import base list countable gmap strings numbers sorting relations.
From S2P Require Import Prelude Wp Stack StateDB Rollup SparseMerkle MerkleSpec Bridge BridgeSpec RollupConfig BatchManager StateManager FraudProof Sequencing Engine EngineSpec.

Module LifecycleSpec.
Import SparseMerkle Bridge BridgeSpec BatchManager StateManager FraudProof Sequencing Engine EngineSpec.

Abbreviation batchesOf e := (bm_batches (e_batchManager e)).

(** Every batch is related to its successor, and there are no others. *)
Definition each (R : Z -> Batch -> Batch -> Prop) (m m' : gmap Z Batch) : Prop :=
  forall i, option_Forall2 (R i) (m !! i) (m' !! i).

Section each.
Context (R : Z -> Batch -> Batch -> Prop).

Lemma each_refl m : (forall i b, R i b b) -> each R m m.
Proof. intros H i. destruct (m !! i); by constructor. Qed.

Lemma each_trans m m1 m2 : (forall i x y z, R i x y -> R i y z -> R i x z) -> each R m m1 -> each R m1 m2 -> each R m m2.
Proof.
  intros H H1 H2 i. specialize (H1 i). specialize (H2 i).
  destruct (m !! i), (m1 !! i), (m2 !! i); inversion_clear H1; inversion_clear H2; constructor; eauto.
Qed.

Lemma each_alter f i m : (forall j b, R j b b) -> (forall b, m !! i = Some b -> R i b (f b)) -> each R m (alter f i m).
Proof.
  intros HR H j. destruct (decide (i = j)) as [<-|N].
  - rewrite lookup_alter_eq. destruct (m !! i) eqn:E; constructor; auto.
  - rewrite lookup_alter_ne by done. destruct (m !! j); by constructor.
Qed.

Lemma each_lookup m m' i b : each R m m' -> m !! i = Some b -> exists b', m' !! i = Some b' /\ R i b b'.
Proof. intros H E. specialize (H i). rewrite E in H. inversion H; subst. eauto. Qed.

Lemma each_inv m m' i b' : each R m m' -> m' !! i = Some b' -> exists b, m !! i = Some b /\ R i b b'.
Proof. intros H E. specialize (H i). rewrite E in H. inversion H; subst. eauto. Qed.
End each.

Lemma each_mono (R R' : Z -> Batch -> Batch -> Prop) m m' : (forall i b b', R i b b' -> R' i b b') -> each R m m' -> each R' m m'.
Proof. intros H HE i. specialize (HE i). inversion HE; constructor; auto. Qed.

(** ** One finalization tick *)

(** What finalizing does not touch. *)
Record kept (b b' : Batch) : Prop := {
  kp_Index : bt_Index b' = bt_Index b;
  kp_Prev : bt_PrevStateRoot b' = bt_PrevStateRoot b;
  kp_Post : bt_PostStateRoot b' = bt_PostStateRoot b;
  kp_Txs : bt_Transactions b' = bt_Transactions b;
  kp_Hash : bt_BatchHash b' = bt_BatchHash b;
  kp_Deadline : bt_ChallengeDeadline b' = bt_ChallengeDeadline b;
  kp_Height : bt_SubmitHeight b' = bt_SubmitHeight b;
  kp_Failed : bt_AnchorFailed b' = bt_AnchorFailed b
}.

#[export] Instance kept_preorder : PreOrder kept.
Proof. split; [by split|]. intros x y z [] []. split; congruence. Qed.

(** The challenge period of a batch is over. *)
Definition periodOver (now height blocks : Z) (b : Batch) : bool :=
  if 0 <? bt_SubmitHeight b then u64 (bt_SubmitHeight b + blocks) <=? height
  else if 0 <? blocks then false else bt_ChallengeDeadline b <=? now.

Lemma checkPeriod_eq now b bm :
  exists err, checkPeriod now b bm = (if periodOver now (bm_l1CurrentHeight bm) (bm_l1ChallengeBlocks bm) b then Ok tt else Err err, bm).
Proof.
  unfold checkPeriod, periodOver. rewrite bind_gets. cbn [id]. unfold guard_err. rewrite !Z.leb_antisym.
  destruct (0 <? bt_SubmitHeight b); [|destruct (0 <? _); [by eexists|]]; destruct (_ <? _); by exists ErrChallengePeriodNotOver.
Qed.

(** What the tick decides on. *)
Record Env : Type := mkEnv { ev_prover : option (Z -> bool); ev_height : Z; ev_blocks : Z }.

Definition envOf (e : RollupEngine) : Env :=
  mkEnv (proverOf e) (bm_l1CurrentHeight (e_batchManager e)) (bm_l1ChallengeBlocks (e_batchManager e)).

Definition outcome (v : Env) (now i : Z) (b : Batch) : BatchStatus :=
  if bool_decide (bt_Status b = BatchStatusSubmitted) && negb (bt_AnchorFailed b) then
    if hasProof (ev_prover v) i then BatchStatusChallenged
    else if periodOver now (ev_height v) (ev_blocks v) b then BatchStatusFinalized else BatchStatusSubmitted
  else bt_Status b.

Definition decided (v : Env) (now : Z) (l : list Z) (i : Z) (b b' : Batch) : Prop :=
  kept b b' /\ bt_Status b' = if bool_decide (i ∈ l) then outcome v now i b else bt_Status b.

Lemma outcome_kept v now i b b' : kept b b' -> bt_Status b' = bt_Status b -> outcome v now i b' = outcome v now i b.
Proof. intros [] H. unfold outcome, periodOver. by rewrite H, kp_Failed0, kp_Height0, kp_Deadline0. Qed.

Lemma decided_nil v now m : each (decided v now []) m m.
Proof. apply each_refl. intros i b. split; [reflexivity|]. by rewrite bool_decide_eq_false_2 by set_solver. Qed.

Lemma decided_app v now l1 l2 m m1 m2 :
  (forall i, i ∈ l1 -> i ∉ l2) -> each (decided v now l1) m m1 -> each (decided v now l2) m1 m2 -> each (decided v now (l1 ++ l2)) m m2.
Proof.
  intros HD H1 H2 i. specialize (H1 i). specialize (H2 i). specialize (HD i).
  destruct (m !! i), (m1 !! i), (m2 !! i); inversion_clear H1 as [? ? [K1 S1]|]; inversion_clear H2 as [? ? [K2 S2]|]; constructor.
  split; [by etransitivity|]. rewrite S2. repeat case_bool_decide; try set_solver.
  by apply outcome_kept.
Qed.

Section tick.
Context (sha256 : list byte -> Hash).

Lemma onBridge_frame {A} (m : M L2Bridge A) e :
  e_batchManager (onBridge m e).2 = e_batchManager e /\ proverOf (onBridge m e).2 = proverOf e.
Proof. unfold onBridge. destruct (e_bridge e); [|done]. by destruct (m _). Qed.

Lemma decided_one v now i f m b :
  m !! i = Some b -> kept b (f b) -> bt_Status (f b) = outcome v now i b -> each (decided v now [i]) m (alter f i m).
Proof.
  intros Hb HK HS j. destruct (decide (i = j)) as [<-|N].
  - rewrite lookup_alter_eq, Hb. constructor. split; [done|]. by rewrite bool_decide_eq_true_2 by set_solver.
  - rewrite lookup_alter_ne by done. destruct (m !! j); constructor. split; [reflexivity|]. by rewrite bool_decide_eq_false_2 by set_solver.
Qed.

(** The batches with the indices [l] are decided. *)
Definition ticked (now : Z) (l : list Z) (e e' : RollupEngine) : Prop :=
  each (decided (envOf e) (now / Second) l) (batchesOf e) (batchesOf e') /\ envOf e' = envOf e.

(** A batch with this index is decided, whatever the bridge answers. *)
Lemma finalizeOne_decided now i e :
  (forall b, batchesOf e !! i = Some b -> bt_AnchorFailed b = false) ->
  ticked now [i] e (finalizeOne sha256 now i e).2.
Proof.
  intros HA. unfold finalizeOne. rewrite bind_gets. cbn [id]. unfold mbind at 1, M_bind at 1, attempt at 1, onBatches, zoom.
  assert (HE : forall e1 root, let e2 := set_bm (update i (set_WithdrawalRoot root) (e_batchManager e1)) e1 in
    each (decided (envOf e) (now / Second) [i]) (batchesOf e) (batchesOf e1) -> each (decided (envOf e) (now / Second) [i]) (batchesOf e) (batchesOf e2)).
  { intros e1 root e2 H j. specialize (H j). unfold e2, update. cbn. destruct (decide (i = j)) as [<-|]; [|by rewrite lookup_alter_ne].
    rewrite lookup_alter_eq. destruct (batchesOf e !! i), (batchesOf e1 !! i); inversion_clear H as [? ? HD|]; constructor.
    destruct HD as [[] HS]. split; [by split|exact HS]. }
  destruct (FinalizeBatch_cases (proverOf e) (now / Second) i (e_batchManager e))
    as [(b & Hb & HS & HP & HC & ->)|[(b & Hb & HS & HP & ->)|(err & -> & HN)]].
  - assert (H1 : each (decided (envOf e) (now / Second) [i]) (batchesOf e) (alter (finalized (now / Second)) i (batchesOf e))).
    { apply (decided_one _ _ _ _ _ b Hb); [done|]. unfold outcome. cbn. rewrite HP, HS, (HA b Hb).
      destruct (checkPeriod_eq (now / Second) b (e_batchManager e)) as [err E]. rewrite HC in E. by destruct (periodOver _ _ _ b). }
    rewrite bind_gets. cbn [id]. set (e1 := set_bm _ e). assert (Hb1 : batchesOf e1 !! i = Some (finalized (now / Second) b)).
    { unfold e1, update. cbn [set_bm e_batchManager set_batches bm_batches]. by rewrite lookup_alter_eq, Hb. }
    rewrite Hb1. destruct (onBridge_frame (ProcessFinalizedBatch sha256 (now / Second) (finalized (now / Second) b)) e1) as [F1 F2].
    unfold mbind, M_bind, attempt. destruct (onBridge _ e1) as [r e2]. cbn [snd] in F1, F2.
    assert (H2 : each (decided (envOf e) (now / Second) [i]) (batchesOf e) (batchesOf e2)) by (by rewrite F1).
    assert (HV : envOf e2 = envOf e) by (unfold envOf; by rewrite F1, F2).
    destruct r as [[root|]| | |]; try done. unfold modify. cbn [snd]. split; [exact (HE e2 root H2)|exact HV].
  - cbn [snd mret M_ret]. split; [|done]. apply (decided_one _ _ _ _ _ b Hb); [done|]. unfold outcome. cbn. by rewrite HP, HS, (HA b Hb).
  - cbn [snd mret M_ret]. split; [|done]. intros j. cbn. destruct (batchesOf e !! j) as [b|] eqn:Hb; constructor. split; [reflexivity|].
    case_bool_decide as Hj; [|done]. apply list_elem_of_singleton in Hj as ->. unfold outcome. cbn. case_bool_decide as HS; [|done].
    destruct (HN b Hb HS) as [HP [err' HC]]. destruct (checkPeriod_eq (now / Second) b (e_batchManager e)) as [err'' E]. rewrite HC in E.
    rewrite HP, (HA b Hb). by destruct (periodOver _ _ _ b).
Qed.

(** The loop decides on a prefix of the list, and on the whole list if it returns. *)
Lemma finalizeLoop_decided now l : forall e, NoDup l ->
  exists k, each (decided (envOf e) (now / Second) (take k l)) (batchesOf e) (batchesOf (finalizeLoop sha256 now l e).2) /\
    ((finalizeLoop sha256 now l e).1 = Ok tt -> take k l = l).
Proof.
  induction l as [|i l IH]; intros e HN.
  { exists 0%nat. split; [apply decided_nil|done]. }
  apply list.NoDup_cons in HN as [Hi HN]. cbn [finalizeLoop]. rewrite bind_gets. cbn [id].
  set (m := if match batchesOf e !! i with Some b => bt_AnchorFailed b | None => false end then mret tt else finalizeOne sha256 now i).
  assert (HM : ticked now [i] e (m e).2).
  { unfold m. destruct (batchesOf e !! i) as [b|] eqn:Hb; [destruct (bt_AnchorFailed b) eqn:HF|].
    - split; [|done]. intros j. cbn. destruct (batchesOf e !! j) as [x|] eqn:Hx; constructor. split; [reflexivity|].
      case_bool_decide as Hj; [|done]. apply list_elem_of_singleton in Hj as ->. rewrite Hx in Hb. injection Hb as ->.
      unfold outcome. by rewrite HF, andb_false_r.
    - apply finalizeOne_decided. rewrite Hb. by intros ? [= <-].
    - apply finalizeOne_decided. by rewrite Hb. }
  unfold mbind, M_bind. destruct (m e) as [r e1]. cbn [snd] in HM. destruct HM as [H1 HV].
  destruct r as [[]| | |]; try (exists 1%nat; split; [exact H1|done]).
  destruct (IH e1 HN) as (k & H2 & HK). rewrite HV in H2. exists (S k). cbn [take]. split.
  - apply (decided_app _ _ [i] (take k l) _ _ _) with (2 := H1); [|done]. intros j ->%list_elem_of_singleton Hj. apply elem_of_take in Hj as (n & Hn & _).
    by apply Hi, (list_elem_of_lookup_2 _ n).
  - intros HR. by rewrite (HK HR).
Qed.
(** The submitted batches, once each. *)
Lemma submitted_indices bm : NoDup (GetSubmittedBatchIndices bm) /\
  forall i, i ∈ GetSubmittedBatchIndices bm <-> exists b, bm_batches bm !! i = Some b /\ bt_Status b = BatchStatusSubmitted.
Proof.
  unfold GetSubmittedBatchIndices. split.
  - rewrite merge_sort_Permutation. apply NoDup_fst_map_to_list.
  - intros i. rewrite merge_sort_Permutation, list_elem_of_fmap. split.
    + intros ([j b] & -> & Hj%elem_of_map_to_list). apply map_lookup_filter_Some in Hj as [H1 H2]. by exists b.
    + intros (b & H1 & H2). exists (i, b). split; [done|]. apply elem_of_map_to_list, map_lookup_filter_Some. done.
Qed.

(** The environment of a tick: the height is read from the anchor. *)
Definition tickEnv (e : RollupEngine) : Env :=
  mkEnv (proverOf e) (match e_l1Anchor e with Some a => an_currentHeight a | None => bm_l1CurrentHeight (e_batchManager e) end)
    (bm_l1ChallengeBlocks (e_batchManager e)).

(** What a tick that may have been cut short did to a batch. *)
Definition maybeDecided (v : Env) (now i : Z) (b b' : Batch) : Prop :=
  kept b b' /\ (bt_Status b' = bt_Status b \/ bt_Status b' = outcome v now i b).

Lemma maybe_refl v now m : each (maybeDecided v now) m m.
Proof. apply each_refl. intros i b. split; [reflexivity|by left]. Qed.

(** *** When the tick is not cut short *)

(** The leaf of a withdrawal has 32 bytes for the amount. *)
Definition fits (m : gmap Z Batch) : Prop :=
  map_Forall (fun _ b => Forall (fun tx => 0 <= valueOf tx < 2 ^ 256) (bt_Transactions b)) m.

(** The call neither panics nor runs out of fuel. *)
Definition comesBack {S A} (m : M S A) : Prop := forall s, match (m s).1 with Ok _ | Err _ => True | _ => False end.

Lemma comesBack_bind {S A B} (m : M S A) (f : A -> M S B) : comesBack m -> (forall a, comesBack (f a)) -> comesBack (m ≫= f).
Proof. intros H1 H2 s. specialize (H1 s). unfold mbind, M_bind. destruct (m s) as [[a| | |] s']; cbn in *; try done. apply H2. Qed.

Lemma comesBack_guard {S} b err : comesBack (S := S) (guard_err b err).
Proof. intros s. by destruct b. Qed.

Lemma comesBack_attempt {S A} (m : M S A) : comesBack m -> comesBack (attempt m).
Proof. intros H s. specialize (H s). unfold attempt. by destruct (m s) as [[] s']. Qed.

Lemma comesBack_zoom {S T A} (get : T -> S) (set : S -> T -> T) (m : M S A) : comesBack m -> comesBack (zoom get set m).
Proof. intros H t. specialize (H (get t)). unfold zoom. by destruct (m (get t)) as [[] s']. Qed.

Lemma big_bytes_fit v : 0 <= v < 2 ^ 256 -> len (big_bytes v) <= 32.
Proof.
  intros Hv. unfold big_bytes. destruct (Z.eqb_spec v 0); [unfold len; simpl; lia|]. unfold len. rewrite length_be_bytes.
  assert (Z.log2 (Z.abs v) < 256) by (apply Z.log2_lt_pow2; lia). pose proof (Z.log2_nonneg (Z.abs v)).
  assert (Z.log2 (Z.abs v) / 8 < 32) by (apply Z.div_lt_upper_bound; lia). lia.
Qed.

Lemma leaf_ok w v i : 0 <= v < 2 ^ 256 -> exists h, ComputeWithdrawalLeafHash sha256 w (Some v) i = Ok h.
Proof.
  intros Hv%big_bytes_fit. unfold ComputeWithdrawalLeafHash. destruct (Z.ltb_spec 32 (len (big_bytes v))); [lia|]. by eexists.
Qed.

Lemma buildLoop_returns ba txs : forall i smt, Forall (fun tx => 0 <= valueOf tx < 2 ^ 256) txs ->
  exists t, buildLoop sha256 ba i txs smt = Ok t.
Proof.
  induction txs as [|tx txs IH]; intros i smt HF; [by eexists|]. apply list.Forall_cons in HF as [Hv HF]. cbn [buildLoop].
  destruct (isWithdrawal ba tx) eqn:E; [|by apply IH]. destruct (isWithdrawal_inv ba tx E) as (v & _ & EV & _). unfold valueOf in Hv.
  rewrite EV in *. destruct (leaf_ok (tx_From tx) v i Hv) as [h ->]. by apply IH.
Qed.

Lemma withdraw_back w v bi ti bh p : 0 <= v < 2 ^ 256 -> comesBack (ProcessWithdrawal sha256 w (Some v) bi ti bh p).
Proof.
  intros Hv. unfold ProcessWithdrawal. apply comesBack_bind; [apply comesBack_guard|intros _]. cbn [default from_option id].
  destruct (p ≫= _) as [[q mp]|]; [|by intros s]. apply comesBack_bind; [by intros s|]. intros b.
  apply comesBack_bind; [apply comesBack_guard|intros _]. apply comesBack_bind.
  - unfold checkProof. destruct (_ !! bi); [|by intros s]. apply comesBack_bind; [apply comesBack_guard|intros _].
    destruct (leaf_ok w v ti Hv) as [h ->]. apply comesBack_bind; [by intros s|]. intros x.
    apply comesBack_bind; [apply comesBack_guard|intros _; apply comesBack_guard].
  - intros _. apply comesBack_bind; [apply comesBack_guard|by intros _ s].
Qed.

Lemma payLoop_back now bi bh ba smt txs : forall i, Forall (fun tx => 0 <= valueOf tx < 2 ^ 256) txs ->
  comesBack (payLoop sha256 now bi bh ba smt i txs).
Proof.
  induction txs as [|tx txs IH]; intros i HF; [by intros s|]. apply list.Forall_cons in HF as [Hv HF]. cbn [payLoop].
  apply comesBack_bind; [|intros _; by apply IH]. destruct (isWithdrawal ba tx) eqn:E; [|by intros s].
  destruct (isWithdrawal_inv ba tx E) as (v & _ & EV & _). unfold valueOf in Hv. rewrite EV in *.
  apply comesBack_bind; [by intros s|]. intros b. destruct (default false _); [by intros s|].
  apply comesBack_bind; [|by intros r s]. by apply comesBack_attempt, comesBack_zoom, withdraw_back.
Qed.

Lemma batch_back now b : Forall (fun tx => 0 <= valueOf tx < 2 ^ 256) (bt_Transactions b) -> comesBack (ProcessFinalizedBatch sha256 now b).
Proof.
  intros HF. unfold ProcessFinalizedBatch. apply comesBack_bind; [by intros s|]. intros s0. destruct (if bool_decide _ then _ else _); [|by intros s].
  apply comesBack_bind; [by intros s|]. intros _. destruct (buildLoop_returns (b_bridgeAddress s0) _ 0 (NewSparseMerkleTree sha256) HF) as [t Ht].
  unfold buildWithdrawalSMT. rewrite Ht. apply comesBack_bind; [by intros s|]. intros smt. apply comesBack_bind; [by intros s|]. intros _.
  apply comesBack_bind; [by apply payLoop_back|by intros _ s].
Qed.

Lemma finalizeOne_back now i e : fits (batchesOf e) -> (finalizeOne sha256 now i e).1 = Ok tt.
Proof.
  intros HF. unfold finalizeOne. rewrite bind_gets. cbn [id]. unfold mbind at 1, M_bind at 1, attempt at 1, onBatches, zoom.
  destruct (FinalizeBatch_cases (proverOf e) (now / Second) i (e_batchManager e)) as [(b & Hb & _ & _ & _ & ->)|[(b & Hb & _ & _ & ->)|(err & -> & _)]]; [|done|done].
  rewrite bind_gets. cbn [id set_bm e_batchManager update set_batches bm_batches]. rewrite lookup_alter_eq, Hb. cbn [fmap option_fmap option_map].
  specialize (HF _ _ Hb). cbv beta in HF. unfold mbind, M_bind, attempt, onBridge. cbn [e_bridge set_bm]. destruct (e_bridge e) as [br|]; [|done].
  pose proof (batch_back (now / Second) (finalized (now / Second) b) HF) as HB. specialize (HB (bridgeView (set_bm (update i (finalized (now / Second)) (e_batchManager e)) e) br)).
  by destruct (ProcessFinalizedBatch _ _ _ _) as [[]].
Qed.

Lemma fits_each R m m' : (forall i b b', R i b b' -> bt_Transactions b' = bt_Transactions b) -> each R m m' -> fits m -> fits m'.
Proof. intros HR HE HF i b' Hb. destruct (each_inv _ _ _ _ _ HE Hb) as (b & Hb0 & HRb). rewrite (HR _ _ _ HRb). by apply (HF i). Qed.

Lemma finalizeLoop_back now l : forall e, fits (batchesOf e) -> (finalizeLoop sha256 now l e).1 = Ok tt.
Proof.
  induction l as [|i l IH]; intros e HF; [done|]. cbn [finalizeLoop]. rewrite bind_gets. cbn [id].
  destruct (match batchesOf e !! i with Some _ => _ | None => _ end) eqn:HA; [rewrite bind_ret; by apply IH|].
  pose proof (finalizeOne_back now i e HF) as HR. destruct (finalizeOne_decided now i e) as [HD _]; [intros b Hb; by rewrite Hb in HA|].
  unfold mbind, M_bind. destruct (finalizeOne sha256 now i e) as [r e1]. cbn in HR, HD. subst r. apply IH.
  refine (fits_each _ _ _ _ HD HF). by intros ? ? ? [[] _].
Qed.

(** Every batch that was submitted is decided, unless the tick is cut short by a
    panic. *)
Lemma tick_decided now e :
  each (maybeDecided (tickEnv e) (now / Second)) (batchesOf e) (batchesOf (tryFinalizeBatches sha256 now e).2) /\
  (e_status e = RollupStatusRunning -> fits (batchesOf e) ->
   each (fun i b b' => kept b b' /\ bt_Status b' = outcome (tickEnv e) (now / Second) i b)
     (batchesOf e) (batchesOf (tryFinalizeBatches sha256 now e).2)).
Proof.
  unfold tryFinalizeBatches, recovered. rewrite bind_gets. cbn [id]. case_bool_decide as HS; cbn [negb]; [|split; [apply maybe_refl|done]].
  destruct (submitted_indices (e_batchManager e)) as [HN HI]. set (l := GetSubmittedBatchIndices (e_batchManager e)) in *.
  assert (HO : forall i b, i ∉ l -> batchesOf e !! i = Some b -> outcome (tickEnv e) (now / Second) i b = bt_Status b).
  { intros i b Hi Hb. unfold outcome. case_bool_decide; [|done]. destruct Hi. apply HI. by exists b. }
  destruct (Z.eqb_spec (len l) 0) as [HL|HL].
  { split; [apply maybe_refl|]. intros _ _ i. cbn. destruct (batchesOf e !! i) as [b|] eqn:Hb; constructor. split; [reflexivity|].
    rewrite HO; [done| |done]. unfold len in HL. destruct l; [apply not_elem_of_nil|simpl in HL; lia]. }
  rewrite bind_modify. set (e1 := match e_l1Anchor e with Some _ => _ | None => e end).
  assert (H1 : batchesOf e1 = batchesOf e /\ envOf e1 = tickEnv e) by (unfold e1, tickEnv, envOf; by destruct (e_l1Anchor e)). clearbody e1. destruct H1 as [H1 H2].
  destruct (finalizeLoop_decided now l e1 HN) as (k & HD & HK). pose proof (finalizeLoop_back now l e1) as HB. rewrite H1, H2 in *.
  destruct (finalizeLoop sha256 now l e1) as [r e2]. cbn [fst snd] in *.
  match goal with |- context [snd ?x] => assert (HX : snd x = e2) by (by destruct r); rewrite !HX end. split.
  - eapply each_mono; [|exact HD]. intros i b b' [HKe HSt]. split; [done|]. rewrite HSt. case_bool_decide; auto.
  - intros _ HF. rewrite (HK (HB HF)) in HD. intros i. specialize (HD i). destruct (batchesOf e !! i) as [b|] eqn:Hb; inversion_clear HD as [? ? HY|]; constructor.
    destruct HY as [HKe HSt]. split; [done|]. rewrite HSt. case_bool_decide as Hi; [done|]. by rewrite HO.
Qed.
End tick.

(** ** All calls *)

(** Only fields that play no part in the life cycle differ. *)
Record neutral (b b' : Batch) : Prop := {
  nt_Index : bt_Index b' = bt_Index b;
  nt_Prev : bt_PrevStateRoot b' = bt_PrevStateRoot b;
  nt_Post : bt_PostStateRoot b' = bt_PostStateRoot b;
  nt_Txs : bt_Transactions b' = bt_Transactions b;
  nt_Hash : bt_BatchHash b' = bt_BatchHash b;
  nt_Status : bt_Status b' = bt_Status b
}.

Section moves.
Context (sha256 sha3 keccak256 : list byte -> Hash) (json : list RollupTransaction -> list byte).
Context (R : Z -> Batch -> Batch -> Prop).
Context (Rtrans : forall i x y z, R i x y -> R i y z -> R i x z).
Context (Rneutral : forall i b b', neutral b b' -> R i b b').
Context (Rsubmit : forall i b post h now d, bt_Status b = BatchStatusPending -> R i b (submitted post h now d b)).
Context (Rchallenge : forall i b, bt_Status b = BatchStatusSubmitted -> R i b (set_Status BatchStatusChallenged b)).

(** The next index stays, and every batch moves by [R]. *)
Definition bmMoves (bm bm' : BatchManager) : Prop :=
  bm_nextIndex bm' = bm_nextIndex bm /\ each R (bm_batches bm) (bm_batches bm').

Definition moves (e e' : RollupEngine) : Prop := bmMoves (e_batchManager e) (e_batchManager e').

Lemma Rrefl i b : R i b b.
Proof. by apply Rneutral. Qed.

#[local] Instance moves_preorder : PreOrder moves.
Proof.
  split; [intros e; split; [done|apply each_refl, Rrefl]|]. intros x y z [H1 H2] [K1 K2]. split; [congruence|by eapply each_trans].
Qed.

Lemma moves_same e e' : e_batchManager e' = e_batchManager e -> moves e e'.
Proof. intros E. unfold moves. rewrite E. apply (reflexivity (R := moves) e). Qed.

Lemma moves_update f i e : (forall b, neutral b (f b)) -> moves e (set_bm (update i f (e_batchManager e)) e).
Proof. intros H. split; [done|]. apply each_alter; [apply Rrefl|]. auto. Qed.

Lemma moves_bm e bm : bmMoves (e_batchManager e) bm -> moves e (set_bm bm e).
Proof. done. Qed.

Lemma transaction_moves tx : sat moves (SubmitL2Transaction sha256 tx).
Proof.
  intros e. unfold SubmitL2Transaction. rewrite bind_gets, bind_guard. destruct (negb _); [by apply moves_same|].
  unfold onBatches, zoom, AcceptTransaction, AddTransaction. destruct (validateTransaction _ _ _); [by apply moves_same|].
  rewrite bind_gets, bind_guard. destruct (_ <=? _); [by apply moves_same|]. split; [done|apply each_refl, Rrefl].
Qed.

Lemma anchor_moves outage i : sat moves (anchorBatch sha256 json outage i).
Proof.
  intros e. unfold anchorBatch. rewrite bind_gets. cbn [id]. destruct (e_l1Anchor e) as [a|]; [|by apply moves_same].
  destruct (batchesOf e !! i) as [b|]; [|by apply moves_same].
  assert (HF : moves e (set_bm (update i (fun b => set_Anchor true (bt_AnchorRetries b + 1) b) (e_batchManager e)) e)) by (by apply moves_update).
  destruct (anchorLoop _ _ _ _ _ _ _) as [[[h|]| | |] a']; unfold modify; cbn [snd]; [|exact HF..].
  transitivity (set_bm (update i (set_Anchor false 0) (e_batchManager e)) e); [by apply moves_update|].
  exact (moves_update (set_SubmitHeight h) i (set_bm (update i (set_Anchor false 0) (e_batchManager e)) e) ltac:(done)).
Qed.

Lemma submit_moves now outage b post gas : sat moves (submitExecuted sha256 keccak256 json now outage b post gas).
Proof.
  unfold submitExecuted. apply sat_bind; [apply _|apply sat_modify; intros e; by apply moves_update|intros _].
  apply sat_bind; [apply _|apply sat_attempt|intros [err|[]]].
  - intros e. unfold onBatches, zoom.
    destruct (SubmitBatch_cases (now / Second) (bt_Index b) post (computeSubmitHash keccak256 (bt_BatchHash b) post) (e_batchManager e))
      as [(b1 & d & Hb & HS & ->)|[err ->]]; [|by apply moves_same].
    split; [done|]. apply each_alter; [apply Rrefl|]. cbn. rewrite Hb. intros ? [= <-]. by apply Rsubmit.
  - apply sat_modify. intros e. by apply moves_same.
  - apply sat_bind; [apply _|apply sat_modify; intros e; by apply moves_same|intros _].
    apply sat_bind; [apply _|apply anchor_moves|intros _]. apply sat_modify. intros e. by apply moves_same.
Qed.

Lemma proof_moves p : sat moves (SubmitFraudProof sha256 sha3 p).
Proof.
  unfold SubmitFraudProof. apply sat_bind; [apply _|apply sat_gets, _|intros e0]. apply sat_bind; [apply _| |intros _].
  { intros e. unfold onProver, zoom. destruct (storeFraudProof _ _ _ _ _). by apply moves_same. }
  apply sat_bind; [apply _|apply sat_gets, _|intros e1]. apply sat_bind; [apply _|apply sat_attempt|intros _; apply sat_ret, _].
  intros e. unfold onBatches, zoom.
  destruct (ChallengeBatch_cases (proverOf e1) (pf_BatchIndex p) (e_batchManager e)) as [(b & Hb & HS & _ & ->)|[err ->]]; [|by apply moves_same].
  split; [done|]. apply each_alter; [apply Rrefl|]. cbn. rewrite Hb. intros ? [= <-]. by apply Rchallenge.
Qed.

(** At most one batch is built before the others move. *)
Definition built (bm bm1 : BatchManager) : Prop :=
  bm1 = bm \/ exists b, bt_Index b = bm_nextIndex bm /\ bt_Status b = BatchStatusPending /\ bt_Transactions b = bm_pendingTxs bm /\
    bm_batches bm1 = <[bm_nextIndex bm := b]> (bm_batches bm) /\ bm_nextIndex bm1 = u64 (bm_nextIndex bm + 1).

Lemma build_moves now outage e :
  exists bm1, built (e_batchManager e) bm1 /\ bmMoves bm1 (e_batchManager (tryBuildAndSubmitBatch sha256 keccak256 json now outage e).2).
Proof.
  unfold tryBuildAndSubmitBatch. assert (HR : forall m, exists e', (recovered failure m e).2 = e' /\ e_batchManager e' = e_batchManager (m e).2).
  { intros m. eexists. split; [done|]. unfold recovered. by destruct (m e) as [[]]. }
  edestruct HR as (e' & -> & ->). clear HR e'. rewrite bind_gets. cbn [id].
  assert (HQ : forall bm, bm = e_batchManager e -> exists bm1, built (e_batchManager e) bm1 /\ bmMoves bm1 bm)
    by (intros ? ->; exists (e_batchManager e); split; [by left|apply (reflexivity (R := moves) e)]).
  destruct (negb _); [by apply HQ|]. unfold mbind at 1, M_bind at 1, onTurn, zoom. destruct (shouldBuildBatch _ _ _ _) as [r t].
  destruct r as [turn| | |]; try (by apply HQ). destruct (negb turn); [by apply HQ|].
  unfold mbind at 1, M_bind at 1, attempt at 1, onBatches, zoom. cbn [e_batchManager set_turn].
  destruct (BuildBatch_cases sha256 (now / Second) (e_batchManager e)) as [(b & Eb & ->)|[err ->]].
  - match goal with |- context [set_bm ?bm _] => exists bm end. split; [right; exists b; by subst b|].
    match goal with |- bmMoves ?bm (e_batchManager (?m ?s).2) => change (moves s (m s).2); generalize s end.
    match goal with |- forall s, moves s (?m s).2 => change (sat moves m) end.
    apply sat_bind; [apply _|apply sat_attempt|intros [err|[post gas]]; [apply sat_modify; intros x; by apply moves_same|apply submit_moves]].
    intros x. unfold onState, zoom. destruct (ProcessBatch _ _ _ _ _). by apply moves_same.
  - cbn [fst snd]. destruct (_ || _); [by apply HQ|]. by apply HQ.
Qed.

(** Every call but the finalization. *)
Lemma call_moves call e :
  (forall now, call <> CallFinalize now) ->
  exists bm1, built (e_batchManager e) bm1 /\ bmMoves bm1 (e_batchManager (runCall sha256 sha3 keccak256 json call e)).
Proof.
  intros HC. destruct call as [tx|now outage|now|p|now who a|reader h|hs|who a bi ti bh pf|h]; cbn [runCall]; [|apply build_moves|by destruct (HC now)|..];
    (exists (e_batchManager e); split; [by left|]).
  - apply transaction_moves.
  - apply proof_moves.
  - apply moves_same, onBridge_frame.
  - apply moves_same, onBridge_frame.
  - apply moves_same, onBridge_frame.
  - apply moves_same, onBridge_frame.
  - destruct (e_l1Anchor e); by apply moves_same.
Qed.
End moves.

(** ** Progress *)

(** The moves of a batch. *)
Inductive advance : BatchStatus -> BatchStatus -> Prop :=
  | advance_submit : advance BatchStatusPending BatchStatusSubmitted
  | advance_finalize : advance BatchStatusSubmitted BatchStatusFinalized
  | advance_challenge : advance BatchStatusSubmitted BatchStatusChallenged.

(** A batch keeps its contents, and its root once it is submitted. *)
Record progressed (b b' : Batch) : Prop := {
  pg_Index : bt_Index b' = bt_Index b;
  pg_Prev : bt_PrevStateRoot b' = bt_PrevStateRoot b;
  pg_Txs : bt_Transactions b' = bt_Transactions b;
  pg_Hash : bt_BatchHash b' = bt_BatchHash b;
  pg_Post : bt_Status b <> BatchStatusPending -> bt_PostStateRoot b' = bt_PostStateRoot b;
  pg_Status : rtc advance (bt_Status b) (bt_Status b')
}.

Lemma advance_pending s s' : rtc advance s s' -> s <> BatchStatusPending -> s' <> BatchStatusPending.
Proof. induction 1 as [|x y z H _ IH]; [done|]. intros _. apply IH. by destruct H. Qed.

#[export] Instance progressed_preorder : PreOrder progressed.
Proof.
  split; [by intros b; split|]. intros x y z [] []. split; try congruence; [|by etransitivity].
  intros H. rewrite pg_Post1, pg_Post0; [done|done|]. by eapply advance_pending.
Qed.

Lemma decided_progressed v now i b b' : maybeDecided v now i b b' -> progressed b b'.
Proof.
  intros [[] HS]. split; try done. unfold outcome in HS.
  destruct HS as [->| ->]; [done|]. case_bool_decide as E; [rewrite E|done]. destruct (bt_AnchorFailed b); [done|]. cbn [andb negb].
  destruct (hasProof _ _); [apply rtc_once; constructor|]. destruct (periodOver _ _ _ _); [apply rtc_once; constructor|done].
Qed.

(** Batches are stored under their indices, below the next one. *)
Definition indexed (bm : BatchManager) : Prop :=
  0 <= bm_nextIndex bm /\ forall i b, bm_batches bm !! i = Some b -> bt_Index b = i /\ 0 <= i < bm_nextIndex bm.

(** The progress of the batch manager in one step. *)
Record evolves (bm bm' : BatchManager) : Prop := {
  ev_indexed : indexed bm';
  ev_next : bm_nextIndex bm <= bm_nextIndex bm' <= bm_nextIndex bm + 1;
  ev_batches i b : bm_batches bm !! i = Some b -> exists b', bm_batches bm' !! i = Some b' /\ progressed b b'
}.

Lemma evolves_each bm bm' :
  indexed bm -> bm_nextIndex bm' = bm_nextIndex bm -> each (fun _ => progressed) (bm_batches bm) (bm_batches bm') -> evolves bm bm'.
Proof.
  intros [H1 H2] HN HE. split; [split| |]; rewrite ?HN; [done| |lia|].
  - intros i b' Hb'. destruct (each_inv _ _ _ _ _ HE Hb') as (b & Hb & []). rewrite pg_Index0. by apply H2.
  - intros i b Hb. by apply (each_lookup _ _ _ _ _ HE).
Qed.

Lemma evolves_built bm bm1 bm' :
  indexed bm -> bm_nextIndex bm + 1 < 2 ^ 64 -> built bm bm1 -> bmMoves (fun _ => progressed) bm1 bm' -> evolves bm bm'.
Proof.
  intros HI HL [->|(b & B1 & B2 & B3 & B4 & B5)] [M1 M2]; [by apply evolves_each|]. pose proof HI as [H1 H2].
  assert (HN : bm_nextIndex bm1 = bm_nextIndex bm + 1) by (rewrite B5; unfold u64; apply Z.mod_small; lia).
  assert (HX : indexed bm1).
  { split; [lia|]. intros i x. rewrite B4, HN, lookup_insert_Some. intros [[<- <-]|[_ Hx]]; [lia|]. apply H2 in Hx. lia. }
  destruct (evolves_each bm1 bm' HX M1 M2) as [E1 E2 E3]. split; [done|lia|]. intros i x Hx. apply E3. rewrite B4.
  rewrite lookup_insert_ne; [done|]. apply H2 in Hx. lia.
Qed.

Section step.
Context (sha256 sha3 keccak256 : list byte -> Hash) (json : list RollupTransaction -> list byte).

Definition sameNext (e e' : RollupEngine) : Prop := bm_nextIndex (e_batchManager e') = bm_nextIndex (e_batchManager e).

#[local] Instance sameNext_preorder : PreOrder sameNext.
Proof. split; [by intros e|]. intros x y z H1 H2. unfold sameNext in *. congruence. Qed.

Lemma finalizeOne_next now i : sat sameNext (finalizeOne sha256 now i).
Proof.
  unfold finalizeOne. apply sat_bind; [apply _|apply sat_gets, _|intros e0]. apply sat_bind; [apply _|apply sat_attempt|intros [err|[]]; [apply sat_ret, _|]].
  { intros e. unfold onBatches, zoom.
    by destruct (FinalizeBatch_cases (proverOf e0) (now / Second) i (e_batchManager e)) as [(b & _ & _ & _ & _ & ->)|[(b & _ & _ & _ & ->)|(err & -> & _)]]. }
  apply sat_bind; [apply _|apply sat_gets, _|intros e1]. destruct (_ !! i) as [b|]; [|apply sat_ret, _].
  apply sat_bind; [apply _|apply sat_attempt|intros [?|[root|]]; [apply sat_ret, _|by apply sat_modify|apply sat_ret, _]].
  intros e. unfold sameNext. by rewrite (proj1 (onBridge_frame _ e)).
Qed.

Lemma tick_next now : sat sameNext (tryFinalizeBatches sha256 now).
Proof.
  assert (HR : forall m, sat sameNext m -> sat sameNext (recovered id m)).
  { intros m H e. specialize (H e). unfold recovered. by destruct (m e) as [[]]. }
  apply HR. apply sat_bind; [apply _|apply sat_gets, _|intros e0]. cbv zeta. destruct (negb _); [apply sat_ret, _|]. destruct (_ =? 0); [apply sat_ret, _|].
  apply sat_bind; [apply _|apply sat_modify; intros e1; by destruct (e_l1Anchor e1)|intros _].
  induction (GetSubmittedBatchIndices _) as [|i l IH]; cbn [finalizeLoop]; [apply sat_ret, _|]. apply sat_bind; [apply _|apply sat_gets, _|intros e1].
  apply sat_bind; [apply _| |done]. destruct (match _ with Some _ => _ | None => _ end); [apply sat_ret, _|apply finalizeOne_next].
Qed.

Lemma isFinalize call : (exists now, call = CallFinalize now) \/ forall now, call <> CallFinalize now.
Proof. destruct call; try (by right); left; by eexists. Qed.

Lemma step_evolves e e' :
  indexed (e_batchManager e) -> bm_nextIndex (e_batchManager e) + 1 < 2 ^ 64 -> step sha256 sha3 keccak256 json e e' ->
  evolves (e_batchManager e) (e_batchManager e').
Proof.
  intros HI HL [call]. destruct (isFinalize call) as [[now ->]|N].
  - apply evolves_each; [done|apply tick_next|]. eapply each_mono; [|apply (proj1 (tick_decided sha256 now e))]. intros i b b'. apply decided_progressed.
  - destruct (call_moves sha256 sha3 keccak256 json (fun _ => progressed)) with (call := call) (e := e) as (bm1 & H1 & H2).
    + intros _ x y z. by transitivity y.
    + intros _ b b' []. split; try done. by rewrite nt_Status0.
    + intros _ b post h now d HS. split; try done. cbn. rewrite HS. apply rtc_once. constructor.
    + intros _ b HS. split; try done. cbn. rewrite HS. apply rtc_once. constructor.
    + exact N.
    + by apply (evolves_built _ bm1).
Qed.

(** A batch becomes final in a tick only, and only when it is due. *)
Lemma step_finalizes call e i b b' :
  let e' := runCall sha256 sha3 keccak256 json call e in
  batchesOf e !! i = Some b -> batchesOf e' !! i = Some b' ->
  bt_Status b <> BatchStatusFinalized -> bt_Status b' = BatchStatusFinalized ->
  exists now, call = CallFinalize now /\ outcome (tickEnv e) (now / Second) i b = BatchStatusFinalized.
Proof.
  intros e' Hb Hb' HS HS'. destruct (isFinalize call) as [[now ->]|N].
  - exists now. split; [done|]. destruct (tick_decided sha256 now e) as [HD _]. destruct (each_lookup _ _ _ _ _ HD Hb) as (x & Hx & _ & HO).
    unfold e' in Hb'. cbn [runCall] in Hb'. rewrite Hb' in Hx. injection Hx as <-. destruct HO; congruence.
  - exfalso. destruct (call_moves sha256 sha3 keccak256 json (fun _ b b' => bt_Status b' = BatchStatusFinalized -> bt_Status b = BatchStatusFinalized))
      with (call := call) (e := e) as (bm1 & H1 & [_ H2]); try (by auto).
    + intros _ x y []. congruence.
    + destruct (each_inv _ _ _ _ _ H2 Hb') as (x & Hx & HR). specialize (HR HS').
      destruct H1 as [->|(y & Y1 & Y2 & Y3 & Y4 & Y5)]; [congruence|]. rewrite Y4 in Hx. apply lookup_insert_Some in Hx as [[<- <-]|[_ Hx]]; congruence.
Qed.
End step.
End LifecycleSpec.
