(* ===== verification/SequencingTheorems.v ===== *)
(** * Theorems about sequencing (rollup/sequencer_elector.go, rollup/l1_anchor.go)

    Whose turn it is to build a batch, and what the calldata of a batch says: the
    transactions are published on L1 in RLP, and whoever reads them back with the
    decoder finds the fields that were written, which determine the transactions
    up to an absent receiver, written like the zero address. *)

From Stdlib Require Import ZArith Lia.
From Stdlib.Strings Require Import Byte.
From stdpp Require Import base list countable gmap strings numbers pretty.
From S2P Require Import Prelude Stack Rlp RlpSpec RlpRoundtrip Bridge RollupConfig BatchManager Sequencing.

Import Rlp RlpRoundtrip Bridge Sequencing.

(** ** Whose turn it is *)

Section election.
Context (keccak256 : list byte -> Hash).

Lemma elected epoch el a : sequencerOf keccak256 epoch el = Ok a -> a ∈ getValidators el.
Proof.
  unfold sequencerOf. destruct (_ =? 0); [done|]. destruct (_ && _ && _); [done|].
  destruct (getValidators el !! _) as [x|] eqn:E; [|done]. intros [= <-]. by eapply list_elem_of_lookup_2.
Qed.

Lemma sequencerOf_back epoch el : sequencerOf keccak256 epoch el <> Panic /\ sequencerOf keccak256 epoch el <> NoFuel.
Proof.
  unfold sequencerOf. destruct (Z.eqb_spec (len (getValidators el)) 0) as [|Hn]; [done|]. destruct (_ && _ && _); [done|].
  pose proof (len_nonneg (getValidators el)) as HL. set (i := computeSequencerIndex _ _ _ _).
  assert (Hi : 0 <= i < len (getValidators el)).
  { unfold i, computeSequencerIndex. destruct (Z.leb_spec (len (getValidators el)) 0); [lia|]. apply Z.mod_pos_bound. lia. }
  destruct (getValidators el !! Z.to_nat i) eqn:E; [done|]. apply lookup_ge_None in E. unfold len in Hi. lia.
Qed.

(** The election picks validators only and never panics, and one node builds
    at a time: of the nodes that see the same validators and seeds and have not yet
    missed as many batches as the timeout allows, only the one whose address was
    elected builds a batch, whatever their clocks and histories. *)
Theorem single_builder (config : RollupConfig) (el : QPOSSequencerElector) (now now' : Z) (t t' : Turn)
    (HE : t_elector t = Some el) (HE' : t_elector t' = Some el)
    (HA : t_localAddress t <> zero_array 20) (HA' : t_localAddress t' <> zero_array 20)
    (HM : t_missedBatchCount t < cfg_SequencerTimeout config) (HM' : t_missedBatchCount t' < cfg_SequencerTimeout config)
    (HB : (shouldBuildBatch keccak256 config now t).1 = Ok true) (HB' : (shouldBuildBatch keccak256 config now' t').1 = Ok true) :
  t_localAddress t = t_localAddress t' /\ t_localAddress t ∈ getValidators el /\
  forall epoch, sequencerOf keccak256 epoch el <> Panic.
Proof.
  assert (HT : forall n x, t_elector x = Some el -> t_localAddress x <> zero_array 20 -> t_missedBatchCount x < cfg_SequencerTimeout config ->
    (shouldBuildBatch keccak256 config n x).1 = Ok true -> sequencerOf keccak256 (GetCurrentEpoch el) el = Ok (t_localAddress x)).
  { intros n x HEx HAx HMx. unfold shouldBuildBatch. rewrite bind_gets. cbn [id]. rewrite HEx, bool_decide_eq_false_2 by done.
    unfold GetCurrentSequencer. destruct (sequencerOf keccak256 _ el) as [a| | |] eqn:ES; try done.
    assert (HN : forall k, k = t_missedBatchCount x \/ k = 0 -> (0 <? cfg_SequencerTimeout config) && (cfg_SequencerTimeout config <=? k) = false).
    { intros k Hk. destruct (Z.ltb_spec 0 (cfg_SequencerTimeout config)); [|done]. apply Z.leb_gt. lia. }
    unfold mbind, M_bind. destruct (bool_decide (a = t_lastSequencerAddr x)); cbn [mret M_ret modify]; rewrite HN by auto;
      (case_bool_decide as HX; [by rewrite HX|done]). }
  pose proof (HT now t HE HA HM HB) as E1. pose proof (HT now' t' HE' HA' HM' HB') as E2. rewrite E1 in E2. injection E2 as E2.
  split; [done|]. split; [by eapply elected|]. intros epoch. apply sequencerOf_back.
Qed.
End election.

(** ** Calldata *)

(** Numbers of the type [uint64]. *)
Record tx_wide (tx : RollupTransaction) : Prop := {
  wd_Nonce : is_u64 (tx_Nonce tx);
  wd_GasPrice : is_u64 (tx_GasPrice tx);
  wd_GasLimit : is_u64 (tx_GasLimit tx);
  wd_ChainID : is_u64 (tx_ChainID tx)
}.

(** An absent receiver is the zero address. *)
Definition normalTo (tx : RollupTransaction) : RollupTransaction :=
  mkTx (tx_Nonce tx) (tx_GasPrice tx) (tx_GasLimit tx) (Some (default (zero_array 20) (tx_To tx))) (tx_Value tx) (tx_Data tx)
    (tx_From tx) (tx_Hash tx) (tx_Signature tx) (tx_ChainID tx) (tx_PublicKey tx).

Abbreviation wireTxs := (TSlice rlpRollupTransaction).

Lemma wt_array_of {n} (a : array n) : wt (TByteArray n) (VBytes (bytes_of a)).
Proof. pose proof (wt_byteArray (bytes_of a)) as H. by rewrite length_bytes_of in H. Qed.

Lemma wt_wireTx tx : tx_wide tx -> wt rlpRollupTransaction (wireTx tx).
Proof.
  intros [[] [] [] []]. apply wt_struct. repeat (constructor; [first [by apply wt_uint|apply wt_bytes|apply wt_array_of]|]). constructor.
Qed.

Lemma len_cons {A} (x : A) l : len (x :: l) = 1 + len l.
Proof. unfold len. cbn [length]. lia. Qed.

(** Each transaction takes four calls of [Bytes], and two lists are open at once. *)
Lemma sum_wireTxs txs : sumZ (map (calls rlpRollupTransaction) (map wireTx txs)) = 4 * len txs.
Proof.
  induction txs as [|tx txs IH]; [done|]. rewrite len_cons. change (4 + sumZ (map (calls rlpRollupTransaction) (map wireTx txs)) = 4 * (1 + len txs)). lia.
Qed.

Lemma calls_wireTxs txs : calls wireTxs (VList (map wireTx txs)) = 4 * len txs.
Proof. rewrite <- sum_wireTxs. change (sumZ (map (calls rlpRollupTransaction) (map wireTx txs)) + 0 = sumZ (map (calls rlpRollupTransaction) (map wireTx txs))). lia. Qed.

Lemma max_wireTxs txs : maxZ (map (depth rlpRollupTransaction) (map wireTx txs)) <= 1.
Proof.
  induction txs as [|tx txs IH]; [done|]. change (Z.max 1 (maxZ (map (depth rlpRollupTransaction) (map wireTx txs))) <= 1). lia.
Qed.

Lemma depth_wireTxs txs : depth wireTxs (VList (map wireTx txs)) <= 2.
Proof.
  pose proof (max_wireTxs txs). change (1 + Z.max 1 (maxZ (map (depth rlpRollupTransaction) (map wireTx txs))) <= 2). lia.
Qed.

Lemma string_bytes_inj s : forall t, string_bytes s = string_bytes t -> s = t.
Proof.
  induction s as [|a s IH]; intros [|b t] H; try done. injection H as H1 H2. f_equal; [|by apply IH].
  rewrite <- (Ascii.ascii_of_byte_of_ascii a), <- (Ascii.ascii_of_byte_of_ascii b). by rewrite H1.
Qed.

Lemma pretty_N_go_empty x : forall s, s <> EmptyString -> pretty_N_go x s <> EmptyString.
Proof.
  induction (N.lt_wf_0 x) as [x _ IH]; intros s Hs. assert (x = 0 \/ 0 < x)%N as [->|Hx] by lia; [by rewrite pretty_N_go_0|].
  rewrite pretty_N_go_step by done. apply IH; [|done]. by apply N.div_lt.
Qed.

Lemma pretty_nonempty (v : Z) : pretty v <> EmptyString.
Proof.
  assert (HP : forall p, pretty (N.pos p) <> EmptyString).
  { intros p. unfold pretty, pretty_N. rewrite decide_False by done. rewrite pretty_N_go_step by lia. by apply pretty_N_go_empty. }
  destruct v as [|p|p]; [done|apply HP|done].
Qed.

(** The fields of a transaction determine it. *)
Lemma wireTx_inj x y : wireTx x = wireTx y -> normalTo x = normalTo y.
Proof.
  unfold wireTx. intros [= H1 H2 H3 H4 H5 H6 H7 H8 H9 H10 H11]. apply array_eq in H4, H7, H8.
  assert (HV : tx_Value x = tx_Value y).
  { destruct (tx_Value x) as [v|], (tx_Value y) as [w|]; [|exfalso..|done].
    - apply string_bytes_inj in H5. f_equal. by apply (inj pretty).
    - apply (string_bytes_inj _ EmptyString) in H5. by apply (pretty_nonempty v).
    - symmetry in H5. apply (string_bytes_inj _ EmptyString) in H5. by apply (pretty_nonempty w). }
  unfold normalTo. by rewrite H1, H2, H3, H4, HV, H6, H7, H8, H9, H10, H11.
Qed.

Lemma wireTxs_inj txs : forall txs', map wireTx txs = map wireTx txs' -> map normalTo txs = map normalTo txs'.
Proof.
  induction txs as [|x txs IH]; intros [|y txs'] H; try done. cbn [map] in *. apply (inj2 cons) in H as [H1 H2]. f_equal; [by apply wireTx_inj|by apply IH].
Qed.

Lemma encoded_nonempty txs b : serializeBatchTxDataRLPV2 txs = inr b -> 0 < len b.
Proof.
  unfold serializeBatchTxDataRLPV2, EncodeToBytes. cbn [encodeValue]. unfold encodeList. destruct (concatAll _) as [|content]; [done|]. intros [= <-].
  unfold encodeListHeader. destruct (_ <? 56); cbn [app]; rewrite len_cons; pose proof (len_nonneg content); unfold len; lia.
Qed.

(** The calldata published for a batch can be read back: its first byte is the
    version, the rest decodes to the fields of the transactions in their order, and
    two batches with the same calldata have the same transactions, an absent
    receiver being written like the zero address; as long as a batch has at most
    2500 transactions and 10 MB. *)
Theorem calldata_recoverable (json : list RollupTransaction -> list byte) (txs : list RollupTransaction)
    (HN : txs <> []) (HW : Forall tx_wide txs) (HL : len txs <= 2500)
    (HS : forall body, serializeBatchTxDataRLPV2 txs = inr body -> len body <= maxRLPSize) :
  exists body, serializeBatchTxData json txs = x02 :: body /\
    DecodeBytes wireTxs (zero_val wireTxs) body = inr (VList (map wireTx txs)) /\
    forall txs', serializeBatchTxDataRLPV2 txs' = inr body -> Forall tx_wide txs' -> len txs' <= 2500 -> map normalTo txs' = map normalTo txs.
Proof.
  assert (HR : forall l, Forall tx_wide l -> len l <= 2500 -> exists b, serializeBatchTxDataRLPV2 l = inr b /\
    (len b <= maxRLPSize -> DecodeBytes wireTxs (zero_val wireTxs) b = inr (VList (map wireTx l)))).
  { intros l HF Hl. destruct (value_roundtrip wireTxs (VList (map wireTx l))) as (b & E & HD).
    - apply wt_slice; [unfold len; rewrite length_map; unfold len in Hl; unfold maxSliceElements; lia|].
      apply Forall_map. eapply Forall_impl; [exact HF|]. apply wt_wireTx.
    - exists b. split; [exact E|]. intros Hb. apply HD; [done|rewrite calls_wireTxs; unfold maxBytesCalls; lia|].
      pose proof (depth_wireTxs l). unfold maxNestingDepth. lia. }
  destruct (HR txs HW HL) as (body & E & HD). exists body. split; [|split].
  - unfold serializeBatchTxData. destruct (Z.eqb_spec (len txs) 0) as [H0|_]; [destruct txs; [done|rewrite len_cons in H0; pose proof (len_nonneg txs); lia]|].
    rewrite E. by rewrite (proj2 (Z.ltb_lt _ _) (encoded_nonempty _ _ E)).
  - by apply HD, HS.
  - intros txs' E' HW' HL'. destruct (HR txs' HW' HL') as (body' & E2 & HD'). rewrite E' in E2. injection E2 as <-.
    specialize (HD (HS _ E)). specialize (HD' (HS _ E)). rewrite HD in HD'. injection HD' as HV. by apply wireTxs_inj.
Qed.

(** A transfer without a receiver and a withdrawal. *)
Definition published : list RollupTransaction :=
  [mkTx 0 1 21000 None (Some 12345) [x01; x02] (array_of_Z 20 5) (array_of_Z 32 6) [x09] 1670 [];
   mkTx 1 1 21000 (Some (array_of_Z 20 99)) (Some 0) [] (array_of_Z 20 5) (array_of_Z 32 7) [x0a] 1670 [x0b]].

Lemma calldata_recoverable_witness : exists body,
  serializeBatchTxData (fun _ => []) published = x02 :: body /\
  DecodeBytes wireTxs (zero_val wireTxs) body = inr (VList (map wireTx published)).
Proof.
  destruct (calldata_recoverable (fun _ => []) published) as (body & E & HD & _).
  - discriminate.
  - repeat constructor; cbn; lia.
  - vm_compute. discriminate.
  - intros body E. assert (H : (match serializeBatchTxDataRLPV2 published with inr b => len b <=? maxRLPSize | inl _ => true end) = true)
      by (vm_compute; reflexivity). rewrite E in H. by apply Z.leb_le.
  - exists body. split; [exact E|exact HD].
Defined.

(** Three validators and a seed that elects the first of them. *)
Module Election.
Definition elector : QPOSSequencerElector :=
  NewQPOSSequencerElector (mkProvider [array_of_Z 20 1; array_of_Z 20 2; array_of_Z 20 3] 7 (fun _ => array_of_Z 32 5)).
Definition turn (missed : Z) : Turn := mkTurn (Some elector) (array_of_Z 20 1) missed (zero_array 20) None (zero_array 32).
Definition hash (l : list byte) : Hash := array_of_Z 32 (3 * len l).
End Election.

Lemma single_builder_witness : array_of_Z 20 1 ∈ getValidators Election.elector.
Proof.
  destruct (single_builder Election.hash DefaultRollupConfig Election.elector 5 9 (Election.turn 0) (Election.turn 2)) as (_ & H & _).
  - reflexivity.
  - reflexivity.
  - apply (bool_decide_eq_false_1 _). vm_compute. reflexivity.
  - apply (bool_decide_eq_false_1 _). vm_compute. reflexivity.
  - vm_compute. reflexivity.
  - vm_compute. reflexivity.
  - vm_compute. reflexivity.
  - vm_compute. reflexivity.
  - exact H.
Defined.
