(* ===== verification/EngineTheorems.v ===== *)
(** * Theorems about the rollup engine

    What the node, its users and the holders of L2 balances may rely on, and where
    the engine does less than it means to. Hash functions are arguments; each
    theorem is applied to a small rollup whose hashes can be evaluated. *)

From Stdlib Require Import ZArith Lia.
From Stdlib.Strings Require Import Byte.
From stdpp Require Import base list countable gmap strings numbers relations.
From S2P Require Import Prelude Wp Stack StateDB Rollup Frame Machine ExecutorTheorems SparseMerkle MerkleSpec Bridge BridgeSpec RollupTheorems RollupConfig BatchManager StateManager FraudProof Sequencing Engine StateManagerSpec FraudProofSpec SolvencySpec EngineSpec LifecycleSpec.

Import SparseMerkle Bridge BridgeSpec BatchManager StateManager FraudProof Sequencing Engine StateManagerSpec FraudProofSpec SolvencySpec EngineSpec LifecycleSpec.

(** ** The state manager *)

Section manager.
Context (sha256 : list byte -> Hash).
Abbreviation rootOf := (computeStateRoot sha256).

(** C23: a batch of well-formed transactions is executed, by an executor that
    keeps its laws, as a whole or not at all, and executing it never panics. If it
    is executed, the root is that of the new accounts and is archived for the
    batch, a snapshot for fraud proofs is kept under the root, and the balances
    lost at least what the batch withdraws to L1; if it is refused, the accounts
    and the archived roots are as before. Either way no balance is negative and
    the history of snapshots keeps its bound. *)
Theorem process_batch_atomic (c : RollupConfig) (i : Z) (prev : Hash) (txs : list RollupTransaction) (s : StateManager)
    (Hs : manager_ok c s) (HF : Forall tx_ok txs) :
  match ProcessBatch sha256 i prev txs s with
  | (Ok (root, _), s') =>
      (sm_accountStates s = ∅ \/ rootOf (sm_accountStates s) = prev) /\
      root = rootOf (sm_accountStates s') /\ sm_stateRoots s' = <[i := root]> (sm_stateRoots s) /\
      is_Some (sm_stateHistory s' !! root) /\
      supply (view_of (sm_accountStates s')) + burnedBy c txs <= supply (view_of (sm_accountStates s)) /\ manager_ok c s'
  | (Err _, s') =>
      sm_accountStates s' = sm_accountStates s /\ sm_stateRoots s' = sm_stateRoots s /\ manager_ok c s'
  | _ => False
  end.
Proof.
  pose proof (wp_ProcessBatch_ok sha256 c i prev txs s Hs HF) as H. unfold wp in H.
  destruct (ProcessBatch sha256 i prev txs s) as [[[root gas]|err| |] s']; try done.
  - by destruct H as ([] & HM & [_ HL]).
  - by destruct H as ([] & HM).
Qed.

(** A minted deposit stops the rollup: the deposit changes the accounts, but
    not the root the batch manager hands to the next batch, so executing any batch
    on top of the last root fails, unless two of the strings hashed for the two roots have the same hash. *)
Theorem minted_deposit_stops_batches (s : StateManager) (a : Address) (v i : Z) (txs : list RollupTransaction) (m' : gmap Address RollupAccount)
    (Hok : map_Forall (fun _ => MerkleSpec.account_ok) (sm_accountStates s))
    (HM : MintBalance a (Some v) (sm_accountStates s) = (Ok tt, m')) :
  (ProcessBatch sha256 i (rootOf (sm_accountStates s)) txs (set_accounts m' s)).1 = Err ErrInvalidStateTransition \/
  MerkleSpec.collision sha256 (fun x => MerkleSpec.stateInputs sha256 (sm_accountStates s) x \/ MerkleSpec.stateInputs sha256 m' x).
Proof.
  destruct (MintBalance_cases a v (sm_accountStates s)) as [[Hv E]|[err E]]; rewrite HM in E; [injection E as ->|done].
  set (m' := addBalance a v (sm_accountStates s)). destruct (decide (rootOf (sm_accountStates s) = rootOf m')) as [HR|HR].
  - right. destruct (MerkleSpec.state_root_inj sha256 (sm_accountStates s) m') as [HC|]; [done| |done| |done].
    + apply map_Forall_insert_2; [|done]. destruct (sm_accountStates s !! a) as [x|] eqn:Ex; [|split; cbn; [done|lia]].
      destruct (Hok a x Ex) as [H1 H2]. split; cbn; [done|lia].
    + exfalso. apply (f_equal (base.lookup a)) in HC. rewrite !lookup_fmap in HC. unfold m', addBalance in HC. rewrite lookup_insert_eq in HC.
      destruct (sm_accountStates s !! a) as [x|]; [|done]. injection HC as HB. cbn in HB. lia.
  - left. unfold ProcessBatch. unfold mbind at 1, M_bind at 1, checkRoot. rewrite bind_gets. cbn [sm_accountStates set_accounts].
    fold m'. rewrite bool_decide_eq_false_2; [|intros HE; apply (f_equal (base.lookup a)) in HE; unfold m', addBalance in HE; by rewrite lookup_insert_eq in HE].
    unfold stateRoot, mbind, M_bind. cbn. by rewrite bool_decide_eq_false_2.
Qed.
End manager.

(** ** Negative values *)

Definition set_Value (v : Z) (tx : RollupTransaction) : RollupTransaction :=
  mkTx (tx_Nonce tx) (tx_GasPrice tx) (tx_GasLimit tx) (tx_To tx) (Some v) (tx_Data tx) (tx_From tx) (tx_Hash tx)
    (tx_Signature tx) (tx_ChainID tx) (tx_PublicKey tx).

(** Nothing stops a withdrawal of a negative value, and it mints: the sequencer
    accepts it with the signature of the positive one, since neither its checks nor
    the signed bytes look at the sign, and executing it adds the value to the
    balance of the sender, less the gas. *)
Theorem negative_withdrawal_mints (sha256 : list byte -> Hash) (sq : Sequencer) (c : RollupConfig) (executor : option QVMExecutor)
    (m : gmap Address RollupAccount) (acc : RollupAccount) (g g' v : Z) (tx : RollupTransaction)
    (Hb : cfg_BridgeAddress c <> zero_array 20) (Hto : tx_To tx = Some (cfg_BridgeAddress c))
    (Hacc : m !! tx_From tx = Some acc) (Hn : ra_Nonce acc = tx_Nonce tx)
    (HB : gasCostOf tx <= ra_Balance acc + v) (HG : Gas.SafeAddGas g (tx_GasLimit tx) = inr g') (HL : g' <= cfg_GasLimit c) :
  validateTransaction sha256 sq (set_Value (- v) tx) = validateTransaction sha256 sq (set_Value v tx) /\
  exists m', processTx (Some c) executor g (set_Value (- v) tx) m = (Ok g', m') /\
    supply (view_of m') = supply (view_of m) + v - gasCostOf tx.
Proof.
  split.
  - assert (EB : big_bytes (- v) = big_bytes v).
    { unfold big_bytes. rewrite Z.abs_opp. destruct (Z.eqb_spec v 0) as [->|]; [done|]. by destruct (Z.eqb_spec (- v) 0); [lia|]. }
    unfold validateTransaction, SigningHash, signingBytes. cbn. by rewrite EB.
  - exists (alter (spend (- v + gasCostOf tx)) (tx_From tx) m). split; [|rewrite (total_alter _ _ _ acc Hacc); cbn; lia].
    unfold processTx, getOrCreateAccount. unfold mbind at 1, M_bind at 1. rewrite bind_gets. cbn [id]. cbn [tx_From set_Value]. rewrite Hacc. cbn [mret M_ret].
    rewrite bind_guard. cbn [tx_Nonce set_Value]. rewrite Hn, Z.eqb_refl. cbn [negb].
    unfold isWithdrawalBurn. cbn [tx_To set_Value]. rewrite Hto, bool_decide_eq_false_2, bool_decide_eq_true_2 by done. cbn [negb andb].
    unfold burn. rewrite bind_guard. change (valueOf (set_Value (- v) tx)) with (- v). change (gasCostOf (set_Value (- v) tx)) with (gasCostOf tx).
    destruct (Z.ltb_spec (ra_Balance acc) (- v + gasCostOf tx)); [lia|]. unfold write. rewrite bind_modify. unfold addGas. cbn [tx_GasLimit set_Value].
    rewrite HG, bind_guard. destruct (Z.ltb_spec (cfg_GasLimit c) g'); [lia|done].
Qed.

(** ** Fraud proofs *)

Section fraud.
Context (sha256 sha3 : list byte -> Hash).
Abbreviation rootOf := (computeStateRoot sha256).

(** The transactions a proof has executed again. *)
Definition challenged (p : FraudProof) (b : Batch) : option (list RollupTransaction) :=
  match pf_Type p with
  | FraudProofTypeInvalidBatch => Some (bt_Transactions b)
  | FraudProofTypeStateTransition => pf_InvalidTx p ≫= fun t => (fun tx => [tx]) <$> findTx b t
  | _ => None
  end.

Lemma verifyType_eq bm p st :
  pf_Type p <> FraudProofTypeDoubleSpend -> (verifyType sha256 bm p st).1 = Ok tt ->
  verifyType sha256 bm p st = reexecute sha256 bm p (challenged p) st.
Proof.
  intros HT. unfold verifyType. destruct (pf_Type p) eqn:EP; [|unfold reexecute, challenged; by rewrite EP|done|done].
  destruct (pf_InvalidTx p) as [t|] eqn:ET; [|unfold verifyStateTransitionFraud; by rewrite ET].
  rewrite (stateTransition_eq sha256 bm p t st ET). unfold challenged, reexecute. by rewrite EP, ET.
Qed.

Lemma verifyType_intro bm p fp sm b txs r g sm' :
  accused bm fp p b -> challenged p b = Some txs -> SimulateBatch sha256 (pf_PreStateRoot p) txs sm = (Ok (r, g), sm') ->
  r <> bt_PostStateRoot b -> verifyType sha256 bm p (fp, sm) = (Ok tt, (fp, sm')).
Proof.
  intros HA HC HS Hr. pose proof HC as HC'. unfold verifyType, challenged in *. destruct (pf_Type p); try done.
  - destruct (pf_InvalidTx p) as [t|] eqn:ET; [|done]. rewrite (stateTransition_eq sha256 bm p t _ ET).
    by apply (reexecute_intro sha256 bm p _ fp sm b txs r g).
  - rewrite invalidBatch_eq. by apply (reexecute_intro sha256 bm p _ fp sm b txs r g).
Qed.

(** C27: when a proof by re-execution is accepted, the snapshot it starts from being
    kept: there is no proof for the batch
    yet, the proof is admissible and names the roots of the batch, and executing
    its transactions on the snapshot of the previous root succeeds and gives
    another root than the batch recorded. In particular a batch whose root is
    right is never challenged for the batch as a whole; but neither is a batch
    that cannot be executed. *)
Theorem fraud_proof_exact (bm : BatchManager) (p : FraudProof) (fp : FraudProver) (sm : StateManager) (S : gmap Address RollupAccount)
    (HT : pf_Type p <> FraudProofTypeDoubleSpend) (HS : sm_stateHistory sm !! pf_PreStateRoot p = Some S) :
  (storeFraudProof sha256 sha3 bm p (fp, sm)).1 = Ok tt <->
  HasFraudProof fp (pf_BatchIndex p) = false /\ admissible sha3 fp p = true /\
  exists b txs gas m, accused bm fp p b /\ challenged p b = Some txs /\
    execute sm txs S = (Ok gas, m) /\ rootOf m <> bt_PostStateRoot b.
Proof.
  unfold HasFraudProof. split.
  - destruct (storeFraudProof sha256 sha3 bm p (fp, sm)) as [r st'] eqn:E. cbn. intros ->.
    apply store_inv in E as (HN & HA & fp' & sm' & HV & _). split; [apply bool_decide_eq_false_2; rewrite HN; by intros []|]. split; [done|].
    rewrite verifyType_eq in HV by (by rewrite ?HV). apply reexecute_inv in HV as (b & txs & r & g & sm1 & H1 & H2 & H3 & H4 & _).
    destruct (SimulateBatch_history sha256 _ txs sm S HS) as [E1 _]. rewrite H3 in E1. cbn in E1.
    destruct (execute sm txs S) as [[gas| | |] m] eqn:EX; try done. injection E1 as -> ->. by exists b, txs, gas, m.
  - intros (HN%bool_decide_eq_false_1 & HA & b & txs & gas & m & H1 & H2 & H3 & H4).
    destruct (SimulateBatch_history sha256 _ txs sm S HS) as [E1 _]. rewrite H3 in E1.
    destruct (SimulateBatch sha256 _ txs sm) as [r sm'] eqn:ES. cbn in E1. subst r.
    rewrite (store_intro sha256 sha3 bm p fp sm fp sm'); [done|by apply eq_None_not_Some|done|]. by eapply verifyType_intro.
Qed.
End fraud.

(** ** The engine *)

Section engine.
Context (sha256 sha3 keccak256 : list byte -> Hash) (json : list RollupTransaction -> list byte).
Abbreviation rootOf := (computeStateRoot sha256).
Abbreviation step := (Engine.step sha256 sha3 keccak256 json).

Lemma advance_terminal s s' : rtc advance s s' -> s = BatchStatusFinalized \/ s = BatchStatusChallenged -> s' = s.
Proof. induction 1 as [|x y z H _ IH]; [done|]. intros [->| ->]; inversion H. Qed.

Lemma steps_evolve n : forall e e', indexed (e_batchManager e) -> bm_nextIndex (e_batchManager e) + Z.of_nat n < 2 ^ 64 ->
  nsteps step n e e' -> indexed (e_batchManager e') /\
  forall i b, batchesOf e !! i = Some b -> exists b', batchesOf e' !! i = Some b' /\ progressed b b'.
Proof.
  induction n as [|n IH]; intros e e' HI HN H.
  { inversion H; subst. split; [done|]. intros i b Hb. by exists b. }
  inversion H as [|? ? e1 ? HS HR]; subst. destruct (step_evolves _ _ _ _ e e1 HI ltac:(lia) HS) as [E1 E2 E3].
  destruct (IH e1 e' E1 ltac:(lia) HR) as [K1 K2]. split; [done|]. intros i b Hb. destruct (E3 i b Hb) as (b1 & Hb1 & P1).
  destruct (K2 i b1 Hb1) as (b2 & Hb2 & P2). exists b2. split; [done|]. by transitivity b1.
Qed.

(** C24: the life cycle of a batch: through any sequence of calls, fewer than 2^64,
    a batch keeps its index, its transactions, its previous root and its hash,
    and its state root from the moment it is submitted; it moves only from pending
    to submitted and from there to finalized or challenged, and stays there. *)
Theorem batch_life_cycle (n : nat) (e e' : RollupEngine) (i : Z) (b : Batch)
    (HI : indexed (e_batchManager e)) (HN : bm_nextIndex (e_batchManager e) + Z.of_nat n < 2 ^ 64)
    (HS : nsteps step n e e') (Hb : batchesOf e !! i = Some b) :
  indexed (e_batchManager e') /\
  exists b', batchesOf e' !! i = Some b' /\ progressed b b' /\
    (bt_Status b = BatchStatusFinalized \/ bt_Status b = BatchStatusChallenged -> bt_Status b' = bt_Status b).
Proof.
  destruct (steps_evolve n e e' HI HN HS) as [H1 H2]. split; [done|]. destruct (H2 i b Hb) as (b' & Hb' & HP). exists b'. split; [done|].
  split; [done|]. intros HT. by apply advance_terminal; [apply HP|].
Qed.

(** C25: a batch becomes final only in a finalization tick, and only if it was
    submitted, its anchor did not fail, there is no fraud proof against it and its
    challenge period is over, by the L1 height where it is anchored and by the
    clock where it is not. *)
Theorem finalized_only_when_due (call : Call) (e : RollupEngine) (i : Z) (b b' : Batch)
    (Hb : batchesOf e !! i = Some b) (Hb' : batchesOf (runCall sha256 sha3 keccak256 json call e) !! i = Some b')
    (HS : bt_Status b <> BatchStatusFinalized) (HS' : bt_Status b' = BatchStatusFinalized) :
  exists now, call = CallFinalize now /\ bt_Status b = BatchStatusSubmitted /\ bt_AnchorFailed b = false /\
    hasProof (proverOf e) i = false /\ periodOver (now / Second) (ev_height (tickEnv e)) (ev_blocks (tickEnv e)) b = true.
Proof.
  destruct (step_finalizes sha256 sha3 keccak256 json call e i b b' Hb Hb' HS HS') as (now & -> & HO). exists now. split; [done|].
  unfold outcome in HO. case_bool_decide as E; [|done]. destruct (bt_AnchorFailed b) eqn:EA; [done|]. cbn [negb andb] in HO.
  change (ev_prover (tickEnv e)) with (proverOf e) in HO. destruct (hasProof (proverOf e) i) eqn:EP; [done|].
  by destruct (periodOver (now / Second) (ev_height (tickEnv e)) (ev_blocks (tickEnv e)) b).
Qed.

(** C26: a finalization tick of a running engine, all of whose batches have values
    below 2^256, decides every submitted batch whose anchor did not fail: it is
    challenged if there is a fraud proof, else finalized if its challenge period is
    over; nothing else changes its status, and no batch keeps the others waiting. *)
Theorem tick_decides_every_batch (now : Z) (e : RollupEngine)
    (HR : e_status e = RollupStatusRunning) (HF : fits (batchesOf e)) (i : Z) (b : Batch) (Hb : batchesOf e !! i = Some b) :
  exists b', batchesOf (tryFinalizeBatches sha256 now e).2 !! i = Some b' /\ kept b b' /\
    bt_Status b' = outcome (tickEnv e) (now / Second) i b.
Proof. destruct (tick_decided sha256 now e) as [_ H]. by apply (each_lookup _ _ _ _ _ (H HR HF)). Qed.

Lemma challenge_run e p S b gas m txs :
  e_proverSet e = true -> batchesOf e !! pf_BatchIndex p = Some b -> bt_Status b = BatchStatusSubmitted ->
  fp_proofs (e_fraudProver e) !! pf_BatchIndex p = None -> admissible sha3 (e_fraudProver e) p = true ->
  accused (e_batchManager e) (e_fraudProver e) p b -> challenged p b = Some txs ->
  sm_stateHistory (e_stateManager e) !! pf_PreStateRoot p = Some S ->
  execute (e_stateManager e) txs S = (Ok gas, m) -> rootOf m <> bt_PostStateRoot b ->
  exists e', SubmitFraudProof sha256 sha3 p e = (Ok tt, e') /\ HasFraudProof (e_fraudProver e') (pf_BatchIndex p) = true /\
    e_batchManager e' = update (pf_BatchIndex p) (set_Status BatchStatusChallenged) (e_batchManager e).
Proof.
  intros HP Hb HS HN HA HC HX HH HE HR. destruct (SimulateBatch_history sha256 _ txs (e_stateManager e) S HH) as [E1 _]. rewrite HE in E1.
  destruct (SimulateBatch sha256 _ txs (e_stateManager e)) as [r sm'] eqn:ES. cbn in E1. subst r.
  pose proof (verifyType_intro sha256 _ p _ _ b txs _ _ _ HC HX ES HR) as HV.
  pose proof (store_intro sha256 sha3 _ p _ _ _ _ HN HA HV) as HW.
  unfold SubmitFraudProof. rewrite bind_gets. cbn [id]. unfold mbind at 1, M_bind at 1, onProver, zoom. rewrite HW. rewrite bind_gets. cbn [id fst snd].
  set (e1 := set_fp _ _). assert (HB1 : e_batchManager e1 = e_batchManager e) by done.
  assert (HP1 : hasProof (proverOf e1) (pf_BatchIndex p) = true).
  { unfold proverOf, e1. cbn. rewrite HP. cbn. unfold HasFraudProof. apply bool_decide_eq_true_2. cbn. rewrite lookup_insert_eq. by eexists. }
  unfold mbind, M_bind, attempt, onBatches, zoom.
  destruct (ChallengeBatch_cases (proverOf e1) (pf_BatchIndex p) (e_batchManager e1)) as [(b1 & _ & _ & _ & ->)|[err E]].
  - eexists. split; [done|]. split; [|done]. unfold proverOf, e1 in HP1. cbn in HP1. rewrite HP in HP1. exact HP1.
  - exfalso. unfold ChallengeBatch in E. rewrite bind_lookup, HB1, Hb, bind_guard, HS, bool_decide_eq_true_2 in E by done. cbn [negb] in E.
    rewrite bind_guard, HP1 in E. done.
Qed.

(** C2: fraud is punished: if executing a submitted batch on the snapshot of its
    previous root, which is still kept, succeeds and gives another root than it
    recorded, an admissible proof of this, the first for the batch, given to an
    engine whose batch manager has the prover, is accepted, the batch is
    challenged at once, and through any further calls, fewer than 2^64, it stays
    challenged and is never finalized. *)
Theorem fraud_is_punished (e : RollupEngine) (p : FraudProof) (S m : gmap Address RollupAccount) (b : Batch) (gas : Z)
    (HI : indexed (e_batchManager e)) (HP : e_proverSet e = true) (HT : pf_Type p = FraudProofTypeInvalidBatch)
    (HB : bt_Status b = BatchStatusSubmitted) (HC : accused (e_batchManager e) (e_fraudProver e) p b)
    (HN : HasFraudProof (e_fraudProver e) (pf_BatchIndex p) = false) (HA : admissible sha3 (e_fraudProver e) p = true)
    (HS : sm_stateHistory (e_stateManager e) !! bt_PrevStateRoot b = Some S)
    (HE : execute (e_stateManager e) (bt_Transactions b) S = (Ok gas, m)) (HR : rootOf m <> bt_PostStateRoot b) :
  exists e', SubmitFraudProof sha256 sha3 p e = (Ok tt, e') /\
    forall n e'', bm_nextIndex (e_batchManager e) + Z.of_nat n < 2 ^ 64 -> nsteps step n e' e'' ->
    exists b'', batchesOf e'' !! pf_BatchIndex p = Some b'' /\ bt_Status b'' = BatchStatusChallenged.
Proof.
  pose proof HC as (_ & Hb & Hpre & _). apply bool_decide_eq_false_1, eq_None_not_Some in HN.
  destruct (challenge_run e p S b gas m (bt_Transactions b)) as (e' & HR' & _ & HE'); try done.
  { unfold challenged. by rewrite HT. }
  { by rewrite Hpre. }
  exists e'. split; [done|]. intros n e'' Hn Hst.
  assert (Hb' : batchesOf e' !! pf_BatchIndex p = Some (set_Status BatchStatusChallenged b)).
  { rewrite HE'. cbn. by rewrite lookup_alter_eq, Hb. }
  assert (HI' : indexed (e_batchManager e')).
  { rewrite HE'. destruct HI as [H1 H2]. split; [done|]. cbn. intros i x. rewrite lookup_alter_Some. intros [(<- & y & Hy & ->)|[_ Hx]]; [exact (H2 _ y Hy)|by apply H2]. }
  destruct (steps_evolve n e' e'' HI' ltac:(rewrite HE'; exact Hn) Hst) as [_ HV]. destruct (HV _ _ Hb') as (b'' & Hb'' & HPr).
  exists b''. split; [done|]. apply (advance_terminal _ _ (pg_Status _ _ HPr)). by right.
Qed.

(** An honest batch can be framed: a proof about a single transaction compares
    the root after this transaction alone with the root after the whole batch, so
    that a correct batch is challenged as soon as one of its transactions, executed
    alone on the previous state, gives another root than all of them together. *)
Theorem honest_batch_framed (e : RollupEngine) (p : FraudProof) (S m m1 : gmap Address RollupAccount) (b : Batch) (gas gas1 : Z)
    (k : nat) (tx : RollupTransaction)
    (HP : e_proverSet e = true) (HT : pf_Type p = FraudProofTypeStateTransition)
    (Hp : pf_InvalidTx p = Some (InBatch (bt_Index b) k)) (Hk : bt_Transactions b !! k = Some tx)
    (HB : bt_Status b = BatchStatusSubmitted) (HC : accused (e_batchManager e) (e_fraudProver e) p b)
    (HN : HasFraudProof (e_fraudProver e) (pf_BatchIndex p) = false) (HA : admissible sha3 (e_fraudProver e) p = true)
    (HS : sm_stateHistory (e_stateManager e) !! bt_PrevStateRoot b = Some S)
    (HE : execute (e_stateManager e) (bt_Transactions b) S = (Ok gas, m)) (HR : rootOf m = bt_PostStateRoot b)
    (HE1 : execute (e_stateManager e) [tx] S = (Ok gas1, m1)) (HR1 : rootOf m1 <> rootOf m) :
  exists e', SubmitFraudProof sha256 sha3 p e = (Ok tt, e') /\
    bt_Status <$> batchesOf e' !! pf_BatchIndex p = Some BatchStatusChallenged.
Proof.
  pose proof HC as (_ & Hb & Hpre & _). apply bool_decide_eq_false_1, eq_None_not_Some in HN.
  destruct (challenge_run e p S b gas1 m1 [tx]) as (e' & HR' & _ & HE'); try done.
  { unfold challenged. rewrite HT, Hp. cbn. by rewrite Z.eqb_refl, Hk. }
  { by rewrite Hpre. }
  { by rewrite <- HR. }
  exists e'. split; [done|]. rewrite HE'. cbn. by rewrite lookup_alter_eq, Hb.
Qed.

(** The proof by re-execution is refused when the batch cannot be simulated. *)
Lemma unsimulated bm p fp sm err :
  pf_Type p <> FraudProofTypeDoubleSpend -> (forall txs, (SimulateBatch sha256 (pf_PreStateRoot p) txs sm).1 = Err err) ->
  (storeFraudProof sha256 sha3 bm p (fp, sm)).1 <> Ok tt.
Proof.
  intros HT HS. destruct (storeFraudProof sha256 sha3 bm p (fp, sm)) as [r st'] eqn:E. cbn. intros ->.
  apply store_inv in E as (_ & _ & fp' & sm' & HV & _). rewrite verifyType_eq in HV by (by rewrite ?HV).
  apply reexecute_inv in HV as (b & txs & r & g & sm1 & _ & _ & H3 & _). specialize (HS txs). by rewrite H3 in HS.
Qed.

Definition sameState (e e' : RollupEngine) : Prop := e_stateManager e' = e_stateManager e.

#[local] Instance sameState_preorder : PreOrder sameState.
Proof. split; [by intros e|]. intros x y z H1 H2. unfold sameState in *. congruence. Qed.

(** A restart disarms the challengers: the snapshots are not among what is
    restored, so that after a restart no proof by re-execution is accepted against
    a batch that was not built on the very last state. *)
Theorem restart_disarms_challengers (e : RollupEngine) (ps : Persisted) (m : gmap Address RollupAccount) (roots : gmap Z Hash) (p : FraudProof)
    (HF : sm_stateHistory (e_stateManager e) = ∅) (HP : ps_states ps = Some (m, roots)) (HM : m <> ∅)
    (HT : pf_Type p <> FraudProofTypeDoubleSpend) (HR : pf_PreStateRoot p <> rootOf m) :
  let e' := (RestoreState sha256 ps e).2 in
  (storeFraudProof sha256 sha3 (e_batchManager e') p (e_fraudProver e', e_stateManager e')).1 <> Ok tt.
Proof.
  assert (HE : e_stateManager (RestoreState sha256 ps e).2 = RestoreFromSnapshot sha256 m roots (e_stateManager e)).
  { unfold RestoreState. rewrite bind_modify, HP. match goal with |- e_stateManager (?k ?e1).2 = _ => assert (HS : sat sameState k) end.
    - repeat first [apply sat_guard, _|apply sat_modify; intros x; unfold sameState; by destruct (e_l1Anchor x)|apply sat_bind; [apply _| |intros _]].
    - exact (HS (set_sm (RestoreFromSnapshot sha256 m roots (e_stateManager e)) e)). }
  cbv zeta. rewrite HE. set (sm := RestoreFromSnapshot sha256 m roots (e_stateManager e)).
  assert (HH : sm_stateHistory sm = ∅) by exact HF. assert (HA : sm_accountStates sm = m) by reflexivity. clearbody sm.
  apply (unsimulated _ _ _ _ ErrInvalidStateTransition); [done|]. intros txs.
  unfold SimulateBatch. rewrite bind_gets. cbn [id]. rewrite HH, lookup_empty. unfold mbind at 1, M_bind at 1, checkRoot. rewrite bind_gets, HA.
  rewrite bool_decide_eq_false_2 by done. unfold stateRoot, mbind, M_bind. cbn. rewrite HA. by rewrite bool_decide_eq_false_2.
Qed.

(** ** Solvency *)

(** The engine as the node sets it up, before the first call. *)
Record initial (c : RollupConfig) (executor : option QVMExecutor) (e : RollupEngine) : Prop := {
  il_batches : e_batchManager e = NewBatchManager c (cfg_GenesisStateRoot c);
  il_states : e_stateManager e = SetExecutor executor (NewStateManager sha256 (Some c));
  il_bridge : e_bridge e = Some (NewL2Bridge NewMemoryL1Bridge ∅ ∅ (cfg_BridgeAddress c))
}.

Abbreviation run := (foldl (fun e call => runCall sha256 sha3 keccak256 json call e)).

Lemma view_ok_empty : states_ok ∅.
Proof. intros a. rewrite account_view_of. unfold acc_of. rewrite lookup_empty. split; simpl; unfold len; simpl; lia. Qed.

Lemma initial_inv c executor e :
  (forall call, executor = Some call -> ExecutorLaws call) -> initial c executor e -> inv c 0 0 e.
Proof.
  intros HX [H1 H2 H3]. split.
  - rewrite H2. pose proof (history_entries_range (Some c)) as HR. unfold minStateHistoryEntries in HR.
    split; [done|done| |apply view_ok_empty|intros r S; cbn; by rewrite lookup_empty].
    split; [by apply NoDup_nil_2| |change (0 < computeStateHistoryEntries (Some c)); lia|
      change (Z.of_nat (size (∅ : gmap Hash Accounts)) <= computeStateHistoryEntries (Some c)); rewrite map_size_empty; lia].
    intros r. cbn. rewrite lookup_empty. split; [by intros Hr%not_elem_of_nil|by intros []].
  - rewrite H1. split; [by apply Forall_nil_2|]. cbn. apply map_Forall_empty.
  - eexists. split; [done|]. split; [done|]. unfold bridgeView. rewrite H1, H2. cbn. split.
    + split; cbn; [by apply Forall_nil_2|apply map_Forall_empty|apply view_ok_empty].
    + unfold owed, slack, supplyOf, heapOf. cbn. rewrite !msum_empty. done.
Qed.

(** C28: the parts of the engine, set up with a bridge address and an executor that
    keeps its laws, stay well formed through any calls with well-formed
    transactions: the executor returns within its laws, no balance is
    negative, snapshots are within their bound, all transactions held are well
    formed, and the deposits and withdrawals on record are not negative. *)
Theorem engine_well_formed (c : RollupConfig) (executor : option QVMExecutor) (e : RollupEngine) (cs : list Call)
    (Hba : cfg_BridgeAddress c <> zero_array 20) (HX : forall call, executor = Some call -> ExecutorLaws call)
    (HI : initial c executor e) (HC : Forall call_ok cs) :
  manager_ok c (e_stateManager (run e cs)) /\ batches_ok (e_batchManager (run e cs)) /\
  exists b, e_bridge (run e cs) = Some b /\ bridge_ok (bridgeView (run e cs) b).
Proof.
  destruct (run_inv sha256 sha3 keccak256 json c cs 0 e Hba HC (initial_inv c executor e HX HI)) as [H1 H2 (b & H3 & _ & H4 & _)].
  split; [done|]. split; [done|]. by exists b.
Qed.

(** C1: the bridge is solvent up to what is claimed from L1 itself: after any calls
    with well-formed transactions, in one run of the process from its initial
    engine, what L1 holds together with what [ProcessWithdrawal] paid to callers
    other than the L2 bridge ([claims], zero where there are none) covers the L2
    balances, the withdrawals of the submitted batches, the withdrawals on record
    that are not paid, and the deposits not minted yet; so without such claims L1
    can pay the withdrawals of every batch that may be finalized. The contract
    executor keeps its laws and the bridge has an address. *)
Theorem bridge_solvent (c : RollupConfig) (executor : option QVMExecutor) (e : RollupEngine) (cs : list Call)
    (Hba : cfg_BridgeAddress c <> zero_array 20) (HX : forall call, executor = Some call -> ExecutorLaws call)
    (HI : initial c executor e) (HC : Forall call_ok cs) :
  exists b, e_bridge (run e cs) = Some b /\
    supply (view_of (sm_accountStates (e_stateManager (run e cs)))) + owed c (e_batchManager (run e cs)) +
      msum unpaid (b_withdrawals b) + (depositSum (heapOf b) - mintedSum (heapOf b)) <=
      l1_liquidity (b_l1Bridge b) + claims sha256 sha3 keccak256 json cs e /\
    forall i x, batchesOf (run e cs) !! i = Some x -> bt_Status x = BatchStatusSubmitted ->
      withdrawn (cfg_BridgeAddress c) (bt_Transactions x) <= l1_liquidity (b_l1Bridge b) + claims sha256 sha3 keccak256 json cs e.
Proof.
  destruct (run_inv sha256 sha3 keccak256 json c cs 0 e Hba HC (initial_inv c executor e HX HI)) as [H1 _ (b & H3 & _ & [K1 K2 K3] & H4)].
  exists b. split; [done|]. unfold slack, supplyOf, heapOf, bridgeView in *. cbn [b_l1Bridge b_withdrawals b_accountStates] in H4, K1, K2, K3. split; [lia|]. intros i x Hx HS.
  pose proof (msum_elem (owedBy c) i x _ ltac:(intros j y _; apply owedBy_nonneg) Hx) as HO. unfold owedBy at 1 in HO. rewrite HS in HO.
  pose proof (mintedSum_le _ K1). assert (0 <= msum unpaid (b_withdrawals b)).
  { apply msum_nonneg. eapply map_Forall_impl; [exact K2|]. intros h w Hw. unfold unpaid. by destruct (w_Processed w). }
  assert (0 <= supply (view_of (sm_accountStates (e_stateManager (run e cs))))) by (apply supply_nonneg, H1). unfold owed in H4. lia.
Qed.
End engine.

(** ** A small rollup *)

Module Small.

(** The first 32 bytes that are not zero. *)
Definition nonzero (b : byte) : bool := match b with x00 => false | _ => true end.

Lemma length_first (l : list byte) : length (take 32 (List.filter nonzero l ++ replicate 32 x00)) = 32%nat.
Proof. rewrite length_take, length_app, length_replicate. lia. Qed.

Definition hash (l : list byte) : Hash := mk_array _ (length_first l).

Definition addr (z : Z) : Address := array_of_Z 20 z.
Definition word (z : Z) : Hash := array_of_Z 32 z.
Definition json (txs : list RollupTransaction) : list byte := [].

(** The default configuration with a bridge. *)
Definition config : RollupConfig :=
  let d := DefaultRollupConfig in
  mkConfig (cfg_ChainID d) (cfg_MaxBatchSize d) (cfg_MaxBatchBytes d) (cfg_BlockTime d) (cfg_ChallengePeriod d)
    (cfg_MaxTxPerBatch d) (cfg_MinTxPerBatch d) (cfg_BatchSubmissionTimeout d) (cfg_L1ChainID d) (cfg_L1BridgeAddress d)
    (cfg_L1BridgeContractAddress d) (cfg_BatchInboxAddress d) (cfg_GenesisStateRoot d) (cfg_BaseFee d) (cfg_GasLimit d)
    (cfg_FinalizeCheckInterval d) (cfg_SequencerTimeout d) (addr 99).

Definition executor : option QVMExecutor := Some (machineCall Demo.hash Chain.executor).

Lemma executor_laws call : executor = Some call -> ExecutorLaws call.
Proof. intros [= <-]. apply machine_laws, Chain.executor_ok_chain. Qed.

Lemma bridge_set : cfg_BridgeAddress config <> zero_array 20.
Proof. apply (bool_decide_eq_false_1 _). vm_compute. reflexivity. Qed.

(** Two accounts. *)
Definition account (balance : Z) : RollupAccount := mkRollupAccount 0 balance (zero_array 32) ∅ [].
Definition accounts : gmap Address RollupAccount := <[addr 1 := account 1000]> {[addr 2 := account 50]}.

(** Transfers to new accounts, and a withdrawal. *)
Definition tx (from nonce to value : Z) : RollupTransaction :=
  mkTx nonce 0 21000 (Some (addr to)) (Some value) [] (addr from) (word 0) [] 1670 [].
Definition txs : list RollupTransaction := [tx 1 0 3 10; tx 2 0 4 20; tx 1 1 99 30].

Definition manager : StateManager := set_accounts accounts (SetExecutor executor (NewStateManager hash (Some config))).

Definition genesis : Hash := computeStateRoot hash accounts.

Lemma accounts_sound : states_ok accounts.
Proof.
  intros a. rewrite account_view_of. unfold acc_of, accounts.
  destruct (decide (addr 1 = a)) as [<-|]; [rewrite lookup_insert_eq|rewrite lookup_insert_ne by done;
    destruct (decide (addr 2 = a)) as [<-|]; [rewrite lookup_singleton_eq|rewrite lookup_singleton_ne by done]];
    split; simpl; unfold len; simpl; lia.
Qed.

Lemma manager_sound : manager_ok config manager.
Proof.
  split; [done|apply executor_laws| |apply accounts_sound|intros r S; cbn; by rewrite lookup_empty].
  split; [by apply NoDup_nil_2|intros r; cbn; rewrite lookup_empty; split; [by intros Hr%not_elem_of_nil|by intros []]|by vm_compute|].
  change (Z.of_nat (size (∅ : gmap Hash Accounts)) <= computeStateHistoryEntries (Some config)). rewrite map_size_empty.
  pose proof (history_entries_range (Some config)). unfold minStateHistoryEntries in *. lia.
Qed.

Lemma txs_sound : Forall tx_ok txs.
Proof. repeat constructor; cbn; unfold is_u64; lia. Qed.

(** A running engine with these transactions waiting, without an L1 anchor and
    with fraud proofs that need no signature scheme. *)
Definition engine : RollupEngine :=
  mkEngine config RollupStatusRunning (set_pending txs (NewBatchManager config genesis)) (NewSequencer config) manager
    (SetBatchLookup (SetRequireSignatureVerifier false NewFraudProver)) true None
    (Some (NewL2Bridge NewMemoryL1Bridge ∅ ∅ (addr 99))) 0 0 (mkTurn None (addr 7) 0 (addr 0) None (word 0)) 0 0.

(** The engine after it built and submitted a batch. *)
Definition submittedEngine : RollupEngine := (tryBuildAndSubmitBatch hash hash json (5 * Second) (fun _ => false) engine).2.

Definition noBatch : Batch := newBatch 0 (NewBatchManager config genesis).
Definition batch : Batch := default noBatch (batchesOf submittedEngine !! 0).
End Small.

(** They are evaluated by the virtual machine of the kernel only. *)
#[local] Strategy 100 [Small.submittedEngine Small.batch Small.genesis Small.manager].

#[local] Instance RollupTransaction_eq_dec : EqDecision RollupTransaction.
Proof. solve_decision. Defined.

(** A decidable equality, evaluated. *)
Ltac by_eval := apply (bool_decide_eq_true_1 _); vm_compute; reflexivity.

Lemma some_default {A} (d : A) (o : option A) : bool_decide (is_Some o) = true -> o = Some (default d o).
Proof. intros H%bool_decide_eq_true_1. by destruct o; [|destruct H]. Qed.

Lemma small_submitted : batchesOf Small.submittedEngine !! 0 = Some Small.batch /\ bt_Status Small.batch = BatchStatusSubmitted.
Proof. split; [apply some_default|]; vm_compute; reflexivity. Qed.

Lemma process_batch_atomic_witness :
  isOk (ProcessBatch Small.hash 0 Small.genesis Small.txs Small.manager).1 = true /\
  let s' := (ProcessBatch Small.hash 0 Small.genesis Small.txs Small.manager).2 in
  supply (view_of (sm_accountStates s')) + 30 <= 1050 /\ manager_ok Small.config s'.
Proof.
  pose proof (process_batch_atomic Small.hash Small.config 0 Small.genesis Small.txs Small.manager Small.manager_sound Small.txs_sound) as H.
  assert (HO : isOk (ProcessBatch Small.hash 0 Small.genesis Small.txs Small.manager).1 = true) by (vm_compute; reflexivity).
  assert (HB : burnedBy Small.config Small.txs = 30) by (vm_compute; reflexivity).
  assert (HT : supply (view_of (sm_accountStates Small.manager)) = 1050) by (vm_compute; reflexivity).
  rewrite HB, HT in H. split; [exact HO|]. destruct (ProcessBatch _ _ _ _ _) as [[[root gas]|err| |] s']; [|discriminate HO..].
  destruct H as (_ & _ & _ & _ & H1 & H2). split; [exact H1|exact H2].
Defined.

Lemma minted_deposit_stops_batches_witness :
  (ProcessBatch Small.hash 0 Small.genesis Small.txs (set_accounts (addBalance (Small.addr 1) 5 Small.accounts) Small.manager)).1 =
    Err ErrInvalidStateTransition \/
  MerkleSpec.collision Small.hash (fun x => MerkleSpec.stateInputs Small.hash Small.accounts x \/
    MerkleSpec.stateInputs Small.hash (addBalance (Small.addr 1) 5 Small.accounts) x).
Proof.
  apply (minted_deposit_stops_batches Small.hash Small.manager (Small.addr 1) 5 0 Small.txs (addBalance (Small.addr 1) 5 Small.accounts)).
  - apply map_Forall_insert_2; [by vm_compute|]. apply map_Forall_singleton. by vm_compute.
  - reflexivity.
Defined.

Lemma negative_withdrawal_mints_witness :
  exists m', processTx (Some Small.config) Small.executor 0 (set_Value (- 500) (Small.tx 1 0 99 0)) Small.accounts = (Ok 21000, m') /\
    supply (view_of m') = 1550.
Proof.
  destruct (negative_withdrawal_mints Small.hash (NewSequencer Small.config) Small.config Small.executor Small.accounts (Small.account 1000)
    0 21000 500 (Small.tx 1 0 99 0)) as (_ & m' & E & H).
  - exact Small.bridge_set.
  - reflexivity.
  - apply lookup_insert_eq.
  - reflexivity.
  - vm_compute. discriminate.
  - reflexivity.
  - vm_compute. discriminate.
  - exists m'. split; [exact E|]. rewrite H. vm_compute. reflexivity.
Defined.

Lemma submitted_fields post h now d b :
  bt_Index (submitted post h now d b) = bt_Index b /\ bt_PrevStateRoot (submitted post h now d b) = bt_PrevStateRoot b /\
  bt_Transactions (submitted post h now d b) = bt_Transactions b.
Proof. done. Qed.

Lemma set_bm_state bm e : e_stateManager (set_bm bm e) = e_stateManager e.
Proof. done. Qed.

Lemma update_lookup i f e b : batchesOf e !! i = Some b -> batchesOf (set_bm (update i f (e_batchManager e)) e) !! i = Some (f b).
Proof. intros H. cbn. by rewrite lookup_alter_eq, H. Qed.

(** ** Fraud in the small rollup *)

Module Fraud.
Import Small.

(** The batch recorded another root than executing it gives. *)
Definition lying : Batch := submitted (word 5) (word 6) 5 604805 batch.
Definition engine : RollupEngine :=
  set_bm (update 0 (submitted (word 5) (word 6) 5 604805) (e_batchManager submittedEngine)) submittedEngine.

Definition proof (t : FraudProofType) (post : Hash) (tx : option TxPointer) : FraudProof :=
  mkFraudProof t 0 (addr 8) genesis post tx [] 6 [x01] [].

Definition liar : FraudProof := proof FraudProofTypeInvalidBatch (word 5) None.
Definition framing : FraudProof := proof FraudProofTypeStateTransition (bt_PostStateRoot batch) (Some (InBatch 0 0)).

Definition snapshot : gmap Address RollupAccount := default ∅ (sm_stateHistory (e_stateManager submittedEngine) !! genesis).

(** The accounts after executing [l] on the snapshot. *)
Definition after (l : list RollupTransaction) : res Z * gmap Address RollupAccount := execute (e_stateManager submittedEngine) l snapshot.

Lemma snapshot_kept : sm_stateHistory (e_stateManager submittedEngine) !! genesis = Some snapshot.
Proof. apply some_default. vm_compute. reflexivity. Qed.

Lemma batch_fields : bt_PrevStateRoot batch = genesis /\ bt_Transactions batch = txs /\ bt_Index batch = 0.
Proof. split; [by_eval|]. split; by_eval. Qed.

Lemma lying_Index : bt_Index lying = 0.
Proof. exact (eq_trans (proj1 (submitted_fields _ _ _ _ batch)) (proj2 (proj2 batch_fields))). Qed.

Lemma lying_Prev : bt_PrevStateRoot lying = genesis.
Proof. exact (eq_trans (proj1 (proj2 (submitted_fields _ _ _ _ batch))) (proj1 batch_fields)). Qed.

Lemma lying_Txs : bt_Transactions lying = txs.
Proof. exact (eq_trans (proj2 (proj2 (submitted_fields _ _ _ _ batch))) (proj1 (proj2 batch_fields))). Qed.

Lemma engine_state : e_stateManager engine = e_stateManager submittedEngine.
Proof. exact (set_bm_state _ submittedEngine). Qed.

Lemma executed l g : (after l).1 = Ok g -> execute (e_stateManager submittedEngine) l snapshot = (Ok g, (after l).2).
Proof. exact (fst_Ok (after l) g). Qed.

Lemma engine_batch : batchesOf engine !! 0 = Some lying.
Proof. exact (update_lookup 0 (submitted (word 5) (word 6) 5 604805) submittedEngine batch (proj1 small_submitted)). Qed.

Lemma engine_indexed : indexed (e_batchManager engine).
Proof.
  assert (HD : dom (batchesOf engine) = {[0]}) by (vm_compute; reflexivity).
  assert (HN : bm_nextIndex (e_batchManager engine) = 1) by (vm_compute; reflexivity).
  split; [rewrite HN; lia|]. intros i b Hb. assert (Hi : i = 0).
  { apply elem_of_dom_2 in Hb. rewrite HD in Hb. by apply elem_of_singleton in Hb. }
  subst i. rewrite engine_batch in Hb. injection Hb as <-. rewrite HN. split; [|lia]. exact lying_Index.
Qed.
End Fraud.

Lemma fraud_proof_exact_witness :
  (storeFraudProof Small.hash Small.hash (e_batchManager Fraud.engine) Fraud.liar (e_fraudProver Fraud.engine, e_stateManager Fraud.engine)).1 = Ok tt.
Proof.
  apply (fraud_proof_exact Small.hash Small.hash (e_batchManager Fraud.engine) Fraud.liar (e_fraudProver Fraud.engine)
    (e_stateManager Fraud.engine) Fraud.snapshot).
  { discriminate. }
  { rewrite Fraud.engine_state. exact Fraud.snapshot_kept. }
  split; [vm_compute; reflexivity|]. split; [vm_compute; reflexivity|].
  exists Fraud.lying, Small.txs, 63000, (Fraud.after Small.txs).2. split; [|split; [|split]].
  - split; [vm_compute; reflexivity|]. split; [exact Fraud.engine_batch|]. split; by_eval.
  - exact (f_equal Some Fraud.lying_Txs).
  - rewrite Fraud.engine_state. apply Fraud.executed. vm_compute. reflexivity.
  - apply (bool_decide_eq_false_1 _). vm_compute. reflexivity.
Defined.

Lemma fraud_is_punished_witness :
  exists e', SubmitFraudProof Small.hash Small.hash Fraud.liar Fraud.engine = (Ok tt, e') /\
    forall e'', nsteps (Engine.step Small.hash Small.hash Small.hash Small.json) 1000 e' e'' ->
    exists b'', batchesOf e'' !! 0 = Some b'' /\ bt_Status b'' = BatchStatusChallenged.
Proof.
  destruct (fraud_is_punished Small.hash Small.hash Small.hash Small.json Fraud.engine Fraud.liar Fraud.snapshot (Fraud.after Small.txs).2
    Fraud.lying 63000) as (e' & E & H).
  - exact Fraud.engine_indexed.
  - vm_compute. reflexivity.
  - reflexivity.
  - reflexivity.
  - split; [vm_compute; reflexivity|]. split; [exact Fraud.engine_batch|]. split; by_eval.
  - vm_compute. reflexivity.
  - vm_compute. reflexivity.
  - rewrite Fraud.engine_state, Fraud.lying_Prev. exact Fraud.snapshot_kept.
  - rewrite Fraud.engine_state, Fraud.lying_Txs. apply Fraud.executed. vm_compute. reflexivity.
  - apply (bool_decide_eq_false_1 _). vm_compute. reflexivity.
  - exists e'. split; [exact E|]. intros e''. apply (H 1000%nat). vm_compute. reflexivity.
Defined.

Lemma honest_batch_framed_witness :
  exists e', SubmitFraudProof Small.hash Small.hash Fraud.framing Small.submittedEngine = (Ok tt, e') /\
    bt_Status <$> batchesOf e' !! 0 = Some BatchStatusChallenged.
Proof.
  apply (honest_batch_framed Small.hash Small.hash Small.submittedEngine Fraud.framing Fraud.snapshot (Fraud.after Small.txs).2
    (Fraud.after [Small.tx 1 0 3 10]).2 Small.batch 63000 21000 0 (Small.tx 1 0 3 10)).
  - vm_compute. reflexivity.
  - reflexivity.
  - rewrite (proj2 (proj2 Fraud.batch_fields)). reflexivity.
  - rewrite (proj1 (proj2 Fraud.batch_fields)). reflexivity.
  - exact (proj2 small_submitted).
  - split; [vm_compute; reflexivity|]. split; [exact (proj1 small_submitted)|]. split; by_eval.
  - vm_compute. reflexivity.
  - vm_compute. reflexivity.
  - rewrite (proj1 Fraud.batch_fields). exact Fraud.snapshot_kept.
  - rewrite (proj1 (proj2 Fraud.batch_fields)). apply Fraud.executed. vm_compute. reflexivity.
  - by_eval.
  - apply Fraud.executed. vm_compute. reflexivity.
  - apply (bool_decide_eq_false_1 _). vm_compute. reflexivity.
Defined.

Lemma batch_life_cycle_witness :
  let e' := runCall Small.hash Small.hash Small.hash Small.json (CallFraudProof Fraud.liar) Fraud.engine in
  exists b', batchesOf e' !! 0 = Some b' /\ progressed Fraud.lying b'.
Proof.
  cbv zeta. destruct (batch_life_cycle Small.hash Small.hash Small.hash Small.json 1 Fraud.engine
    (runCall Small.hash Small.hash Small.hash Small.json (CallFraudProof Fraud.liar) Fraud.engine) 0 Fraud.lying) as (_ & b' & Hb & HP & _).
  - exact Fraud.engine_indexed.
  - vm_compute. reflexivity.
  - apply nsteps_once. constructor.
  - exact Fraud.engine_batch.
  - exists b'. split; [exact Hb|exact HP].
Defined.

(** ** Finalizing in the small rollup *)

Module Final.
Import Small.

(** After the challenge period of seven days. *)
Definition late : Z := 700000 * Second.
Definition finalBatch : Batch := default noBatch (batchesOf (runCall hash hash hash json (CallFinalize late) submittedEngine) !! 0).

Lemma small_fits : fits (batchesOf submittedEngine).
Proof.
  assert (HD : dom (batchesOf submittedEngine) = {[0]}) by (vm_compute; reflexivity).
  intros i b Hb. assert (Hi : i = 0).
  { apply elem_of_dom_2 in Hb. rewrite HD in Hb. by apply elem_of_singleton in Hb. }
  subst i. rewrite (proj1 small_submitted) in Hb. apply (inj Some) in Hb as <-. rewrite (proj1 (proj2 Fraud.batch_fields)).
  repeat constructor; cbn; lia.
Qed.
End Final.

Lemma finalized_only_when_due_witness :
  bt_AnchorFailed Small.batch = false /\ hasProof (proverOf Small.submittedEngine) 0 = false.
Proof.
  destruct (finalized_only_when_due Small.hash Small.hash Small.hash Small.json (CallFinalize Final.late) Small.submittedEngine 0
    Small.batch Final.finalBatch) as (now & _ & _ & HA & HP & _).
  - exact (proj1 small_submitted).
  - apply some_default. vm_compute. reflexivity.
  - rewrite (proj2 small_submitted). discriminate.
  - vm_compute. reflexivity.
  - split; [exact HA|exact HP].
Defined.

Lemma tick_decides_every_batch_witness :
  exists b', batchesOf (tryFinalizeBatches Small.hash Final.late Small.submittedEngine).2 !! 0 = Some b' /\
    bt_Status b' = BatchStatusFinalized.
Proof.
  destruct (tick_decides_every_batch Small.hash Final.late Small.submittedEngine) with (i := 0) (b := Small.batch) as (b' & Hb & _ & HS).
  - vm_compute. reflexivity.
  - exact Final.small_fits.
  - exact (proj1 small_submitted).
  - exists b'. split; [exact Hb|]. rewrite HS. vm_compute. reflexivity.
Defined.

(** ** The small rollup from its start *)

Module Fresh.
Import Small.

(** The genesis root is that of the state once the first deposit is minted. *)
Definition config : RollupConfig :=
  let d := Small.config in
  mkConfig (cfg_ChainID d) (cfg_MaxBatchSize d) (cfg_MaxBatchBytes d) (cfg_BlockTime d) (cfg_ChallengePeriod d)
    (cfg_MaxTxPerBatch d) (cfg_MinTxPerBatch d) (cfg_BatchSubmissionTimeout d) (cfg_L1ChainID d) (cfg_L1BridgeAddress d)
    (cfg_L1BridgeContractAddress d) (cfg_BatchInboxAddress d) (computeStateRoot hash {[addr 1 := account 1000]})
    (cfg_BaseFee d) (cfg_GasLimit d) (cfg_FinalizeCheckInterval d) (cfg_SequencerTimeout d) (cfg_BridgeAddress d).

Definition engine : RollupEngine :=
  mkEngine config RollupStatusRunning (NewBatchManager config (cfg_GenesisStateRoot config)) (SetRequireTxSig false (NewSequencer config))
    (SetExecutor executor (NewStateManager hash (Some config))) NewFraudProver true None
    (Some (NewL2Bridge NewMemoryL1Bridge ∅ ∅ (cfg_BridgeAddress config))) 0 0 (mkTurn None (addr 7) 0 (addr 0) None (word 0)) 0 0.

(** A deposit is minted, a part of it withdrawn in a batch that is finalized, and
    the same withdrawal claimed once more on L1, with another batch hash. *)
Definition payCalls : list Call :=
  [CallDeposit 6 (addr 1) (Some 1000); CallMint None (computeDepositHash hash (addr 1) 1000 0);
   CallTransaction (tx 1 0 99 30); CallBuild (5 * Second) (fun _ => false); CallFinalize Final.late].

Definition paidEngine : RollupEngine := foldl (fun e call => runCall hash hash hash json call e) engine payCalls.
Definition proofs : list MerkleWithdrawalProof :=
  match e_bridge paidEngine with
  | Some b => omap (fun hw => w_Proof hw.2) (map_to_list (b_withdrawals b))
  | None => []
  end.

Definition calls : list Call := payCalls ++ [CallL1Withdraw (addr 1) (Some 30) 0 0 (word 5) (head proofs)].

Lemma calls_sound : Forall call_ok calls.
Proof. repeat constructor; cbn; unfold is_u64; lia. Qed.

Definition final : RollupEngine := foldl (fun e call => runCall hash hash hash json call e) engine calls.
End Fresh.

Lemma engine_well_formed_witness : manager_ok Fresh.config (e_stateManager Fresh.final) /\ batches_ok (e_batchManager Fresh.final).
Proof.
  destruct (engine_well_formed Small.hash Small.hash Small.hash Small.json Fresh.config Small.executor Fresh.engine Fresh.calls
    Small.bridge_set Small.executor_laws) as (H1 & H2 & _).
  - split; reflexivity.
  - exact Fresh.calls_sound.
  - split; [exact H1|exact H2].
Defined.

(** 1000 are deposited, 30 withdrawn and 30 claimed again: L1 holds 940 for an L2
    supply of 970. *)
Lemma bridge_solvent_witness :
  claims Small.hash Small.hash Small.hash Small.json Fresh.calls Fresh.engine = 30 /\
  liquidity Fresh.paidEngine = 970 /\ liquidity Fresh.final = 940 /\
  supply (view_of (sm_accountStates (e_stateManager Fresh.final))) = 970 /\
  exists b, e_bridge Fresh.final = Some b /\
    970 + owed Fresh.config (e_batchManager Fresh.final) + msum unpaid (b_withdrawals b) +
      (depositSum (heapOf b) - mintedSum (heapOf b)) <= l1_liquidity (b_l1Bridge b) + 30.
Proof.
  assert (HC : claims Small.hash Small.hash Small.hash Small.json Fresh.calls Fresh.engine = 30) by (vm_compute; reflexivity).
  assert (HS : supply (view_of (sm_accountStates (e_stateManager Fresh.final))) = 970) by (vm_compute; reflexivity).
  split; [exact HC|]. split; [vm_compute; reflexivity|]. split; [vm_compute; reflexivity|]. split; [exact HS|].
  destruct (bridge_solvent Small.hash Small.hash Small.hash Small.json Fresh.config Small.executor Fresh.engine Fresh.calls
    Small.bridge_set Small.executor_laws) as (b & Hb & HL & _).
  - split; reflexivity.
  - exact Fresh.calls_sound.
  - exists b. split; [exact Hb|]. rewrite <- HS, <- HC. exact HL.
Defined.

(** The small rollup after a restart, with a batch built on an older state. *)
Lemma restart_disarms_challengers_witness :
  let e' := (RestoreState Small.hash (mkPersisted (Some (Small.accounts, ∅)) [Fraud.lying] 1 (Small.word 5) [] ∅) Fresh.engine).2 in
  let p := mkFraudProof FraudProofTypeInvalidBatch 0 (Small.addr 8) (Small.word 4) (Small.word 5) None [] 6 [x01] [] in
  (storeFraudProof Small.hash Small.hash (e_batchManager e') p (e_fraudProver e', e_stateManager e')).1 <> Ok tt.
Proof.
  apply (restart_disarms_challengers Small.hash Small.hash Fresh.engine
    (mkPersisted (Some (Small.accounts, ∅)) [Fraud.lying] 1 (Small.word 5) [] ∅) Small.accounts ∅).
  - reflexivity.
  - reflexivity.
  - apply insert_non_empty.
  - discriminate.
  - apply (bool_decide_eq_false_1 _). vm_compute. reflexivity.
Defined.
