(* ===== verification/Gf16.v ===== *)
(** * Arithmetic in GF(2^16) (encoding/gf16.go)

    The field of the erasure code. The code multiplies through tables of
    exponentials and logarithms. The tables are built as in its init function, and
    the lemmas show that they compute products of polynomials over GF(2) modulo
    x^16 + x^12 + x^3 + x + 1: the class of x has order 2^16 - 1, since its powers
    to the order divided by 3, 5, 17 and 257 are not 1, so that its powers are all
    elements but zero. *)

From Stdlib Require Import ZArith Lia Btauto Field.
From stdpp Require Import base list gmap strings numbers.
From S2P Require Import Prelude.

Module Gf16.

(** [uint16(z)] *)
Definition u16 (z : Z) : Z := z mod 2 ^ 16.

Definition gf16Poly : Z := 0x1100B.
Definition gf16Order : Z := 65535.

(** The body of the first loop of [init]: the entry after [prev]. *)
Definition nextExp (prev : Z) : Z :=
  let prod := Z.shiftl prev 1 in
  u16 (if negb (Z.land prod (Z.shiftl 1 16) =? 0) then Z.lxor prod gf16Poly else prod).

(** The first loop: [n] entries from [prev] on. *)
Fixpoint expLoop (n : nat) (prev : Z) : list Z :=
  match n with
  | O => []
  | S n => prev :: expLoop n (nextExp prev)
  end.

(** The table after the first loop, and after it is doubled. *)
Definition expEntries : list Z := expLoop (Z.to_nat gf16Order) 1.
Definition gf16Exp : list Z := expEntries ++ expEntries.

(** The last loop: [gf16Log[gf16Exp[i]] = i], from [i] on. *)
Fixpoint logLoop (i : Z) (entries : list Z) (table : gmap Z Z) : gmap Z Z :=
  match entries with
  | [] => table
  | e :: entries => logLoop (i + 1) entries (<[e := u16 i]> table)
  end.
Definition gf16Log : gmap Z Z := logLoop 0 expEntries ∅.

(** [gf16Exp[i]] and [gf16Log[a]] *)
Definition expAt (i : Z) : Z := default 0 (gf16Exp !! Z.to_nat i).
Definition logAt (a : Z) : Z := default 0 (gf16Log !! a).

Definition gf16Mul (a b : Z) : Z :=
  if (a =? 0) || (b =? 0) then 0 else expAt (logAt a + logAt b).

Definition ErrGF16DivisionByZero : error := ErrErrorf "division by zero in GF(2^16)".
Definition ErrGF16InverseOfZero : error := ErrErrorf "inverse of zero in GF(2^16)".

(** [gf16Div]: the value and the error, both of which callers look at. *)
Definition gf16Div (a b : Z) : Z * option error :=
  if a =? 0 then (0, None) else
  if b =? 0 then (0, Some ErrGF16DivisionByZero) else
  let logDiff := logAt a - logAt b in
  let logDiff := if logDiff <? 0 then logDiff + gf16Order else logDiff in
  (expAt logDiff, None).

Definition gf16Inv (a : Z) : Z * option error :=
  if a =? 0 then (0, Some ErrGF16InverseOfZero) else (expAt (gf16Order - logAt a), None).

(** The product of the logarithm and the exponent wraps like Go's [int]. *)
Definition gf16Pow (base exp : Z) : Z :=
  if exp =? 0 then 1 else
  if base =? 0 then 0 else
  let logResult := Z.rem (i64 (logAt base * exp)) gf16Order in
  expAt (if logResult <? 0 then logResult + gf16Order else logResult).

(** ** The reference: polynomials over GF(2), by their bits *)

Definition elem (a : Z) : Prop := 0 <= a < 2 ^ 16.

(** Multiplication by x. *)
Definition xtime (a : Z) : Z :=
  if Z.testbit a 15 then Z.lxor (Z.shiftl a 1) gf16Poly else Z.shiftl a 1.

Definition xpow (n : nat) (a : Z) : Z := Nat.iter n xtime a.

(** The product: the sum of the [x^i * b] for the bits [i] of [a], [i < n]. *)
Fixpoint pmulBits (n : nat) (a b : Z) : Z :=
  match n with
  | O => 0
  | S n => Z.lxor (pmulBits n a b) (if Z.testbit a (Z.of_nat n) then xpow n b else 0)
  end.
Definition pmul (a b : Z) : Z := pmulBits 16 a b.

Lemma elem_testbit a : elem a <-> 0 <= a /\ forall i, 16 <= i -> Z.testbit a i = false.
Proof.
  split.
  - intros [H0 H]. split; [done|]. intros i Hi. rewrite Z.testbit_eqb by lia.
    rewrite Z.div_small; [done|]. split; [done|].
    eapply Z.lt_le_trans; [exact H|]. apply Z.pow_le_mono_r; lia.
  - intros [H0 H]. split; [done|]. destruct (Z.lt_ge_cases a (2 ^ 16)) as [?|Hge]; [done|].
    exfalso. assert (0 < a) by lia.
    assert (16 <= Z.log2 a) by (apply Z.log2_le_pow2; lia).
    pose proof (Z.bit_log2 a ltac:(lia)) as HB. by rewrite H in HB by lia.
Qed.

Lemma elem_lxor a b : elem a -> elem b -> elem (Z.lxor a b).
Proof.
  rewrite !elem_testbit. intros [Ha HA] [Hb HB]. split; [by apply Z.lxor_nonneg|].
  intros i Hi. by rewrite Z.lxor_spec, HA, HB.
Qed.

Lemma elem_0 : elem 0.
Proof. done. Qed.

Lemma elem_1 : elem 1.
Proof. done. Qed.

Lemma xtime_elem a : elem a -> elem (xtime a).
Proof.
  intros Ha. apply elem_testbit in Ha as [H0 H]. apply elem_testbit. unfold xtime.
  destruct (Z.testbit a 15) eqn:E.
  - split; [apply Z.lxor_nonneg; split; [done|]; intros _; apply Z.shiftl_nonneg; lia|].
    intros i Hi. rewrite Z.lxor_spec, Z.shiftl_spec by lia.
    destruct (decide (i = 16)) as [->|]; [by change (16 - 1) with 15; rewrite E|]. rewrite H by lia.
    rewrite Z.bits_above_log2; [done|done|]. change (Z.log2 gf16Poly) with 16. lia.
  - split; [by apply Z.shiftl_nonneg|]. intros i Hi. rewrite Z.shiftl_spec by lia.
    destruct (decide (i = 16)) as [->|]; [done|]. apply H. lia.
Qed.

Lemma nextExp_xtime a : elem a -> nextExp a = xtime a.
Proof.
  intros Ha. pose proof (xtime_elem a Ha) as Hx. unfold nextExp, u16.
  assert ((Z.land (Z.shiftl a 1) (Z.shiftl 1 16) =? 0) = negb (Z.testbit a 15)) as ->.
  { rewrite Z.shiftl_1_l. destruct (Z.testbit a 15) eqn:E; simpl.
    - apply Z.eqb_neq. intros HZ. apply (f_equal (fun z => Z.testbit z 16)) in HZ.
      rewrite Z.land_spec, Z.shiftl_spec, Z.pow2_bits_true in HZ by lia. change (16 - 1) with 15 in HZ. by rewrite E in HZ.
    - apply Z.eqb_eq. apply Z.bits_inj'. intros i Hi. rewrite Z.land_spec, Z.bits_0, Z.shiftl_spec by lia.
      destruct (decide (i = 16)) as [->|]; [by change (16 - 1) with 15; rewrite E|].
      rewrite Z.pow2_bits_false by lia. apply andb_false_r. }
  unfold xtime in *. rewrite negb_involutive.
  destruct (Z.testbit a 15); apply Z.mod_small, Hx.
Qed.

Lemma xtime_lxor a b : xtime (Z.lxor a b) = Z.lxor (xtime a) (xtime b).
Proof.
  unfold xtime. rewrite Z.lxor_spec, Z.shiftl_lxor.
  destruct (Z.testbit a 15), (Z.testbit b 15); simpl; Z.bitwise; btauto.
Qed.

Lemma xtime_0 : xtime 0 = 0.
Proof. done. Qed.

Lemma xtime_inj a b : xtime a = xtime b -> a = b.
Proof.
  intros H. apply Z.lxor_eq. assert (HX : xtime (Z.lxor a b) = 0) by (rewrite xtime_lxor, H; apply Z.lxor_nilpotent).
  revert HX. generalize (Z.lxor a b). intros c. unfold xtime. destruct (Z.testbit c 15); intros HX.
  - apply (f_equal (fun z => Z.testbit z 0)) in HX. rewrite Z.lxor_spec, Z.shiftl_spec in HX by lia.
    by rewrite (Z.testbit_neg_r c) in HX by lia.
  - rewrite Z.shiftl_mul_pow2 in HX by lia. lia.
Qed.

(** *** Powers of x *)

Lemma xpow_S n a : xpow (S n) a = xtime (xpow n a).
Proof. done. Qed.

Lemma xpow_add n m a : xpow (n + m) a = xpow n (xpow m a).
Proof. induction n as [|n IH]; [done|]. cbn [Nat.add]. by rewrite !xpow_S, IH. Qed.

Lemma xpow_xtime n a : xpow n (xtime a) = xtime (xpow n a).
Proof. change (xtime a) with (xpow 1 a). by rewrite <- xpow_add, Nat.add_comm. Qed.

Lemma xpow_lxor n a b : xpow n (Z.lxor a b) = Z.lxor (xpow n a) (xpow n b).
Proof. induction n as [|n IH]; [done|]. by rewrite !xpow_S, IH, xtime_lxor. Qed.

Lemma xpow_0 n : xpow n 0 = 0.
Proof. induction n as [|n IH]; [done|]. by rewrite xpow_S, IH. Qed.

Lemma xpow_elem n a : elem a -> elem (xpow n a).
Proof. intros Ha. induction n as [|n IH]; [done|]. by apply xtime_elem. Qed.

Lemma xpow_inj n a b : xpow n a = xpow n b -> a = b.
Proof. induction n as [|n IH]; [done|]. rewrite !xpow_S. intros H%xtime_inj. auto. Qed.

(** *** Products *)

Lemma pmulBits_lxor_r n a b c : pmulBits n a (Z.lxor b c) = Z.lxor (pmulBits n a b) (pmulBits n a c).
Proof.
  induction n as [|n IH]; [done|]. cbn [pmulBits]. rewrite IH. destruct (Z.testbit a (Z.of_nat n)).
  - rewrite xpow_lxor. Z.bitwise; btauto.
  - by rewrite !Z.lxor_0_r.
Qed.

Lemma pmulBits_lxor_l n a b c : pmulBits n (Z.lxor a b) c = Z.lxor (pmulBits n a c) (pmulBits n b c).
Proof.
  induction n as [|n IH]; [done|]. cbn [pmulBits]. rewrite IH, Z.lxor_spec.
  destruct (Z.testbit a (Z.of_nat n)), (Z.testbit b (Z.of_nat n)); cbn [xorb]; Z.bitwise; btauto.
Qed.

Lemma pmulBits_xtime_r n a b : pmulBits n a (xtime b) = xtime (pmulBits n a b).
Proof.
  induction n as [|n IH]; [done|]. cbn [pmulBits]. rewrite IH, xtime_lxor.
  destruct (Z.testbit a (Z.of_nat n)); [by rewrite xpow_xtime|done].
Qed.

Lemma pmulBits_elem n a b : elem b -> elem (pmulBits n a b).
Proof.
  intros Hb. induction n as [|n IH]; [apply elem_0|]. apply elem_lxor; [done|].
  destruct (Z.testbit a _); [by apply xpow_elem|apply elem_0].
Qed.

Lemma xpow_bit n : (n < 16)%nat -> xpow n 1 = 2 ^ Z.of_nat n.
Proof. intros H. do 16 (destruct n as [|n]; [done|]). lia. Qed.

Lemma pmulBits_1_r n a : (n <= 16)%nat -> 0 <= a -> pmulBits n a 1 = a mod 2 ^ Z.of_nat n.
Proof.
  intros Hn Ha. induction n as [|n IH]; [by rewrite Z.mod_1_r|]. cbn [pmulBits]. rewrite IH, xpow_bit by lia.
  apply Z.bits_inj'. intros i Hi. rewrite Z.lxor_spec.
  destruct (decide (i < Z.of_nat n)) as [L|L]; [|destruct (decide (i = Z.of_nat n)) as [->|L']].
  - rewrite !Z.mod_pow2_bits_low by lia. destruct (Z.testbit a (Z.of_nat n)); [|by rewrite Z.bits_0, xorb_false_r].
    rewrite Z.pow2_bits_false by lia. apply xorb_false_r.
  - rewrite Z.mod_pow2_bits_high, Z.mod_pow2_bits_low by lia.
    destruct (Z.testbit a (Z.of_nat n)); [by rewrite Z.pow2_bits_true by lia|by rewrite Z.bits_0].
  - rewrite !Z.mod_pow2_bits_high by lia. destruct (Z.testbit a (Z.of_nat n)); [|by rewrite Z.bits_0].
    by rewrite Z.pow2_bits_false by lia.
Qed.

Lemma pmul_elem a b : elem b -> elem (pmul a b).
Proof. apply pmulBits_elem. Qed.

Lemma pmul_1_r a : elem a -> pmul a 1 = a.
Proof. intros [? ?]. unfold pmul. rewrite pmulBits_1_r by lia. by apply Z.mod_small. Qed.

(** Additive maps that commute with multiplication by x are determined by the
    image of 1. *)
Record linear (f : Z -> Z) : Prop := {
  linear_lxor a b : f (Z.lxor a b) = Z.lxor (f a) (f b);
  linear_xtime a : f (xtime a) = xtime (f a);
}.

Lemma linear_0 f : linear f -> f 0 = 0.
Proof. intros [HL _]. by rewrite <- (Z.lxor_nilpotent 0), HL, Z.lxor_nilpotent. Qed.

Lemma linear_xpow f n a : linear f -> f (xpow n a) = xpow n (f a).
Proof. intros HF. induction n as [|n IH]; [done|]. by rewrite !xpow_S, (linear_xtime f), IH. Qed.

Lemma linear_bits f n a b : linear f -> f (pmulBits n a b) = pmulBits n a (f b).
Proof.
  intros HF. induction n as [|n IH]; [by apply linear_0|]. cbn [pmulBits]. rewrite (linear_lxor f), IH by done.
  f_equal. destruct (Z.testbit a _); [by apply linear_xpow|by apply linear_0].
Qed.

Lemma linear_eq f g b : linear f -> linear g -> f 1 = g 1 -> elem b -> f b = g b.
Proof.
  intros HF HG H1 Hb. rewrite <- (pmul_1_r b Hb). unfold pmul. by rewrite !linear_bits, H1.
Qed.

Lemma linear_pmul a : linear (pmul a).
Proof. split; intros; [apply pmulBits_lxor_r|apply pmulBits_xtime_r]. Qed.

Lemma pmul_bits a b : pmul a b = pmulBits 16 a b.
Proof. done. Qed.

#[global] Opaque pmul.

Lemma linear_comp f g : linear f -> linear g -> linear (fun b => f (g b)).
Proof. intros HF HG. split; intros; by rewrite ?(linear_lxor g), ?(linear_xtime g), ?(linear_lxor f), ?(linear_xtime f). Qed.

Lemma linear_xpow_n n : linear (xpow n).
Proof. split; intros; [apply xpow_lxor|apply xpow_xtime]. Qed.

Lemma pmul_xtime_l a b : elem a -> elem b -> pmul (xtime a) b = xtime (pmul a b).
Proof.
  intros Ha Hb. apply (linear_eq (pmul (xtime a)) (fun b => xtime (pmul a b)));
    [apply linear_pmul|apply linear_comp; [|apply linear_pmul]; split; [apply xtime_lxor|done]| |done].
  rewrite !pmul_1_r; [done|done|by apply xtime_elem].
Qed.

Lemma pmul_comm a b : elem a -> elem b -> pmul a b = pmul b a.
Proof.
  intros Ha Hb. rewrite <- (pmul_1_r b Hb) at 1. rewrite (pmul_bits b 1), (linear_bits (pmul a)) by apply linear_pmul.
  rewrite (pmul_1_r a Ha). symmetry. apply pmul_bits.
Qed.

Lemma pmul_assoc a b c : elem a -> elem b -> elem c -> pmul a (pmul b c) = pmul (pmul a b) c.
Proof.
  intros Ha Hb Hc. apply (linear_eq (fun c => pmul a (pmul b c)) (pmul (pmul a b)));
    [apply linear_comp; apply linear_pmul|apply linear_pmul| |done].
  rewrite !pmul_1_r; [done|by apply pmul_elem|done].
Qed.

Lemma xpow_pmul n b : elem b -> xpow n b = pmul (xpow n 1) b.
Proof.
  intros Hb. apply (linear_eq (xpow n) (pmul (xpow n 1))); [apply linear_xpow_n|apply linear_pmul| |done].
  rewrite pmul_1_r; [done|apply xpow_elem, elem_1].
Qed.

(** *** The order of x *)

(** Powers of x by squaring. *)
Fixpoint ppow (p : positive) : Z :=
  match p with
  | xH => 2
  | xO p => pmul (ppow p) (ppow p)
  | xI p => xtime (pmul (ppow p) (ppow p))
  end.

Lemma ppow_xpow p : ppow p = xpow (Pos.to_nat p) 1.
Proof.
  induction p as [p IH|p IH|]; cbn [ppow]; [| |done].
  - rewrite IH, Pos2Nat.inj_xI, xpow_S, Nat.mul_succ_l, Nat.mul_1_l, xpow_add.
    f_equal. symmetry. apply xpow_pmul, xpow_elem, elem_1.
  - rewrite IH, Pos2Nat.inj_xO, Nat.mul_succ_l, Nat.mul_1_l, xpow_add.
    symmetry. apply xpow_pmul, xpow_elem, elem_1.
Qed.

Definition period (n : nat) : Prop := xpow n 1 = 1.

Lemma period_add n m : period n -> period (n + m) <-> period m.
Proof. unfold period. intros H. rewrite Nat.add_comm, xpow_add, H. done. Qed.

Lemma period_mul n k : period n -> period (k * n).
Proof. intros H. induction k as [|k IH]; [done|]. by apply period_add. Qed.

Lemma period_gcd n m : period n -> period m -> period (Nat.gcd n m).
Proof.
  revert m. induction (lt_wf n) as [n _ IH]. intros m Hn Hm. destruct n as [|n]; [done|].
  change (Nat.gcd (S n) m) with (Nat.gcd (m mod S n) (S n)).
  pose proof (Nat.mod_upper_bound m (S n) ltac:(lia)). apply IH; [lia| |done].
  rewrite (Nat.div_mod_eq m (S n)), Nat.mul_comm in Hm. by apply period_add in Hm; [|apply period_mul].
Qed.

Abbreviation order := (Z.to_nat gf16Order).

Lemma period_order : period order.
Proof.
  unfold period. change order with (Pos.to_nat 65535). rewrite <- ppow_xpow. by vm_compute.
Qed.

(** A number below [p] that divides [p] is 1, for the prime factors of the order. *)
Definition primeb (p : Z) : bool := forallb (fun d => negb (p mod d =? 0)) (seqZ 2 (p - 2)).

Lemma primeb_gcd p q : 2 <= p -> primeb p = true -> ~ (p | q) -> Z.gcd p q = 1.
Proof.
  intros Hp HB HN. pose proof (Z.gcd_nonneg p q). pose proof (Z.gcd_divide_l p q) as HL.
  assert (Z.gcd p q <> 0) by (intros E; apply Z.gcd_eq_0_l in E; lia).
  destruct (decide (Z.gcd p q = p)) as [E|NE]; [destruct HN; rewrite <- E; apply Z.gcd_divide_r|].
  pose proof (Z.divide_pos_le (Z.gcd p q) p ltac:(lia) HL). destruct (decide (Z.gcd p q = 1)) as [?|N1]; [done|exfalso].
  unfold primeb in HB. rewrite forallb_forall in HB. specialize (HB (Z.gcd p q)).
  rewrite <- list_elem_of_In, elem_of_seqZ in HB. specialize (HB ltac:(lia)).
  apply Z.mod_divide in HL; [|lia]. by rewrite HL in HB.
Qed.

Lemma proper_divisor g : 0 < g -> (g | gf16Order) -> g <> gf16Order ->
  exists p, p ∈ [3; 5; 17; 257] /\ 0 < p /\ (g | gf16Order / p).
Proof.
  intros Hg [q Hq] HN. unfold gf16Order in *.
  assert (HP : forall p, p ∈ [3; 5; 17; 257] -> 2 <= p /\ primeb p = true).
  { intros p Hp. repeat (apply elem_of_cons in Hp as [->|Hp]; [done|]). by apply elem_of_nil in Hp. }
  destruct (decide (Exists (fun p => q mod p = 0) [3; 5; 17; 257])) as [(p & Hp%list_elem_of_In & HX)%Exists_exists|HX].
  { exists p. destruct (HP p Hp) as [H2 _]. do 2 (split; [done || lia|]). apply Z.mod_divide in HX as [r Hr]; [|lia].
    exists r. assert (65535 = r * g * p) as -> by lia. apply Z.div_mul. lia. }
  exfalso. rewrite <- Forall_Exists_neg, Forall_forall in HX.
  assert (HR : forall p, p ∈ [3; 5; 17; 257] -> Z.gcd q p = 1).
  { intros p Hp. destruct (HP p Hp) as [H2 HB]. rewrite Z.gcd_comm. apply primeb_gcd; [done..|].
    rewrite <- Z.mod_divide by lia. by apply HX, list_elem_of_In. }
  assert (HQ : (q | 3 * (5 * (17 * (257 * 1))))) by (exists g; lia).
  do 4 (apply Z.gauss in HQ; [|apply HR; set_solver]).
  apply Z.divide_1_r_nonneg in HQ; lia.
Qed.

Lemma order_least d : (0 < d < order)%nat -> ~ period d.
Proof.
  intros Hd HP. pose proof (period_gcd _ _ HP period_order) as HG. set (g := Nat.gcd d order) in *.
  assert (g <= d)%nat by (apply Nat.divide_pos_le; [lia|apply Nat.gcd_divide_l]).
  assert (g <> 0)%nat by (intros E; apply Nat.gcd_eq_0_l in E; lia).
  destruct (Nat.gcd_divide_r d order) as [k Hk]. fold g in Hk.
  destruct (proper_divisor (Z.of_nat g)) as (p & Hp & Hp0 & [r Hr]); [lia|exists (Z.of_nat k); unfold gf16Order in *; lia|
    unfold gf16Order in *; lia|].
  assert (HPP : period (Z.to_nat (gf16Order / p))).
  { assert (0 <= r) by (pose proof (Z.div_pos gf16Order p ltac:(done) Hp0); nia).
    rewrite Hr, Z2Nat.inj_mul, Nat2Z.id by lia. by apply period_mul. }
  unfold period in HPP. revert HPP.
  repeat (apply elem_of_cons in Hp as [->|Hp]); [..|by apply elem_of_nil in Hp].
  - change (Z.to_nat _) with (Pos.to_nat 21845). rewrite <- ppow_xpow. by vm_compute.
  - change (Z.to_nat _) with (Pos.to_nat 13107). rewrite <- ppow_xpow. by vm_compute.
  - change (Z.to_nat _) with (Pos.to_nat 3855). rewrite <- ppow_xpow. by vm_compute.
  - change (Z.to_nat _) with (Pos.to_nat 255). rewrite <- ppow_xpow. by vm_compute.
Qed.

Lemma xpow_1_inj i j : (i < order)%nat -> (j < order)%nat -> xpow i 1 = xpow j 1 -> i = j.
Proof.
  assert (HL : forall i j, (i < j < order)%nat -> xpow i 1 <> xpow j 1).
  { intros x y Hxy E. replace y with (x + (y - x))%nat in E by lia. rewrite xpow_add in E. apply xpow_inj in E.
    apply (order_least (y - x)); [lia|done]. }
  intros Hi Hj E. destruct (lt_eq_lt_dec i j) as [[?|?]|?]; [|done|].
  - destruct (HL i j); [lia|done].
  - destruct (HL j i); [lia|done].
Qed.

#[global] Opaque xpow xtime.

(** *** The tables *)

Lemma xpow_1_nonzero i : xpow i 1 <> 0.
Proof. rewrite <- (xpow_0 i). by intros H%xpow_inj. Qed.

Lemma expLoop_lookup n prev i : elem prev -> expLoop n prev !! i = if decide (i < n)%nat then Some (xpow i prev) else None.
Proof.
  revert prev i. induction n as [|n IH]; intros prev i Hp; [done|]. destruct i as [|i]; [done|].
  cbn [expLoop]. rewrite xpow_S, <- xpow_xtime, <- nextExp_xtime by done. cbn [base.lookup list_lookup].
  rewrite IH by (rewrite nextExp_xtime by done; by apply xtime_elem).
  destruct (decide (i < n)%nat), (decide (S i < S n)%nat); done || lia.
Qed.

Lemma expLoop_length n prev : length (expLoop n prev) = n.
Proof. revert prev. induction n as [|n IH]; intros prev; [done|]. cbn [expLoop length]. by rewrite IH. Qed.

Lemma expEntries_lookup i : (i < order)%nat -> expEntries !! i = Some (xpow i 1).
Proof. intros Hi. unfold expEntries. rewrite expLoop_lookup by apply elem_1. by rewrite decide_True. Qed.

Lemma expEntries_length : length expEntries = order.
Proof. apply expLoop_length. Qed.

#[global] Opaque expEntries.

Lemma expEntries_NoDup : NoDup expEntries.
Proof.
  apply NoDup_alt. intros i j x Hi Hj. pose proof (lookup_lt_Some _ _ _ Hi) as Li. pose proof (lookup_lt_Some _ _ _ Hj) as Lj.
  rewrite expEntries_length in Li, Lj. rewrite expEntries_lookup in Hi, Hj by done. apply xpow_1_inj; [done..|congruence].
Qed.

(** The powers of x are all elements but zero: there are as many. *)
Lemma expEntries_all a : elem a -> a <> 0 -> exists i, (i < order)%nat /\ a = xpow i 1.
Proof.
  intros Ha H0. assert (HP : expEntries ≡ₚ seqZ 1 gf16Order).
  { apply submseteq_length_Permutation; [|by rewrite expEntries_length, length_seqZ].
    apply NoDup_submseteq; [apply expEntries_NoDup|]. intros x [i Hi]%list_elem_of_lookup.
    pose proof (lookup_lt_Some _ _ _ Hi) as Li. rewrite expEntries_length in Li.
    rewrite expEntries_lookup in Hi by done. injection Hi as <-. apply elem_of_seqZ.
    pose proof (xpow_elem i 1 elem_1) as HE. pose proof (xpow_1_nonzero i). unfold elem, gf16Order in *. lia. }
  assert (HI : a ∈ expEntries) by (rewrite HP, elem_of_seqZ; unfold elem, gf16Order in *; lia).
  apply list_elem_of_lookup in HI as [i Hi]. pose proof (lookup_lt_Some _ _ _ Hi) as Li.
  rewrite expEntries_length in Li. rewrite expEntries_lookup in Hi by done. exists i. split; [done|congruence].
Qed.

Lemma xpow_mod n : xpow n 1 = xpow (n mod order) 1.
Proof.
  rewrite (Nat.div_mod_eq n order) at 1. rewrite Nat.add_comm, xpow_add, (Nat.mul_comm order).
  by rewrite (period_mul _ _ period_order).
Qed.

Lemma expAt_xpow i : 0 <= i < 2 * gf16Order -> expAt i = xpow (Z.to_nat i) 1.
Proof.
  intros Hi. unfold expAt, gf16Exp. destruct (decide (i < gf16Order)) as [L|L].
  - rewrite lookup_app_l by (rewrite expEntries_length; lia). by rewrite expEntries_lookup by lia.
  - rewrite lookup_app_r, expEntries_length by (rewrite expEntries_length; lia).
    rewrite expEntries_lookup by lia. rewrite (xpow_mod (Z.to_nat i)). cbn [default id]. f_equal.
    apply Nat.mod_unique with 1%nat; lia.
Qed.

Lemma logLoop_lookup i entries table a :
  NoDup entries ->
  logLoop i entries table !! a =
    match list_find (fun e => e = a) entries with Some (k, _) => Some (u16 (i + Z.of_nat k)) | None => table !! a end.
Proof.
  revert i table. induction entries as [|e entries IH]; intros i table HN; [done|].
  apply list.NoDup_cons in HN as [HE HN]. cbn [logLoop list_find]. rewrite IH by done.
  destruct (decide (e = a)) as [->|NE].
  - destruct (list_find _ entries) as [[k x]|] eqn:HF.
    + apply list_find_Some in HF as (HK & -> & _). by apply list_elem_of_lookup_2 in HK.
    + by rewrite lookup_insert_eq, Z.add_0_r.
  - destruct (list_find _ entries) as [[k x]|] eqn:HF; cbn; [do 2 f_equal; lia|by rewrite lookup_insert_ne].
Qed.

Lemma logAt_xpow i : (i < order)%nat -> logAt (xpow i 1) = Z.of_nat i.
Proof.
  intros Hi. unfold logAt, gf16Log. rewrite logLoop_lookup by apply expEntries_NoDup.
  assert (list_find (fun e => e = xpow i 1) expEntries = Some (i, xpow i 1)) as ->; [|].
  - apply list_find_Some. split_and!; [by apply expEntries_lookup|done|].
    intros j y Hj HL E. rewrite expEntries_lookup in Hj by lia. injection Hj as <-.
    apply xpow_1_inj in E; lia.
  - cbn [default id]. unfold u16, gf16Order in *. rewrite Z.mod_small; lia.
Qed.

#[global] Opaque gf16Log gf16Exp.

(** ** The operations *)

Lemma pmul_0_r a : pmul a 0 = 0.
Proof. apply linear_0, linear_pmul. Qed.

Lemma pmul_0_l a : elem a -> pmul 0 a = 0.
Proof. intros Ha. by rewrite pmul_comm, pmul_0_r. Qed.

Lemma pmul_xpow i j : pmul (xpow i 1) (xpow j 1) = xpow (i + j) 1.
Proof. rewrite xpow_add. symmetry. apply xpow_pmul, xpow_elem, elem_1. Qed.

Lemma gf16Mul_pmul a b : elem a -> elem b -> gf16Mul a b = pmul a b.
Proof.
  intros Ha Hb. unfold gf16Mul.
  destruct (Z.eqb_spec a 0) as [->|NA]; cbn [orb]; [symmetry; by apply pmul_0_l|].
  destruct (Z.eqb_spec b 0) as [->|NB]; [symmetry; apply pmul_0_r|].
  destruct (expEntries_all a Ha NA) as (i & Hi & ->), (expEntries_all b Hb NB) as (j & Hj & ->).
  rewrite (logAt_xpow i Hi), (logAt_xpow j Hj), pmul_xpow, expAt_xpow by lia. f_equal. lia.
Qed.

Lemma gf16Inv_xpow i : (i < order)%nat -> gf16Inv (xpow i 1) = (xpow (order - i) 1, None).
Proof.
  intros Hi. unfold gf16Inv. rewrite (proj2 (Z.eqb_neq _ _)) by apply xpow_1_nonzero.
  rewrite (logAt_xpow i Hi), expAt_xpow by lia.
  replace (Z.to_nat (gf16Order - Z.of_nat i)) with (order - i)%nat by lia. reflexivity.
Qed.

Lemma gf16Inv_spec a : elem a -> a <> 0 -> exists c, gf16Inv a = (c, None) /\ elem c /\ pmul c a = 1.
Proof.
  intros Ha H0. destruct (expEntries_all a Ha H0) as (i & Hi & ->). rewrite gf16Inv_xpow by lia.
  eexists. split; [reflexivity|]. split; [apply xpow_elem, elem_1|]. rewrite pmul_xpow.
  replace (order - i + i)%nat with order by lia. apply period_order.
Qed.

Lemma gf16Div_spec a b : elem a -> elem b -> b <> 0 -> gf16Div a b = (pmul a (gf16Inv b).1, None).
Proof.
  intros Ha Hb H0. unfold gf16Div. destruct (expEntries_all b Hb H0) as (j & Hj & ->).
  rewrite gf16Inv_xpow by lia. cbn [fst].
  destruct (Z.eqb_spec a 0) as [->|NA]; [by rewrite pmul_0_l by apply xpow_elem, elem_1|].
  destruct (expEntries_all a Ha NA) as (i & Hi & ->).
  rewrite (proj2 (Z.eqb_neq _ _)) by apply xpow_1_nonzero. rewrite (logAt_xpow i Hi), (logAt_xpow j Hj), pmul_xpow. f_equal.
  destruct (Z.ltb_spec (Z.of_nat i - Z.of_nat j) 0).
  - rewrite expAt_xpow by lia. f_equal. lia.
  - rewrite expAt_xpow by lia. rewrite (xpow_mod (i + _)). f_equal. apply Nat.mod_unique with 1%nat; lia.
Qed.

Lemma gf16Pow_xpow i e : (i < order)%nat -> - 2 ^ 47 < e < 2 ^ 47 ->
  gf16Pow (xpow i 1) e = xpow (Z.to_nat ((Z.of_nat i * e) mod gf16Order)) 1.
Proof.
  intros Hi He. unfold gf16Pow. destruct (Z.eqb_spec e 0) as [->|NE]; [by rewrite Z.mul_0_r|].
  rewrite (proj2 (Z.eqb_neq _ _)) by apply xpow_1_nonzero. rewrite (logAt_xpow i Hi).
  unfold gf16Order in *. rewrite i64_small by nia. set (z := Z.of_nat i * e).
  assert (HR : (if Z.rem z 65535 <? 0 then Z.rem z 65535 + 65535 else Z.rem z 65535) = z mod 65535).
  { destruct (Z.ltb_spec (Z.rem z 65535) 0); zlia. }
  rewrite HR. apply expAt_xpow. unfold gf16Order. pose proof (Z.mod_pos_bound z 65535). lia.
Qed.

(** Powers with a non-negative exponent by repeated multiplication. *)
Lemma iter_pmul_xpow i n : Nat.iter n (pmul (xpow i 1)) 1 = xpow (n * i) 1.
Proof. induction n as [|n IH]; [done|]. change (pmul (xpow i 1) (Nat.iter n (pmul (xpow i 1)) 1) = xpow (S n * i) 1).
  by rewrite IH, pmul_xpow. Qed.

Lemma gf16Pow_spec a e : elem a -> a <> 0 -> 0 <= e < 2 ^ 47 ->
  gf16Pow a e = Nat.iter (Z.to_nat e) (pmul a) 1 /\ pmul (gf16Pow a (- e)) (gf16Pow a e) = 1.
Proof.
  intros Ha H0 He. destruct (expEntries_all a Ha H0) as (i & Hi & ->). rewrite !gf16Pow_xpow by lia. split.
  - rewrite iter_pmul_xpow, (xpow_mod (_ * i)). f_equal. rewrite <- (Z2Nat.id e) at 1 by lia.
    rewrite <- Nat2Z.inj_mul, (Nat.mul_comm i). apply Nat2Z.inj. rewrite Z2Nat.id by (unfold gf16Order; zlia).
    by rewrite Nat2Z.inj_mod, Z2Nat.id.
  - rewrite pmul_xpow. set (z := Z.of_nat i * e). replace (Z.of_nat i * - e) with (- z) by lia.
    destruct (decide (z mod gf16Order = 0)) as [E|E].
    + rewrite E, Z.mod_opp_l_z, Nat.add_0_r by (unfold gf16Order in *; lia). done.
    + rewrite Z.mod_opp_l_nz by (unfold gf16Order in *; lia).
      pose proof (Z.mod_pos_bound z gf16Order ltac:(done)).
      replace (_ + _)%nat with order by lia. apply period_order.
Qed.

(** ** The field *)

Record GF : Type := mkGF { gv : Z; gp : Is_true ((0 <=? gv) && (gv <? 65536)) }.

Lemma gv_elem (x : GF) : elem (gv x).
Proof. destruct x as [v p]. change (elem v). apply Is_true_true in p. apply andb_true_iff in p as [?%Z.leb_le ?%Z.ltb_lt]. done. Qed.

Lemma elem_bool z : elem z -> Is_true ((0 <=? z) && (z <? 65536)).
Proof. intros [? ?]. apply Is_true_true, andb_true_iff. split; [by apply Z.leb_le|by apply Z.ltb_lt]. Qed.

Definition gf (z : Z) (H : elem z) : GF := mkGF z (elem_bool z H).

Lemma GF_eq (x y : GF) : gv x = gv y -> x = y.
Proof.
  destruct x as [v p], y as [w r]. cbn. intros ->. f_equal.
  destruct ((0 <=? w) && (w <? 65536)); [by destruct p, r|done].
Qed.

#[global] Instance GF_eq_dec : EqDecision GF.
Proof. intros x y. destruct (decide (gv x = gv y)) as [E|E]; [left; by apply GF_eq|right; congruence]. Defined.

Lemma gf16Inv_elem a : elem a -> elem (gf16Inv a).1.
Proof.
  intros Ha. destruct (decide (a = 0)) as [->|N]; [apply elem_0|].
  by destruct (gf16Inv_spec a Ha N) as (c & -> & ? & _).
Qed.

Definition gzero : GF := gf 0 elem_0.
Definition gone : GF := gf 1 elem_1.
Definition gadd (x y : GF) : GF := gf (Z.lxor (gv x) (gv y)) (elem_lxor _ _ (gv_elem x) (gv_elem y)).
Definition gmul (x y : GF) : GF := gf (pmul (gv x) (gv y)) (pmul_elem _ _ (gv_elem y)).
Definition ginv (x : GF) : GF := gf (gf16Inv (gv x)).1 (gf16Inv_elem _ (gv_elem x)).
Definition gdiv (x y : GF) : GF := gmul x (ginv y).

Lemma GF_field : field_theory gzero gone gadd gmul gadd id gdiv ginv eq.
Proof.
  split; [split|..]; intros; try (apply GF_eq; cbn).
  - apply Z.lxor_0_l.
  - apply Z.lxor_comm.
  - symmetry. apply Z.lxor_assoc.
  - rewrite pmul_comm by (apply elem_1 || apply gv_elem). apply pmul_1_r, gv_elem.
  - apply pmul_comm; apply gv_elem.
  - apply pmul_assoc; apply gv_elem.
  - rewrite !(pmul_comm _ (gv z)) by (apply gv_elem || apply elem_lxor; apply gv_elem).
    apply linear_lxor, linear_pmul.
  - done.
  - apply Z.lxor_nilpotent.
  - intros E%(f_equal gv). done.
  - done.
  - assert (gv p <> 0) by (intros E; by apply H, GF_eq).
    by destruct (gf16Inv_spec (gv p) (gv_elem p)) as (c & -> & _ & ?).
Qed.

Lemma gmul_1_l x : gmul gone x = x.
Proof. apply (Rmul_1_l (F_R GF_field)). Qed.

Lemma gmul_1_r x : gmul x gone = x.
Proof. rewrite (Rmul_comm (F_R GF_field)). apply gmul_1_l. Qed.

Lemma gmul_assoc x y z : gmul x (gmul y z) = gmul (gmul x y) z.
Proof. apply (Rmul_assoc (F_R GF_field)). Qed.

(** The operations of the code on elements of the field. *)
Lemma gf16Mul_gv x y : gf16Mul (gv x) (gv y) = gv (gmul x y).
Proof. apply gf16Mul_pmul; apply gv_elem. Qed.

Lemma gf16Div_gv x y : y <> gzero -> gf16Div (gv x) (gv y) = (gv (gdiv x y), None).
Proof.
  intros H. rewrite gf16Div_spec; [done|apply gv_elem..|]. intros E. by apply H, GF_eq.
Qed.

End Gf16.
