(* ===== verification/Lagrange.v ===== *)
(** * Interpolation over a field

    A polynomial of degree below [n] is determined by its values at [n] points,
    and the interpolation of Lagrange computes it. Stated for any field, for the
    erasure code. *)

From Stdlib Require Import ZArith Lia Field.
From stdpp Require Import base list sets numbers.
From S2P Require Import Prelude.

Module Lagrange.

Section field.
Context {F : Type} `{!EqDecision F} (f0 f1 : F) (fadd fmul fsub fdiv : F -> F -> F) (fopp finv : F -> F).
Context (HF : field_theory f0 f1 fadd fmul fsub fopp fdiv finv eq).
Infix "⊕" := fadd (at level 50, left associativity).
Infix "⊗" := fmul (at level 40, left associativity).
Infix "⊖" := fsub (at level 50, left associativity).
Add Field F_field : HF.

Lemma mul_eq_0 x y : x ⊗ y = f0 -> x = f0 \/ y = f0.
Proof.
  intros H. destruct (decide (x = f0)) as [?|N]; [by left|right].
  replace y with (finv x ⊗ (x ⊗ y)) by (field; done). rewrite H. ring.
Qed.

Lemma sub_eq_0 x y : x ⊖ y = f0 -> x = y.
Proof. intros H. replace x with ((x ⊖ y) ⊕ y) by ring. rewrite H. ring. Qed.

Lemma filter_keep (P : F -> Prop) `{!forall x, Decision (P x)} (l : list F) : (forall x, x ∈ l -> P x) -> filter P l = l.
Proof.
  induction l as [|a l IH]; intros HP; [done|]. rewrite filter_cons_True by (apply HP; constructor).
  f_equal. apply IH. intros x Hx. apply HP. by constructor.
Qed.

(** ** Sums and products over lists *)

Definition sum {A} (f : A -> F) (l : list A) : F := foldr (fun x acc => f x ⊕ acc) f0 l.
Definition prod {A} (f : A -> F) (l : list A) : F := foldr (fun x acc => f x ⊗ acc) f1 l.

Lemma sum_ext {A} (f g : A -> F) l : (forall x, x ∈ l -> f x = g x) -> sum f l = sum g l.
Proof.
  induction l as [|a l IH]; intros H; [done|]. cbn. rewrite (H a) by constructor. f_equal.
  apply IH. intros x Hx. apply H. by constructor.
Qed.

Lemma sum_zero {A} (f : A -> F) l : (forall x, x ∈ l -> f x = f0) -> sum f l = f0.
Proof.
  intros H. rewrite (sum_ext f (fun _ => f0)) by done. clear H. induction l as [|a l IH]; [done|].
  cbn. unfold sum in IH. rewrite IH. ring.
Qed.

Lemma sum_single {A} `{!EqDecision A} (f : A -> F) l a :
  NoDup l -> a ∈ l -> (forall x, x ∈ l -> x <> a -> f x = f0) -> sum f l = f a.
Proof.
  induction l as [|b l IH]; intros HN Ha H; [by apply elem_of_nil in Ha|].
  apply list.NoDup_cons in HN as [Hb HN]. cbn. destruct (decide (b = a)) as [->|NE].
  - fold (sum f l). rewrite (sum_zero f l); [ring|]. intros x Hx. apply H; [by constructor|]. by intros ->.
  - fold (sum f l). rewrite IH; [|done|set_solver|set_solver]. rewrite (H b) by (constructor || done). ring.
Qed.

Lemma prod_nonzero {A} (f : A -> F) l : (forall x, x ∈ l -> f x <> f0) -> prod f l <> f0.
Proof.
  induction l as [|a l IH]; intros H; cbn; [apply (F_1_neq_0 HF)|].
  intros [E|E]%mul_eq_0; [by eapply H; [constructor|]|]. revert E. apply IH. intros x Hx. apply H. by constructor.
Qed.

Lemma prod_zero {A} (f : A -> F) l a : a ∈ l -> f a = f0 -> prod f l = f0.
Proof.
  induction l as [|b l IH]; intros Ha E; [by apply elem_of_nil in Ha|]. cbn. fold (prod f l).
  apply elem_of_cons in Ha as [->|Ha]; [rewrite E|rewrite IH by done]; ring.
Qed.

(** ** Polynomials, as lists of coefficients *)

Definition eval (p : list F) (x : F) : F := foldr (fun c acc => c ⊕ x ⊗ acc) f0 p.

Fixpoint padd (p q : list F) : list F :=
  match p, q with
  | [], q => q
  | p, [] => p
  | a :: p, b :: q => (a ⊕ b) :: padd p q
  end.
Definition pscale (c : F) (p : list F) : list F := fmul c <$> p.
(** [p * (X - a)] *)
Definition pfactor (p : list F) (a : F) : list F := padd (f0 :: p) (pscale (fopp a) p).

Lemma eval_padd p q x : eval (padd p q) x = eval p x ⊕ eval q x.
Proof.
  revert q. induction p as [|a p IH]; intros [|b q]; cbn; [ring..|]. fold (eval p x) (eval q x) (eval (padd p q) x).
  rewrite IH. ring.
Qed.

Lemma eval_pscale c p x : eval (pscale c p) x = c ⊗ eval p x.
Proof.
  induction p as [|a p IH]; cbn; [ring|]. fold (eval p x) (pscale c p) (eval (pscale c p) x). rewrite IH. ring.
Qed.

Lemma eval_pfactor p a x : eval (pfactor p a) x = (x ⊖ a) ⊗ eval p x.
Proof. unfold pfactor. rewrite eval_padd, eval_pscale. cbn. fold (eval p x). ring. Qed.

Lemma padd_length p q : length (padd p q) = max (length p) (length q).
Proof. revert q. induction p as [|a p IH]; intros [|b q]; cbn; [done..|]. by rewrite IH. Qed.

Lemma pfactor_length p a : length (pfactor p a) = S (length p).
Proof. unfold pfactor, pscale. rewrite padd_length, length_fmap. cbn. lia. Qed.

(** The quotient by [X - a]. *)
Fixpoint quot (p : list F) (a : F) : list F :=
  match p with
  | [] => []
  | _ :: p' => match p' with [] => [] | _ => eval p' a :: quot p' a end
  end.

Lemma eval_quot p a x : eval p x ⊖ eval p a = (x ⊖ a) ⊗ eval (quot p a) x.
Proof.
  induction p as [|c p IH]; [cbn; ring|]. destruct p as [|d p]; [cbn; ring|].
  change (quot (c :: d :: p) a) with (eval (d :: p) a :: quot (d :: p) a).
  set (p' := d :: p) in *. change (eval (c :: p') x) with (c ⊕ x ⊗ eval p' x).
  change (eval (c :: p') a) with (c ⊕ a ⊗ eval p' a).
  change (eval (eval p' a :: quot p' a) x) with (eval p' a ⊕ x ⊗ eval (quot p' a) x).
  transitivity (x ⊗ (eval p' x ⊖ eval p' a) ⊕ (x ⊖ a) ⊗ eval p' a); [ring|]. rewrite IH. ring.
Qed.

Lemma quot_length p a : length (quot p a) = pred (length p).
Proof. induction p as [|c p IH]; [done|]. destruct p as [|d p]; [done|]. cbn in *. by rewrite IH. Qed.

(** A polynomial with as many roots as coefficients is zero everywhere. *)
Lemma roots_zero xs p y :
  NoDup xs -> (length p <= length xs)%nat -> (forall x, x ∈ xs -> eval p x = f0) -> eval p y = f0.
Proof.
  revert p y. induction xs as [|a xs IH]; intros p y HN HL H; [by destruct p; [|cbn in HL; lia]|].
  apply list.NoDup_cons in HN as [Ha HN].
  assert (HQ : forall x, eval p x = (x ⊖ a) ⊗ eval (quot p a) x).
  { intros x. rewrite <- eval_quot, (H a) by constructor. ring. }
  rewrite HQ, (IH (quot p a)); [ring|done|rewrite quot_length; cbn in HL; lia|].
  intros x Hx. destruct (mul_eq_0 (x ⊖ a) (eval (quot p a) x)) as [E|E]; [|by apply sub_eq_0 in E as ->|done].
  rewrite <- HQ. apply H. by constructor.
Qed.

(** ** Interpolation *)

Definition others (xs : list F) (x : F) : list F := filter (fun z => z <> x) xs.
Definition basis (xs : list F) (x y : F) : F :=
  fdiv (prod (fun z => y ⊖ z) (others xs x)) (prod (fun z => x ⊖ z) (others xs x)).
Definition interpolate (xs : list F) (v : F -> F) (y : F) : F := sum (fun x => v x ⊗ basis xs x y) xs.

Lemma others_nonzero xs x : prod (fun z => x ⊖ z) (others xs x) <> f0.
Proof. apply prod_nonzero. intros z [Hz _]%list_elem_of_filter E%sub_eq_0. congruence. Qed.

Lemma basis_same xs x : basis xs x x = f1.
Proof. unfold basis. field. apply others_nonzero. Qed.

Lemma basis_other xs x y : y ∈ xs -> y <> x -> basis xs x y = f0.
Proof.
  intros Hy NE. unfold basis. rewrite (prod_zero _ _ y); [|by apply list_elem_of_filter|ring].
  field. apply others_nonzero.
Qed.

Lemma interpolate_at xs v x : NoDup xs -> x ∈ xs -> interpolate xs v x = v x.
Proof.
  intros HN Hx. unfold interpolate. rewrite (sum_single _ xs x) by (done || (intros z ? ?; rewrite basis_other by congruence || done; ring)).
  rewrite basis_same. ring.
Qed.

Lemma prod_poly (l : list F) : exists p, length p = S (length l) /\ forall y, eval p y = prod (fun z => y ⊖ z) l.
Proof.
  induction l as [|a l (p & HL & HE)]; [exists [f1]; split; [done|]; intros y; cbn; ring|].
  exists (pfactor p a). split; [by rewrite pfactor_length, HL|]. intros y. rewrite eval_pfactor, HE. done.
Qed.

Lemma others_length xs x : x ∈ xs -> (length (others xs x) < length xs)%nat.
Proof. intros Hx. apply (length_filter_lt _ _ x); [done|]. intros H. by apply H. Qed.

Lemma interpolate_poly xs v :
  exists p, (length p <= length xs)%nat /\ forall y, eval p y = interpolate xs v y.
Proof.
  unfold interpolate. assert (HI : forall l, (forall x, x ∈ l -> x ∈ xs) ->
    exists p, (length p <= length xs)%nat /\ forall y, eval p y = sum (fun x => v x ⊗ basis xs x y) l); [|by apply HI].
  induction l as [|x l IH]; intros HS; [exists []; split; [cbn; lia|done]|].
  destruct IH as (p & HL & HE); [set_solver|]. destruct (prod_poly (others xs x)) as (q & HQ & HEQ).
  exists (padd (pscale (v x ⊗ finv (prod (fun z => x ⊖ z) (others xs x))) q) p). split.
  - rewrite padd_length. unfold pscale. rewrite length_fmap, HQ.
    pose proof (others_length xs x ltac:(apply HS; constructor)). lia.
  - intros y. rewrite eval_padd, eval_pscale, HE, HEQ. cbn. fold (sum (fun x => v x ⊗ basis xs x y) l).
    unfold basis at 2. field. apply others_nonzero.
Qed.

(** Interpolating a polynomial at enough points gives the polynomial. *)
Lemma interpolate_eval xs p y :
  NoDup xs -> (length p <= length xs)%nat -> interpolate xs (eval p) y = eval p y.
Proof.
  intros HN HL. destruct (interpolate_poly xs (eval p)) as (q & HQ & HE). rewrite <- HE.
  assert (HZ : eval (padd q (pscale (fopp f1) p)) y = f0).
  { apply (roots_zero xs); [done|rewrite padd_length; unfold pscale; rewrite length_fmap; lia|].
    intros x Hx. rewrite eval_padd, eval_pscale, HE, interpolate_at by done. ring. }
  rewrite eval_padd, eval_pscale in HZ. apply sub_eq_0. rewrite <- HZ. ring.
Qed.

(** What was interpolated from [xs] is recovered from any points, as many. *)
Lemma interpolate_again xs ys v y :
  NoDup ys -> (length xs <= length ys)%nat ->
  interpolate ys (interpolate xs v) y = interpolate xs v y.
Proof.
  intros HN HL. destruct (interpolate_poly xs v) as (p & HP & HE). rewrite <- HE.
  rewrite <- (interpolate_eval ys p y HN) by lia. unfold interpolate at 1 3.
  apply sum_ext. intros x _. by rewrite HE.
Qed.

Lemma interpolate_ext xs v w y : (forall x, x ∈ xs -> v x = w x) -> interpolate xs v y = interpolate xs w y.
Proof. intros H. apply sum_ext. intros x Hx. by rewrite H. Qed.

(** The weight as the code computes it, at a point that is not among [xs]. *)
Lemma basis_div xs x y : NoDup xs -> x ∈ xs -> y ∉ xs ->
  basis xs x y = fdiv (fdiv (prod (fun z => y ⊖ z) xs) (y ⊖ x)) (prod (fun z => x ⊖ z) (others xs x)).
Proof.
  intros HN Hx Hy. assert (HP : prod (fun z => y ⊖ z) xs = (y ⊖ x) ⊗ prod (fun z => y ⊖ z) (others xs x)).
  { clear Hy. induction xs as [|a xs IH]; [by apply elem_of_nil in Hx|].
    apply list.NoDup_cons in HN as [Ha HN]. unfold others. rewrite filter_cons. cbn [prod foldr].
    destruct (decide (a <> x)) as [NE|E].
    - cbn. fold (prod (fun z => y ⊖ z) xs) (others xs x) (prod (fun z => y ⊖ z) (others xs x)).
      rewrite IH by set_solver. ring.
    - assert (a = x) as -> by (destruct (decide (a = x)); done). f_equal. fold (prod (fun z => y ⊖ z) xs).
      f_equal. symmetry. apply filter_keep. intros z Hz ->. by apply Ha. }
  unfold basis. rewrite HP. field. split; [intros ->%sub_eq_0; done|apply others_nonzero].
Qed.
End field.

End Lagrange.
