(* ===== verification/Erasure.v ===== *)
(** * The erasure code of blobs (encoding/erasure_code.go)

    A blob is cut into cells, the cells are extended with as many parity cells by a
    Reed-Solomon code over GF(2^16), and any half of the cells gives the blob back.
    Several blobs are the columns of a matrix that is extended across the columns
    too; the sparse form keeps the original columns and computes the others when
    they are read. The number of cells in a blob is an argument, [CellsPerBlob] in
    the code. Sixteen-bit words are [Z]. *)

From Stdlib Require Import ZArith Lia.
From Stdlib.Strings Require Import Byte.
From stdpp Require Import base list strings numbers.
From S2P Require Import Prelude Gf16.

Module Erasure.
Import Gf16.

Definition CellsPerBlob : Z := 4096.
Definition CellSize : Z := 32.
Definition MaxBlobColumns : Z := 6.
Definition MaxBlobColumnsExt : Z := MaxBlobColumns * 2.

(** [Cell]; the arrays of cells and the matrices are lists, whose lengths the
    code fixes: [n] cells, [2 * n] cells, [MaxBlobColumnsExt] columns. *)
Definition Cell : Type := array 32.
Definition Blob : Type := list byte.

(** [copy(cells[i][:], src)] into a zero cell *)
Lemma cell_length (src : list byte) : length (copy (replicate 32 x00) src) = 32%nat.
Proof. by rewrite length_copy, length_replicate. Qed.
Definition cellOf (src : list byte) : Cell := mk_array (copy (replicate 32 x00) src) (cell_length src).

Definition BlobToCells (n : Z) (blob : Blob) : list Cell :=
  (fun i => cellOf (sub blob (i * CellSize) ((i + 1) * CellSize))) <$> seqZ 0 n.

(** The loop writes the cells one after the other. *)
Definition CellsToBlob (cells : list Cell) : Blob := mjoin (bytes_of <$> cells).

(** [binary.BigEndian.Uint16(cell[k:])] and [binary.BigEndian.PutUint16(cell[k:], v)] *)
Definition getU16 (c : Cell) (k : Z) : Z := be (sub (bytes_of c) k (k + 2)).

Lemma putU16_length (c : Cell) k v : length (copy_at (bytes_of c) k (be_bytes 2 v)) = 32%nat.
Proof.
  unfold copy_at. rewrite length_app, length_copy, length_take, length_drop.
  pose proof (length_bytes_of c). lia.
Qed.
Definition putU16 (c : Cell) (k v : Z) : Cell :=
  mk_array (copy_at (bytes_of c) k (be_bytes 2 v)) (putU16_length c k v).

(** The loop over the words of a cell: adds [src], multiplied by [w], to [acc]. *)
Definition accumulate (acc src : Cell) (w : Z) : Cell :=
  foldl (fun acc k => putU16 acc k (Z.lxor (getU16 acc k) (gf16Mul (getU16 src k) w)))
    acc (Z.mul 2 <$> seqZ 0 16).

(** ** Interpolation in the code *)

(** The evaluation points [1, ..., n]. *)
Definition points (n : Z) : list Z := (fun i => u16 (i + 1)) <$> seqZ 0 n.

(** [num]: the product of the [y - x] *)
Definition numAt (xs : list Z) (y : Z) : Z := foldl (fun num x => gf16Mul num (Z.lxor y x)) 1 xs.

(** [denom[j]]: the product of the [x_j - x_i], [i <> j] *)
Definition denomAt (xs : list Z) (j xj : Z) : Z :=
  foldl (fun d '(i, x) => if i =? j then d else gf16Mul d (Z.lxor xj x)) 1 (zip (seqZ 0 (len xs)) xs).
Definition denoms (xs : list Z) : list Z :=
  (fun '(j, xj) => denomAt xs j xj) <$> zip (seqZ 0 (len xs)) xs.

(** [w, _ := gf16Div(num, diff); w, _ = gf16Div(w, denom[j])] *)
Definition weight (num diff denom : Z) : Z := (gf16Div (gf16Div num diff).1 denom).1.

(** The value at [y] of the polynomial through the cells at the points [xs]. *)
Definition evalAt (xs : list Z) (cells : list Cell) (y : Z) : Cell :=
  let num := numAt xs y in
  foldl (fun parity '(c, (x, d)) => accumulate parity c (weight num (Z.lxor y x) d))
    (zero_array 32) (zip cells (zip xs (denoms xs))).

Definition ExtendBlob1D (n : Z) (cells : list Cell) : list Cell :=
  cells ++ ((fun k => evalAt (points n) cells (u16 (n + k + 1))) <$> seqZ 0 n).

(** The indices of the cells that are available. *)
Definition available (mask : list bool) : list Z :=
  (filter (fun p => p.2 = true) (zip (seqZ 0 (len mask)) mask)).*1.

(** The loop over the available cells that recovers the cell at [y]. *)
Fixpoint recoverLoop (y num : Z) (cell : Cell) (avail : list (Cell * (Z * Z))) : error + Cell :=
  match avail with
  | [] => inr cell
  | (c, (x, d)) :: avail =>
      let diff := Z.lxor y x in
      if diff =? 0 then inr c else
      let '(w, err) := gf16Div num diff in
      match err with
      | Some err => inl err
      | None =>
          let '(w, err) := gf16Div w d in
          match err with
          | Some err => inl err
          | None => recoverLoop y num (accumulate cell c w) avail
          end
      end
  end.

(** The loop over the original cells. *)
Fixpoint recoverAll (xs : list Z) (cells extended : list Cell) (j : Z) (mask : list bool) : res (list Cell) :=
  match mask with
  | [] => Ok []
  | b :: mask =>
      let cell :=
        if b then match extended !! Z.to_nat j with Some c => Ok c | None => Panic end
        else
          let y := u16 (j + 1) in
          match recoverLoop y (numAt xs y) (zero_array 32) (zip cells (zip xs (denoms xs))) with
          | inr c => Ok c
          | inl err => Err (ErrErrorf "recovery failed at cell %d: %w")
          end in
      match cell with
      | Ok c =>
          match recoverAll xs cells extended (j + 1) mask with
          | Ok recovered => Ok (c :: recovered)
          | e => e
          end
      | Err e => Err e
      | Panic => Panic
      | NoFuel => NoFuel
      end
  end.

Definition RecoverBlob1D (n : Z) (extended : list Cell) (availableMask : list bool) : res (list Cell) :=
  let availableIndices := available availableMask in
  if len availableIndices <? n then Err (ErrErrorf "insufficient cells: need %d, have %d") else
  if forallb id (take (Z.to_nat n) availableMask) then Ok (take (Z.to_nat n) extended) else
  let availableIndices := take (Z.to_nat n) availableIndices in
  let xs := (fun i => u16 (i + 1)) <$> availableIndices in
  match mapM (fun i => extended !! Z.to_nat i) availableIndices with
  | Some availCells => recoverAll xs availCells extended 0 (take (Z.to_nat n) availableMask)
  | None => Panic
  end.

(** ** Columns *)

Definition row (column : list Cell) (r : Z) : Cell := column !!! Z.to_nat r.

(** The parity cell of a row: the value at [y] of the polynomial through the cells
    of the row, whose weights are computed once for a column. *)
Definition columnWeights (m : Z) (y : Z) : list Z :=
  (fun '(x, d) => weight (numAt (points m) y) (Z.lxor y x) d) <$> zip (points m) (denoms (points m)).
Definition parityRow (columns : list (list Cell)) (weights : list Z) (r : Z) : Cell :=
  foldl (fun parity '(column, w) => accumulate parity (row column r) w) (zero_array 32) (zip columns weights).
Definition parityColumn (n : Z) (columns : list (list Cell)) (col : Z) : list Cell :=
  parityRow columns (columnWeights (len columns) (u16 (col + 1))) <$> seqZ 0 (2 * n).

Definition ExtendBlobs2D (n : Z) (blobs : list Blob) : res (list (list Cell)) :=
  let m := len blobs in
  if (m =? 0) || (MaxBlobColumns <? m) then Err (ErrErrorf "invalid blob count: %d") else
  let columns := (fun b => ExtendBlob1D n (BlobToCells n b)) <$> blobs in
  if m =? 1 then
    Ok (columns ++ replicate (Z.to_nat (MaxBlobColumnsExt - 1)) (columns !!! 0%nat))
  else Ok (columns ++ (parityColumn n columns <$> seqZ m (MaxBlobColumnsExt - m))).

(** The loop over the original columns. *)
Fixpoint recoverColumns (n : Z) (columns : list (list Cell)) (rowMask : list bool) : res (list Blob) :=
  match columns with
  | [] => Ok []
  | column :: columns =>
      match RecoverBlob1D n column rowMask with
      | Ok cells =>
          match recoverColumns n columns rowMask with
          | Ok blobs => Ok (CellsToBlob cells :: blobs)
          | e => e
          end
      | Err e => Err (ErrErrorf "recover blob %d: %w")
      | Panic => Panic
      | NoFuel => NoFuel
      end
  end.

Definition RecoverBlobs2D (n : Z) (matrix : list (list Cell)) (colMask rowMask : list bool) (originalCount : Z) :
    res (list Blob) :=
  if (originalCount <=? 0) || (MaxBlobColumns <? originalCount) then Err (ErrErrorf "invalid original count: %d") else
  if len (available colMask) <? originalCount then Err (ErrErrorf "insufficient columns: need %d, have %d") else
  if len (available rowMask) <? n then Err (ErrErrorf "insufficient rows: need %d, have %d") else
  recoverColumns n (take (Z.to_nat originalCount) matrix) rowMask.

(** ** The sparse matrix *)

Record SparseBlobMatrix : Type := mkSparse {
  OriginalColumns : list (list Cell);
  OriginalCount : Z;
}.

Definition NewSparseBlobMatrix (matrix : list (list Cell)) (originalCount : Z) : SparseBlobMatrix :=
  let originalCount := if originalCount <? 0 then 0 else originalCount in
  let originalCount := if MaxBlobColumnsExt <? originalCount then MaxBlobColumnsExt else originalCount in
  mkSparse (take (Z.to_nat originalCount) matrix) originalCount.

(** The weights are computed for each cell here. *)
Definition computeParityCell (m : SparseBlobMatrix) (r col : Z) : Cell :=
  let n := OriginalCount m in
  if n =? 0 then zero_array 32 else
  if n =? 1 then row (OriginalColumns m !!! 0%nat) r else
  let y := u16 (col + 1) in
  let num := numAt (points n) y in
  foldl (fun parity '(j, column) =>
      let xj := u16 (j + 1) in
      accumulate parity (row column r) (weight num (Z.lxor y xj) (denomAt (points n) j xj)))
    (zero_array 32) (zip (seqZ 0 n) (OriginalColumns m)).

(** An index out of range is a panic: of the column for an original cell, of the
    row in any column that the cell is computed from. *)
Definition GetCell (m : SparseBlobMatrix) (r col : Z) : res Cell :=
  if col <? OriginalCount m then
    match (if 0 <=? col then OriginalColumns m !! Z.to_nat col else None) with
    | Some column => if (0 <=? r) && (r <? len column) then Ok (row column r) else Panic
    | None => Panic
    end
  else if forallb (fun column : list Cell => (0 <=? r) && (r <? len column)) (OriginalColumns m)
  then Ok (computeParityCell m r col)
  else Panic.

Definition ToBlobMatrixExtended (n : Z) (m : SparseBlobMatrix) : list (list Cell) :=
  OriginalColumns m ++
    ((fun col => (fun r => computeParityCell m r col) <$> seqZ 0 (2 * n)) <$>
      seqZ (OriginalCount m) (MaxBlobColumnsExt - OriginalCount m)).

Definition MemoryBytes (n : Z) (m : SparseBlobMatrix) : Z := len (OriginalColumns m) * (2 * n) * CellSize.

End Erasure.
