(* ===== verification/ErasureSpec.v ===== *)
(** * Properties of the erasure code

    The loops over words compute sums in the field, the weights are those of
    interpolation, and so both directions of the code interpolate the polynomial
    through the original cells. *)

From Stdlib Require Import ZArith Lia.
From Stdlib.Strings Require Import Byte.
From stdpp Require Import base list sets strings numbers.
From S2P Require Import Prelude Gf16 Lagrange Erasure.

Module ErasureSpec.
Import Gf16 Erasure.

Abbreviation sum := (Lagrange.sum gzero gadd).
Abbreviation prod := (Lagrange.prod gone gmul).
Abbreviation basis := (Lagrange.basis gone gmul gadd gdiv).
Abbreviation interpolate := (Lagrange.interpolate gzero gone gadd gmul gadd gdiv).

(** ** Words of a cell *)

Lemma sub_length2 (l : list byte) k : (length (sub l k (k + 2)) <= 2)%nat.
Proof. unfold sub. rewrite length_take. lia. Qed.

Lemma getU16_elem c k : elem (getU16 c k).
Proof.
  unfold getU16. pose proof (be_range (sub (bytes_of c) k (k + 2))) as HR. pose proof (sub_length2 (bytes_of c) k).
  assert (pow256 (length (sub (bytes_of c) k (k + 2))) <= 2 ^ 16).
  { unfold pow256. change (2 ^ 16) with (256 ^ 2). apply Z.pow_le_mono_r; lia. }
  unfold elem. lia.
Qed.

(** The [k]-th word as an element of the field. *)
Definition gw (c : Cell) (k : Z) : GF := gf (getU16 c (2 * k)) (getU16_elem c (2 * k)).

Lemma copy_at_split (l src : list byte) (off : nat) :
  (off + length src <= length l)%nat ->
  copy_at l (Z.of_nat off) src = take off l ++ src ++ drop (off + length src) l.
Proof.
  intros H. unfold copy_at, copy. rewrite Nat2Z.id, length_drop, (take_ge src), drop_drop by lia. done.
Qed.

Lemma getU16_putU16 c i k v : 0 <= i < 16 -> 0 <= k < 16 -> elem v ->
  getU16 (putU16 c (2 * i) v) (2 * k) = if decide (i = k) then v else getU16 c (2 * k).
Proof.
  intros Hi Hk Hv. unfold getU16, putU16, sub. cbn [bytes_of mk_array].
  pose proof (length_bytes_of c) as HL. set (l := bytes_of c) in *. clearbody l. clear c.
  replace (Z.to_nat (2 * k + 2 - 2 * k)) with 2%nat by lia.
  rewrite <- (Z2Nat.id (2 * i)) by lia.
  rewrite copy_at_split by (rewrite length_be_bytes; lia). rewrite length_be_bytes.
  destruct (decide (i = k)) as [->|NE].
  - rewrite drop_app_length' by (rewrite length_take; lia). rewrite take_app_length' by (symmetry; apply length_be_bytes).
    rewrite be_be_bytes. apply Z.mod_small, Hv.
  - destruct (Z.lt_ge_cases k i).
    + rewrite drop_app_le by (rewrite length_take; lia). rewrite take_app_le by (rewrite length_drop, length_take; lia).
      by rewrite !take_drop_commute, take_take, Nat.min_l by lia.
    + rewrite drop_app_ge by (rewrite length_take; lia).
      rewrite drop_app_ge by (rewrite length_take, length_be_bytes; lia).
      rewrite drop_drop. do 3 f_equal. rewrite length_take, length_be_bytes. lia.
Qed.

Lemma cell_ext (a b : Cell) : (forall k, 0 <= k < 16 -> gw a k = gw b k) -> a = b.
Proof.
  intros H. apply array_eq. pose proof (length_bytes_of a) as HA. pose proof (length_bytes_of b) as HB.
  apply list_eq_same_length with 32%nat; [done..|]. intros i x y Hi Hx Hy.
  assert (HS : sub (bytes_of a) (2 * Z.of_nat (i / 2)) (2 * Z.of_nat (i / 2) + 2) =
               sub (bytes_of b) (2 * Z.of_nat (i / 2)) (2 * Z.of_nat (i / 2) + 2)).
  { apply be_inj; [unfold sub; rewrite !length_take, !length_drop; lia|].
    apply (f_equal gv (H (Z.of_nat (i / 2)) ltac:(pose proof (Nat.Div0.div_lt_upper_bound i 2 16); lia))). }
  assert (HI : forall l : list byte, length l = 32%nat ->
    l !! i = sub l (2 * Z.of_nat (i / 2)) (2 * Z.of_nat (i / 2) + 2) !! (i mod 2)%nat).
  { intros l HL. unfold sub. pose proof (Nat.mod_upper_bound i 2 ltac:(lia)). pose proof (Nat.div_mod_eq i 2).
    rewrite lookup_take_lt by lia. rewrite lookup_drop. f_equal. lia. }
  rewrite HI in Hx, Hy by done. rewrite HS in Hx. congruence.
Qed.

Lemma accumulate_loop (ks : list Z) acc src w k :
  NoDup ks -> (forall i, i ∈ ks -> 0 <= i < 16) -> 0 <= k < 16 -> elem w ->
  getU16 (foldl (fun acc k => putU16 acc k (Z.lxor (getU16 acc k) (gf16Mul (getU16 src k) w))) acc (Z.mul 2 <$> ks)) (2 * k) =
  if decide (k ∈ ks) then Z.lxor (getU16 acc (2 * k)) (gf16Mul (getU16 src (2 * k)) w) else getU16 acc (2 * k).
Proof.
  intros HN HR Hk Hw. revert acc. induction ks as [|i ks IH]; intros acc; [done|].
  apply list.NoDup_cons in HN as [Hi HN]. cbn [fmap list_fmap foldl].
  assert (HE : elem (Z.lxor (getU16 acc (2 * i)) (gf16Mul (getU16 src (2 * i)) w))).
  { apply elem_lxor; [apply getU16_elem|]. rewrite gf16Mul_pmul by (apply getU16_elem || done). by apply pmul_elem. }
  rewrite IH by (done || set_solver). rewrite !getU16_putU16 by (done || (apply HR; constructor)).
  destruct (decide (k ∈ ks)) as [K|K], (decide (k ∈ i :: ks)) as [K'|K'], (decide (i = k)) as [->|NE];
    try done; set_solver.
Qed.

Lemma accumulate_gw acc src (w : GF) k : 0 <= k < 16 ->
  gw (accumulate acc src (gv w)) k = gadd (gw acc k) (gmul (gw src k) w).
Proof.
  intros Hk. apply GF_eq. cbn [gv gw gf gadd]. unfold accumulate.
  rewrite accumulate_loop; [|apply NoDup_seqZ|intros i; rewrite elem_of_seqZ; lia|done|apply gv_elem].
  rewrite decide_True by (apply elem_of_seqZ; lia). f_equal. apply (gf16Mul_gv (gw src k) w).
Qed.

Lemma gw_zero k : gw (zero_array 32) k = gzero.
Proof.
  apply GF_eq. cbn [gv gw gf gzero]. unfold getU16. cbn [bytes_of zero_array mk_array]. unfold sub.
  rewrite drop_replicate, take_replicate. apply be_replicate.
Qed.

Lemma foldl_accumulate {A} (cellF : A -> Cell) (wF : A -> Z) (gF : A -> GF) acc l k : 0 <= k < 16 ->
  (forall a, a ∈ l -> wF a = gv (gF a)) ->
  gw (foldl (fun acc a => accumulate acc (cellF a) (wF a)) acc l) k =
  gadd (gw acc k) (sum (fun a => gmul (gw (cellF a) k) (gF a)) l).
Proof.
  intros Hk. revert acc. induction l as [|a l IH]; intros acc HW; cbn [foldl].
  - apply GF_eq. symmetry. apply Z.lxor_0_r.
  - rewrite IH by set_solver. rewrite (HW a ltac:(constructor)), accumulate_gw by done.
    apply GF_eq. cbn [gv gadd gf]. apply Z.lxor_assoc.
Qed.

(** ** Weights *)

Lemma foldl_mul {A} (f : A -> Z) (g : A -> GF) d l : (forall a, a ∈ l -> f a = gv (g a)) ->
  foldl (fun d a => gf16Mul d (f a)) (gv d) l = gv (gmul d (prod g l)).
Proof.
  revert d. induction l as [|a l IH]; intros d H; cbn [foldl].
  - by rewrite gmul_1_r.
  - rewrite (H a) by constructor. rewrite gf16Mul_gv, IH by set_solver. f_equal. symmetry. apply gmul_assoc.
Qed.

Lemma numAt_prod (xs : list GF) (y : GF) : numAt (gv <$> xs) (gv y) = gv (prod (fun z => gadd y z) xs).
Proof.
  unfold numAt. rewrite foldl_fmap. change 1 with (gv gone). rewrite (foldl_mul _ (fun z => gadd y z)) by done.
  f_equal. apply gmul_1_l.
Qed.

(** A list with the positions, counted from [i]. *)
Lemma zip_seqZ_cons {A} i (a : A) l : zip (seqZ i (len (a :: l))) (a :: l) = (i, a) :: zip (seqZ (i + 1) (len l)) l.
Proof. unfold len. rewrite seqZ_cons by (cbn; lia). cbn [zip zip_with length]. do 3 f_equal; lia. Qed.

Lemma denomAt_prod (xs : list GF) (j : nat) (x : GF) : NoDup xs -> xs !! j = Some x ->
  denomAt (gv <$> xs) (Z.of_nat j) (gv x) = gv (prod (fun z => gadd x z) (Lagrange.others xs x)).
Proof.
  intros HN Hj. unfold denomAt.
  assert (HL : forall i d l, (forall m z, l !! m = Some z -> i + Z.of_nat m = Z.of_nat j <-> z = x) ->
    foldl (fun d '(i, z) => if i =? Z.of_nat j then d else gf16Mul d (Z.lxor (gv x) z)) (gv d)
      (zip (seqZ i (len (gv <$> l))) (gv <$> l)) = gv (gmul d (prod (fun z => gadd x z) (Lagrange.others l x)))).
  { intros i d l. revert i d. induction l as [|z l IH]; intros i d H.
    - change (gv d = gv (gmul d gone)). by rewrite gmul_1_r.
    - cbn [fmap list_fmap]. rewrite zip_seqZ_cons. cbn [foldl]. unfold Lagrange.others. rewrite filter_cons.
      assert (HS : forall m z, l !! m = Some z -> i + 1 + Z.of_nat m = Z.of_nat j <-> z = x).
      { intros m w Hm. rewrite <- (H (S m) w Hm). lia. }
      specialize (H 0%nat z eq_refl). destruct (Z.eqb_spec i (Z.of_nat j)) as [E|E].
      + rewrite IH by done. rewrite decide_False by (intros N; apply N, H; lia). done.
      + rewrite decide_True by (intros Ez; apply E; rewrite <- H in Ez; lia).
        change (Z.lxor (gv x) (gv z)) with (gv (gadd x z)). rewrite gf16Mul_gv, IH by done. f_equal. symmetry. apply gmul_assoc. }
  change 1 with (gv gone). rewrite HL; [f_equal; apply gmul_1_l|].
  intros m z Hm. split; [intros E; assert (m = j) as -> by lia; congruence|].
  intros ->. rewrite (NoDup_lookup xs m j x) by done. lia.
Qed.

Lemma denoms_prod (xs : list GF) : NoDup xs ->
  denoms (gv <$> xs) = (fun x => gv (prod (fun z => gadd x z) (Lagrange.others xs x))) <$> xs.
Proof.
  intros HN. apply list_eq. intros j. unfold denoms. rewrite !list_lookup_fmap.
  destruct (xs !! j) as [x|] eqn:Hj.
  - rewrite (proj2 (lookup_zip_with_Some pair _ _ _ (Z.of_nat j, gv x))); [cbn; f_equal; by apply denomAt_prod|].
    exists (Z.of_nat j), (gv x). split_and!; [done| |by rewrite list_lookup_fmap, Hj].
    apply lookup_seqZ. pose proof (lookup_lt_Some _ _ _ Hj). unfold len. rewrite length_fmap. lia.
  - apply lookup_ge_None in Hj. cbn [fmap option_fmap]. rewrite (proj2 (lookup_ge_None _ _)); [done|].
    rewrite length_zip_with, length_fmap. lia.
Qed.

Lemma gadd_eq_0 x y : gadd x y = gzero -> x = y.
Proof. apply (Lagrange.sub_eq_0 _ _ _ _ _ _ _ _ GF_field). Qed.

Lemma weight_basis (xs : list GF) (x y : GF) : NoDup xs -> x ∈ xs -> y ∉ xs ->
  let num := numAt (gv <$> xs) (gv y) in
  let d := gv (prod (fun z => gadd x z) (Lagrange.others xs x)) in
  exists w, gf16Div num (Z.lxor (gv y) (gv x)) = (w, None) /\ gf16Div w d = (gv (basis xs x y), None) /\
    Z.lxor (gv y) (gv x) <> 0.
Proof.
  intros HN Hx Hy num d. unfold num, d. rewrite numAt_prod.
  assert (HD : gadd y x <> gzero) by (intros ->%gadd_eq_0; done).
  change (Z.lxor (gv y) (gv x)) with (gv (gadd y x)). eexists. split; [by apply gf16Div_gv|]. split.
  - rewrite gf16Div_gv by apply (Lagrange.others_nonzero _ _ _ _ _ _ _ _ GF_field).
    by rewrite <- (Lagrange.basis_div _ _ _ _ _ _ _ _ GF_field).
  - intros E. by apply HD, GF_eq.
Qed.

(** ** Evaluation at a point *)

Abbreviation dF xs := (fun x => gv (prod (fun z => gadd x z) (Lagrange.others xs x))).

Lemma zip_fmap2 (d : GF -> Z) (xs : list GF) (cells : list Cell) :
  zip cells (zip (gv <$> xs) (d <$> xs)) = (fun '(c, x) => (c, (gv x, d x))) <$> zip cells xs.
Proof. revert cells. induction xs as [|x xs IH]; intros [|c cells]; cbn; [done..|]. f_equal. apply IH. Qed.

Lemma zip_denoms (xs : list GF) (cells : list Cell) : NoDup xs ->
  zip cells (zip (gv <$> xs) (denoms (gv <$> xs))) = (fun '(c, x) => (c, (gv x, dF xs x))) <$> zip cells xs.
Proof. intros HN. rewrite denoms_prod by done. apply zip_fmap2. Qed.

Lemma elem_of_zip_2 {A B} (l : list A) (k : list B) a b : (a, b) ∈ zip l k -> b ∈ k.
Proof. apply elem_of_zip_r. Qed.

Lemma gadd_0_l x : gadd gzero x = x.
Proof. apply GF_eq, Z.lxor_0_l. Qed.

(** The cell the loops over the points compute. *)
Definition weighted (xs : list GF) (cells : list Cell) (y : GF) : Cell :=
  foldl (fun acc a => accumulate acc a.1 (gv (basis xs a.2 y))) (zero_array 32) (zip cells xs).

Lemma sum_zip (b : GF -> GF) (v : GF -> GF) k (xs : list GF) (cells : list Cell) :
  Forall2 (fun x c => gw c k = v x) xs cells ->
  sum (fun a => gmul (gw a.1 k) (b a.2)) (zip cells xs) = sum (fun x => gmul (v x) (b x)) xs.
Proof. induction 1 as [|x c xs cells Hc HV IH]; [done|]. cbn. rewrite Hc. f_equal. apply IH. Qed.

Lemma weighted_interpolate (xs : list GF) cells y v k : 0 <= k < 16 ->
  Forall2 (fun x c => gw c k = v x) xs cells -> gw (weighted xs cells y) k = interpolate xs v y.
Proof.
  intros Hk HV. unfold weighted.
  rewrite (foldl_accumulate fst _ (fun a => basis xs a.2 y)) by done. rewrite gw_zero, gadd_0_l.
  by apply (sum_zip (fun x => basis xs x y)).
Qed.

Lemma evalAt_weighted (xs : list GF) cells (y : GF) : NoDup xs -> y ∉ xs ->
  evalAt (gv <$> xs) cells (gv y) = weighted xs cells y.
Proof.
  intros HN Hy. unfold evalAt, weighted. rewrite zip_denoms, foldl_fmap by done.
  assert (HS : forall a, a ∈ zip cells xs -> a.2 ∈ xs) by (intros [c x]; apply elem_of_zip_2).
  revert HS. generalize (zip cells xs) (zero_array 32). intros l. induction l as [|[c x] l IH]; intros acc HS; [done|].
  cbn [foldl]. destruct (weight_basis xs x y HN (HS (c, x) ltac:(constructor)) Hy) as (w & H1 & H2 & _).
  unfold weight. rewrite H1. cbn [fst]. rewrite H2. cbn [fst]. apply IH. intros a Ha. apply HS. by constructor.
Qed.

Lemma recoverLoop_weighted (xs : list GF) cells (y : GF) : NoDup xs -> y ∉ xs ->
  recoverLoop (gv y) (numAt (gv <$> xs) (gv y)) (zero_array 32) (zip cells (zip (gv <$> xs) (denoms (gv <$> xs)))) =
  inr (weighted xs cells y).
Proof.
  intros HN Hy. unfold weighted. rewrite zip_denoms by done.
  assert (HS : forall a, a ∈ zip cells xs -> a.2 ∈ xs) by (intros [c x]; apply elem_of_zip_2).
  revert HS. generalize (zip cells xs) (zero_array 32). intros l. induction l as [|[c x] l IH]; intros acc HS; [done|].
  cbn [fmap list_fmap recoverLoop foldl].
  destruct (weight_basis xs x y HN (HS (c, x) ltac:(constructor)) Hy) as (w & H1 & H2 & H3).
  rewrite (proj2 (Z.eqb_neq _ _) H3), H1, H2. apply IH. intros a Ha. apply HS. by constructor.
Qed.

(** ** The code words *)

Lemma u16_elem z : elem (u16 z).
Proof. unfold elem, u16. zlia. Qed.

(** The evaluation point of the cell [i]. *)
Definition gpt (i : Z) : GF := gf (u16 (i + 1)) (u16_elem (i + 1)).

Lemma gpt_gv i : 0 <= i < 65535 -> gv (gpt i) = i + 1.
Proof. intros Hi. cbn. unfold u16. rewrite Z.mod_small; lia. Qed.

Lemma gpt_inj i j : 0 <= i < 65535 -> 0 <= j < 65535 -> gpt i = gpt j -> i = j.
Proof. intros Hi Hj E%(f_equal gv). rewrite !gpt_gv in E by done. lia. Qed.

Lemma gpt_NoDup (ids : list Z) : NoDup ids -> (forall i, i ∈ ids -> 0 <= i < 65535) -> NoDup (gpt <$> ids).
Proof.
  induction ids as [|i ids IH]; intros HN HR; [constructor|]. apply list.NoDup_cons in HN as [Hi HN].
  cbn. constructor; [|apply IH; [done|set_solver]]. intros (j & E & Hj)%list_elem_of_fmap.
  apply gpt_inj in E; [by subst|apply HR; constructor|set_solver].
Qed.

Lemma gpt_notin (ids : list Z) j : (forall i, i ∈ ids -> 0 <= i < 65535) -> 0 <= j < 65535 -> j ∉ ids -> gpt j ∉ gpt <$> ids.
Proof. intros HR Hj HN (i & E & Hi)%list_elem_of_fmap. apply gpt_inj in E; [by subst|done|by apply HR]. Qed.

Lemma points_gpt (ids : list Z) : (fun i => u16 (i + 1)) <$> ids = gv <$> (gpt <$> ids).
Proof. rewrite <- list_fmap_compose. done. Qed.

Section code.
Context (n : Z) (cells : list Cell) (Hn : 0 < n < 32768) (HL : len cells = n).

(** The polynomial of a word: its values at the original points. *)
Definition value (k : Z) (x : GF) : GF := gw (cells !!! Z.to_nat (gv x - 1)) k.
Definition curve (k : Z) (x : GF) : GF := interpolate (gpt <$> seqZ 0 n) (value k) x.

Lemma originals_NoDup : NoDup (gpt <$> seqZ 0 n).
Proof. apply gpt_NoDup; [apply NoDup_seqZ|]. intros i. rewrite elem_of_seqZ. lia. Qed.

Lemma curve_original i k : 0 <= i < n -> curve k (gpt i) = gw (cells !!! Z.to_nat i) k.
Proof.
  intros Hi. unfold curve. rewrite (Lagrange.interpolate_at _ _ _ _ _ _ _ _ GF_field).
  - unfold value. rewrite gpt_gv by lia. by replace (i + 1 - 1) with i by lia.
  - apply originals_NoDup.
  - apply list_elem_of_fmap_2, elem_of_seqZ. lia.
Qed.

Lemma extend_length : length (ExtendBlob1D n cells) = Z.to_nat (2 * n).
Proof. unfold ExtendBlob1D. rewrite length_app, length_fmap, length_seqZ. unfold len in HL. lia. Qed.

Lemma extend_curve i c k : 0 <= k < 16 -> ExtendBlob1D n cells !! i = Some c -> gw c k = curve k (gpt (Z.of_nat i)).
Proof.
  intros Hk Hc. unfold ExtendBlob1D in Hc. unfold len in HL. apply lookup_app_Some in Hc as [Hc|[Hi Hc]].
  - pose proof (lookup_lt_Some _ _ _ Hc). rewrite curve_original by lia. by rewrite Nat2Z.id, (list_lookup_total_correct _ _ _ Hc).
  - rewrite list_lookup_fmap in Hc. apply fmap_Some in Hc as (j & Hj & ->). apply lookup_seqZ in Hj as [-> Hj].
    replace (u16 (n + (0 + Z.of_nat (i - length cells)) + 1)) with (gv (gpt (Z.of_nat i))) by (cbn; f_equal; lia).
    unfold points. rewrite points_gpt, evalAt_weighted; [|apply originals_NoDup|].
    + apply weighted_interpolate; [done|]. apply Forall2_fmap_l, Forall2_same_length_lookup.
      split; [rewrite length_seqZ; lia|]. intros m z c Hz Hm. apply lookup_seqZ in Hz as [-> Hz].
      unfold compose, value. rewrite gpt_gv by lia. replace (0 + Z.of_nat m + 1 - 1) with (Z.of_nat m) by lia.
      by rewrite Nat2Z.id, (list_lookup_total_correct _ _ _ Hm).
    + apply gpt_notin; [intros z; rewrite elem_of_seqZ; lia|lia|]. rewrite elem_of_seqZ. lia.
Qed.

(** ** Recovery *)

Lemma available_spec (mask : list bool) i : i ∈ available mask <-> 0 <= i /\ mask !! Z.to_nat i = Some true.
Proof.
  unfold available. rewrite list_elem_of_fmap. split.
  - intros ([j b] & -> & [Hb Hz]%list_elem_of_filter). cbn in Hb. subst b.
    apply list_elem_of_lookup in Hz as [m Hm]. apply lookup_zip_with_Some in Hm as (? & ? & [= <- <-] & H1 & H2).
    apply lookup_seqZ in H1 as [-> _]. cbn [fst]. split; [lia|]. by rewrite Z.add_0_l, Nat2Z.id.
  - intros [H0 Hi]. exists (i, true). split; [done|]. apply list_elem_of_filter. split; [done|].
    apply list_elem_of_lookup. exists (Z.to_nat i). apply lookup_zip_with_Some. exists i, true.
    split_and!; [done| |done]. apply lookup_seqZ. pose proof (lookup_lt_Some _ _ _ Hi). unfold len. lia.
Qed.

Lemma available_NoDup (mask : list bool) : NoDup (available mask).
Proof.
  unfold available. assert (HS : forall l : list (Z * bool), NoDup l.*1 -> NoDup (filter (fun p => p.2 = true) l).*1).
  { induction l as [|[i b] l IH]; [done|]. cbn [fmap list_fmap fst]. intros [Hi HN]%list.NoDup_cons.
    rewrite filter_cons. destruct (decide _); [|by apply IH]. cbn [fmap list_fmap fst]. constructor; [|by apply IH].
    intros ([j c] & -> & [_ Hj]%list_elem_of_filter)%list_elem_of_fmap. apply Hi. by apply (list_elem_of_fmap_2 fst _ (j, c)). }
  apply HS. rewrite fst_zip by (unfold len; rewrite length_seqZ; lia). apply NoDup_seqZ.
Qed.

Section recovery.
Context (extended : list Cell) (mask : list bool).
Context (HE : len extended = 2 * n) (HM : len mask <= 2 * n) (HA : n <= len (available mask)).
Context (HG : forall i, mask !! i = Some true -> extended !! i = ExtendBlob1D n cells !! i).

Abbreviation ids := (take (Z.to_nat n) (available mask)).

Lemma mask_length : n <= len mask.
Proof.
  unfold available, len in *. rewrite length_fmap in HA.
  pose proof (length_filter (fun p => p.2 = true) (zip (seqZ 0 (Z.of_nat (length mask))) mask)).
  rewrite length_zip_with in *. lia.
Qed.

Lemma ids_available i : i ∈ ids -> 0 <= i < 2 * n /\ mask !! Z.to_nat i = Some true.
Proof.
  intros (m & Hm & _)%elem_of_take. apply list_elem_of_lookup_2 in Hm as Hi.
  apply available_spec in Hi as [H0 Hi]. pose proof (lookup_lt_Some _ _ _ Hi). unfold len in HM. split; [lia|done].
Qed.

Lemma ids_points : NoDup (gpt <$> ids) /\ length ids = Z.to_nat n.
Proof.
  split; [apply gpt_NoDup; [apply sublist_NoDup with (available mask); [apply available_NoDup|apply sublist_take]|]|].
  - intros i [Hi _]%ids_available. lia.
  - rewrite length_take. unfold len in HA. lia.
Qed.

Lemma available_cells : exists acells, mapM (fun i => extended !! Z.to_nat i) ids = Some acells /\
  forall k, 0 <= k < 16 -> Forall2 (fun x c => gw c k = curve k x) (gpt <$> ids) acells.
Proof.
  destruct (mapM_is_Some_2 (fun i => extended !! Z.to_nat i) ids) as [acells HC].
  { apply Forall_forall. intros i [Hi _]%list_elem_of_In%ids_available. apply lookup_lt_is_Some. unfold len in HE. lia. }
  exists acells. split; [done|]. intros k Hk. apply Forall2_fmap_l.
  apply mapM_Some in HC. apply Forall2_same_length_lookup_2; [by eapply Forall2_length|].
  intros m i c Hi Hc. pose proof (Forall2_lookup_lr _ _ _ _ _ _ HC Hi Hc) as HX.
  apply list_elem_of_lookup_2, ids_available in Hi as [Hr Hi].
  cbn beta in HX. rewrite HG in HX by done. unfold compose. rewrite (extend_curve _ _ _ Hk HX). by rewrite Z2Nat.id by lia.
Qed.

Lemma recover_cell acells j : 0 <= j < n -> mask !! Z.to_nat j = Some false ->
  (forall k, 0 <= k < 16 -> Forall2 (fun x c => gw c k = curve k x) (gpt <$> ids) acells) ->
  let xs := (fun i => u16 (i + 1)) <$> ids in
  recoverLoop (u16 (j + 1)) (numAt xs (u16 (j + 1))) (zero_array 32) (zip acells (zip xs (denoms xs))) =
  inr (cells !!! Z.to_nat j).
Proof.
  intros Hj HF HC xs. unfold xs. rewrite points_gpt. change (u16 (j + 1)) with (gv (gpt j)).
  destruct ids_points as [HN HLen].
  rewrite recoverLoop_weighted; [|done|]; cycle 1.
  { apply gpt_notin; [intros i [Hi _]%ids_available; lia|lia|]. intros [_ Hi]%ids_available. congruence. }
  f_equal. apply cell_ext. intros k Hk. rewrite (weighted_interpolate _ _ _ (curve k)) by auto.
  etransitivity; [|by apply curve_original]. apply (Lagrange.interpolate_again _ _ _ _ _ _ _ _ GF_field); [done|].
  rewrite !length_fmap, HLen, length_seqZ. lia.
Qed.

Lemma recoverAll_ok acells suffix j : 0 <= j -> suffix = drop (Z.to_nat j) (take (Z.to_nat n) mask) ->
  (forall k, 0 <= k < 16 -> Forall2 (fun x c => gw c k = curve k x) (gpt <$> ids) acells) ->
  recoverAll ((fun i => u16 (i + 1)) <$> ids) acells extended j suffix = Ok (drop (Z.to_nat j) cells).
Proof.
  intros Hj Hs HC. pose proof mask_length as HLM.
  unfold len in *. revert j Hj Hs. induction suffix as [|b suffix IH]; intros j Hj Hs; cbn [recoverAll].
  - rewrite drop_ge; [done|]. apply (f_equal length) in Hs. rewrite length_drop, length_take in Hs. cbn in Hs. lia.
  - assert (Hb : take (Z.to_nat n) mask !! Z.to_nat j = Some b).
    { rewrite <- (Nat.add_0_r (Z.to_nat j)), <- lookup_drop, <- Hs. done. }
    rewrite (drop_S _ _ _ Hb) in Hs. injection Hs as Hs. replace (S (Z.to_nat j)) with (Z.to_nat (j + 1)) in Hs by lia.
    apply lookup_take_Some in Hb as [Hb Hjn]. rewrite IH; [|lia|done].
    assert (HD : drop (Z.to_nat j) cells = cells !!! Z.to_nat j :: drop (Z.to_nat (j + 1)) cells).
    { replace (Z.to_nat (j + 1)) with (S (Z.to_nat j)) by lia. apply drop_S, list_lookup_lookup_total_lt. lia. }
    rewrite HD. destruct b.
    + rewrite HG by done. unfold ExtendBlob1D. rewrite lookup_app_l by lia.
      by rewrite (list_lookup_lookup_total_lt cells) by lia.
    + rewrite recover_cell by (done || lia). done.
Qed.

Lemma recover_ok : RecoverBlob1D n extended mask = Ok cells.
Proof.
  unfold RecoverBlob1D. rewrite (proj2 (Z.ltb_ge _ _)) by done.
  destruct (forallb id _) eqn:EF.
  - f_equal. unfold len in *. apply list_eq_same_length with (Z.to_nat n); [lia|rewrite length_take; lia|].
    intros i x y Hi Hx Hy. apply lookup_take_Some in Hx as [Hx _]. rewrite HG in Hx.
    + unfold ExtendBlob1D in Hx. rewrite lookup_app_l in Hx by lia. congruence.
    + pose proof mask_length as HLM. unfold len in HLM. destruct (lookup_lt_is_Some_2 mask i ltac:(lia)) as [b Hb]. rewrite Hb. f_equal.
      rewrite forallb_forall in EF. apply (EF b), list_elem_of_In, list_elem_of_lookup. exists i.
      apply lookup_take_Some. by split.
  - destruct available_cells as (acells & HMM & HC). rewrite HMM.
    rewrite recoverAll_ok; [by rewrite drop_0|lia|by rewrite drop_0|done].
Qed.
End recovery.
End code.

End ErasureSpec.
