(* ===== verification/ErasureTheorems.v ===== *)
(** * Theorems about the erasure code

    The arithmetic is that of a field, any half of the cells gives the blob back,
    the sparse matrix is the full one, and what recovery by columns does not do. *)

From Stdlib Require Import ZArith Lia.
From Stdlib.Strings Require Import Byte.
From stdpp Require Import base list sets strings numbers.
From S2P Require Import Prelude Gf16 Lagrange Erasure ErasureSpec.

Import Gf16 Erasure ErasureSpec.

(** C16: the table-driven arithmetic of GF(2^16) is that of polynomials over GF(2)
    modulo x^16 + x^12 + x^3 + x + 1: the product is the product of polynomials,
    and division and inversion undo it. Division fails exactly when the divisor is
    zero and the dividend is not (zero by zero gives zero without an error),
    inversion exactly for zero. Powers with exponents below 2^47, where Go's int
    does not wrap, are repeated products, with negative exponents for the inverse;
    powers of zero are zero but for the exponent zero. *)
Theorem gf16_exact (a b e : Z) (Ha : elem a) (Hb : elem b) (He : 0 <= e < 2 ^ 47) :
  gf16Mul a b = pmul a b /\
  (b <> 0 -> exists c, gf16Div a b = (c, None) /\ elem c /\ pmul c b = a) /\
  (a <> 0 -> gf16Div a 0 = (0, Some ErrGF16DivisionByZero)) /\ gf16Div 0 0 = (0, None) /\
  (a <> 0 -> exists c, gf16Inv a = (c, None) /\ elem c /\ pmul c a = 1) /\ gf16Inv 0 = (0, Some ErrGF16InverseOfZero) /\
  (a <> 0 -> gf16Pow a e = Nat.iter (Z.to_nat e) (pmul a) 1 /\ pmul (gf16Pow a (- e)) (gf16Pow a e) = 1) /\
  (e <> 0 -> gf16Pow 0 e = 0 /\ gf16Pow 0 (- e) = 0).
Proof.
  split; [by apply gf16Mul_pmul|]. split; [|split; [|split; [done|split; [|split; [done|split]]]]].
  - intros H0. rewrite gf16Div_spec by done. destruct (gf16Inv_spec b Hb H0) as (c & -> & Hc & HI). cbn [fst].
    eexists. split; [done|]. split; [by apply pmul_elem|]. rewrite <- pmul_assoc, HI by done. by apply pmul_1_r.
  - intros H0. unfold gf16Div. by rewrite (proj2 (Z.eqb_neq _ _) H0).
  - intros H0. by apply gf16Inv_spec.
  - intros H0. by apply gf16Pow_spec.
  - intros H0. unfold gf16Pow. by rewrite (proj2 (Z.eqb_neq e 0)), (proj2 (Z.eqb_neq (- e) 0)) by lia.
Qed.

Lemma gf16_exact_witness : gf16Mul 300 500 = 54011 /\ gf16Mul 300 500 = pmul 300 500.
Proof.
  assert (H : gf16Mul 300 500 = pmul 300 500) by (apply (gf16_exact 300 500 1); done).
  split.
  - rewrite H.
    vm_compute.
    reflexivity.
  - exact H.
Defined.

(** C15: any half of the cells of an extended blob gives the blob back: whatever
    became of the other cells, recovery from a mask with at least [n] available
    cells that are as they were extended returns the original cells. *)
Theorem any_half_recovers (n : Z) (cells extended : list Cell) (mask : list bool)
    (Hn : 0 < n < 32768) (HL : len cells = n) (HE : len extended = 2 * n) (HM : len mask <= 2 * n)
    (HA : n <= len (available mask))
    (HG : forall i, mask !! i = Some true -> extended !! i = ExtendBlob1D n cells !! i) :
  RecoverBlob1D n extended mask = Ok cells.
Proof. by apply recover_ok. Qed.

Module Sample.
Definition cells : list Cell := [cellOf [x01; x02]; cellOf [xff]; cellOf [x07]].
Definition mask : list bool := [false; true; false; true; true; false].
Definition damaged : list Cell :=
  zip_with (fun (b : bool) c => if b then c else zero_array 32) mask (ExtendBlob1D 3 cells).
End Sample.

Lemma any_half_recovers_witness : RecoverBlob1D 3 Sample.damaged Sample.mask = Ok Sample.cells.
Proof.
  apply (any_half_recovers 3 Sample.cells); [lia|done|done|vm_compute; done|vm_compute; done|].
  intros i Hi. unfold Sample.damaged. destruct (ExtendBlob1D 3 Sample.cells !! i) as [c|] eqn:E.
  - apply lookup_zip_with_Some. by exists true, c.
  - apply lookup_ge_None in E. apply lookup_ge_None. rewrite length_zip_with.
    etransitivity; [apply Nat.le_min_r|exact E].
Defined.

(** ** Columns *)

Lemma cellOf_bytes l : length l = 32%nat -> bytes_of (cellOf l) = l.
Proof.
  intros HL. change (copy (replicate 32 x00) l = l). unfold copy. rewrite length_replicate, take_ge by lia.
  rewrite drop_ge; [apply app_nil_r|]. rewrite length_replicate. lia.
Qed.

Lemma blob_roundtrip n (blob : Blob) : 0 <= n -> len blob = n * CellSize -> CellsToBlob (BlobToCells n blob) = blob.
Proof.
  intros Hn HL. unfold CellsToBlob, BlobToCells, CellSize, len in *.
  assert (HP : forall m : nat, (Z.of_nat m <= n) ->
    mjoin (bytes_of <$> ((fun i => cellOf (sub blob (i * 32) ((i + 1) * 32))) <$> seqZ 0 (Z.of_nat m))) =
    take (Z.to_nat (Z.of_nat m * 32)) blob).
  { induction m as [|m IH]; intros Hm; [done|].
    rewrite Nat2Z.inj_succ, <- Z.add_1_r, seqZ_app, !fmap_app, join_app, IH by lia. cbn [seqZ fmap list_fmap].
    change (seqZ (0 + Z.of_nat m) 1) with [0 + Z.of_nat m]. cbn [fmap list_fmap]. rewrite cellOf_bytes.
    - cbn. rewrite app_nil_r. unfold sub.
      replace (Z.to_nat ((Z.of_nat m + 1) * 32)) with (Z.to_nat (Z.of_nat m * 32) + 32)%nat by lia.
      rewrite <- take_take_drop. do 2 f_equal. lia.
    - unfold sub. rewrite length_take, length_drop. lia. }
  specialize (HP (Z.to_nat n) ltac:(lia)). rewrite Z2Nat.id in HP by done. rewrite HP. apply take_ge. lia.
Qed.

Lemma blob_cells n (blob : Blob) : 0 <= n -> len (BlobToCells n blob) = n.
Proof. intros Hn. unfold BlobToCells, len. rewrite length_fmap, length_seqZ. lia. Qed.

(** A matrix of blobs gives the blobs back when half of its rows are available:
    if the original columns are as they were extended in these rows, recovery
    returns the blobs. *)
Theorem rows_recover_blobs (n : Z) (blobs : list Blob) (matrix damaged : list (list Cell)) (colMask rowMask : list bool)
    (Hn : 0 < n < 32768) (HB : Forall (fun b => len b = n * CellSize) blobs)
    (HX : ExtendBlobs2D n blobs = Ok matrix)
    (HD : Forall2 (fun c d => len d = 2 * n /\ forall i, rowMask !! i = Some true -> d !! i = c !! i)
            (take (length blobs) matrix) (take (length blobs) damaged))
    (HC : len blobs <= len (available colMask)) (HM : len rowMask <= 2 * n) (HA : n <= len (available rowMask)) :
  RecoverBlobs2D n damaged colMask rowMask (len blobs) = Ok blobs.
Proof.
  unfold ExtendBlobs2D in HX. unfold RecoverBlobs2D.
  destruct (_ || _) eqn:EB in HX; [done|]. apply orb_false_iff in EB as [E0%Z.eqb_neq E6%Z.ltb_ge].
  pose proof (len_nonneg blobs). rewrite (proj2 (Z.leb_gt _ _)), (proj2 (Z.ltb_ge _ _) E6) by lia. cbn [orb].
  rewrite (proj2 (Z.ltb_ge _ _) HC), (proj2 (Z.ltb_ge _ _) HA). unfold len at 1. rewrite Nat2Z.id.
  assert (HT : take (length blobs) matrix = (fun b => ExtendBlob1D n (BlobToCells n b)) <$> blobs).
  { destruct (len blobs =? 1); injection HX as <-; apply take_app_length'; by rewrite length_fmap. }
  rewrite HT in HD. clear - Hn HB HD HM HA. revert HD. generalize (take (length blobs) damaged). intros columns HD.
  apply Forall2_fmap_l in HD. induction HD as [|b d blobs columns [HL HG] HD IH]; [done|].
  apply list.Forall_cons in HB as [Hb HB]. cbn [recoverColumns].
  rewrite (recover_ok n (BlobToCells n b)) by (done || apply blob_cells; lia).
  rewrite IH by done. by rewrite blob_roundtrip by (done || lia).
Qed.

Module Columns.
Definition blobs : list Blob := [replicate 64 x01; replicate 64 x02].
Definition matrix : list (list Cell) := match ExtendBlobs2D 2 blobs with Ok m => m | _ => [] end.
End Columns.

Lemma rows_recover_blobs_witness :
  RecoverBlobs2D 2 Columns.matrix [true; true] [false; false; true; true] 2 = Ok Columns.blobs.
Proof.
  apply (rows_recover_blobs 2 Columns.blobs Columns.matrix Columns.matrix [true; true] [false; false; true; true]);
    [lia|by repeat constructor|by unfold Columns.matrix| |vm_compute; done..].
  change (take _ Columns.matrix) with ((fun b => ExtendBlob1D 2 (BlobToCells 2 b)) <$> Columns.blobs).
  apply Forall2_fmap_2, Forall_Forall2_diag. repeat constructor; done.
Defined.

(** Recovery by columns does not use the parity columns: the mask of columns is
    counted and not read, and what comes back are the original columns as they
    stand. A column that was lost is returned as it was received, whatever the
    columns that could restore it. *)
Theorem lost_column_not_restored (n m : Z) (matrix : list (list Cell)) (colMask rowMask : list bool)
    (Hn : 0 <= n) (Hm : 0 < m <= MaxBlobColumns) (HC : m <= len (available colMask)) (HR : n <= len (available rowMask))
    (HF : forallb id (take (Z.to_nat n) rowMask) = true) :
  RecoverBlobs2D n matrix colMask rowMask m =
  Ok ((fun column => CellsToBlob (take (Z.to_nat n) column)) <$> take (Z.to_nat m) matrix).
Proof.
  unfold RecoverBlobs2D. rewrite (proj2 (Z.leb_gt _ _)), (proj2 (Z.ltb_ge MaxBlobColumns _)) by lia. cbn [orb].
  rewrite (proj2 (Z.ltb_ge _ _) HC), (proj2 (Z.ltb_ge _ _) HR).
  generalize (take (Z.to_nat m) matrix). intros columns. induction columns as [|column columns IH]; [done|].
  cbn [recoverColumns fmap list_fmap]. unfold RecoverBlob1D at 1. by rewrite (proj2 (Z.ltb_ge _ _) HR), HF, IH.
Qed.

Module Lost.
(** The first column of a matrix of two blobs is lost, all others are there. *)
Definition matrix : list (list Cell) := replicate 4 (zero_array 32) :: tail Columns.matrix.
Definition colMask : list bool := false :: replicate 11 true.
Definition rowMask : list bool := replicate 4 true.
End Lost.

Lemma lost_column_not_restored_witness :
  RecoverBlobs2D 2 Lost.matrix Lost.colMask Lost.rowMask 2 = Ok [replicate 64 x00; replicate 64 x02].
Proof.
  rewrite (lost_column_not_restored 2 2 Lost.matrix Lost.colMask Lost.rowMask); [|lia|done|vm_compute; done..].
  vm_compute. reflexivity.
Defined.

(** ** The sparse matrix *)

Lemma foldl_same {A B} (f g : A -> B -> A) a l : (forall a b, f a b = g a b) -> foldl f a l = foldl g a l.
Proof. intros H. revert a. induction l as [|b l IH]; intros a; [done|]. cbn. by rewrite H, IH. Qed.

Lemma zip_weights (columns : list (list Cell)) y :
  zip columns (columnWeights (len columns) y) =
  (fun '(j, column) =>
     let xj := u16 (j + 1) in
     (column, weight (numAt (points (len columns)) y) (Z.lxor y xj) (denomAt (points (len columns)) j xj)))
  <$> zip (seqZ 0 (len columns)) columns.
Proof.
  unfold columnWeights, denoms. assert (HP : len (points (len columns)) = len columns).
  { unfold points, len. rewrite length_fmap, length_seqZ. lia. }
  rewrite HP. unfold points at 2 4. generalize (denomAt (points (len columns))) (numAt (points (len columns)) y).
  intros dn num. generalize (seqZ 0 (len columns)). clear HP. intros js. revert js.
  induction columns as [|column columns IH]; intros [|j js]; cbn; [done..|]. f_equal. apply IH.
Qed.

Lemma parity_cell (columns : list (list Cell)) r col : len columns <> 0 -> len columns <> 1 ->
  computeParityCell (mkSparse columns (len columns)) r col = parityRow columns (columnWeights (len columns) (u16 (col + 1))) r.
Proof.
  intros H0 H1. unfold computeParityCell, parityRow. cbn [OriginalCount OriginalColumns].
  rewrite (proj2 (Z.eqb_neq _ _) H0), (proj2 (Z.eqb_neq _ _) H1), zip_weights, foldl_fmap.
  apply foldl_same. by intros a [j c].
Qed.

Lemma rows_of (column : list Cell) k : length column = Z.to_nat k -> row column <$> seqZ 0 k = column.
Proof.
  intros HL. apply list_eq_same_length with (Z.to_nat k); [done|by rewrite length_fmap, length_seqZ|].
  intros i x y Hi Hx Hy. rewrite list_lookup_fmap in Hx. apply fmap_Some in Hx as (j & Hj & ->).
  apply lookup_seqZ in Hj as [-> _]. unfold row. rewrite Z.add_0_l, Nat2Z.id. by apply list_lookup_total_correct.
Qed.

Lemma fmap_const {A B} (f : A -> B) b l : (forall a, f a = b) -> f <$> l = replicate (length l) b.
Proof. intros H. induction l as [|a l IH]; [done|]. cbn. by rewrite H, IH. Qed.

Lemma fmap_seqZ_total {B} `{!Inhabited B} (f : Z -> B) m k (i : nat) z :
  z = m + Z.of_nat i -> Z.of_nat i < k -> (f <$> seqZ m k) !!! i = f z.
Proof.
  intros -> Hi. apply list_lookup_total_correct. rewrite list_lookup_fmap.
  by rewrite (proj2 (lookup_seqZ m k i (m + Z.of_nat i))) by lia.
Qed.

Lemma sparse_full n (blobs : list Blob) (matrix : list (list Cell)) : 0 < n -> ExtendBlobs2D n blobs = Ok matrix ->
  NewSparseBlobMatrix matrix (len blobs) =
    mkSparse ((fun b => ExtendBlob1D n (BlobToCells n b)) <$> blobs) (len blobs) /\
  ToBlobMatrixExtended n (NewSparseBlobMatrix matrix (len blobs)) = matrix /\ len matrix = MaxBlobColumnsExt /\
  Forall (fun column => len column = 2 * n) matrix.
Proof.
  intros Hn HX. unfold ExtendBlobs2D in HX. destruct (_ || _) eqn:EB in HX; [done|].
  apply orb_false_iff in EB as [E0%Z.eqb_neq E6%Z.ltb_ge]. pose proof (len_nonneg blobs).
  set (columns := (fun b => ExtendBlob1D n (BlobToCells n b)) <$> blobs) in *.
  assert (HL : len columns = len blobs) by (unfold columns, len; by rewrite length_fmap).
  assert (HC : Forall (fun column => len column = 2 * n) columns).
  { apply Forall_forall. intros c (b & -> & _)%list_elem_of_In%list_elem_of_fmap. unfold len at 1, ExtendBlob1D.
    rewrite length_app, length_fmap, length_seqZ. pose proof (blob_cells n b). unfold len in *. lia. }
  assert (HS : forall rest, matrix = columns ++ rest -> NewSparseBlobMatrix matrix (len blobs) = mkSparse columns (len blobs)).
  { intros rest ->. unfold NewSparseBlobMatrix, MaxBlobColumnsExt, MaxBlobColumns in *.
    rewrite (proj2 (Z.ltb_ge (len blobs) 0)), (proj2 (Z.ltb_ge (6 * 2) _)) by lia. f_equal. apply take_app_length'.
    unfold len in *. lia. }
  unfold MaxBlobColumnsExt, MaxBlobColumns in *.
  destruct (Z.eqb_spec (len blobs) 1) as [E1|E1]; injection HX as <-; rewrite (HS _ eq_refl); (split; [done|]);
    unfold ToBlobMatrixExtended; cbn [OriginalColumns OriginalCount]; unfold MaxBlobColumnsExt, MaxBlobColumns.
  - clearbody columns. destruct columns as [|column rest]; [unfold len in *; cbn in HL; lia|].
    apply list.Forall_cons in HC as [H1 HC]. rewrite E1. split; [|split].
    + f_equal. rewrite (fmap_const _ column); [by rewrite length_seqZ|]. intros col. unfold computeParityCell.
      cbn [OriginalColumns OriginalCount]. apply rows_of. unfold len in H1. lia.
    + rewrite len_app, HL, E1. done.
    + apply Forall_app_2; [by constructor|]. by repeat constructor.
  - split; [|split].
    + f_equal. apply list_fmap_ext. intros i col _. unfold parityColumn. apply list_fmap_ext. intros j r _.
      rewrite <- HL. apply parity_cell; lia.
    + rewrite len_app, HL. unfold len at 2. rewrite length_fmap, length_seqZ. lia.
    + apply Forall_app_2; [done|]. apply Forall_fmap, Forall_true. intros col. unfold compose, parityColumn, len.
      rewrite length_fmap, length_seqZ. lia.
Qed.

(** C17: the sparse matrix is the full one: it keeps the original columns only, and
    rebuilding it, or reading any of its cells, gives what the extension of the
    blobs computed; the memory it takes is that of the original columns. *)
Theorem sparse_matrix_refines (n : Z) (blobs : list Blob) (matrix : list (list Cell)) (r col : Z)
    (Hn : 0 < n) (HX : ExtendBlobs2D n blobs = Ok matrix) (Hr : 0 <= r < 2 * n) (Hc : 0 <= col < MaxBlobColumnsExt) :
  let m := NewSparseBlobMatrix matrix (len blobs) in
  ToBlobMatrixExtended n m = matrix /\ GetCell m r col = Ok (row (matrix !!! Z.to_nat col) r) /\
  MemoryBytes n m = len blobs * (2 * n) * CellSize.
Proof.
  intros m. destruct (sparse_full n blobs matrix Hn HX) as (HS & HF & HLM & HC). fold m in HS, HF.
  split; [done|]. split; [|rewrite HS; unfold MemoryBytes, len; cbn; by rewrite length_fmap].
  rewrite <- HF at 1. rewrite HS in *. unfold GetCell, ToBlobMatrixExtended. cbn [OriginalColumns OriginalCount].
  set (columns := (fun b => ExtendBlob1D n (BlobToCells n b)) <$> blobs) in *.
  assert (HL : len blobs = Z.of_nat (length columns)) by (unfold columns; by rewrite length_fmap).
  assert (HR : forall column, column ∈ columns -> (0 <=? r) && (r <? len column) = true).
  { intros column Hin. rewrite <- HF in HC. apply list.Forall_app in HC as [HC _].
    rewrite list.Forall_forall in HC. rewrite (HC _ Hin), !andb_true_iff, Z.leb_le, Z.ltb_lt. lia. }
  destruct (Z.ltb_spec col (len blobs)).
  - rewrite (proj2 (Z.leb_le _ _)) by lia. rewrite lookup_total_app_l by lia.
    destruct (lookup_lt_is_Some_2 columns (Z.to_nat col) ltac:(lia)) as [column E].
    rewrite E, HR by (by eapply list_elem_of_lookup_2). by rewrite (list_lookup_total_correct _ _ _ E).
  - rewrite (proj2 (forallb_forall _ _)) by (intros column Hin; by apply HR, list_elem_of_In).
    rewrite lookup_total_app_r by lia. rewrite (fmap_seqZ_total _ _ _ _ col) by lia.
    unfold row. by rewrite (fmap_seqZ_total _ _ _ _ r) by lia.
Qed.

Lemma sparse_matrix_refines_witness :
  let m := NewSparseBlobMatrix Columns.matrix 2 in
  ToBlobMatrixExtended 2 m = Columns.matrix /\ GetCell m 3 7 = Ok (row (Columns.matrix !!! 7%nat) 3) /\ MemoryBytes 2 m = 256.
Proof. apply (sparse_matrix_refines 2 Columns.blobs Columns.matrix 3 7); [lia|by unfold Columns.matrix|lia|done]. Defined.
