(* ===== verification/Election.v ===== *)
(** * The validator set and the stake-weighted choice of a proposer

    Package consensus, file election.go: the validators with their address index,
    total and cumulative stakes, the operations that add, remove, deactivate and
    penalise validators, and the two searches that choose a proposer. *)

From Stdlib Require Import ZArith Lia.
From Stdlib.Strings Require Import Byte.
From stdpp Require Import base list countable gmap strings numbers sorting.
From S2P Require Import Prelude Stack.

Module Election.

Definition ErrNoValidators : error := ErrErrorf "no validators available".
Definition ErrNoActiveValidators : error := ErrErrorf "no active validators".
Definition ErrZeroTotalStake : error := ErrErrorf "total stake is zero".
Definition ErrInvalidVRFOutput : error := ErrErrorf "invalid VRF output".

Definition MaxValidators : Z := 250000.

Record Validator : Type := mkValidator {
  v_Address : Address;
  v_Stake : Z;
  v_Active : bool;
  v_Commission : Z;
  v_PublicKeyBytes : list byte;
  v_KyberPublicKeyBytes : list byte;
}.

Definition set_Stake (x : Z) (v : Validator) : Validator :=
  mkValidator (v_Address v) x (v_Active v) (v_Commission v) (v_PublicKeyBytes v) (v_KyberPublicKeyBytes v).
Definition set_Active (x : bool) (v : Validator) : Validator :=
  mkValidator (v_Address v) (v_Stake v) x (v_Commission v) (v_PublicKeyBytes v) (v_KyberPublicKeyBytes v).
Definition set_PublicKeyBytes (x : list byte) (v : Validator) : Validator :=
  mkValidator (v_Address v) (v_Stake v) (v_Active v) (v_Commission v) x (v_KyberPublicKeyBytes v).

(** [validatorMap] holds pointers to the entries of [validators]; its keys are
    what is kept of it, since the entry of a key is the validator with that address. *)
Record ValidatorSet : Type := mkValidatorSet {
  vs_validators : list Validator;
  vs_totalStake : Z;
  vs_cumulativeStakes : list Z;
  vs_validatorMap : gset Address;
  vs_addrIndexMap : gmap Address Z;
}.

(** ** Stakes *)

(** The running sums of [stake] over the validators. *)
Fixpoint runningSums (stake : Validator -> Z) (cumulative : Z) (l : list Validator) : list Z :=
  match l with
  | [] => []
  | v :: l => let cumulative := cumulative + stake v in cumulative :: runningSums stake cumulative l
  end.

Definition computeCumulativeStakes (l : list Validator) : list Z := runningSums v_Stake 0 l.

Definition activeStake (v : Validator) : Z := if v_Active v then v_Stake v else 0.

Definition recomputeCumulativeStakesLocked (vs : ValidatorSet) : ValidatorSet :=
  let sums := runningSums activeStake 0 (vs_validators vs) in
  mkValidatorSet (vs_validators vs) (default 0 (last sums)) sums (vs_validatorMap vs) (vs_addrIndexMap vs).

(** ** Construction *)

Fixpoint compareBytes (a b : list byte) : Z :=
  match a, b with
  | x :: a, y :: b => if b2z x <? b2z y then -1 else if b2z y <? b2z x then 1 else compareBytes a b
  | _, _ => 0
  end.

Definition compareAddresses (a b : Address) : Z := compareBytes (bytes_of a) (bytes_of b).

Definition addressOrder (v w : Validator) : Prop := compareAddresses (v_Address v) (v_Address w) <= 0.

#[export] Instance addressOrder_dec v w : Decision (addressOrder v w).
Proof. unfold addressOrder. apply _. Defined.

(** [for i, v := range l { m[v.Address] = i }], from position [i]. *)
Definition indexFrom (i : Z) (l : list Validator) (m : gmap Address Z) : gmap Address Z :=
  foldl (fun m '(j, v) => <[v_Address v := j]> m) m (zip (seqZ i (len l)) l).

(** A nil entry of the argument is [None]; a validator with a nil stake has stake 0. *)
Definition NewValidatorSet (validators : list (option Validator)) : res ValidatorSet :=
  if len validators =? 0 then Err ErrNoValidators else
  let kept := filter (fun v => Is_true (v_Active v)) (omap id validators) in
  if len kept =? 0 then Err ErrNoActiveValidators else
  let sorted := merge_sort addressOrder kept in
  Ok (mkValidatorSet sorted (foldr (fun v t => v_Stake v + t) 0 kept) (computeCumulativeStakes sorted)
        (list_to_set (v_Address <$> kept)) (indexFrom 0 sorted ∅)).

(** ** Queries *)

Definition Size (vs : ValidatorSet) : Z := len (vs_validators vs).

Definition GetValidatorIndex (addr : Address) (vs : ValidatorSet) : Z := default (-1) (vs_addrIndexMap vs !! addr).

Definition GetValidatorByIndex (idx : Z) (vs : ValidatorSet) : option Validator :=
  if idx <? 0 then None else vs_validators vs !! Z.to_nat idx.

(** ** Updates *)

(** The address index points into [validators] (an invariant of the set), so no
    access by an index it gives is out of range. *)

Definition setValidator (idx : Z) (v : Validator) (vs : ValidatorSet) : ValidatorSet :=
  mkValidatorSet (<[Z.to_nat idx := v]> (vs_validators vs)) (vs_totalStake vs) (vs_cumulativeStakes vs)
    (vs_validatorMap vs) (vs_addrIndexMap vs).

Definition AddValidator (addr : Address) (stake : Z) (vs : ValidatorSet) : bool * ValidatorSet :=
  match vs_addrIndexMap vs !! addr with
  | Some idx =>
      match GetValidatorByIndex idx vs with
      | Some v => (false, recomputeCumulativeStakesLocked (setValidator idx (set_Active true (set_Stake stake v)) vs))
      | None => (false, vs)
      end
  | None =>
      if MaxValidators <=? len (vs_validators vs) then (false, vs) else
      let v := mkValidator addr stake true 0 [] [] in
      (true, recomputeCumulativeStakesLocked
        (mkValidatorSet (vs_validators vs ++ [v]) (vs_totalStake vs + stake) (vs_cumulativeStakes vs)
           ({[addr]} ∪ vs_validatorMap vs) (<[addr := len (vs_validators vs)]> (vs_addrIndexMap vs))))
  end.

Definition removeAt (idx : Z) (addr : Address) (vs : ValidatorSet) : ValidatorSet :=
  let rest := take (Z.to_nat idx) (vs_validators vs) ++ drop (S (Z.to_nat idx)) (vs_validators vs) in
  recomputeCumulativeStakesLocked
    (mkValidatorSet rest (vs_totalStake vs) (vs_cumulativeStakes vs) (vs_validatorMap vs ∖ {[addr]})
       (indexFrom idx (drop (Z.to_nat idx) rest) (delete addr (vs_addrIndexMap vs)))).

Definition RemoveValidatorByAddr (addr : Address) (vs : ValidatorSet) : bool * ValidatorSet :=
  match vs_addrIndexMap vs !! addr with
  | None => (false, vs)
  | Some idx => (true, removeAt idx addr vs)
  end.

Definition RemoveValidator (index : Z) (vs : ValidatorSet) : bool * ValidatorSet :=
  match GetValidatorByIndex index vs with
  | None => (false, vs)
  | Some removed => (true, removeAt index (v_Address removed) vs)
  end.

Definition DeactivateValidator (index : Z) (vs : ValidatorSet) : bool * ValidatorSet :=
  match GetValidatorByIndex index vs with
  | None => (false, vs)
  | Some v =>
      (true, if v_Active v then recomputeCumulativeStakesLocked (setValidator index (set_Active false v) vs) else vs)
  end.

(** The callback on a stake change is the economics layer's. *)
Definition ReduceStake (index : Z) (penalty : option Z) (vs : ValidatorSet) : bool * ValidatorSet :=
  match GetValidatorByIndex index vs, penalty with
  | Some v, Some penalty =>
      if penalty <=? 0 then (false, vs) else
      let newStake := v_Stake v - penalty in
      let newStake := if newStake <? 0 then 0 else newStake in
      (true, recomputeCumulativeStakesLocked (setValidator index (set_Stake newStake v) vs))
  | _, _ => (false, vs)
  end.

(** ** Choosing a proposer *)

(** The loop of the binary search, with fuel for its iterations. *)
Fixpoint searchLoop (fuel : nat) (sums : list Z) (point left right : Z) : res Z :=
  match fuel with
  | O => NoFuel
  | S fuel =>
      if left <? right then
        let mid := left + (right - left) / 2 in
        match sums !! Z.to_nat mid with
        | Some c => if c <=? point then searchLoop fuel sums point (mid + 1) right else searchLoop fuel sums point left mid
        | None => Panic
        end
      else Ok (if len sums <=? left then len sums - 1 else left)
  end.

Definition binarySearchValidator (point : Z) (sums : list Z) : res Z :=
  if len sums - 1 <? 0 then Ok 0 else searchLoop (S (length sums)) sums point 0 (len sums - 1).

Definition SelectProposer (vrfOutput : option Hash) (vs : ValidatorSet) : res Validator :=
  match vrfOutput with
  | None => Err ErrInvalidVRFOutput
  | Some value =>
      if len (vs_validators vs) =? 0 then Err ErrNoActiveValidators else
      if vs_totalStake vs =? 0 then Err ErrZeroTotalStake else
      match binarySearchValidator (array_to_Z value mod vs_totalStake vs) (vs_cumulativeStakes vs) with
      | Ok idx => match vs_validators vs !! Z.to_nat idx with Some v => Ok v | None => Panic end
      | Err e => Err e
      | Panic => Panic
      | NoFuel => NoFuel
      end
  end.

Fixpoint linearSearch (accumulated point : Z) (l : list Validator) : option Validator :=
  match l with
  | [] => None
  | v :: l =>
      let accumulated := accumulated + v_Stake v in
      if point <? accumulated then Some v else linearSearch accumulated point l
  end.

(** A total stake of zero is a division by zero. *)
Definition SelectProposerLinear (vrfOutput : option Hash) (vs : ValidatorSet) : res Validator :=
  match vrfOutput with
  | None => Err ErrInvalidVRFOutput
  | Some value =>
      match last (vs_validators vs) with
      | None => Err ErrNoActiveValidators
      | Some lastValidator =>
          if vs_totalStake vs =? 0 then Panic else
          Ok (default lastValidator (linearSearch 0 (array_to_Z value mod vs_totalStake vs) (vs_validators vs)))
      end
  end.

End Election.
