(* ===== verification/Qpos.v ===== *)
(** * The state of the proof-of-stake engine

    Package consensus: the QPOS record and its constants (block.go), slots and
    epochs, checkpoints, attestations, votes (voting.go), evidence (slashing.go)
    and the entries of the key registry (validator_session_keys.go). Maps with
    integer keys are finite maps; the wall clock is the argument [now]; what the
    engine calls outside the package is the record [Env]. *)

From Stdlib Require Import ZArith Lia.
From Stdlib.Strings Require Import Byte.
From stdpp Require Import base list countable gmap strings numbers sorting.
From S2P Require Import Prelude Stack Election.

Module Qpos.
Import Election.

(** ** Constants and errors *)

Definition SlotsPerEpoch : Z := 32.
Definition SlotDuration : Z := 12.
Definition MinAttestations : Z := 3.
Definition FinalityDelay : Z := 2.
Definition TargetCommitteeSize : Z := 128.
Definition MaxShuffleCacheSize : Z := 5.
Definition MaxEvidenceQueue : Z := 10000.
Definition MaxTrackedValidators : Z := 250000.
Definition MaxEvidencePerValidator : Z := 32.

Definition ErrSlotInPast : error := ErrErrorf "slot is in the past".
Definition ErrSlotTooFar : error := ErrErrorf "slot is too far in the future".
Definition ErrInvalidAttestation : error := ErrErrorf "invalid attestation".
Definition ErrDuplicateAttestation : error := ErrErrorf "duplicate attestation".
Definition ErrNotInCommittee : error := ErrErrorf "validator not in committee for this slot".
Definition ErrDoubleVote : error := ErrErrorf "double vote detected (slashable offense)".
Definition ErrSurroundVote : error := ErrErrorf "surround vote detected (slashable offense)".
Definition ErrValidatorSlashed : error := ErrErrorf "validator has been slashed".
Definition ErrValidatorPermanent : error := ErrErrorf "validator is permanently slashed and cannot be unjailed".
Definition ErrNetworkIDNotConfigured : error := ErrErrorf "attestation network ID not configured (must call SetAttestationNetworkID)".
Definition ErrValidatorNotActive : error := ErrErrorf "validator is not active".

(** [types.Hash{}]. *)
Definition zeroHash : Hash := zero_array 32.
Definition isZero (h : Hash) : bool := bool_decide (h = zeroHash).

(** ** Slots and epochs (block.go) *)

Definition SlotToEpoch (slot : Z) : Z := slot / SlotsPerEpoch.
Definition EpochStartSlot (epoch : Z) : Z := u64 (epoch * SlotsPerEpoch).

Definition ComputeMinAttestations (validatorCount : Z) : Z :=
  if validatorCount <=? 0 then MinAttestations else
  let min := (validatorCount + 1) / 2 in
  if min <? MinAttestations then MinAttestations else min.

(** ** Attestations and evidence *)

Record AttestationCheckpoint : Type := mkCheckpoint { cp_Epoch : Z; cp_Root : Hash }.

Record Attestation : Type := mkAttestation {
  att_Slot : Z;
  att_BeaconBlockRoot : Hash;
  att_Source : AttestationCheckpoint;
  att_Target : AttestationCheckpoint;
  att_ValidatorIndex : Z;
  att_Signature : list byte;
  att_KeyVersion : Z;
}.

Inductive VoteType : Set := VoteTypePrevote | VoteTypePrecommit | VoteTypeAttestation.

Record Vote : Type := mkVote {
  vote_Type : VoteType;
  vote_Height : Z;
  vote_Round : Z;
  vote_BlockHash : Hash;
  vote_ValidatorAddr : Address;
  vote_Signature : list byte;
  vote_SourceEpoch : Z;
  vote_TargetEpoch : Z;
  vote_SourceRoot : Hash;
  vote_TargetRoot : Hash;
  vote_KeyVersion : Z;
  vote_ValidatorIndex : Z;
}.

Inductive SlashingReason : Set :=
  | SlashingReasonDoubleSigning
  | SlashingReasonDowntime
  | SlashingReasonInvalidVRF
  | SlashingReasonSurroundVote
  | SlashingReasonDoubleVote
  | SlashingReasonOther (code : Z).

Record SlashingEvidence : Type := mkEvidence {
  ev_Reason : SlashingReason;
  ev_ValidatorAddr : Address;
  ev_Height : Z;
  ev_Vote1 : option Vote;
  ev_Vote2 : option Vote;
  ev_Timestamp : Z;
}.

Record SlashedEntry : Type := mkSlashed { sl_Epoch : Z; sl_Permanent : bool; sl_JailUntil : Z }.

(** An entry of the registry of session keys (validator_session_keys.go). *)
Record ValidatorKeyState : Type := mkKeyState {
  vk_SessionPubKey : option (list byte);
  vk_ActivationEpoch : Z;
  vk_PendingPubKey : option (list byte);
  vk_PendingEpoch : Z;
  vk_MasterAddress : Address;
  vk_Revoked : bool;
  vk_LastOpHeight : Z;
  vk_RotationCount : Z;
}.

Record finalizedCheckpointPin : Type := mkPin { pin_root : Hash; pin_slot : Z }.

#[export] Instance Checkpoint_eq_dec : EqDecision AttestationCheckpoint.
Proof. solve_decision. Defined.
#[export] Instance Attestation_eq_dec : EqDecision Attestation.
Proof. solve_decision. Defined.

(** ** The engine *)

(** The checkpoint handed to the persistence callback. *)
Definition Stored : Type := Z * Z * Hash * Hash.

(** What the engine calls: the process-wide network id and genesis time, the
    signature scheme, the hash, the hardened seed of an epoch and whether its
    absence stops the election, the persistence callback (does it succeed), the
    order in which a map of attestations and a set of block hashes are ranged
    over, and the four bytes left in a pooled buffer of the shuffle. *)
Record Env : Type := mkEnv {
  networkID : Z;
  genesisTime : Z;
  validPublicKey : list byte -> bool;
  verify : list byte -> list byte -> list byte -> bool;
  keccak : list byte -> Hash;
  vdfSeedFor : Z -> Hash -> option Hash;
  vdfStops : Z -> bool;
  finalityPersist : Stored -> bool;
  rangeAtts : gmap Z Attestation -> list Attestation;
  rangeRoots : gset Hash -> list Hash;
  pooledBytes : list byte;
}.

(** [hasPersist] is the test of the callback for nil, and [stored] the last
    checkpoint it accepted. Of the caches of committees, proposer tables and
    aggregates the keys are kept. *)
Record QPOS : Type := mkQPOS {
  validators : ValidatorSet;
  attestations : gmap Z (list Attestation);
  validatorAttestations : gmap Z (gmap Z Attestation);
  aggregatedAttestations : gset Z;
  slashedValidators : gmap Z SlashedEntry;
  pendingDeactivationAddrs : gset Address;
  evidenceQueue : list SlashingEvidence;
  vkReg : gmap Address ValidatorKeyState;
  attestationCounter : Z;
  finalizedEpoch : Z;
  finalizedRoot : Hash;
  finalizedSlotPin : finalizedCheckpointPin;
  justifiedEpoch : Z;
  justifiedRoot : Hash;
  attestationSources : gmap Z AttestationCheckpoint;
  hasPersist : bool;
  finalityPersistPending : bool;
  stored : option Stored;
  epochBlockRoots : gmap Z Hash;
  slotBlockRoots : gmap Z Hash;
  epochVRFAccumulator : gmap Z Hash;
  vdfSeedStopped : gset Z;
  shuffleCache : gmap Z (list Z);
  coldStartEpochs : gset Z;
  committeeCache : gset Z;
  weightedCumCache : gset Z;
  weightedProposerCutover : Z;
  currentEpoch : Z;
  currentSlot : Z;
  lastKnownBlockTime : Z;
  currentKeyVersion : Z;
  appliedBlockRoots : gset Hash;
  randaoMix : Hash;
}.

(** *** Assignments to the fields *)

Definition set_validators (x : ValidatorSet) (q : QPOS) : QPOS :=
  mkQPOS x (attestations q) (validatorAttestations q) (aggregatedAttestations q) (slashedValidators q)
    (pendingDeactivationAddrs q) (evidenceQueue q) (vkReg q) (attestationCounter q)
    (finalizedEpoch q) (finalizedRoot q) (finalizedSlotPin q) (justifiedEpoch q) (justifiedRoot q)
    (attestationSources q) (hasPersist q) (finalityPersistPending q) (stored q) (epochBlockRoots q) (slotBlockRoots q)
    (epochVRFAccumulator q) (vdfSeedStopped q) (shuffleCache q) (coldStartEpochs q) (committeeCache q)
    (weightedCumCache q) (weightedProposerCutover q) (currentEpoch q) (currentSlot q) (lastKnownBlockTime q)
    (currentKeyVersion q)
    (appliedBlockRoots q) (randaoMix q).
Definition set_attestations (x : gmap Z (list Attestation)) (q : QPOS) : QPOS :=
  mkQPOS (validators q) x (validatorAttestations q) (aggregatedAttestations q) (slashedValidators q)
    (pendingDeactivationAddrs q) (evidenceQueue q) (vkReg q) (attestationCounter q)
    (finalizedEpoch q) (finalizedRoot q) (finalizedSlotPin q) (justifiedEpoch q) (justifiedRoot q)
    (attestationSources q) (hasPersist q) (finalityPersistPending q) (stored q) (epochBlockRoots q) (slotBlockRoots q)
    (epochVRFAccumulator q) (vdfSeedStopped q) (shuffleCache q) (coldStartEpochs q) (committeeCache q)
    (weightedCumCache q) (weightedProposerCutover q) (currentEpoch q) (currentSlot q) (lastKnownBlockTime q)
    (currentKeyVersion q)
    (appliedBlockRoots q) (randaoMix q).
Definition set_validatorAttestations (x : gmap Z (gmap Z Attestation)) (q : QPOS) : QPOS :=
  mkQPOS (validators q) (attestations q) x (aggregatedAttestations q) (slashedValidators q)
    (pendingDeactivationAddrs q) (evidenceQueue q) (vkReg q) (attestationCounter q)
    (finalizedEpoch q) (finalizedRoot q) (finalizedSlotPin q) (justifiedEpoch q) (justifiedRoot q)
    (attestationSources q) (hasPersist q) (finalityPersistPending q) (stored q) (epochBlockRoots q) (slotBlockRoots q)
    (epochVRFAccumulator q) (vdfSeedStopped q) (shuffleCache q) (coldStartEpochs q) (committeeCache q)
    (weightedCumCache q) (weightedProposerCutover q) (currentEpoch q) (currentSlot q) (lastKnownBlockTime q)
    (currentKeyVersion q)
    (appliedBlockRoots q) (randaoMix q).
Definition set_aggregatedAttestations (x : gset Z) (q : QPOS) : QPOS :=
  mkQPOS (validators q) (attestations q) (validatorAttestations q) x (slashedValidators q)
    (pendingDeactivationAddrs q) (evidenceQueue q) (vkReg q) (attestationCounter q)
    (finalizedEpoch q) (finalizedRoot q) (finalizedSlotPin q) (justifiedEpoch q) (justifiedRoot q)
    (attestationSources q) (hasPersist q) (finalityPersistPending q) (stored q) (epochBlockRoots q) (slotBlockRoots q)
    (epochVRFAccumulator q) (vdfSeedStopped q) (shuffleCache q) (coldStartEpochs q) (committeeCache q)
    (weightedCumCache q) (weightedProposerCutover q) (currentEpoch q) (currentSlot q) (lastKnownBlockTime q)
    (currentKeyVersion q)
    (appliedBlockRoots q) (randaoMix q).
Definition set_slashedValidators (x : gmap Z SlashedEntry) (q : QPOS) : QPOS :=
  mkQPOS (validators q) (attestations q) (validatorAttestations q) (aggregatedAttestations q) x
    (pendingDeactivationAddrs q) (evidenceQueue q) (vkReg q) (attestationCounter q)
    (finalizedEpoch q) (finalizedRoot q) (finalizedSlotPin q) (justifiedEpoch q) (justifiedRoot q)
    (attestationSources q) (hasPersist q) (finalityPersistPending q) (stored q) (epochBlockRoots q) (slotBlockRoots q)
    (epochVRFAccumulator q) (vdfSeedStopped q) (shuffleCache q) (coldStartEpochs q) (committeeCache q)
    (weightedCumCache q) (weightedProposerCutover q) (currentEpoch q) (currentSlot q) (lastKnownBlockTime q)
    (currentKeyVersion q)
    (appliedBlockRoots q) (randaoMix q).
Definition set_pendingDeactivationAddrs (x : gset Address) (q : QPOS) : QPOS :=
  mkQPOS (validators q) (attestations q) (validatorAttestations q) (aggregatedAttestations q) (slashedValidators q) x
    (evidenceQueue q) (vkReg q) (attestationCounter q) (finalizedEpoch q) (finalizedRoot q)
    (finalizedSlotPin q) (justifiedEpoch q) (justifiedRoot q) (attestationSources q) (hasPersist q)
    (finalityPersistPending q) (stored q) (epochBlockRoots q) (slotBlockRoots q) (epochVRFAccumulator q)
    (vdfSeedStopped q) (shuffleCache q) (coldStartEpochs q) (committeeCache q) (weightedCumCache q)
    (weightedProposerCutover q) (currentEpoch q) (currentSlot q) (lastKnownBlockTime q) (currentKeyVersion q)
    (appliedBlockRoots q) (randaoMix q).
Definition set_evidenceQueue (x : list SlashingEvidence) (q : QPOS) : QPOS :=
  mkQPOS (validators q) (attestations q) (validatorAttestations q) (aggregatedAttestations q) (slashedValidators q)
    (pendingDeactivationAddrs q) x (vkReg q) (attestationCounter q) (finalizedEpoch q)
    (finalizedRoot q) (finalizedSlotPin q) (justifiedEpoch q) (justifiedRoot q) (attestationSources q) (hasPersist q)
    (finalityPersistPending q) (stored q) (epochBlockRoots q) (slotBlockRoots q) (epochVRFAccumulator q)
    (vdfSeedStopped q) (shuffleCache q) (coldStartEpochs q) (committeeCache q) (weightedCumCache q)
    (weightedProposerCutover q) (currentEpoch q) (currentSlot q) (lastKnownBlockTime q) (currentKeyVersion q)
    (appliedBlockRoots q) (randaoMix q).
Definition set_vkReg (x : gmap Address ValidatorKeyState) (q : QPOS) : QPOS :=
  mkQPOS (validators q) (attestations q) (validatorAttestations q) (aggregatedAttestations q) (slashedValidators q)
    (pendingDeactivationAddrs q) (evidenceQueue q) x (attestationCounter q) (finalizedEpoch q)
    (finalizedRoot q) (finalizedSlotPin q) (justifiedEpoch q) (justifiedRoot q) (attestationSources q) (hasPersist q)
    (finalityPersistPending q) (stored q) (epochBlockRoots q) (slotBlockRoots q) (epochVRFAccumulator q)
    (vdfSeedStopped q) (shuffleCache q) (coldStartEpochs q) (committeeCache q) (weightedCumCache q)
    (weightedProposerCutover q) (currentEpoch q) (currentSlot q) (lastKnownBlockTime q) (currentKeyVersion q)
    (appliedBlockRoots q) (randaoMix q).
Definition set_attestationCounter (x : Z) (q : QPOS) : QPOS :=
  mkQPOS (validators q) (attestations q) (validatorAttestations q) (aggregatedAttestations q) (slashedValidators q)
    (pendingDeactivationAddrs q) (evidenceQueue q) (vkReg q) x (finalizedEpoch q)
    (finalizedRoot q) (finalizedSlotPin q) (justifiedEpoch q) (justifiedRoot q) (attestationSources q) (hasPersist q)
    (finalityPersistPending q) (stored q) (epochBlockRoots q) (slotBlockRoots q) (epochVRFAccumulator q)
    (vdfSeedStopped q) (shuffleCache q) (coldStartEpochs q) (committeeCache q) (weightedCumCache q)
    (weightedProposerCutover q) (currentEpoch q) (currentSlot q) (lastKnownBlockTime q) (currentKeyVersion q)
    (appliedBlockRoots q) (randaoMix q).
Definition set_finalizedEpoch (x : Z) (q : QPOS) : QPOS :=
  mkQPOS (validators q) (attestations q) (validatorAttestations q) (aggregatedAttestations q) (slashedValidators q)
    (pendingDeactivationAddrs q) (evidenceQueue q) (vkReg q) (attestationCounter q) x
    (finalizedRoot q) (finalizedSlotPin q) (justifiedEpoch q) (justifiedRoot q) (attestationSources q) (hasPersist q)
    (finalityPersistPending q) (stored q) (epochBlockRoots q) (slotBlockRoots q) (epochVRFAccumulator q)
    (vdfSeedStopped q) (shuffleCache q) (coldStartEpochs q) (committeeCache q) (weightedCumCache q)
    (weightedProposerCutover q) (currentEpoch q) (currentSlot q) (lastKnownBlockTime q) (currentKeyVersion q)
    (appliedBlockRoots q) (randaoMix q).
Definition set_finalizedRoot (x : Hash) (q : QPOS) : QPOS :=
  mkQPOS (validators q) (attestations q) (validatorAttestations q) (aggregatedAttestations q) (slashedValidators q)
    (pendingDeactivationAddrs q) (evidenceQueue q) (vkReg q) (attestationCounter q)
    (finalizedEpoch q) x (finalizedSlotPin q) (justifiedEpoch q) (justifiedRoot q) (attestationSources q)
    (hasPersist q) (finalityPersistPending q) (stored q) (epochBlockRoots q) (slotBlockRoots q)
    (epochVRFAccumulator q) (vdfSeedStopped q) (shuffleCache q) (coldStartEpochs q) (committeeCache q)
    (weightedCumCache q) (weightedProposerCutover q) (currentEpoch q) (currentSlot q) (lastKnownBlockTime q)
    (currentKeyVersion q)
    (appliedBlockRoots q) (randaoMix q).
Definition set_finalizedSlotPin (x : finalizedCheckpointPin) (q : QPOS) : QPOS :=
  mkQPOS (validators q) (attestations q) (validatorAttestations q) (aggregatedAttestations q) (slashedValidators q)
    (pendingDeactivationAddrs q) (evidenceQueue q) (vkReg q) (attestationCounter q)
    (finalizedEpoch q) (finalizedRoot q) x (justifiedEpoch q) (justifiedRoot q) (attestationSources q) (hasPersist q)
    (finalityPersistPending q) (stored q) (epochBlockRoots q) (slotBlockRoots q) (epochVRFAccumulator q)
    (vdfSeedStopped q) (shuffleCache q) (coldStartEpochs q) (committeeCache q) (weightedCumCache q)
    (weightedProposerCutover q) (currentEpoch q) (currentSlot q) (lastKnownBlockTime q) (currentKeyVersion q)
    (appliedBlockRoots q) (randaoMix q).
Definition set_justifiedEpoch (x : Z) (q : QPOS) : QPOS :=
  mkQPOS (validators q) (attestations q) (validatorAttestations q) (aggregatedAttestations q) (slashedValidators q)
    (pendingDeactivationAddrs q) (evidenceQueue q) (vkReg q) (attestationCounter q)
    (finalizedEpoch q) (finalizedRoot q) (finalizedSlotPin q) x (justifiedRoot q) (attestationSources q)
    (hasPersist q) (finalityPersistPending q) (stored q) (epochBlockRoots q) (slotBlockRoots q)
    (epochVRFAccumulator q) (vdfSeedStopped q) (shuffleCache q) (coldStartEpochs q) (committeeCache q)
    (weightedCumCache q) (weightedProposerCutover q) (currentEpoch q) (currentSlot q) (lastKnownBlockTime q)
    (currentKeyVersion q)
    (appliedBlockRoots q) (randaoMix q).
Definition set_justifiedRoot (x : Hash) (q : QPOS) : QPOS :=
  mkQPOS (validators q) (attestations q) (validatorAttestations q) (aggregatedAttestations q) (slashedValidators q)
    (pendingDeactivationAddrs q) (evidenceQueue q) (vkReg q) (attestationCounter q)
    (finalizedEpoch q) (finalizedRoot q) (finalizedSlotPin q) (justifiedEpoch q) x (attestationSources q)
    (hasPersist q) (finalityPersistPending q) (stored q) (epochBlockRoots q) (slotBlockRoots q)
    (epochVRFAccumulator q) (vdfSeedStopped q) (shuffleCache q) (coldStartEpochs q) (committeeCache q)
    (weightedCumCache q) (weightedProposerCutover q) (currentEpoch q) (currentSlot q) (lastKnownBlockTime q)
    (currentKeyVersion q)
    (appliedBlockRoots q) (randaoMix q).
Definition set_attestationSources (x : gmap Z AttestationCheckpoint) (q : QPOS) : QPOS :=
  mkQPOS (validators q) (attestations q) (validatorAttestations q) (aggregatedAttestations q) (slashedValidators q)
    (pendingDeactivationAddrs q) (evidenceQueue q) (vkReg q) (attestationCounter q)
    (finalizedEpoch q) (finalizedRoot q) (finalizedSlotPin q) (justifiedEpoch q) (justifiedRoot q) x (hasPersist q)
    (finalityPersistPending q) (stored q) (epochBlockRoots q) (slotBlockRoots q) (epochVRFAccumulator q)
    (vdfSeedStopped q) (shuffleCache q) (coldStartEpochs q) (committeeCache q) (weightedCumCache q)
    (weightedProposerCutover q) (currentEpoch q) (currentSlot q) (lastKnownBlockTime q) (currentKeyVersion q)
    (appliedBlockRoots q) (randaoMix q).
Definition set_hasPersist (x : bool) (q : QPOS) : QPOS :=
  mkQPOS (validators q) (attestations q) (validatorAttestations q) (aggregatedAttestations q) (slashedValidators q)
    (pendingDeactivationAddrs q) (evidenceQueue q) (vkReg q) (attestationCounter q)
    (finalizedEpoch q) (finalizedRoot q) (finalizedSlotPin q) (justifiedEpoch q) (justifiedRoot q)
    (attestationSources q) x (finalityPersistPending q) (stored q) (epochBlockRoots q) (slotBlockRoots q)
    (epochVRFAccumulator q) (vdfSeedStopped q) (shuffleCache q) (coldStartEpochs q) (committeeCache q)
    (weightedCumCache q) (weightedProposerCutover q) (currentEpoch q) (currentSlot q) (lastKnownBlockTime q)
    (currentKeyVersion q)
    (appliedBlockRoots q) (randaoMix q).
Definition set_finalityPersistPending (x : bool) (q : QPOS) : QPOS :=
  mkQPOS (validators q) (attestations q) (validatorAttestations q) (aggregatedAttestations q) (slashedValidators q)
    (pendingDeactivationAddrs q) (evidenceQueue q) (vkReg q) (attestationCounter q)
    (finalizedEpoch q) (finalizedRoot q) (finalizedSlotPin q) (justifiedEpoch q) (justifiedRoot q)
    (attestationSources q) (hasPersist q) x (stored q) (epochBlockRoots q) (slotBlockRoots q) (epochVRFAccumulator q)
    (vdfSeedStopped q) (shuffleCache q) (coldStartEpochs q) (committeeCache q) (weightedCumCache q)
    (weightedProposerCutover q) (currentEpoch q) (currentSlot q) (lastKnownBlockTime q) (currentKeyVersion q)
    (appliedBlockRoots q) (randaoMix q).
Definition set_stored (x : option Stored) (q : QPOS) : QPOS :=
  mkQPOS (validators q) (attestations q) (validatorAttestations q) (aggregatedAttestations q) (slashedValidators q)
    (pendingDeactivationAddrs q) (evidenceQueue q) (vkReg q) (attestationCounter q)
    (finalizedEpoch q) (finalizedRoot q) (finalizedSlotPin q) (justifiedEpoch q) (justifiedRoot q)
    (attestationSources q) (hasPersist q) (finalityPersistPending q) x (epochBlockRoots q) (slotBlockRoots q)
    (epochVRFAccumulator q) (vdfSeedStopped q) (shuffleCache q) (coldStartEpochs q) (committeeCache q)
    (weightedCumCache q) (weightedProposerCutover q) (currentEpoch q) (currentSlot q) (lastKnownBlockTime q)
    (currentKeyVersion q)
    (appliedBlockRoots q) (randaoMix q).
Definition set_epochBlockRoots (x : gmap Z Hash) (q : QPOS) : QPOS :=
  mkQPOS (validators q) (attestations q) (validatorAttestations q) (aggregatedAttestations q) (slashedValidators q)
    (pendingDeactivationAddrs q) (evidenceQueue q) (vkReg q) (attestationCounter q)
    (finalizedEpoch q) (finalizedRoot q) (finalizedSlotPin q) (justifiedEpoch q) (justifiedRoot q)
    (attestationSources q) (hasPersist q) (finalityPersistPending q) (stored q) x (slotBlockRoots q)
    (epochVRFAccumulator q) (vdfSeedStopped q) (shuffleCache q) (coldStartEpochs q) (committeeCache q)
    (weightedCumCache q) (weightedProposerCutover q) (currentEpoch q) (currentSlot q) (lastKnownBlockTime q)
    (currentKeyVersion q)
    (appliedBlockRoots q) (randaoMix q).
Definition set_slotBlockRoots (x : gmap Z Hash) (q : QPOS) : QPOS :=
  mkQPOS (validators q) (attestations q) (validatorAttestations q) (aggregatedAttestations q) (slashedValidators q)
    (pendingDeactivationAddrs q) (evidenceQueue q) (vkReg q) (attestationCounter q)
    (finalizedEpoch q) (finalizedRoot q) (finalizedSlotPin q) (justifiedEpoch q) (justifiedRoot q)
    (attestationSources q) (hasPersist q) (finalityPersistPending q) (stored q) (epochBlockRoots q) x
    (epochVRFAccumulator q) (vdfSeedStopped q) (shuffleCache q) (coldStartEpochs q) (committeeCache q)
    (weightedCumCache q) (weightedProposerCutover q) (currentEpoch q) (currentSlot q) (lastKnownBlockTime q)
    (currentKeyVersion q)
    (appliedBlockRoots q) (randaoMix q).
Definition set_epochVRFAccumulator (x : gmap Z Hash) (q : QPOS) : QPOS :=
  mkQPOS (validators q) (attestations q) (validatorAttestations q) (aggregatedAttestations q) (slashedValidators q)
    (pendingDeactivationAddrs q) (evidenceQueue q) (vkReg q) (attestationCounter q)
    (finalizedEpoch q) (finalizedRoot q) (finalizedSlotPin q) (justifiedEpoch q) (justifiedRoot q)
    (attestationSources q) (hasPersist q) (finalityPersistPending q) (stored q) (epochBlockRoots q) (slotBlockRoots q)
    x (vdfSeedStopped q) (shuffleCache q) (coldStartEpochs q) (committeeCache q) (weightedCumCache q)
    (weightedProposerCutover q) (currentEpoch q) (currentSlot q) (lastKnownBlockTime q) (currentKeyVersion q)
    (appliedBlockRoots q) (randaoMix q).
Definition set_vdfSeedStopped (x : gset Z) (q : QPOS) : QPOS :=
  mkQPOS (validators q) (attestations q) (validatorAttestations q) (aggregatedAttestations q) (slashedValidators q)
    (pendingDeactivationAddrs q) (evidenceQueue q) (vkReg q) (attestationCounter q)
    (finalizedEpoch q) (finalizedRoot q) (finalizedSlotPin q) (justifiedEpoch q) (justifiedRoot q)
    (attestationSources q) (hasPersist q) (finalityPersistPending q) (stored q) (epochBlockRoots q) (slotBlockRoots q)
    (epochVRFAccumulator q) x (shuffleCache q) (coldStartEpochs q) (committeeCache q) (weightedCumCache q)
    (weightedProposerCutover q) (currentEpoch q) (currentSlot q) (lastKnownBlockTime q) (currentKeyVersion q)
    (appliedBlockRoots q) (randaoMix q).
Definition set_shuffleCache (x : gmap Z (list Z)) (q : QPOS) : QPOS :=
  mkQPOS (validators q) (attestations q) (validatorAttestations q) (aggregatedAttestations q) (slashedValidators q)
    (pendingDeactivationAddrs q) (evidenceQueue q) (vkReg q) (attestationCounter q)
    (finalizedEpoch q) (finalizedRoot q) (finalizedSlotPin q) (justifiedEpoch q) (justifiedRoot q)
    (attestationSources q) (hasPersist q) (finalityPersistPending q) (stored q) (epochBlockRoots q) (slotBlockRoots q)
    (epochVRFAccumulator q) (vdfSeedStopped q) x (coldStartEpochs q) (committeeCache q) (weightedCumCache q)
    (weightedProposerCutover q) (currentEpoch q) (currentSlot q) (lastKnownBlockTime q) (currentKeyVersion q)
    (appliedBlockRoots q) (randaoMix q).
Definition set_coldStartEpochs (x : gset Z) (q : QPOS) : QPOS :=
  mkQPOS (validators q) (attestations q) (validatorAttestations q) (aggregatedAttestations q) (slashedValidators q)
    (pendingDeactivationAddrs q) (evidenceQueue q) (vkReg q) (attestationCounter q)
    (finalizedEpoch q) (finalizedRoot q) (finalizedSlotPin q) (justifiedEpoch q) (justifiedRoot q)
    (attestationSources q) (hasPersist q) (finalityPersistPending q) (stored q) (epochBlockRoots q) (slotBlockRoots q)
    (epochVRFAccumulator q) (vdfSeedStopped q) (shuffleCache q) x (committeeCache q) (weightedCumCache q)
    (weightedProposerCutover q) (currentEpoch q) (currentSlot q) (lastKnownBlockTime q) (currentKeyVersion q)
    (appliedBlockRoots q) (randaoMix q).
Definition set_committeeCache (x : gset Z) (q : QPOS) : QPOS :=
  mkQPOS (validators q) (attestations q) (validatorAttestations q) (aggregatedAttestations q) (slashedValidators q)
    (pendingDeactivationAddrs q) (evidenceQueue q) (vkReg q) (attestationCounter q)
    (finalizedEpoch q) (finalizedRoot q) (finalizedSlotPin q) (justifiedEpoch q) (justifiedRoot q)
    (attestationSources q) (hasPersist q) (finalityPersistPending q) (stored q) (epochBlockRoots q) (slotBlockRoots q)
    (epochVRFAccumulator q) (vdfSeedStopped q) (shuffleCache q) (coldStartEpochs q) x (weightedCumCache q)
    (weightedProposerCutover q) (currentEpoch q) (currentSlot q) (lastKnownBlockTime q) (currentKeyVersion q)
    (appliedBlockRoots q) (randaoMix q).
Definition set_weightedCumCache (x : gset Z) (q : QPOS) : QPOS :=
  mkQPOS (validators q) (attestations q) (validatorAttestations q) (aggregatedAttestations q) (slashedValidators q)
    (pendingDeactivationAddrs q) (evidenceQueue q) (vkReg q) (attestationCounter q)
    (finalizedEpoch q) (finalizedRoot q) (finalizedSlotPin q) (justifiedEpoch q) (justifiedRoot q)
    (attestationSources q) (hasPersist q) (finalityPersistPending q) (stored q) (epochBlockRoots q) (slotBlockRoots q)
    (epochVRFAccumulator q) (vdfSeedStopped q) (shuffleCache q) (coldStartEpochs q) (committeeCache q) x
    (weightedProposerCutover q) (currentEpoch q) (currentSlot q) (lastKnownBlockTime q) (currentKeyVersion q)
    (appliedBlockRoots q) (randaoMix q).
Definition set_currentEpoch (x : Z) (q : QPOS) : QPOS :=
  mkQPOS (validators q) (attestations q) (validatorAttestations q) (aggregatedAttestations q) (slashedValidators q)
    (pendingDeactivationAddrs q) (evidenceQueue q) (vkReg q) (attestationCounter q)
    (finalizedEpoch q) (finalizedRoot q) (finalizedSlotPin q) (justifiedEpoch q) (justifiedRoot q)
    (attestationSources q) (hasPersist q) (finalityPersistPending q) (stored q) (epochBlockRoots q) (slotBlockRoots q)
    (epochVRFAccumulator q) (vdfSeedStopped q) (shuffleCache q) (coldStartEpochs q) (committeeCache q)
    (weightedCumCache q) (weightedProposerCutover q) x (currentSlot q) (lastKnownBlockTime q) (currentKeyVersion q)
    (appliedBlockRoots q) (randaoMix q).
Definition set_weightedProposerCutover (x : Z) (q : QPOS) : QPOS :=
  mkQPOS (validators q) (attestations q) (validatorAttestations q) (aggregatedAttestations q) (slashedValidators q)
    (pendingDeactivationAddrs q) (evidenceQueue q) (vkReg q) (attestationCounter q)
    (finalizedEpoch q) (finalizedRoot q) (finalizedSlotPin q) (justifiedEpoch q) (justifiedRoot q)
    (attestationSources q) (hasPersist q) (finalityPersistPending q) (stored q) (epochBlockRoots q) (slotBlockRoots q)
    (epochVRFAccumulator q) (vdfSeedStopped q) (shuffleCache q) (coldStartEpochs q) (committeeCache q)
    (weightedCumCache q) x (currentEpoch q) (currentSlot q) (lastKnownBlockTime q) (currentKeyVersion q)
    (appliedBlockRoots q) (randaoMix q).
Definition set_currentSlot (x : Z) (q : QPOS) : QPOS :=
  mkQPOS (validators q) (attestations q) (validatorAttestations q) (aggregatedAttestations q) (slashedValidators q)
    (pendingDeactivationAddrs q) (evidenceQueue q) (vkReg q) (attestationCounter q)
    (finalizedEpoch q) (finalizedRoot q) (finalizedSlotPin q) (justifiedEpoch q) (justifiedRoot q)
    (attestationSources q) (hasPersist q) (finalityPersistPending q) (stored q) (epochBlockRoots q) (slotBlockRoots q)
    (epochVRFAccumulator q) (vdfSeedStopped q) (shuffleCache q) (coldStartEpochs q) (committeeCache q)
    (weightedCumCache q) (weightedProposerCutover q) (currentEpoch q) x (lastKnownBlockTime q) (currentKeyVersion q)
    (appliedBlockRoots q) (randaoMix q).
Definition set_lastKnownBlockTime (x : Z) (q : QPOS) : QPOS :=
  mkQPOS (validators q) (attestations q) (validatorAttestations q) (aggregatedAttestations q) (slashedValidators q)
    (pendingDeactivationAddrs q) (evidenceQueue q) (vkReg q) (attestationCounter q)
    (finalizedEpoch q) (finalizedRoot q) (finalizedSlotPin q) (justifiedEpoch q) (justifiedRoot q)
    (attestationSources q) (hasPersist q) (finalityPersistPending q) (stored q) (epochBlockRoots q) (slotBlockRoots q)
    (epochVRFAccumulator q) (vdfSeedStopped q) (shuffleCache q) (coldStartEpochs q) (committeeCache q)
    (weightedCumCache q) (weightedProposerCutover q) (currentEpoch q) (currentSlot q) x (currentKeyVersion q)
    (appliedBlockRoots q) (randaoMix q).
Definition set_appliedBlockRoots (x : gset Hash) (q : QPOS) : QPOS :=
  mkQPOS (validators q) (attestations q) (validatorAttestations q) (aggregatedAttestations q) (slashedValidators q)
    (pendingDeactivationAddrs q) (evidenceQueue q) (vkReg q) (attestationCounter q)
    (finalizedEpoch q) (finalizedRoot q) (finalizedSlotPin q) (justifiedEpoch q) (justifiedRoot q)
    (attestationSources q) (hasPersist q) (finalityPersistPending q) (stored q) (epochBlockRoots q) (slotBlockRoots q)
    (epochVRFAccumulator q) (vdfSeedStopped q) (shuffleCache q) (coldStartEpochs q) (committeeCache q)
    (weightedCumCache q) (weightedProposerCutover q) (currentEpoch q) (currentSlot q) (lastKnownBlockTime q) (currentKeyVersion q)
    x (randaoMix q).
Definition set_randaoMix (x : Hash) (q : QPOS) : QPOS :=
  mkQPOS (validators q) (attestations q) (validatorAttestations q) (aggregatedAttestations q) (slashedValidators q)
    (pendingDeactivationAddrs q) (evidenceQueue q) (vkReg q) (attestationCounter q)
    (finalizedEpoch q) (finalizedRoot q) (finalizedSlotPin q) (justifiedEpoch q) (justifiedRoot q)
    (attestationSources q) (hasPersist q) (finalityPersistPending q) (stored q) (epochBlockRoots q) (slotBlockRoots q)
    (epochVRFAccumulator q) (vdfSeedStopped q) (shuffleCache q) (coldStartEpochs q) (committeeCache q)
    (weightedCumCache q) (weightedProposerCutover q) (currentEpoch q) (currentSlot q) (lastKnownBlockTime q) (currentKeyVersion q)
    (appliedBlockRoots q) x.

(** ** Construction *)

Definition NewQPOS (vs : ValidatorSet) : QPOS :=
  mkQPOS vs ∅ ∅ ∅ ∅ ∅ [] ∅ 0 0 zeroHash (mkPin zeroHash 0) 0 zeroHash ∅ false false None ∅ ∅ ∅ ∅ ∅ ∅ ∅ ∅ MaxUint64 0 0 0 0 ∅ zeroHash.

End Qpos.
