(* ===== verification/QposFinality.v ===== *)
(** * Canonical roots and the finality gadget

    Package consensus: consensus weights (effective_balance.go), the canonical
    roots of slots and epochs with their pruning and reorganisation
    (qpos_forkchoice.go, r101_epoch_root_backfill.go), the counting of votes that
    justifies and finalizes epochs, and the adoption, persistence, restoration and
    reset of checkpoints (qpos_finality.go); what a seal of the threshold committee
    does to the checkpoints (qtd_finality.go) and the header of a synced block to
    the roots (qpos_proposer.go); the accumulators of the VRF. The records of the
    seals and the voting manager are not part of the state. *)

From Stdlib Require Import ZArith Lia.
From Stdlib.Strings Require Import Byte.
From stdpp Require Import base list countable gmap strings numbers sorting.
From S2P Require Import Prelude Stack Election Qpos.

Module QposFinality.
Import Election Qpos.

Section with_env.
Context (env : Env).

(** ** The clock (block.go) *)

Definition GetCurrentSlot (now : Z) : Z :=
  if genesisTime env =? 0 then 0 else
  if now <? genesisTime env then 0 else u64 (Z.quot (now - genesisTime env) SlotDuration).

Definition GetCurrentEpoch (now : Z) : Z := GetCurrentSlot now / SlotsPerEpoch.

(** The compare-and-swap retries on concurrent updates only. *)
Definition SetLastKnownBlockTime (timestamp : Z) (q : QPOS) : QPOS :=
  if timestamp <=? lastKnownBlockTime q then q else set_lastKnownBlockTime timestamp q.

(** ** Consensus weight (effective_balance.go) *)

Definition EffectiveBalanceIncrement : Z := 1 * 10 ^ 18.
Definition MaxEffectiveBalance : Z := 2048 * 10 ^ 18.

Definition EffectiveBalance (stake : Z) : Z :=
  if stake <=? 0 then 0 else
  let eb := Z.quot stake EffectiveBalanceIncrement * EffectiveBalanceIncrement in
  if MaxEffectiveBalance <? eb then MaxEffectiveBalance else eb.

Definition weightedProposerEnabled (q : QPOS) (epoch : Z) : bool := weightedProposerCutover q <=? epoch.

Definition effectiveBalanceEnabled (q : QPOS) (epoch : Z) : bool := weightedProposerEnabled q epoch.

Definition consensusWeight (q : QPOS) (stake epoch : Z) : Z :=
  if effectiveBalanceEnabled q epoch then EffectiveBalance stake else stake.

Definition currentFinalityEpoch (now : Z) (q : QPOS) : Z :=
  let gt := genesisTime env in
  let blockDerived := lastKnownBlockTime q in
  if (0 <? gt) && (gt <? blockDerived) then u64 (Z.quot (blockDerived - gt) SlotDuration) / SlotsPerEpoch
  else GetCurrentEpoch now.

(** ** Checkpoint roots and their persistence *)

Definition getEpochBlockRootLocked (epoch : Z) (q : QPOS) : Hash := default zeroHash (epochBlockRoots q !! epoch).

Definition rootCanonical (q : QPOS) (epoch : Z) (root : Hash) : bool :=
  (epoch =? 0) ||
  match epochBlockRoots q !! epoch with
  | Some canonicalRoot => negb (isZero canonicalRoot) && bool_decide (canonicalRoot = root)
  | None => false
  end.

Definition hasCanonicalFinalityRootsLocked (q : QPOS) : bool :=
  rootCanonical q (justifiedEpoch q) (justifiedRoot q) && rootCanonical q (finalizedEpoch q) (finalizedRoot q).

Definition persistFinalityLocked (q : QPOS) : QPOS :=
  if negb (hasPersist q) then q else
  if negb (hasCanonicalFinalityRootsLocked q) then set_finalityPersistPending true q else
  if negb (finalityPersistPending q) then q else
  let checkpoint := (justifiedEpoch q, finalizedEpoch q, justifiedRoot q, finalizedRoot q) in
  if finalityPersist env checkpoint then set_finalityPersistPending false (set_stored (Some checkpoint) q)
  else set_finalityPersistPending true q.

(** ** Roots of epochs *)

Definition epochPruneCutoff (epoch : Z) (q : QPOS) : Z :=
  let pruneCutoff := if 1 <? finalizedEpoch q then finalizedEpoch q - 1 else epoch in
  let pruneCutoff :=
    if 3 <? currentEpoch q then Z.max pruneCutoff (currentEpoch q - 3) else pruneCutoff in
  if (1 <? justifiedEpoch q) && (justifiedEpoch q - 1 <? pruneCutoff) then justifiedEpoch q - 1 else pruneCutoff.

Definition pruneEpochRoots (epoch : Z) (q : QPOS) : QPOS :=
  if 10 <? Z.of_nat (size (epochBlockRoots q)) then
    set_epochBlockRoots (filter (fun '(e, _) => epochPruneCutoff epoch q <= e) (epochBlockRoots q)) q
  else q.

(** A recorded root that differs from [blockRoot] is that of the finalized epoch. *)
Definition rootPinned (epoch : Z) (blockRoot : Hash) (q : QPOS) : bool :=
  (epoch =? finalizedEpoch q) && (0 <? finalizedEpoch q) &&
  match epochBlockRoots q !! epoch with
  | Some existing => negb (isZero existing) && negb (bool_decide (existing = blockRoot))
  | None => false
  end.

(** The checkpoint roots of [epoch] follow the recorded one. *)
Definition reconcileRoots (epoch : Z) (blockRoot : Hash) (q : QPOS) : bool * QPOS :=
  let j := (justifiedEpoch q =? epoch) && negb (bool_decide (justifiedRoot q = blockRoot)) in
  let q := if j then set_justifiedRoot blockRoot q else q in
  let f := (finalizedEpoch q =? epoch) && negb (bool_decide (finalizedRoot q = blockRoot)) in
  let q := if f then set_finalizedRoot blockRoot q else q in
  (j || f, q).

Definition setEpochBlockRootLocked (epoch : Z) (blockRoot : Hash) (q : QPOS) : QPOS :=
  if rootPinned epoch blockRoot q then q else
  let q := set_epochBlockRoots (<[epoch := blockRoot]> (epochBlockRoots q)) q in
  let '(changed, q) := reconcileRoots epoch blockRoot q in
  let q := if changed then set_finalityPersistPending true q else q in
  let q := if changed || finalityPersistPending q then persistFinalityLocked q else q in
  let q := set_shuffleCache (delete (u64 (epoch + 1)) (shuffleCache q)) q in
  pruneEpochRoots epoch q.

Definition SetEpochBlockRoot (epoch : Z) (blockRoot : Hash) (q : QPOS) : QPOS := setEpochBlockRootLocked epoch blockRoot q.

Definition EnsureEpochBlockRoot (epoch : Z) (blockRoot : Hash) (q : QPOS) : QPOS :=
  match epochBlockRoots q !! epoch with
  | Some _ => q
  | None => setEpochBlockRootLocked epoch blockRoot q
  end.

(** One iteration of the backfill: the count, whether a checkpoint changed, the state. *)
Definition backfillOne (acc : Z * bool * QPOS) (entry : Z * Hash) : Z * bool * QPOS :=
  let '(applied, changed, q) := acc in
  let '(e, r) := entry in
  if isZero r then acc else
  if (e =? 0) && negb (isZero (getEpochBlockRootLocked 0 q)) then acc else
  if rootPinned e r q then acc else
  let q := set_epochBlockRoots (<[e := r]> (epochBlockRoots q)) q in
  let '(c, q) := reconcileRoots e r q in
  (applied + 1, changed || c, q).

Definition BackfillEpochRoots (roots : gmap Z Hash) (q : QPOS) : Z * QPOS :=
  let '(applied, changed, q) := foldl backfillOne (0, false, q) (map_to_list roots) in
  if changed || finalityPersistPending q then
    let q := set_finalityPersistPending true q in
    (applied, if hasCanonicalFinalityRootsLocked q then persistFinalityLocked q else q)
  else (applied, q).

Definition SetGenesisRoot (root : Hash) (q : QPOS) : QPOS :=
  if negb (isZero (getEpochBlockRootLocked 0 q)) then q else
  set_slotBlockRoots (<[0 := root]> (slotBlockRoots q)) (set_epochBlockRoots (<[0 := root]> (epochBlockRoots q)) q).

(** ** Roots of slots *)

Definition slotPruneCutoff (slot : Z) (q : QPOS) : Z :=
  let pruneCutoff :=
    if 1 <? finalizedEpoch q then EpochStartSlot (finalizedEpoch q - 1)
    else if 2 * SlotsPerEpoch <? slot then slot - 2 * SlotsPerEpoch else 0 in
  if 3 * SlotsPerEpoch <? currentSlot q then Z.max pruneCutoff (currentSlot q - 3 * SlotsPerEpoch) else pruneCutoff.

Definition SetSlotBlockRoot (slot : Z) (blockRoot : Hash) (q : QPOS) : QPOS :=
  let q := set_slotBlockRoots (<[slot := blockRoot]> (slotBlockRoots q)) q in
  let q := if negb (isZero blockRoot) && bool_decide (blockRoot = finalizedRoot q)
           then set_finalizedSlotPin (mkPin blockRoot slot) q else q in
  if 3 * SlotsPerEpoch <? Z.of_nat (size (slotBlockRoots q)) then
    set_slotBlockRoots (filter (fun '(s, _) => slotPruneCutoff slot q <= s) (slotBlockRoots q)) q
  else q.

Definition GetSlotBlockRoot (slot : Z) (q : QPOS) : option Hash :=
  match slotBlockRoots q !! slot with
  | Some root => if isZero root then None else Some root
  | None => None
  end.

(** ** The slot of the finalized checkpoint *)

Definition finalityFloorSlotLocked (q : QPOS) : option Z :=
  if (finalizedEpoch q =? 0) && isZero (finalizedRoot q) then None else Some (u64 (finalizedEpoch q * SlotsPerEpoch)).

(** The last slot up to [boundary] whose canonical block is [root]. *)
Definition lastSlotOf (root : Hash) (boundary : Z) (slots : gmap Z Hash) : option Z :=
  foldl (fun found '(s, r) =>
      if (boundary <? s) || negb (bool_decide (r = root)) then found else
      match found with
      | Some slot => if slot <? s then Some s else found
      | None => Some s
      end)
    None (map_to_list slots).

Definition pinFinalizedCheckpointSlotLocked (q : QPOS) : QPOS :=
  if isZero (finalizedRoot q) then set_finalizedSlotPin (mkPin zeroHash 0) q else
  if bool_decide (pin_root (finalizedSlotPin q) = finalizedRoot q) then q else
  match lastSlotOf (finalizedRoot q) (u64 (finalizedEpoch q * SlotsPerEpoch)) (slotBlockRoots q) with
  | Some slot => set_finalizedSlotPin (mkPin (finalizedRoot q) slot) q
  | None => q
  end.

Definition SetFinalizedCheckpointSlot (root : Hash) (slot : Z) (q : QPOS) : bool * QPOS :=
  if isZero root || negb (bool_decide (finalizedRoot q = root)) then (false, q) else
  if u64 (finalizedEpoch q * SlotsPerEpoch) <? slot then (false, q) else
  (true, set_finalizedSlotPin (mkPin root slot) q).

Definition finalizedCheckpointSlotLocked (q : QPOS) : option Z :=
  match finalityFloorSlotLocked q with
  | None => None
  | Some boundary =>
      if isZero (finalizedRoot q) then Some boundary else
      let pin := finalizedSlotPin q in
      if bool_decide (pin_root pin = finalizedRoot q) && (pin_slot pin <=? boundary) then Some (pin_slot pin) else
      Some (default boundary (lastSlotOf (finalizedRoot q) boundary (slotBlockRoots q)))
  end.

(** ** Reorganisations *)

Record ReanchorBounds : Type := mkBounds {
  AncestorSlot : Z;
  AncestorKnown : bool;
  ReplacedHeadSlot : Z;
  AncestorHash : Hash;
  EpochRoots : gmap Z Hash;
}.

Definition minSlot (slots : list Z) (s : Z) : Z := foldl Z.min s slots.
Definition maxSlot (slots : list Z) (s : Z) : Z := foldl Z.max s slots.

Definition ReanchorCleanRange (roots : gmap Z Hash) (bounds : ReanchorBounds) : option (Z * Z) :=
  match (map_to_list roots).*1 with
  | s :: slots =>
      let from := minSlot slots s in
      let to := maxSlot slots s in
      let from := if AncestorKnown bounds && (u64 (AncestorSlot bounds + 1) <? from)
                  then u64 (AncestorSlot bounds + 1) else from in
      let to := if to <? ReplacedHeadSlot bounds then ReplacedHeadSlot bounds else to in
      Some (from, to)
  | [] =>
      if AncestorKnown bounds && (AncestorSlot bounds <? ReplacedHeadSlot bounds)
      then Some (u64 (AncestorSlot bounds + 1), ReplacedHeadSlot bounds) else None
  end.

Definition ReanchorConflictsWithFinality (roots : gmap Z Hash) (bounds : ReanchorBounds) (finalSlot : Z) : bool :=
  match ReanchorCleanRange roots bounds with
  | Some (from, _) => from <=? finalSlot
  | None => false
  end.

(** The checkpoints' own epochs are left alone. *)
Definition checkpointEpoch (q : QPOS) (e : Z) : bool := (e =? justifiedEpoch q) || (e =? finalizedEpoch q).

Definition firstReachedEpoch (cleanMin : Z) : Z :=
  if cleanMin mod SlotsPerEpoch =? 0 then SlotToEpoch cleanMin else SlotToEpoch cleanMin + 1.

Definition reanchorSlots (roots : gmap Z Hash) (cleanMin cleanMax : Z) (slots : gmap Z Hash) : gmap Z Hash :=
  filter (fun '(s, _) => is_Some (roots !! s) \/ ~ (cleanMin <= s <= cleanMax)) (roots ∪ slots).

(** The entries of the new chain, then the common ancestor for the epochs that
    fell and have none. *)
Definition reanchorEpochs (bounds : ReanchorBounds) (cleanMin : Z) (q : QPOS) : gmap Z Hash :=
  let first := firstReachedEpoch cleanMin in
  let falls (e : Z) := negb (checkpointEpoch q e) && (first <=? e) in
  let kept := filter (fun '(e, _) => falls e = false) (epochBlockRoots q) in
  let fallen := filter (fun '(e, _) => falls e = true) (epochBlockRoots q) in
  let given := filter (fun '(e, root) => isZero root = false /\ falls e = true) (EpochRoots bounds) in
  let kept := given ∪ kept in
  if AncestorKnown bounds && negb (isZero (AncestorHash bounds)) then
    ((fun _ => AncestorHash bounds) <$>
       filter (fun '(e, _) => isZero (default zeroHash (EpochRoots bounds !! e)) = true) fallen)
      ∪ kept
  else kept.

Definition clearStops (vrfAccUpdates : gmap Z Hash) (stopped : gset Z) : gset Z :=
  filter (fun s => set_Forall (fun e => s <> e /\ s <> u64 (e + 1) /\ s <> u64 (e + 2)) (dom vrfAccUpdates)) stopped.

Definition reanchorSlotRoots (roots vrfAccUpdates : gmap Z Hash) (bounds : ReanchorBounds) (q : QPOS) : bool * QPOS :=
  match ReanchorCleanRange roots bounds with
  | None => (true, q)
  | Some (cleanMin, cleanMax) =>
      let conflicts :=
        match finalizedCheckpointSlotLocked q with
        | Some finalizedSlot => ReanchorConflictsWithFinality roots bounds finalizedSlot
        | None => false
        end in
      if conflicts then (false, q) else
      let q := set_slotBlockRoots (reanchorSlots roots cleanMin cleanMax (slotBlockRoots q)) q in
      let q := set_epochBlockRoots (reanchorEpochs bounds cleanMin q) q in
      let q := set_epochVRFAccumulator (vrfAccUpdates ∪ epochVRFAccumulator q) q in
      let q := set_vdfSeedStopped (clearStops vrfAccUpdates (vdfSeedStopped q)) q in
      (true, set_committeeCache ∅ (set_shuffleCache ∅ q))
  end.

Definition ReanchorSlotRoots (roots vrfAccUpdates : gmap Z Hash) (q : QPOS) : bool * QPOS :=
  reanchorSlotRoots roots vrfAccUpdates (mkBounds 0 false 0 zeroHash ∅) q.

Definition ReanchorSlotRootsWithStaleAbove (roots vrfAccUpdates : gmap Z Hash) (staleAbove : Z) (q : QPOS) : bool * QPOS :=
  reanchorSlotRoots roots vrfAccUpdates (mkBounds 0 false staleAbove zeroHash ∅) q.

Definition ReanchorSlotRootsBounded (roots vrfAccUpdates : gmap Z Hash) (bounds : ReanchorBounds) (q : QPOS) : bool * QPOS :=
  reanchorSlotRoots roots vrfAccUpdates bounds q.

(** ** Counting votes *)

Definition eligible (q : QPOS) (i : Z) (v : Validator) : bool :=
  match slashedValidators q !! i with Some _ => false | None => v_Active v end.

(** The validators whose weight counts, with their indices. *)
Definition eligibleValidators (q : QPOS) : list (Z * Validator) :=
  let l := vs_validators (validators q) in
  filter (fun '(i, v) => eligible q i v = true) (zip (seqZ 0 (len l)) l).

Definition totalWeight (q : QPOS) (epoch : Z) : Z :=
  foldr (fun '(_, v) t => consensusWeight q (v_Stake v) epoch + t) 0 (eligibleValidators q).

(** The conditions under which an attestation stored for [slot] counts for
    [prevEpoch], before those on its validator. *)
Definition countsFor (q : QPOS) (prevEpoch slot : Z) (att : Attestation) : bool :=
  let source := att_Source att in
  let target := att_Target att in
  let canonicalEpochRoot := getEpochBlockRootLocked prevEpoch q in
  (cp_Epoch target =? prevEpoch) &&
  (cp_Epoch source <? cp_Epoch target) &&
  (cp_Epoch source <=? justifiedEpoch q) &&
  (if 0 <? cp_Epoch source then
     let canonicalSourceRoot := getEpochBlockRootLocked (cp_Epoch source) q in
     negb (isZero canonicalSourceRoot) && bool_decide (cp_Root source = canonicalSourceRoot)
   else true) &&
  negb (isZero canonicalEpochRoot) &&
  bool_decide (cp_Root target = canonicalEpochRoot) &&
  match slotBlockRoots q !! slot with
  | Some root => negb (isZero root) && bool_decide (att_BeaconBlockRoot att = root)
  | None => true
  end.

(** The validators counted so far and their weight. An attestation in the store
    has an index that is not negative. *)
Definition countVote (q : QPOS) (prevEpoch slot : Z) (acc : gset Z * Z) (att : Attestation) : gset Z * Z :=
  let '(attested, weight) := acc in
  if negb (countsFor q prevEpoch slot att) then acc else
  let i := att_ValidatorIndex att in
  match GetValidatorByIndex i (validators q) with
  | None => acc
  | Some v =>
      if negb (eligible q i v) then acc else
      if decide (i ∈ attested) then acc else
      ({[i]} ∪ attested, weight + consensusWeight q (v_Stake v) prevEpoch)
  end.

Definition votesAt (q : QPOS) (slot : Z) : list Attestation := default [] (attestations q !! slot).

(** [currentEpoch] comes from a 64-bit count of seconds, so the slots of the
    previous epoch do not wrap around. *)
Definition countVotes (q : QPOS) (prevEpoch : Z) : gset Z * Z :=
  foldl (fun acc slot => foldl (countVote q prevEpoch slot) acc (votesAt q slot))
    (∅, 0) (seqZ (EpochStartSlot prevEpoch) SlotsPerEpoch).

(** ** Justification and finalization *)

Definition justify (prevEpoch : Z) (q : QPOS) : QPOS :=
  if justifiedEpoch q <? prevEpoch then
    set_finalityPersistPending true
      (set_justifiedRoot (getEpochBlockRootLocked prevEpoch q) (set_justifiedEpoch prevEpoch q))
  else q.

Definition finalize (oldJustified prevEpoch : Z) (q : QPOS) : QPOS :=
  let oldJustifiedRoot := getEpochBlockRootLocked oldJustified q in
  if negb (isZero oldJustifiedRoot) && (oldJustified =? prevEpoch - 1) then
    if finalizedEpoch q <? oldJustified then
      set_finalityPersistPending true (set_finalizedRoot oldJustifiedRoot (set_finalizedEpoch oldJustified q))
    else if (oldJustified =? finalizedEpoch q) && isZero (finalizedRoot q) then
      set_finalityPersistPending true (set_finalizedRoot oldJustifiedRoot q)
    else q
  else q.

Definition supermajority (q : QPOS) (prevEpoch : Z) : bool :=
  let total := totalWeight q prevEpoch in
  let '(attested, weight) := countVotes q prevEpoch in
  let activeValidatorCount := len (eligibleValidators q) in
  (0 <? total) && negb (activeValidatorCount =? 0) &&
  (ComputeMinAttestations activeValidatorCount <=? Z.of_nat (size attested)) &&
  (total * 2 <=? weight * 3).

Definition tryUpdateFinality (now : Z) (q : QPOS) : QPOS :=
  let currentEpoch := currentFinalityEpoch now q in
  if currentEpoch <? 2 then q else
  let prevEpoch := currentEpoch - 1 in
  if supermajority q prevEpoch then
    let oldJustified := justifiedEpoch q in
    persistFinalityLocked (pinFinalizedCheckpointSlotLocked (finalize oldJustified prevEpoch (justify prevEpoch q)))
  else q.

Definition CheckFinality (now : Z) (q : QPOS) : (Z * Z * bool) * QPOS :=
  let q' := tryUpdateFinality now q in
  ((justifiedEpoch q', finalizedEpoch q',
    negb (justifiedEpoch q' =? justifiedEpoch q) || negb (finalizedEpoch q' =? finalizedEpoch q)), q').

(** ** Checkpoints from elsewhere *)

Definition HeaderFinalityCheckpointsValid (justified finalized headerEpoch : Z) : bool :=
  (justified <=? headerEpoch) && (finalized <=? headerEpoch).

Definition adoptCheckpointRoot (recorded : Hash) (epoch : Z) (headerHash : Hash) : Hash :=
  if negb (isZero recorded) then recorded else if epoch =? 0 then zeroHash else headerHash.

Definition AdoptHeaderFinality (justified finalized : Z) (headerHash : Hash) (q : QPOS) : QPOS :=
  let adoptJ := justifiedEpoch q <? justified in
  let adoptF := finalizedEpoch q <? finalized in
  let q := if adoptJ then
             set_justifiedRoot (adoptCheckpointRoot (getEpochBlockRootLocked justified q) justified headerHash)
               (set_justifiedEpoch justified q) else q in
  let q := if adoptF then
             set_finalizedRoot (adoptCheckpointRoot (getEpochBlockRootLocked finalized q) finalized headerHash)
               (set_finalizedEpoch finalized q) else q in
  if adoptJ || adoptF then
    persistFinalityLocked (pinFinalizedCheckpointSlotLocked (set_finalityPersistPending true q))
  else q.

Definition SetFinalityPersistCallback (present : bool) (q : QPOS) : QPOS :=
  let q := set_hasPersist present q in
  if present then
    persistFinalityLocked (if negb (hasCanonicalFinalityRootsLocked q) then set_finalityPersistPending true q else q)
  else q.

Definition restoredGenesisRoot (epoch : Z) (root : Hash) (q : QPOS) : error + Hash :=
  if negb (epoch =? 0) || isZero root then inr zeroHash else
  let genesisRoot := getEpochBlockRootLocked 0 q in
  if negb (isZero genesisRoot) && negb (bool_decide (genesisRoot = root))
  then inl (ErrErrorf "restore finality state: conflicting genesis root") else inr root.

Definition registerRestoredCheckpointRootsLocked (q : QPOS) : QPOS :=
  let q := if (0 <? justifiedEpoch q) && negb (isZero (justifiedRoot q))
           then set_epochBlockRoots (<[justifiedEpoch q := justifiedRoot q]> (epochBlockRoots q)) q else q in
  let q := if (0 <? finalizedEpoch q) && negb (isZero (finalizedRoot q))
           then set_epochBlockRoots (<[finalizedEpoch q := finalizedRoot q]> (epochBlockRoots q)) q else q in
  if hasCanonicalFinalityRootsLocked q then set_finalityPersistPending false q else q.

(** The genesis root in both maps. *)
Definition registerGenesis (root : Hash) (q : QPOS) : QPOS :=
  set_slotBlockRoots (<[0 := root]> (slotBlockRoots q)) (set_epochBlockRoots (<[0 := root]> (epochBlockRoots q)) q).

Definition RestoreFinalityState (jEpoch fEpoch : Z) (jRoot fRoot : Hash) : M QPOS unit :=
  guard_err (jEpoch <? fEpoch) (ErrErrorf "restore finality state: finalized epoch exceeds justified epoch");;
  guard_err ((fEpoch =? jEpoch) && (0 <? jEpoch) && negb (bool_decide (jRoot = fRoot)))
    (ErrErrorf "restore finality state: equal checkpoints have different roots");;
  guard_err ((0 <? jEpoch) && isZero jRoot) (ErrErrorf "restore finality state: justified root is zero");;
  guard_err ((0 <? fEpoch) && isZero fRoot) (ErrErrorf "restore finality state: finalized root is zero");;
  q ← gets id;
  guard_err ((jEpoch <? justifiedEpoch q) || (fEpoch <? finalizedEpoch q))
    (ErrErrorf "restore finality state: checkpoint is older than local state");;
  guard_err ((0 <? justifiedEpoch q) && (jEpoch =? justifiedEpoch q) && negb (bool_decide (jRoot = justifiedRoot q)))
    (ErrErrorf "restore finality state: conflicting justified root");;
  guard_err ((0 <? finalizedEpoch q) && (fEpoch =? finalizedEpoch q) && negb (bool_decide (fRoot = finalizedRoot q)))
    (ErrErrorf "restore finality state: conflicting finalized root");;
  match restoredGenesisRoot jEpoch jRoot q with
  | inl e => throw e
  | inr jGenesis =>
      match restoredGenesisRoot fEpoch fRoot q with
      | inl e => throw e
      | inr fGenesis =>
          guard_err ((jEpoch =? 0) && (fEpoch =? 0) && negb (isZero jRoot) && negb (isZero fRoot) &&
                     negb (bool_decide (jRoot = fRoot)))
            (ErrErrorf "restore finality state: conflicting epoch-zero roots");;
          modify (fun q =>
            let q := set_finalizedRoot fRoot (set_finalizedEpoch fEpoch (set_justifiedRoot jRoot (set_justifiedEpoch jEpoch q))) in
            let q := registerRestoredCheckpointRootsLocked q in
            let q := if negb (isZero jGenesis) then registerGenesis jGenesis q else q in
            if negb (isZero fGenesis) && isZero (getEpochBlockRootLocked 0 q) then registerGenesis fGenesis q else q)
      end
  end.

Definition ReanchorFinalityToGenesis (q : QPOS) : bool * QPOS :=
  let genesisRoot := getEpochBlockRootLocked 0 q in
  if isZero genesisRoot then (false, q) else
  let q := set_justifiedRoot genesisRoot (set_justifiedEpoch 0 q) in
  let q := set_finalizedRoot genesisRoot (set_finalizedEpoch 0 q) in
  let q := set_attestations ∅ (set_attestationSources ∅ q) in
  (true, persistFinalityLocked (set_finalityPersistPending true q)).

(** ** Seals *)

(** [SealRootState]: how the block of a seal of the threshold committee relates to
    the canonical chain. *)
Inductive SealRootState : Set := SealRootUnknown | SealRootMatches | SealRootDiffers.

(** A recorded zero root counts as none. *)
Definition knownRoot (r : option Hash) : option Hash :=
  match r with Some r => if isZero r then None else Some r | None => None end.

Definition sealState (slot : Z) (blockHash : Hash) (q : QPOS) : SealRootState :=
  match knownRoot (slotBlockRoots q !! slot) with
  | Some canonicalRoot => if bool_decide (canonicalRoot = blockHash) then SealRootMatches else SealRootDiffers
  | None =>
      match knownRoot (epochBlockRoots q !! SlotToEpoch slot) with
      | Some epochRoot => if bool_decide (epochRoot = blockHash) then SealRootMatches else SealRootUnknown
      | None => SealRootUnknown
      end
  end.

Definition advanceQPOSFinalityForSeal (slot : Z) (blockHash : Hash) (q : QPOS) : SealRootState * QPOS :=
  let epoch := SlotToEpoch slot in
  let checkpointRoot := default blockHash (knownRoot (epochBlockRoots q !! epoch)) in
  match sealState slot blockHash q with
  | SealRootMatches =>
      let f := finalizedEpoch q <? epoch in
      let q := if f then set_finalizedRoot checkpointRoot (set_finalizedEpoch epoch q) else q in
      let j := justifiedEpoch q <? epoch in
      let q := if j then set_justifiedRoot checkpointRoot (set_justifiedEpoch epoch q) else q in
      let q := if f || j then pinFinalizedCheckpointSlotLocked (set_finalityPersistPending true q) else q in
      (SealRootMatches, if f || j || finalityPersistPending q then persistFinalityLocked q else q)
  | state => (state, q)
  end.

(** ** Headers of synchronised blocks *)

(** The fields of [encoding.BlockHeader] that are read here. *)
Record BlockHeader : Type := mkHeader {
  bh_Height : Z;
  bh_Slot : Z;
  bh_Epoch : Z;
  bh_RANDAOReveal : Hash;
  bh_ProposerAddr : Address;
}.

Lemma length_xor (a b : Hash) :
  length (zip_with (fun x y => z2b (Z.lxor (b2z x) (b2z y))) (bytes_of a) (bytes_of b)) = 32%nat.
Proof. by rewrite length_zip_with_l_eq, length_bytes_of by (by rewrite !length_bytes_of). Qed.

Definition xorHash (a b : Hash) : Hash := mk_array _ (length_xor a b).

Definition pruneAppliedBlockRootsLocked (refSlot : Z) (q : QPOS) : QPOS :=
  if refSlot <? 3 * SlotsPerEpoch then q else
  let dropCount := Z.of_nat (size (appliedBlockRoots q)) - 3 * SlotsPerEpoch in
  if dropCount <=? 0 then q else
  let dropped := take (Z.to_nat dropCount) (rangeRoots env (appliedBlockRoots q)) in
  set_appliedBlockRoots (appliedBlockRoots q ∖ list_to_set dropped) q.

(** The root of epoch 0 is set once. *)
Definition registerGenesisOnce (blockHash : Hash) (q : QPOS) : QPOS :=
  if isZero (getEpochBlockRootLocked 0 q) then registerGenesis blockHash q else q.

Definition recordEpochRoot (h : BlockHeader) (blockHash : Hash) (q : QPOS) : QPOS :=
  if negb (isZero (bh_RANDAOReveal h)) && (bh_Slot h mod SlotsPerEpoch =? 0) then
    if bh_Epoch h =? 0 then registerGenesisOnce blockHash q
    else set_epochBlockRoots (<[bh_Epoch h := blockHash]> (epochBlockRoots q)) q
  else if (bh_Epoch h =? 0) && (bh_Height h =? 0) then registerGenesisOnce blockHash q
  else q.

Definition ApplyBlockHeader (blk : option BlockHeader) (blockHash : Hash) : M QPOS unit :=
  match blk with
  | None => throw (ErrErrorf "consensus.ApplyBlockHeader: nil block or header")
  | Some h =>
      modify (fun q =>
        if bool_decide (blockHash ∈ appliedBlockRoots q) then q else
        let q := set_appliedBlockRoots ({[blockHash]} ∪ appliedBlockRoots q) q in
        let q := if 3 * SlotsPerEpoch <? Z.of_nat (size (appliedBlockRoots q))
                 then pruneAppliedBlockRootsLocked (bh_Slot h) q else q in
        let q := set_slotBlockRoots (<[bh_Slot h := blockHash]> (slotBlockRoots q)) q in
        let q := recordEpochRoot h blockHash q in
        if negb (isZero (bh_RANDAOReveal h)) && (0 <=? GetValidatorIndex (bh_ProposerAddr h) (validators q))
        then set_randaoMix (xorHash (randaoMix q) (bh_RANDAOReveal h)) q else q)
  end.

(** ** Accumulators of the VRF *)

(** The caches that depend on the accumulator of [epoch]. *)
Definition dependents (epoch : Z) : gset Z := {[u64 (epoch + 1); u64 (epoch + 2)]}.

Definition dropShuffles (epochs : gset Z) (q : QPOS) : QPOS :=
  set_vdfSeedStopped (vdfSeedStopped q ∖ epochs)
    (set_shuffleCache (filter (fun '(e, _) => e ∉ epochs) (shuffleCache q)) q).

Definition dropColdStarts (epochs : gset Z) (q : QPOS) : QPOS := set_coldStartEpochs (coldStartEpochs q ∖ epochs) q.

Definition accumulatorCutoff (epoch : Z) (q : QPOS) : Z :=
  Z.min (if 1 <? finalizedEpoch q then finalizedEpoch q - 1 else epoch) (u64 (epoch - 3)).

Definition SetEpochVRFAccumulator (epoch : Z) (accOnChain : Hash) (q : QPOS) : QPOS :=
  let q := set_epochVRFAccumulator (<[epoch := accOnChain]> (epochVRFAccumulator q)) q in
  let q := dropColdStarts (dependents epoch) (dropShuffles (dependents epoch) q) in
  if 10 <? Z.of_nat (size (epochVRFAccumulator q)) then
    set_epochVRFAccumulator (filter (fun '(e, _) => accumulatorCutoff epoch q <= e) (epochVRFAccumulator q)) q
  else q.

Definition ClearEpochVRFAccumulatorsFrom (fromEpoch : Z) (q : QPOS) : QPOS :=
  let cleared := filter (fun e => fromEpoch <= e) (map_to_list (epochVRFAccumulator q)).*1 in
  let q := set_epochVRFAccumulator (filter (fun '(e, _) => e < fromEpoch) (epochVRFAccumulator q)) q in
  dropShuffles (⋃ (dependents <$> cleared)) q.

Definition SetAllEpochVRFAccumulators (accs : gmap Z Hash) (q : QPOS) : QPOS :=
  let accs := filter (fun '(_, acc) => acc <> zeroHash) accs in
  let q := set_epochVRFAccumulator (accs ∪ epochVRFAccumulator q) q in
  let epochs := ⋃ (dependents <$> (map_to_list accs).*1) in
  dropColdStarts epochs (dropShuffles epochs q).

Definition SetWeightedProposerCutover (epoch : Z) (q : QPOS) : QPOS := set_weightedProposerCutover epoch q.

End with_env.
End QposFinality.
