(* ===== verification/QposVotes.v ===== *)
(** * Attestations: committees, keys, slashing conditions

    Package consensus: the shuffle and the committee of a slot (qpos_proposer.go,
    qpos_committee.go, r102_weighted_proposer.go), the registry of session keys
    (validator_session_keys.go), the slashing conditions and the evidence queue
    (qpos_slashing.go), the processing and the creation of attestations, and the
    changes of the validator set (validator.go), and the pruning of votes with the
    rewards of an epoch (epoch.go). What a goroutine does after the
    call (the voting manager's statistics, the submission of queued evidence) is
    not part of the operation. *)

From Stdlib Require Import ZArith Lia.
From Stdlib.Strings Require Import Byte.
From stdpp Require Import base list countable gmap strings numbers sorting.
From S2P Require Import Prelude Stack Election Qpos QposFinality.

Module QposVotes.
Import Election Qpos QposFinality.

Section with_env.
Context (env : Env).

(** ** The shuffle of an epoch *)

Definition shuffleBytes (seed : Hash) (position bound : Z) (tail : list byte) : list byte :=
  bytes_of seed ++ be_bytes 8 position ++ be_bytes 8 bound ++ tail.

Definition hashValue (data : list byte) : Z := be (take 8 (bytes_of (keccak env data))).

(** Attempts [attempt .. 7], then the value without rejection; there the last
    four bytes of the buffer are what its previous user left. *)
Fixpoint shuffleAttempts (n : nat) (attempt : Z) (seed : Hash) (position bound : Z) : Z :=
  match n with
  | O => hashValue (shuffleBytes seed position bound (pooledBytes env)) mod bound
  | S n =>
      let maxVal := MaxUint64 - MaxUint64 mod bound in
      let val := hashValue (shuffleBytes seed position bound (be_bytes 4 attempt)) in
      if val <=? maxVal then val mod bound else shuffleAttempts n (attempt + 1) seed position bound
  end.

Definition computeShuffleIndex (seed : Hash) (position bound : Z) : Z :=
  if bound =? 0 then 0 else shuffleAttempts 8 0 seed position bound.

(** [indices[i], indices[j] = indices[j], indices[i]]. *)
Definition swap (i j : Z) (l : list Z) : list Z :=
  match l !! Z.to_nat i, l !! Z.to_nat j with
  | Some x, Some y => <[Z.to_nat j := x]> (<[Z.to_nat i := y]> l)
  | _, _ => l
  end.

Definition epochSeedLocked (epoch : Z) (q : QPOS) : (Hash * bool) * QPOS :=
  let prefix := be_bytes 8 epoch in
  if 2 <=? epoch then
    let srcEpoch := epoch - 2 in
    let vrfAcc := default zeroHash (epochVRFAccumulator q !! srcEpoch) in
    if isZero vrfAcc then ((keccak env prefix, true), q) else
    match vdfSeedFor env srcEpoch vrfAcc with
    | Some vdfSeed => ((keccak env (prefix ++ bytes_of vrfAcc ++ bytes_of vdfSeed), false), q)
    | None =>
        ((keccak env (prefix ++ bytes_of vrfAcc), false),
         if vdfStops env epoch then set_vdfSeedStopped ({[epoch]} ∪ vdfSeedStopped q) q else q)
    end
  else
    let genesisRoot := getEpochBlockRootLocked 0 q in
    ((keccak env (prefix ++ (if isZero genesisRoot then [] else bytes_of genesisRoot)), false), q).

Definition shuffle (seed : Hash) (n : Z) : list Z :=
  foldl (fun indices i => swap i (computeShuffleIndex seed i (i + 1)) indices)
    (seqZ 0 n) (reverse (seqZ 1 (n - 1))).

Definition computeDeterministicShuffleForEpoch (epoch n : Z) (q : QPOS) : (list Z * bool) * QPOS :=
  if n =? 0 then (([], false), q) else
  let '((seed, cold), q) := epochSeedLocked epoch q in
  ((shuffle seed n, cold), q).

(** ** Committees *)

Definition currentEpochUnlocked (now : Z) : Z :=
  if now <? genesisTime env then 0 else u64 (Z.quot (now - genesisTime env) SlotDuration) / SlotsPerEpoch.

Definition evictStaleShuffleCacheLocked (now : Z) (q : QPOS) : QPOS :=
  set_shuffleCache (filter (fun '(e, _) => ~ u64 (e + MaxShuffleCacheSize) <= currentEpochUnlocked now) (shuffleCache q)) q.

(** The validators at the indices [idxs] that are within the set of size [n]. *)
Definition members (vs : ValidatorSet) (n : Z) (idxs : list Z) : list Validator :=
  omap (fun idx => if (0 <=? idx) && (idx <? n) then GetValidatorByIndex idx vs else None) idxs.

Definition sliceSize (base rem i : Z) : Z := if i <? rem then base + 1 else base.

(** The offset in the shuffle at which slice [i] starts. *)
Definition sliceStart (base rem : Z) (i : nat) : Z :=
  foldl (fun off j => off + sliceSize base rem (Z.of_nat j)) 0 (seq 0 i).

Definition r103SlotCommittee (vs : ValidatorSet) (shuffled : list Z) (n slotInEpoch : Z) : list Validator :=
  let span := SlotsPerEpoch * TargetCommitteeSize in
  let committeesPerSlot := (n + span - 1) / span in
  let total := committeesPerSlot * SlotsPerEpoch in
  let base := n / total in
  let rem := n mod total in
  let first := slotInEpoch * committeesPerSlot in
  mjoin ((fun i =>
    let start := sliceStart base rem (Z.to_nat i) in
    members vs n (sub shuffled start (start + sliceSize base rem i))) <$> seqZ first committeesPerSlot).

Definition validatorsPerCommittee (n : Z) : Z :=
  let committeeSize := Z.min TargetCommitteeSize n in
  Z.min (Z.max 3 (n / SlotsPerEpoch)) committeeSize.

Definition sampledCommittee (vs : ValidatorSet) (shuffled : list Z) (n slotInEpoch : Z) : list Validator :=
  let perCommittee := validatorsPerCommittee n in
  let startIdx := (slotInEpoch * perCommittee) mod len shuffled in
  members vs n (omap (fun i => shuffled !! Z.to_nat ((startIdx + i) mod len shuffled)) (seqZ 0 perCommittee)).

Definition getCommitteeForSlotLocked (now slot : Z) : M QPOS (list Validator) := fun q =>
  let vs := validators q in
  let n := Size vs in
  if n =? 0 then (Err ErrNotInCommittee, q) else
  if n <=? SlotsPerEpoch then (Ok (vs_validators vs), q) else
  let epoch := SlotToEpoch slot in
  let slotInEpoch := slot mod SlotsPerEpoch in
  let '(shuffled, q) :=
    match shuffleCache q !! epoch with
    | Some shuffled => (shuffled, q)
    | None =>
        let '((shuffled, cold), q) := computeDeterministicShuffleForEpoch epoch n q in
        let q := evictStaleShuffleCacheLocked now (set_shuffleCache (<[epoch := shuffled]> (shuffleCache q)) q) in
        (shuffled, if cold : bool then set_coldStartEpochs ({[epoch]} ∪ coldStartEpochs q) q else q)
    end in
  if len shuffled =? 0 then (Ok (vs_validators vs), q) else
  if (weightedProposerCutover q <=? epoch) && (SlotsPerEpoch * 3 <? n)
  then (Ok (r103SlotCommittee vs shuffled n slotInEpoch), q) else
  let committee := sampledCommittee vs shuffled n slotInEpoch in
  (Ok (if len committee =? 0 then vs_validators vs else committee), q).

Definition isInCommitteeLocked (now slot : Z) (addr : Address) : M QPOS bool := fun q =>
  if Size (validators q) <=? SlotsPerEpoch then (Ok (0 <=? GetValidatorIndex addr (validators q)), q) else
  match getCommitteeForSlotLocked now slot q with
  | (Ok committee, q) => (Ok (existsb (fun v => bool_decide (v_Address v = addr)) committee), q)
  | (_, q) => (Ok false, q)
  end.

(** ** Session keys *)

Definition vkMagic : list byte := [x51; x56; x4b; x31].

Inductive VKOp : Type :=
  | VKOpBindMaster (master : Address)
  | VKOpRotateSession (activationEpoch : Z) (sessionPK : list byte)
  | VKOpRevoke.

Definition ErrVKBadPayload : error := ErrErrorf "validator-key: malformed payload".
Definition ErrVKNotValidator : error := ErrErrorf "validator-key: target is not a registered validator".
Definition ErrVKUnauthorized : error := ErrErrorf "validator-key: unauthorized caller".
Definition ErrVKBadActivation : error := ErrErrorf "validator-key: activation epoch must be in the future".
Definition ErrVKNoMaster : error := ErrErrorf "validator-key: no master bound for validator".
Definition ErrVKValidatorDown : error := ErrErrorf "validator-key: validator identity is revoked".

(** [copy(a[:], l)] for an address. *)
Definition addressOf (l : list byte) : Address := mk_array (copy (replicate 20 x00) l) (eq_trans (length_copy _ _) (length_replicate 20 x00)).

Definition parseVKPayload (data : list byte) : res (Address * VKOp) :=
  if len data <? 25 then Err ErrVKBadPayload else
  if negb (bool_decide (take 4 data = vkMagic)) then Err ErrVKBadPayload else
  let target := addressOf (sub data 5 25) in
  let rest := drop 25 data in
  match nth_byte data 4 with
  | x01 => if len rest =? 20 then Ok (target, VKOpBindMaster (addressOf rest)) else Err ErrVKBadPayload
  | x02 =>
      if len rest <? 10 then Err ErrVKBadPayload else
      let pkLen := be (sub rest 8 10) in
      if negb (len rest =? 10 + pkLen) || (pkLen =? 0) then Err ErrVKBadPayload else
      Ok (target, VKOpRotateSession (be (take 8 rest)) (drop 10 rest))
  | x03 => if len rest =? 0 then Ok (target, VKOpRevoke) else Err ErrVKBadPayload
  | _ => Err ErrVKBadPayload
  end.

(** The length of the key is written in 16 bits. *)
Definition EncodeVKRotateSession (target : Address) (activationEpoch : Z) (sessionPK : list byte) : list byte :=
  vkMagic ++ [x02] ++ bytes_of target ++ be_bytes 8 activationEpoch ++ be_bytes 2 (len sessionPK) ++ sessionPK.
Definition EncodeVKBindMaster (target master : Address) : list byte := vkMagic ++ [x01] ++ bytes_of target ++ bytes_of master.
Definition EncodeVKRevoke (target : Address) : list byte := vkMagic ++ [x03] ++ bytes_of target.

Definition zeroAddress : Address := zero_array 20.
Definition newKeyState : ValidatorKeyState := mkKeyState None 0 None 0 zeroAddress false 0 0.

Definition setKeys (session : option (list byte)) (activation : Z) (pending : option (list byte)) (pendingEpoch : Z)
    (e : ValidatorKeyState) : ValidatorKeyState :=
  mkKeyState session activation pending pendingEpoch (vk_MasterAddress e) (vk_Revoked e) (vk_LastOpHeight e) (vk_RotationCount e).

Definition putEntry (addr : Address) (e : ValidatorKeyState) : M QPOS unit :=
  modify (fun q => set_vkReg (<[addr := e]> (vkReg q)) q).

(** The entry exists before the authorization is checked. *)
Definition ApplyValidatorKeyTx (from : Address) (data : list byte) (height currentEpoch : Z) : M QPOS unit :=
  match parseVKPayload data with
  | Err e => throw e
  | Panic | NoFuel => panic
  | Ok (target, op) =>
      vs ← gets validators;
      guard_err (negb (bool_decide (target ∈ vs_validatorMap vs))) ErrVKNotValidator;;
      reg ← gets vkReg;
      let entry := default newKeyState (reg !! target) in
      putEntry target entry;;
      guard_err (vk_Revoked entry) ErrVKValidatorDown;;
      let master := vk_MasterAddress entry in
      let bound := negb (bool_decide (master = zeroAddress)) in
      let fromTarget := bool_decide (from = target) in
      let fromMaster := bool_decide (from = master) in
      match op with
      | VKOpBindMaster masterAddr =>
          guard_err (negb fromTarget && negb fromMaster) ErrVKUnauthorized;;
          guard_err (if bound then negb fromMaster else negb fromTarget) ErrVKUnauthorized;;
          putEntry target (mkKeyState (vk_SessionPubKey entry) (vk_ActivationEpoch entry) (vk_PendingPubKey entry)
            (vk_PendingEpoch entry) masterAddr false height (vk_RotationCount entry))
      | VKOpRotateSession actEpoch sessionPK =>
          guard_err (negb fromTarget) ErrVKUnauthorized;;
          guard_err (actEpoch <=? currentEpoch) ErrVKBadActivation;;
          putEntry target (mkKeyState (vk_SessionPubKey entry) (vk_ActivationEpoch entry) (Some sessionPK) actEpoch
            master false height (u64 (vk_RotationCount entry + 1)))
      | VKOpRevoke =>
          guard_err (negb bound) ErrVKNoMaster;;
          guard_err (negb fromMaster) ErrVKUnauthorized;;
          putEntry target (mkKeyState None (vk_ActivationEpoch entry) None (vk_PendingEpoch entry)
            master true height (vk_RotationCount entry))
      end
  end.

(** Asking for the key of an epoch promotes a pending key whose epoch is reached. *)
Definition promote (epoch : Z) (e : ValidatorKeyState) : ValidatorKeyState :=
  match vk_PendingPubKey e with
  | Some pk => if vk_PendingEpoch e <=? epoch then setKeys (Some pk) (vk_PendingEpoch e) None 0 e else e
  | None => e
  end.

Definition activeKey (epoch : Z) (e : ValidatorKeyState) : option (list byte) :=
  match vk_SessionPubKey e with
  | Some pk => if vk_ActivationEpoch e <=? epoch then Some pk else None
  | None => None
  end.

Definition EffectiveSessionPubKey (addr : Address) (epoch : Z) : M QPOS (option (list byte)) :=
  reg ← gets vkReg;
  match reg !! addr with
  | None => mret None
  | Some entry =>
      if vk_Revoked entry then mret None else
      let entry := promote epoch entry in
      putEntry addr entry;; mret (activeKey epoch entry)
  end.

Definition IsValidatorRevoked (addr : Address) (q : QPOS) : bool :=
  match vkReg q !! addr with Some e => vk_Revoked e | None => false end.

(** ** Signatures *)

Definition AttestationDomainSeparator : list byte :=
  [x51; x55; x41; x4e; x54; x41; x55; x52; x45; x55; x4d; x5f; x41; x54; x54; x5f; x56; x31].

Definition attestationSigningData (att : Attestation) : list byte :=
  AttestationDomainSeparator ++ be_bytes 8 (networkID env) ++ be_bytes 8 (att_Slot att) ++ be_bytes 8 (att_KeyVersion att) ++
  bytes_of (att_BeaconBlockRoot att) ++
  be_bytes 8 (cp_Epoch (att_Source att)) ++ bytes_of (cp_Root (att_Source att)) ++
  be_bytes 8 (cp_Epoch (att_Target att)) ++ bytes_of (cp_Root (att_Target att)) ++
  be_bytes 8 (if att_ValidatorIndex att <? 0 then 0 else att_ValidatorIndex att).

Definition verifyAttestationSignature (att : Attestation) (validator : Validator) : M QPOS unit :=
  guard_err (len (att_Signature att) =? 0) ErrInvalidAttestation;;
  revoked ← gets (IsValidatorRevoked (v_Address validator));
  guard_err revoked ErrInvalidAttestation;;
  session ← EffectiveSessionPubKey (v_Address validator) (cp_Epoch (att_Target att));
  let pubKeyBytes := default (v_PublicKeyBytes validator) session in
  guard_err (len pubKeyBytes =? 0) ErrInvalidAttestation;;
  guard_err (negb (validPublicKey env pubKeyBytes)) ErrInvalidAttestation;;
  guard_err (negb (verify env pubKeyBytes (attestationSigningData att) (att_Signature att))) ErrInvalidAttestation.

(** ** Slashing conditions *)

Definition attestationToVote (att : Attestation) (validatorAddr : Address) : Vote :=
  mkVote VoteTypeAttestation (att_Slot att) 0 (att_BeaconBlockRoot att) validatorAddr (att_Signature att)
    (cp_Epoch (att_Source att)) (cp_Epoch (att_Target att)) (cp_Root (att_Source att)) (cp_Root (att_Target att))
    (att_KeyVersion att) (att_ValidatorIndex att).

Definition voteToAttestation (vote : Vote) : option Attestation :=
  match vote_Type vote with
  | VoteTypeAttestation =>
      Some (mkAttestation (vote_Height vote) (vote_BlockHash vote)
              (mkCheckpoint (vote_SourceEpoch vote) (vote_SourceRoot vote))
              (mkCheckpoint (vote_TargetEpoch vote) (vote_TargetRoot vote))
              (vote_ValidatorIndex vote) (vote_Signature vote) (vote_KeyVersion vote))
  | _ => None
  end.

Definition attsOf (q : QPOS) (validatorIndex : Z) : gmap Z Attestation := default ∅ (validatorAttestations q !! validatorIndex).

Definition recordAtt (validatorIndex slot : Z) (att : Attestation) (q : QPOS) : QPOS :=
  set_validatorAttestations (<[validatorIndex := <[slot := att]> (attsOf q validatorIndex)]> (validatorAttestations q)) q.

Definition syncVoteToAttestations (vote : Vote) (validatorIndex : Z) (q : QPOS) : QPOS :=
  match voteToAttestation vote with
  | None => q
  | Some att => if validatorIndex <? 0 then q else recordAtt validatorIndex (vote_Height vote) att q
  end.

Definition evidenceWellFormed (e : SlashingEvidence) : bool :=
  negb (bool_decide (ev_ValidatorAddr e = zeroAddress)) &&
  match ev_Reason e with
  | SlashingReasonDoubleSigning | SlashingReasonSurroundVote | SlashingReasonDoubleVote =>
      match ev_Vote1 e, ev_Vote2 e with Some _, Some _ => true | _, _ => false end
  | SlashingReasonDowntime | SlashingReasonInvalidVRF => true
  | SlashingReasonOther _ => false
  end.

Definition evidenceAgainst (addr : Address) (queue : list SlashingEvidence) : list SlashingEvidence :=
  filter (fun e => ev_ValidatorAddr e = addr) queue.

(** The queue without its first entry against [addr], if it has one. *)
Fixpoint evictFirst (addr : Address) (queue : list SlashingEvidence) : option (list SlashingEvidence) :=
  match queue with
  | [] => None
  | e :: queue =>
      if decide (ev_ValidatorAddr e = addr) then Some queue
      else match evictFirst addr queue with Some rest => Some (e :: rest) | None => None end
  end.

Definition enqueue (evidence : SlashingEvidence) (queue : list SlashingEvidence) : list SlashingEvidence :=
  if negb (evidenceWellFormed evidence) then queue else
  if MaxEvidencePerValidator <=? len (evidenceAgainst (ev_ValidatorAddr evidence) queue) then queue else
  if MaxEvidenceQueue <=? len queue then
    match evictFirst (ev_ValidatorAddr evidence) queue with
    | Some rest => rest ++ [evidence]
    | None => queue
    end
  else queue ++ [evidence].

Definition queueSlashingEvidenceLocked (evidence : SlashingEvidence) (q : QPOS) : QPOS :=
  set_evidenceQueue (enqueue evidence (evidenceQueue q)) q.

Definition queueSlashingEvidence (evidence : option SlashingEvidence) (q : QPOS) : QPOS :=
  match evidence with None => q | Some e => queueSlashingEvidenceLocked e q end.

Definition GetQueuedEvidence (q : QPOS) : list SlashingEvidence * QPOS := (evidenceQueue q, set_evidenceQueue [] q).

Definition checkDoubleVote (now : Z) (att : Attestation) : M QPOS unit :=
  q ← gets id;
  match GetValidatorByIndex (att_ValidatorIndex att) (validators q) with
  | None => throw ErrInvalidAttestation
  | Some v =>
      match attsOf q (att_ValidatorIndex att) !! att_Slot att with
      | None => mret tt
      | Some existing =>
          if bool_decide (att_BeaconBlockRoot existing = att_BeaconBlockRoot att) then mret tt else
          let evidenceTs := if lastKnownBlockTime q =? 0 then now else lastKnownBlockTime q in
          modify (queueSlashingEvidenceLocked
            (mkEvidence SlashingReasonDoubleVote (v_Address v) (att_Slot att)
               (Some (attestationToVote existing (v_Address v))) (Some (attestationToVote att (v_Address v))) evidenceTs));;
          throw ErrDoubleVote
      end
  end.

(** The condition under which two votes of a validator conflict, with the error it gives. *)
Definition conflict (att existing : Attestation) : option error :=
  let s := att_Source att in
  let t := att_Target att in
  let s' := att_Source existing in
  let t' := att_Target existing in
  if (cp_Epoch s =? cp_Epoch s') && negb (bool_decide (cp_Root s = cp_Root s')) then Some ErrDoubleVote else
  if (cp_Epoch t =? cp_Epoch t') && negb (bool_decide (cp_Root t = cp_Root t')) then Some ErrDoubleVote else
  if (cp_Epoch s <? cp_Epoch s') && (cp_Epoch t' <? cp_Epoch t) then Some ErrSurroundVote else
  if (cp_Epoch s' <? cp_Epoch s) && (cp_Epoch t <? cp_Epoch t') then Some ErrSurroundVote else None.

Fixpoint firstConflict (att : Attestation) (l : list Attestation) : option (Attestation * error) :=
  match l with
  | [] => None
  | existing :: l =>
      match conflict att existing with
      | Some e => Some (existing, e)
      | None => firstConflict att l
      end
  end.

(** The attestation in conflict, when there is one, and the error. *)
Definition checkSurroundVote (att : Attestation) (q : QPOS) : option (option Attestation * error) :=
  match GetValidatorByIndex (att_ValidatorIndex att) (validators q) with
  | None => Some (None, ErrInvalidAttestation)
  | Some _ =>
      match firstConflict att (rangeAtts env (attsOf q (att_ValidatorIndex att))) with
      | Some (existing, e) => Some (Some existing, e)
      | None => None
      end
  end.

(** ** Processing an attestation *)

(** The rejection of a vote that conflicts with a recorded one, with the evidence. *)
Definition rejectConflict (att existing : Attestation) (v : Validator) (e : error) : M QPOS unit :=
  q ← gets id;
  let reason := if decide (e = ErrDoubleVote) then SlashingReasonDoubleVote else SlashingReasonSurroundVote in
  modify (queueSlashingEvidenceLocked
    (mkEvidence reason (v_Address v) (att_Slot att)
       (Some (attestationToVote att (v_Address v))) (Some (attestationToVote existing (v_Address v))) (lastKnownBlockTime q)));;
  throw e.

(** The test that the source is the canonical root of its epoch. *)
Definition sourceCanonical (att : Attestation) (q : QPOS) : bool :=
  let source := att_Source att in
  if 0 <? cp_Epoch source then
    let canonical := getEpochBlockRootLocked (cp_Epoch source) q in
    negb (isZero canonical) && bool_decide (cp_Root source = canonical)
  else true.

(** The attestation is stored, recorded for its validator, and finality is tried. *)
Definition acceptAttestation (now : Z) (att : Attestation) (q : QPOS) : QPOS :=
  let slot := att_Slot att in
  let q := set_attestations (<[slot := votesAt q slot ++ [att]]> (attestations q)) q in
  let q := recordAtt (att_ValidatorIndex att) slot att q in
  let q := set_attestationCounter (u64 (attestationCounter q + 1)) q in
  tryUpdateFinality env now q.

Definition ProcessAttestation (now : Z) (attestation : option Attestation) : M QPOS unit :=
  match attestation with
  | None => throw ErrInvalidAttestation
  | Some att =>
      guard_err (networkID env =? 0) ErrNetworkIDNotConfigured;;
      let currentSlot := GetCurrentSlot env now in
      guard_err (u64 (currentSlot + 1) <? att_Slot att) ErrSlotTooFar;;
      guard_err ((SlotsPerEpoch <? currentSlot) && (att_Slot att <? currentSlot - SlotsPerEpoch)) ErrSlotInPast;;
      let attSlotEpoch := SlotToEpoch (att_Slot att) in
      guard_err (GetCurrentEpoch env now <? attSlotEpoch) ErrSlotTooFar;;
      q ← gets id;
      let i := att_ValidatorIndex att in
      match GetValidatorByIndex i (validators q) with
      | None => throw ErrInvalidAttestation
      | Some v =>
          guard_err (match slashedValidators q !! i with Some _ => true | None => false end) ErrValidatorSlashed;;
          guard_err (negb (v_Active v)) ErrValidatorNotActive;;
          guard_err (match attsOf q i !! att_Slot att with
                     | Some existing => bool_decide (att_BeaconBlockRoot existing = att_BeaconBlockRoot att)
                     | None => false
                     end) ErrDuplicateAttestation;;
          verifyAttestationSignature att v;;
          guard_err (negb (cp_Epoch (att_Target att) =? attSlotEpoch)) ErrInvalidAttestation;;
          guard_err (cp_Epoch (att_Target att) <=? cp_Epoch (att_Source att)) ErrInvalidAttestation;;
          guard_err (negb (sourceCanonical att q)) ErrInvalidAttestation;;
          inCommittee ← isInCommitteeLocked now (att_Slot att) (v_Address v);
          guard_err (negb inCommittee) ErrNotInCommittee;;
          checkDoubleVote now att;;
          match checkSurroundVote att q with
          | Some (Some existing, e) => rejectConflict att existing v e
          | Some (None, e) => throw e
          | None =>
              guard_err (existsb (fun existing => att_ValidatorIndex existing =? i) (votesAt q (att_Slot att)))
                ErrDuplicateAttestation;;
              modify (acceptAttestation now att)
          end
      end
  end.

(** ** Creating an attestation *)

Definition CreateAttestation (slot : Z) (blockRoot : Hash) (validatorIndex : Z) (q : QPOS) : option Attestation * QPOS :=
  let currentEpoch := SlotToEpoch slot in
  let source :=
    match attestationSources q !! currentEpoch with
    | Some source => Some source
    | None =>
        if (0 <? currentEpoch) && (currentEpoch <=? justifiedEpoch q) && (currentEpoch <=? finalizedEpoch q) then
          let root := getEpochBlockRootLocked (currentEpoch - 1) q in
          if (0 <? currentEpoch - 1) && isZero root then None else Some (mkCheckpoint (currentEpoch - 1) root)
        else Some (mkCheckpoint (justifiedEpoch q) (justifiedRoot q))
    end in
  match source with
  | None => (None, q)
  | Some source =>
      let targetRoot := getEpochBlockRootLocked currentEpoch q in
      let vote := mkAttestation slot blockRoot source (mkCheckpoint currentEpoch targetRoot) validatorIndex [] (currentKeyVersion q) in
      if negb (isZero targetRoot) && (cp_Epoch source <? currentEpoch) then
        let sources := filter (fun '(epoch, _) => ~ (epoch < currentEpoch /\ 2 < currentEpoch - epoch)) (attestationSources q) in
        let q := set_attestationSources sources q in
        if bool_decide (sources !! currentEpoch = None) && (64 <=? Z.of_nat (size sources)) then (None, q) else
        (Some vote, set_attestationSources (<[currentEpoch := source]> sources) q)
      else (if isZero targetRoot then None else Some vote, q)
  end.

(** ** Pruning *)

Definition lowestKeys (n : nat) (m : gmap Z (gmap Z Attestation)) : list Z := take n (merge_sort Z.le (map_to_list m).*1).

(** One iteration over the tracked validators. *)
Definition pruneValidator (keepSlot : Z) (m : gmap Z (gmap Z Attestation)) (i : Z) : gmap Z (gmap Z Attestation) :=
  match m !! i with
  | None => m
  | Some atts =>
      let atts := filter (fun '(slot, _) => keepSlot <= slot) atts in
      let m := if decide (atts = ∅) then delete i m else <[i := atts]> m in
      let extra := Z.of_nat (size m) - MaxTrackedValidators in
      if 0 <? extra then foldl (fun m j => delete j m) m (lowestKeys (Z.to_nat extra) m) else m
  end.

Definition PruneOldAttestations (keepAboveSlot : Z) (q : QPOS) : Z * QPOS :=
  let old := filter (fun '(slot, _) => slot < keepAboveSlot) (attestations q) in
  let pruned := foldr (fun '(_, atts) n => len atts + n) 0 (map_to_list old) in
  let q := set_attestations (filter (fun '(slot, _) => keepAboveSlot <= slot) (attestations q)) q in
  let keep := (FinalityDelay + 1) * SlotsPerEpoch in
  let slashingKeepSlot := if keep <? keepAboveSlot then keepAboveSlot - keep else 0 in
  let q := set_validatorAttestations
    (foldl (pruneValidator slashingKeepSlot) (validatorAttestations q) (map_to_list (validatorAttestations q)).*1) q in
  (pruned, set_aggregatedAttestations (filter (fun slot => keepAboveSlot <= slot) (aggregatedAttestations q)) q).

(** What processing the rewards of [epoch] does to the votes; the rewards
    themselves are not modelled. *)
Definition pruneAfterRewards (epoch : Z) (q : QPOS) : QPOS :=
  if (epoch =? 0) || (finalizedEpoch q <=? 0) then q else
  let pruneBeforeSlot := EpochStartSlot (finalizedEpoch q) in
  let q := set_attestations (filter (fun '(slot, _) => pruneBeforeSlot <= slot) (attestations q)) q in
  let keep := (FinalityDelay + 1) * SlotsPerEpoch in
  let slashingPruneSlot := if keep <? pruneBeforeSlot then pruneBeforeSlot - keep else 0 in
  let kept := (fun atts => filter (fun '(slot, _) => slashingPruneSlot <= slot) atts) <$> validatorAttestations q in
  let q := set_validatorAttestations (filter (fun '(_, atts) => atts <> ∅) kept) q in
  set_aggregatedAttestations (filter (fun slot => pruneBeforeSlot <= slot) (aggregatedAttestations q)) q.

(** ** Slashed validators *)

Definition clearPending (addr : Address) (q : QPOS) : QPOS :=
  set_pendingDeactivationAddrs (pendingDeactivationAddrs q ∖ {[addr]}) q.

Definition MarkValidatorSlashedByAddress (now : Z) (addr : Address) (permanent : bool) (jailUntil : Z) : M QPOS unit :=
  q ← gets id;
  let index := GetValidatorIndex addr (validators q) in
  guard_err (index <? 0) (ErrErrorf "validator not found in validator set");;
  match slashedValidators q !! index with
  | Some existing =>
      if sl_Permanent existing then modify (clearPending addr) else
      let entry := mkSlashed (GetCurrentEpoch env now) (permanent || sl_Permanent existing)
        (if permanent then 0 else Z.max jailUntil (sl_JailUntil existing)) in
      modify (fun q => clearPending addr (set_slashedValidators (<[index := entry]> (slashedValidators q)) q))
  | None =>
      let entry := mkSlashed (GetCurrentEpoch env now) permanent jailUntil in
      modify (fun q =>
        let q := set_slashedValidators (<[index := entry]> (slashedValidators q)) q in
        clearPending addr (set_validators (DeactivateValidator index (validators q)).2 q))
  end.

Definition UnmarkValidatorSlashed (addr : Address) : M QPOS unit :=
  q ← gets id;
  let index := GetValidatorIndex addr (validators q) in
  if index <? 0 then modify (clearPending addr) else
  match slashedValidators q !! index with
  | None => modify (clearPending addr)
  | Some entry =>
      guard_err (sl_Permanent entry) ErrValidatorPermanent;;
      modify (fun q => clearPending addr (set_slashedValidators (delete index (slashedValidators q)) q))
  end.

Definition CleanupValidatorState (addr : Address) (q : QPOS) : QPOS :=
  let index := GetValidatorIndex addr (validators q) in
  let q := if 0 <=? index then set_slashedValidators (delete index (slashedValidators q)) q else q in
  clearPending addr q.

Definition MarkPendingDeactivationAddr (addr : Address) (q : QPOS) : QPOS :=
  set_pendingDeactivationAddrs ({[addr]} ∪ pendingDeactivationAddrs q) q.

Definition isPendingDeactivation (validatorIndex : Z) (q : QPOS) : bool :=
  match GetValidatorByIndex validatorIndex (validators q) with
  | Some v => bool_decide (v_Address v ∈ pendingDeactivationAddrs q)
  | None => false
  end.

Definition CleanupStalePendingDeactivation (q : QPOS) : QPOS :=
  let stale (addr : Address) :=
    let idx := GetValidatorIndex addr (validators q) in
    (idx <? 0) || bool_decide (is_Some (slashedValidators q !! idx)) in
  set_pendingDeactivationAddrs (filter (fun addr => stale addr = false) (pendingDeactivationAddrs q)) q.

Definition IsSlashed (validatorIndex : Z) (q : QPOS) : bool := bool_decide (is_Some (slashedValidators q !! validatorIndex)).

(** ** Changes of the validator set *)

Definition clearCaches (q : QPOS) : QPOS := set_committeeCache ∅ (set_weightedCumCache ∅ (set_shuffleCache ∅ q)).

Definition validatorsCapExceeded (size : Z) : bool := MaxValidators <=? size.

(** [StakeConsistencyChecker.VerifyTotalStake]: the stakes of the active validators add up. *)
Definition VerifyTotalStake (validators : list Validator) (expectedTotal : Z) : bool :=
  foldr (fun v total => activeStake v + total) 0 validators =? expectedTotal.

(** [authorized]: the caller is authorized or the governance, or there is no list of callers. *)
Definition UpdateValidatorSetAuthorized (vs : option ValidatorSet) (authorized : bool) : M QPOS unit :=
  guard_err (negb authorized) (ErrErrorf "unauthorized operation");;
  match vs with
  | None => throw (ErrErrorf "validator set is empty")
  | Some vs =>
      guard_err (Size vs =? 0) (ErrErrorf "validator set is empty");;
      guard_err (MaxValidators <? Size vs) (ErrErrorf "validator set size %d exceeds maximum %d");;
      guard_err (negb (VerifyTotalStake (vs_validators vs) (vs_totalStake vs))) (ErrErrorf "stake inconsistency");;
      modify (fun q => clearCaches (set_validators vs q))
  end.

Definition AddStakingValidator (addr : Address) (stake : Z) (q : QPOS) : bool * QPOS :=
  if validatorsCapExceeded (Size (validators q)) then (false, q) else
  let '(added, vs) := AddValidator addr stake (validators q) in
  (added, clearCaches (set_validators vs q)).

Definition RemoveStakingValidator (addr : Address) (q : QPOS) : bool * QPOS :=
  let '(removed, vs) := RemoveValidatorByAddr addr (validators q) in
  (removed, clearCaches (set_validators vs q)).

Definition Dilithium3PublicKeySize : Z := 1952.

(** The pointer found by address is the entry of [validators] with that address. *)
Definition AttachValidatorPublicKey (addr : Address) (pubKey : list byte) (q : QPOS) : bool * QPOS :=
  if negb (len pubKey =? Dilithium3PublicKeySize) then (false, q) else
  let idx := GetValidatorIndex addr (validators q) in
  match GetValidatorByIndex idx (validators q) with
  | None => (false, q)
  | Some v =>
      if negb (len (v_PublicKeyBytes v) =? 0) then (false, q) else
      (true, set_validators (setValidator idx (set_PublicKeyBytes pubKey v) (validators q)) q)
  end.

End with_env.
End QposVotes.
