(* ===== verification/QposSpec.v ===== *)
(** * Facts about the engine shared by its theorems

    The operations as a state machine; the frame of every operation for the
    checkpoints, the recorded votes and the evidence queue; sums of weights over
    sets of validators. *)

From Stdlib Require Import ZArith Lia.
From Stdlib.Strings Require Import Byte.
From stdpp Require Import base list countable gmap strings numbers sorting.
From S2P Require Import Prelude Stack Election Qpos QposFinality QposVotes.

Module QposSpec.
Import Election Qpos QposFinality QposVotes.

(** ** The engine as a state machine *)

(** The operations that change the engine, each at the clock's time. Every
    operation of the package that writes the checkpoints, the canonical roots, the
    recorded votes or the evidence queue is among them; [SetSlashingManager], as
    far as the queue goes, is [OpDrainEvidence]. The operations left out
    (penalties and investigations, key versions, aggregates, the proposer's boost,
    sync committees) write none of these. *)
Inductive Op : Type :=
  | OpAttest (att : option Attestation)
  | OpCheckFinality
  | OpSetEpochRoot (epoch : Z) (root : Hash)
  | OpEnsureEpochRoot (epoch : Z) (root : Hash)
  | OpBackfill (roots : gmap Z Hash)
  | OpGenesisRoot (root : Hash)
  | OpSetSlotRoot (slot : Z) (root : Hash)
  | OpReanchor (roots vrf : gmap Z Hash) (bounds : ReanchorBounds)
  | OpFinalizedSlot (root : Hash) (slot : Z)
  | OpAdopt (justified finalized : Z) (headerHash : Hash)
  | OpRestore (jEpoch fEpoch : Z) (jRoot fRoot : Hash)
  | OpPersistCallback (present : bool)
  | OpBlockTime (timestamp : Z)
  | OpCreate (slot : Z) (root : Hash) (validatorIndex : Z)
  | OpPrune (keepAboveSlot : Z)
  | OpEvidence (evidence : option SlashingEvidence)
  | OpDrainEvidence
  | OpKeyTx (from : Address) (data : list byte) (height epoch : Z)
  | OpSessionKey (addr : Address) (epoch : Z)
  | OpMark (addr : Address) (permanent : bool) (jailUntil : Z)
  | OpUnmark (addr : Address)
  | OpCleanup (addr : Address)
  | OpMarkPending (addr : Address)
  | OpCleanupPending
  | OpAddStaking (addr : Address) (stake : Z)
  | OpRemoveStaking (addr : Address)
  | OpAttachKey (addr : Address) (pubKey : list byte)
  | OpUpdateSet (vs : option ValidatorSet) (authorized : bool)
  | OpSyncVote (vote : Vote) (validatorIndex : Z)
  | OpEpochRewards (epoch : Z)
  | OpSeal (slot : Z) (blockHash : Hash)
  | OpBlockHeader (blk : option BlockHeader) (blockHash : Hash)
  | OpAccumulator (epoch : Z) (acc : Hash)
  | OpClearAccumulators (fromEpoch : Z)
  | OpLoadAccumulators (accs : gmap Z Hash)
  | OpWeightedCutover (epoch : Z)
  | OpReanchorGenesis.

Section with_env.
Context (env : Env).

Definition step (now : Z) (op : Op) (q : QPOS) : QPOS :=
  match op with
  | OpAttest att => (ProcessAttestation env now att q).2
  | OpCheckFinality => (CheckFinality env now q).2
  | OpSetEpochRoot e r => SetEpochBlockRoot env e r q
  | OpEnsureEpochRoot e r => EnsureEpochBlockRoot env e r q
  | OpBackfill roots => (BackfillEpochRoots env roots q).2
  | OpGenesisRoot r => SetGenesisRoot r q
  | OpSetSlotRoot s r => SetSlotBlockRoot s r q
  | OpReanchor roots vrf bounds => (reanchorSlotRoots roots vrf bounds q).2
  | OpFinalizedSlot r s => (SetFinalizedCheckpointSlot r s q).2
  | OpAdopt j f h => AdoptHeaderFinality env j f h q
  | OpRestore j f jr fr => (RestoreFinalityState j f jr fr q).2
  | OpPersistCallback b => SetFinalityPersistCallback env b q
  | OpBlockTime t => SetLastKnownBlockTime t q
  | OpCreate s r i => (CreateAttestation s r i q).2
  | OpPrune k => (PruneOldAttestations k q).2
  | OpEvidence e => queueSlashingEvidence e q
  | OpDrainEvidence => (GetQueuedEvidence q).2
  | OpKeyTx from data h e => (ApplyValidatorKeyTx from data h e q).2
  | OpSessionKey addr e => (EffectiveSessionPubKey addr e q).2
  | OpMark addr p j => (MarkValidatorSlashedByAddress env now addr p j q).2
  | OpUnmark addr => (UnmarkValidatorSlashed addr q).2
  | OpCleanup addr => CleanupValidatorState addr q
  | OpMarkPending addr => MarkPendingDeactivationAddr addr q
  | OpCleanupPending => CleanupStalePendingDeactivation q
  | OpAddStaking addr stake => (AddStakingValidator addr stake q).2
  | OpRemoveStaking addr => (RemoveStakingValidator addr q).2
  | OpAttachKey addr pk => (AttachValidatorPublicKey addr pk q).2
  | OpUpdateSet vs authorized => (UpdateValidatorSetAuthorized vs authorized q).2
  | OpSyncVote vote i => syncVoteToAttestations vote i q
  | OpEpochRewards e => pruneAfterRewards e q
  | OpSeal slot h => (advanceQPOSFinalityForSeal env slot h q).2
  | OpBlockHeader blk h => (ApplyBlockHeader env blk h q).2
  | OpAccumulator e acc => SetEpochVRFAccumulator e acc q
  | OpClearAccumulators e => ClearEpochVRFAccumulatorsFrom e q
  | OpLoadAccumulators accs => SetAllEpochVRFAccumulators accs q
  | OpWeightedCutover e => SetWeightedProposerCutover e q
  | OpReanchorGenesis => (ReanchorFinalityToGenesis env q).2
  end.

(** A run: each operation with the time it happens at. *)
Definition run (ops : list (Z * Op)) (q : QPOS) : QPOS := foldl (fun q '(now, op) => step now op q) q ops.

(** What every step establishes, a run establishes. *)
Lemma run_rel (R : QPOS -> QPOS -> Prop) `{!PreOrder R} :
  (forall now op q, R q (step now op q)) -> forall ops q, R q (run ops q).
Proof.
  intros HS ops. induction ops as [|[now op] ops IH]; intros q; [reflexivity|].
  etransitivity; [apply (HS now op)|apply IH].
Qed.

Lemma run_keeps (P : QPOS -> Prop) :
  (forall now op q, P q -> P (step now op q)) -> forall ops q, P q -> P (run ops q).
Proof. intros HS ops. induction ops as [|[now op] ops IH]; intros q H; [done|]. by apply IH, HS. Qed.

(** ** The order of checkpoints *)

(** The finalized root is the recorded root of its epoch. *)
Definition recorded (q : QPOS) : Prop := epochBlockRoots q !! finalizedEpoch q = Some (finalizedRoot q) /\ finalizedRoot q <> zeroHash.

(** The field [currentEpoch] has no assignment in the source. *)
Record advances (q q' : QPOS) : Prop := mkAdvances {
  adv_j : justifiedEpoch q <= justifiedEpoch q';
  adv_f : finalizedEpoch q <= finalizedEpoch q';
  adv_c : currentEpoch q' = currentEpoch q;
  adv_r : 1 < finalizedEpoch q -> currentEpoch q = 0 -> recorded q -> finalizedEpoch q' = finalizedEpoch q ->
    recorded q' /\ finalizedRoot q' = finalizedRoot q;
}.

#[export] Instance advances_preorder : PreOrder advances.
Proof.
  split.
  - intros q. by split.
  - intros q q1 q2 [J1 F1 C1 R1] [J2 F2 C2 R2]. split; [lia|lia|congruence|].
    intros H1 HC HR HE. assert (finalizedEpoch q1 = finalizedEpoch q) as E1 by lia.
    destruct (R1 H1 HC HR E1) as [HR1 ER1]. destruct R2 as [HR2 ER2]; [lia|congruence|done|lia|].
    split; [done|congruence].
Qed.

(** The fields the checkpoints consist of. *)
Definition checkpoints (q : QPOS) := (justifiedEpoch q, finalizedEpoch q, finalizedRoot q, epochBlockRoots q, currentEpoch q).

Lemma advances_same q q' : checkpoints q' = checkpoints q -> advances q q'.
Proof.
  unfold checkpoints. intros [= HJ HF HR HE HC]. split; [lia|lia|done|].
  intros _ _ H _. unfold recorded. by rewrite HE, HF, HR.
Qed.

(** *** The checkpoint operations *)

Lemma persist_cp q : checkpoints (persistFinalityLocked env q) = checkpoints q.
Proof. unfold persistFinalityLocked. by repeat case_match. Qed.

Lemma pin_cp q : checkpoints (pinFinalizedCheckpointSlotLocked q) = checkpoints q.
Proof. unfold pinFinalizedCheckpointSlotLocked. by repeat case_match. Qed.

Lemma reconcile_cp e r q :
  checkpoints (reconcileRoots e r q).2 =
  (justifiedEpoch q, finalizedEpoch q, (if finalizedEpoch q =? e then r else finalizedRoot q), epochBlockRoots q, currentEpoch q).
Proof.
  unfold reconcileRoots, checkpoints. destruct ((justifiedEpoch q =? e) && negb (bool_decide (justifiedRoot q = r)));
    cbn; destruct (finalizedEpoch q =? e); cbn; try done; by case_bool_decide as H; cbn; rewrite ?H.
Qed.

(** Recording a root that is not pinned. *)
Lemma insert_root_advances e r q :
  rootPinned e r q = false ->
  advances q (reconcileRoots e r (set_epochBlockRoots (<[e := r]> (epochBlockRoots q)) q)).2.
Proof.
  intros HP. pose proof (reconcile_cp e r (set_epochBlockRoots (<[e := r]> (epochBlockRoots q)) q)) as HC.
  generalize dependent (reconcileRoots e r (set_epochBlockRoots (<[e := r]> (epochBlockRoots q)) q)).2. intros q1 HC.
  unfold checkpoints in HC. cbn in HC. injection HC as HJ HF HR HE HC.
  split; [lia|lia|done|]. intros H1 _ [HREC HNZ] _. unfold recorded. rewrite HR, HF, HE.
  destruct (Z.eqb_spec (finalizedEpoch q) e) as [<-|HN].
  - unfold rootPinned in HP. rewrite HREC, Z.eqb_refl, (proj2 (Z.ltb_lt _ _)) in HP by lia.
    unfold isZero in HP. rewrite (bool_decide_eq_false_2 _ HNZ) in HP. cbn in HP.
    apply negb_false_iff, bool_decide_eq_true in HP. rewrite HP, lookup_insert_eq. by subst.
  - by rewrite lookup_insert_ne by done.
Qed.

Lemma cutoff_le epoch q : 1 < finalizedEpoch q -> currentEpoch q = 0 -> epochPruneCutoff epoch q <= finalizedEpoch q.
Proof.
  intros H1 HC. unfold epochPruneCutoff. rewrite HC, (proj2 (Z.ltb_lt _ _) H1). cbn.
  destruct (Z.ltb_spec 1 (justifiedEpoch q)), (Z.ltb_spec (justifiedEpoch q - 1) (finalizedEpoch q - 1)); cbn; lia.
Qed.

Lemma prune_advances epoch q : advances q (pruneEpochRoots epoch q).
Proof.
  unfold pruneEpochRoots. case_match; [|reflexivity]. split; [done|done|done|]. intros H1 HC [HREC HNZ] _.
  split; [|done]. split; [|done]. cbn. apply map_lookup_filter_Some_2; [done|]. by apply cutoff_le.
Qed.

Lemma setEpoch_advances e r q : advances q (setEpochBlockRootLocked env e r q).
Proof.
  unfold setEpochBlockRootLocked. destruct (rootPinned e r q) eqn:HP; [reflexivity|].
  etransitivity; [by apply insert_root_advances|].
  destruct (reconcileRoots e r _) as [changed q1]. cbn [snd].
  etransitivity; [|apply prune_advances]. apply advances_same.
  destruct changed; cbn [orb]; [exact (persist_cp (set_finalityPersistPending true q1))|].
  case_match; [exact (persist_cp q1)|done].
Qed.

(** Recording a root for the finalized epoch that is not refused sets the finalized root. *)
Lemma setEpoch_root e r q : rootPinned e r q = false -> finalizedEpoch q = e -> finalizedRoot (setEpochBlockRootLocked env e r q) = r.
Proof.
  intros HP HE. unfold setEpochBlockRootLocked. rewrite HP.
  pose proof (reconcile_cp e r (set_epochBlockRoots (<[e := r]> (epochBlockRoots q)) q)) as HC.
  destruct (reconcileRoots e r _) as [changed q1]. cbn [snd] in HC. unfold checkpoints in HC. cbn in HC.
  rewrite HE, Z.eqb_refl in HC. injection HC as _ _ HC _ _.
  assert (HX : forall q, finalizedRoot (persistFinalityLocked env q) = finalizedRoot q).
  { intros q0. pose proof (persist_cp q0) as E. unfold checkpoints in E. by injection E as _ _ E _ _. }
  assert (HY : forall q0, finalizedRoot q0 = r -> finalizedRoot (if finalityPersistPending q0 then persistFinalityLocked env q0 else q0) = r).
  { intros q0 E. case_match; [by rewrite HX|done]. }
  assert (HZ : forall q0, finalizedRoot (pruneEpochRoots e q0) = finalizedRoot q0) by (intros q0; unfold pruneEpochRoots; by case_match).
  rewrite HZ. destruct changed; cbn [orb]; [exact (eq_trans (HX (set_finalityPersistPending true q1)) HC)|exact (HY _ HC)].
Qed.

Lemma backfill_advances l acc : advances acc.2 (foldl backfillOne acc l).2.
Proof.
  revert acc. induction l as [|[e r] l IH]; intros [[a c] q]; [reflexivity|]. etransitivity; [|apply IH].
  cbn [snd]. unfold backfillOne. case_match; [reflexivity|]. case_match; [reflexivity|].
  destruct (rootPinned e r q) eqn:HP; [reflexivity|].
  pose proof (insert_root_advances e r q HP) as HI. by destruct (reconcileRoots e r _).
Qed.

(** A reorganisation leaves the roots of the checkpoint epochs, and of the epochs
    before the range. *)
Lemma reanchorEpochs_kept bounds cleanMin e q :
  checkpointEpoch q e = true \/ e < firstReachedEpoch cleanMin -> reanchorEpochs bounds cleanMin q !! e = epochBlockRoots q !! e.
Proof.
  intros HC. unfold reanchorEpochs.
  assert (HF : negb (checkpointEpoch q e) && (firstReachedEpoch cleanMin <=? e) = false).
  { destruct HC as [-> |HC]; [done|]. rewrite (proj2 (Z.leb_gt _ _) HC). apply andb_false_r. }
  assert (HG : filter (fun '(e, root) => isZero root = false /\
      negb (checkpointEpoch q e) && (firstReachedEpoch cleanMin <=? e) = true) (EpochRoots bounds) !! e = None).
  { apply map_lookup_filter_None. right. intros x _ [_ HX]. congruence. }
  assert (HK : filter (fun '(e, _) => negb (checkpointEpoch q e) && (firstReachedEpoch cleanMin <=? e) = false)
      (epochBlockRoots q) !! e = epochBlockRoots q !! e).
  { destruct (epochBlockRoots q !! e) eqn:E; [by apply map_lookup_filter_Some_2|]. apply map_lookup_filter_None. by left. }
  case_match; [|by rewrite lookup_union_r].
  rewrite lookup_union_r; [by rewrite lookup_union_r|].
  rewrite lookup_fmap, fmap_None, map_lookup_filter_None. left. apply map_lookup_filter_None. right. intros x _ HX. congruence.
Qed.

(** The other epochs have a root of the new chain, or its fork point. *)
Lemma reanchorEpochs_new bounds cleanMin e r q :
  checkpointEpoch q e = false -> firstReachedEpoch cleanMin <= e -> reanchorEpochs bounds cleanMin q !! e = Some r ->
  EpochRoots bounds !! e = Some r \/ (AncestorKnown bounds = true /\ r = AncestorHash bounds).
Proof.
  intros HC HL. unfold reanchorEpochs.
  assert (HU : forall m, (filter (fun '(e, root) => isZero root = false /\
      negb (checkpointEpoch q e) && (firstReachedEpoch cleanMin <=? e) = true) (EpochRoots bounds)
      ∪ filter (fun '(e, _) => negb (checkpointEpoch q e) && (firstReachedEpoch cleanMin <=? e) = false) m) !! e = Some r ->
    EpochRoots bounds !! e = Some r).
  { intros m [H|[_ H]]%lookup_union_Some_raw; [by apply map_lookup_filter_Some in H as [H _]|].
    apply map_lookup_filter_Some in H as [_ H]. rewrite HC, (proj2 (Z.leb_le _ _) HL) in H. done. }
  case_match eqn:EA; [|intros H; left; by eapply HU].
  intros [H|[_ H]]%lookup_union_Some_raw; [|left; by eapply HU].
  right. apply andb_true_iff in EA as [EA _]. split; [done|]. rewrite lookup_fmap in H. by apply fmap_Some in H as (x & _ & ->).
Qed.

Lemma try_advances now q : advances q (tryUpdateFinality env now q).
Proof.
  unfold tryUpdateFinality. case_match; [reflexivity|]. case_match; [|reflexivity].
  trans (finalize (justifiedEpoch q) (currentFinalityEpoch env now q - 1) (justify (currentFinalityEpoch env now q - 1) q));
    [|apply advances_same; by rewrite persist_cp, pin_cp].
  set (p := currentFinalityEpoch env now q - 1). trans (justify p q).
  - unfold justify. case_match eqn:E; [|reflexivity]. apply Z.ltb_lt in E. split; [cbn; lia|done|done|done].
  - unfold finalize. case_match; [|reflexivity]. case_match eqn:E.
    + apply Z.ltb_lt in E. split; [done|cbn; lia|done|]. cbn. intros. lia.
    + case_match eqn:E2; [|reflexivity]. split; [done|done|done|]. intros _ _ [_ HNZ].
      apply andb_true_iff in E2 as [_ HZ]. unfold isZero in HZ. by apply bool_decide_eq_true in HZ.
Qed.

Lemma adopt_advances j f h q : advances q (AdoptHeaderFinality env j f h q).
Proof.
  unfold AdoptHeaderFinality.
  destruct (Z.ltb_spec (justifiedEpoch q) j), (Z.ltb_spec (finalizedEpoch q) f); cbn [orb]; try reflexivity;
    (etransitivity; [|apply advances_same; by rewrite persist_cp, pin_cp]);
    (split; [cbn; lia|cbn; lia|done|cbn; first [done|intros; lia]]).
Qed.

(** ** What a call leaves alone *)

(** The state up to the key registry and the caches of the shuffle. *)
Definition core (q : QPOS) : QPOS := set_vdfSeedStopped ∅ (set_coldStartEpochs ∅ (set_shuffleCache ∅ (set_vkReg ∅ q))).

Definition sameCore (q q' : QPOS) : Prop := core q' = core q.

#[export] Instance sameCore_equiv : Equivalence sameCore.
Proof. unfold sameCore. split; [intros ?|intros ? ? ?|intros ? ? ?]; congruence. Qed.

(** A field that is not erased is the same. *)
Lemma core_field {A} (f : QPOS -> A) q q' : (forall q, f (core q) = f q) -> sameCore q q' -> f q' = f q.
Proof. intros Hf HC. by rewrite <- Hf, HC, Hf. Qed.

Lemma sessionKey_core addr epoch : sat sameCore (EffectiveSessionPubKey addr epoch).
Proof.
  apply sat_bind; [apply _|apply sat_gets, _|intros reg]. destruct (reg !! addr) as [e|]; [|apply sat_ret, _].
  case_match; [apply sat_ret, _|]. apply sat_bind; [apply _|by apply sat_modify|intros _; apply sat_ret, _].
Qed.

Lemma verify_core att v : sat sameCore (verifyAttestationSignature env att v).
Proof.
  unfold verifyAttestationSignature.
  repeat first [apply sat_guard, _ | apply sat_gets, _ | apply sessionKey_core | apply sat_bind; [apply _| |intros ?]].
Qed.

Lemma shuffle_core epoch n q : sameCore q (computeDeterministicShuffleForEpoch env epoch n q).2.
Proof. unfold computeDeterministicShuffleForEpoch, epochSeedLocked. by repeat case_match; simplify_eq/=. Qed.

Lemma committee_core now slot : sat sameCore (getCommitteeForSlotLocked env now slot).
Proof.
  intros q. unfold getCommitteeForSlotLocked. case_match; [done|]. case_match; [done|].
  destruct (shuffleCache q !! SlotToEpoch slot) as [l|]; [by repeat case_match|].
  pose proof (shuffle_core (SlotToEpoch slot) (Size (validators q)) q) as HC.
  destruct (computeDeterministicShuffleForEpoch env (SlotToEpoch slot) (Size (validators q)) q) as [[l cold] q1].
  cbn [snd] in HC. etransitivity; [exact HC|]. by destruct cold; repeat case_match.
Qed.

Lemma inCommittee_core now slot addr : sat sameCore (isInCommitteeLocked env now slot addr).
Proof.
  intros q. unfold isInCommitteeLocked. case_match; [done|]. pose proof (committee_core now slot q) as HC.
  by destruct (getCommitteeForSlotLocked env now slot q) as [[l|e| |] q1].
Qed.

(** ** The outcomes of processing an attestation *)

(** The key that a validator's attestations for [epoch] are verified with. *)
Definition signingKey (v : Validator) (epoch : Z) (q : QPOS) : list byte :=
  match vkReg q !! v_Address v with
  | Some e => default (v_PublicKeyBytes v) (activeKey epoch (promote epoch e))
  | None => v_PublicKeyBytes v
  end.

Definition signedBy (v : Validator) (att : Attestation) (q : QPOS) : Prop :=
  IsValidatorRevoked (v_Address v) q = false /\ att_Signature att <> [] /\
  verify env (signingKey v (cp_Epoch (att_Target att)) q) (attestationSigningData env att) (att_Signature att) = true.

(** The conditions under which an attestation is stored. *)
Record acceptable (now : Z) (att : Attestation) (q : QPOS) : Prop := mkAcceptable {
  ac_slot : att_Slot att <= u64 (GetCurrentSlot env now + 1);
  ac_epoch : SlotToEpoch (att_Slot att) <= GetCurrentEpoch env now;
  ac_validator : exists v, GetValidatorByIndex (att_ValidatorIndex att) (validators q) = Some v /\
    eligible q (att_ValidatorIndex att) v = true /\ signedBy v att q;
  ac_target : cp_Epoch (att_Target att) = SlotToEpoch (att_Slot att);
  ac_source : cp_Epoch (att_Source att) < cp_Epoch (att_Target att);
  ac_canonical : sourceCanonical att q = true;
  ac_fresh : attsOf q (att_ValidatorIndex att) !! att_Slot att = None;
  ac_conflict : firstConflict att (rangeAtts env (attsOf q (att_ValidatorIndex att))) = None;
  ac_once : forall other, other ∈ votesAt q (att_Slot att) -> att_ValidatorIndex other <> att_ValidatorIndex att;
}.

(** A vote refused with evidence: the recorded vote it conflicts with, and the evidence. *)
Inductive offence (now : Z) (att : Attestation) (q : QPOS) : error -> SlashingEvidence -> Prop :=
  | offence_slot v existing :
      GetValidatorByIndex (att_ValidatorIndex att) (validators q) = Some v ->
      attsOf q (att_ValidatorIndex att) !! att_Slot att = Some existing ->
      att_BeaconBlockRoot existing <> att_BeaconBlockRoot att ->
      offence now att q ErrDoubleVote
        (mkEvidence SlashingReasonDoubleVote (v_Address v) (att_Slot att)
           (Some (attestationToVote existing (v_Address v))) (Some (attestationToVote att (v_Address v)))
           (if lastKnownBlockTime q =? 0 then now else lastKnownBlockTime q))
  | offence_vote v existing e :
      GetValidatorByIndex (att_ValidatorIndex att) (validators q) = Some v ->
      firstConflict att (rangeAtts env (attsOf q (att_ValidatorIndex att))) = Some (existing, e) ->
      offence now att q e
        (mkEvidence (if decide (e = ErrDoubleVote) then SlashingReasonDoubleVote else SlashingReasonSurroundVote)
           (v_Address v) (att_Slot att)
           (Some (attestationToVote att (v_Address v))) (Some (attestationToVote existing (v_Address v)))
           (lastKnownBlockTime q)).

Inductive outcome (now : Z) (q : QPOS) : option Attestation -> res unit * QPOS -> Prop :=
  | refused att e q1 : sameCore q q1 -> e <> ErrDoubleVote -> e <> ErrSurroundVote -> outcome now q att (Err e, q1)
  | punished att e ev q1 : sameCore q q1 -> offence now att q e ev ->
      outcome now q (Some att) (Err e, queueSlashingEvidenceLocked ev q1)
  | accepted att q1 : sameCore q q1 -> acceptable now att q ->
      outcome now q (Some att) (Ok tt, acceptAttestation env now att q1).

(** Verification succeeds with a valid signature, or fails with one error. *)
Lemma verify_result att v q :
  let p := verifyAttestationSignature env att v q in
  (p.1 = Ok tt /\ signedBy v att q) \/ p.1 = Err ErrInvalidAttestation.
Proof.
  unfold verifyAttestationSignature. rewrite bind_guard. destruct (len (att_Signature att) =? 0) eqn:E0; [by right|].
  rewrite bind_gets, bind_guard. destruct (IsValidatorRevoked (v_Address v) q) eqn:ER; [by right|].
  assert (exists q1, EffectiveSessionPubKey (v_Address v) (cp_Epoch (att_Target att)) q =
    (Ok (match vkReg q !! v_Address v with
         | Some e => activeKey (cp_Epoch (att_Target att)) (promote (cp_Epoch (att_Target att)) e)
         | None => None end), q1)) as [q1 EK].
  { unfold EffectiveSessionPubKey. rewrite bind_gets. unfold IsValidatorRevoked in ER.
    destruct (vkReg q !! v_Address v) as [e|]; [|by eexists]. rewrite ER. by eexists. }
  rewrite (bind_Ok _ _ _ _ _ EK), bind_guard. destruct (len (default _ _) =? 0); [by right|]. rewrite bind_guard.
  destruct (negb (validPublicKey env _)); [by right|]. unfold guard_err. match goal with |- context [negb ?b] => destruct b eqn:EB end; [left|by right]. split; [done|].
  split; [done|]. split; [intros HE; by rewrite HE in E0|]. unfold signingKey. by destruct (vkReg q !! v_Address v).
Qed.

Lemma conflict_error a b e : conflict a b = Some e -> e = ErrDoubleVote \/ e = ErrSurroundVote.
Proof. unfold conflict. repeat case_match; intros; simplify_eq; auto. Qed.

Lemma bool_guard (b : bool) e (q : QPOS) : guard_err b e q = if b then (Err e, q) else (Ok tt, q).
Proof. by destruct b. Qed.

(** The part of the processing after the committee is known. *)
Lemma check_outcome now att v q q1 :
  sameCore q q1 -> GetValidatorByIndex (att_ValidatorIndex att) (validators q) = Some v ->
  (forall other, attsOf q (att_ValidatorIndex att) !! att_Slot att = Some other ->
    att_BeaconBlockRoot other <> att_BeaconBlockRoot att) ->
  (attsOf q (att_ValidatorIndex att) !! att_Slot att = None ->
   firstConflict att (rangeAtts env (attsOf q (att_ValidatorIndex att))) = None ->
   (forall other, other ∈ votesAt q (att_Slot att) -> att_ValidatorIndex other <> att_ValidatorIndex att) ->
   acceptable now att q) ->
  let m := (checkDoubleVote now att;;
    match checkSurroundVote env att q with
    | Some (Some existing, e) => rejectConflict att existing v e
    | Some (None, e) => throw e
    | None =>
        guard_err (existsb (fun existing => att_ValidatorIndex existing =? att_ValidatorIndex att) (votesAt q (att_Slot att)))
          ErrDuplicateAttestation;;
        modify (acceptAttestation env now att)
    end) in
  outcome now q (Some att) (m q1).
Proof.
  intros HC HV HD HA. cbn zeta. unfold checkDoubleVote, checkSurroundVote. rewrite HV.
  pose proof (core_field validators _ _ (fun _ => eq_refl) HC) as HC1.
  pose proof (core_field lastKnownBlockTime _ _ (fun _ => eq_refl) HC) as HC2.
  pose proof (core_field (fun q => attsOf q (att_ValidatorIndex att)) _ _ (fun _ => eq_refl) HC) as HC3. cbn beta in HC3.
  unfold mbind at 1, M_bind at 1. rewrite bind_gets. unfold id. rewrite HC1, HV, HC3.
  destruct (attsOf q (att_ValidatorIndex att) !! att_Slot att) as [other|] eqn:EO.
  - rewrite bool_decide_eq_false_2 by (by apply HD). cbn. rewrite HC2. apply punished; [done|]. by eapply offence_slot; [..|apply HD].
  - cbn [mret M_ret]. destruct (firstConflict att _) as [[existing e]|] eqn:EF.
    + unfold rejectConflict. rewrite bind_gets. unfold id. rewrite HC2. apply punished; [done|]. by apply offence_vote.
    + rewrite bind_guard. destruct (existsb _ _) eqn:EB; [by apply refused|]. cbn. apply accepted; [done|].
      apply HA; [done|done|]. intros o Ho HE.
      assert (existsb (fun existing => att_ValidatorIndex existing =? att_ValidatorIndex att) (votesAt q (att_Slot att)) = true)
        as HX; [|congruence].
      apply existsb_exists. exists o. split; [by apply list_elem_of_In|]. by apply Z.eqb_eq.
Qed.

(** The next guard: refused if it holds. *)
Ltac next_guard E :=
  rewrite bind_guard; lazymatch goal with |- outcome _ _ _ (if ?b then _ else _) => destruct b eqn:E; [by apply refused|] end.

Lemma process_outcome now att q : outcome now q att (ProcessAttestation env now att q).
Proof.
  unfold ProcessAttestation. destruct att as [att|]; [|by apply refused].
  let E := fresh in next_guard E. next_guard E1.
  let E := fresh in next_guard E. next_guard E2.
  rewrite bind_gets. unfold id.
  destruct (GetValidatorByIndex (att_ValidatorIndex att) (validators q)) as [v|] eqn:EV; [|by apply refused].
  next_guard E3. next_guard E4.
  next_guard E5.
  pose proof (verify_core att v q) as HC. pose proof (verify_result att v q) as HS. unfold mbind at 1, M_bind at 1.
  destruct (verifyAttestationSignature env att v q) as [r q1]; cbn [fst snd] in *.
  destruct HS as [[-> HS]| ->]; [|by apply refused]. next_guard E6.
  next_guard E7. next_guard E8.
  pose proof (inCommittee_core now (att_Slot att) (v_Address v) q1) as HC2. unfold mbind at 1, M_bind at 1.
  assert (exists b q2, isInCommitteeLocked env now (att_Slot att) (v_Address v) q1 = (Ok b, q2)) as (b & q2 & EC).
  { unfold isInCommitteeLocked. destruct (Size _ <=? _); [by eexists _, _|].
    by destruct (getCommitteeForSlotLocked _ _ _ _) as [[]]; eexists _, _. }
  rewrite EC in *. cbn [snd] in HC2. rewrite bind_guard. destruct (negb b); [by apply refused; [etransitivity|..]|].
  apply check_outcome; [by etransitivity|done| |].
  - intros other HO. rewrite HO in E5. by case_bool_decide.
  - intros. split; try done.
    + by apply Z.ltb_ge in E1.
    + by apply Z.ltb_ge in E2.
    + exists v. split; [done|]. split; [|done]. unfold eligible. destruct (slashedValidators q !! _); [done|].
      by apply negb_false_iff in E4.
    + by apply negb_false_iff, Z.eqb_eq in E6.
    + by apply Z.leb_gt in E7.
    + by apply negb_false_iff in E8.
Qed.

(** ** Every operation advances the checkpoints *)

(** The checkpoints are [j] and [f], the latter with its root recorded. *)
Definition restored (j f : Z) (fr : Hash) (q q' : QPOS) : Prop :=
  justifiedEpoch q' = j /\ finalizedEpoch q' = f /\ finalizedRoot q' = fr /\ currentEpoch q' = currentEpoch q /\
  (0 < f -> fr <> zeroHash -> epochBlockRoots q' !! f = Some fr).

Lemma register_restored jr fr j f q :
  restored j f fr q (registerRestoredCheckpointRootsLocked
    (set_finalizedRoot fr (set_finalizedEpoch f (set_justifiedRoot jr (set_justifiedEpoch j q))))).
Proof.
  unfold registerRestoredCheckpointRootsLocked. cbn [justifiedEpoch finalizedEpoch justifiedRoot finalizedRoot set_finalizedRoot
    set_finalizedEpoch set_justifiedRoot set_justifiedEpoch]. unfold isZero.
  destruct ((0 <? j) && negb (bool_decide (jr = zeroHash))); cbn;
    destruct (Z.ltb_spec 0 f); cbn; [case_bool_decide|..|case_bool_decide|]; cbn; case_match;
    (do 4 (split; [done|])); intros; try done; try lia; apply lookup_insert_eq.
Qed.

Lemma genesis_restored g j f fr q q' : restored j f fr q q' -> restored j f fr q (registerGenesis g q').
Proof. intros (H1 & H2 & H3 & H4 & H5). do 4 (split; [done|]). intros H HN. cbn. rewrite lookup_insert_ne by lia. by apply H5. Qed.

Lemma restored_advances j f fr q q' :
  justifiedEpoch q <= j -> finalizedEpoch q <= f ->
  (0 < finalizedEpoch q -> f = finalizedEpoch q -> fr = finalizedRoot q) -> restored j f fr q q' -> advances q q'.
Proof.
  intros HJ HF HR (H1 & H2 & H3 & H4 & H5). split; [lia|lia|done|]. intros HL _ [_ HNZ] HE.
  assert (f = finalizedEpoch q) as EF by lia. specialize (HR ltac:(lia) EF). unfold recorded.
  rewrite H2, H3, HR. split; [|done]. split; [|done]. rewrite <- HR. apply H5; [lia|congruence].
Qed.

Lemma restore_advances j f jr fr q : advances q (RestoreFinalityState j f jr fr q).2.
Proof.
  unfold RestoreFinalityState.
  do 4 (rewrite bind_guard; case_match; [reflexivity|]). rewrite bind_gets. unfold id.
  rewrite bind_guard. case_match eqn:E1; [reflexivity|]. rewrite bind_guard. case_match; [reflexivity|].
  rewrite bind_guard. case_match eqn:E2; [reflexivity|]. apply orb_false_iff in E1 as [E1 E1']. apply Z.ltb_ge in E1, E1'.
  destruct (restoredGenesisRoot j jr q) as [e|jg]; [reflexivity|]. destruct (restoredGenesisRoot f fr q) as [e|fg]; [reflexivity|].
  rewrite bind_guard. case_match; [reflexivity|]. cbn [modify snd].
  apply (restored_advances j f fr); [done|done| |].
  - intros HP HE. apply Z.ltb_lt in HP. apply Z.eqb_eq in HE. rewrite HP, HE in E2. cbn in E2.
    by apply negb_false_iff, bool_decide_eq_true in E2.
  - pose proof (register_restored jr fr j f q) as HX. destruct (negb (isZero jg)); case_match; auto using genesis_restored.
Qed.

Lemma reanchor_advances roots vrf bounds q : advances q (reanchorSlotRoots roots vrf bounds q).2.
Proof.
  unfold reanchorSlotRoots. destruct (ReanchorCleanRange roots bounds) as [[lo hi]|]; [|reflexivity].
  match goal with |- context [if ?b then (false, _) else _] => destruct b end; [reflexivity|].
  split; [done|done|done|]. intros _ _ [HREC HNZ] _. split; [|done]. split; [|done]. cbn.
  rewrite reanchorEpochs_kept; [done|]. left. unfold checkpointEpoch. cbn. by rewrite Z.eqb_refl, orb_true_r.
Qed.

Lemma core_advances q q1 : sameCore q q1 -> advances q q1.
Proof. intros HC. apply advances_same. by apply (core_field checkpoints). Qed.

(** The operations on keys and slashed validators, for any relation that their
    assignments satisfy. *)
Ltac solve_sat :=
  repeat first [case_match | apply sat_bind; [apply _| |intros ?] | apply sat_modify; intros; by auto
    | apply sat_guard, _ | apply sat_gets, _ | apply sat_throw, _ | apply sat_panic, _].

Section frames.
Context (R : QPOS -> QPOS -> Prop) `{!PreOrder R}.
Context (HK : forall x q, R q (set_vkReg x q)) (HS : forall x q, R q (set_slashedValidators x q)).
Context (HV : forall x q, R q (set_validators x q)) (HP : forall x q, R q (set_pendingDeactivationAddrs x q)).

Lemma keyTx_sat from data h e : sat R (ApplyValidatorKeyTx from data h e).
Proof. unfold ApplyValidatorKeyTx, putEntry. solve_sat. Qed.

Lemma mark_sat now addr p j : sat R (MarkValidatorSlashedByAddress env now addr p j).
Proof.
  unfold MarkValidatorSlashedByAddress, clearPending. apply sat_bind; [apply _|apply sat_gets, _|intros q].
  apply sat_bind; [apply _|apply sat_guard, _|intros _]. 
  destruct (slashedValidators q !! _) as [x|]; [destruct (sl_Permanent x)|]; apply sat_modify; intros q1; [by apply HP|..].
  - by etransitivity; [apply HS|apply HP].
  - by etransitivity; [apply HS|etransitivity; [apply HV|apply HP]].
Qed.

Lemma unmark_sat addr : sat R (UnmarkValidatorSlashed addr).
Proof.
  unfold UnmarkValidatorSlashed, clearPending. apply sat_bind; [apply _|apply sat_gets, _|intros q].
  case_match; [by apply sat_modify; intros; apply HP|]. case_match; [|by apply sat_modify; intros; apply HP].
  apply sat_bind; [apply _|apply sat_guard, _|intros _]. apply sat_modify. intros q1. by etransitivity; [apply HS|apply HP].
Qed.

Lemma updateSet_sat vs authorized : (forall q, R q (clearCaches q)) -> sat R (UpdateValidatorSetAuthorized vs authorized).
Proof. intros HC. unfold UpdateValidatorSetAuthorized. solve_sat. apply sat_modify. intros. by etransitivity; [apply HV|apply HC]. Qed.
End frames.

#[local] Instance cp_preorder : PreOrder (fun q q' => checkpoints q' = checkpoints q).
Proof. split; [done|]. intros q q1 q2 H1 H2. congruence. Qed.

Lemma create_cp s r i q : checkpoints (CreateAttestation s r i q).2 = checkpoints q.
Proof. unfold CreateAttestation. by repeat case_match. Qed.

(** A header that is replayed for epoch [e] has the hash [r]. *)
Definition replays (e : Z) (r : Hash) (op : Op) : Prop :=
  match op with OpBlockHeader (Some h) blockHash => bh_Epoch h = e -> blockHash = r | _ => True end.

Lemma registerGenesis_advances r q : advances q (registerGenesis r q).
Proof.
  split; [done|done|done|]. intros H1 _ HR _. split; [|done]. unfold recorded in *. cbn. by rewrite lookup_insert_ne by lia.
Qed.

Lemma registerOnce_advances r q : advances q (registerGenesisOnce r q).
Proof. unfold registerGenesisOnce. case_match; [apply registerGenesis_advances|reflexivity]. Qed.

Lemma recordEpochRoot_cp h r q :
  (justifiedEpoch (recordEpochRoot h r q), finalizedEpoch (recordEpochRoot h r q), finalizedRoot (recordEpochRoot h r q),
   currentEpoch (recordEpochRoot h r q)) = (justifiedEpoch q, finalizedEpoch q, finalizedRoot q, currentEpoch q).
Proof. unfold recordEpochRoot, registerGenesisOnce. by repeat case_match. Qed.

Lemma recordEpochRoot_advances h r q :
  (bh_Epoch h = finalizedEpoch q -> r = finalizedRoot q) -> advances q (recordEpochRoot h r q).
Proof.
  intros HH. unfold recordEpochRoot. case_match; [case_match; [apply registerOnce_advances|]|
    case_match; [apply registerOnce_advances|reflexivity]].
  split; [done|done|done|]. intros _ _ [HR HZ] _. split; [|done]. split; [|done]. cbn.
  destruct (decide (bh_Epoch h = finalizedEpoch q)) as [HE|]; [|by rewrite lookup_insert_ne].
  rewrite HE, lookup_insert_eq. by rewrite (HH HE).
Qed.

(** A block that was applied before changes nothing. *)
Lemma header_applied h r q : r ∈ appliedBlockRoots q -> (ApplyBlockHeader env (Some h) r q).2 = q.
Proof. intros H. cbn [ApplyBlockHeader modify snd]. by rewrite bool_decide_eq_true_2. Qed.

(** What surrounds the roots when a header is applied. *)
Lemma header_frame h r q : r ∉ appliedBlockRoots q -> exists q1, checkpoints q1 = checkpoints q /\
    checkpoints (ApplyBlockHeader env (Some h) r q).2 = checkpoints (recordEpochRoot h r q1).
Proof.
  intros HA.
  cbn [ApplyBlockHeader modify snd]. rewrite bool_decide_eq_false_2 by done.
  set (q0 := set_appliedBlockRoots ({[r]} ∪ appliedBlockRoots q) q).
  set (q1 := if 3 * SlotsPerEpoch <? Z.of_nat (size (appliedBlockRoots q0)) then pruneAppliedBlockRootsLocked env (bh_Slot h) q0 else q0).
  exists (set_slotBlockRoots (<[bh_Slot h := r]> (slotBlockRoots q1)) q1). split; [|by case_match].
  unfold q1, pruneAppliedBlockRootsLocked. by repeat case_match.
Qed.

Lemma header_advances blk r q : replays (finalizedEpoch q) (finalizedRoot q) (OpBlockHeader blk r) ->
  advances q (ApplyBlockHeader env blk r q).2.
Proof.
  destruct blk as [h|]; [|reflexivity]. intros HH. destruct (decide (r ∈ appliedBlockRoots q)) as [HA|HA]; [rewrite header_applied by done; reflexivity|].
  destruct (header_frame h r q HA) as (q1 & E1 & E2).
  transitivity q1; [by apply advances_same|]. etransitivity; [apply (recordEpochRoot_advances h r)|by apply advances_same].
  unfold checkpoints in E1. injection E1 as _ EF ER _ _. by rewrite EF, ER.
Qed.

Lemma seal_advances slot r q : advances q (advanceQPOSFinalityForSeal env slot r q).2.
Proof.
  unfold advanceQPOSFinalityForSeal. destruct (sealState slot r q); [reflexivity| |reflexivity].
  set (e := SlotToEpoch slot). set (c := default r _). cbn [snd].
  set (q1 := if finalizedEpoch q <? e then set_finalizedRoot c (set_finalizedEpoch e q) else q).
  set (q2 := if justifiedEpoch q1 <? e then set_justifiedRoot c (set_justifiedEpoch e q1) else q1).
  transitivity q2.
  - assert (EJ : justifiedEpoch q1 = justifiedEpoch q) by (unfold q1; by case_match).
    assert (H1 : advances q q1).
    { unfold q1. destruct (Z.ltb_spec (finalizedEpoch q) e); [|reflexivity]. split; cbn; [done|lia|done|lia]. }
    etransitivity; [exact H1|]. unfold q2. destruct (Z.ltb_spec (justifiedEpoch q1) e); [|reflexivity]. by split; cbn; [lia| | |].
  - apply advances_same. set (b := (finalizedEpoch q <? e) || (justifiedEpoch q1 <? e)). destruct b; cbn [orb].
    + rewrite persist_cp, pin_cp. done.
    + case_match; [by rewrite persist_cp|done].
Qed.

Lemma step_advances now op q : op <> OpReanchorGenesis -> replays (finalizedEpoch q) (finalizedRoot q) op -> advances q (step now op q).
Proof.
  intros HN HH. destruct op; cbn [step].
  - pose proof (process_outcome now att q) as HO. destruct (ProcessAttestation env now att q) as [r q']. cbn [snd].
    inversion HO as [? ? ? HC|? ? ? ? HC|? ? HC]; subst; (etransitivity; [by apply core_advances|]);
      [reflexivity|by apply advances_same|]. etransitivity; [|apply try_advances]. by apply advances_same.
  - apply try_advances.
  - apply setEpoch_advances.
  - unfold EnsureEpochBlockRoot. case_match; [reflexivity|apply setEpoch_advances].
  - unfold BackfillEpochRoots. pose proof (backfill_advances (map_to_list roots) (0, false, q)) as HB.
    destruct (foldl backfillOne _ _) as [[a c] q1]. cbn [snd] in *. case_match; [|done]. etransitivity; [exact HB|].
    apply advances_same. cbn [snd]. case_match; [by rewrite persist_cp|done].
  - unfold SetGenesisRoot. case_match; [reflexivity|]. split; [done|done|done|]. intros H1 _ HR _. split; [|done].
    unfold recorded in *. cbn. by rewrite lookup_insert_ne by lia.
  - apply advances_same. unfold SetSlotBlockRoot. by repeat case_match.
  - apply reanchor_advances.
  - apply advances_same. unfold SetFinalizedCheckpointSlot. by repeat case_match.
  - apply adopt_advances.
  - apply restore_advances.
  - apply advances_same. unfold SetFinalityPersistCallback. destruct present; [|done]. rewrite persist_cp. by case_match.
  - apply advances_same. unfold SetLastKnownBlockTime. by case_match.
  - apply advances_same, create_cp.
  - by apply advances_same.
  - apply advances_same. by destruct evidence.
  - by apply advances_same.
  - by apply advances_same, (keyTx_sat (fun q q' => checkpoints q' = checkpoints q)).
  - apply core_advances, sessionKey_core.
  - by apply advances_same, (mark_sat (fun q q' => checkpoints q' = checkpoints q)).
  - by apply advances_same, (unmark_sat (fun q q' => checkpoints q' = checkpoints q)).
  - apply advances_same. unfold CleanupValidatorState. by case_match.
  - by apply advances_same.
  - by apply advances_same.
  - apply advances_same. unfold AddStakingValidator. case_match; [done|]. by case_match.
  - apply advances_same. unfold RemoveStakingValidator. by case_match.
  - apply advances_same. unfold AttachValidatorPublicKey. by repeat case_match.
  - by apply advances_same, (updateSet_sat (fun q q' => checkpoints q' = checkpoints q)).
  - apply advances_same. unfold syncVoteToAttestations. by repeat case_match.
  - apply advances_same. unfold pruneAfterRewards. by case_match.
  - apply seal_advances.
  - by apply header_advances.
  - apply advances_same. unfold SetEpochVRFAccumulator. by case_match.
  - by apply advances_same.
  - by apply advances_same.
  - by apply advances_same.
  - by destruct HN.
Qed.

(** Without the condition on headers the epochs still do not go back. *)
Lemma step_epochs now op q : op <> OpReanchorGenesis ->
  justifiedEpoch q <= justifiedEpoch (step now op q) /\ finalizedEpoch q <= finalizedEpoch (step now op q).
Proof.
  intros HN. assert (HA : replays (finalizedEpoch q) (finalizedRoot q) op ->
    justifiedEpoch q <= justifiedEpoch (step now op q) /\ finalizedEpoch q <= finalizedEpoch (step now op q)).
  { intros HH. by destruct (step_advances now op q HN HH). }
  destruct op; try (by apply HA). clear HA. destruct blk as [h|]; [|done]. cbn [step].
  destruct (decide (blockHash ∈ appliedBlockRoots q)) as [HA|HA]; [rewrite header_applied by done; lia|].
  destruct (header_frame h blockHash q HA) as (q1 & E1 & E2).
  pose proof (recordEpochRoot_cp h blockHash q1) as E3. 
  revert E2. generalize (ApplyBlockHeader env (Some h) blockHash q).2. intros q2 E2. unfold checkpoints in *.
  injection E1 as EJ1 EF1 _ _ _. injection E2 as EJ2 EF2 _ _ _. injection E3 as EJ3 EF3 _ _. lia.
Qed.

Lemma run_epochs ops q : Forall (fun '(_, op) => op <> OpReanchorGenesis) ops ->
  justifiedEpoch q <= justifiedEpoch (run ops q) /\ finalizedEpoch q <= finalizedEpoch (run ops q).
Proof.
  revert q. induction ops as [|[now op] ops IH]; intros q HF; [done|]. apply list.Forall_cons in HF as [HN HF].
  pose proof (step_epochs now op q HN). destruct (IH (step now op q) HF). cbn. fold (run ops (step now op q)). lia.
Qed.

Lemma run_recorded ops q : Forall (fun '(_, op) => op <> OpReanchorGenesis) ops ->
  Forall (fun '(_, op) => replays (finalizedEpoch q) (finalizedRoot q) op) ops ->
  1 < finalizedEpoch q -> currentEpoch q = 0 -> recorded q -> finalizedEpoch (run ops q) = finalizedEpoch q ->
  recorded (run ops q) /\ finalizedRoot (run ops q) = finalizedRoot q.
Proof.
  revert q. induction ops as [|[now op] ops IH]; intros q HF HH H1 HC HR HE; [done|].
  apply list.Forall_cons in HF as [HN HF], HH as [HP HH]. destruct (step_advances now op q HN HP) as [_ A2 A3 A4].
  cbn in HE. fold (run ops (step now op q)) in HE. destruct (run_epochs ops (step now op q) HF) as [_ A5].
  assert (EF : finalizedEpoch (step now op q) = finalizedEpoch q) by lia. destruct (A4 H1 HC HR EF) as [HR1 ER].
  cbn. fold (run ops (step now op q)). rewrite <- ER. apply IH; rewrite ?EF, ?ER; try done; congruence.
Qed.

(** ** Recorded votes and queued evidence *)

Definition ledger (q : QPOS) := (evidenceQueue q, validatorAttestations q).

Lemma persist_ledger q : ledger (persistFinalityLocked env q) = ledger q.
Proof. unfold persistFinalityLocked. by repeat case_match. Qed.

Lemma pin_ledger q : ledger (pinFinalizedCheckpointSlotLocked q) = ledger q.
Proof. unfold pinFinalizedCheckpointSlotLocked. by repeat case_match. Qed.

Lemma reconcile_ledger e r q : ledger (reconcileRoots e r q).2 = ledger q.
Proof. unfold reconcileRoots. by repeat case_match. Qed.

Lemma prune_ledger e q : ledger (pruneEpochRoots e q) = ledger q.
Proof. unfold pruneEpochRoots. by case_match. Qed.

Lemma setEpoch_ledger e r q : ledger (setEpochBlockRootLocked env e r q) = ledger q.
Proof.
  unfold setEpochBlockRootLocked. case_match; [done|].
  pose proof (reconcile_ledger e r (set_epochBlockRoots (<[e := r]> (epochBlockRoots q)) q)) as HR.
  destruct (reconcileRoots e r _) as [changed q1]. cbn [snd] in HR. change (ledger q) with (ledger (set_epochBlockRoots (<[e := r]> (epochBlockRoots q)) q)).
  rewrite <- HR, prune_ledger. destruct changed; cbn [orb]; [exact (persist_ledger (set_finalityPersistPending true q1))|].
  case_match; [exact (persist_ledger q1)|done].
Qed.

Lemma backfill_ledger l acc : ledger (foldl backfillOne acc l).2 = ledger acc.2.
Proof.
  revert acc. induction l as [|[e r] l IH]; intros [[a c] q]; [done|]. cbn [foldl]. rewrite IH. cbn [snd].
  unfold backfillOne. do 3 (case_match; [done|]).
  pose proof (reconcile_ledger e r (set_epochBlockRoots (<[e := r]> (epochBlockRoots q)) q)) as HR.
  destruct (reconcileRoots e r _). exact HR.
Qed.

Lemma try_ledger now q : ledger (tryUpdateFinality env now q) = ledger q.
Proof.
  unfold tryUpdateFinality. case_match; [done|]. case_match; [|done]. rewrite persist_ledger, pin_ledger.
  unfold finalize, justify. by repeat case_match.
Qed.

Lemma restore_ledger j f jr fr : sat (fun q q' => ledger q' = ledger q) (RestoreFinalityState j f jr fr).
Proof.
  intros q. unfold RestoreFinalityState.
  do 4 (rewrite bind_guard; case_match; [done|]). rewrite bind_gets. unfold id.
  do 3 (rewrite bind_guard; case_match; [done|]).
  destruct (restoredGenesisRoot j jr q); [done|]. destruct (restoredGenesisRoot f fr q); [done|].
  rewrite bind_guard. case_match; [done|]. cbn [modify snd]. unfold registerRestoredCheckpointRootsLocked.
  repeat case_match; reflexivity.
Qed.

Definition votesIncluded (m m' : gmap Z (gmap Z Attestation)) : Prop :=
  forall i s a, default ∅ (m' !! i) !! s = Some a -> default ∅ (m !! i) !! s = Some a.

#[export] Instance votesIncluded_preorder : PreOrder votesIncluded.
Proof. split; [by intros m i s a|]. intros m m1 m2 H1 H2 i s a H. by apply H1, H2. Qed.

(** How a step changes them; a vote of the voting manager is recorded as it is. *)
Inductive ledgerStep (now : Z) (q q' : QPOS) : Prop :=
  | ledger_same : ledger q' = ledger q -> ledgerStep now q q'
  | ledger_drained : ledger q' = ([], validatorAttestations q) -> ledgerStep now q q'
  | ledger_queued ev : ledger q' = (enqueue ev (evidenceQueue q), validatorAttestations q) -> ledgerStep now q q'
  | ledger_voted att : acceptable now att q ->
      ledger q' = (evidenceQueue q, validatorAttestations (recordAtt (att_ValidatorIndex att) (att_Slot att) att q)) ->
      ledgerStep now q q'
  | ledger_pruned keep l :
      ledger q' = (evidenceQueue q, foldl (pruneValidator keep) (validatorAttestations q) l) -> ledgerStep now q q'
  | ledger_shrunk m : votesIncluded (validatorAttestations q) m -> ledger q' = (evidenceQueue q, m) -> ledgerStep now q q'.

#[local] Instance ledger_preorder : PreOrder (fun q q' => ledger q' = ledger q).
Proof. split; [done|]. intros q q1 q2 H1 H2. congruence. Qed.

Lemma process_ledger now att q : ledgerStep now q (ProcessAttestation env now att q).2.
Proof.
  pose proof (process_outcome now att q) as HO. destruct (ProcessAttestation env now att q) as [r q']. cbn [snd].
  inversion HO as [? ? ? HC|? ? ev ? HC|a q1 HC HA]; subst; pose proof (core_field ledger _ _ (fun _ => eq_refl) HC) as HL.
  - by apply ledger_same.
  - apply (ledger_queued _ _ _ ev). unfold ledger in *. cbn. by injection HL as -> ->.
  - apply (ledger_voted _ _ _ a HA). unfold acceptAttestation. rewrite try_ledger.
    unfold ledger, recordAtt, attsOf in *. cbn. by injection HL as -> ->.
Qed.

Lemma seal_ledger slot r q : ledger (advanceQPOSFinalityForSeal env slot r q).2 = ledger q.
Proof.
  unfold advanceQPOSFinalityForSeal. destruct (sealState slot r q); [done| |done]. cbn [snd].
  case_match; [rewrite persist_ledger|]; repeat (case_match; try (rewrite pin_ledger)); done.
Qed.

Lemma pruneApplied_ledger slot q : ledger (pruneAppliedBlockRootsLocked env slot q) = ledger q.
Proof. unfold pruneAppliedBlockRootsLocked. by repeat case_match. Qed.

Lemma recordEpochRoot_ledger h r q : ledger (recordEpochRoot h r q) = ledger q.
Proof. unfold recordEpochRoot, registerGenesisOnce. by repeat case_match. Qed.

Lemma header_ledger blk r q : ledger (ApplyBlockHeader env blk r q).2 = ledger q.
Proof.
  destruct blk as [h|]; [|done]. cbn [ApplyBlockHeader modify snd]. case_match; [done|]. cbv zeta.
  match goal with |- context [recordEpochRoot h r ?q] => assert (E : ledger (recordEpochRoot h r q) = ledger q) by apply recordEpochRoot_ledger end.
  match goal with |- context [if ?b then set_randaoMix _ _ else _] => destruct b end;
    (etransitivity; [exact E|]; clear E);
    match goal with |- context [if ?b then pruneAppliedBlockRootsLocked _ _ _ else _] => destruct b end;
    first [exact (pruneApplied_ledger _ _)|done].
Qed.

(** The vote that a synchronisation records, and for which validator. *)
Definition syncedVote (op : Op) : option (Z * Attestation) :=
  match op with
  | OpSyncVote vote i => if i <? 0 then None else att ← voteToAttestation vote; Some (i, att)
  | _ => None
  end.

Lemma sync_ledger vote i q :
  ledger (syncVoteToAttestations vote i q) =
  match syncedVote (OpSyncVote vote i) with
  | Some (i, att) => (evidenceQueue q, validatorAttestations (recordAtt i (att_Slot att) att q))
  | None => ledger q
  end.
Proof.
  unfold syncVoteToAttestations, voteToAttestation. cbn [syncedVote]. unfold voteToAttestation.
  destruct (vote_Type vote); destruct (i <? 0); done.
Qed.

Lemma rewards_included epoch q : votesIncluded (validatorAttestations q) (validatorAttestations (pruneAfterRewards epoch q)).
Proof.
  unfold pruneAfterRewards. case_match; [reflexivity|]. intros i s a. cbn. rewrite map_lookup_filter, lookup_fmap.
  destruct (validatorAttestations q !! i) as [atts|]; [|done]. cbn. case_guard; [|done]. cbn.
  rewrite map_lookup_filter. destruct (atts !! s) as [b|]; [|done]. cbn. by case_guard.
Qed.

Lemma step_ledger now op q : syncedVote op = None -> ledgerStep now q (step now op q).
Proof.
  intros HV. destruct op; cbn [step].
  - apply process_ledger.
  - apply ledger_same, try_ledger.
  - apply ledger_same, setEpoch_ledger.
  - apply ledger_same. unfold EnsureEpochBlockRoot. case_match; [done|apply setEpoch_ledger].
  - apply ledger_same. unfold BackfillEpochRoots. pose proof (backfill_ledger (map_to_list roots) (0, false, q)) as HB.
    destruct (foldl backfillOne _ _) as [[a c] q1]. cbn [snd] in *. rewrite <- HB. case_match; [|done]. cbn [snd].
    case_match; [by rewrite persist_ledger|done].
  - apply ledger_same. unfold SetGenesisRoot. by case_match.
  - apply ledger_same. unfold SetSlotBlockRoot. by repeat case_match.
  - apply ledger_same. unfold reanchorSlotRoots. destruct (ReanchorCleanRange roots bounds) as [[lo hi]|]; [|done]. by case_match.
  - apply ledger_same. unfold SetFinalizedCheckpointSlot. by repeat case_match.
  - apply ledger_same. unfold AdoptHeaderFinality. case_match; [|by repeat case_match].
    rewrite persist_ledger, pin_ledger. by repeat case_match.
  - apply ledger_same, restore_ledger.
  - apply ledger_same. unfold SetFinalityPersistCallback. destruct present; [|done]. rewrite persist_ledger. by case_match.
  - apply ledger_same. unfold SetLastKnownBlockTime. by case_match.
  - apply ledger_same. unfold CreateAttestation. by repeat case_match.
  - by eapply ledger_pruned.
  - destruct evidence as [ev|]; [by apply (ledger_queued _ _ _ ev)|by apply ledger_same].
  - by apply ledger_drained.
  - by apply ledger_same, (keyTx_sat (fun q q' => ledger q' = ledger q)).
  - apply ledger_same, (core_field ledger); [done|]. apply sessionKey_core.
  - by apply ledger_same, (mark_sat (fun q q' => ledger q' = ledger q)).
  - by apply ledger_same, (unmark_sat (fun q q' => ledger q' = ledger q)).
  - apply ledger_same. unfold CleanupValidatorState. by case_match.
  - by apply ledger_same.
  - by apply ledger_same.
  - apply ledger_same. unfold AddStakingValidator. case_match; [done|]. by case_match.
  - apply ledger_same. unfold RemoveStakingValidator. by case_match.
  - apply ledger_same. unfold AttachValidatorPublicKey. by repeat case_match.
  - by apply ledger_same, (updateSet_sat (fun q q' => ledger q' = ledger q)).
  - apply ledger_same. by rewrite sync_ledger, HV.
  - eapply ledger_shrunk; [apply (rewards_included epoch)|]. unfold pruneAfterRewards. by case_match.
  - apply ledger_same, seal_ledger.
  - apply ledger_same, header_ledger.
  - apply ledger_same. unfold SetEpochVRFAccumulator. by case_match.
  - by apply ledger_same.
  - by apply ledger_same.
  - by apply ledger_same.
  - apply ledger_same. unfold ReanchorFinalityToGenesis. case_match; [done|]. cbn [snd]. by rewrite persist_ledger.
Qed.

(** *** The slashing conditions *)

Lemma conflict_none_sym a b : conflict a b = None -> conflict b a = None.
Proof.
  unfold conflict. intros H. destruct (att_Source a) as [s r], (att_Target a) as [t u], (att_Source b) as [s' r'],
    (att_Target b) as [t' u']. cbn in *.
  destruct (Z.eqb_spec s s') as [->|], (Z.eqb_spec t t') as [->|]; cbn in *; rewrite ?Z.eqb_refl, ?Z.ltb_irrefl in *;
    rewrite ?(proj2 (Z.eqb_neq _ _)) in * by congruence; cbn in *;
    repeat case_bool_decide; cbn in *; try done; try congruence; rewrite ?andb_false_r in *; try done;
    destruct (Z.ltb_spec s s'), (Z.ltb_spec s' s), (Z.ltb_spec t t'), (Z.ltb_spec t' t); cbn in *; try done; lia.
Qed.

Lemma conflict_refl a : conflict a a = None.
Proof. unfold conflict. by rewrite !Z.eqb_refl, !bool_decide_eq_true_2, !Z.ltb_irrefl by done. Qed.

Lemma firstConflict_none att l : firstConflict att l = None -> forall b, b ∈ l -> conflict att b = None.
Proof.
  induction l as [|a l IH]; intros H b Hb; [by apply not_elem_of_nil in Hb|]. cbn in H.
  destruct (conflict att a) eqn:E; [done|]. apply elem_of_cons in Hb as [->|Hb]; [done|by apply IH].
Qed.

Lemma firstConflict_some att l b e : firstConflict att l = Some (b, e) -> b ∈ l /\ conflict att b = Some e.
Proof.
  induction l as [|a l IH]; [done|]. cbn. destruct (conflict att a) as [e'|] eqn:E.
  - intros [= -> ->]. split; [apply list_elem_of_here|done].
  - intros H. destruct (IH H). split; [by apply list_elem_of_further|done].
Qed.

(** The recorded votes of each validator, with no conflict among them. *)
Definition compatible (atts : gmap Z (gmap Z Attestation)) : Prop :=
  forall i s1 s2 a b, default ∅ (atts !! i) !! s1 = Some a -> default ∅ (atts !! i) !! s2 = Some b -> conflict a b = None.

Lemma delete_included j m : votesIncluded m (delete j m).
Proof.
  intros i s a. destruct (decide (i = j)) as [->|]; [|by rewrite lookup_delete_ne].
  rewrite lookup_delete_eq. cbn. by rewrite lookup_empty.
Qed.

Lemma deletes_included l m : votesIncluded m (foldl (fun m j => delete j m) m l).
Proof. revert m. induction l as [|k l IH]; intros m; [reflexivity|]. cbn. etransitivity; [apply delete_included|apply IH]. Qed.

Lemma pruneValidator_included keep m j : votesIncluded m (pruneValidator keep m j).
Proof.
  unfold pruneValidator. destruct (m !! j) as [atts|] eqn:E; [|reflexivity].
  set (kept := filter _ atts). set (m1 := if decide (kept = ∅) then delete j m else <[j := kept]> m).
  assert (H1 : votesIncluded m m1).
  { subst m1. case_decide; [apply delete_included|]. intros i s a. destruct (decide (i = j)) as [->|]; [|by rewrite lookup_insert_ne].
    rewrite lookup_insert_eq, E. cbn. intros HF. by apply map_lookup_filter_Some in HF as [HF _]. }
  etransitivity; [exact H1|]. destruct (0 <? _); [|reflexivity]. apply deletes_included.
Qed.

Lemma prune_included keep l m : votesIncluded m (foldl (pruneValidator keep) m l).
Proof. revert m. induction l as [|j l IH]; intros m; [reflexivity|]. cbn. etransitivity; [apply pruneValidator_included|apply IH]. Qed.

Lemma record_compatible k att q :
  (forall b, b ∈ (map_to_list (attsOf q k)).*2 -> conflict att b = None) ->
  compatible (validatorAttestations q) -> compatible (validatorAttestations (recordAtt k (att_Slot att) att q)).
Proof.
  intros HN HC i s1 s2 a b. cbn. destruct (decide (i = k)) as [->|]; [|rewrite lookup_insert_ne by done; apply HC].
  rewrite lookup_insert_eq. cbn.
  assert (HL : forall s b, attsOf q k !! s = Some b -> conflict att b = None).
  { intros s b' Hb. apply HN, list_elem_of_fmap. exists (s, b'). split; [done|]. by apply elem_of_map_to_list. }
  destruct (decide (s1 = att_Slot att)) as [->|], (decide (s2 = att_Slot att)) as [->|]; rewrite ?lookup_insert_eq, ?lookup_insert_ne by done.
  - intros [= ->] [= ->]. apply conflict_refl.
  - intros [= ->] Hb. by apply (HL s2).
  - intros Ha [= ->]. by apply conflict_none_sym, (HL s1).
  - apply HC.
Qed.

(** Every step keeps the recorded votes free of conflicts, if the votes it is handed are. *)
Lemma step_compatible now op q : (forall m, rangeAtts env m ≡ₚ (map_to_list m).*2) ->
  (forall i att s b, syncedVote op = Some (i, att) -> attsOf q i !! s = Some b -> conflict att b = None) ->
  compatible (validatorAttestations q) -> compatible (validatorAttestations (step now op q)).
Proof.
  intros HR HV HC. destruct (syncedVote op) as [[i att]|] eqn:EV.
  - destruct op; try discriminate EV. pose proof (sync_ledger vote validatorIndex q) as HL. rewrite EV in HL.
    cbn [step]. injection HL as _ HL. rewrite HL. apply record_compatible; [|done]. intros b Hb.
    apply list_elem_of_fmap in Hb as ([s b'] & -> & Hb). apply elem_of_map_to_list in Hb. by apply (HV i att s).
  - destruct (step_ledger now op q EV) as [HL|HL|ev HL|att HA HL|keep l HL|m HI HL]; injection HL as _ HL; rewrite HL; try done.
    + apply record_compatible; [|done]. intros b Hb. apply (firstConflict_none _ _ (ac_conflict _ _ _ HA)). by rewrite HR.
    + intros i s1 s2 a b Ha Hb. apply (HC i s1 s2); by eapply prune_included.
    + intros i s1 s2 a b Ha Hb. apply (HC i s1 s2); by apply HI.
Qed.

(** ** The evidence queue *)

Definition bounded (queue : list SlashingEvidence) : Prop :=
  len queue <= MaxEvidenceQueue /\ forall addr, len (evidenceAgainst addr queue) <= MaxEvidencePerValidator.

Lemma evict_spec addr queue rest :
  evictFirst addr queue = Some rest ->
  len queue = len rest + 1 /\ len (evidenceAgainst addr queue) = len (evidenceAgainst addr rest) + 1 /\
  forall other, other <> addr -> evidenceAgainst other rest = evidenceAgainst other queue.
Proof.
  revert rest. unfold evidenceAgainst, len.
  induction queue as [|e queue IH]; intros rest; [done|]. cbn [evictFirst]. case_decide as HE.
  - intros [= ->]. rewrite filter_cons_True by done. cbn [length]. split; [lia|]. split; [lia|]. intros other HO.
    by rewrite filter_cons_False by congruence.
  - destruct (evictFirst addr queue) as [r|] eqn:EE; [|done]. intros [= <-]. destruct (IH r eq_refl) as (H1 & H2 & H3).
    rewrite !filter_cons_False by done. cbn [length]. split; [lia|]. split; [lia|]. intros other HO.
    rewrite !filter_cons. case_decide; [f_equal|]; by apply H3.
Qed.

Lemma enqueue_other ev queue other :
  other <> ev_ValidatorAddr ev -> evidenceAgainst other (enqueue ev queue) = evidenceAgainst other queue.
Proof.
  intros HO. unfold enqueue. case_match; [done|]. case_match; [done|].
  assert (HA : forall l, evidenceAgainst other (l ++ [ev]) = evidenceAgainst other l).
  { intros l. unfold evidenceAgainst. by rewrite filter_app, filter_cons_False, app_nil_r by congruence. }
  case_match; [|apply HA]. destruct (evictFirst (ev_ValidatorAddr ev) queue) as [rest|] eqn:EE; [|done].
  rewrite HA. by eapply evict_spec.
Qed.

Lemma enqueue_bounded ev queue : bounded queue -> bounded (enqueue ev queue).
Proof.
  intros [HL HV]. unfold bounded.
  assert (HS : len (enqueue ev queue) <= MaxEvidenceQueue /\
    len (evidenceAgainst (ev_ValidatorAddr ev) (enqueue ev queue)) <= MaxEvidencePerValidator).
  { unfold enqueue. case_match; [by split|]. case_match eqn:E1; [by split|]. apply Z.leb_gt in E1.
    assert (HA : forall l, len (evidenceAgainst (ev_ValidatorAddr ev) (l ++ [ev])) = len (evidenceAgainst (ev_ValidatorAddr ev) l) + 1).
    { intros l. unfold evidenceAgainst. rewrite filter_app, filter_cons_True by done. apply len_app. }
    case_match eqn:E2.
    - destruct (evictFirst (ev_ValidatorAddr ev) queue) as [rest|] eqn:EE; [|by split].
      destruct (evict_spec _ _ _ EE) as (H1 & H2 & _). rewrite HA, len_app. specialize (HV (ev_ValidatorAddr ev)).
      change (len [ev]) with 1. split; lia.
    - apply Z.leb_gt in E2. rewrite HA, len_app. change (len [ev]) with 1. split; lia. }
  split; [apply HS|]. intros addr. destruct (decide (addr = ev_ValidatorAddr ev)) as [->|HN]; [apply HS|].
  rewrite enqueue_other by done. apply HV.
Qed.

Lemma step_bounded now op q : bounded (evidenceQueue q) -> bounded (evidenceQueue (step now op q)).
Proof.
  intros H. destruct (syncedVote op) as [[i att]|] eqn:EV.
  - destruct op; try discriminate EV. pose proof (sync_ledger vote validatorIndex q) as HL. rewrite EV in HL.
    cbn [step]. by injection HL as -> _.
  - destruct (step_ledger now op q EV) as [HL|HL|ev HL|att HA HL|keep l HL|m HI HL]; injection HL as HL _; rewrite HL; try done.
    by apply enqueue_bounded.
Qed.

(** ** The range of a reorganisation *)

Lemma minSlot_le l s : minSlot l s <= s /\ forall x, x ∈ l -> minSlot l s <= x.
Proof.
  unfold minSlot. revert s. induction l as [|y l IH]; intros s; cbn; [split; [lia|intros x Hx; by apply not_elem_of_nil in Hx]|].
  destruct (IH (Z.min s y)) as [H1 H2]. split; [lia|]. intros x [->|Hx]%elem_of_cons; [lia|by apply H2].
Qed.

Lemma maxSlot_ge l s : s <= maxSlot l s /\ forall x, x ∈ l -> x <= maxSlot l s.
Proof.
  unfold maxSlot. revert s. induction l as [|y l IH]; intros s; cbn; [split; [lia|intros x Hx; by apply not_elem_of_nil in Hx]|].
  destruct (IH (Z.max s y)) as [H1 H2]. split; [lia|]. intros x [->|Hx]%elem_of_cons; [lia|by apply H2].
Qed.

(** The new roots lie in the range. *)
Lemma cleanRange_covers roots bounds from to s :
  ReanchorCleanRange roots bounds = Some (from, to) -> is_Some (roots !! s) -> from <= s <= to.
Proof.
  unfold ReanchorCleanRange. intros HR [r Hs]. assert (HI : s ∈ (map_to_list roots).*1).
  { apply list_elem_of_fmap. exists (s, r). split; [done|]. by apply elem_of_map_to_list. }
  destruct ((map_to_list roots).*1) as [|y l]; [by apply not_elem_of_nil in HI|].
  destruct (minSlot_le l y) as [A1 A2], (maxSlot_ge l y) as [B1 B2]. injection HR as <- <-.
  assert (minSlot l y <= s <= maxSlot l y) by (apply elem_of_cons in HI as [->|HI]; [lia|specialize (A2 _ HI); specialize (B2 _ HI); lia]).
  split; [destruct (AncestorKnown bounds && _) eqn:E; [apply andb_true_iff in E as [_ E]; apply Z.ltb_lt in E|]; lia|].
  destruct (Z.ltb_spec (maxSlot l y) (ReplacedHeadSlot bounds)); lia.
Qed.

Lemma reanchorSlots_in roots lo hi slots s : lo <= s <= hi -> reanchorSlots roots lo hi slots !! s = roots !! s.
Proof.
  intros H. unfold reanchorSlots. destruct (roots !! s) as [r|] eqn:E.
  - apply map_lookup_filter_Some_2; [by apply lookup_union_Some_l|]. left. by exists r.
  - apply map_lookup_filter_None. right. intros x _ [[y Hy]|HN]; [congruence|done].
Qed.

Lemma reanchorSlots_out roots lo hi slots s :
  roots !! s = None -> ~ (lo <= s <= hi) -> reanchorSlots roots lo hi slots !! s = slots !! s.
Proof.
  intros HN HO. unfold reanchorSlots. destruct (slots !! s) as [r|] eqn:E.
  - apply map_lookup_filter_Some_2; [by rewrite lookup_union_r|by right].
  - apply map_lookup_filter_None. left. by rewrite lookup_union_r.
Qed.

(** ** The roots after one is recorded *)

Lemma cutoff_cp e q q' : checkpoints q' = checkpoints q -> epochPruneCutoff e q' = epochPruneCutoff e q.
Proof. unfold checkpoints. intros [= HJ HF _ _ HC]. unfold epochPruneCutoff. by rewrite HJ, HF, HC. Qed.

Lemma setEpoch_roots e r q :
  rootPinned e r q = false ->
  epochBlockRoots (setEpochBlockRootLocked env e r q) =
  let m := <[e := r]> (epochBlockRoots q) in
  if 10 <? Z.of_nat (size m) then filter (fun '(x, _) => epochPruneCutoff e q <= x) m else m.
Proof.
  intros HP. unfold setEpochBlockRootLocked. rewrite HP.
  pose proof (reconcile_cp e r (set_epochBlockRoots (<[e := r]> (epochBlockRoots q)) q)) as HR.
  destruct (reconcileRoots e r _) as [changed q1]. cbn [snd] in HR.
  set (q2 := if changed then set_finalityPersistPending true q1 else q1).
  set (q3 := if changed || finalityPersistPending q2 then persistFinalityLocked env q2 else q2).
  assert (HQ : checkpoints (set_shuffleCache (delete (u64 (e + 1)) (shuffleCache q3)) q3) = checkpoints q1).
  { change (checkpoints q3 = checkpoints q1). subst q3. trans (checkpoints q2); [destruct (changed || _); [apply persist_cp|done]|].
    subst q2. by destruct changed. }
  generalize dependent (set_shuffleCache (delete (u64 (e + 1)) (shuffleCache q3)) q3). clear q3 q2. intros q4 HQ.
  rewrite HR in HQ. cbn in HQ. unfold pruneEpochRoots.
  assert (HC : epochPruneCutoff e q4 = epochPruneCutoff e q).
  { unfold checkpoints in HQ. injection HQ as HJ HF _ _ HC. unfold epochPruneCutoff. by rewrite HJ, HF, HC. }
  unfold checkpoints in HQ. injection HQ as _ _ _ HE _. rewrite HE. cbn zeta. destruct (10 <? _); cbn; rewrite ?HC, ?HE; reflexivity.
Qed.

Lemma setEpoch_justified e r q : justifiedEpoch (setEpochBlockRootLocked env e r q) = justifiedEpoch q.
Proof.
  unfold setEpochBlockRootLocked. case_match; [done|].
  pose proof (reconcile_cp e r (set_epochBlockRoots (<[e := r]> (epochBlockRoots q)) q)) as HR.
  destruct (reconcileRoots e r _) as [changed q1]. cbn [snd] in HR. unfold checkpoints in HR. injection HR as HR _ _ _ _.
  cbn in HR. rewrite <- HR. unfold pruneEpochRoots, persistFinalityLocked. by destruct changed; repeat case_match.
Qed.

(** A vote whose source epoch has no recorded root is refused. *)
Lemma no_root_refused now att q :
  0 < cp_Epoch (att_Source att) -> epochBlockRoots q !! cp_Epoch (att_Source att) = None ->
  exists e q', ProcessAttestation env now (Some att) q = (Err e, q').
Proof.
  intros H0 HN. pose proof (process_outcome now (Some att) q) as HO. destruct (ProcessAttestation env now (Some att) q) as [r q'].
  inversion HO as [? e ? HS N1 N2|? e ev q1 HS HOF|? q1 HS HA]; subst; [by exists e, q'|by eexists e, _|].
  pose proof (ac_canonical _ _ _ HA) as HC. unfold sourceCanonical in HC. apply Z.ltb_lt in H0. rewrite H0 in HC.
  unfold getEpochBlockRootLocked in HC. rewrite HN in HC. done.
Qed.

(** ** The votes a node creates *)

Lemma create_target s r i q att q1 :
  CreateAttestation s r i q = (Some att, q1) ->
  cp_Epoch (att_Target att) = SlotToEpoch s /\
  (cp_Epoch (att_Source att) < SlotToEpoch s -> attestationSources q1 !! SlotToEpoch s = Some (att_Source att)).
Proof.
  unfold CreateAttestation. destruct (match attestationSources q !! SlotToEpoch s with Some _ => _ | None => _ end) as [source|]; [|done].
  destruct (negb (isZero _) && (cp_Epoch source <? SlotToEpoch s)) eqn:E.
  - case_match; [done|]. intros [= <- <-]. split; [done|]. intros _. cbn. apply lookup_insert_eq.
  - case_match eqn:EZ; [done|]. intros [= <- <-]. split; [done|]. cbn. intros HL. apply Z.ltb_lt in HL. by rewrite HL, ?EZ in E.
Qed.

Lemma create_pinned s r i q att q1 source :
  attestationSources q !! SlotToEpoch s = Some source -> CreateAttestation s r i q = (Some att, q1) -> att_Source att = source.
Proof. unfold CreateAttestation. intros ->. repeat case_match; intros; by simplify_eq. Qed.
End with_env.
End QposSpec.
