(* ===== verification/QposQuorum.v ===== *)
(** * Quorums

    The weight of a set of validators, the set that the counting of votes
    collects, and the intersection of two quorums. *)

From Stdlib Require Import ZArith Lia.
From Stdlib.Strings Require Import Byte.
From stdpp Require Import base list countable gmap strings numbers sorting.
From S2P Require Import Prelude Stack Election Qpos QposFinality QposVotes QposSpec.

Module QposQuorum.
Import Election Qpos QposFinality QposVotes QposSpec.

(** ** Sums over sets *)

Definition sumOf (w : Z -> Z) (l : list Z) : Z := foldr (fun i t => w i + t) 0 l.
Definition weightOf (w : Z -> Z) (X : gset Z) : Z := sumOf w (elements X).

Lemma sumOf_perm w l k : l ≡ₚ k -> sumOf w l = sumOf w k.
Proof. induction 1; unfold sumOf in *; cbn; lia. Qed.

Lemma sumOf_app w l k : sumOf w (l ++ k) = sumOf w l + sumOf w k.
Proof. induction l as [|i l IH]; [done|]. unfold sumOf in *. cbn. lia. Qed.

Lemma weightOf_disjoint w X Y : X ## Y -> weightOf w (X ∪ Y) = weightOf w X + weightOf w Y.
Proof. intros H. unfold weightOf. rewrite <- sumOf_app. by apply sumOf_perm, elements_disj_union. Qed.

Lemma weightOf_insert w i X : i ∉ X -> weightOf w ({[i]} ∪ X) = w i + weightOf w X.
Proof. intros H. rewrite weightOf_disjoint by set_solver. unfold weightOf at 1. rewrite elements_singleton. cbn. lia. Qed.

Section nonneg.
Context (w : Z -> Z) (Hw : forall i, 0 <= w i).

Lemma weightOf_nonneg X : 0 <= weightOf w X.
Proof. unfold weightOf. induction (elements X) as [|i l IH]; [done|]. specialize (Hw i). unfold sumOf in *. cbn. lia. Qed.

Lemma weightOf_mono X Y : X ⊆ Y -> weightOf w X <= weightOf w Y.
Proof.
  intros H. assert (E : Y = X ∪ (Y ∖ X)) by (apply set_eq; intros x; destruct (decide (x ∈ X)); set_solver).
  rewrite E, weightOf_disjoint by set_solver. pose proof (weightOf_nonneg (Y ∖ X)). lia.
Qed.

(** Two sets within [E] weigh no more than [E] and what they share. *)
Lemma quorum_intersection X Y E : X ⊆ E -> Y ⊆ E -> weightOf w X + weightOf w Y <= weightOf w E + weightOf w (X ∩ Y).
Proof.
  intros HX HY. assert (EX : X = (X ∖ Y) ∪ (X ∩ Y)) by (apply set_eq; intros x; destruct (decide (x ∈ Y)); set_solver).
  assert (weightOf w X = weightOf w (X ∖ Y) + weightOf w (X ∩ Y)) by (rewrite EX at 1; apply weightOf_disjoint; set_solver).
  pose proof (weightOf_mono ((X ∖ Y) ∪ Y) E ltac:(set_solver)) as HM. rewrite weightOf_disjoint in HM by set_solver. lia.
Qed.
End nonneg.

(** ** The electorate *)

Definition weightAt (q : QPOS) (epoch i : Z) : Z :=
  match GetValidatorByIndex i (validators q) with
  | Some v => if eligible q i v then consensusWeight q (v_Stake v) epoch else 0
  | None => 0
  end.

Definition electorate (q : QPOS) : gset Z := list_to_set (eligibleValidators q).*1.

Lemma zip_seqZ_lookup {A} (l : list A) i x :
  (i, x) ∈ zip (seqZ 0 (len l)) l <-> 0 <= i /\ l !! Z.to_nat i = Some x.
Proof.
  rewrite list_elem_of_lookup. split.
  - intros [n Hn]. apply lookup_zip_Some in Hn as [H1 H2]. apply lookup_seqZ in H1 as [-> H1].
    split; [lia|]. by replace (Z.to_nat (0 + Z.of_nat n)) with n by lia.
  - intros [H0 Hi]. exists (Z.to_nat i). apply lookup_zip_Some. split; [|done]. apply lookup_seqZ.
    apply lookup_lt_Some in Hi. unfold len. lia.
Qed.

Lemma eligible_elem q i v :
  (i, v) ∈ eligibleValidators q <-> GetValidatorByIndex i (validators q) = Some v /\ eligible q i v = true.
Proof.
  unfold eligibleValidators, GetValidatorByIndex. rewrite list_elem_of_filter, zip_seqZ_lookup.
  destruct (Z.ltb_spec i 0); [|tauto]. split; [intros (_ & H1 & _); lia|intros [? _]; done].
Qed.

Lemma eligible_nodup q : NoDup (eligibleValidators q).*1.
Proof.
  unfold eligibleValidators. set (l := vs_validators (validators q)).
  assert (H : NoDup (zip (seqZ 0 (len l)) l).*1).
  { rewrite fst_zip; [apply NoDup_seqZ|]. rewrite length_seqZ. unfold len. lia. }
  revert H. generalize (zip (seqZ 0 (len l)) l). intros k. induction k as [|[i v] k IH]; intros H; [constructor|].
  cbn in H. apply list.NoDup_cons in H as [H1 H2]. rewrite filter_cons. case_match; [|by apply IH]. cbn.
  apply list.NoDup_cons. split; [|by apply IH]. intros HE. apply H1. apply list_elem_of_fmap in HE as ([j u] & -> & HE).
  apply list_elem_of_filter in HE as [_ HE]. apply list_elem_of_fmap. by exists (j, u).
Qed.

Lemma total_weight q epoch : totalWeight q epoch = weightOf (weightAt q epoch) (electorate q).
Proof.
  unfold weightOf, electorate. rewrite (sumOf_perm _ _ _ (elements_list_to_set _ (eligible_nodup q))).
  unfold totalWeight. assert (H : forall i v, (i, v) ∈ eligibleValidators q -> weightAt q epoch i = consensusWeight q (v_Stake v) epoch).
  { intros i v HE. apply eligible_elem in HE as [H1 H2]. unfold weightAt. by rewrite H1, H2. }
  revert H. induction (eligibleValidators q) as [|[i v] l IH]; intros H; [done|]. unfold sumOf in *. cbn.
  rewrite IH by (intros; apply H; by apply list_elem_of_further). rewrite (H i v); [done|apply list_elem_of_here].
Qed.

Lemma electorate_elem q i : i ∈ electorate q <-> exists v, GetValidatorByIndex i (validators q) = Some v /\ eligible q i v = true.
Proof.
  unfold electorate. rewrite elem_of_list_to_set, list_elem_of_fmap. split.
  - intros ([j v] & -> & H). exists v. by apply eligible_elem.
  - intros [v H]. exists (i, v). split; [done|]. by apply eligible_elem.
Qed.

(** Stakes are amounts. *)
Definition stakesOk (q : QPOS) : Prop := forall v, v ∈ vs_validators (validators q) -> 0 <= v_Stake v.

Lemma stakes_check q : forallb (fun v => 0 <=? v_Stake v) (vs_validators (validators q)) = true -> stakesOk q.
Proof. rewrite forallb_forall. intros H v Hv. by apply Z.leb_le, H, list_elem_of_In. Qed.

Lemma EffectiveBalance_range stake : 0 <= EffectiveBalance stake <= Z.min (Z.max 0 stake) MaxEffectiveBalance.
Proof.
  unfold EffectiveBalance, EffectiveBalanceIncrement, MaxEffectiveBalance.
  destruct (Z.leb_spec stake 0); [lia|]. case_match; zcases; zlia.
Qed.

Lemma weightAt_nonneg q epoch : stakesOk q -> forall i, 0 <= weightAt q epoch i.
Proof.
  intros HS i. unfold weightAt. destruct (GetValidatorByIndex i (validators q)) as [v|] eqn:E; [|done]. case_match; [|done].
  unfold consensusWeight. case_match; [apply EffectiveBalance_range|]. apply HS. unfold GetValidatorByIndex in E.
  case_match; [done|]. by eapply list_elem_of_lookup_2.
Qed.

(** ** The votes that are counted *)

(** Validator [i] has a vote for [epoch] in the store that counts. *)
Definition voted (q : QPOS) (epoch i : Z) : Prop :=
  exists slot att, EpochStartSlot epoch <= slot < EpochStartSlot epoch + SlotsPerEpoch /\ att ∈ votesAt q slot /\
    att_ValidatorIndex att = i /\ countsFor q epoch slot att = true.

Definition countInv (q : QPOS) (epoch : Z) (acc : gset Z * Z) : Prop :=
  acc.2 = weightOf (weightAt q epoch) acc.1 /\ acc.1 ⊆ electorate q /\ forall i, i ∈ acc.1 -> voted q epoch i.

Lemma countVote_inv q epoch slot att acc :
  EpochStartSlot epoch <= slot < EpochStartSlot epoch + SlotsPerEpoch -> att ∈ votesAt q slot ->
  countInv q epoch acc -> countInv q epoch (countVote q epoch slot acc att).
Proof.
  intros HS HA HI. destruct acc as [X w]. unfold countVote. destruct (countsFor q epoch slot att) eqn:EC; [|done]. cbn [negb].
  destruct (GetValidatorByIndex (att_ValidatorIndex att) (validators q)) as [v|] eqn:EV; [|done].
  destruct (eligible q (att_ValidatorIndex att) v) eqn:EE; [|done]. cbn [negb]. case_decide as HN; [done|].
  destruct HI as (H1 & H2 & H3). cbn [fst snd] in *. split; [|split]; cbn [fst snd].
  - rewrite weightOf_insert by done. unfold weightAt at 1. rewrite EV, EE. lia.
  - intros i. rewrite elem_of_union, elem_of_singleton. intros [->|Hi]; [|by apply H2]. apply electorate_elem. by exists v.
  - intros i. rewrite elem_of_union, elem_of_singleton. intros [->|Hi]; [|by apply H3]. by exists slot, att.
Qed.

Lemma countVotes_inv q epoch : countInv q epoch (countVotes q epoch).
Proof.
  unfold countVotes.
  assert (HI : forall slots acc, (forall s, s ∈ slots -> EpochStartSlot epoch <= s < EpochStartSlot epoch + SlotsPerEpoch) ->
    countInv q epoch acc -> countInv q epoch (foldl (fun acc slot => foldl (countVote q epoch slot) acc (votesAt q slot)) acc slots)).
  { induction slots as [|s slots IH]; intros acc HS HI; [done|]. cbn. apply IH; [intros; apply HS; by apply list_elem_of_further|].
    assert (HA : forall l, l ⊆ votesAt q s -> forall acc, countInv q epoch acc -> countInv q epoch (foldl (countVote q epoch s) acc l)).
    { induction l as [|a l IHl]; intros HL acc' HI'; [done|]. cbn. apply IHl; [set_solver|].
      apply countVote_inv; [apply HS; apply list_elem_of_here|set_solver|done]. }
    by apply HA. }
  apply HI; [|done]. intros s Hs. apply elem_of_seqZ in Hs. lia.
Qed.

(** ** Supermajorities *)

(** The validators in [X] voted for the canonical root of [epoch] and carry two
    thirds of the weight. *)
Definition quorum (q : QPOS) (epoch : Z) (X : gset Z) : Prop :=
  X ⊆ electorate q /\ ComputeMinAttestations (len (eligibleValidators q)) <= Z.of_nat (size X) /\
  2 * totalWeight q epoch <= 3 * weightOf (weightAt q epoch) X /\ 0 < totalWeight q epoch /\ forall i, i ∈ X -> voted q epoch i.

Lemma supermajority_quorum q epoch : supermajority q epoch = true -> exists X, quorum q epoch X.
Proof.
  unfold supermajority. pose proof (countVotes_inv q epoch) as HI. destruct (countVotes q epoch) as [X w].
  destruct HI as (H1 & H2 & H3). cbn [fst snd] in *. subst w.
  rewrite !andb_true_iff, Z.ltb_lt, !Z.leb_le. intros [[[HT _] HM] HW]. exists X.
  split; [done|]. split; [done|]. split; [lia|]. by split.
Qed.

(** A vote that counts names the canonical root of the epoch, which is known. *)
Lemma counts_target q epoch slot att :
  countsFor q epoch slot att = true ->
  att_Target att = mkCheckpoint epoch (getEpochBlockRootLocked epoch q) /\ getEpochBlockRootLocked epoch q <> zeroHash /\
  cp_Epoch (att_Source att) < epoch /\ cp_Epoch (att_Source att) <= justifiedEpoch q.
Proof.
  unfold countsFor. rewrite !andb_true_iff. intros [[[[[[H1 H2] H3] _] H4] H5] _].
  apply Z.eqb_eq in H1. apply Z.ltb_lt in H2. apply Z.leb_le in H3. apply bool_decide_eq_true in H5.
  apply negb_true_iff in H4. unfold isZero in H4. apply bool_decide_eq_false in H4.
  split; [|split; [done|lia]]. destruct (att_Target att) as [te tr]. cbn in *. by subst.
Qed.

Lemma quorum_nonempty q epoch X : quorum q epoch X -> exists i, i ∈ X.
Proof.
  intros (_ & H & _). apply set_choose_L. intros ->. rewrite size_empty in H. unfold ComputeMinAttestations, MinAttestations in H.
  repeat case_match; zlia.
Qed.

(** Votes for two roots of one epoch conflict. *)
Lemma votes_conflict a b e r1 r2 :
  att_Target a = mkCheckpoint e r1 -> att_Target b = mkCheckpoint e r2 -> r1 <> r2 -> conflict a b = Some ErrDoubleVote.
Proof.
  intros Ha Hb HN. unfold conflict. rewrite Ha, Hb. cbn. rewrite (Z.eqb_refl e), (bool_decide_eq_false_2 (r1 = r2)) by done.
  by case_match.
Qed.

End QposQuorum.
