(* ===== verification/QposTheorems.v ===== *)
(** * Theorems about the proof-of-stake engine

    Finality does not go back, short of the reset to genesis; a justified epoch has a quorum, and two justified
    roots of one epoch give a third of the weight away; the recorded votes of a
    validator never conflict and the vote that would is refused with evidence; the
    evidence queue is bounded; a reorganisation spares finalized history. And what
    the code does not ensure: the root of the finalized epoch against replayed
    headers, the slashing conditions on synced votes, finality with links of any source, checkpoints
    adopted in the wrong order, a pruned justified root, key promotion by an
    unauthenticated vote, slashing marks that change owner. *)

From Stdlib Require Import ZArith Lia.
From Stdlib.Strings Require Import Byte.
From stdpp Require Import base list countable gmap strings numbers sorting.
From S2P Require Import Prelude Stack Election Qpos QposFinality QposVotes QposSpec QposQuorum.

Import Election Qpos QposFinality QposVotes QposSpec QposQuorum.

(** ** A network of four validators *)

Module Net.

Definition env : Env :=
  mkEnv 1 1000 (fun _ => true) (fun _ _ sig => bool_decide (sig = [x01])) (fun data => array_of_Z 32 (len data)) (fun _ _ => None)
    (fun _ => false) (fun _ => true) (fun m => (map_to_list m).*2) elements [x00; x00; x00; x00].

Lemma range_perm m : rangeAtts env m ≡ₚ (map_to_list m).*2.
Proof. done. Qed.

Definition validator (i : Z) : Validator := mkValidator (array_of_Z 20 i) (100 * 10 ^ 18) true 0 [x07] [].

Definition set : ValidatorSet :=
  match NewValidatorSet (Some <$> (validator <$> [1; 2; 3; 4])) with
  | Ok vs => vs
  | _ => mkValidatorSet [] 0 [] ∅ ∅
  end.

(** A block of fork [f] at [slot]. *)
Definition block (f slot : Z) : Hash := array_of_Z 32 (1000 * f + slot + 1).
Definition genesis : Hash := block 0 0.

(** The wall clock at the start of a slot. *)
Definition at_slot (slot : Z) : Z := 1000 + 12 * slot.

Definition node : QPOS := SetGenesisRoot genesis (NewQPOS set).

(** The votes of the four validators in [epoch] for fork [f], with genesis as source. *)
Definition vote (f epoch i : Z) : Attestation :=
  mkAttestation (32 * epoch + 5 + i) (block f (32 * epoch + 5 + i)) (mkCheckpoint 0 genesis)
    (mkCheckpoint epoch (block f (32 * epoch))) i [x01] 0.

Definition votes (f epoch : Z) : list Attestation := vote f epoch <$> [0; 1; 2; 3].

(** The chain of fork [f] up to [epoch], then the votes for [epoch] in the next one. *)
Definition epochOps (f epoch : Z) : list (Z * Op) :=
  (at_slot (32 * epoch), OpSetEpochRoot epoch (block f (32 * epoch))) ::
  (at_slot (32 * (epoch + 1)), OpBlockTime (at_slot (32 * (epoch + 1)))) ::
  ((fun att => (at_slot (32 * (epoch + 1)), OpAttest (Some att))) <$> votes f epoch).

Definition rootOp (f epoch : Z) : Z * Op := (at_slot (32 * epoch), OpSetEpochRoot epoch (block f (32 * epoch))).
End Net.

(** ** Finality *)

(** C5: finality does not go back: whatever a node does (votes, blocks,
    reorganisations, seals, backfilled or restored checkpoints, changes of the
    validator set), short of the reset to genesis that an operator can order, its
    justified and finalized epochs never decrease. And while the finalized epoch
    stays (from the second one on), its root stays, in the checkpoint and in the
    record of epoch roots, if they agree to begin with and the headers that are
    replayed for this epoch have this hash. (The field [currentEpoch] is zero: the
    code never assigns it.) *)
Theorem finality_never_reverts (env : Env) (ops : list (Z * Op)) (q : QPOS)
    (HN : Forall (fun '(_, op) => op <> OpReanchorGenesis) ops) :
  let q' := run env ops q in
  justifiedEpoch q <= justifiedEpoch q' /\ finalizedEpoch q <= finalizedEpoch q' /\
  (1 < finalizedEpoch q -> currentEpoch q = 0 -> recorded q -> finalizedEpoch q' = finalizedEpoch q ->
   Forall (fun '(_, op) => replays (finalizedEpoch q) (finalizedRoot q) op) ops ->
   recorded q' /\ finalizedRoot q' = finalizedRoot q).
Proof.
  intros q'. destruct (run_epochs env ops q HN). split; [done|]. split; [done|]. intros H1 HC HR HE HH. by apply run_recorded.
Qed.

(** A node that has finalized epoch 2 of fork 1 is told of another root for it, a
    header of a later epoch and a seal. *)
Lemma finality_never_reverts_witness :
  let q := run Net.env (Net.epochOps 1 1 ++ Net.epochOps 1 2 ++ Net.epochOps 1 3) Net.node in
  let header := mkHeader 128 128 4 (Net.block 1 7) (array_of_Z 20 1) in
  let ops := [Net.rootOp 2 2; (Net.at_slot 130, OpBlockHeader (Some header) (Net.block 1 128)); (Net.at_slot 130, OpSeal 65 (Net.block 1 65))] in
  finalizedEpoch q = 2 /\ justifiedEpoch q <= justifiedEpoch (run Net.env ops q) /\
  recorded (run Net.env ops q) /\ finalizedRoot (run Net.env ops q) = finalizedRoot q.
Proof.
  intros q header ops. assert (EF : finalizedEpoch q = 2) by (vm_compute; reflexivity). split; [exact EF|].
  assert (HN : Forall (fun '(_, op) => op <> OpReanchorGenesis) ops) by (repeat constructor; discriminate).
  destruct (finality_never_reverts Net.env ops q HN) as (H1 & _ & H3). split; [exact H1|]. apply H3.
  - rewrite EF. reflexivity.
  - vm_compute. reflexivity.
  - split; [vm_compute; reflexivity|]. intros E. apply (f_equal array_to_Z) in E. revert E. vm_compute. discriminate.
  - rewrite EF. vm_compute. reflexivity.
  - rewrite EF. repeat constructor. intros E. discriminate E.
Defined.

(** Replaying the header of a block for the finalized epoch is not checked against
    the finalized root: it replaces the recorded root, and when the same root is
    recorded again, which was refused before, the finalized root follows it. *)
Theorem replayed_header_moves_finalized_root (env : Env) (h : BlockHeader) (r : Hash) (q : QPOS)
    (H1 : 1 < finalizedEpoch q) (HR : recorded q) (HE : bh_Epoch h = finalizedEpoch q) (HS : bh_Slot h mod SlotsPerEpoch = 0)
    (HV : bh_RANDAOReveal h <> zeroHash) (HA : r ∉ appliedBlockRoots q) (HZ : r <> finalizedRoot q) :
  let q' := (ApplyBlockHeader env (Some h) r q).2 in
  SetEpochBlockRoot env (finalizedEpoch q) r q = q /\
  epochBlockRoots q' !! finalizedEpoch q = Some r /\ finalizedEpoch q' = finalizedEpoch q /\ finalizedRoot q' = finalizedRoot q /\
  finalizedRoot (SetEpochBlockRoot env (finalizedEpoch q) r q') = r.
Proof.
  intros q'. destruct HR as [HR HNZ]. split.
  { unfold SetEpochBlockRoot, setEpochBlockRootLocked, rootPinned. rewrite HR, Z.eqb_refl, (proj2 (Z.ltb_lt _ _)) by lia.
    unfold isZero. rewrite (bool_decide_eq_false_2 _ HNZ), bool_decide_eq_false_2 by congruence. done. }
  assert (HQ : epochBlockRoots q' !! finalizedEpoch q = Some r /\ finalizedEpoch q' = finalizedEpoch q /\ finalizedRoot q' = finalizedRoot q).
  { destruct (header_frame env h r q HA) as (q1 & E1 & E2). fold q' in E2. clearbody q'. unfold checkpoints in E1. injection E1 as _ EF ER _ _.
    unfold checkpoints, recordEpochRoot, isZero in E2. rewrite (bool_decide_eq_false_2 _ HV), HS, Z.eqb_refl, (proj2 (Z.eqb_neq (bh_Epoch h) 0)) in E2 by lia.
    cbn in E2. injection E2 as _ -> -> -> _. rewrite HE, EF, ER. by rewrite lookup_insert_eq. }
  destruct HQ as (EB & EF & ER). split_and!; [done..|]. rewrite <- EF in EB |- *.
  apply setEpoch_root; [|done]. unfold rootPinned. rewrite EB. rewrite (bool_decide_eq_true_2 (r = r)) by done.
  by rewrite !andb_false_r.
Qed.

(** C7: an epoch is justified by a quorum and in no other way: when the counting of
    votes moves the justified checkpoint, distinct active validators that are not
    slashed, enough of them and with two thirds of the weight, have stored votes
    for the canonical root of that epoch; and it finalizes only the epoch before,
    which was the justified one. *)
Theorem justification_needs_quorum (env : Env) (now : Z) (q : QPOS) :
  let q' := tryUpdateFinality env now q in
  justifiedEpoch q' <> justifiedEpoch q ->
  justifiedEpoch q < justifiedEpoch q' /\ (exists X, quorum q (justifiedEpoch q') X) /\
  justifiedRoot q' = getEpochBlockRootLocked (justifiedEpoch q') q /\ justifiedRoot q' <> zeroHash /\
  (finalizedEpoch q' <> finalizedEpoch q ->
   finalizedEpoch q' = justifiedEpoch q /\ finalizedEpoch q' = justifiedEpoch q' - 1 /\
   finalizedRoot q' = getEpochBlockRootLocked (justifiedEpoch q) q).
Proof.
  intros q'. subst q'. unfold tryUpdateFinality. case_match; [done|]. case_match eqn:ES; [|done].
  set (p := currentFinalityEpoch env now q - 1) in *. set (q1 := finalize (justifiedEpoch q) p (justify p q)).
  pose proof (persist_cp env (pinFinalizedCheckpointSlotLocked q1)) as HP. rewrite pin_cp in HP.
  assert (HR : justifiedRoot (persistFinalityLocked env (pinFinalizedCheckpointSlotLocked q1)) = justifiedRoot q1).
  { unfold persistFinalityLocked, pinFinalizedCheckpointSlotLocked. by repeat case_match. }
  generalize dependent (persistFinalityLocked env (pinFinalizedCheckpointSlotLocked q1)). intros q' HP HR.
  unfold checkpoints in HP. injection HP as HJ HF HFR _ _. rewrite HJ, HF, HR, HFR. clear HJ HF HR HFR q'.
  destruct (supermajority_quorum q p ES) as [X HX]. destruct (quorum_nonempty q p X HX) as [i Hi].
  assert (HZ : getEpochBlockRootLocked p q <> zeroHash).
  { destruct HX as (_ & _ & _ & _ & HV). destruct (HV i Hi) as (s & a & _ & _ & _ & HC). by apply counts_target in HC as (_ & ? & _). }
  subst q1. unfold finalize, justify. destruct (Z.ltb_spec (justifiedEpoch q) p) as [HL|HL].
  - intros _. destruct (negb _ && _) eqn:EN; [apply andb_true_iff in EN as [_ EN]; apply Z.eqb_eq in EN|];
      repeat case_match; cbn; (split; [done|]); (split; [by exists X|]); (split; [done|]); (split; [done|]); intros; done || lia.
  - intros HN. exfalso. apply HN. by repeat case_match.
Qed.

Lemma justification_needs_quorum_witness :
  let q := run Net.env (take 5 (Net.epochOps 1 1)) Net.node in
  let q' := tryUpdateFinality Net.env (Net.at_slot 64) (set_justifiedEpoch 0 q) in
  justifiedEpoch q' = 1 /\ exists X, quorum (set_justifiedEpoch 0 q) 1 X.
Proof.
  intros q q'. assert (E : justifiedEpoch q' = 1).
  { vm_compute. reflexivity. }
  split; [exact E|]. rewrite <- E.
  apply (justification_needs_quorum Net.env (Net.at_slot 64) (set_justifiedEpoch 0 q)). fold q'. rewrite E.
  change (justifiedEpoch (set_justifiedEpoch 0 q)) with 0. lia.
Defined.

(** C6: two nodes with the same electorate, of stakes that are not negative, that
    justify different roots of one epoch do so with a third of the weight voting
    for both, and every such pair of votes is one that the slashing conditions
    name a double vote. *)
Theorem double_justification_slashable (q1 q2 : QPOS) (epoch : Z)
    (HV : validators q2 = validators q1) (HS : slashedValidators q2 = slashedValidators q1)
    (HW : weightedProposerCutover q2 = weightedProposerCutover q1) (HK : stakesOk q1)
    (H1 : supermajority q1 epoch = true) (H2 : supermajority q2 epoch = true)
    (HR : getEpochBlockRootLocked epoch q1 <> getEpochBlockRootLocked epoch q2) :
  exists X : gset Z, X ⊆ electorate q1 /\ totalWeight q1 epoch <= 3 * weightOf (weightAt q1 epoch) X /\
    forall i, i ∈ X -> exists s1 a s2 b, a ∈ votesAt q1 s1 /\ b ∈ votesAt q2 s2 /\
      att_ValidatorIndex a = i /\ att_ValidatorIndex b = i /\ conflict a b = Some ErrDoubleVote.
Proof.
  assert (EW : weightAt q2 epoch = weightAt q1 epoch).
  { unfold weightAt, eligible, consensusWeight, effectiveBalanceEnabled, weightedProposerEnabled. by rewrite HV, HS, HW. }
  assert (EE : electorate q2 = electorate q1) by (unfold electorate, eligibleValidators, eligible; by rewrite HV, HS).
  destruct (supermajority_quorum q1 epoch H1) as (X1 & A1 & _ & A2 & _ & A3).
  destruct (supermajority_quorum q2 epoch H2) as (X2 & B1 & _ & B2 & _ & B3).
  rewrite total_weight, EW, EE in B2. rewrite total_weight in A2. rewrite EE in B1. exists (X1 ∩ X2).
  split; [set_solver|]. split.
  - rewrite total_weight.
    pose proof (quorum_intersection _ (weightAt_nonneg q1 epoch HK) X1 X2 (electorate q1) A1 B1). lia.
  - intros i Hi. destruct (A3 i ltac:(set_solver)) as (s1 & a & _ & Ha & Ia & Ca).
    destruct (B3 i ltac:(set_solver)) as (s2 & b & _ & Hb & Ib & Cb). exists s1, a, s2, b. repeat (split; [done|]).
    apply counts_target in Ca as (Ca & _). apply counts_target in Cb as (Cb & _). by eapply votes_conflict.
Qed.

(** The other fork's blocks and votes in the same node. *)
Module TwoForks.
Definition one : QPOS := run Net.env (Net.epochOps 1 1) Net.node.
Definition two : QPOS :=
  let q := run Net.env (Net.epochOps 2 1) Net.node in set_attestations (attestations q) (set_epochBlockRoots (epochBlockRoots q) one).
End TwoForks.

Lemma double_justification_slashable_witness :
  exists X : gset Z, totalWeight TwoForks.one 1 <= 3 * weightOf (weightAt TwoForks.one 1) X /\ X ⊆ electorate TwoForks.one.
Proof.
  destruct (double_justification_slashable TwoForks.one TwoForks.two 1 eq_refl eq_refl eq_refl) as (X & HX & HW & _).
  - apply stakes_check.
    vm_compute. reflexivity.
  - vm_compute. reflexivity.
  - vm_compute. reflexivity.
  - intros HE. apply (f_equal array_to_Z) in HE. revert HE. vm_compute. discriminate.
  - exists X. split; [exact HW|exact HX].
Defined.

(** *** Links from any source *)

Module Fork.
Definition nodeA : QPOS := run Net.env (Net.epochOps 1 1 ++ Net.epochOps 1 2) Net.node.
Definition nodeB : QPOS := run Net.env ([Net.rootOp 2 1; Net.rootOp 2 2] ++ Net.epochOps 2 3 ++ Net.epochOps 2 4) Net.node.

(** All the votes that the two nodes counted. *)
Definition cast : list Attestation := Net.votes 1 1 ++ Net.votes 1 2 ++ Net.votes 2 3 ++ Net.votes 2 4.

(** A third node that receives them all as they are cast. *)
Definition deliver (acc : list (res unit) * QPOS) (att : Attestation) : list (res unit) * QPOS :=
  let '(results, q) := acc in
  let '(r, q) := ProcessAttestation Net.env (Net.at_slot (att_Slot att)) (Some att) q in
  (results ++ [r], q).
Definition observer : list (res unit) * QPOS := foldl deliver ([], Net.node) cast.

Definition compatibleVotes (a b : Attestation) : bool :=
  negb (att_ValidatorIndex a =? att_ValidatorIndex b) || match conflict a b with None => true | Some _ => false end.
End Fork.

(** Finalization counts links from any source: the same four validators vote in
    the epochs 1 and 2 on one fork and in the epochs 3 and 4 on another; a node that
    gets the first votes finalizes epoch 1 of its fork, one that gets the others
    epoch 3 of a fork with a different epoch 1, yet no two of the votes conflict,
    and a node that sees them all accepts every one and queues no evidence. *)
Theorem conflicting_finality_unpunished :
  (finalizedEpoch Fork.nodeA = 1 /\ finalizedRoot Fork.nodeA = Net.block 1 32) /\
  (finalizedEpoch Fork.nodeB = 3 /\ getEpochBlockRootLocked 1 Fork.nodeB = Net.block 2 32) /\
  Net.block 1 32 <> Net.block 2 32 /\
  forallb (fun a => forallb (Fork.compatibleVotes a) Fork.cast) Fork.cast = true /\
  Fork.observer.1 = replicate 16 (Ok tt) /\ evidenceQueue Fork.observer.2 = [].
Proof.
  split; [split; vm_compute; reflexivity|]. split; [split; vm_compute; reflexivity|]. split.
  - intros HE. apply (f_equal array_to_Z) in HE. revert HE. vm_compute. discriminate.
  - split; [vm_compute; reflexivity|]. split; vm_compute; reflexivity.
Qed.

(** ** Votes and evidence *)

(** The votes that the voting manager hands over conflict with none recorded
    when they arrive. *)
Fixpoint syncsClean (env : Env) (ops : list (Z * Op)) (q : QPOS) : bool :=
  match ops with
  | [] => true
  | (now, op) :: ops =>
      match syncedVote op with
      | Some (i, att) => bool_decide (map_Forall (fun _ b => conflict att b = None) (attsOf q i))
      | None => true
      end && syncsClean env ops (step env now op q)
  end.

(** C8: the recorded votes of a validator never conflict: in every state that the
    operations reach from one without recorded votes, no two votes recorded for a
    validator satisfy a slashing condition, whatever order maps are ranged in, as
    long as the votes handed over by the voting manager, which are recorded without
    a check, conflict with none recorded when they arrive. *)
Theorem recorded_votes_never_conflict (env : Env) (ops : list (Z * Op)) (q : QPOS)
    (HR : forall m, rangeAtts env m ≡ₚ (map_to_list m).*2) (H0 : validatorAttestations q = ∅) (HS : syncsClean env ops q = true) :
  compatible (validatorAttestations (run env ops q)).
Proof.
  assert (HC : compatible (validatorAttestations q)).
  { rewrite H0. intros i s1 s2 a b Ha. rewrite lookup_empty in Ha. cbn in Ha. by rewrite lookup_empty in Ha. }
  clear H0. revert q HS HC. induction ops as [|[now op] ops IH]; intros q HS HC; [done|]. apply andb_true_iff in HS as [HV HS].
  apply IH; [done|]. apply step_compatible; [done| |done]. intros i att s b E Hb. rewrite E in HV.
  by apply bool_decide_eq_true_1 in HV; apply (HV s).
Qed.

(** Votes for epochs 1 and 2, and one handed over for epoch 3. *)
Lemma recorded_votes_never_conflict_witness :
  let vote := attestationToVote (Net.vote 1 3 0) (array_of_Z 20 1) in
  compatible (validatorAttestations (run Net.env (Net.epochOps 1 1 ++ Net.epochOps 1 2 ++ [(Net.at_slot 130, OpSyncVote vote 0)]) Net.node)).
Proof.
  intros vote. apply recorded_votes_never_conflict; [exact Net.range_perm|reflexivity|vm_compute; reflexivity].
Defined.

(** A vote handed over by the voting manager is recorded even if it conflicts with
    a recorded one, and no evidence is kept. *)
Theorem synced_vote_unchecked (vote : Vote) (i s : Z) (att b : Attestation) (q : QPOS)
    (HV : voteToAttestation vote = Some att) (Hi : 0 <= i) (Hb : attsOf q i !! s = Some b) (Hs : s <> att_Slot att)
    (HC : conflict att b <> None) :
  let q' := syncVoteToAttestations vote i q in
  ~ compatible (validatorAttestations q') /\ evidenceQueue q' = evidenceQueue q.
Proof.
  pose proof (sync_ledger vote i q) as HL. cbn [syncedVote] in HL. rewrite HV, (proj2 (Z.ltb_ge _ _)) in HL by lia.
  cbn in HL. injection HL as HQ HL. intros q'. split; [|exact HQ]. intros HX. apply HC.
  apply (HX i (att_Slot att) s); unfold q'; rewrite HL, lookup_insert_eq; cbn; [apply lookup_insert_eq|by rewrite lookup_insert_ne].
Qed.

(** The votes in evidence against a validator: the new one and a recorded one. *)
Definition proves (att existing : Attestation) (v : Validator) (ev : SlashingEvidence) : Prop :=
  ev_ValidatorAddr ev = v_Address v /\
  (ev_Vote1 ev, ev_Vote2 ev) ∈
    [(Some (attestationToVote existing (v_Address v)), Some (attestationToVote att (v_Address v)));
     (Some (attestationToVote att (v_Address v)), Some (attestationToVote existing (v_Address v)))].

(** C9: a vote that conflicts with a recorded vote of its validator, by its slot or
    by its checkpoints, is never stored: the call fails without touching votes or
    checkpoints, and when it fails for the conflict, evidence with both votes has
    been offered to the queue. *)
Theorem conflicting_vote_refused (env : Env) (now : Z) (att existing : Attestation) (slot : Z) (q : QPOS)
    (HR : forall m, rangeAtts env m ≡ₚ (map_to_list m).*2)
    (HE : attsOf q (att_ValidatorIndex att) !! slot = Some existing)
    (HC : conflict att existing <> None \/ slot = att_Slot att) :
  exists e q', ProcessAttestation env now (Some att) q = (Err e, q') /\
    attestations q' = attestations q /\ validatorAttestations q' = validatorAttestations q /\ checkpoints q' = checkpoints q /\
    (e = ErrDoubleVote \/ e = ErrSurroundVote ->
     exists v ev b s, GetValidatorByIndex (att_ValidatorIndex att) (validators q) = Some v /\
       attsOf q (att_ValidatorIndex att) !! s = Some b /\ proves att b v ev /\ evidenceQueue q' = enqueue ev (evidenceQueue q)).
Proof.
  pose proof (process_outcome env now (Some att) q) as HO. destruct (ProcessAttestation env now (Some att) q) as [r q'].
  inversion HO as [? e ? HS N1 N2|? e ev q1 HS HOF|? q1 HS HA]; subst.
  - exists e, q'. split; [done|]. split; [by apply (core_field attestations)|].
    split; [by apply (core_field validatorAttestations)|]. split; [by apply (core_field checkpoints)|]. by intros [|].
  - eexists e, _. split; [done|]. split; [by apply (core_field attestations) in HS|].
    split; [by apply (core_field validatorAttestations) in HS|]. split; [by apply (core_field checkpoints) in HS|].
    intros _. apply (core_field evidenceQueue) in HS; [|done]. cbn. rewrite HS.
    destruct HOF as [v b HV HB HN|v b e HV HF].
    + exists v, (mkEvidence SlashingReasonDoubleVote (v_Address v) (att_Slot att) (Some (attestationToVote b (v_Address v)))
        (Some (attestationToVote att (v_Address v))) (if lastKnownBlockTime q =? 0 then now else lastKnownBlockTime q)), b, (att_Slot att).
      split; [done|]. split; [done|]. split; [|done]. split; [done|]. apply list_elem_of_here.
    + apply firstConflict_some in HF as [HB _]. rewrite HR in HB. apply list_elem_of_fmap in HB as ([s b'] & -> & HB).
      eexists v, _, b', s. split; [done|]. split; [by apply elem_of_map_to_list|]. split; [|done]. split; [done|].
      apply list_elem_of_further, list_elem_of_here.
  - exfalso. destruct HC as [HC| ->]; [|by rewrite (ac_fresh _ _ _ _ HA) in HE].
    apply HC, (firstConflict_none _ _ (ac_conflict _ _ _ _ HA)). rewrite HR. apply list_elem_of_fmap.
    exists (slot, existing). split; [done|]. by apply elem_of_map_to_list.
Qed.

Lemma conflicting_vote_refused_witness :
  let q := run Net.env (Net.epochOps 1 1) Net.node in
  let att := mkAttestation 50 (Net.block 2 50) (mkCheckpoint 0 Net.genesis) (mkCheckpoint 1 (Net.block 2 32)) 3 [x01] 0 in
  (exists q', ProcessAttestation Net.env (Net.at_slot 64) (Some att) q = (Err ErrDoubleVote, q')) /\
  exists e q', ProcessAttestation Net.env (Net.at_slot 64) (Some att) q = (Err e, q') /\ attestations q' = attestations q.
Proof.
  intros q att. split.
  - exists (ProcessAttestation Net.env (Net.at_slot 64) (Some att) q).2.
    rewrite (surjective_pairing (ProcessAttestation Net.env (Net.at_slot 64) (Some att) q)) at 1. f_equal.
  - destruct (conflicting_vote_refused Net.env (Net.at_slot 64) att (Net.vote 1 1 3) 40 q Net.range_perm) as (e & q' & H1 & H2 & _).
    + vm_compute. reflexivity.
    + left.
      vm_compute. discriminate.
    + exists e, q'. split; [exact H1|exact H2].
Defined.



(** ** Reorganisations *)

(** C10: a reorganisation spares finalized history: it is refused, and changes
    nothing, exactly when the replaced range reaches the finalized checkpoint's
    slot; one that is accepted leaves the checkpoints, the slots up to the
    finalized one and the roots of the checkpoint epochs as they were, holds
    exactly the new roots in the replaced range, and gives every later epoch a root
    of the new chain or its fork point. *)
Theorem reorg_spares_finality (roots vrf : gmap Z Hash) (bounds : ReanchorBounds) (q : QPOS) (from to : Z)
    (HR : ReanchorCleanRange roots bounds = Some (from, to)) :
  let p := reanchorSlotRoots roots vrf bounds q in
  let final := finalizedCheckpointSlotLocked q in
  (p.1 = false <-> exists fs, final = Some fs /\ from <= fs) /\ (p.1 = false -> p.2 = q) /\
  (p.1 = true ->
    (justifiedEpoch p.2, justifiedRoot p.2, finalizedEpoch p.2, finalizedRoot p.2) =
      (justifiedEpoch q, justifiedRoot q, finalizedEpoch q, finalizedRoot q) /\
    (forall fs s, final = Some fs -> s <= fs -> slotBlockRoots p.2 !! s = slotBlockRoots q !! s) /\
    (forall s, from <= s <= to -> slotBlockRoots p.2 !! s = roots !! s) /\
    (forall e, checkpointEpoch q e = true \/ e < firstReachedEpoch from -> epochBlockRoots p.2 !! e = epochBlockRoots q !! e) /\
    (forall e r, checkpointEpoch q e = false -> firstReachedEpoch from <= e -> epochBlockRoots p.2 !! e = Some r ->
      EpochRoots bounds !! e = Some r \/ (AncestorKnown bounds = true /\ r = AncestorHash bounds))).
Proof.
  intros p final. subst p. unfold reanchorSlotRoots, ReanchorConflictsWithFinality. rewrite HR. fold final.
  assert (HX : match final with Some fs => from <=? fs | None => false end = true <-> exists fs, final = Some fs /\ from <= fs).
  { destruct final as [fs|]; [|by split; [|intros (? & ? & _)]]. rewrite Z.leb_le. split; [by exists fs|]. by intros (? & [= <-] & ?). }
  destruct (match final with Some fs => from <=? fs | None => false end) eqn:EC.
  - split; [|by split]. split; [intros _|done]. by apply HX.
  - split; [split; [done|]; intros HE; apply HX in HE; congruence|]. split; [done|]. intros _. split; [done|].
    split; [|split; [|split]].
    + intros fs s HF HS. cbn [snd slotBlockRoots]. rewrite HF in EC. apply Z.leb_gt in EC. apply reanchorSlots_out; [|lia].
      destruct (roots !! s) as [r|] eqn:ER; [|done]. pose proof (cleanRange_covers roots bounds from to s HR (ex_intro _ r ER)). lia.
    + intros s HS. by apply reanchorSlots_in.
    + intros e HE. exact (reanchorEpochs_kept bounds from e (set_slotBlockRoots _ q) HE).
    + intros e r. exact (reanchorEpochs_new bounds from e r (set_slotBlockRoots _ q)).
Qed.

Lemma reorg_spares_finality_witness :
  let q := SetSlotBlockRoot 66 (Net.block 1 66) Fork.nodeA in
  let p := reanchorSlotRoots {[ 66 := Net.block 3 66 ]} ∅ (mkBounds 64 true 70 (Net.block 1 64) ∅) q in
  (p.1 = true /\ slotBlockRoots p.2 !! 66 = Some (Net.block 3 66)) /\
  (reanchorSlotRoots {[ 30 := Net.block 3 30 ]} ∅ (mkBounds 20 true 70 (Net.block 1 64) ∅) q).1 = false.
Proof.
  intros q p. assert (E : p.1 = true) by (vm_compute; reflexivity). split.
  - split; [exact E|].
    destruct (reorg_spares_finality {[ 66 := Net.block 3 66 ]} ∅ (mkBounds 64 true 70 (Net.block 1 64) ∅) q 65 70) as (_ & _ & H);
      [vm_compute; reflexivity|]. destruct (H E) as (_ & _ & HS & _). etransitivity; [apply (HS 66); lia|apply lookup_singleton_eq].
  - vm_compute. reflexivity.
Defined.

(** ** Checkpoints in the wrong order *)

(** A header may carry a finalized epoch above its justified one: the check on
    headers admits it, the node adopts and persists it, and at the next start the
    stored checkpoint is refused, whatever the state of the node. *)
Theorem adopted_checkpoint_not_restorable (env : Env) (justified finalized headerEpoch : Z) (headerHash : Hash) (q q0 : QPOS)
    (H1 : justified < finalized <= headerEpoch) (H2 : justifiedEpoch q < finalized) (H3 : finalizedEpoch q < finalized) :
  HeaderFinalityCheckpointsValid justified finalized headerEpoch = true /\
  let q' := AdoptHeaderFinality env justified finalized headerHash q in
  finalizedEpoch q' = finalized /\ justifiedEpoch q' < finalizedEpoch q' /\
  forall jr fr, exists e, RestoreFinalityState (justifiedEpoch q') (finalizedEpoch q') jr fr q0 = (Err e, q0).
Proof.
  split; [unfold HeaderFinalityCheckpointsValid; rewrite andb_true_iff, !Z.leb_le; lia|].
  intros q'. assert (HQ : finalizedEpoch q' = finalized /\ justifiedEpoch q' < finalized).
  { subst q'. unfold AdoptHeaderFinality. rewrite (proj2 (Z.ltb_lt _ _) H3), orb_true_r.
    set (q1 := set_finalityPersistPending true _). pose proof (persist_cp env (pinFinalizedCheckpointSlotLocked q1)) as HP.
    rewrite pin_cp in HP. unfold checkpoints in HP. injection HP as -> -> _ _ _. subst q1. cbn.
    destruct (justifiedEpoch q <? justified); cbn; lia. }
  destruct HQ as [HF HJ]. split; [done|]. split; [lia|]. intros jr fr. unfold RestoreFinalityState.
  rewrite bind_guard, (proj2 (Z.ltb_lt _ _)) by lia. by eexists.
Qed.

Lemma adopted_checkpoint_not_restorable_witness :
  let q := SetFinalityPersistCallback Net.env true (SetEpochBlockRoot Net.env 5 (Net.block 1 160) Net.node) in
  let q' := AdoptHeaderFinality Net.env 0 5 (Net.block 1 170) q in
  stored q' = Some (0, 5, zeroHash, Net.block 1 160) /\
  exists e, RestoreFinalityState (justifiedEpoch q') (finalizedEpoch q') zeroHash (Net.block 1 160) Net.node = (Err e, Net.node).
Proof.
  intros q q'. split; [vm_compute; reflexivity|].
  apply (adopted_checkpoint_not_restorable Net.env 0 5 5 (Net.block 1 170) q Net.node); [lia| |].
  - vm_compute. reflexivity.
  - vm_compute. reflexivity.
Defined.

(** ** Pruning *)

(** C38: recording the root of an epoch other than the justified one keeps the
    root of the justified epoch when that is above 1 ([currentEpoch] being zero,
    as ever), but with epoch 1 justified and no later one finalized it drops the
    root of epoch 1 as soon as more than ten are held; every vote with the
    justified checkpoint as its source, as honest validators cast it, is then
    refused. *)
Theorem justified_root_pruned (env : Env) (epoch : Z) (root : Hash) (q : QPOS) (HC : currentEpoch q = 0) :
  let q' := SetEpochBlockRoot env epoch root q in
  (forall r, 1 < justifiedEpoch q -> epoch <> justifiedEpoch q -> epochBlockRoots q !! justifiedEpoch q = Some r ->
    epochBlockRoots q' !! justifiedEpoch q' = Some r) /\
  (justifiedEpoch q = 1 -> finalizedEpoch q <= 1 -> 1 < epoch -> 10 < Z.of_nat (size (<[epoch := root]> (epochBlockRoots q))) ->
    justifiedEpoch q' = 1 /\ epochBlockRoots q' !! 1 = None /\
    forall now att, cp_Epoch (att_Source att) = 1 -> exists e q'', ProcessAttestation env now (Some att) q' = (Err e, q'')).
Proof.
  intros q'. assert (HJ : justifiedEpoch q' = justifiedEpoch q) by apply setEpoch_justified. rewrite HJ. split.
  - intros r H1 HN HL. subst q'. unfold SetEpochBlockRoot. destruct (rootPinned epoch root q) eqn:EP.
    { unfold setEpochBlockRootLocked. by rewrite EP. }
    rewrite setEpoch_roots by done. cbn zeta. assert (HI : <[epoch := root]> (epochBlockRoots q) !! justifiedEpoch q = Some r)
      by (by rewrite lookup_insert_ne by done).
    case_match; [|done]. apply map_lookup_filter_Some_2; [done|]. unfold epochPruneCutoff.
    rewrite (proj2 (Z.ltb_lt _ _) H1). cbn. case_match eqn:E; [lia|]. apply Z.ltb_ge in E. lia.
  - intros H1 HF HE HS. assert (EP : rootPinned epoch root q = false).
    { unfold rootPinned. rewrite (proj2 (Z.eqb_neq _ _)) by lia. done. }
    assert (HD : epochBlockRoots q' !! 1 = None).
    { subst q'. unfold SetEpochBlockRoot. rewrite setEpoch_roots by done. cbn zeta. rewrite (proj2 (Z.ltb_lt _ _) HS).
      apply map_lookup_filter_None. right. intros x _. unfold epochPruneCutoff. rewrite HC, H1, (proj2 (Z.ltb_ge _ _) HF). cbn. lia. }
    split; [done|]. split; [done|]. intros now att HA. apply no_root_refused; [lia|by rewrite HA].
Qed.

Lemma justified_root_pruned_witness :
  let q := run Net.env (Net.epochOps 1 1 ++ (Net.rootOp 1 <$> [2; 3; 4; 5; 6; 7; 8; 9])) Net.node in
  justifiedEpoch q = 1 /\ epochBlockRoots q !! 1 = Some (Net.block 1 32) /\
  epochBlockRoots (SetEpochBlockRoot Net.env 10 (Net.block 1 320) q) !! 1 = None.
Proof.
  intros q. assert (EJ : justifiedEpoch q = 1) by (vm_compute; reflexivity). split; [exact EJ|]. split; [vm_compute; reflexivity|].
  destruct (justified_root_pruned Net.env 10 (Net.block 1 320) q) as [_ H]; [vm_compute; reflexivity|].
  apply H; [exact EJ|vm_compute; discriminate|lia|vm_compute; reflexivity].
Defined.

(** ** Session keys *)

(** C39: a vote without a valid signature changes the key of the validator it
    names: its target epoch is read before the signature and before the epoch is
    checked, so that a rotation scheduled for later takes effect on the registry at
    once; the vote is refused, but from then on the validator's votes of the epochs
    in between are verified with the base key instead of its session key. *)
Theorem forged_vote_drops_session_key (env : Env) (now epoch : Z) (q : QPOS) (att : Attestation) (v : Validator)
    (entry : ValidatorKeyState) (session pending : list byte)
    (HN : networkID env <> 0) (HT : GetCurrentSlot env now + 1 < 2 ^ 64) (HS : att_Slot att = GetCurrentSlot env now)
    (HV : GetValidatorByIndex (att_ValidatorIndex att) (validators q) = Some v)
    (HE : eligible q (att_ValidatorIndex att) v = true) (HF : attsOf q (att_ValidatorIndex att) !! att_Slot att = None)
    (HG : att_Signature att <> []) (HI : forall pk, verify env pk (attestationSigningData env att) (att_Signature att) = false)
    (HR : vkReg q !! v_Address v = Some entry) (HX : vk_Revoked entry = false)
    (HK : vk_SessionPubKey entry = Some session) (HA : vk_ActivationEpoch entry <= epoch)
    (HP : vk_PendingPubKey entry = Some pending) (HL : epoch < vk_PendingEpoch entry <= cp_Epoch (att_Target att)) :
  exists q', ProcessAttestation env now (Some att) q = (Err ErrInvalidAttestation, q') /\
    signingKey v epoch q = session /\ signingKey v epoch q' = v_PublicKeyBytes v.
Proof.
  assert (HC : 0 <= GetCurrentSlot env now).
  { unfold GetCurrentSlot. repeat case_match; [lia|lia|]. unfold u64. apply Z.mod_pos_bound. lia. }
  exists (set_vkReg (<[v_Address v := promote (cp_Epoch (att_Target att)) entry]> (vkReg q)) q). split.
  - unfold ProcessAttestation. rewrite bind_guard, (proj2 (Z.eqb_neq _ _) HN), bind_guard.
    unfold u64. rewrite Z.mod_small, (proj2 (Z.ltb_ge _ _)) by lia. rewrite bind_guard.
    rewrite HS, (proj2 (Z.ltb_ge (GetCurrentSlot env now) _)), andb_false_r by (unfold SlotsPerEpoch; lia).
    rewrite bind_guard. unfold GetCurrentEpoch, SlotToEpoch. rewrite Z.ltb_irrefl, bind_gets. unfold id. rewrite HV.
    unfold eligible in HE. destruct (slashedValidators q !! att_ValidatorIndex att); [done|]. rewrite bind_guard, bind_guard, HE.
    cbn [negb]. rewrite <- HS, bind_guard, HF. unfold mbind at 1, M_bind at 1. unfold verifyAttestationSignature.
    rewrite bind_guard. destruct (len (att_Signature att) =? 0) eqn:EL.
    { apply Z.eqb_eq in EL. exfalso. apply HG. destruct (att_Signature att); [done|]. unfold len in EL. cbn in EL. lia. }
    rewrite bind_gets, bind_guard. unfold IsValidatorRevoked. rewrite HR, HX.
    assert (EK : EffectiveSessionPubKey (v_Address v) (cp_Epoch (att_Target att)) q =
      (Ok (activeKey (cp_Epoch (att_Target att)) (promote (cp_Epoch (att_Target att)) entry)),
       set_vkReg (<[v_Address v := promote (cp_Epoch (att_Target att)) entry]> (vkReg q)) q)).
    { unfold EffectiveSessionPubKey. rewrite bind_gets, HR, HX. done. }
    rewrite (bind_Ok _ _ _ _ _ EK), bind_guard. destruct (len (default _ _) =? 0); [done|]. rewrite bind_guard.
    destruct (negb (validPublicKey env _)); [done|]. by rewrite HI.
  - unfold signingKey. cbn. rewrite HR, lookup_insert_eq. unfold promote, activeKey. rewrite HP.
    rewrite (proj2 (Z.leb_gt _ epoch)) by lia. rewrite HK, (proj2 (Z.leb_le _ _) HA). split; [done|].
    rewrite (proj2 (Z.leb_le _ _)) by lia. cbn. by rewrite (proj2 (Z.leb_gt _ _)) by lia.
Qed.

Module Rotation.
(** Validator 0 uses a session key since epoch 1 and has the next one pending for epoch 9. *)
Definition entry : ValidatorKeyState := mkKeyState (Some [x0a]) 1 (Some [x0b]) 9 zeroAddress false 0 2.
Definition node : QPOS := set_vkReg {[ array_of_Z 20 1 := entry ]} Net.node.
Definition forged : Attestation :=
  mkAttestation 40 (Net.block 1 40) (mkCheckpoint 0 Net.genesis) (mkCheckpoint 1000 (Net.block 1 32)) 0 [x00] 0.
End Rotation.

Lemma forged_vote_drops_session_key_witness :
  exists q', ProcessAttestation Net.env (Net.at_slot 40) (Some Rotation.forged) Rotation.node = (Err ErrInvalidAttestation, q') /\
    signingKey (Net.validator 1) 1 Rotation.node = [x0a] /\ signingKey (Net.validator 1) 1 q' = [x07].
Proof.
  apply (forged_vote_drops_session_key Net.env (Net.at_slot 40) 1 Rotation.node Rotation.forged (Net.validator 1) Rotation.entry [x0a] [x0b]);
    try (vm_compute; reflexivity); try done.
Defined.

(** ** Validators by index *)

(** Slashing marks and recorded votes are kept by index, and removing a
    validator moves the indices: when a validator before a slashed one leaves the
    set, the slashed one is no longer marked and the validator after it is, with
    the votes of the other recorded for it. *)
Theorem slash_mark_changes_owner (q : QPOS) (l1 l2 l3 : list Validator) (leaving slashed innocent : Validator) (entry : SlashedEntry)
    (HV : vs_validators (validators q) = l1 ++ leaving :: l2 ++ slashed :: innocent :: l3)
    (HI : vs_addrIndexMap (validators q) !! v_Address leaving = Some (len l1)) :
  let i := len l1 + 1 + len l2 in
  slashedValidators q !! i = Some entry -> slashedValidators q !! (i - 1) = None ->
  let q' := (RemoveStakingValidator (v_Address leaving) q).2 in
  (GetValidatorByIndex i (validators q) = Some slashed /\ IsSlashed i q = true) /\
  (GetValidatorByIndex (i - 1) (validators q') = Some slashed /\ IsSlashed (i - 1) q' = false) /\
  (GetValidatorByIndex i (validators q') = Some innocent /\ IsSlashed i q' = true /\ attsOf q' i = attsOf q i).
Proof.
  intros i HS HN q'. pose proof (len_nonneg l1). pose proof (len_nonneg l2).
  assert (HV' : vs_validators (validators q') = l1 ++ l2 ++ slashed :: innocent :: l3).
  { subst q'. unfold RemoveStakingValidator, RemoveValidatorByAddr. rewrite HI. cbn. rewrite HV. unfold len. rewrite Nat2Z.id.
    rewrite take_app_length. f_equal. change (S (length l1)) with (1 + length l1)%nat. rewrite Nat.add_comm.
    rewrite <- drop_drop, drop_app_length. by rewrite drop_0 || done. }
  assert (HQ : slashedValidators q' = slashedValidators q /\ validatorAttestations q' = validatorAttestations q).
  { subst q'. unfold RemoveStakingValidator. by destruct (RemoveValidatorByAddr _ _). }
  destruct HQ as [HQ1 HQ2]. unfold GetValidatorByIndex, IsSlashed, attsOf. rewrite HV, HV', HQ1, HQ2, HS, HN. subst i. unfold len in *.
  rewrite !(proj2 (Z.ltb_ge _ _)) by lia. split; [split; [|done]|split; [split; [|done]|split; [|done]]].
  - rewrite lookup_app_r by lia. replace (Z.to_nat _ - length l1)%nat with (S (length l2)) by lia.
    rewrite lookup_cons. by rewrite lookup_app_r, Nat.sub_diag by lia.
  - rewrite lookup_app_r by lia. replace (Z.to_nat _ - length l1)%nat with (length l2) by lia. by rewrite lookup_app_r, Nat.sub_diag by lia.
  - rewrite lookup_app_r by lia. replace (Z.to_nat _ - length l1)%nat with (S (length l2)) by lia.
    rewrite lookup_app_r by lia. by replace (S (length l2) - length l2)%nat with 1%nat by lia.
Qed.

Lemma slash_mark_changes_owner_witness :
  let q := set_slashedValidators {[ 1 := mkSlashed 0 true 0 ]} Net.node in
  let q' := (RemoveStakingValidator (v_Address (Net.validator 1)) q).2 in
  GetValidatorByIndex 1 (validators q') = Some (Net.validator 3) /\ IsSlashed 1 q' = true /\ IsSlashed 0 q' = false.
Proof.
  intros q q'. destruct (slash_mark_changes_owner q [] [] [Net.validator 4] (Net.validator 1) (Net.validator 2) (Net.validator 3)
    (mkSlashed 0 true 0)) as (_ & H1 & H2).
  - vm_compute. reflexivity.
  - vm_compute. reflexivity.
  - reflexivity.
  - reflexivity.
  - split; [exact (proj1 H2)|]. split; [exact (proj1 (proj2 H2))|exact (proj2 H1)].
Defined.

(** ** Honest votes *)

(** The votes a node creates for one epoch share their source, whatever happens
    to the justified checkpoint in between, and so never conflict while the root of
    the epoch stays; but the target is not kept: if a reorganisation changes the
    root of the epoch between two votes, they are a double vote. *)
Theorem own_votes_of_an_epoch (q q1 q2 q3 : QPOS) (s1 s2 i : Z) (r1 r2 : Hash) (a b : Attestation)
    (H1 : CreateAttestation s1 r1 i q = (Some a, q1)) (HS : cp_Epoch (att_Source a) < cp_Epoch (att_Target a))
    (HK : attestationSources q2 = attestationSources q1) (HE : SlotToEpoch s2 = SlotToEpoch s1)
    (H2 : CreateAttestation s2 r2 i q2 = (Some b, q3)) :
  att_Source b = att_Source a /\
  (cp_Root (att_Target b) = cp_Root (att_Target a) -> conflict b a = None) /\
  (cp_Root (att_Target b) <> cp_Root (att_Target a) -> conflict b a = Some ErrDoubleVote).
Proof.
  destruct (create_target _ _ _ _ _ _ H1) as [TA PA]. destruct (create_target _ _ _ _ _ _ H2) as [TB _].
  assert (HB : att_Source b = att_Source a).
  { specialize (PA ltac:(lia)). rewrite <- HE, <- HK in PA. by eapply create_pinned. }
  split; [done|]. unfold conflict. rewrite HB, !Z.eqb_refl, (bool_decide_eq_true_2 (cp_Root _ = cp_Root (att_Source a))) by done.
  rewrite TA, TB, HE, Z.eqb_refl, !Z.ltb_irrefl. cbn. split; intros HR; [by rewrite bool_decide_eq_true_2|by rewrite bool_decide_eq_false_2].
Qed.

Module Boundary.
(** A vote in epoch 1, a reorganisation of the boundary of epoch 1, and the next vote. *)
Definition start : QPOS := SetEpochBlockRoot Net.env 1 (Net.block 1 32) Net.node.
Definition first := CreateAttestation 40 (Net.block 1 40) 0 start.
Definition reorg := ReanchorSlotRootsBounded {[ 32 := Net.block 2 32 ]} ∅
  (mkBounds 30 true 40 (Net.block 1 30) {[ 1 := Net.block 2 32 ]}) first.2.
Definition second := CreateAttestation 41 (Net.block 2 41) 0 reorg.2.
Definition voteOf (p : option Attestation * QPOS) : Attestation := default (Net.vote 0 0 0) p.1.

Lemma created p : match p.1 with Some _ => true | None => false end = true -> p = (Some (voteOf p), p.2).
Proof. destruct p as [[a|] q]; [done|discriminate]. Qed.
End Boundary.

Lemma own_votes_of_an_epoch_witness :
  Boundary.reorg.1 = true /\ conflict (Boundary.voteOf Boundary.second) (Boundary.voteOf Boundary.first) = Some ErrDoubleVote.
Proof.
  split; [vm_compute; reflexivity|].
  apply (own_votes_of_an_epoch Boundary.start Boundary.first.2 Boundary.reorg.2 Boundary.second.2 40 41 0 (Net.block 1 40) (Net.block 2 41)).
  - apply Boundary.created.
    vm_compute. reflexivity.
  - vm_compute. reflexivity.
  - vm_compute. reflexivity.
  - reflexivity.
  - apply Boundary.created.
    vm_compute. reflexivity.
  - intros HE. apply (f_equal array_to_Z) in HE. revert HE. vm_compute. discriminate.
Defined.
