(* ===== verification/ElectionTheorems.v ===== *)
(** * Theorems about the validator set, proposers and committees

    The operations keep the set's index and its stakes; the binary search chooses
    the validator whose share of the stake holds the point, so that the choice is
    proportional to stake; the shuffle is a permutation, and the committees of an
    epoch are all validators, samples of them or a partition. *)

From Stdlib Require Import ZArith Lia.
From Stdlib.Strings Require Import Byte.
From stdpp Require Import base list countable gmap strings numbers sorting.
From S2P Require Import Prelude Stack Election Qpos QposFinality QposVotes QposQuorum.

Import Election Qpos QposFinality QposVotes.

(** ** Stakes *)

Definition sumStakes (stake : Validator -> Z) (l : list Validator) : Z := foldr (fun v t => stake v + t) 0 l.

Lemma sumStakes_app stake l k : sumStakes stake (l ++ k) = sumStakes stake l + sumStakes stake k.
Proof. induction l as [|v l IH]; [done|]. unfold sumStakes in *. cbn. lia. Qed.

Lemma runningSums_lookup stake c l i v :
  l !! i = Some v -> runningSums stake c l !! i = Some (c + sumStakes stake (take (S i) l)).
Proof.
  unfold sumStakes. revert c i. induction l as [|w l IH]; intros c i; [done|]. destruct i as [|i]; cbn [runningSums].
  - intros [= ->]. cbn. f_equal. rewrite take_0. cbn. lia.
  - intros H. cbn in H |- *. rewrite (IH _ _ H). f_equal. cbn. lia.
Qed.

Lemma length_runningSums stake c l : length (runningSums stake c l) = length l.
Proof. revert c. induction l as [|v l IH]; intros c; [done|]. cbn. by rewrite IH. Qed.

Lemma last_runningSums stake c l : default c (last (runningSums stake c l)) = c + sumStakes stake l.
Proof.
  revert c. induction l as [|v l IH]; intros c; [cbn; lia|]. cbn [runningSums]. specialize (IH (c + stake v)).
  destruct (runningSums stake (c + stake v) l) eqn:E.
  - cbn in *. assert (length (runningSums stake (c + stake v) l) = 0%nat) as HL by (by rewrite E).
    rewrite length_runningSums in HL. destruct l; [|done]. cbn. lia.
  - rewrite last_cons_cons. cbn in IH. unfold sumStakes in *. cbn [foldr]. rewrite Z.add_assoc, <- IH.
    by destruct (last (z :: l0)) eqn:EL; [|apply last_None in EL].
Qed.

Lemma sumStakes_nonneg stake l : (forall v, v ∈ l -> 0 <= stake v) -> 0 <= sumStakes stake l.
Proof.
  induction l as [|v l IH]; intros Hs; [done|]. specialize (IH ltac:(intros; apply Hs; by apply list_elem_of_further)).
  specialize (Hs v ltac:(apply list_elem_of_here)). unfold sumStakes in *. cbn. lia.
Qed.

Lemma prefix_mono stake l i j :
  (forall v, v ∈ l -> 0 <= stake v) -> (i <= j)%nat -> sumStakes stake (take i l) <= sumStakes stake (take j l).
Proof.
  intros Hs H. replace (take j l) with (take i l ++ drop i (take j l)).
  - rewrite sumStakes_app. pose proof (sumStakes_nonneg stake (drop i (take j l))) as HD.
    specialize (HD ltac:(intros v Hv; apply Hs; by eapply subseteq_take, subseteq_drop)). lia.
  - rewrite <- (take_drop i (take j l)) at 2. by rewrite take_take, Nat.min_l.
Qed.

(** ** The binary search *)

(** The search finds the first sum above the point. *)
Lemma searchLoop_spec sums point fuel lo hi :
  (forall i j a b, (i <= j)%nat -> sums !! i = Some a -> sums !! j = Some b -> a <= b) ->
  0 <= lo <= hi -> hi < len sums -> (Z.to_nat (hi - lo) < fuel)%nat ->
  (forall i c, Z.of_nat i < lo -> sums !! i = Some c -> c <= point) ->
  (exists c, sums !! Z.to_nat hi = Some c /\ point < c) ->
  exists i c, searchLoop fuel sums point lo hi = Ok i /\ 0 <= i < len sums /\ sums !! Z.to_nat i = Some c /\ point < c /\
    forall j d, Z.of_nat j < i -> sums !! j = Some d -> d <= point.
Proof.
  intros HM. revert lo hi. induction fuel as [|fuel IH]; intros lo hi HL HH HF HB (c & HC & HP); [lia|].
  cbn [searchLoop]. destruct (Z.ltb_spec lo hi) as [HLT|HGE].
  - set (mid := lo + (hi - lo) / 2). assert (HMID : lo <= mid < hi) by (unfold mid; zlia).
    destruct (lookup_lt_is_Some_2 sums (Z.to_nat mid)) as [m HM']; [unfold len in HH; lia|]. rewrite HM'.
    destruct (Z.leb_spec m point) as [HLE|HGT].
    + apply IH; [lia|lia|lia| |by exists c]. intros i d HI HD.
      etransitivity; [|exact HLE]. apply (HM i (Z.to_nat mid)); [lia|done|done].
    + apply IH; [lia|lia|lia|done|by exists m].
  - assert (lo = hi) as -> by lia. exists hi, c. rewrite (proj2 (Z.leb_gt _ _)) by lia. split; [done|]. by repeat (split; [lia || done|]).
Qed.

(** ** A consistent set *)

Definition addrs (l : list Validator) : list Address := v_Address <$> l.

Definition indexOk (m : gmap Address Z) (l : list Address) : Prop :=
  forall a i, m !! a = Some i <-> 0 <= i /\ l !! Z.to_nat i = Some a.

(** The addresses are distinct, the index gives the position of each, and the sums
    are those of the active stakes. *)
Record setOk (vs : ValidatorSet) : Prop := mkSetOk {
  so_nodup : NoDup (addrs (vs_validators vs));
  so_sums : vs_cumulativeStakes vs = runningSums activeStake 0 (vs_validators vs);
  so_total : vs_totalStake vs = sumStakes activeStake (vs_validators vs);
  so_index : indexOk (vs_addrIndexMap vs) (addrs (vs_validators vs));
  so_map : vs_validatorMap vs = list_to_set (addrs (vs_validators vs));
}.

Lemma recompute_ok vs :
  NoDup (addrs (vs_validators vs)) -> indexOk (vs_addrIndexMap vs) (addrs (vs_validators vs)) ->
  vs_validatorMap vs = list_to_set (addrs (vs_validators vs)) -> setOk (recomputeCumulativeStakesLocked vs).
Proof. intros H1 H2 H3. split; [done|done| |done|done]. exact (last_runningSums activeStake 0 (vs_validators vs)). Qed.

Lemma setValidator_ok idx v w vs :
  setOk vs -> GetValidatorByIndex idx vs = Some v -> v_Address w = v_Address v ->
  setOk (recomputeCumulativeStakesLocked (setValidator idx w vs)).
Proof.
  intros [H1 _ _ H4 H5] HV HW. assert (HA : addrs (vs_validators (setValidator idx w vs)) = addrs (vs_validators vs)).
  { unfold addrs. cbn. rewrite list_fmap_insert, HW. apply list_insert_id. unfold GetValidatorByIndex in HV. case_match; [done|].
    by rewrite list_lookup_fmap, HV. }
  by apply recompute_ok; rewrite HA.
Qed.

(** The index built from a position. *)
Lemma indexFrom_lookup i l m a j :
  NoDup (addrs l) ->
  indexFrom i l m !! a = Some j <->
  (exists k, addrs l !! k = Some a /\ j = i + Z.of_nat k) \/ ((a ∉ addrs l) /\ m !! a = Some j).
Proof.
  unfold indexFrom. revert i m. induction l as [|v l IH]; intros i m HN.
  - cbn. split; [intros H; right; split; [apply not_elem_of_nil|done]|]. intros [(k & Hk & _)|[_ H]]; [done|done].
  - cbn [addrs fmap list_fmap] in HN. apply list.NoDup_cons in HN as [HV HN].
    replace (len (v :: l)) with (Z.succ (len l)) by (unfold len; cbn; lia). rewrite seqZ_cons by (pose proof (len_nonneg l); lia).
    rewrite Z.pred_succ. cbn [zip_with foldl]. rewrite IH by done. cbn [addrs fmap list_fmap]. split.
    + intros [(k & Hk & ->)|[HA Hm]]; [left; exists (S k); split; [done|lia]|].
      destruct (decide (a = v_Address v)) as [->|HX].
      * rewrite lookup_insert_eq in Hm. injection Hm as <-. left. exists 0%nat. split; [done|lia].
      * rewrite lookup_insert_ne in Hm by done. right. split; [|done]. by rewrite not_elem_of_cons.
    + intros [([|k] & Hk & ->)|[HA Hm]].
      * cbn in Hk. injection Hk as <-. right. split; [done|]. rewrite lookup_insert_eq. f_equal. lia.
      * left. exists k. split; [done|lia].
      * apply not_elem_of_cons in HA as [HX HA]. right. split; [done|]. by rewrite lookup_insert_ne.
Qed.

Lemma AddValidator_ok addr stake vs : setOk vs -> setOk (AddValidator addr stake vs).2.
Proof.
  intros HO. unfold AddValidator. destruct (vs_addrIndexMap vs !! addr) as [idx|] eqn:EI.
  - destruct (GetValidatorByIndex idx vs) as [v|] eqn:EV; [|done]. by eapply setValidator_ok.
  - case_match; [done|]. destruct HO as [H1 _ _ H4 H5]. set (l := vs_validators vs) in *.
    assert (HA : addr ∉ addrs l).
    { intros HE. apply list_elem_of_lookup in HE as [k Hk].
      assert (vs_addrIndexMap vs !! addr = Some (Z.of_nat k)) by (apply H4; rewrite Nat2Z.id; split; [lia|done]). congruence. }
    assert (HL : addrs (l ++ [mkValidator addr stake true 0 [] []]) = addrs l ++ [addr]) by (unfold addrs; by rewrite fmap_app).
    apply recompute_ok; cbn [vs_validators vs_addrIndexMap vs_validatorMap]; fold l; rewrite HL.
    + apply NoDup_app. split; [done|]. split; [|apply NoDup_singleton]. intros x Hx ->%list_elem_of_singleton. done.
    + intros a i. assert (length (addrs l) = length l) as EL by apply length_fmap. destruct (decide (a = addr)) as [->|HX].
      * rewrite lookup_insert_eq. unfold len. split.
        -- intros [= <-]. split; [lia|]. rewrite Nat2Z.id, lookup_app_r by lia. by rewrite EL, Nat.sub_diag.
        -- intros [H0 Hi]. apply lookup_app_Some in Hi as [Hi|[H2 Hi]]; [by apply list_elem_of_lookup_2 in Hi|].
           rewrite EL in *. destruct (Z.to_nat i - length l)%nat eqn:ES; [|done]. f_equal. lia.
      * rewrite lookup_insert_ne by done. rewrite (H4 a i). split; intros [H0 Hi]; (split; [done|]); [by apply lookup_app_l_Some|].
        apply lookup_app_Some in Hi as [Hi|[_ Hi]]; [done|]. apply list_elem_of_lookup_2, list_elem_of_singleton in Hi. congruence.
    + rewrite list_to_set_app_L, H5. cbn. set_solver.
Qed.

Lemma removeAt_ok idx addr vs :
  setOk vs -> 0 <= idx -> addrs (vs_validators vs) !! Z.to_nat idx = Some addr -> setOk (removeAt idx addr vs).
Proof.
  intros [H1 _ _ H4 H5] H0 HL. set (l := vs_validators vs) in *. set (n := Z.to_nat idx) in *.
  assert (HS : addrs l = addrs (take n l) ++ addr :: addrs (drop (S n) l)).
  { unfold addrs in *. rewrite fmap_take, fmap_drop. by rewrite take_drop_middle. }
  assert (HN : length (addrs (take n l)) = n).
  { unfold addrs in *. rewrite length_fmap, length_take. apply lookup_lt_Some in HL. rewrite length_fmap in HL. lia. }
  assert (HR : addrs (take n l ++ drop (S n) l) = addrs (take n l) ++ addrs (drop (S n) l)) by (unfold addrs; by rewrite fmap_app).
  assert (HD : drop n (take n l ++ drop (S n) l) = drop (S n) l).
  { apply drop_app_length'. unfold addrs in HN. by rewrite length_fmap in HN. }
  rewrite HS in H1. apply NoDup_app in H1 as (N1 & N2 & N3). apply list.NoDup_cons in N3 as [N3 N4].
  unfold removeAt. fold l n. rewrite HD.
  apply recompute_ok; cbn [vs_validators vs_addrIndexMap vs_validatorMap]; rewrite HR.
  - apply NoDup_app. split; [done|]. split; [|done]. intros x Hx Hy. by apply (N2 x Hx), list_elem_of_further.
  - intros a i. rewrite indexFrom_lookup by done. rewrite lookup_delete_Some, (H4 a i), HS. split.
    + intros [(k & Hk & ->)|(HA & HX & Hi & Ha)].
      * split; [lia|]. rewrite lookup_app_r by lia. by replace (Z.to_nat _ - _)%nat with k by lia.
      * split; [done|]. apply lookup_app_Some in Ha as [Ha|[Hl Ha]]; [by apply lookup_app_l_Some|].
        exfalso. apply list_elem_of_lookup_2, elem_of_cons in Ha as [->|Ha]; done.
    + intros [Hi Ha]. apply lookup_app_Some in Ha as [Ha|[Hl Ha]].
      * right. pose proof (list_elem_of_lookup_2 _ _ _ Ha) as HE. split; [intros HF; by apply (N2 a HE), list_elem_of_further|].
        split; [intros ->; by apply (N2 _ HE), list_elem_of_here|]. split; [done|]. by apply lookup_app_l_Some.
      * left. eexists. split; [exact Ha|]. lia.
  - rewrite H5, HS, !list_to_set_app_L. cbn. apply set_eq. intros x. rewrite elem_of_difference, !elem_of_union, elem_of_singleton,
      !elem_of_list_to_set. split; [tauto|]. intros HX. split; [tauto|]. intros ->.
    destruct HX as [HX|HX]; [by apply (N2 _ HX), list_elem_of_here|done].
Qed.

Lemma sumStakes_perm stake l k : l ≡ₚ k -> sumStakes stake l = sumStakes stake k.
Proof. induction 1; unfold sumStakes in *; cbn; lia. Qed.

Lemma NewValidatorSet_ok validators vs :
  NoDup (addrs (filter (fun v => Is_true (v_Active v)) (omap id validators))) -> NewValidatorSet validators = Ok vs -> setOk vs.
Proof.
  unfold NewValidatorSet. set (kept := filter _ _). intros HN. case_match; [done|]. case_match; [done|]. intros [= <-].
  pose proof (merge_sort_Permutation addressOrder kept) as HP. set (sorted := merge_sort addressOrder kept) in *.
  assert (HA : NoDup (addrs sorted)) by (unfold addrs in *; by rewrite HP).
  assert (HE : forall l, (forall v, v ∈ l -> v_Active v = true) -> forall c, runningSums v_Stake c l = runningSums activeStake c l).
  { induction l as [|v l IH]; intros Hl c; [done|]. cbn.
    assert (activeStake v = v_Stake v) as -> by (unfold activeStake; by rewrite Hl by apply list_elem_of_here).
    f_equal. apply IH. intros; apply Hl; by apply list_elem_of_further. }
  assert (HK : forall v, v ∈ sorted -> v_Active v = true).
  { intros v. rewrite HP. unfold kept. rewrite list_elem_of_filter. intros [Hv _]. by apply Is_true_true. }
  split; cbn [vs_validators vs_cumulativeStakes vs_totalStake vs_addrIndexMap vs_validatorMap].
  - done.
  - by apply HE.
  - change (sumStakes v_Stake kept = sumStakes activeStake sorted).
    rewrite <- (sumStakes_perm v_Stake _ _ HP). clear -HK. induction sorted as [|v l IH]; [done|]. unfold sumStakes in *. cbn.
    rewrite IH by (intros; apply HK; by apply list_elem_of_further). unfold activeStake at 2. by rewrite HK by apply list_elem_of_here.
  - intros a i. rewrite indexFrom_lookup by done. rewrite lookup_empty. split.
    + intros [(k & Hk & ->)|[_ ?]]; [|done]. split; [lia|]. by replace (Z.to_nat _) with k by lia.
    + intros [H0' Hi]. left. exists (Z.to_nat i). split; [done|lia].
  - apply list_to_set_perm_L. unfold addrs. by rewrite HP.
Qed.

Lemma NewValidatorSet_distinct validators vs : NewValidatorSet validators = Ok vs -> setOk vs ->
  NoDup (addrs (filter (fun v => Is_true (v_Active v)) (omap id validators))).
Proof.
  unfold NewValidatorSet. set (kept := filter _ _). case_match; [done|]. case_match; [done|]. intros [= <-] [HN _ _ _ _]. cbn in HN.
  unfold addrs in *. by rewrite (merge_sort_Permutation addressOrder kept) in HN.
Qed.

(** C14: the validator set stays consistent: its addresses are distinct, its index
    gives the position of each address and nothing else, and its total and
    cumulative stakes are those of the active validators. Every addition, update,
    removal, deactivation and penalty keeps this. The constructor, which does not
    look for duplicates, establishes it exactly if the active validators it is
    given have distinct addresses. *)
Theorem validator_set_consistent (vs : ValidatorSet) (addr : Address) (index stake : Z) (penalty : option Z) (HO : setOk vs) :
  (forall validators vs', NewValidatorSet validators = Ok vs' ->
    setOk vs' <-> NoDup (addrs (filter (fun v => Is_true (v_Active v)) (omap id validators)))) /\
  setOk (AddValidator addr stake vs).2 /\ setOk (RemoveValidatorByAddr addr vs).2 /\ setOk (RemoveValidator index vs).2 /\
  setOk (DeactivateValidator index vs).2 /\ setOk (ReduceStake index penalty vs).2.
Proof.
  split; [intros l vs' E; split; [by apply NewValidatorSet_distinct|intros HN; by apply (NewValidatorSet_ok l)]|].
  split; [by apply AddValidator_ok|]. split; [|split; [|split]].
  - unfold RemoveValidatorByAddr. destruct (vs_addrIndexMap vs !! addr) as [i|] eqn:E; [|done].
    apply (so_index vs HO) in E as [E0 E]. by apply removeAt_ok.
  - unfold RemoveValidator, GetValidatorByIndex. destruct (Z.ltb_spec index 0); [done|].
    destruct (vs_validators vs !! Z.to_nat index) as [v|] eqn:E; [|done]. apply removeAt_ok; [done|done|].
    unfold addrs. by rewrite list_lookup_fmap, E.
  - unfold DeactivateValidator. destruct (GetValidatorByIndex index vs) as [v|] eqn:E; [|done]. cbn. case_match; [|done].
    by eapply setValidator_ok.
  - unfold ReduceStake. destruct (GetValidatorByIndex index vs) as [v|] eqn:E; [|done]. destruct penalty as [p|]; [|done].
    case_match; [done|]. by eapply setValidator_ok.
Qed.

Module Members.
Definition validator (i : Z) : Validator := mkValidator (array_of_Z 20 i) (10 * i) true 0 [] [].
Definition list4 : list (option Validator) := Some <$> (validator <$> [3; 1; 4; 2]).
Definition set : ValidatorSet :=
  match NewValidatorSet list4 with Ok vs => vs | _ => mkValidatorSet [] 0 [] ∅ ∅ end.

Lemma set_ok : setOk set.
Proof.
  apply (NewValidatorSet_ok list4); [|reflexivity]. apply (NoDup_fmap_1 array_to_Z).
  assert (E : array_to_Z <$> addrs (filter (fun v => Is_true (v_Active v)) (omap id list4)) = [3; 1; 4; 2]).
  { vm_compute. reflexivity. }
  rewrite E. repeat (apply list.NoDup_cons; split; [rewrite ?elem_of_cons, ?elem_of_nil; lia|]). constructor.
Qed.
End Members.

Lemma validator_set_consistent_witness : setOk (RemoveValidator 1 Members.set).2 /\ Size (RemoveValidator 1 Members.set).2 = 3.
Proof.
  split; [|vm_compute; reflexivity].
  apply (validator_set_consistent Members.set (array_of_Z 20 9) 1 5 (Some 3) Members.set_ok).
Defined.

(** ** Proposers *)

Lemma linear_spec l : forall acc point i v,
  (forall w, w ∈ l -> 0 <= v_Stake w) -> l !! i = Some v -> acc + sumStakes v_Stake (take i l) <= point ->
  point < acc + sumStakes v_Stake (take (S i) l) -> linearSearch acc point l = Some v.
Proof.
  induction l as [|w l IH]; intros acc point i v Hs HI H1 H2; [done|]. cbn [linearSearch]. destruct i as [|i].
  - cbn in HI. injection HI as ->. unfold sumStakes in H2. cbn in H2. rewrite take_0 in H2. cbn in H2.
    by rewrite (proj2 (Z.ltb_lt _ _)) by lia.
  - cbn in HI. unfold sumStakes in H1, H2. cbn in H1, H2. change (foldr _ 0 (take i l)) with (sumStakes v_Stake (take i l)) in H1.
    assert (0 <= sumStakes v_Stake (take i l)).
    { apply sumStakes_nonneg. intros u Hu. apply Hs, list_elem_of_further. by eapply subseteq_take. }
    rewrite (proj2 (Z.ltb_ge _ _)) by lia. apply (IH _ _ i); [|done|lia|].
    + intros u Hu. apply Hs. by apply list_elem_of_further.
    + unfold sumStakes. cbn. lia.
Qed.

Lemma take_S_sum stake l i v : l !! i = Some v -> sumStakes stake (take (S i) l) = sumStakes stake (take i l) + stake v.
Proof. intros H. rewrite (take_S_r _ _ _ H), sumStakes_app. unfold sumStakes at 2. cbn. lia. Qed.

(** The validator in whose share of the stake the point lies. *)
Lemma search_proposer vs point :
  setOk vs -> (forall v, v ∈ vs_validators vs -> 0 <= v_Stake v) -> 0 <= point < vs_totalStake vs ->
  exists i v, binarySearchValidator point (vs_cumulativeStakes vs) = Ok (Z.of_nat i) /\ vs_validators vs !! i = Some v /\
    sumStakes activeStake (take i (vs_validators vs)) <= point < sumStakes activeStake (take i (vs_validators vs)) + activeStake v.
Proof.
  intros HO HS HP. rewrite (so_sums vs HO). set (l := vs_validators vs) in *. set (sums := runningSums activeStake 0 l).
  assert (HA : forall v, v ∈ l -> 0 <= activeStake v) by (intros v Hv; unfold activeStake; case_match; [by apply HS|done]).
  assert (HL : length sums = length l) by apply length_runningSums.
  assert (HX : forall k c, sums !! k = Some c -> c = sumStakes activeStake (take (S k) l)).
  { intros k c Hk. destruct (lookup_lt_is_Some_2 l k) as [v Hv]; [rewrite <- HL; by eapply lookup_lt_Some|].
    unfold sums in Hk. rewrite (runningSums_lookup _ _ _ _ _ Hv) in Hk. injection Hk as <-. lia. }
  assert (HN : l <> []) by (intros HE; rewrite (so_total vs HO) in HP; fold l in HP; rewrite HE in HP; cbn in HP; lia).
  assert (HLN : (0 < length l)%nat) by (destruct l; [done|cbn; lia]).
  assert (HT : vs_totalStake vs = sumStakes activeStake (take (S (length l - 1)) l)).
  { rewrite (so_total vs HO). fold l. by rewrite take_ge by lia. }
  unfold binarySearchValidator. rewrite (proj2 (Z.ltb_ge _ _)) by (unfold len; lia).
  destruct (searchLoop_spec sums point (S (length sums)) 0 (len sums - 1)) as (i & c & HR & HI & HC & HG & HB).
  - intros a b x y Hab Hx Hy. rewrite (HX _ _ Hx), (HX _ _ Hy). apply prefix_mono; [done|lia].
  - unfold len. lia.
  - lia.
  - unfold len. lia.
  - intros. lia.
  - destruct (lookup_lt_is_Some_2 sums (length l - 1)) as [c Hc]; [lia|]. exists c.
    replace (Z.to_nat (len sums - 1)) with (length l - 1)%nat by (unfold len; lia). split; [done|]. rewrite (HX _ _ Hc), <- HT. lia.
  - destruct (lookup_lt_is_Some_2 l (Z.to_nat i)) as [v Hv]; [unfold len in HI; lia|]. exists (Z.to_nat i), v.
    rewrite Z2Nat.id by lia. split; [done|]. split; [done|]. pose proof (HX _ _ HC) as HCX. rewrite (take_S_sum _ _ _ _ Hv) in HCX.
    split; [|lia]. destruct (Z.to_nat i) as [|k] eqn:EK; [rewrite take_0; cbn; lia|].
    destruct (lookup_lt_is_Some_2 sums k) as [d Hd]; [unfold len in HI; lia|]. rewrite <- (HX _ _ Hd). apply (HB k); [lia|done].
Qed.

(** C13: the choice of a proposer is proportional to stake: for a consistent set
    of stakes that are not negative, with a positive total, the search always
    returns an active validator with stake, the one in whose share of the
    cumulative stake the point lies, so that each validator is chosen for exactly
    as many points as it has stake; and where every validator is active it is the
    one that the linear search finds. *)
Theorem proposer_proportional (vs : ValidatorSet) (value : Hash) (HO : setOk vs)
    (HS : forall v, v ∈ vs_validators vs -> 0 <= v_Stake v) (HT : 0 < vs_totalStake vs) :
  let point := array_to_Z value mod vs_totalStake vs in
  exists i v, SelectProposer (Some value) vs = Ok v /\ vs_validators vs !! i = Some v /\ v_Active v = true /\
    sumStakes activeStake (take i (vs_validators vs)) <= point < sumStakes activeStake (take i (vs_validators vs)) + v_Stake v /\
    (Forall (fun w => v_Active w = true) (vs_validators vs) -> SelectProposerLinear (Some value) vs = Ok v).
Proof.
  intros point. pose proof (Z.mod_pos_bound (array_to_Z value) (vs_totalStake vs) HT) as HP. fold point in HP.
  destruct (search_proposer vs point HO HS HP) as (i & v & HB & HV & HR). exists i, v.
  assert (HA : v_Active v = true /\ activeStake v = v_Stake v).
  { unfold activeStake in *. destruct (v_Active v); [done|lia]. }
  destruct HA as [HA1 HA2]. rewrite HA2 in HR. pose proof (lookup_lt_Some _ _ _ HV) as HL.
  unfold SelectProposer, SelectProposerLinear. fold point. rewrite (proj2 (Z.eqb_neq _ _)) by (unfold len; lia).
  rewrite (proj2 (Z.eqb_neq _ _)) by lia. rewrite HB, Nat2Z.id, HV. repeat (split; [done|]). intros HF.
  destruct (last (vs_validators vs)) as [u|] eqn:EL; [|apply last_None in EL; by rewrite EL in HV]. f_equal.
  assert (HX : forall l, Forall (fun w => v_Active w = true) l -> sumStakes activeStake l = sumStakes v_Stake l).
  { induction 1 as [|w l Hw Hl IH]; [done|]. unfold sumStakes in *. cbn. rewrite IH. unfold activeStake. by rewrite Hw. }
  erewrite (linear_spec _ 0 point i); [done|done|exact HV| |].
  - rewrite <- HX by (by apply Forall_take). lia.
  - rewrite <- HX by (by apply Forall_take). rewrite (take_S_sum _ _ _ _ HV). lia.
Qed.

Lemma proposer_proportional_witness :
  exists i v, SelectProposer (Some (array_of_Z 32 145)) Members.set = Ok v /\ vs_validators Members.set !! i = Some v /\
    v_Active v = true /\ sumStakes activeStake (take i (vs_validators Members.set)) <= 45.
Proof.
  destruct (proposer_proportional Members.set (array_of_Z 32 145) Members.set_ok) as (i & v & H1 & H2 & H3 & H4 & _).
  - assert (E : forallb (fun v => 0 <=? v_Stake v) (vs_validators Members.set) = true) by (vm_compute; reflexivity).
    intros v Hv. rewrite forallb_forall in E. apply Z.leb_le, E, list_elem_of_In, Hv.
  - vm_compute. reflexivity.
  - exists i, v. split; [exact H1|]. split; [exact H2|]. split; [exact H3|].
    replace (array_to_Z (array_of_Z 32 145) mod vs_totalStake Members.set) with 45 in H4 by (vm_compute; reflexivity). lia.
Defined.

(** ** The shuffle and the committees *)

Lemma swap_perm i j l : swap i j l ≡ₚ l.
Proof.
  unfold swap. destruct (l !! Z.to_nat i) as [x|] eqn:EI; [|done]. destruct (l !! Z.to_nat j) as [y|] eqn:EJ; [|done].
  revert EI EJ. generalize (Z.to_nat i) (Z.to_nat j). clear i j. intros i j EI EJ.
  pose proof (lookup_lt_Some _ _ _ EI) as LI. pose proof (lookup_lt_Some _ _ _ EJ) as LJ.
  apply Permutation_inj. split; [by rewrite !length_insert|].
  exists (fun k => if decide (k = j) then i else if decide (k = i) then j else k). split.
  - intros a b H. repeat case_decide; congruence.
  - intros k. case_decide as H1; [subst; rewrite list_lookup_insert_eq; [done|by rewrite length_insert]|].
    rewrite list_lookup_insert_ne by done. case_decide as H2; [subst; by rewrite list_lookup_insert_eq|].
    by rewrite list_lookup_insert_ne.
Qed.

Lemma shuffle_perm env seed n : shuffle env seed n ≡ₚ seqZ 0 n.
Proof.
  unfold shuffle. generalize (reverse (seqZ 1 (n - 1))) (seqZ 0 n). intros steps. induction steps as [|i steps IH]; intros l; [done|].
  cbn. rewrite IH. apply swap_perm.
Qed.

Lemma shuffleIndex_range env seed position bound : 0 < bound -> 0 <= computeShuffleIndex env seed position bound < bound.
Proof.
  intros HB. unfold computeShuffleIndex. rewrite (proj2 (Z.eqb_neq _ _)) by lia.
  assert (H : forall n a, 0 <= shuffleAttempts env n a seed position bound < bound); [|apply H].
  induction n as [|n IH]; intros a; cbn [shuffleAttempts]; [by apply Z.mod_pos_bound|]. case_match; [by apply Z.mod_pos_bound|apply IH].
Qed.

Lemma sliceStart_eq base rem i : 0 <= rem -> sliceStart base rem i = Z.of_nat i * base + Z.min (Z.of_nat i) rem.
Proof.
  intros HR. unfold sliceStart. induction i as [|i IH]; [cbn; lia|].
  rewrite seq_S, foldl_app, IH. cbn [foldl]. unfold sliceSize. destruct (Z.ltb_spec (Z.of_nat (0 + i)) rem); lia.
Qed.

Lemma members_app vs n l k : members vs n (l ++ k) = members vs n l ++ members vs n k.
Proof. apply omap_app. Qed.

(** The first [k] slices are the first part of the shuffle. *)
Lemma slices_prefix vs n base rem shuffled k :
  0 <= base -> 0 <= rem -> sliceStart base rem k <= len shuffled ->
  mjoin ((fun i => members vs n (sub shuffled (sliceStart base rem (Z.to_nat i))
    (sliceStart base rem (Z.to_nat i) + sliceSize base rem i))) <$> seqZ 0 (Z.of_nat k)) =
  members vs n (take (Z.to_nat (sliceStart base rem k)) shuffled).
Proof.
  intros HB HR. induction k as [|k IH]; intros HL; [done|].
  assert (HS : sliceStart base rem (S k) = sliceStart base rem k + sliceSize base rem (Z.of_nat k)).
  { rewrite !sliceStart_eq by done. unfold sliceSize. destruct (Z.ltb_spec (Z.of_nat k) rem); lia. }
  assert (HZ : 0 <= sliceSize base rem (Z.of_nat k)) by (unfold sliceSize; case_match; lia).
  assert (H0 : 0 <= sliceStart base rem k) by (rewrite sliceStart_eq by done; lia).
  rewrite seqZ_S, fmap_app, join_app, IH by lia. cbn [fmap list_fmap mjoin list_join]. rewrite app_nil_r, Z.add_0_l, Nat2Z.id.
  rewrite <- members_app, HS. f_equal. unfold sub. rewrite Z.add_simpl_l, Z2Nat.inj_add by done. by rewrite take_take_drop.
Qed.

Lemma seqZ_blocks c k : 0 <= c -> mjoin ((fun s => seqZ (s * c) c) <$> seqZ 0 (Z.of_nat k)) = seqZ 0 (Z.of_nat k * c).
Proof.
  intros HC. induction k as [|k IH]; [done|]. rewrite seqZ_S, fmap_app, join_app, IH. cbn [fmap list_fmap mjoin list_join].
  rewrite app_nil_r, Z.add_0_l. replace (Z.of_nat (S k) * c) with (Z.of_nat k * c + c) by lia. rewrite seqZ_app by lia. by rewrite Z.add_0_l.
Qed.

Lemma join_fmap_join {A B} (f : A -> list B) (ll : list (list A)) : mjoin ((fun l => mjoin (f <$> l)) <$> ll) = mjoin (f <$> mjoin ll).
Proof. induction ll as [|l ll IH]; [done|]. csimpl. by rewrite IH, fmap_app, join_app. Qed.

Lemma Permutation_refl' {A} (l k : list A) : l = k -> l ≡ₚ k.
Proof. by intros ->. Qed.

Lemma members_all vs l : l ≡ₚ seqZ 0 (Size vs) -> members vs (Size vs) l ≡ₚ vs_validators vs.
Proof.
  intros HP. unfold members. rewrite HP. apply Permutation_refl'. unfold Size, GetValidatorByIndex.
  set (k := vs_validators vs). assert (HX : forall m, (m <= length k)%nat ->
    omap (fun idx => if (0 <=? idx) && (idx <? len k) then if idx <? 0 then None else k !! Z.to_nat idx else None) (seqZ 0 (Z.of_nat m)) = take m k).
  { induction m as [|m IH]; intros HM; [by rewrite take_0|]. rewrite seqZ_S, omap_app, IH by lia.
    destruct (lookup_lt_is_Some_2 k m) as [v Hv]; [lia|]. rewrite (take_S_r _ _ _ Hv). f_equal. rewrite Z.add_0_l. cbn.
    rewrite (proj2 (Z.leb_le _ _)), (proj2 (Z.ltb_lt _ _)) by (unfold len; lia). cbn.
    rewrite (proj2 (Z.ltb_ge _ _)), Nat2Z.id by lia. by rewrite Hv. }
  unfold len at 2. rewrite HX by lia. by rewrite take_ge.
Qed.

(** The slices that the slots of an epoch take are a partition. *)
Lemma slices_partition vs shuffled : 0 < Size vs -> shuffled ≡ₚ seqZ 0 (Size vs) ->
  mjoin ((fun slot => r103SlotCommittee vs shuffled (Size vs) slot) <$> seqZ 0 SlotsPerEpoch) ≡ₚ vs_validators vs.
Proof.
  intros HN HP. unfold r103SlotCommittee. set (n := Size vs) in *.
  set (c := (n + SlotsPerEpoch * TargetCommitteeSize - 1) / (SlotsPerEpoch * TargetCommitteeSize)).
  assert (HC : 0 < c) by (subst c; unfold SlotsPerEpoch, TargetCommitteeSize; zlia).
  set (base := n / (c * SlotsPerEpoch)). set (rem := n mod (c * SlotsPerEpoch)).
  assert (HT : 0 < c * SlotsPerEpoch) by (unfold SlotsPerEpoch; lia).
  assert (HD : n = c * SlotsPerEpoch * base + rem /\ 0 <= rem < c * SlotsPerEpoch /\ 0 <= base).
  { split; [apply Z.div_mod; lia|]. split; [by apply Z.mod_pos_bound|]. apply Z.div_pos; lia. }
  destruct HD as (HD & HR & HB). clearbody base rem c.
  rewrite <- (members_all vs _ HP). apply Permutation_refl'. fold n.
  assert (HL : len shuffled = n) by (unfold len; rewrite HP, length_seqZ; lia).
  assert (HS : sliceStart base rem (Z.to_nat (32 * c)) = n).
  { rewrite sliceStart_eq by lia. unfold SlotsPerEpoch in *. rewrite Z2Nat.id by lia. nia. }
  transitivity (members vs n (take (Z.to_nat (sliceStart base rem (Z.to_nat (32 * c)))) shuffled)).
  - rewrite <- (slices_prefix vs n base rem) by lia. rewrite Z2Nat.id by lia.
    pose proof (seqZ_blocks c 32 ltac:(lia)) as HQ. cbn [Z.of_nat] in HQ. change (Z.of_nat 32) with 32 in HQ.
    rewrite <- HQ, <- join_fmap_join. f_equal.
  - rewrite HS, take_ge; [done|]. unfold len in HL. lia.
Qed.

(** Reading [k] entries from [start] on, around the end, is a prefix of the rotation. *)
Lemma window_rotation (l : list Z) (start : Z) (k : nat) : 0 <= start < len l -> (k <= length l)%nat ->
  omap (fun i => l !! Z.to_nat ((start + i) mod len l)) (seqZ 0 (Z.of_nat k)) =
  take k (drop (Z.to_nat start) l ++ take (Z.to_nat start) l).
Proof.
  intros HS. set (rot := drop (Z.to_nat start) l ++ take (Z.to_nat start) l). unfold len in *.
  assert (HX : forall i, (i < length l)%nat -> rot !! i = l !! Z.to_nat ((start + Z.of_nat i) mod Z.of_nat (length l))).
  { intros i Hi. unfold rot. destruct (decide (Z.to_nat start + i < length l)%nat) as [HL|HL].
    - rewrite lookup_app_l by (rewrite length_drop; lia). rewrite lookup_drop, Z.mod_small by lia. f_equal. lia.
    - rewrite lookup_app_r by (rewrite length_drop; lia). rewrite length_drop, lookup_take_lt by lia. f_equal.
      rewrite <- (Z.mod_add _ (-1)), Z.mod_small by lia. lia. }
  assert (HL : length rot = length l) by (unfold rot; rewrite length_app, length_drop, length_take; lia).
  induction k as [|k IH]; intros Hk; [by rewrite take_0|]. rewrite seqZ_S, omap_app, IH by lia.
  destruct (lookup_lt_is_Some_2 rot k ltac:(lia)) as [x Ex]. rewrite (take_S_r _ _ _ Ex). f_equal.
  rewrite Z.add_0_l. cbn. rewrite <- (HX k), Ex by lia. done.
Qed.

Lemma length_members vs l : (forall i, i ∈ l -> 0 <= i < Size vs) -> length (members vs (Size vs) l) = length l.
Proof.
  induction l as [|i l IH]; intros H; [done|]. pose proof (H i ltac:(apply list_elem_of_here)) as Hi. unfold members in *. cbn.
  rewrite (proj2 (Z.leb_le _ _)), (proj2 (Z.ltb_lt _ _)) by lia. cbn. unfold GetValidatorByIndex, Size, len in *.
  rewrite (proj2 (Z.ltb_ge _ _)) by lia. destruct (lookup_lt_is_Some_2 (vs_validators vs) (Z.to_nat i) ltac:(lia)) as [v ->].
  cbn. f_equal. apply IH. intros j Hj. apply H. by apply list_elem_of_further.
Qed.

(** A window of the shuffle: as many distinct validators as it is long. *)
Lemma sampled_spec vs shuffled slot : 32 < Size vs -> 0 <= slot -> shuffled ≡ₚ seqZ 0 (Size vs) ->
  sampledCommittee vs shuffled (Size vs) slot ⊆+ vs_validators vs /\
  len (sampledCommittee vs shuffled (Size vs) slot) = validatorsPerCommittee (Size vs) /\ 3 <= validatorsPerCommittee (Size vs).
Proof.
  intros HN H0 HP. unfold sampledCommittee. set (n := Size vs) in *. set (k := validatorsPerCommittee n).
  assert (HK : 3 <= k <= n).
  { unfold k, validatorsPerCommittee, TargetCommitteeSize, SlotsPerEpoch. pose proof (Z.div_lt n 32 ltac:(lia) ltac:(lia)). lia. }
  assert (HL : len shuffled = n) by (unfold len; rewrite HP, length_seqZ; lia).
  set (start := (slot * k) mod len shuffled). assert (HS : 0 <= start < len shuffled) by (apply Z.mod_pos_bound; lia).
  rewrite <- (Z2Nat.id k) by lia. rewrite window_rotation by (unfold len in *; lia).
  set (rot := drop (Z.to_nat start) shuffled ++ take (Z.to_nat start) shuffled).
  assert (HR : rot ≡ₚ seqZ 0 n) by (rewrite <- HP; unfold rot; by rewrite Permutation_app_comm, take_drop).
  split; [|split; [|lia]].
  - rewrite <- (members_all vs rot HR). fold n. rewrite <- (take_drop (Z.to_nat k) rot) at 2. rewrite members_app. apply submseteq_inserts_r. done.
  - unfold len. rewrite (length_members vs).
    + rewrite length_take. assert (length rot = Z.to_nat n) by (rewrite HR, length_seqZ; done). unfold len in HL. lia.
    + intros i Hi. fold n. apply subseteq_take in Hi. rewrite HR in Hi. apply elem_of_seqZ in Hi. lia.
Qed.

(** The committee of a slot. *)
Definition committee (env : Env) (now : Z) (q : QPOS) (slot : Z) : list Validator :=
  match (getCommitteeForSlotLocked env now slot q).1 with Ok l => l | _ => [] end.

(** The shuffle that the slots of [epoch] use. *)
Definition epochShuffle (env : Env) (epoch : Z) (q : QPOS) : list Z :=
  match shuffleCache q !! epoch with
  | Some shuffled => shuffled
  | None => (computeDeterministicShuffleForEpoch env epoch (Size (validators q)) q).1.1
  end.

Lemma epochShuffle_perm env epoch q : 0 < Size (validators q) ->
  (forall s, shuffleCache q !! epoch = Some s -> s ≡ₚ seqZ 0 (Size (validators q))) ->
  epochShuffle env epoch q ≡ₚ seqZ 0 (Size (validators q)).
Proof.
  intros HN HC. unfold epochShuffle. destruct (shuffleCache q !! epoch) as [s|]; [by apply HC|].
  unfold computeDeterministicShuffleForEpoch. rewrite (proj2 (Z.eqb_neq _ _)) by lia.
  destruct (epochSeedLocked env epoch q) as [[seed cold] q1]. apply shuffle_perm.
Qed.

Lemma committee_eq env now q epoch k : let vs := validators q in let shuffled := epochShuffle env epoch q in
  32 < Size vs -> 0 <= epoch -> 0 <= k < 32 -> shuffled ≡ₚ seqZ 0 (Size vs) ->
  committee env now q (epoch * 32 + k) =
    if (weightedProposerCutover q <=? epoch) && (96 <? Size vs) then r103SlotCommittee vs shuffled (Size vs) k
    else if len (sampledCommittee vs shuffled (Size vs) k) =? 0 then vs_validators vs else sampledCommittee vs shuffled (Size vs) k.
Proof.
  intros vs shuffled HN HE Hk HP. unfold committee, getCommitteeForSlotLocked. fold vs.
  rewrite (proj2 (Z.eqb_neq (Size vs) 0)), (proj2 (Z.leb_gt _ _)) by (unfold SlotsPerEpoch; lia).
  assert (ES : SlotToEpoch (epoch * 32 + k) = epoch) by (unfold SlotToEpoch, SlotsPerEpoch; rewrite Z.div_add_l by lia; rewrite Z.div_small; lia).
  assert (EM : (epoch * 32 + k) mod SlotsPerEpoch = k) by (unfold SlotsPerEpoch; rewrite Z.add_comm, Z.mod_add, Z.mod_small; lia).
  rewrite ES, EM. set (p := match shuffleCache q !! epoch with Some _ => _ | None => _ end).
  assert (EP : p.1 = shuffled /\ weightedProposerCutover p.2 = weightedProposerCutover q).
  { unfold p, shuffled, epochShuffle. destruct (shuffleCache q !! epoch); [done|]. fold vs.
    unfold computeDeterministicShuffleForEpoch. destruct (Size vs =? 0); [done|].
    destruct (epochSeedLocked env epoch q) as [[seed cold] q1] eqn:EQ. cbn.
    assert (EW : weightedProposerCutover q1 = weightedProposerCutover q).
    { unfold epochSeedLocked in EQ. repeat case_match; by injection EQ as _ _ <-. }
    split; [done|]. unfold evictStaleShuffleCacheLocked. by destruct cold. }
  destruct p as [s q1]. destruct EP as [E1 E2]. cbn in E1, E2. subst s. rewrite E2.
  assert (HL : len shuffled = Size vs) by (unfold len; rewrite HP, length_seqZ; lia).
  rewrite (proj2 (Z.eqb_neq (len shuffled) 0)) by lia. change (SlotsPerEpoch * 3) with 96.
  by destruct ((weightedProposerCutover q <=? epoch) && (96 <? Size vs)).
Qed.

(** C12: the committees of an epoch: with at most 32 validators every slot has all
    of them; with more than 96, in the epochs from the cutover on, the committees
    of the 32 slots are a partition of the validators; in the other cases the
    committee of a slot has the same number of distinct validators, a 32nd of them
    but at least 3 and at most 128. For this a shuffle that is cached for the epoch
    has to be of the current set; one that is computed is a permutation whatever
    the hash gives. *)
Theorem committees_partition (env : Env) (now epoch : Z) (q : QPOS) (HE : 0 <= epoch)
    (HC : forall s, shuffleCache q !! epoch = Some s -> s ≡ₚ seqZ 0 (Size (validators q))) :
  let vs := validators q in
  let slots := seqZ (epoch * 32) 32 in
  (0 < Size vs <= 32 -> forall slot, slot ∈ slots -> committee env now q slot = vs_validators vs) /\
  (96 < Size vs -> weightedProposerCutover q <= epoch -> mjoin (committee env now q <$> slots) ≡ₚ vs_validators vs) /\
  (32 < Size vs -> Size vs <= 96 \/ epoch < weightedProposerCutover q -> forall slot, slot ∈ slots ->
    committee env now q slot ⊆+ vs_validators vs /\ 3 <= validatorsPerCommittee (Size vs) <= 128 /\ len (committee env now q slot) = validatorsPerCommittee (Size vs)) /\
  (forall seed n, shuffle env seed n ≡ₚ seqZ 0 n).
Proof.
  intros vs slots. split; [|split; [|split; [|intros; apply shuffle_perm]]].
  - intros HN slot _. unfold committee, getCommitteeForSlotLocked. fold vs.
    by rewrite (proj2 (Z.eqb_neq (Size vs) 0)), (proj2 (Z.leb_le _ _)) by (unfold SlotsPerEpoch; lia).
  - intros HN HW. pose proof (epochShuffle_perm env epoch q ltac:(fold vs; lia) HC) as HP. fold vs in HP.
    rewrite <- (slices_partition vs _ ltac:(lia) HP). apply Permutation_refl'. f_equal. unfold slots.
    rewrite <- (Z.add_0_r (epoch * 32)), <- fmap_add_seqZ, <- list_fmap_compose. apply list_fmap_ext. intros i k Hk%list_elem_of_lookup_2%elem_of_seqZ.
    cbn. rewrite (committee_eq env now q epoch k) by (fold vs; done || lia). fold vs.
    by rewrite (proj2 (Z.leb_le _ _) HW), (proj2 (Z.ltb_lt _ _) HN).
  - intros HN HW slot Hs%elem_of_seqZ. pose proof (epochShuffle_perm env epoch q ltac:(fold vs; lia) HC) as HP. fold vs in HP.
    replace slot with (epoch * 32 + (slot - epoch * 32)) by lia. rewrite (committee_eq env now q epoch) by (fold vs; done || lia). fold vs.
    destruct (sampled_spec vs _ (slot - epoch * 32) HN ltac:(lia) HP) as (H1 & H2 & H3).
    assert ((weightedProposerCutover q <=? epoch) && (96 <? Size vs) = false) as ->.
    { apply andb_false_iff. rewrite Z.leb_gt, Z.ltb_ge. lia. }
    rewrite (proj2 (Z.eqb_neq _ 0)) by lia. split; [done|]. unfold validatorsPerCommittee, TargetCommitteeSize in *. lia.
Qed.

Module Shuffled.
(** Hundred validators, and a hash that depends on its input. *)
Definition env : Env :=
  mkEnv 1 1000 (fun _ => true) (fun _ _ _ => true) (fun data => array_of_Z 32 (be data * 12345678901234567891)) (fun _ _ => None)
    (fun _ => false) (fun _ => true) (fun m => (map_to_list m).*2) elements [x00; x00; x00; x00].
Definition set : ValidatorSet :=
  match NewValidatorSet (Some <$> (Members.validator <$> seqZ 1 100)) with Ok vs => vs | _ => mkValidatorSet [] 0 [] ∅ ∅ end.
(** The engine with these validators, before and after the cutover to epoch 1. *)
Definition q (cutover : Z) : QPOS := set_weightedProposerCutover cutover (NewQPOS set).
End Shuffled.

Lemma committees_partition_witness :
  mjoin (committee Shuffled.env 1000 (Shuffled.q 1) <$> seqZ 160 32) ≡ₚ vs_validators Shuffled.set /\
  committee Shuffled.env 1000 (Shuffled.q 9) 170 ⊆+ vs_validators Shuffled.set /\ Size Shuffled.set = 100 /\
  (length <$> (committee Shuffled.env 1000 (Shuffled.q 1) <$> [160; 163; 164; 191])) = [4; 4; 3; 3]%nat.
Proof.
  assert (HS : Size Shuffled.set = 100) by (vm_compute; reflexivity).
  split; [|split; [|split; [exact HS|vm_compute; reflexivity]]].
  - apply (committees_partition Shuffled.env 1000 5 (Shuffled.q 1)); [lia|discriminate|..].
    + cbn. rewrite HS. reflexivity.
    + cbn. lia.
  - apply (committees_partition Shuffled.env 1000 5 (Shuffled.q 9)); [lia|discriminate|..].
    + cbn. rewrite HS. reflexivity.
    + right. reflexivity.
    + apply elem_of_seqZ. lia.
Defined.
