(* ===== verification/LiquidStaking.v ===== *)
(** * Liquid staking

    src/economics/liquid_staking.go: pools into which delegators stake QAU for
    liquid tokens, at an exchange rate that rewards raise. Amounts are integers
    ([*big.Int]); the clock and the answer of the treasury verifier are arguments
    of the calls that ask for them. The queries hand out copies of the pools. *)

From Stdlib Require Import ZArith Lia.
From Stdlib.Strings Require Import Byte Ascii String.
From stdpp Require Import base list countable gmap strings numbers pretty.
From S2P Require Import Prelude Stack.

Module LiquidStaking.

Definition ErrPoolNotFound : error := ErrErrorf "staking pool not found".
Definition ErrInvalidPoolOperator : error := ErrErrorf "invalid pool operator".
Definition ErrLiquidTokenInsufficient : error := ErrErrorf "insufficient liquid staking tokens".

(** 10^18: a rate of one. *)
Definition one : Z := 10 ^ 18.

Definition StakeAsset : string := "QAU".

Record StakingPool : Type := mkPool {
  p_ID : string;
  p_Operator : Address;
  p_Name : string;
  p_TotalStaked : Z;
  p_TotalLiquidSupply : Z;
  p_CommissionRate : Z;
  p_Delegators : gmap Address Z;
  p_RewardPool : Z;
  p_TotalCommission : Z;
  p_CreatedAt : Z;
  p_Active : bool;
  p_PerformanceScore : Z;
}.

Record LiquidStakingToken : Type := mkToken {
  t_PoolID : string;
  t_Owner : Address;
  t_Amount : Z;
  t_MintedAt : Z;
}.

(** The bounds of [StakingConfig] that this file reads. *)
Record StakingConfig : Type := mkConfig { MinCommission : Z; MaxCommission : Z }.

Record LiquidStakingManager : Type := mkLsm {
  config : option StakingConfig;
  pools : gmap string StakingPool;
  liquidTokens : gmap Address (gmap string LiquidStakingToken);
  exchangeRate : gmap string Z;
  totalLiquidStaked : Z;
  userTokenBalances : gmap Address (gmap string Z);
  activeUsers : gset Address;
  activePools : gset string;
  treasuryVerifier : bool;
  allowUnverifiedCompounding : bool;
  productionMode : bool;
}.

Section setters.
Implicit Types l : LiquidStakingManager.

Definition set_pools x l := mkLsm (config l) x (liquidTokens l) (exchangeRate l) (totalLiquidStaked l) (userTokenBalances l) (activeUsers l) (activePools l) (treasuryVerifier l) (allowUnverifiedCompounding l) (productionMode l).
Definition set_liquidTokens x l := mkLsm (config l) (pools l) x (exchangeRate l) (totalLiquidStaked l) (userTokenBalances l) (activeUsers l) (activePools l) (treasuryVerifier l) (allowUnverifiedCompounding l) (productionMode l).
Definition set_exchangeRate x l := mkLsm (config l) (pools l) (liquidTokens l) x (totalLiquidStaked l) (userTokenBalances l) (activeUsers l) (activePools l) (treasuryVerifier l) (allowUnverifiedCompounding l) (productionMode l).
Definition set_totalLiquidStaked x l := mkLsm (config l) (pools l) (liquidTokens l) (exchangeRate l) x (userTokenBalances l) (activeUsers l) (activePools l) (treasuryVerifier l) (allowUnverifiedCompounding l) (productionMode l).
Definition set_userTokenBalances x l := mkLsm (config l) (pools l) (liquidTokens l) (exchangeRate l) (totalLiquidStaked l) x (activeUsers l) (activePools l) (treasuryVerifier l) (allowUnverifiedCompounding l) (productionMode l).
Definition set_activeUsers x l := mkLsm (config l) (pools l) (liquidTokens l) (exchangeRate l) (totalLiquidStaked l) (userTokenBalances l) x (activePools l) (treasuryVerifier l) (allowUnverifiedCompounding l) (productionMode l).
Definition set_activePools x l := mkLsm (config l) (pools l) (liquidTokens l) (exchangeRate l) (totalLiquidStaked l) (userTokenBalances l) (activeUsers l) x (treasuryVerifier l) (allowUnverifiedCompounding l) (productionMode l).

Definition SetTreasuryVerifier (v : bool) l := mkLsm (config l) (pools l) (liquidTokens l) (exchangeRate l) (totalLiquidStaked l) (userTokenBalances l) (activeUsers l) (activePools l) v (allowUnverifiedCompounding l) (productionMode l).
Definition AllowUnverifiedCompounding l := mkLsm (config l) (pools l) (liquidTokens l) (exchangeRate l) (totalLiquidStaked l) (userTokenBalances l) (activeUsers l) (activePools l) (treasuryVerifier l) true (productionMode l).
Definition SetProductionMode (prod : bool) l := mkLsm (config l) (pools l) (liquidTokens l) (exchangeRate l) (totalLiquidStaked l) (userTokenBalances l) (activeUsers l) (activePools l) (treasuryVerifier l) (allowUnverifiedCompounding l) prod.
End setters.

Definition NewLiquidStakingManager (config : option StakingConfig) : LiquidStakingManager :=
  mkLsm config ∅ ∅ ∅ 0 ∅ ∅ ∅ false false false.

(** ** The balance sheet *)

Definition getUserBalanceLocked (user : Address) (asset : string) (l : LiquidStakingManager) : Z :=
  default 0 (userTokenBalances l !! user ≫= fun m => m !! asset).

Definition GetUserTokenBalance : Address -> string -> LiquidStakingManager -> Z := getUserBalanceLocked.

Definition setUserBalance (user : Address) (asset : string) (v : Z) (l : LiquidStakingManager) : LiquidStakingManager :=
  set_userTokenBalances (<[user := <[asset := v]> (default ∅ (userTokenBalances l !! user))]> (userTokenBalances l)) l.

Definition addUserBalanceLocked (user : Address) (asset : string) (amount : Z) (l : LiquidStakingManager) : LiquidStakingManager :=
  setUserBalance user asset (getUserBalanceLocked user asset l + amount) l.

Definition subUserBalanceLocked (user : Address) (asset : string) (amount : Z) (l : LiquidStakingManager) : LiquidStakingManager :=
  setUserBalance user asset (getUserBalanceLocked user asset l - amount) l.

(** [amount == nil || amount.Sign() <= 0] *)
Definition positiveAmount (amount : option Z) : option Z :=
  match amount with Some a => if 0 <? a then Some a else None | None => None end.

Definition Deposit (user : Address) (asset : string) (amount : option Z) : M LiquidStakingManager Z :=
  match positiveAmount amount with
  | None => throw (ErrErrorf "amount must be positive")
  | Some amount =>
      modify (addUserBalanceLocked user asset amount);;
      gets (getUserBalanceLocked user asset)
  end.

(** The error of a call that tells a nil amount from one that is not positive. *)
Definition badAmount (what : string) (amount : option Z) : error :=
  ErrErrorf (what +:+ match amount with Some _ => " must be positive" | None => " must not be nil" end).

(** ** Guards against reentrant calls *)

Definition exclusiveUser {A} (user : Address) (m : M LiquidStakingManager A) : M LiquidStakingManager A :=
  l ← gets id;
  guard_err (bool_decide (user ∈ activeUsers l)) (ErrErrorf "reentrant call");;
  modify (fun l => set_activeUsers ({[user]} ∪ activeUsers l) l);;
  defer (fun l => set_activeUsers (activeUsers l ∖ {[user]}) l) m.

Definition exclusivePool {A} (poolID : string) (m : M LiquidStakingManager A) : M LiquidStakingManager A :=
  l ← gets id;
  guard_err (bool_decide (poolID ∈ activePools l)) (ErrErrorf "reentrant call");;
  modify (fun l => set_activePools ({[poolID]} ∪ activePools l) l);;
  defer (fun l => set_activePools (activePools l ∖ {[poolID]}) l) m.

Definition findPool (poolID : string) : M LiquidStakingManager StakingPool :=
  l ← gets id;
  match pools l !! poolID with Some pool => mret pool | None => throw ErrPoolNotFound end.

Definition putPool (poolID : string) (pool : StakingPool) (l : LiquidStakingManager) : LiquidStakingManager :=
  set_pools (<[poolID := pool]> (pools l)) l.

(** ** Pools *)

Definition hexDigit (n : Z) : ascii :=
  default Ascii.zero (String.get (Z.to_nat n) "0123456789abcdef").

Fixpoint hex (bytes : list byte) : string :=
  match bytes with
  | [] => ""
  | b :: bytes => String (hexDigit (b2z b / 16)) (String (hexDigit (b2z b mod 16)) (hex bytes))
  end.

(** [types.Address.ToHexAddress] *)
Definition ToHexAddress (a : Address) : string := "0x" +:+ hex (bytes_of a).

(** [fmt.Sprintf("pool-%s-%d", operator.ToHexAddress()[:8], n)] *)
Definition poolIDOf (operator : Address) (n : Z) : string :=
  "pool-" +:+ String.substring 0 8 (ToHexAddress operator) +:+ "-" +:+ pretty n.

(** [nanos] and [seconds] are the two readings of the clock, which are used when
    no block height is given. *)
Definition CreatePool (nanos seconds : Z) (operator : Address) (name : string) (commissionRate : Z) (blockHeight : list Z) :
    M LiquidStakingManager StakingPool :=
  exclusiveUser operator (
    guard_err (10000 <? commissionRate) ErrInvalidPoolOperator;;
    l ← gets id;
    match config l with
    | Some c =>
        guard_err (commissionRate <? MinCommission c) (ErrErrorf "commissionRate %d below config min %d");;
        guard_err (MaxCommission c <? commissionRate) (ErrErrorf "commissionRate %d exceeds config max %d")
    | None => mret tt
    end;;
    let height := match blockHeight with h :: _ => h | [] => 0 end in
    guard_err (productionMode l && (height =? 0)) (ErrErrorf "productionMode requires non-zero blockHeight");;
    let '(poolID, createdAt) :=
      if 0 <? height then (poolIDOf operator height, i64 height) else (poolIDOf operator nanos, seconds) in
    guard_err (match pools l !! poolID with Some _ => true | None => false end) (ErrErrorf "pool ID %s already exists");;
    let pool := mkPool poolID operator name 0 0 commissionRate ∅ 0 0 createdAt true 0 in
    modify (putPool poolID pool);;
    modify (fun l => set_exchangeRate (<[poolID := one]> (exchangeRate l)) l);;
    mret pool).

(** ** Staking *)

(** [rate == nil || rate.Sign() <= 0] *)
Definition rateOf (poolID : string) (message : string) : M LiquidStakingManager Z :=
  l ← gets id;
  match exchangeRate l !! poolID with
  | Some rate => guard_err (rate <=? 0) (ErrErrorf message);; mret rate
  | None => throw (ErrErrorf message)
  end.

Definition tokenOf (delegator : Address) (poolID : string) (l : LiquidStakingManager) : option LiquidStakingToken :=
  liquidTokens l !! delegator ≫= fun m => m !! poolID.

Definition putToken (delegator : Address) (poolID : string) (t : LiquidStakingToken) (l : LiquidStakingManager) : LiquidStakingManager :=
  set_liquidTokens (<[delegator := <[poolID := t]> (default ∅ (liquidTokens l !! delegator))]> (liquidTokens l)) l.

Definition addStake (delegator : Address) (amount liquidAmount : Z) (p : StakingPool) : StakingPool :=
  mkPool (p_ID p) (p_Operator p) (p_Name p) (p_TotalStaked p + amount) (p_TotalLiquidSupply p + liquidAmount) (p_CommissionRate p)
    (<[delegator := default 0 (p_Delegators p !! delegator) + amount]> (p_Delegators p))
    (p_RewardPool p) (p_TotalCommission p) (p_CreatedAt p) (p_Active p) (p_PerformanceScore p).

Definition mint (poolID : string) (delegator : Address) (liquidAmount mintedAt : Z) (l : LiquidStakingManager) : LiquidStakingToken :=
  match tokenOf delegator poolID l with
  | Some existing => mkToken (t_PoolID existing) (t_Owner existing) (t_Amount existing + liquidAmount) (t_MintedAt existing)
  | None => mkToken poolID delegator liquidAmount mintedAt
  end.

Definition StakeLiquid (now : Z) (poolID : string) (delegator : Address) (amount : option Z) (blockTime : list Z) :
    M LiquidStakingManager LiquidStakingToken :=
  exclusiveUser delegator (
    match positiveAmount amount with
    | None => throw (badAmount "amount" amount)
    | Some amount =>
        pool ← findPool poolID;
        guard_err (negb (p_Active pool)) ErrPoolNotFound;;
        rate ← rateOf poolID "exchange rate not initialized";
        let liquidAmount := amount * one / rate in
        guard_err (liquidAmount <=? 0) (ErrErrorf "liquid amount rounds to zero");;
        l ← gets id;
        guard_err (getUserBalanceLocked delegator StakeAsset l <? amount) (ErrErrorf "insufficient user balance");;
        modify (putPool poolID (addStake delegator amount liquidAmount pool));;
        modify (subUserBalanceLocked delegator StakeAsset amount);;
        let mintedAt := match blockTime with t :: _ => t | [] => now end in
        let token := mint poolID delegator liquidAmount mintedAt l in
        modify (putToken delegator poolID token);;
        modify (fun l => set_totalLiquidStaked (totalLiquidStaked l + amount) l);;
        mret token
    end).

Definition removeStake (delegator : Address) (stake underlyingAmount liquidAmount : Z) (p : StakingPool) : StakingPool :=
  mkPool (p_ID p) (p_Operator p) (p_Name p) (p_TotalStaked p - underlyingAmount) (p_TotalLiquidSupply p - liquidAmount)
    (p_CommissionRate p) (<[delegator := stake - underlyingAmount]> (p_Delegators p))
    (p_RewardPool p) (p_TotalCommission p) (p_CreatedAt p) (p_Active p) (p_PerformanceScore p).

(** A token without an entry in [Delegators] would be a nil dereference. *)
Definition UnstakeLiquid (poolID : string) (delegator : Address) (liquidAmount : option Z) : M LiquidStakingManager Z :=
  exclusiveUser delegator (
    match positiveAmount liquidAmount with
    | None => throw (badAmount "liquid amount" liquidAmount)
    | Some liquidAmount =>
        pool ← findPool poolID;
        l ← gets id;
        match tokenOf delegator poolID l with
        | None => throw ErrLiquidTokenInsufficient
        | Some token =>
            guard_err (t_Amount token <? liquidAmount) ErrLiquidTokenInsufficient;;
            rate ← rateOf poolID "pool exchange rate is zero, negative, or unset";
            let underlyingAmount := liquidAmount * rate / one in
            guard_err (p_TotalLiquidSupply pool <? liquidAmount) ErrLiquidTokenInsufficient;;
            guard_err (p_TotalStaked pool <? underlyingAmount) ErrLiquidTokenInsufficient;;
            stake ← or_panic (p_Delegators pool !! delegator);
            guard_err (stake <? underlyingAmount) ErrLiquidTokenInsufficient;;
            guard_err (totalLiquidStaked l <? underlyingAmount) ErrLiquidTokenInsufficient;;
            modify (putToken delegator poolID
              (mkToken (t_PoolID token) (t_Owner token) (t_Amount token - liquidAmount) (t_MintedAt token)));;
            modify (putPool poolID (removeStake delegator stake underlyingAmount liquidAmount pool));;
            modify (fun l => set_totalLiquidStaked (totalLiquidStaked l - underlyingAmount) l);;
            modify (addUserBalanceLocked delegator StakeAsset underlyingAmount);;
            mret underlyingAmount
        end
    end).

(** ** Rewards *)

(** The rate after a change of the pool, where there are tokens. *)
Definition updateRate (poolID : string) (p : StakingPool) (l : LiquidStakingManager) : LiquidStakingManager :=
  if 0 <? p_TotalLiquidSupply p then
    set_exchangeRate (<[poolID := p_TotalStaked p * one / p_TotalLiquidSupply p]> (exchangeRate l)) l
  else l.

Definition addReward (reward commission : Z) (p : StakingPool) : StakingPool :=
  mkPool (p_ID p) (p_Operator p) (p_Name p) (p_TotalStaked p) (p_TotalLiquidSupply p) (p_CommissionRate p) (p_Delegators p)
    (p_RewardPool p + (reward - commission)) (p_TotalCommission p + commission) (p_CreatedAt p) (p_Active p) (p_PerformanceScore p).

Definition DistributeRewards (poolID : string) (caller : Address) (rewardAmount : option Z) : M LiquidStakingManager unit :=
  exclusivePool poolID (
    match positiveAmount rewardAmount with
    | None => throw (ErrErrorf "reward amount must be positive")
    | Some rewardAmount =>
        pool ← findPool poolID;
        guard_err (negb (bool_decide (caller = p_Operator pool))) (ErrErrorf "permission denied");;
        l ← gets id;
        guard_err (getUserBalanceLocked caller StakeAsset l <? rewardAmount) (ErrErrorf "insufficient operator balance for reward");;
        modify (subUserBalanceLocked caller StakeAsset rewardAmount);;
        let commission := rewardAmount * p_CommissionRate pool / 10000 in
        let pool := addReward rewardAmount commission pool in
        modify (putPool poolID pool);;
        modify (updateRate poolID pool)
    end).

Definition compound (p : StakingPool) : StakingPool :=
  mkPool (p_ID p) (p_Operator p) (p_Name p) (p_TotalStaked p + p_RewardPool p) (p_TotalLiquidSupply p) (p_CommissionRate p)
    (p_Delegators p) 0 (p_TotalCommission p) (p_CreatedAt p) (p_Active p) (p_PerformanceScore p).

(** [verify] is the answer of [VerifyPoolDeposit] at this call. *)
Definition CompoundRewards (verify : string -> Z -> option error) (poolID : string) (operator : Address) : M LiquidStakingManager unit :=
  exclusivePool poolID (exclusiveUser operator (
    pool ← findPool poolID;
    guard_err (negb (bool_decide (p_Operator pool = operator))) ErrInvalidPoolOperator;;
    if p_RewardPool pool <=? 0 then mret tt else
    l ← gets id;
    (if treasuryVerifier l then
       match verify poolID (p_RewardPool pool) with
       | Some err => throw err
       | None => mret tt
       end
     else guard_err (negb (allowUnverifiedCompounding l)) (ErrErrorf "treasury verifier not configured"));;
    modify (putPool poolID (compound pool));;
    modify (updateRate poolID (compound pool)))).

Definition claimed (p : StakingPool) : StakingPool :=
  mkPool (p_ID p) (p_Operator p) (p_Name p) (p_TotalStaked p) (p_TotalLiquidSupply p) (p_CommissionRate p) (p_Delegators p)
    (p_RewardPool p) 0 (p_CreatedAt p) (p_Active p) (p_PerformanceScore p).

Definition ClaimCommission (poolID : string) (operator : Address) : M LiquidStakingManager Z :=
  exclusiveUser operator (
    pool ← findPool poolID;
    guard_err (negb (bool_decide (p_Operator pool = operator))) ErrInvalidPoolOperator;;
    let commission := p_TotalCommission pool in
    modify (putPool poolID (claimed pool));;
    modify (fun l => if 0 <? commission then addUserBalanceLocked operator StakeAsset commission l else l);;
    mret commission).

(** ** Queries *)

Definition GetPool : string -> M LiquidStakingManager StakingPool := findPool.

Definition GetExchangeRate (poolID : string) : M LiquidStakingManager Z :=
  l ← gets id;
  match exchangeRate l !! poolID with Some rate => mret rate | None => throw ErrPoolNotFound end.

Definition GetDelegatorStake (poolID : string) (delegator : Address) (l : LiquidStakingManager) : Z :=
  match pools l !! poolID with
  | Some pool => default 0 (p_Delegators pool !! delegator)
  | None => 0
  end.

(** The order is that of the map, which Go leaves open. *)
Definition ListActivePools (l : LiquidStakingManager) : list StakingPool :=
  filter (fun p => p_Active p = true) (map_to_list (pools l)).*2.

Definition GetTotalLiquidStaked : LiquidStakingManager -> Z := totalLiquidStaked.

Definition GetPendingCommission (poolID : string) : M LiquidStakingManager Z :=
  pool ← findPool poolID;
  mret (p_TotalCommission pool).

End LiquidStaking.
