(* ===== verification/LiquidStakingSpec.v ===== *)
(** * The ledger of liquid staking

    What an operation of the manager may do, as a transition system: an operation
    that fails changes nothing, and one that succeeds makes one of the
    transitions below. The invariant of the ledger and the theorems follow by
    cases on the transitions. *)

From Stdlib Require Import ZArith Lia.
From Stdlib.Strings Require Import Byte.
From stdpp Require Import base list countable gmap strings numbers.
From S2P Require Import Prelude Wp Stack LiquidStaking.

Module LiquidStakingSpec.
Import LiquidStaking.
Implicit Types s l : LiquidStakingManager.

(** ** The operations *)

Inductive Op : Type :=
  | ODeposit (user : Address) (asset : string) (amount : option Z)
  | OCreatePool (nanos seconds : Z) (operator : Address) (name : string) (commissionRate : Z) (blockHeight : list Z)
  | OStakeLiquid (now : Z) (poolID : string) (delegator : Address) (amount : option Z) (blockTime : list Z)
  | OUnstakeLiquid (poolID : string) (delegator : Address) (liquidAmount : option Z)
  | ODistributeRewards (poolID : string) (caller : Address) (rewardAmount : option Z)
  | OCompoundRewards (verify : string -> Z -> option error) (poolID : string) (operator : Address)
  | OClaimCommission (poolID : string) (operator : Address)
  | OSetTreasuryVerifier (v : bool)
  | OAllowUnverifiedCompounding
  | OSetProductionMode (prod : bool).

(** What an operation moved, as far as it is QAU. *)
Inductive Event : Type :=
  | Nothing
  | Deposited (amount : Z)
  | Staked (delegator : Address) (poolID : string) (amount : Z)
  | Unstaked (delegator : Address) (poolID : string) (amount : Z)
  | Compounded (poolID : string) (amount : Z).

Definition exec (op : Op) : M LiquidStakingManager Event :=
  match op with
  | ODeposit user asset amount =>
      Deposit user asset amount;; mret (if decide (asset = StakeAsset) then Deposited (default 0 amount) else Nothing)
  | OCreatePool nanos seconds operator name commissionRate blockHeight =>
      CreatePool nanos seconds operator name commissionRate blockHeight;; mret Nothing
  | OStakeLiquid now poolID delegator amount blockTime =>
      StakeLiquid now poolID delegator amount blockTime;; mret (Staked delegator poolID (default 0 amount))
  | OUnstakeLiquid poolID delegator liquidAmount =>
      x ← UnstakeLiquid poolID delegator liquidAmount; mret (Unstaked delegator poolID x)
  | ODistributeRewards poolID caller rewardAmount => DistributeRewards poolID caller rewardAmount;; mret Nothing
  | OCompoundRewards verify poolID operator =>
      l ← gets id;
      CompoundRewards verify poolID operator;;
      mret (Compounded poolID (default 0 (p_RewardPool <$> pools l !! poolID)))
  | OClaimCommission poolID operator => ClaimCommission poolID operator;; mret Nothing
  | OSetTreasuryVerifier v => modify (SetTreasuryVerifier v);; mret Nothing
  | OAllowUnverifiedCompounding => modify AllowUnverifiedCompounding;; mret Nothing
  | OSetProductionMode prod => modify (SetProductionMode prod);; mret Nothing
  end.

(** A commission rate is a [uint32]. *)
Definition opOk (op : Op) : Prop :=
  match op with
  | OCreatePool _ _ _ _ commissionRate _ => 0 <= commissionRate < 2 ^ 32
  | _ => True
  end.

Fixpoint run (ops : list Op) (s : LiquidStakingManager) : list Event * LiquidStakingManager :=
  match ops with
  | [] => ([], s)
  | op :: ops =>
      let '(r, s') := exec op s in
      let '(evs, s'') := run ops s' in
      (match r with Ok ev => ev :: evs | _ => evs end, s'')
  end.

(** ** The transitions *)

Inductive transition (s : LiquidStakingManager) : Event -> LiquidStakingManager -> Prop :=
  | t_deposit user asset a : 0 < a ->
      transition s (if decide (asset = StakeAsset) then Deposited a else Nothing) (addUserBalanceLocked user asset a s)
  | t_create id operator name rate createdAt : pools s !! id = None -> 0 <= rate <= 10000 ->
      transition s Nothing
        (set_exchangeRate (<[id := one]> (exchangeRate s))
           (putPool id (mkPool id operator name 0 0 rate ∅ 0 0 createdAt true 0) s))
  | t_stake id u a p rate mintedAt : pools s !! id = Some p -> exchangeRate s !! id = Some rate -> 0 < rate ->
      0 < a <= getUserBalanceLocked u StakeAsset s -> 0 < a * one / rate ->
      transition s (Staked u id a)
        (set_totalLiquidStaked (totalLiquidStaked s + a)
           (putToken u id (mint id u (a * one / rate) mintedAt s)
              (subUserBalanceLocked u StakeAsset a (putPool id (addStake u a (a * one / rate) p) s))))
  | t_unstake id u liq p t rate stake : pools s !! id = Some p -> tokenOf u id s = Some t -> exchangeRate s !! id = Some rate ->
      0 < rate -> 0 < liq <= t_Amount t -> liq <= p_TotalLiquidSupply p -> liq * rate / one <= p_TotalStaked p ->
      p_Delegators p !! u = Some stake -> liq * rate / one <= stake -> liq * rate / one <= totalLiquidStaked s ->
      transition s (Unstaked u id (liq * rate / one))
        (addUserBalanceLocked u StakeAsset (liq * rate / one)
           (set_totalLiquidStaked (totalLiquidStaked s - liq * rate / one)
              (putPool id (removeStake u stake (liq * rate / one) liq p)
                 (putToken u id (mkToken (t_PoolID t) (t_Owner t) (t_Amount t - liq) (t_MintedAt t)) s))))
  | t_distribute id r p : pools s !! id = Some p -> 0 < r <= getUserBalanceLocked (p_Operator p) StakeAsset s ->
      let p' := addReward r (r * p_CommissionRate p / 10000) p in
      transition s Nothing (updateRate id p' (putPool id p' (subUserBalanceLocked (p_Operator p) StakeAsset r s)))
  | t_compound id p : pools s !! id = Some p -> 0 < p_RewardPool p ->
      transition s (Compounded id (p_RewardPool p)) (updateRate id (compound p) (putPool id (compound p) s))
  | t_compound_none id p : pools s !! id = Some p -> p_RewardPool p <= 0 ->
      transition s (Compounded id (p_RewardPool p)) s
  | t_claim id p : pools s !! id = Some p ->
      transition s Nothing
        ((fun l => if 0 <? p_TotalCommission p then addUserBalanceLocked (p_Operator p) StakeAsset (p_TotalCommission p) l else l)
           (putPool id (claimed p) s))
  | t_settings v a m : transition s Nothing
      (mkLsm (config s) (pools s) (liquidTokens s) (exchangeRate s) (totalLiquidStaked s) (userTokenBalances s)
         (activeUsers s) (activePools s) v a m).

Definition quiet s : Prop := activeUsers s = ∅ /\ activePools s = ∅.

(** Each token has an entry among the delegators of its pool. *)
Definition tokensBacked s : Prop :=
  forall u id t p, tokenOf u id s = Some t -> pools s !! id = Some p -> is_Some (p_Delegators p !! u).

(** ** Operations make transitions *)

(** What a call may do: fail and change nothing, or make a transition. *)
Definition does {A} (ev : A -> Event) (m : M LiquidStakingManager A) (s : LiquidStakingManager) : Prop :=
  wp m (fun a s' => transition s (ev a) s') (fun _ s' => s' = s) s.

Lemma exclusive_user_gen {A} u (m : M LiquidStakingManager A) (Q : A -> LiquidStakingManager -> Prop) (E : error -> Prop) s :
  activeUsers s = ∅ ->
  wp m (fun a s' => Q a (set_activeUsers ∅ s') /\ activeUsers s' = {[u]})
       (fun e s' => (E e /\ set_activeUsers ∅ s' = s) /\ activeUsers s' = {[u]}) (set_activeUsers {[u]} s) ->
  wp (exclusiveUser u m) Q (fun e s' => E e /\ s' = s) s.
Proof.
  intros HA HW. unfold exclusiveUser. cbn. unfold wp, mbind, M_bind, gets. cbn. rewrite HA.
  rewrite bool_decide_eq_false_2 by set_solver. cbn. rewrite HA, union_empty_r_L. unfold defer, wp in *.
  destruct (m (set_activeUsers {[u]} s)) as [[a|e| |] s']; [| |done|done]; destruct HW as [HQ HS]; cbn; by rewrite HS, difference_diag_L.
Qed.

Lemma exclusive_user {A} u (m : M LiquidStakingManager A) (Q : A -> LiquidStakingManager -> Prop) s :
  activeUsers s = ∅ ->
  wp m (fun a s' => Q a (set_activeUsers ∅ s') /\ activeUsers s' = {[u]})
       (fun _ s' => set_activeUsers ∅ s' = s /\ activeUsers s' = {[u]}) (set_activeUsers {[u]} s) ->
  wp (exclusiveUser u m) Q (fun _ s' => s' = s) s.
Proof.
  intros HA HW. eapply wp_mono; [apply (exclusive_user_gen u m Q (fun _ => True) s HA)|done|by intros e s' [_ ?]].
  eapply wp_mono; [exact HW|done|]. intros e s' [? ?]. done.
Qed.

Lemma exclusive_pool {A} id (m : M LiquidStakingManager A) (Q : A -> LiquidStakingManager -> Prop) s :
  activePools s = ∅ ->
  wp m (fun a s' => Q a (set_activePools ∅ s') /\ activePools s' = {[id]})
       (fun _ s' => set_activePools ∅ s' = s /\ activePools s' = {[id]}) (set_activePools {[id]} s) ->
  wp (exclusivePool id m) Q (fun _ s' => s' = s) s.
Proof.
  intros HA HW. unfold exclusivePool. unfold wp, mbind, M_bind, gets. cbn. rewrite HA.
  rewrite bool_decide_eq_false_2 by set_solver. cbn. rewrite HA, union_empty_r_L. unfold defer, wp in *.
  destruct (m (set_activePools {[id]} s)) as [[a|e| |] s']; [| |done|done].
  - destruct HW as [HQ HS]. cbn. rewrite HS, difference_diag_L. done.
  - destruct HW as [HQ HS]. cbn. rewrite HS, difference_diag_L. done.
Qed.

Lemma positive_spec amount a : positiveAmount amount = Some a -> amount = Some a /\ 0 < a.
Proof. unfold positiveAmount. destruct amount as [x|]; [|done]. destruct (Z.ltb_spec 0 x); [|done]. intros [= ->]. done. Qed.

Lemma wp_findPool id (Q : StakingPool -> LiquidStakingManager -> Prop) (E : error -> LiquidStakingManager -> Prop) s :
  (forall p, pools s !! id = Some p -> Q p s) -> (forall e, E e s) -> wp (findPool id) Q E s.
Proof. intros HQ HE. unfold wp, findPool, mbind, M_bind, gets. cbn. destruct (pools s !! id) eqn:EP; [by apply HQ|apply HE]. Qed.

Lemma wp_rateOf id msg (Q : Z -> LiquidStakingManager -> Prop) (E : error -> LiquidStakingManager -> Prop) s :
  (forall r, exchangeRate s !! id = Some r -> 0 < r -> Q r s) -> (forall e, E e s) -> wp (rateOf id msg) Q E s.
Proof.
  intros HQ HE. unfold wp, rateOf, mbind, M_bind, gets. cbn. destruct (exchangeRate s !! id) as [r|] eqn:EP; [|apply HE].
  unfold guard_err. destruct (Z.leb_spec r 0); [apply HE|]. by apply HQ.
Qed.

Lemma wp_or_panic {A} (o : option A) (Q : A -> LiquidStakingManager -> Prop) (E : error -> LiquidStakingManager -> Prop) s :
  is_Some o -> (forall a, o = Some a -> Q a s) -> wp (or_panic o) Q E s.
Proof. intros [a ->] HQ. by apply HQ. Qed.

(** One step of a call: the calls are sequences of tests, reads and writes. *)
Ltac wstep :=
  lazymatch goal with
  | |- wp (guard_err _ _ ≫= _) _ _ _ => apply wp_bind, wp_guard; [intros _|let H := fresh "HG" in intros H]
  | |- wp (guard_err _ _) _ _ _ => apply wp_guard; [intros _|let H := fresh "HG" in intros H]
  | |- wp (findPool _ ≫= _) _ _ _ => apply wp_bind, wp_findPool; [let p := fresh "p" in let H := fresh "HP" in intros p H|intros _]
  | |- wp (rateOf _ _ ≫= _) _ _ _ => apply wp_bind, wp_rateOf; [let p := fresh "rate" in let H := fresh "HR" in intros p H ?|intros _]
  | |- wp (throw _) _ _ _ => unfold wp, throw
  | |- wp (mret _) _ _ _ => unfold wp, mret, M_ret
  | |- wp (modify _) _ _ _ => unfold wp, modify
  | |- wp (gets _ ≫= _) _ _ _ => apply wp_bind; unfold wp at 1, gets
  | |- wp (modify _ ≫= _) _ _ _ => apply wp_bind; unfold wp at 1, modify
  end; cbn beta iota zeta.

Ltac open_state s :=
  let HU := fresh in let HP := fresh in
  destruct s as [cfg ps toks rates tot bals au apl tv al pm]; intros [HU HP]; cbn in HU, HP; subst au apl.

(** Turns the boolean tests of a call into facts. *)
Ltac facts := rewrite ?Z.ltb_ge, ?Z.leb_gt, ?negb_false_iff, ?bool_decide_eq_true in *.

Lemma deposit_does user asset amount s : quiet s ->
  does (fun _ => if decide (asset = StakeAsset) then Deposited (default 0 amount) else Nothing) (Deposit user asset amount) s.
Proof.
  intros _. unfold does, Deposit. destruct (positiveAmount amount) as [a|] eqn:EA; [|done].
  apply positive_spec in EA as [-> Ha]. wstep. unfold wp, gets. by apply t_deposit.
Qed.

Lemma stake_does now id u amount bt s : quiet s ->
  does (fun _ => Staked u id (default 0 amount)) (StakeLiquid now id u amount bt) s.
Proof.
  open_state s. apply exclusive_user; [done|]. destruct (positiveAmount amount) as [a|] eqn:EA; [|done].
  apply positive_spec in EA as [-> Ha]. repeat (wstep; try done). facts.
  split; [|done].
  match goal with |- transition ?s _ ?s' =>
    pose proof (t_stake s id u a p rate (match bt with t :: _ => t | [] => now end) HP HR ltac:(done) ltac:(done) ltac:(done)) as HT end.
  exact HT.
Qed.

Lemma unstake_does id u amount s : quiet s -> tokensBacked s ->
  does (fun x => Unstaked u id x) (UnstakeLiquid id u amount) s.
Proof.
  open_state s. intros HB. apply exclusive_user; [done|]. destruct (positiveAmount amount) as [a|] eqn:EA; [|done].
  apply positive_spec in EA as [-> Ha]. repeat (wstep; try done).
  match goal with |- context [tokenOf ?u ?id ?s] => destruct (tokenOf u id s) as [t|] eqn:ET end; [|done].
  repeat (wstep; try done). apply wp_bind, wp_or_panic; [by eapply HB|]. intros stake HS. repeat (wstep; try done). facts.
  split; [|done].
  match goal with |- transition ?s _ ?s' =>
    pose proof (t_unstake s id u a p t rate stake HP ET HR ltac:(done) ltac:(done) ltac:(done) ltac:(done) HS ltac:(done) ltac:(done)) as HT end.
  exact HT.
Qed.

Lemma create_does nanos seconds operator name rate heights s : quiet s -> 0 <= rate ->
  does (fun _ => Nothing) (CreatePool nanos seconds operator name rate heights) s.
Proof.
  open_state s. intros H0. apply exclusive_user; [done|]. wstep; [done|]. wstep. apply wp_bind.
  assert (HC : forall (Q : unit -> LiquidStakingManager -> Prop) (E : error -> LiquidStakingManager -> Prop) s',
    Q tt s' -> (forall e, E e s') ->
    wp (match cfg with
        | Some c => guard_err (rate <? MinCommission c) (ErrErrorf "commissionRate %d below config min %d");;
                    guard_err (MaxCommission c <? rate) (ErrErrorf "commissionRate %d exceeds config max %d")
        | None => mret tt end) Q E s').
  { intros Q E s' HQ HE. destruct cfg; [|done]. repeat (wstep; try done). }
  apply HC; [|done]. wstep; [done|].
  set (h := match heights with h :: _ => h | [] => 0 end). clearbody h.
  assert (HX : exists id createdAt, (if 0 <? h then (poolIDOf operator h, i64 h) else (poolIDOf operator nanos, seconds)) = (id, createdAt))
    by (destruct (0 <? h); eauto).
  destruct HX as (id & createdAt & ->). wstep; [done|]. cbn in HG1. destruct (ps !! id) eqn:EP; [done|]. facts.
  repeat wstep. split; [|done].
  match goal with |- transition ?s _ ?s' => exact (t_create s id operator name rate createdAt EP ltac:(lia)) end.
Qed.

Lemma distribute_does id caller amount s : quiet s -> does (fun _ => Nothing) (DistributeRewards id caller amount) s.
Proof.
  open_state s. apply exclusive_pool; [done|]. destruct (positiveAmount amount) as [a|] eqn:EA; [|done].
  apply positive_spec in EA as [-> Ha]. repeat (wstep; try done). facts. subst caller. split.
  - match goal with |- transition ?s _ ?s' => pose proof (t_distribute s id a p HP ltac:(done)) as HT end.
    cbn in HT. unfold updateRate in *. cbn in *. by destruct (0 <? p_TotalLiquidSupply p).
  - unfold updateRate. cbn. by destruct (0 <? p_TotalLiquidSupply p).
Qed.

Lemma compound_does verify id operator s : quiet s ->
  does (fun _ => Compounded id (default 0 (p_RewardPool <$> pools s !! id))) (CompoundRewards verify id operator) s.
Proof.
  open_state s. apply exclusive_pool; [done|]. cbn.
  eapply wp_mono; [apply (exclusive_user operator _
    (fun _ s' => transition (mkLsm cfg ps toks rates tot bals ∅ ∅ tv al pm)
       (Compounded id (default 0 (p_RewardPool <$> ps !! id))) (set_activePools ∅ s') /\ activePools s' = {[id]}))|done|]; [done| |].
  2: { intros e s' ->. done. }
  repeat (wstep; try done). cbn in HP. rewrite HP. cbn. destruct (Z.leb_spec (p_RewardPool p) 0) as [HL|HL].
  { wstep. split; [split; [|done]|done]. exact (t_compound_none (mkLsm cfg ps toks rates tot bals ∅ ∅ tv al pm) id p HP HL). }
  wstep. apply wp_bind. match goal with |- wp _ _ _ ?s => apply (wp_mono _ (fun _ s' => s' = s) _ (fun _ s' => s' = s)) end;
    [|intros [] s' ->|intros e s' ->; done].
  { destruct tv; cbn; [destruct (verify id (p_RewardPool p)); by wstep|]. by wstep. }
  repeat wstep. pose proof (t_compound (mkLsm cfg ps toks rates tot bals ∅ ∅ tv al pm) id p HP HL) as HT.
  unfold updateRate in *. cbn in *. by destruct (0 <? p_TotalLiquidSupply p).
Qed.

Lemma claim_does id operator s : quiet s -> does (fun _ => Nothing) (ClaimCommission id operator) s.
Proof.
  open_state s. apply exclusive_user; [done|]. repeat (wstep; try done). facts. subst operator. split.
  - match goal with |- transition ?s _ ?s' => pose proof (t_claim s id p HP) as HT end.
    cbn in HT. by destruct (0 <? p_TotalCommission p).
  - cbn. by destruct (0 <? p_TotalCommission p).
Qed.

Lemma does_bind {A} (ev : A -> Event) (m : M LiquidStakingManager A) s :
  does ev m s -> does id (m ≫= fun a => mret (ev a)) s.
Proof. unfold does, wp, mbind, M_bind. by destruct (m s) as [[a|e| |] s']. Qed.

(** Every operation fails and changes nothing or makes a transition. *)
Lemma exec_does op s : quiet s -> tokensBacked s -> opOk op -> does id (exec op) s.
Proof.
  intros HQ HB HO. destruct op; cbn [exec].
  - apply (does_bind (fun _ => _)), deposit_does, HQ.
  - apply (does_bind (fun _ => _)), create_does; [exact HQ|cbn in HO; lia].
  - apply (does_bind (fun _ => _)), stake_does, HQ.
  - apply does_bind, unstake_does; done.
  - apply (does_bind (fun _ => _)), distribute_does, HQ.
  - pose proof (does_bind _ _ _ (compound_does verify poolID operator s HQ)) as H. exact H.
  - apply (does_bind (fun _ => _)), claim_does, HQ.
  - destruct s. apply (t_settings _).
  - destruct s. apply (t_settings _).
  - destruct s. apply (t_settings _).
Qed.

(** ** Sums of the ledger *)

Definition delegated (p : StakingPool) : Z := msum (fun v => v) (p_Delegators p).
Definition held (p : StakingPool) : Z := p_TotalStaked p + p_RewardPool p + p_TotalCommission p.
Definition heldByUsers s : Z := msum (fun m => default 0 (m !! StakeAsset)) (userTokenBalances s).
Definition tokensIn (id : string) s : Z := msum (fun m => default 0 (t_Amount <$> m !! id)) (liquidTokens s).

(** All QAU of the subsystem: with the users and in the pools. *)
Definition holdings s : Z := heldByUsers s + msum held (pools s).

Lemma balance_set u a v s u' a' :
  getUserBalanceLocked u' a' (setUserBalance u a v s) =
  if decide (u = u' /\ a = a') then v else getUserBalanceLocked u' a' s.
Proof.
  unfold getUserBalanceLocked, setUserBalance. cbn. destruct (decide (u = u')) as [<-|HU].
  - rewrite lookup_insert_eq. cbn. destruct (decide (a = a')) as [<-|HA].
    + rewrite lookup_insert_eq, decide_True by done. done.
    + rewrite lookup_insert_ne, decide_False by naive_solver. destruct (userTokenBalances s !! u); [done|]. cbn. by rewrite lookup_empty.
  - rewrite lookup_insert_ne, decide_False by naive_solver. done.
Qed.

Lemma held_set u a v s :
  heldByUsers (setUserBalance u a v s) = heldByUsers s + (if decide (a = StakeAsset) then v - getUserBalanceLocked u a s else 0).
Proof.
  unfold heldByUsers, setUserBalance, getUserBalanceLocked. cbn. rewrite msum_insert.
  destruct (decide (a = StakeAsset)) as [->|HA].
  - rewrite lookup_insert_eq. destruct (userTokenBalances s !! u) as [m|]; cbn; lia.
  - rewrite lookup_insert_ne by done. destruct (userTokenBalances s !! u) as [m|]; cbn; [lia|]. rewrite lookup_empty. cbn. lia.
Qed.

Lemma tokenOf_put u id t s u' id' :
  tokenOf u' id' (putToken u id t s) = if decide (u = u' /\ id = id') then Some t else tokenOf u' id' s.
Proof.
  unfold tokenOf, putToken. cbn. destruct (decide (u = u')) as [<-|HU].
  - rewrite lookup_insert_eq. cbn. destruct (decide (id = id')) as [<-|HA].
    + rewrite lookup_insert_eq, decide_True by done. done.
    + rewrite lookup_insert_ne, decide_False by naive_solver. destruct (liquidTokens s !! u); [done|]. cbn. by rewrite lookup_empty.
  - rewrite lookup_insert_ne, decide_False by naive_solver. done.
Qed.

Lemma tokensIn_put u id t s id' :
  tokensIn id' (putToken u id t s) =
  tokensIn id' s + (if decide (id = id') then t_Amount t - default 0 (t_Amount <$> tokenOf u id s) else 0).
Proof.
  unfold tokensIn, putToken, tokenOf. cbn. rewrite msum_insert. destruct (decide (id = id')) as [<-|HA].
  - rewrite lookup_insert_eq. destruct (liquidTokens s !! u) as [m|]; cbn; lia.
  - rewrite lookup_insert_ne by done. destruct (liquidTokens s !! u) as [m|]; cbn; [lia|]. rewrite lookup_empty. cbn. lia.
Qed.

(** ** The invariant *)

Record poolOk s (id : string) (p : StakingPool) : Prop := {
  po_rate : exists r, exchangeRate s !! id = Some r /\ one <= r /\ p_TotalLiquidSupply p * r <= p_TotalStaked p * one;
  po_supply : p_TotalLiquidSupply p = tokensIn id s;
  po_reward : 0 <= p_RewardPool p;
  po_commission : 0 <= p_TotalCommission p;
  po_bps : 0 <= p_CommissionRate p <= 10000;
  po_stakes : map_Forall (fun _ v => 0 <= v) (p_Delegators p);
  po_within : delegated p <= p_TotalStaked p;
}.

Record ok s : Prop := {
  ok_quiet : quiet s;
  ok_pools : map_Forall (poolOk s) (pools s);
  ok_tokens : forall u id t, tokenOf u id s = Some t ->
    0 <= t_Amount t /\ exists p, pools s !! id = Some p /\ is_Some (p_Delegators p !! u);
  ok_total : totalLiquidStaked s = msum delegated (pools s);
  ok_balances : forall u a, 0 <= getUserBalanceLocked u a s;
}.

Lemma ok_backed s : ok s -> tokensBacked s.
Proof. intros HO u id t p HT HP. destruct (ok_tokens s HO u id t HT) as (_ & p' & HP' & HD). by simplify_eq. Qed.

Lemma poolOk_frame s s' id p : exchangeRate s' !! id = exchangeRate s !! id -> tokensIn id s' = tokensIn id s ->
  poolOk s id p -> poolOk s' id p.
Proof. intros HR HT []. split; rewrite ?HR, ?HT; done. Qed.

(** Only the pool [id] changes. *)
Lemma pools_set s s' id p p' : pools s' = <[id := p']> (pools s) -> pools s !! id = Some p -> map_Forall (poolOk s) (pools s) ->
  (forall id', id' <> id -> exchangeRate s' !! id' = exchangeRate s !! id') ->
  (forall id', id' <> id -> tokensIn id' s' = tokensIn id' s) ->
  (poolOk s id p -> poolOk s' id p') -> map_Forall (poolOk s') (pools s').
Proof.
  intros HE HP HF HR HT HN id' q. rewrite HE. destruct (decide (id' = id)) as [->|Hne].
  - rewrite lookup_insert_eq. intros [= <-]. apply HN, (HF id p HP).
  - rewrite lookup_insert_ne by done. intros Hq. apply (poolOk_frame s); auto.
Qed.

(** ** The transitions keep it *)

Lemma one_pos : 0 < one.
Proof. done. Qed.

Lemma stake_rate a rate : 0 < rate -> a * one / rate * rate <= a * one.
Proof. intros. rewrite Z.mul_comm. by apply Z.mul_div_le. Qed.

Lemma unstake_rate liq rate : liq * rate / one * one <= liq * rate.
Proof. rewrite Z.mul_comm. apply Z.mul_div_le, one_pos. Qed.

(** A change of one pool. *)
Lemma ok_change s s' id p p' : ok s -> pools s !! id = Some p -> pools s' = <[id := p']> (pools s) -> quiet s' ->
  (forall id', id' <> id -> exchangeRate s' !! id' = exchangeRate s !! id') ->
  (forall id', id' <> id -> tokensIn id' s' = tokensIn id' s) ->
  (poolOk s id p -> poolOk s' id p') ->
  (forall u id' t, tokenOf u id' s' = Some t ->
     (id' = id /\ 0 <= t_Amount t /\ is_Some (p_Delegators p' !! u)) \/ tokenOf u id' s = Some t) ->
  (forall u, is_Some (p_Delegators p !! u) -> is_Some (p_Delegators p' !! u)) ->
  totalLiquidStaked s' = totalLiquidStaked s + delegated p' - delegated p ->
  (forall u a, 0 <= getUserBalanceLocked u a s') -> ok s'.
Proof.
  intros [_ HPs HTk HTot _] HP HE HQ HR HT HN HK HD HL HB. split; [done| | | |done].
  - by eapply pools_set.
  - intros u id' t Ht. rewrite HE. destruct (HK u id' t Ht) as [(-> & H0 & HS)|Ht'].
    + rewrite lookup_insert_eq. eauto.
    + destruct (HTk u id' t Ht') as (H0 & q & Hq & HS). split; [done|]. destruct (decide (id = id')) as [<-|Hne].
      * rewrite lookup_insert_eq. assert (q = p) as -> by congruence. eauto.
      * rewrite lookup_insert_ne by done. eauto.
  - rewrite HE, msum_insert, HP, HL, HTot. cbn. lia.
Qed.

Lemma balance_nonneg s u a v : ok s -> 0 <= v -> forall u' a', 0 <= getUserBalanceLocked u' a' (setUserBalance u a v s).
Proof. intros HO Hv u' a'. rewrite balance_set. destruct (decide _); [done|apply HO]. Qed.

Lemma ok_stake s id u a p rate mintedAt : ok s -> pools s !! id = Some p -> exchangeRate s !! id = Some rate -> 0 < rate ->
  0 < a <= getUserBalanceLocked u StakeAsset s -> 0 < a * one / rate ->
  ok (set_totalLiquidStaked (totalLiquidStaked s + a)
       (putToken u id (mint id u (a * one / rate) mintedAt s)
          (subUserBalanceLocked u StakeAsset a (putPool id (addStake u a (a * one / rate) p) s)))).
Proof.
  intros HO HP HR Hr Ha Hl. pose proof (stake_rate a rate Hr) as HE. set (liq := a * one / rate) in *.
  assert (HD : delegated (addStake u a liq p) = delegated p + a).
  { unfold delegated, addStake. cbn. rewrite msum_insert. destruct (p_Delegators p !! u); cbn; lia. }
  set (t' := mint id u liq mintedAt s).
  assert (HM : t_Amount t' = default 0 (t_Amount <$> tokenOf u id s) + liq).
  { unfold t', mint. by destruct (tokenOf u id s). }
  assert (HT : forall id', tokensIn id' (putToken u id t' s) = tokensIn id' s + (if decide (id = id') then liq else 0)).
  { intros id'. rewrite tokensIn_put, HM. destruct (decide _); lia. }
  eapply (ok_change s _ id p); [done|done|done|apply HO|done| | | | | |].
  - intros id' Hne. specialize (HT id'). rewrite decide_False, Z.add_0_r in HT by done. exact HT.
  - intros [(r & HR' & H1 & HC) HS ? ? ? HF HW]. assert (r = rate) as -> by congruence. split; cbn; try done.
    + exists rate. split_and!; [done..|]. lia.
    + specialize (HT id). rewrite decide_True in HT by done. rewrite HS. symmetry. exact HT.
    + apply map_Forall_insert_2; [|done]. destruct (p_Delegators p !! u) as [v|] eqn:EV; cbn; [|lia]. specialize (HF u v EV). cbn in HF. lia.
    + rewrite HD. lia.
  - intros u' id' t Ht. change (tokenOf u' id' (putToken u id t' s) = Some t) in Ht. rewrite tokenOf_put in Ht.
    destruct (decide (u = u' /\ id = id')) as [[<- <-]|]; [|by right]. left. injection Ht as <-. split_and!; [done| |].
    + rewrite HM. destruct (tokenOf u id s) as [t|] eqn:ET; cbn; [|lia]. destruct (ok_tokens s HO _ _ _ ET). lia.
    + cbn. rewrite lookup_insert_eq. done.
  - intros w [v Hv]. cbn. destruct (decide (u = w)) as [<-|]; rewrite ?lookup_insert_eq, ?lookup_insert_ne by done; eauto.
  - cbn [totalLiquidStaked set_totalLiquidStaked]. rewrite HD. lia.
  - apply (balance_nonneg s u StakeAsset (getUserBalanceLocked u StakeAsset s - a) HO). lia.
Qed.

Lemma ok_unstake s id u liq p t rate stake : ok s -> pools s !! id = Some p -> tokenOf u id s = Some t -> exchangeRate s !! id = Some rate ->
  0 < liq <= t_Amount t -> liq <= p_TotalLiquidSupply p -> p_Delegators p !! u = Some stake -> 0 <= liq * rate / one <= stake ->
  ok (addUserBalanceLocked u StakeAsset (liq * rate / one)
       (set_totalLiquidStaked (totalLiquidStaked s - liq * rate / one)
          (putPool id (removeStake u stake (liq * rate / one) liq p)
             (putToken u id (mkToken (t_PoolID t) (t_Owner t) (t_Amount t - liq) (t_MintedAt t)) s)))).
Proof.
  intros HO HP ET HR Hl HLs HSt Hx. pose proof (unstake_rate liq rate) as HE. set (x := liq * rate / one) in *.
  assert (HD : delegated (removeStake u stake x liq p) = delegated p - x).
  { unfold delegated, removeStake. cbn. rewrite msum_insert, HSt. cbn. lia. }
  set (t' := mkToken (t_PoolID t) (t_Owner t) (t_Amount t - liq) (t_MintedAt t)).
  assert (HT : forall id', tokensIn id' (putToken u id t' s) = tokensIn id' s - (if decide (id = id') then liq else 0)).
  { intros id'. rewrite tokensIn_put, ET. cbn. destruct (decide _); lia. }
  eapply (ok_change s _ id p); [done|done|done|apply HO|done| | | | | |].
  - intros id' Hne. specialize (HT id'). rewrite decide_False, Z.sub_0_r in HT by done. exact HT.
  - intros [(r & HR' & H1 & HC) HS ? ? ? HF HW]. assert (r = rate) as -> by congruence. split; cbn; try done.
    + exists rate. split_and!; [done..|]. lia.
    + specialize (HT id). rewrite decide_True in HT by done. rewrite HS. symmetry. exact HT.
    + apply map_Forall_insert_2; [lia|done].
    + rewrite HD. lia.
  - intros u' id' t2 Ht. change (tokenOf u' id' (putToken u id t' s) = Some t2) in Ht. rewrite tokenOf_put in Ht.
    destruct (decide (u = u' /\ id = id')) as [[<- <-]|]; [|by right]. left. injection Ht as <-. split_and!; [done|cbn; lia|].
    cbn. by rewrite lookup_insert_eq.
  - intros w [v Hv]. cbn. destruct (decide (u = w)) as [<-|]; rewrite ?lookup_insert_eq, ?lookup_insert_ne by done; eauto.
  - cbn. rewrite HD. lia.
  - apply (balance_nonneg s u StakeAsset (getUserBalanceLocked u StakeAsset s + x) HO). pose proof (ok_balances s HO u StakeAsset). lia.
Qed.

Lemma updateRate_eq id p s :
  updateRate id p s = set_exchangeRate
    (if 0 <? p_TotalLiquidSupply p then <[id := p_TotalStaked p * one / p_TotalLiquidSupply p]> (exchangeRate s) else exchangeRate s) s.
Proof. unfold updateRate. destruct (0 <? p_TotalLiquidSupply p); [done|]. by destruct s. Qed.

(** The new rate covers the claims, and is not below the old one. *)
Lemma new_rate id p (rates : gmap string Z) r : rates !! id = Some r -> p_TotalLiquidSupply p * r <= p_TotalStaked p * one ->
  exists r', (if 0 <? p_TotalLiquidSupply p then <[id := p_TotalStaked p * one / p_TotalLiquidSupply p]> rates else rates) !! id = Some r' /\
    r <= r' /\ p_TotalLiquidSupply p * r' <= p_TotalStaked p * one.
Proof.
  intros HR HC. destruct (Z.ltb_spec 0 (p_TotalLiquidSupply p)) as [HL|]; [|eauto with lia].
  rewrite lookup_insert_eq. eexists. split; [done|]. split; [by apply Z.div_le_lower_bound|by apply Z.mul_div_le].
Qed.

Lemma rate_elsewhere id id' p (rates : gmap string Z) : id' <> id ->
  (if 0 <? p_TotalLiquidSupply p then <[id := p_TotalStaked p * one / p_TotalLiquidSupply p]> rates else rates) !! id' = rates !! id'.
Proof. intros. destruct (0 <? _); [|done]. by rewrite lookup_insert_ne. Qed.

Lemma ok_distribute s id r p : ok s -> pools s !! id = Some p -> 0 < r <= getUserBalanceLocked (p_Operator p) StakeAsset s ->
  let p' := addReward r (r * p_CommissionRate p / 10000) p in
  ok (updateRate id p' (putPool id p' (subUserBalanceLocked (p_Operator p) StakeAsset r s))).
Proof.
  intros HO HP Hr p'. rewrite updateRate_eq.
  eapply (ok_change s _ id p p'); [done|done|done|apply HO| |done| |by right|done|cbn; unfold delegated; cbn; lia|].
  - intros id' Hne. by apply rate_elsewhere.
  - intros [(r0 & HR & H1 & HC) HS ? ? HB HF HW].
    assert (HX : 0 <= r * p_CommissionRate p / 10000 <= r).
    { split; [apply Z.div_pos; nia|]. apply Z.div_le_upper_bound; nia. }
    split; cbn; try done; try lia.
    destruct (new_rate id p' (exchangeRate s) r0 HR HC) as (r' & HR' & Hle & HC'). exists r'. split_and!; [done|lia|done].
  - apply (balance_nonneg s (p_Operator p) StakeAsset (getUserBalanceLocked (p_Operator p) StakeAsset s - r) HO). lia.
Qed.

Lemma ok_compound s id p : ok s -> pools s !! id = Some p -> ok (updateRate id (compound p) (putPool id (compound p) s)).
Proof.
  intros HO HP. rewrite updateRate_eq.
  eapply (ok_change s _ id p (compound p)); [done|done|done|apply HO| |done| |by right|done|cbn; unfold delegated; cbn; lia|apply HO].
  - intros id' Hne. by apply rate_elsewhere.
  - intros [(r0 & HR & H1 & HC) HS ? ? HB HF HW]. split; cbn; try done; [|unfold delegated in *; cbn; lia].
    assert (HC2 : p_TotalLiquidSupply (compound p) * r0 <= p_TotalStaked (compound p) * one) by (cbn; pose proof one_pos; nia).
    destruct (new_rate id (compound p) (exchangeRate s) r0 HR HC2) as (r' & HR' & Hle & HC'). exists r'. split_and!; [done|lia|done].
Qed.

Lemma claim_eq u c s : (if 0 <? c then addUserBalanceLocked u StakeAsset c s else s) =
  set_userTokenBalances (if 0 <? c then userTokenBalances (addUserBalanceLocked u StakeAsset c s) else userTokenBalances s) s.
Proof. destruct (0 <? c); [done|]. by destruct s. Qed.

Lemma ok_claim s id p : ok s -> pools s !! id = Some p ->
  ok (if 0 <? p_TotalCommission p then addUserBalanceLocked (p_Operator p) StakeAsset (p_TotalCommission p) (putPool id (claimed p) s)
      else putPool id (claimed p) s).
Proof.
  intros HO HP. rewrite claim_eq.
  eapply (ok_change s _ id p (claimed p)); [done|done|done|apply HO|done|done| |by right|done|cbn; unfold delegated; cbn; lia|].
  - by intros [].
  - intros u a. destruct (Z.ltb_spec 0 (p_TotalCommission p)) as [HC|HC]; [|apply HO].
    apply (balance_nonneg s (p_Operator p) StakeAsset (getUserBalanceLocked (p_Operator p) StakeAsset s + p_TotalCommission p) HO).
    pose proof (ok_balances s HO (p_Operator p) StakeAsset). lia.
Qed.

Lemma fresh_tokens s id : ok s -> pools s !! id = None -> tokensIn id s = 0.
Proof.
  intros HO HN. unfold tokensIn.
  assert (HZ : forall u m, liquidTokens s !! u = Some m -> m !! id = None).
  { intros u m Hm. destruct (m !! id) as [t|] eqn:ET; [|done].
    destruct (ok_tokens s HO u id t) as (_ & p & HP & _); [by unfold tokenOf; rewrite Hm|congruence]. }
  revert HZ. generalize (liquidTokens s). clear. intros M. induction M as [|u k M Hu IH] using map_ind; intros HZ; [done|].
  rewrite msum_insert_new by done. rewrite (HZ u k) by apply lookup_insert_eq. rewrite IH; [done|].
  intros v j Hj. apply (HZ v j). rewrite lookup_insert_ne; [done|congruence].
Qed.

Lemma ok_create s id operator name rate createdAt : ok s -> pools s !! id = None -> 0 <= rate <= 10000 ->
  ok (set_exchangeRate (<[id := one]> (exchangeRate s)) (putPool id (mkPool id operator name 0 0 rate ∅ 0 0 createdAt true 0) s)).
Proof.
  intros HO HN Hr. pose proof (fresh_tokens s id HO HN) as HT. destruct HO as [HQ HPs HTk HTot HB]. split; [done| | | |done]; cbn.
  - intros id' q. destruct (decide (id = id')) as [<-|Hne].
    + rewrite lookup_insert_eq. intros [= <-]. split; cbn; try done. exists one. rewrite lookup_insert_eq. done.
    + rewrite lookup_insert_ne by done. intros Hq. apply (poolOk_frame s); [|done|by apply HPs]. cbn. by rewrite lookup_insert_ne.
  - intros u id' t Ht. destruct (HTk u id' t Ht) as (H0 & q & Hq & HS). split; [done|]. rewrite lookup_insert_ne by congruence. eauto.
  - rewrite msum_insert_new by done. cbn. done.
Qed.

Lemma ok_transition s ev s' : ok s -> transition s ev s' -> ok s'.
Proof.
  intros HO HT. destruct HT as [user asset a Ha|id operator name rate createdAt HN Hr|id u a p rate mintedAt HP HR Hr Ha Hl
    |id u liq p t rate stake HP ET HR Hr Hl HLs HTs HSt Hx HTo|id r p HP Hr p'|id p HP Hp|id p HP Hp|id p HP|v a m].
  - split; [apply HO| |apply HO|apply HO|].
    + intros id p HP. apply (poolOk_frame s); [done..|]. by apply HO.
    + apply balance_nonneg; [done|]. pose proof (ok_balances s HO user asset). lia.
  - by apply ok_create.
  - by apply ok_stake.
  - apply ok_unstake; try done. split; [|done]. apply Z.div_pos; [|done]. nia.
  - by apply ok_distribute.
  - by apply ok_compound.
  - done.
  - by apply ok_claim.
  - split; [apply HO| |apply HO|apply HO|apply HO]. intros id p HP. apply (poolOk_frame s); [done..|]. by apply HO.
Qed.

(** ** What transitions move *)

Definition deposit (ev : Event) : Z := match ev with Deposited a => a | _ => 0 end.
Definition put (u : Address) (id : string) (ev : Event) : Z :=
  match ev with Staked u' id' a => if decide (u' = u /\ id' = id) then a else 0 | _ => 0 end.
Definition taken (u : Address) (id : string) (ev : Event) : Z :=
  match ev with Unstaked u' id' a => if decide (u' = u /\ id' = id) then a else 0 | _ => 0 end.
Definition compounded (id : string) (ev : Event) : Z :=
  match ev with Compounded id' a => if decide (id' = id) then a else 0 | _ => 0 end.

(** The rewards that were folded into the stake of a pool. *)
Definition folded (p : StakingPool) : Z := p_TotalStaked p - delegated p.

Lemma holdings_pool s s' id p p' : pools s' = <[id := p']> (pools s) -> pools s !! id = Some p ->
  holdings s' = holdings s + (heldByUsers s' - heldByUsers s) + (held p' - held p).
Proof. intros HE HP. unfold holdings. rewrite HE, msum_insert, HP. cbn. lia. Qed.

Lemma transition_holdings s ev s' : ok s -> transition s ev s' -> holdings s' = holdings s + deposit ev.
Proof.
  intros HO HT. destruct HT as [user asset a Ha|id operator name rate createdAt HN Hr|id u a p rate mintedAt HP HR Hr Ha Hl
    |id u liq p t rate stake HP ET HR Hr Hl HLs HTs HSt Hx HTo|id r p HP Hr p'|id p HP Hp|id p HP Hp|id p HP|v a m].
  - unfold holdings, addUserBalanceLocked. rewrite held_set. cbn [pools setUserBalance set_userTokenBalances]. destruct (decide _); cbn [deposit]; lia.
  - unfold holdings. cbn. rewrite msum_insert_new by done. change (heldByUsers _) with (heldByUsers s). unfold held at 1. cbn. lia.
  - rewrite (holdings_pool s _ id p (addStake u a (a * one / rate) p)) by done.
    change (heldByUsers (set_totalLiquidStaked _ _)) with (heldByUsers (setUserBalance u StakeAsset (getUserBalanceLocked u StakeAsset s - a) s)).
    rewrite held_set, decide_True by done. unfold held. cbn. lia.
  - rewrite (holdings_pool s _ id p (removeStake u stake (liq * rate / one) liq p)) by done.
    change (heldByUsers (addUserBalanceLocked _ _ _ _)) with
      (heldByUsers (setUserBalance u StakeAsset (getUserBalanceLocked u StakeAsset s + liq * rate / one) s)).
    rewrite held_set, decide_True by done. unfold held. cbn. lia.
  - rewrite updateRate_eq, (holdings_pool s _ id p p') by done.
    change (heldByUsers (set_exchangeRate _ _)) with
      (heldByUsers (setUserBalance (p_Operator p) StakeAsset (getUserBalanceLocked (p_Operator p) StakeAsset s - r) s)).
    rewrite held_set, decide_True by done. unfold held, p'. cbn. lia.
  - rewrite updateRate_eq, (holdings_pool s _ id p (compound p)) by done.
    change (heldByUsers (set_exchangeRate _ _)) with (heldByUsers s). unfold held. cbn. lia.
  - cbn. lia.
  - cbn beta. rewrite claim_eq, (holdings_pool s _ id p (claimed p)) by done.
    unfold held. cbn. destruct (Z.ltb_spec 0 (p_TotalCommission p)).
    + change (heldByUsers (set_userTokenBalances _ _)) with
        (heldByUsers (setUserBalance (p_Operator p) StakeAsset (getUserBalanceLocked (p_Operator p) StakeAsset s + p_TotalCommission p) s)).
      rewrite held_set, decide_True by done. lia.
    + change (heldByUsers (set_userTokenBalances _ _)) with (heldByUsers s). pose proof (po_commission _ _ _ (ok_pools s HO id p HP)). lia.
  - unfold holdings. cbn. change (heldByUsers _) with (heldByUsers s). lia.
Qed.

(** What becomes of a pool: the rewards folded in stay, the stake of a delegator
    moves by what it puts in and takes out, and the rate does not fall. *)
Definition movedBy s s' (ev : Event) (id : string) (p p' : StakingPool) : Prop :=
  pools s' !! id = Some p' /\ folded p' = folded p + compounded id ev /\
  (forall u, default 0 (p_Delegators p' !! u) = default 0 (p_Delegators p !! u) + put u id ev - taken u id ev) /\
  (forall r, exchangeRate s !! id = Some r -> exists r', exchangeRate s' !! id = Some r' /\ r <= r').

(** The pool that changes and the others. *)
Lemma moved_one s s' ev id p p' : pools s !! id = Some p -> pools s' = <[id := p']> (pools s) ->
  (forall id', id' <> id -> exchangeRate s' !! id' = exchangeRate s !! id') ->
  (forall id', id' <> id -> compounded id' ev = 0 /\ forall u, put u id' ev = 0 /\ taken u id' ev = 0) ->
  movedBy s s' ev id p p' -> forall id' q, pools s !! id' = Some q -> exists q', movedBy s s' ev id' q q'.
Proof.
  intros HP HE HR HZ HM id' q Hq. destruct (decide (id' = id)) as [->|Hne]; [assert (q = p) as -> by congruence; eauto|].
  exists q. destruct (HZ id' Hne) as [Hc HZ']. unfold movedBy. rewrite HE, lookup_insert_ne, Hc, (HR id' Hne) by done. split_and!; [done|lia| |].
  - intros u. destruct (HZ' u) as [-> ->]. lia.
  - eauto with lia.
Qed.

(** Nothing happens to the pools. *)
Lemma moved_none s s' ev : pools s' = pools s -> exchangeRate s' = exchangeRate s ->
  (forall id, compounded id ev = 0) -> (forall u id, put u id ev = 0 /\ taken u id ev = 0) ->
  forall id q, pools s !! id = Some q -> exists q', movedBy s s' ev id q q'.
Proof.
  intros HE HR HC HZ id q Hq. exists q. unfold movedBy. rewrite HE, HR, HC. split_and!; [done|lia| |eauto with lia].
  intros u. destruct (HZ u id) as [-> ->]. lia.
Qed.

Ltac elsewhere := intros ? ?; cbn [compounded put taken]; repeat split; intros; rewrite ?decide_False by naive_solver; done.

Lemma transition_pool s ev s' id p : ok s -> transition s ev s' -> pools s !! id = Some p -> exists p', movedBy s s' ev id p p'.
Proof.
  intros HO HT. revert id p. destruct HT as [user asset a Ha|id operator name rate createdAt HN Hr|id u a p rate mintedAt HP HR Hr Ha Hl
    |id u liq p t rate stake HP ET HR Hr Hl HLs HTs HSt Hx HTo|id r p HP Hr p'|id p HP Hp|id p HP Hp|id p HP|v a m].
  - apply moved_none; try done; intros; by destruct (decide (asset = StakeAsset)).
  - intros id' q Hq. exists q. assert (id <> id') by congruence. unfold movedBy. cbn. rewrite !lookup_insert_ne by done.
    split_and!; [done|lia|intros; lia|eauto with lia].
  - eapply (moved_one s _ _ id p); [done|done|done|elsewhere|]. split_and!; [apply lookup_insert_eq| | |eauto with lia].
    + unfold folded, delegated. cbn. rewrite msum_insert. destruct (p_Delegators p !! u); cbn; lia.
    + intros w. cbn. destruct (decide (u = w)) as [<-|].
      * rewrite lookup_insert_eq, decide_True by done. cbn. lia.
      * rewrite lookup_insert_ne, decide_False by naive_solver. lia.
  - eapply (moved_one s _ _ id p); [done|done|done|elsewhere|]. split_and!; [apply lookup_insert_eq| | |eauto with lia].
    + unfold folded, delegated. cbn. rewrite msum_insert, HSt. cbn. lia.
    + intros w. cbn. destruct (decide (u = w)) as [<-|].
      * rewrite lookup_insert_eq, decide_True, HSt by done. cbn. lia.
      * rewrite lookup_insert_ne, decide_False by naive_solver. lia.
  - rewrite updateRate_eq. eapply (moved_one s _ _ id p p'); [done|done|intros; by apply rate_elsewhere|elsewhere|].
    split_and!; [apply lookup_insert_eq|unfold folded, delegated; cbn; lia|cbn; lia|].
    intros r0 HR. destruct (po_rate _ _ _ (ok_pools s HO id p HP)) as (r1 & HR1 & _ & HC). simplify_eq.
    destruct (new_rate id p' (exchangeRate s) r0 HR HC) as (r' & HR' & Hle & _). eauto.
  - rewrite updateRate_eq. eapply (moved_one s _ _ id p (compound p)); [done|done|intros; by apply rate_elsewhere|elsewhere|].
    split_and!; [apply lookup_insert_eq|unfold folded, delegated; cbn; rewrite decide_True by done; lia|cbn; lia|].
    intros r0 HR. destruct (po_rate _ _ _ (ok_pools s HO id p HP)) as (r1 & HR1 & _ & HC). simplify_eq.
    destruct (new_rate id (compound p) (exchangeRate s) r0 HR) as (r' & HR' & Hle & _); [cbn; pose proof one_pos; nia|eauto].
  - pose proof (po_reward _ _ _ (ok_pools s HO id p HP)). assert (E : p_RewardPool p = 0) by lia. rewrite E.
    apply moved_none; try done. intros id'. cbn. by destruct (decide _).
  - cbn beta. rewrite claim_eq. eapply (moved_one s _ _ id p (claimed p)); [done|done|done|elsewhere|].
    split_and!; [apply lookup_insert_eq|unfold folded, delegated; cbn; lia|cbn; lia|eauto with lia].
  - by apply moved_none.
Qed.

(** ** Runs *)

Inductive trace : LiquidStakingManager -> list Event -> LiquidStakingManager -> Prop :=
  | trace_nil s : trace s [] s
  | trace_cons s ev s1 evs s' : ok s -> transition s ev s1 -> trace s1 evs s' -> trace s (ev :: evs) s'.

Lemma run_trace ops : forall s, ok s -> Forall opOk ops -> trace s (run ops s).1 (run ops s).2 /\ ok (run ops s).2.
Proof.
  induction ops as [|op ops IH]; intros s HO HF; [split; [constructor|done]|]. apply list.Forall_cons in HF as [H1 HF].
  pose proof (exec_does op s (ok_quiet s HO) (ok_backed s HO) H1) as HD. unfold does, wp in HD. cbn [run].
  destruct (exec op s) as [[ev|e| |] s1]; [| |done|done].
  - pose proof (ok_transition s ev s1 HO HD) as HO1. destruct (IH s1 HO1 HF) as [HT HO']. destruct (run ops s1) as [evs s']. cbn in *.
    split; [by econstructor|done].
  - subst s1. destruct (IH s HO HF) as [HT HO']. by destruct (run ops s) as [evs s'].
Qed.

Definition total (f : Event -> Z) (evs : list Event) : Z := foldr (fun e n => f e + n) 0 evs.

Lemma trace_holdings s evs s' : trace s evs s' -> holdings s' = holdings s + total deposit evs.
Proof.
  induction 1 as [|s ev s1 evs s' HO HT _ IH]; [cbn; lia|]. cbn. rewrite IH, (transition_holdings s ev s1 HO HT). unfold total. lia.
Qed.

Lemma trace_rate s evs s' : trace s evs s' -> forall id p r, pools s !! id = Some p -> exchangeRate s !! id = Some r ->
  exists r', exchangeRate s' !! id = Some r' /\ r <= r'.
Proof.
  induction 1 as [|s ev s1 evs s' HO HT _ IH]; intros id p r HP Hr; [eauto with lia|].
  destruct (transition_pool s ev s1 id p HO HT HP) as (p1 & HP1 & _ & _ & HR1).
  destruct (HR1 r Hr) as (r1 & Hr1 & ?). destruct (IH id p1 r1 HP1 Hr1) as (r' & Hr' & ?). eauto with lia.
Qed.

(** A pool that is not there yet is not touched, and is empty when it is made. *)
Definition foldedIn (id : string) s : Z := default 0 (folded <$> pools s !! id).

Lemma transition_absent s ev s' id : transition s ev s' -> pools s !! id = None ->
  compounded id ev = 0 /\ (forall u, put u id ev = 0 /\ taken u id ev = 0) /\ foldedIn id s' = 0 /\ forall u, GetDelegatorStake id u s' = 0.
Proof.
  intros HT HN. unfold foldedIn, GetDelegatorStake. destruct HT as [user asset a Ha|id' operator name rate createdAt HN' Hr
    |id' u a p rate mintedAt HP HR Hr Ha Hl|id' u liq p t rate stake HP ET HR Hr Hl HLs HTs HSt Hx HTo|id' r p HP Hr p'|id' p HP Hp
    |id' p HP Hp|id' p HP|v a m]; rewrite ?updateRate_eq, ?claim_eq; cbn -[folded];
    try (assert (id' <> id) by congruence; rewrite ?decide_False by naive_solver; rewrite ?lookup_insert_ne by done); rewrite ?HN; try done.
  - by destruct (decide (asset = StakeAsset)).
  - destruct (decide (id' = id)) as [->|]; [rewrite lookup_insert_eq|by rewrite lookup_insert_ne, HN by done]. by split_and!.
  - split_and!; try done. intros w. rewrite decide_False by naive_solver. done.
  - split_and!; try done. intros w. rewrite decide_False by naive_solver. done.
Qed.

Lemma transition_ledger s ev s' id : ok s -> transition s ev s' -> foldedIn id s' = foldedIn id s + compounded id ev /\
  forall u, GetDelegatorStake id u s' = GetDelegatorStake id u s + put u id ev - taken u id ev.
Proof.
  intros HO HT. destruct (pools s !! id) as [p|] eqn:HP.
  - destruct (transition_pool s ev s' id p HO HT HP) as (p' & HP' & HF & HD & _). unfold foldedIn, GetDelegatorStake. by rewrite HP, HP'.
  - destruct (transition_absent s ev s' id HT HP) as (H1 & H2 & H3 & H4).
    unfold foldedIn at 2. rewrite HP. cbn. split; [lia|]. intros u. rewrite H4. destruct (H2 u) as [-> ->]. unfold GetDelegatorStake. by rewrite HP.
Qed.

Lemma trace_ledger s evs s' id : trace s evs s' -> foldedIn id s' = foldedIn id s + total (compounded id) evs /\
  forall u, GetDelegatorStake id u s' = GetDelegatorStake id u s + total (put u id) evs - total (taken u id) evs.
Proof.
  induction 1 as [|s ev s1 evs s' HO HT _ [IH1 IH2]]; [cbn; split; lia|].
  destruct (transition_ledger s ev s1 id HO HT) as [H1 H2]. unfold total in *. cbn [foldr]. split; [lia|].
  intros u. rewrite IH2, H2. lia.
Qed.

Lemma ok_new cfg : ok (NewLiquidStakingManager cfg).
Proof. by split. Qed.

(** The claims of all holders, each rounded down, and their sum. *)
Lemma claims_sum (f : gmap string LiquidStakingToken -> Z) r (m : gmap Address (gmap string LiquidStakingToken)) :
  msum (fun x => f x * r / one) m * one <= msum f m * r.
Proof.
  induction m as [|k x m Hk IH] using map_ind; [done|]. rewrite !msum_insert_new by done. pose proof (unstake_rate (f x) r). lia.
Qed.

(** ** Bounds *)

Lemma liquid_supply_nonneg s id p : ok s -> pools s !! id = Some p -> 0 <= p_TotalLiquidSupply p.
Proof.
  intros HO HP. rewrite (po_supply _ _ _ (ok_pools s HO id p HP)). apply msum_nonneg. intros u m Hm.
  destruct (m !! id) as [t|] eqn:ET; [|done]. cbn. apply (ok_tokens s HO u id t). unfold tokenOf. by rewrite Hm.
Qed.

Lemma delegated_nonneg s id p : ok s -> pools s !! id = Some p -> 0 <= delegated p.
Proof. intros HO HP. apply msum_nonneg, (po_stakes _ _ _ (ok_pools s HO id p HP)). Qed.

Lemma total_nonneg s : ok s -> 0 <= totalLiquidStaked s.
Proof. intros HO. rewrite (ok_total s HO). apply msum_nonneg. intros id p HP. by eapply delegated_nonneg. Qed.

(** ** Unstaking, decided *)

Lemma wp_pool id p (Q : StakingPool -> LiquidStakingManager -> Prop) (E : error -> LiquidStakingManager -> Prop) s :
  pools s !! id = Some p -> Q p s -> wp (findPool id) Q E s.
Proof. intros HP HQ. unfold wp, findPool, mbind, M_bind, gets. cbn. by rewrite HP. Qed.

Lemma wp_rate id r msg (Q : Z -> LiquidStakingManager -> Prop) (E : error -> LiquidStakingManager -> Prop) s :
  exchangeRate s !! id = Some r -> 0 < r -> Q r s -> wp (rateOf id msg) Q E s.
Proof.
  intros HR Hr HQ. unfold wp, rateOf, mbind, M_bind, gets. cbn. rewrite HR. unfold guard_err. by destruct (Z.leb_spec r 0); [lia|].
Qed.

(** A test that arithmetic decides. *)
Ltac passes := apply wp_bind, wp_guard; [let H := fresh in intros H; exfalso; cbn in *; rewrite ?Z.ltb_lt, ?Z.leb_le in H; lia|intros _].

Lemma unstake_wp s id u liq p t rate stake : quiet s -> pools s !! id = Some p -> tokenOf u id s = Some t ->
  exchangeRate s !! id = Some rate -> 0 < rate -> 0 < liq <= t_Amount t -> liq <= p_TotalLiquidSupply p ->
  liq * rate / one <= p_TotalStaked p -> p_Delegators p !! u = Some stake -> liq * rate / one <= totalLiquidStaked s ->
  wp (UnstakeLiquid id u (Some liq))
    (fun x s' => x = liq * rate / one /\ x <= stake /\ getUserBalanceLocked u StakeAsset s' = getUserBalanceLocked u StakeAsset s + x)
    (fun e s' => (e = ErrLiquidTokenInsufficient /\ stake < liq * rate / one) /\ s' = s) s.
Proof.
  open_state s. intros HP HT HR Hr Hl HLs HTs HSt HTo. apply exclusive_user_gen; [done|].
  assert (HA : positiveAmount (Some liq) = Some liq) by (cbn; destruct (Z.ltb_spec 0 liq); [done|lia]). rewrite HA.
  apply wp_bind, (wp_pool id p); [done|]. wstep.
  change (tokenOf u id (Datatypes.id _)) with (tokenOf u id (mkLsm cfg ps toks rates tot bals ∅ ∅ tv al pm)). rewrite HT.
  passes. apply wp_bind, (wp_rate id rate); [done|done|]. cbn zeta. passes. passes. rewrite HSt. apply wp_bind, wp_or_panic; [done|].
  intros stake' [= <-]. apply wp_bind, wp_guard; [intros HX; apply Z.ltb_lt in HX; done|intros HX; apply Z.ltb_ge in HX].
  passes. repeat wstep. split; [|done]. split_and!; [done|done|]. unfold addUserBalanceLocked.
  pose proof (balance_set u StakeAsset (getUserBalanceLocked u StakeAsset (mkLsm cfg ps toks rates tot bals ∅ ∅ tv al pm) + liq * rate / one)
    (mkLsm cfg ps toks rates tot bals ∅ ∅ tv al pm) u StakeAsset) as HB. rewrite decide_True in HB by done. exact HB.
Qed.

Lemma token_within s u id t p : ok s -> tokenOf u id s = Some t -> pools s !! id = Some p -> t_Amount t <= p_TotalLiquidSupply p.
Proof.
  intros HO HT HP. rewrite (po_supply _ _ _ (ok_pools s HO id p HP)). unfold tokenOf in HT.
  destruct (liquidTokens s !! u) as [m|] eqn:EM; [|done]. cbn in HT.
  pose proof (msum_elem (fun m => default 0 (t_Amount <$> m !! id)) u m (liquidTokens s)) as HE. cbn beta in HE. rewrite HT in HE. apply HE; [|done].
  intros w k Hk. destruct (k !! id) as [t'|] eqn:ET; [|done]. cbn. apply (ok_tokens s HO w id t'). unfold tokenOf. by rewrite Hk.
Qed.

(** Tokens worth more than the stake of their holder. *)
Lemma unstake_refused s id u liq p t rate : ok s -> pools s !! id = Some p -> tokenOf u id s = Some t -> exchangeRate s !! id = Some rate ->
  0 < liq <= t_Amount t -> GetDelegatorStake id u s < liq * rate / one ->
  UnstakeLiquid id u (Some liq) s = (Err ErrLiquidTokenInsufficient, s).
Proof.
  intros HO HP HT HR Hl HG.
  assert (HW : wp (UnstakeLiquid id u (Some liq)) (fun _ _ => False) (fun e s' => e = ErrLiquidTokenInsufficient /\ s' = s) s).
  { assert (Hr : 0 < rate) by (destruct (po_rate _ _ _ (ok_pools s HO id p HP)) as (r & HR' & H1 & _); simplify_eq; pose proof one_pos; lia).
    destruct (ok_backed s HO u id t p HT HP) as [stake HSt]. unfold GetDelegatorStake in HG. rewrite HP, HSt in HG. cbn in HG.
    pose proof (ok_quiet s HO) as HQ. clear HO. revert HQ HP HT HR. open_state s. intros HP HT HR. apply exclusive_user_gen; [done|].
    assert (HA : positiveAmount (Some liq) = Some liq) by (cbn; destruct (Z.ltb_spec 0 liq); [done|lia]). rewrite HA.
    apply wp_bind, (wp_pool id p); [done|]. wstep.
    change (tokenOf u id (Datatypes.id _)) with (tokenOf u id (mkLsm cfg ps toks rates tot bals ∅ ∅ tv al pm)). rewrite HT.
    wstep; [done|]. apply wp_bind, (wp_rate id rate); [done|done|]. cbn zeta. do 2 (wstep; [done|]). rewrite HSt.
    apply wp_bind, wp_or_panic; [done|]. intros stake' [= <-]. wstep; [done|]. exfalso. apply Z.ltb_ge in HG3. lia. }
  unfold wp in HW. destruct (UnstakeLiquid id u (Some liq) s) as [[y|e| |] s2]; try done. by destruct HW as [-> ->].
Qed.

Lemma staked_inv s u id a s1 : transition s (Staked u id a) s1 -> exists p rate mintedAt,
  pools s !! id = Some p /\ exchangeRate s !! id = Some rate /\ 0 < rate /\ 0 < a /\ 0 < a * one / rate /\
  s1 = set_totalLiquidStaked (totalLiquidStaked s + a)
         (putToken u id (mint id u (a * one / rate) mintedAt s)
            (subUserBalanceLocked u StakeAsset a (putPool id (addStake u a (a * one / rate) p) s))).
Proof.
  intros HT. remember (Staked u id a) as ev eqn:E. destruct HT; try discriminate E; [by destruct (decide _)|].
  injection E as -> -> ->. eexists _, _, _. split_and!; try done. lia.
Qed.

Lemma stake_back a rate : 0 < rate -> (a - a * one / rate * rate / one) * one < rate + one.
Proof.
  intros Hr. pose proof (Z.mul_succ_div_gt (a * one) rate Hr). pose proof (Z.mul_succ_div_gt (a * one / rate * rate) one one_pos). lia.
Qed.

End LiquidStakingSpec.
