(* ===== verification/LiquidStakingTheorems.v ===== *)
(** * Theorems about liquid staking

    No operation creates or destroys QAU; the stake of a pool covers the claims of
    the holders of its tokens, and the exchange rate never falls; a stake that is
    taken back at once returns in full up to rounding; and the rewards that are
    folded into a pool never leave it. *)

From Stdlib Require Import ZArith Lia.
From Stdlib.Strings Require Import Byte.
From stdpp Require Import base list countable gmap strings numbers.
From S2P Require Import Prelude Wp Stack LiquidStaking LiquidStakingSpec.

Import LiquidStaking LiquidStakingSpec.

(** ** A pool with one delegator, at work *)

Module Pool.
Definition operator : Address := array_of_Z 20 1.
Definition alice : Address := array_of_Z 20 2.
Definition pool : string := poolIDOf operator 7.

(** Alice stakes 500 of her 1000, and the operator adds 100 as rewards, of which
    it keeps a tenth. *)
Definition ops : list Op :=
  [ODeposit operator StakeAsset (Some 1000); ODeposit alice StakeAsset (Some 1000); OAllowUnverifiedCompounding;
   OCreatePool 0 0 operator "first" 1000 [7]; OStakeLiquid 0 pool alice (Some 500) [60];
   ODistributeRewards pool operator (Some 100); OCompoundRewards (fun _ _ => None) pool operator].
Definition state : LiquidStakingManager := (run ops (NewLiquidStakingManager None)).2.

Lemma found {A} (o : option A) : match o with Some _ => true | None => false end = true -> is_Some o.
Proof. destruct o; [eauto|done]. Qed.

Lemma pool_found : is_Some (pools state !! pool).
Proof. apply found. vm_compute. reflexivity. Qed.

Lemma accepted {S A} (m : M S A) s : match m s with (Ok _, _) => true | _ => false end = true -> exists a s', m s = (Ok a, s').
Proof. destruct (m s) as [[a|e| |] s']; [eauto|done..]. Qed.

Lemma token_at u id s n :
  match tokenOf u id s with Some t => (0 <? n) && (n <=? t_Amount t) | None => false end = true ->
  exists t, tokenOf u id s = Some t /\ 0 < n <= t_Amount t.
Proof.
  destruct (tokenOf u id s) as [t|]; [|done]. intros H. apply andb_true_iff in H as [H1 H2].
  exists t. split; [done|lia].
Qed.

Lemma ops_ok : Forall opOk ops.
Proof. repeat constructor; done. Qed.
End Pool.

(** C35: liquid staking conserves QAU: after any sequence of operations on a new
    manager, what the users hold and what the pools hold as stake, rewards and
    commission is what was deposited; no balance, reward or stake is negative, and
    the recorded total is the sum of the stakes. An operation never panics, and one
    that fails changes nothing. *)
Theorem staking_conserves (cfg : option StakingConfig) (ops : list Op) (HF : Forall opOk ops) :
  let '(evs, s) := run ops (NewLiquidStakingManager cfg) in
  holdings s = total deposit evs /\ totalLiquidStaked s = msum delegated (pools s) /\
  (forall u a, 0 <= getUserBalanceLocked u a s) /\
  (forall id p, pools s !! id = Some p ->
     0 <= p_RewardPool p /\ 0 <= p_TotalCommission p /\ map_Forall (fun _ v => 0 <= v) (p_Delegators p) /\ delegated p <= p_TotalStaked p) /\
  (forall op, opOk op -> (exists e, exec op s = (Err e, s)) \/ (exists ev s', exec op s = (Ok ev, s'))).
Proof.
  destruct (run_trace ops (NewLiquidStakingManager cfg) (ok_new cfg) HF) as [HT HO].
  destruct (run ops (NewLiquidStakingManager cfg)) as [evs s]. cbn in *. split_and!.
  - apply (trace_holdings _ _ _ HT).
  - apply HO.
  - apply HO.
  - intros id p HP. destruct (ok_pools s HO id p HP). done.
  - intros op Hop. pose proof (exec_does op s (ok_quiet s HO) (ok_backed s HO) Hop) as HD. unfold does, wp in HD.
    destruct (exec op s) as [[ev|e| |] s']; [eauto|subst; eauto|done|done].
Qed.

Lemma staking_conserves_witness :
  (exists evs, run Pool.ops (NewLiquidStakingManager None) = (evs, Pool.state) /\ holdings Pool.state = total deposit evs /\
     total deposit evs = 2000).
Proof.
  pose proof (staking_conserves None Pool.ops Pool.ops_ok) as H. unfold Pool.state.
  destruct (run Pool.ops (NewLiquidStakingManager None)) as [evs s] eqn:E. destruct H as [H _]. exists evs. split_and!; [done|done|].
  assert (E2 : total deposit (run Pool.ops (NewLiquidStakingManager None)).1 = 2000) by (vm_compute; reflexivity).
  rewrite E in E2. exact E2.
Defined.



(** The tokens of a stake can be redeemed at once. *)
Lemma unstake_after_stake s s1 id u a p rate mintedAt : ok s -> ok s1 -> pools s !! id = Some p -> exchangeRate s !! id = Some rate ->
  0 < rate -> 0 < a * one / rate ->
  s1 = set_totalLiquidStaked (totalLiquidStaked s + a)
         (putToken u id (mint id u (a * one / rate) mintedAt s)
            (subUserBalanceLocked u StakeAsset a (putPool id (addStake u a (a * one / rate) p) s))) ->
  exists s2, UnstakeLiquid id u (Some (a * one / rate)) s1 = (Ok (a * one / rate * rate / one), s2) /\ a * one / rate * rate / one <= a /\
    getUserBalanceLocked u StakeAsset s2 = getUserBalanceLocked u StakeAsset s - a + a * one / rate * rate / one.
Proof.
  intros HO HO1 HP HR Hr Hl E1. pose proof (stake_rate a rate Hr) as HX. set (liq := a * one / rate) in *.
  pose proof (unstake_rate liq rate) as HY. set (x := liq * rate / one) in *.
  assert (Hx : x <= a) by (apply (Z.mul_le_mono_pos_r _ _ one one_pos); lia).
  pose proof (delegated_nonneg s id p HO HP). pose proof (po_within _ _ _ (ok_pools s HO id p HP)).
  pose proof (liquid_supply_nonneg s id p HO HP). pose proof (total_nonneg s HO).
  assert (HK : 0 <= default 0 (p_Delegators p !! u)).
  { destruct (p_Delegators p !! u) as [v|] eqn:EV; [|done]. exact (po_stakes _ _ _ (ok_pools s HO id p HP) u v EV). }
  assert (HM : liq <= t_Amount (mint id u liq mintedAt s)).
  { unfold mint. destruct (tokenOf u id s) as [t0|] eqn:ET; [|done]. destruct (ok_tokens s HO u id t0 ET). cbn. lia. }
  assert (HW : wp (UnstakeLiquid id u (Some liq))
    (fun y s' => y = x /\ y <= default 0 (p_Delegators p !! u) + a /\ getUserBalanceLocked u StakeAsset s' = getUserBalanceLocked u StakeAsset s1 + y)
    (fun e s' => (e = ErrLiquidTokenInsufficient /\ default 0 (p_Delegators p !! u) + a < x) /\ s' = s1) s1).
  { apply (unstake_wp s1 id u liq (addStake u a liq p) (mint id u liq mintedAt s) rate); [apply HO1|..]; subst s1; cbn; try done; try lia.
    - apply lookup_insert_eq.
    - pose proof (tokenOf_put u id (mint id u liq mintedAt s) s u id) as E. rewrite decide_True in E by done. exact E.
    - apply lookup_insert_eq. }
  assert (HB : getUserBalanceLocked u StakeAsset s1 = getUserBalanceLocked u StakeAsset s - a).
  { subst s1. pose proof (balance_set u StakeAsset (getUserBalanceLocked u StakeAsset s - a) s u StakeAsset) as E.
    rewrite decide_True in E by done. exact E. }
  unfold wp in HW. destruct (UnstakeLiquid id u (Some liq) s1) as [[y|e| |] s2]; [|lia|done|done].
  destruct HW as (-> & _ & HW). exists s2. split_and!; [done|done|lia].
Qed.

(** C37: a stake that is taken back at once returns, up to rounding: after any
    operations on a new manager, the tokens minted for a stake can be redeemed,
    for no more than was staked, and for less by under one unit and the value of
    one token; the balance of the user is what it was but for this difference. *)
Theorem stake_unstake_roundtrip (cfg : option StakingConfig) (ops : list Op) (HF : Forall opOk ops)
    (now a : Z) (id : string) (u : Address) (blockTime : list Z) (t : LiquidStakingToken) (s1 : LiquidStakingManager) :
  let s := (run ops (NewLiquidStakingManager cfg)).2 in
  StakeLiquid now id u (Some a) blockTime s = (Ok t, s1) ->
  exists rate x s2, exchangeRate s !! id = Some rate /\ UnstakeLiquid id u (Some (a * one / rate)) s1 = (Ok x, s2) /\
    x <= a /\ (a - x) * one < rate + one /\ getUserBalanceLocked u StakeAsset s2 = getUserBalanceLocked u StakeAsset s - a + x.
Proof.
  intros s HS. destruct (run_trace ops (NewLiquidStakingManager cfg) (ok_new cfg) HF) as [_ HO]. fold s in HO.
  pose proof (stake_does now id u (Some a) blockTime s (ok_quiet s HO)) as HD. unfold does in HD.
  pose proof (wp_Ok _ _ _ _ _ _ HD HS) as HT. cbn in HT. pose proof (ok_transition s _ s1 HO HT) as HO1.
  destruct (staked_inv s u id a s1 HT) as (p & rate & mintedAt & HP & HR & Hr & _ & Hl & E1).
  destruct (unstake_after_stake s s1 id u a p rate mintedAt HO HO1 HP HR Hr Hl E1) as (s2 & HU & Hx & HB).
  exists rate, (a * one / rate * rate / one), s2. split_and!; [done|done|done|by apply stake_back|done].
Qed.

(** A stake of 7 after the rewards, and its result. *)
Lemma stake_unstake_roundtrip_witness :
  exists t s1, StakeLiquid 0 Pool.pool Pool.alice (Some 7) [60] Pool.state = (Ok t, s1) /\
    exists rate x s2, exchangeRate Pool.state !! Pool.pool = Some rate /\
      UnstakeLiquid Pool.pool Pool.alice (Some (7 * one / rate)) s1 = (Ok x, s2) /\ x <= 7.
Proof.
  destruct (Pool.accepted (StakeLiquid 0 Pool.pool Pool.alice (Some 7) [60]) Pool.state) as (t & s1 & E);
    [vm_compute; reflexivity|]. exists t, s1. split; [exact E|].
  destruct (stake_unstake_roundtrip None Pool.ops Pool.ops_ok 0 7 Pool.pool Pool.alice [60] t s1 E) as (rate & x & s2 & H1 & H2 & H3 & _).
  exact (ex_intro _ rate (ex_intro _ x (ex_intro _ s2 (conj H1 (conj H2 H3))))).
Defined.

(** C40: rewards that are folded into a pool never leave it: whatever is done, the
    stake of a pool is what its delegators have in it and all rewards folded in so
    far, and a delegator has taken out no more than it put in; redeeming tokens that
    are worth more than what the delegator has in the pool is refused. *)
Theorem rewards_never_leave_pool (cfg : option StakingConfig) (ops : list Op) (HF : Forall opOk ops) :
  let '(evs, s) := run ops (NewLiquidStakingManager cfg) in
  forall id p, pools s !! id = Some p ->
  p_TotalStaked p = delegated p + total (compounded id) evs /\
  (forall u, total (taken u id) evs + GetDelegatorStake id u s = total (put u id) evs /\ 0 <= GetDelegatorStake id u s) /\
  (forall u t rate liq, tokenOf u id s = Some t -> exchangeRate s !! id = Some rate -> 0 < liq <= t_Amount t ->
     GetDelegatorStake id u s < liq * rate / one -> UnstakeLiquid id u (Some liq) s = (Err ErrLiquidTokenInsufficient, s)).
Proof.
  destruct (run_trace ops (NewLiquidStakingManager cfg) (ok_new cfg) HF) as [HT HO].
  destruct (run ops (NewLiquidStakingManager cfg)) as [evs s]. cbn in HT, HO. intros id p HP.
  destruct (trace_ledger _ _ _ id HT) as [H1 H2]. unfold foldedIn in H1. rewrite HP in H1. cbn -[folded] in H1.
  rewrite lookup_empty in H1. cbn -[folded] in H1. unfold folded in H1.
  split_and!; [lia| |].
  - intros u. specialize (H2 u). assert (GetDelegatorStake id u (NewLiquidStakingManager cfg) = 0) by done. split; [lia|].
    unfold GetDelegatorStake. rewrite HP. destruct (p_Delegators p !! u) as [v|] eqn:EV; [|done].
    exact (po_stakes _ _ _ (ok_pools s HO id p HP) u v EV).
  - intros u t rate liq HTk HR Hl HG. apply (unstake_refused s id u liq p t rate); done.
Qed.

(** After the rewards Alice's 500 tokens are worth 590, and cannot be redeemed. *)
Lemma rewards_never_leave_pool_witness :
  exists evs p, run Pool.ops (NewLiquidStakingManager None) = (evs, Pool.state) /\ pools Pool.state !! Pool.pool = Some p /\
    p_TotalStaked p = delegated p + total (compounded Pool.pool) evs /\ total (compounded Pool.pool) evs = 90 /\
    UnstakeLiquid Pool.pool Pool.alice (Some 500) Pool.state = (Err ErrLiquidTokenInsufficient, Pool.state).
Proof.
  pose proof (rewards_never_leave_pool None Pool.ops Pool.ops_ok) as H. destruct Pool.pool_found as [p HP].
  assert (E2 : total (compounded Pool.pool) (run Pool.ops (NewLiquidStakingManager None)).1 = 90) by (vm_compute; reflexivity).
  assert (ET : exists t, tokenOf Pool.alice Pool.pool Pool.state = Some t /\ 0 < 500 <= t_Amount t).
  { apply Pool.token_at. vm_compute. reflexivity. }
  assert (ER : exchangeRate Pool.state !! Pool.pool = Some (1180000000000000000)) by (vm_compute; reflexivity).
  assert (ES : GetDelegatorStake Pool.pool Pool.alice Pool.state < 500 * 1180000000000000000 / one) by (vm_compute; reflexivity).
  unfold Pool.state in *. destruct (run Pool.ops (NewLiquidStakingManager None)) as [evs s]. cbn [fst snd] in *.
  destruct (H Pool.pool p HP) as (H1 & _ & H3). destruct ET as (t & ET & HA). exists evs, p. split_and!; [done|done|done|done|].
  exact (H3 Pool.alice t _ 500 ET ER HA ES).
Defined.
